(* ===== verification/_CoqProject ===== *)
-Q . S2P
Prelude.v
OrdMap.v
Text.v
Std.v
PrivacyGuard.v
StatusTypes.v
Redaction.v
RedactionSafety.v
QuotaCredits.v
QuotaGrants.v
QuotaUpload.v
SectionCache.v
DurableCodec.v
DurableTypes.v
DurableEntries.v
DurableContainers.v
DurableDigest.v
DurableStruct.v
UsageTotals.v
PriceLines.v
AdaptiveCadence.v
SourceRotation.v
BirthStore.v
BirthLaws.v
BirthCodec.v
BirthTheorems.v
DurableSchemas.v
DurableProps.v
ClaudeRecords.v
ClaudeRecordCodec.v
ClaudeRecordLaws.v
ClaudeResolve.v
Chars.v
ShellPaths.v
ShellLexer.v
ShellEval.v
ShellProps.v
ShellQuote.v
ShellLimits.v
Kinds.v
KindsV2.v
KindsProps.v
Composition.v
NetState.v
NetProcess.v
NetLaws.v
NetThreads.v
NetResolver.v
NetWorkers.v
NetRuns.v
NetTransition.v
DetectedUses.v
DetectedUsesLaws.v
DetectedUsesCache.v
UploadPolicy.v
UploadPolicyLaws.v
UploadPolicyTheorems.v
RelayAuth.v
RelayTheorems.v
ClientReport.v
RetryBudget.v
Quarantine.v
Refusals.v
UploadLedger.v
UploadCycle.v
UploadPage.v
UploadLoop.v
PackLaws.v
BatchAck.v
BatchTransport.v
UploadPageLaws.v
UploadLaws.v
UploadSettles.v
AckLaws.v
UploadPass.v
UploadTheorems.v
AckRetention.v
AckRetentionLaws.v
AckAdmission.v
LegacySettlement.v
