(* ===== verification/Prelude.v ===== *)
(** * Verified model of the Ottto local platform

    Ottto's daemon (src/crates/ottto-service) reads the transcripts of coding
    agents on a machine, counts their tokens and costs exactly, keeps small
    durable files about what it has read, and uploads status and counts; the
    wire types and the privacy guards live in src/crates/ottto-protocol.  This
    library models the parts of it that compute: shallow embeddings of the Rust
    code, executable, with the theorems that make each part correct.

    ** Conventions

    A [u64], [u32], .. is a [Z] with its wrap or its check written out
    ([wrap_u], [checked_add]).  An [Option], and a [Result] whose error says
    nothing, is an [option], and [try?] is [?]; other results keep their error.
    A [&mut self] method takes and returns the state.  A [Vec] is a list, a
    [BTreeMap] or a vector kept sorted is a list in key order (OrdMap), a
    [HashMap] a [gmap].  A [str] is its bytes ([string], Text) where the code
    works on bytes, its characters ([list Z], Chars) where it walks characters.

    ** Parts, files and how they call each other

    Shared: Prelude (notations, tactics, hint database [ottto], arithmetic),
    OrdMap (sorted vectors, BTreeMap), Text, Chars (str), Std (slices, Duration,
    Instant).

    Durable files (durable_tail_codec.rs).  DurableCodec is the byte layer and
    the record contract, DurableTypes the [Durable] traits as dictionaries with
    the class of laws [DurableOk], DurableEntries, DurableContainers and
    DurableDigest the instances, DurableStruct the macros.  The other parts
    declare their records through it: DurableSchemas (snapshots/session_start.rs,
    the ownership boundary of snapshots/scan/accumulator.rs; theorems in
    DurableProps), UsageTotals (snapshots/usage.rs), ClaudeRecordCodec.

    Claude responses (snapshots/claude_response_records.rs).  ClaudeRecords has
    the compact form, observing and resolving; ClaudeRecordLaws and
    ClaudeResolve its laws.  Resolution merges the totals of UsageTotals, and
    PriceLines (usage.rs, limits.rs) stamps a request's price bucket.

    Claude births (snapshots/claude_request_money/birth_store.rs).  BirthStore
    has tables and operations, BirthLaws the invariant under updates and
    merges, BirthCodec the binary text and the tables that loads, updates and
    merges reach, BirthTheorems the contract.

    Scheduling.  AdaptiveCadence (adaptive_collector.rs) says when a source is
    due; SourceRotation (source_rotation.rs) serves the due sources in turn.

    Status upload (ottto-protocol/src/lib.rs, quota_credit_model.rs).
    StatusTypes is the snapshot; PrivacyGuard the text guards; Redaction the
    backend copy, RedactionSafety what it can carry.  QuotaCredits builds
    credit balances from provider records (laws in QuotaGrants), SectionCache
    re-sends the last section when one was not read, and QuotaUpload composes:
    what the credit model builds passes the redaction whole.

    Upload policy (upload_policy.rs, with its rules in session_attribution.rs and
    snapshots/session_start.rs).  UploadPolicy has the settings, the rules of a
    body and of a footprint and the remembered policy; UploadPolicyLaws states
    the rules as one function of the body and what a body conforms to,
    UploadPolicyTheorems the contract.

    Snapshot upload (snapshot_sync.rs with its modules, snapshot_client.rs).
    The ledger of an upload ([SnapshotUploadProgress], UploadLedger) says of each
    body whether the backend accepted it, refused it (Refusals: reasons,
    re-offers, revisions) or made it wait (Quarantine: records, deadlines, the
    retry contract; laws at its end).  UploadCycle opens and closes a cycle:
    which held bodies are retried, which refusals are offered again.
    Beside the ledger, [Cycle] counts what a changed upload context sends again.
    UploadPage is [attempt_snapshot_page], a program over ledger and world (a state and
    error monad; classes [Snapshot], [StoredState] and [World] are its
    surroundings); UploadLoop cuts the pending bodies into requests and is the
    loop over them with its holds, splits and resends.  BatchAck checks
    an answer, BatchTransport turns an HTTP outcome into an answer or a typed
    error; UploadPass joins both ends, discharging [World] with them.  PackLaws,
    UploadPageLaws (ledger and page), UploadLaws (cost), UploadSettles (what is settled)
    and AckLaws are the laws, UploadTheorems the contract; UploadPass ends with
    a concrete host.

    Acknowledgement retention (snapshot_sync/ack_retention.rs, with the incidence
    of snapshots/scan_index/save.rs).  AckRetention gives a ledger room by what
    the scan index lists, plans which acknowledgements a saved index retires, and
    runs source cycles over the two files on disk, index and ledger: a list of
    atomic saves that stops after any of them, as a crash does.  AckRetentionLaws
    has what survives and what goes over any such cycles, AckAdmission what
    admission lets in and the pass of UploadPass over it.  LegacySettlement
    (snapshots/scan_index/historical_replay.rs, parts of
    snapshots/upload/reoffer_quarantine.rs) is the settlement ledger of an index
    an older build wrote: what it forgets, arms in pages, settles and seals,
    over the index of AckRetention and the records of Quarantine.

    Detected uses (detected_uses.rs; its callers in lib.rs and
    snapshot_sync.rs).  DetectedUses has aggregation, merging and the overlay of
    live quota, over the status snapshot of StatusTypes; DetectedUsesLaws has the
    algebra of keeping the newest entries of merged maps and reads a group
    off its rows, DetectedUsesCache has the theorems.

    Composition kinds (composition_kinds).  ShellPaths, ShellLexer and ShellEval
    are shell.rs (laws in ShellProps, ShellLimits, and in ShellQuote with
    v2.rs's quoting); Kinds and Composition are mod.rs (the token split in
    Kinds), KindsV2 is v2.rs (laws in KindsProps).  Composition dispatches on
    the version and keeps the cache of checkout roots.

    Network resilience (net_resilience.rs, net_transition.rs).  NetState has
    the streaks, the ladders' states and the watchdog's decisions; NetProcess
    every critical section over the one locked state ([Locked], [perform]) and
    every handler as a [Prog] of critical sections, questions to the system
    ([Env]) and spawned workers.  A process is a pool of such threads and the
    history of their steps; [step] interleaves them in any order and [replay]
    computes the locked state from the history.  NetLaws reads the state off a
    history, NetThreads has the program logic [safe] with its adequacy and the
    self-restart, NetResolver the resolver's answers, NetWorkers the gates of
    the deadline workers, NetRuns the rates of rebuilds and stall reports
    and an executable scheduler ([exec], a run of [reaches]) and the
    witnesses, NetTransition the route socket.

    Relay authorization (relay_auth.rs).  RelayAuth has the key of a binding, the
    gate of rejected bindings and the process of probes over it, whose events
    are the gate's critical sections, with the laws of every run; RelayTheorems
    the contract.

    Losses and retries.  ClientReport (client_report.rs) is the loss counters and
    their leases, a process whose events are atomic instructions; RetryBudget
    (snapshot_retry.rs) the allowance of the retry after a shed upload.

    ** What the theorems show

    Round trips: openings, ownership boundaries, usage rows, response books and
    birth tables read back as what the program relies on, and bytes that were
    not written are refused by both walks alike; quoted words go through the
    lexer unchanged.  Exactness: sums, shares and cells never lose a token, and
    overflow refuses the whole addition.  Order independence: of records, of
    rows, of grants, where the code promises it.  Privacy: content fields never
    reach a file; no guarded text of a backend copy leaks; a body conforms to
    every upload policy it went through; a transcript path is plain only below
    its folder.  Upload: a pass settles each body it was given, packs each in
    one request within the limits, believes exactly the answers that cover the
    request; it never stops for room over an input that was let in.  Crashes: an
    acknowledgement outlives every cut of a cycle while its entity is found, and
    goes once it is gone, wherever the cycle stopped.  Migration: the ledger of an
    old index is sealed only with proof, and its pages come to an end.  Invariants over reachable states: cadence,
    birth store, section cache (a refinement of a recency list), root cache.
    Any interleaving: restarts, rebuilds, answers and workers of the network
    threads, probes and suppression of the relay gate, losses and their reports.
    Termination: the rotation, the shell classifier, the upload loop.  Numbered
    theorems (C1 to C40) are the principal ones; the rest of each file is its library and the
    theorems of smaller parts.

    ** Fuel

    Loops that do not descend structurally take fuel; each has a theorem that
    its fuel is enough.  The lexer and every loop
    in it take the length of the text and one ([tokens_total]); a script takes
    [NESTING_FUEL], one level for each of [MAX_NESTING] and one more, and a
    wrapper chain the number of its words ([classify_total]); a cell's inner
    scripts two levels ([calls_classified]); the eviction loop the size of the
    map, of which it removes one entry per round; the upload loop takes
    [fuel_of] its queue: one turn for each body and batch queued, two for each
    split and one for each resend left, and one ([upload_ends]); the rotation the turns its
    owner needs ([rotation_serves_each_once]).  The walk up to the root of a
    checkout descends on the depth of its folder.

    ** Parameters

    Code outside the repository is an argument of the definitions that use it:
    SHA-256, base64, NFKC, the time crate's RFC 3339 parser, serde_json's object
    lookup, parser and serialized size, the Unicode lower-casing of [char] and
    [str], [io::Write], the parsers of socket and IP addresses, libc's message
    numbers, the fingerprint of a snapshot body (content_hash.rs, a hash of its
    JSON), the HTTP client, [Duration::mul_f64] by a fifth, the random source,
    serde_json's parser of answers, and the file system's answers ([has_dot_git], [repository_hash]).  What the proofs rely on is a named hypothesis
    ([LowercaseOk], [LowersAscii], ..), and the witnesses instantiate it.

    ** Not modelled

    Transcript parsing (snapshots.rs and the rest of accumulator.rs) walks
    serde_json values line by line over most of the file formats and is left
    out; so are the rest of the scan index, tail sources and continuations
    (snapshot_sync/continuation.rs, snapshots/scan_index.rs), files on disk with
    their own locks and formats: of an index AckRetention and LegacySettlement
    have the fields that retention and migration read, and which index a
    settlement selects is a parameter.  Of the upload, the identity buckets and cache
    states of the ledger are a parameter ([StoredState]); pending cache heads,
    the bootstrap that probes them, the file format of the ledger with its
    recovery companion, and its compare-and-swap of generations between
    processes are left out.
    agent_status.rs, control.rs, the other clients and the command line are HTTP,
    processes and files.
    Left out of modelled files: poisoned locks, overflow of [Instant], the codec's schema-printing walk and memory
    measures (tests and diagnostics only), wire copies of totals, logging. *)
From stdpp Require Export base option list strings sorting sets.
From Stdlib Require Export ZArith Lia.

#[export] Set Warnings "-clear-no-such-hyp".

(** ** Scope, notations and automation shared by the development *)

Declare Scope ottto_scope.
Delimit Scope ottto_scope with ottto.
Create HintDb ottto discriminated.

(** [try? x := e in k] is Rust's [?] on an [Option] or on a [Result] whose
    error carries nothing. *)
Notation "'try?' x ':=' e 'in' k" :=
  (match e with Some x => k | None => None end)
    (at level 10, x pattern, e at level 100, k at level 200) : ottto_scope.
Open Scope ottto_scope.

(** Splits every [match]/[if] the goal or a hypothesis is stuck on. *)
Ltac split_match :=
  match goal with
  | |- context [match ?x with _ => _ end] => destruct x eqn:?
  | H : context [match ?x with _ => _ end] |- _ => destruct x eqn:?
  end.
Ltac split_matches := repeat (split_match; simplify_eq/=).

(** Inverts a successful chain of [try?]. *)
Ltac inv_try :=
  repeat match goal with
    | H : match ?x with Some _ => _ | None => None end = Some _ |- _ =>
        destruct x eqn:?; simplify_eq/=
    | H : (if ?b then _ else None) = Some _ |- _ => destruct b eqn:?; simplify_eq/=
    | H : (if ?b then None else _) = Some _ |- _ => destruct b eqn:?; simplify_eq/=
    | x : _ * _ |- _ => destruct x
    end; simplify_eq/=.

(** Turns boolean comparisons into propositions. *)
Ltac zbool :=
  repeat match goal with
    | H : (_ <? _)%Z = true |- _ => apply Z.ltb_lt in H
    | H : (_ <? _)%Z = false |- _ => apply Z.ltb_ge in H
    | H : (_ <=? _)%Z = true |- _ => apply Z.leb_le in H
    | H : (_ <=? _)%Z = false |- _ => apply Z.leb_gt in H
    | H : (_ =? _)%Z = true |- _ => apply Z.eqb_eq in H
    | H : (_ =? _)%Z = false |- _ => apply Z.eqb_neq in H
    | H : _ && _ = true |- _ => apply andb_prop in H as [? ?]
    | H : _ || _ = false |- _ => apply orb_false_elim in H as [? ?]
    | H : negb _ = true |- _ => apply negb_true_iff in H
    | H : negb _ = false |- _ => apply negb_false_iff in H
    end.

(** ** Machine integers: a [w]-bit unsigned integer is a [Z] in [0, 2^w) *)
Section Machine.
Local Open Scope Z_scope.

Definition umax (w : Z) : Z := 2 ^ w - 1.
Definition uint (w : Z) (z : Z) : Prop := 0 <= z < 2 ^ w.
Definition sint (w : Z) (z : Z) : Prop := - 2 ^ (w - 1) <= z < 2 ^ (w - 1).

(** [as uN] and [as iN] conversions. *)
Definition wrap_u (w : Z) (z : Z) : Z := z mod 2 ^ w.
Definition wrap_s (w : Z) (z : Z) : Z :=
  (z + 2 ^ (w - 1)) mod 2 ^ w - 2 ^ (w - 1).

Definition in_uint (w z : Z) : bool := (0 <=? z) && (z <? 2 ^ w).
Definition in_sint (w z : Z) : bool := (- 2 ^ (w - 1) <=? z) && (z <? 2 ^ (w - 1)).

(** [uN::try_from], [iN::try_from]. *)
Definition try_uint (w z : Z) : option Z := if in_uint w z then Some z else None.
Definition try_sint (w z : Z) : option Z := if in_sint w z then Some z else None.

Definition checked_add (w a b : Z) : option Z := try_uint w (a + b).
Definition checked_sub (w a b : Z) : option Z := try_uint w (a - b).
Definition checked_mul (w a b : Z) : option Z := try_uint w (a * b).
Definition saturating_add (w a b : Z) : Z := Z.min (a + b) (umax w).
Definition saturating_sub (a b : Z) : Z := Z.max 0 (a - b).

Lemma try_uint_Some w z y : try_uint w z = Some y <-> y = z /\ uint w z.
Proof.
  unfold try_uint, in_uint, uint.
  destruct (0 <=? z) eqn:?, (z <? 2 ^ w) eqn:?; simpl; zbool;
    split; intros; simplify_eq; (lia || (split; lia) || (f_equal; lia)).
Qed.

Lemma try_sint_Some w z y : try_sint w z = Some y <-> y = z /\ sint w z.
Proof.
  unfold try_sint, in_sint, sint.
  destruct (- 2 ^ (w - 1) <=? z) eqn:?, (z <? 2 ^ (w - 1)) eqn:?; simpl; zbool;
    split; intros; simplify_eq; (lia || (split; lia) || (f_equal; lia)).
Qed.

Lemma try_uint_ok w z : uint w z -> try_uint w z = Some z.
Proof. intros H. by apply try_uint_Some. Qed.

Lemma try_sint_ok w z : sint w z -> try_sint w z = Some z.
Proof. intros H. by apply try_sint_Some. Qed.

Lemma wrap_u_small w z : uint w z -> wrap_u w z = z.
Proof. apply Z.mod_small. Qed.

Lemma wrap_u_uint w z : 0 <= w -> uint w (wrap_u w z).
Proof. intros. apply Z.mod_pos_bound, Z.pow_pos_nonneg; lia. Qed.

Lemma checked_add_eq w a b :
  0 <= a -> 0 <= b -> checked_add w a b = if a + b <? 2 ^ w then Some (a + b) else None.
Proof.
  intros. unfold checked_add, try_uint, in_uint. by rewrite (proj2 (Z.leb_le 0 (a + b))) by lia.
Qed.
Lemma checked_sub_eq w a b :
  a < 2 ^ w -> 0 <= b -> checked_sub w a b = if b <=? a then Some (a - b) else None.
Proof.
  intros. unfold checked_sub, try_uint, in_uint. rewrite (proj2 (Z.ltb_lt (a - b) _)) by lia.
  rewrite andb_true_r. destruct (b <=? a) eqn:E; zbool.
  - by rewrite (proj2 (Z.leb_le _ _)) by lia.
  - by rewrite (proj2 (Z.leb_gt _ _)) by lia.
Qed.

Lemma saturating_add_uint w a b :
  uint w a -> uint w b -> uint w (saturating_add w a b).
Proof. unfold saturating_add, umax, uint. lia. Qed.

Lemma saturating_add_comm w a b : saturating_add w a b = saturating_add w b a.
Proof. unfold saturating_add. lia. Qed.
End Machine.

(** ** Bit operations as arithmetic *)
Section Bits.
Local Open Scope Z_scope.

Lemma land_low_mod n z : 0 <= n -> Z.land z (2 ^ n - 1) = z mod 2 ^ n.
Proof. intros. rewrite <-Z.land_ones by done. by rewrite Z.ones_equiv. Qed.

Lemma land_127 z : Z.land z 127 = z mod 128.
Proof. apply (land_low_mod 7). lia. Qed.

(** Bits below [n] and bits from [n] on never meet. *)
Lemma lor_disjoint_add n a b : 0 <= n -> 0 <= a < 2 ^ n -> Z.lor a (b * 2 ^ n) = a + b * 2 ^ n.
Proof.
  intros Hn Ha. assert (Hand : Z.land a (b * 2 ^ n) = 0).
  { apply Z.bits_inj'. intros i Hi. rewrite Z.land_spec, Z.bits_0.
    destruct (Z.lt_ge_cases i n).
    - rewrite Z.mul_pow2_bits_low by done. apply andb_false_r.
    - replace a with (a mod 2 ^ n) by (apply Z.mod_small; lia).
      rewrite Z.mod_pow2_bits_high by lia. done. }
  pose proof (Z.add_lor_land a (b * 2 ^ n)). lia.
Qed.

Lemma land_bit_eqb n z :
  0 <= n -> 0 <= z < 2 ^ (n + 1) -> (Z.land z (2 ^ n) =? 0) = (z <? 2 ^ n).
Proof.
  intros Hn Hz.
  assert (Hp : 2 ^ (n + 1) = 2 * 2 ^ n) by (rewrite Z.pow_add_r; lia).
  assert (Z.land z (2 ^ n) = if z <? 2 ^ n then 0 else 2 ^ n) as ->.
  { apply Z.bits_inj'. intros i Hi. rewrite Z.land_spec, Z.pow2_bits_eqb by done.
    destruct (n =? i) eqn:E; zbool; subst.
    - rewrite andb_true_r. assert (Z.testbit z i = negb (z <? 2 ^ i)) as ->.
      { apply Z.b2z_inj. rewrite Z.testbit_spec' by done.
        destruct (z <? 2 ^ i) eqn:Ez; zbool; simpl.
        - by rewrite Z.div_small, Z.mod_0_l by lia.
        - replace (z / 2 ^ i) with 1; [done|]. apply (Z.div_unique _ _ _ (z - 2 ^ i)); lia. }
      destruct (z <? 2 ^ i); [by rewrite Z.bits_0|]. by rewrite Z.pow2_bits_true.
    - rewrite andb_false_r. destruct (z <? 2 ^ n); [by rewrite Z.bits_0|].
      by rewrite Z.pow2_bits_false. }
  destruct (z <? 2 ^ n); [done|]. apply Z.eqb_neq. lia.
Qed.
End Bits.

Abbreviation u8 := (uint 8).
Abbreviation u16 := (uint 16).
Abbreviation u32 := (uint 32).
Abbreviation u64 := (uint 64).
Abbreviation u128 := (uint 128).
(** The daemon only builds for 64-bit targets: [usize] is [u64]. *)
Abbreviation usize := (uint 64).

#[export] Hint Resolve wrap_u_uint saturating_add_uint : ottto.

(** ** Rust's [Ord]: a comparison with its total-order laws *)
Class RustOrd (A : Type) := rcmp : A -> A -> comparison.
#[export] Hint Mode RustOrd ! : typeclass_instances.
Class RustOrdLaws (A : Type) `{RustOrd A} : Prop := {
  rcmp_eq : forall a b : A, rcmp a b = Eq <-> a = b;
  rcmp_flip : forall a b : A, rcmp b a = CompOpp (rcmp a b);
  rcmp_trans : forall a b c : A, rcmp a b = Lt -> rcmp b c = Lt -> rcmp a c = Lt;
}.

Definition rlt `{RustOrd A} (a b : A) : Prop := rcmp a b = Lt.
Definition rltb `{RustOrd A} (a b : A) : bool :=
  match rcmp a b with Lt => true | _ => false end.
Definition reqb `{RustOrd A} (a b : A) : bool :=
  match rcmp a b with Eq => true | _ => false end.

Section RustOrdFacts.
Context `{RustOrdLaws A}.
Implicit Types a b c : A.

Lemma rcmp_refl a : rcmp a a = Eq.
Proof. by apply rcmp_eq. Qed.
Lemma rlt_irrefl a : ~ rlt a a.
Proof. unfold rlt. by rewrite rcmp_refl. Qed.
Lemma rlt_ne a b : rlt a b -> a <> b.
Proof. intros Hl ->. by apply rlt_irrefl in Hl. Qed.
#[global] Instance rlt_transitive : Transitive (rlt (A:=A)).
Proof. intros a b c. apply rcmp_trans. Qed.
Lemma rcmp_gt a b : rcmp a b = Gt <-> rlt b a.
Proof. unfold rlt. rewrite (rcmp_flip a b). by destruct (rcmp a b). Qed.
Lemma rltb_spec a b : rltb a b = true <-> rlt a b.
Proof. unfold rltb, rlt. by destruct (rcmp a b). Qed.
Lemma reqb_spec a b : reqb a b = true <-> a = b.
Proof. unfold reqb. rewrite <-rcmp_eq. by destruct (rcmp a b). Qed.
Lemma reqb_refl a : reqb a a = true.
Proof. by apply reqb_spec. Qed.
Lemma reqb_false a b : reqb a b = false <-> a <> b.
Proof. rewrite <-reqb_spec. by destruct (reqb a b). Qed.
Lemma rlt_asym a b : rlt a b -> ~ rlt b a.
Proof. intros H1 H2. by apply (rlt_irrefl a), (transitivity H1). Qed.
Lemma rcmp_total a b : rlt a b \/ a = b \/ rlt b a.
Proof.
  destruct (rcmp a b) eqn:E; [right; left|by left|right; right].
  - by apply rcmp_eq.
  - by apply rcmp_gt.
Qed.
#[global] Instance RustOrd_eq_dec : EqDecision A | 100.
Proof.
  intros a b. destruct (rcmp a b) eqn:E;
    [left; by apply rcmp_eq|right; intros ->; by rewrite rcmp_refl in E..].
Defined.
End RustOrdFacts.

(** ** Instances of [Ord] *)
#[export] Instance Z_ord : RustOrd Z := Z.compare.
#[export] Instance Z_ord_laws : RustOrdLaws Z.
Proof.
  split; unfold rcmp, Z_ord.
  - apply Z.compare_eq_iff.
  - intros. apply Z.compare_antisym.
  - intros a b c. rewrite !Z.compare_lt_iff. lia.
Qed.

#[export] Instance unit_ord : RustOrd unit := fun _ _ => Eq.
#[export] Instance unit_ord_laws : RustOrdLaws unit.
Proof. split; unfold rcmp, unit_ord; [intros [] []; split; trivial|done|congruence]. Qed.

#[export] Instance bool_ord : RustOrd bool := fun a b =>
  match a, b with
  | false, true => Lt | true, false => Gt | _, _ => Eq
  end.
#[export] Instance bool_ord_laws : RustOrdLaws bool.
Proof.
  split; unfold rcmp, bool_ord; [intros [] []; split; congruence|by intros [] []|].
  intros [] [] []; congruence.
Qed.

(** [None] before [Some]. *)
#[export] Instance option_ord `{RustOrd A} : RustOrd (option A) := fun a b =>
  match a, b with
  | None, None => Eq | None, Some _ => Lt | Some _, None => Gt
  | Some a, Some b => rcmp a b
  end.
#[export] Instance option_ord_laws `{RustOrdLaws A} : RustOrdLaws (option A).
Proof.
  split; unfold rcmp, option_ord.
  - intros [a|] [b|]; rewrite ?rcmp_eq; naive_solver.
  - intros [a|] [b|]; try done. apply rcmp_flip.
  - intros [a|] [b|] [c|]; try done. apply rcmp_trans.
Qed.

(** Tuples compare lexicographically. *)
#[export] Instance prod_ord `{RustOrd A, RustOrd B} : RustOrd (A * B) := fun x y =>
  match rcmp x.1 y.1 with Eq => rcmp x.2 y.2 | c => c end.
Lemma rcmp_pair `{RustOrd A, RustOrd B} (a b : A) (x y : B) :
  rcmp (a, x) (b, y) = match rcmp a b with Eq => rcmp x y | c => c end.
Proof. done. Qed.
#[export] Instance prod_ord_laws `{RustOrdLaws A, RustOrdLaws B} : RustOrdLaws (A * B).
Proof.
  split.
  - intros [a x] [b y]. rewrite rcmp_pair. destruct (rcmp a b) eqn:E.
    + apply rcmp_eq in E as ->. rewrite rcmp_eq. naive_solver.
    + split; [done|]. intros [= -> ->]. by rewrite rcmp_refl in E.
    + split; [done|]. intros [= -> ->]. by rewrite rcmp_refl in E.
  - intros [a x] [b y]. rewrite !rcmp_pair, (rcmp_flip a b).
    destruct (rcmp a b); simpl; [apply rcmp_flip|done..].
  - intros [a x] [b y] [c z]. rewrite !rcmp_pair.
    destruct (rcmp a b) eqn:E1; [apply rcmp_eq in E1 as ->| |done];
      destruct (rcmp b c) eqn:E2; try done; intros.
    + eauto using rcmp_trans.
    + apply rcmp_eq in E2 as <-. by rewrite E1.
    + by rewrite (rcmp_trans _ _ _ E1 E2).
Qed.

(** An order pulled back along an injection: derived orders on enums and
    newtypes. *)
Lemma ord_by_laws {A B} `{RustOrdLaws B} (f : A -> B) (Hf : forall a b, f a = f b -> a = b) :
  @RustOrdLaws A (fun a b => rcmp (f a) (f b)).
Proof.
  split; unfold rcmp at 1.
  - intros a b. change (rcmp (f a) (f b) = Eq <-> a = b). rewrite rcmp_eq. naive_solver.
  - intros a b. apply (rcmp_flip (f a) (f b)).
  - intros a b c. apply (rcmp_trans (f a) (f b) (f c)).
Qed.

(** Slices and strings compare lexicographically, a prefix first. *)
#[export] Instance list_ord `{RustOrd A} : RustOrd (list A) :=
  fix go (a b : list A) :=
    match a, b with
    | [], [] => Eq | [], _ :: _ => Lt | _ :: _, [] => Gt
    | x :: a, y :: b => match rcmp x y with Eq => go a b | c => c end
    end.
Lemma rcmp_cons `{RustOrd A} (x y : A) (a b : list A) :
  rcmp (x :: a) (y :: b) = match rcmp x y with Eq => rcmp a b | c => c end.
Proof. done. Qed.
#[export] Instance list_ord_laws `{RustOrdLaws A} : RustOrdLaws (list A).
Proof.
  split.
  - induction a as [|x a IH]; intros [|y b]; try done.
    rewrite rcmp_cons. destruct (rcmp x y) eqn:E.
    + apply rcmp_eq in E as ->. rewrite IH. naive_solver.
    + split; [done|]. intros [= -> ->]. by rewrite rcmp_refl in E.
    + split; [done|]. intros [= -> ->]. by rewrite rcmp_refl in E.
  - induction a as [|x a IH]; intros [|y b]; try done.
    rewrite !rcmp_cons, (rcmp_flip x y). destruct (rcmp x y); simpl; [apply IH|done..].
  - induction a as [|x a IH]; intros [|y b] [|z c]; try done.
    rewrite !rcmp_cons.
    destruct (rcmp x y) eqn:E1; [apply rcmp_eq in E1 as ->| |done];
      destruct (rcmp y z) eqn:E2; try done; intros.
    + eauto.
    + apply rcmp_eq in E2 as <-. by rewrite E1.
    + by rewrite (rcmp_trans _ _ _ E1 E2).
Qed.

(** ** Strings are byte strings: [str::as_bytes] and back *)
Definition byte_of_ascii (c : Ascii.ascii) : Z := Z.of_N (Ascii.N_of_ascii c).
Definition ascii_of_byte (z : Z) : Ascii.ascii := Ascii.ascii_of_N (Z.to_N z).
Definition as_bytes (s : string) : list Z := byte_of_ascii <$> String.list_ascii_of_string s.
Definition of_bytes (bs : list Z) : string :=
  String.string_of_list_ascii (ascii_of_byte <$> bs).

Lemma byte_of_ascii_u8 c : u8 (byte_of_ascii c).
Proof.
  unfold byte_of_ascii, uint. pose proof (Ascii.N_ascii_bounded c). lia.
Qed.
Lemma ascii_of_byte_of_ascii c : ascii_of_byte (byte_of_ascii c) = c.
Proof. unfold ascii_of_byte, byte_of_ascii. by rewrite N2Z.id, Ascii.ascii_N_embedding. Qed.
Lemma byte_of_ascii_of_byte z : u8 z -> byte_of_ascii (ascii_of_byte z) = z.
Proof.
  intros [? ?]. unfold ascii_of_byte, byte_of_ascii.
  rewrite Ascii.N_ascii_embedding; lia.
Qed.
Lemma of_as_bytes s : of_bytes (as_bytes s) = s.
Proof.
  unfold of_bytes, as_bytes. rewrite <-list_fmap_compose.
  rewrite <-(String.string_of_list_ascii_of_string s) at 2. f_equal.
  induction (String.list_ascii_of_string s); simpl; [done|].
  by rewrite ascii_of_byte_of_ascii; f_equal.
Qed.
Lemma as_of_bytes bs : Forall u8 bs -> as_bytes (of_bytes bs) = bs.
Proof.
  intros H. unfold of_bytes, as_bytes.
  rewrite String.list_ascii_of_string_of_list_ascii, <-list_fmap_compose.
  induction H; simpl; [done|]. by rewrite byte_of_ascii_of_byte by done; f_equal.
Qed.
Lemma as_bytes_u8 s : Forall u8 (as_bytes s).
Proof. apply Forall_fmap, Forall_true. intros. apply byte_of_ascii_u8. Qed.
Lemma as_bytes_inj s t : as_bytes s = as_bytes t -> s = t.
Proof. intros H. by rewrite <-(of_as_bytes s), H, of_as_bytes. Qed.

#[export] Instance string_ord : RustOrd string := fun a b => rcmp (as_bytes a) (as_bytes b).
#[export] Instance string_ord_laws : RustOrdLaws string.
Proof.
  split; unfold rcmp, string_ord.
  - intros a b. rewrite rcmp_eq. split; [apply as_bytes_inj|congruence].
  - intros a b. apply rcmp_flip.
  - intros a b c. apply rcmp_trans.
Qed.
#[export] Hint Resolve byte_of_ascii_u8 as_bytes_u8 : ottto.
