(* ===== verification/OrdMap.v ===== *)
(** Sorted vectors searched by key, and Rust's [BTreeMap] and [BTreeSet].

    The daemon keeps many tables as vectors sorted by a key and edits them with
    [slice::binary_search_by_key], [Vec::insert] and [Vec::remove]; its
    [BTreeMap]s iterate in key order.  Both are lists here, in key order.
    [bsearch] is the result the standard library's binary search specifies on a
    slice sorted without repeated keys: [Ok i] at the key, else [Err i] at the
    position that keeps the order. *)
From S2P Require Import Prelude.

Inductive search := Found (i : nat) | Missing (i : nat).

(** [Vec::insert]. *)
Definition insert_at {A} (i : nat) (x : A) (l : list A) : list A :=
  take i l ++ x :: drop i l.

Lemma elem_of_insert_at {A} i (x y : A) l : y ∈ insert_at i x l <-> y = x \/ y ∈ l.
Proof.
  unfold insert_at. rewrite elem_of_app, elem_of_cons.
  rewrite <-(take_drop i l) at 3. rewrite elem_of_app. tauto.
Qed.

Lemma length_insert_at {A} i (x : A) l : length (insert_at i x l) = S (length l).
Proof.
  unfold insert_at. rewrite length_app. simpl. rewrite <-(take_drop i l) at 3.
  rewrite length_app. lia.
Qed.

Section Keyed.
Context {A K : Type} `{RustOrdLaws K} (key : A -> K).
Implicit Types (l : list A) (k : K).

Fixpoint bsearch k l : search :=
  match l with
  | [] => Missing 0
  | a :: l' =>
      match rcmp (key a) k with
      | Eq => Found 0
      | Gt => Missing 0
      | Lt => match bsearch k l' with Found i => Found (S i) | Missing i => Missing (S i) end
      end
  end.

Definition ksorted l : Prop := StronglySorted (fun a b => rlt (key a) (key b)) l.

(** [!l.windows(2).any(|w| w[0] >= w[1])]. *)
Fixpoint ascending l : bool :=
  match l with
  | a :: (b :: _) as l' => rltb (key a) (key b) && ascending l'
  | _ => true
  end.

Definition kget k l : option A :=
  match bsearch k l with Found i => l !! i | Missing _ => None end.

Lemma ascending_ksorted l : ascending l = true <-> ksorted l.
Proof.
  split.
  - intros Ha. apply Sorted_StronglySorted; [intros a b c; apply rcmp_trans|].
    induction l as [|a [|b l] IH]; [constructor..|by repeat constructor|].
    cbn [ascending] in Ha. apply andb_prop in Ha as [Hab Hl].
    constructor; [by apply IH|]. constructor. by apply rltb_spec.
  - induction 1 as [|a l Hl IH Ha]; [done|].
    destruct l as [|b l]; [done|]. cbn [ascending].
    apply andb_true_intro; split; [|done]. apply rltb_spec. by inversion Ha.
Qed.

Lemma ksorted_nil : ksorted [].
Proof. constructor. Qed.
Lemma ksorted_singleton a : ksorted [a].
Proof. repeat constructor. Qed.
Lemma ksorted_cons_inv a l :
  ksorted (a :: l) -> ksorted l /\ Forall (fun b => rlt (key a) (key b)) l.
Proof. by inversion 1. Qed.

Lemma bsearch_found k l i :
  bsearch k l = Found i -> exists a, l !! i = Some a /\ key a = k.
Proof.
  revert i. induction l as [|a l IH]; intros i; [done|]. cbn.
  destruct (rcmp (key a) k) eqn:E; [|destruct (bsearch k l)|done].
  - intros [= <-]. exists a. split; [done|]. by apply rcmp_eq.
  - intros [= <-]. by apply IH.
  - done.
Qed.

Lemma bsearch_found_lt k l i : bsearch k l = Found i -> i < length l.
Proof. intros (a & Ha & _)%bsearch_found. by eapply lookup_lt_Some. Qed.

Lemma bsearch_missing k l i :
  ksorted l -> bsearch k l = Missing i ->
  i <= length l /\
  Forall (fun a => rlt (key a) k) (take i l) /\
  Forall (fun a => rlt k (key a)) (drop i l).
Proof.
  revert i. induction l as [|a l IH]; intros i Hs; cbn.
  { intros [= <-]. cbn. repeat split; constructor. }
  apply ksorted_cons_inv in Hs as [Hl Ha].
  destruct (rcmp (key a) k) eqn:E; [done|destruct (bsearch k l) eqn:Eb; [done|]|].
  - intros [= <-]. destruct (IH _ Hl eq_refl) as (Hi & H1 & H2). cbn.
    split; [lia|]. split; [constructor|]; done.
  - intros [= <-]. cbn. split; [lia|]. split; [constructor|].
    apply rcmp_gt in E. constructor; [done|].
    eapply Forall_impl; [exact Ha|]. cbn. intros b Hb. by transitivity (key a).
Qed.

Lemma bsearch_missing_notin k l i a :
  ksorted l -> bsearch k l = Missing i -> a ∈ l -> key a <> k.
Proof.
  intros Hs Hb Ha. destruct (bsearch_missing _ _ _ Hs Hb) as (_ & H1 & H2).
  rewrite <-(take_drop i l) in Ha. rewrite Forall_forall in H1, H2.
  apply elem_of_app in Ha as [Ha|Ha].
  - by apply rlt_ne, H1.
  - apply H2, rlt_ne in Ha. congruence.
Qed.

Lemma ksorted_unique l a b : ksorted l -> a ∈ l -> b ∈ l -> key a = key b -> a = b.
Proof.
  induction 1 as [|c l Hl IH Hc]; [by inversion 1|]. rewrite Forall_forall in Hc.
  rewrite !elem_of_cons. intros [->|Ha] [->|Hb] E; [done|..].
  - apply Hc, rlt_ne in Hb. congruence.
  - apply Hc, rlt_ne in Ha. congruence.
  - by apply IH.
Qed.

Lemma kget_Some k l a : ksorted l -> kget k l = Some a <-> a ∈ l /\ key a = k.
Proof.
  intros Hs. unfold kget. destruct (bsearch k l) as [i|i] eqn:E.
  - destruct (bsearch_found _ _ _ E) as (b & Hb & Hk). rewrite Hb. split.
    + intros [= ->]. split; [|done]. by eapply list_elem_of_lookup_2.
    + intros [Ha Hk']. f_equal. apply (ksorted_unique l); [done| |done|congruence].
      by eapply list_elem_of_lookup_2.
  - split; [done|]. intros [Ha Hk]. by destruct (bsearch_missing_notin _ _ _ _ Hs E Ha).
Qed.

Lemma kget_None k l : ksorted l -> kget k l = None <-> forall a, a ∈ l -> key a <> k.
Proof.
  intros Hs. split.
  - intros E a Ha Hk. by rewrite (proj2 (kget_Some k l a Hs)) in E.
  - intros Hn. destruct (kget k l) eqn:E; [|done].
    apply kget_Some in E as [Ha Hk]; [|done]. by destruct (Hn _ Ha).
Qed.

Lemma bsearch_found_kget k l i : bsearch k l = Found i -> kget k l = l !! i.
Proof. unfold kget. by intros ->. Qed.
Lemma bsearch_missing_kget k l i : bsearch k l = Missing i -> kget k l = None.
Proof. unfold kget. by intros ->. Qed.

Lemma ksorted_app l1 l2 :
  ksorted (l1 ++ l2) <->
  ksorted l1 /\ ksorted l2 /\ forall a b, a ∈ l1 -> b ∈ l2 -> rlt (key a) (key b).
Proof.
  induction l1 as [|a l1 IH]; cbn.
  { split; [|tauto]. intros Hs. split; [constructor|]. split; [done|].
    intros a b Ha. by apply not_elem_of_nil in Ha. }
  split.
  - intros [Hs Ha]%ksorted_cons_inv. apply IH in Hs as (H1 & H2 & H3).
    apply Forall_app in Ha as [Ha1 Ha2]. rewrite Forall_forall in Ha2.
    split; [by constructor|]. split; [done|].
    intros b c [->|Hb]%elem_of_cons Hc; auto.
  - intros (H1 & H2 & H3). apply ksorted_cons_inv in H1 as [H1 Ha].
    constructor.
    + apply IH. split; [done|]. split; [done|]. intros. apply H3; set_solver.
    + apply Forall_app. split; [done|]. apply Forall_forall. intros. apply H3; set_solver.
Qed.

Lemma ksorted_insert_at x l i :
  ksorted l -> bsearch (key x) l = Missing i -> ksorted (insert_at i x l).
Proof.
  intros Hs E. destruct (bsearch_missing _ _ _ Hs E) as (_ & H1 & H2).
  rewrite Forall_forall in H1. unfold insert_at.
  rewrite <-(take_drop i l) in Hs. apply ksorted_app in Hs as (Ht & Hd & Htd).
  apply ksorted_app. split; [done|]. split; [by constructor|].
  intros a b Ha [->|Hb]%elem_of_cons; auto.
Qed.

Lemma kget_insert_at k x l i :
  ksorted l -> bsearch (key x) l = Missing i ->
  kget k (insert_at i x l) = if decide (k = key x) then Some x else kget k l.
Proof.
  intros Hs E. pose proof (ksorted_insert_at _ _ _ Hs E) as Hs'.
  apply option_eq. intros a. rewrite kget_Some, elem_of_insert_at by done.
  case_decide as Hk; subst.
  - split; [|naive_solver]. intros [[->|Ha] Hk]; [done|].
    by destruct (bsearch_missing_notin _ _ _ _ Hs E Ha).
  - rewrite kget_Some by done. naive_solver.
Qed.

Lemma ksorted_update l i a b :
  ksorted l -> l !! i = Some a -> key b = key a -> ksorted (<[i:=b]> l).
Proof.
  intros Hs Hi Hk. revert i Hi. induction Hs as [|c l Hl IH Hc]; intros i Hi; [done|].
  destruct i as [|i]; simpl in *.
  - simplify_eq. constructor; [done|]. by rewrite Hk.
  - constructor; [by apply IH|]. rewrite Forall_forall in *. intros d Hd.
    apply list_elem_of_lookup in Hd as [j Hj].
    destruct (decide (i = j)) as [->|Hne].
    + rewrite list_lookup_insert_eq in Hj by (by eapply lookup_lt_Some).
      simplify_eq. rewrite Hk. apply Hc. by eapply list_elem_of_lookup_2.
    + rewrite list_lookup_insert_ne in Hj by done. apply Hc. by eapply list_elem_of_lookup_2.
Qed.

Lemma elem_of_update l i (a b c : A) :
  ksorted l -> l !! i = Some a -> key b = key a ->
  c ∈ <[i:=b]> l <-> c = b \/ (c ∈ l /\ key c <> key a).
Proof.
  intros Hs Hi Hk. assert (Hlt : i < length l) by by eapply lookup_lt_Some.
  split.
  - intros [j Hj]%list_elem_of_lookup. destruct (decide (i = j)) as [->|Hne].
    + rewrite list_lookup_insert_eq in Hj by done. left. by simplify_eq.
    + rewrite list_lookup_insert_ne in Hj by done. right.
      split; [by eapply list_elem_of_lookup_2|]. intros Hkc.
      assert (c = a) as -> by (eapply ksorted_unique; eauto using list_elem_of_lookup_2).
      clear -Hs Hi Hj Hne H0. revert i j Hi Hj Hne.
      induction Hs as [|d l Hl IH Hd]; intros [|i] [|j] Hi Hj Hne; try done; cbn in *.
      * simplify_eq. rewrite Forall_forall in Hd.
        by eapply rlt_irrefl, Hd, list_elem_of_lookup_2.
      * simplify_eq. rewrite Forall_forall in Hd.
        by eapply rlt_irrefl, Hd, list_elem_of_lookup_2.
      * eapply (IH i j); eauto.
  - intros [->|[Hc Hne]].
    + apply list_elem_of_lookup. exists i. by apply list_lookup_insert_eq.
    + apply list_elem_of_lookup in Hc as [j Hj]. apply list_elem_of_lookup. exists j.
      rewrite list_lookup_insert_ne; [done|]. intros ->. congruence.
Qed.

Lemma kget_update k l i a b :
  ksorted l -> l !! i = Some a -> key b = key a ->
  kget k (<[i:=b]> l) = if decide (k = key a) then Some b else kget k l.
Proof.
  intros Hs Hi Hk. pose proof (ksorted_update _ _ _ _ Hs Hi Hk) as Hs'.
  apply option_eq. intros c. rewrite kget_Some, elem_of_update by done.
  case_decide as Hd; subst.
  - naive_solver.
  - rewrite kget_Some by done. naive_solver.
Qed.

Lemma ksorted_sublist l l' : l' `sublist_of` l -> ksorted l -> ksorted l'.
Proof.
  induction 1 as [|x l1 l2 Hsub IH|x l1 l2 Hsub IH]; intros Hs; [done|..].
  - apply ksorted_cons_inv in Hs as [Hs Hx]. constructor; [by apply IH|].
    rewrite Forall_forall in *. intros y Hy. apply Hx. revert Hy. clear -Hsub. induction Hsub; rewrite ?elem_of_cons; naive_solver.
  - apply ksorted_cons_inv in Hs as [Hs _]. by apply IH.
Qed.

Lemma ksorted_filter (P : A -> Prop) `{!forall x, Decision (P x)} l :
  ksorted l -> ksorted (filter P l).
Proof. apply ksorted_sublist, sublist_filter. Qed.

Lemma ksorted_delete i l : ksorted l -> ksorted (delete i l).
Proof. apply ksorted_sublist, sublist_delete. Qed.

Lemma ksorted_map (f : A -> A) l :
  (forall a, key (f a) = key a) -> ksorted l -> ksorted (f <$> l).
Proof.
  intros Hf. induction 1 as [|a l Hl IH Ha]; [constructor|].
  cbn. constructor; [done|]. apply Forall_fmap. eapply Forall_impl; [done|].
  cbn. intros b. by rewrite !Hf.
Qed.

Lemma bsearch_map k (f : A -> A) l :
  (forall a, key (f a) = key a) -> bsearch k (f <$> l) = bsearch k l.
Proof.
  intros Hf. induction l as [|a l IH]; [done|]. rewrite fmap_cons.
  cbn [bsearch]. by rewrite Hf, IH.
Qed.

Lemma kget_map k (f : A -> A) l :
  (forall a, key (f a) = key a) -> kget k (f <$> l) = f <$> kget k l.
Proof.
  intros Hf. unfold kget. rewrite bsearch_map by done.
  destruct (bsearch k l); [apply list_lookup_fmap|done].
Qed.

Lemma ksorted_NoDup l : ksorted l -> NoDup (key <$> l).
Proof.
  induction 1 as [|a l Hl IH Ha]; cbn; constructor; [|done].
  intros (b & Hb & Hin)%list_elem_of_fmap. rewrite Forall_forall in Ha.
  apply Ha, rlt_ne in Hin. congruence.
Qed.
End Keyed.

(** ** [BTreeMap]: association lists sorted by key *)
Section BTreeMap.
Context {K V : Type} `{RustOrdLaws K}.
Implicit Types (m : list (K * V)) (k : K) (v : V).

(** The map after [insert], and the value it replaced. *)
Definition bt_insert k v m : list (K * V) * option V :=
  match bsearch fst k m with
  | Found i => (<[i:=(k, v)]> m, snd <$> m !! i)
  | Missing i => (insert_at i (k, v) m, None)
  end.
Definition bt_get k m : option V := snd <$> kget fst k m.
(** The map after [remove], and the value it removed. *)
Definition bt_remove k m : list (K * V) * option V :=
  match bsearch fst k m with
  | Found i => (delete i m, snd <$> m !! i)
  | Missing _ => (m, None)
  end.

Lemma bt_insert_old k v m : (bt_insert k v m).2 = bt_get k m.
Proof. unfold bt_insert, bt_get, kget. by destruct (bsearch fst k m). Qed.

Lemma bt_insert_sorted k v m : ksorted fst m -> ksorted fst (bt_insert k v m).1.
Proof.
  intros Hs. unfold bt_insert. destruct (bsearch fst k m) eqn:E; simpl.
  - destruct (bsearch_found _ _ _ _ E) as ([k' v'] & Hi & Hk).
    by eapply ksorted_update.
  - by apply ksorted_insert_at.
Qed.

Lemma bt_get_insert k k' v m :
  ksorted fst m ->
  bt_get k' (bt_insert k v m).1 = if decide (k' = k) then Some v else bt_get k' m.
Proof.
  intros Hs. unfold bt_insert, bt_get. destruct (bsearch fst k m) eqn:E; simpl.
  - destruct (bsearch_found _ _ _ _ E) as ([k1 v1] & Hi & Hk). simpl in Hk. subst k1.
    erewrite kget_update by (done || exact Hi). simpl. by case_decide.
  - rewrite kget_insert_at by done. simpl. by case_decide.
Qed.

Lemma bt_get_elem k v m : ksorted fst m -> bt_get k m = Some v <-> (k, v) ∈ m.
Proof.
  intros Hs. unfold bt_get. rewrite fmap_Some. split.
  - intros ([k' v'] & Hg & ->). apply kget_Some in Hg as [Hin Hk]; [|done].
    simpl in *. by subst.
  - intros Hin. exists (k, v). split; [|done]. by apply kget_Some.
Qed.

Lemma bt_remove_sorted k m : ksorted fst m -> ksorted fst (bt_remove k m).1.
Proof.
  intros Hs. unfold bt_remove. destruct (bsearch fst k m); [by apply ksorted_delete|done].
Qed.

(** Two sorted maps with the same entries are equal. *)
Lemma bt_ext m1 m2 :
  ksorted fst m1 -> ksorted fst m2 -> (forall e, e ∈ m1 <-> e ∈ m2) -> m1 = m2.
Proof.
  intros Hs1. revert m2. induction Hs1 as [|[k v] m1 Hs1 IH Hk1]; intros m2 Hs2 Hext.
  - destruct m2 as [|e m2]; [done|]. exfalso.
    eapply not_elem_of_nil, (proj2 (Hext e)). set_solver.
  - destruct m2 as [|[k2 v2] m2].
    { exfalso. eapply not_elem_of_nil, (proj1 (Hext (k, v))). set_solver. }
    pose proof Hs2 as [Hs2' Hk2]%ksorted_cons_inv. rewrite Forall_forall in Hk1, Hk2.
    assert ((k, v) = (k2, v2)) as [= -> ->].
    { assert (Hin1 : (k, v) ∈ (k2, v2) :: m2) by (apply Hext; set_solver).
      assert (Hin2 : (k2, v2) ∈ (k, v) :: m1) by (apply Hext; set_solver).
      apply elem_of_cons in Hin1 as [?|Hin1]; [done|].
      apply elem_of_cons in Hin2 as [?|Hin2]; [done|].
      apply Hk1 in Hin2. apply Hk2 in Hin1. simpl in *. by destruct (rlt_asym _ _ Hin1). }
    f_equal. apply IH; [done|]. intros e. specialize (Hext e). rewrite !elem_of_cons in Hext.
    split; intros He.
    + destruct (proj1 Hext (or_intror He)) as [->|?]; [|done].
      by apply Hk1, rlt_irrefl in He.
    + destruct (proj2 Hext (or_intror He)) as [->|?]; [|done].
      by apply Hk2, rlt_irrefl in He.
Qed.

(** Insertion and removal as lists of entries. *)
Lemma bt_NoDup m : ksorted fst m -> NoDup m.
Proof. intros Hs. apply (NoDup_fmap_1 fst). by apply ksorted_NoDup. Qed.
Lemma bt_insert_perm k v m `{!forall e : K * V, Decision (e.1 <> k)} :
  ksorted fst m -> (bt_insert k v m).1 ≡ₚ (k, v) :: filter (fun e => e.1 <> k) m.
Proof.
  intros Hs. pose proof (bt_insert_sorted k v m Hs) as Hs'. apply NoDup_Permutation.
  - by apply bt_NoDup.
  - apply NoDup_cons. split; [|by apply NoDup_filter, bt_NoDup].
    intros [Hk _]%list_elem_of_filter. done.
  - intros [k' v']. rewrite <-bt_get_elem, bt_get_insert, elem_of_cons, list_elem_of_filter by done. cbn.
    case_decide as Hk.
    + subst. split; [intros [= ->]; by left|]. intros [[= ->]|[? _]]; done.
    + rewrite bt_get_elem by done. split; [by right|]. intros [[= -> ->]|[_ ?]]; done.
Qed.
Lemma bt_remove_perm k v m : ksorted fst m -> (k, v) ∈ m -> m ≡ₚ (k, v) :: (bt_remove k m).1.
Proof.
  intros Hs Hin. unfold bt_remove. apply bt_get_elem in Hin; [|done]. unfold bt_get in Hin.
  destruct (bsearch fst k m) as [i|i] eqn:E.
  - rewrite (bsearch_found_kget _ _ _ _ E) in Hin. apply fmap_Some in Hin as ([k' v'] & Hi & ->).
    destruct (bsearch_found _ _ _ _ E) as ([k2 v2] & Hi2 & Hk). rewrite Hi in Hi2.
    simplify_eq/=. by apply delete_Permutation.
  - by rewrite (bsearch_missing_kget _ _ _ _ E) in Hin.
Qed.
Lemma bt_get_nil k : bt_get k ([] : list (K * V)) = None.
Proof. done. Qed.
Lemma bt_remove_old k m : (bt_remove k m).2 = bt_get k m.
Proof. unfold bt_remove, bt_get, kget. by destruct (bsearch fst k m). Qed.
Lemma bt_ext_get m1 m2 :
  ksorted fst m1 -> ksorted fst m2 -> (forall k, bt_get k m1 = bt_get k m2) -> m1 = m2.
Proof.
  intros H1 H2 Hext. apply bt_ext; [done..|]. intros [k v]. rewrite <-!bt_get_elem by done. by rewrite Hext.
Qed.
Lemma bt_get_remove k k' m :
  ksorted fst m -> bt_get k' (bt_remove k m).1 = if decide (k' = k) then None else bt_get k' m.
Proof.
  intros Hs. pose proof (bt_remove_sorted k m Hs) as Hs'.
  destruct (bt_get k m) as [v|] eqn:Hk.
  - pose proof (bt_remove_perm k v m Hs (proj1 (bt_get_elem k v m Hs) Hk)) as Hp.
    pose proof (bt_NoDup _ Hs) as Hnd. set (r := (bt_remove k m).1) in *. clearbody r.
    rewrite Hp in Hnd. apply NoDup_cons in Hnd as [Hnot _].
    apply option_eq. intros v'. rewrite bt_get_elem by done. case_decide as Hd.
    + subst k'. split; [|done]. intros Hin. assert ((k, v') ∈ m) as Hm by (rewrite Hp; by right).
      apply bt_get_elem in Hm; [|done]. congruence.
    + rewrite !bt_get_elem by done. rewrite Hp, elem_of_cons. split; [by right|]. intros [[=]|?]; done.
  - unfold bt_remove. destruct (bsearch fst k m) as [i|i] eqn:E.
    + destruct (bsearch_found _ _ _ _ E) as (e & He & _).
      unfold bt_get in Hk. by rewrite (bsearch_found_kget _ _ _ _ E), He in Hk.
    + cbn. by case_decide; subst.
Qed.
Lemma bt_filter_key k m `{!forall e : K * V, Decision (e.1 = k)} :
  ksorted fst m -> filter (fun e => e.1 = k) m = option_list ((fun v => (k, v)) <$> bt_get k m).
Proof.
  intros Hs. induction m as [|[k1 v1] m IH]; [done|]. pose proof Hs as [Hs' Hall]%ksorted_cons_inv.
  rewrite filter_cons. cbn. specialize (IH Hs'). case_decide as Hd.
  - subst k1. assert (bt_get k ((k, v1) :: m) = Some v1) as -> by (apply bt_get_elem; [done|by left]).
    cbn. f_equal. rewrite IH. destruct (bt_get k m) as [v|] eqn:E; [|done]. apply bt_get_elem in E; [|done].
    rewrite Forall_forall in Hall. apply Hall in E. cbn in E. by apply rlt_irrefl in E.
  - rewrite IH. do 2 f_equal. apply option_eq. intros v. rewrite !bt_get_elem by done. rewrite elem_of_cons.
    split; [by right|]. intros [[=]|?]; [congruence|done].
Qed.
End BTreeMap.

(** Mapping the values of a map. *)
Section BTreeMapValues.
Context {K V W : Type} `{RustOrdLaws K} (f : V -> W).
Definition map_values (m : list (K * V)) : list (K * W) := (fun e => (e.1, f e.2)) <$> m.
Lemma map_values_sorted m : ksorted fst m -> ksorted fst (map_values m).
Proof.
  induction 1 as [|e m Hm IH He]; cbn; constructor; [done|]. apply Forall_fmap. eapply Forall_impl; [exact He|]. done.
Qed.
Lemma map_values_get k m : ksorted fst m -> bt_get k (map_values m) = f <$> bt_get k m.
Proof.
  intros Hm. apply option_eq. intros w.
  rewrite bt_get_elem, fmap_Some by by apply map_values_sorted. unfold map_values. rewrite list_elem_of_fmap. split.
  - intros ([k' v] & [= -> ->] & Hin). exists v. split; [by apply bt_get_elem|done].
  - intros (v & Hv & ->). exists (k, v). split; [done|]. by apply bt_get_elem in Hv.
Qed.
End BTreeMapValues.

(** ** [BTreeSet]: sorted lists; [insert] answers whether the value was new *)
Section BTreeSet.
Context {A : Type} `{RustOrdLaws A}.
Implicit Types s : list A.

Definition bs_insert (a : A) s : list A * bool :=
  match bsearch id a s with
  | Found _ => (s, false)
  | Missing i => (insert_at i a s, true)
  end.

Lemma bs_insert_sorted a s : ksorted id s -> ksorted id (bs_insert a s).1.
Proof.
  intros Hs. unfold bs_insert. destruct (bsearch id a s) eqn:E; [done|].
  by apply ksorted_insert_at.
Qed.
Lemma bs_insert_elem a b s : ksorted id s -> b ∈ (bs_insert a s).1 <-> b = a \/ b ∈ s.
Proof.
  intros Hs. unfold bs_insert. destruct (bsearch id a s) eqn:E; simpl.
  - destruct (bsearch_found _ _ _ _ E) as (c & Hc & Hk). unfold id in Hk. subst c.
    apply list_elem_of_lookup_2 in Hc. naive_solver.
  - apply elem_of_insert_at.
Qed.
Lemma bs_insert_new a s : ksorted id s -> (bs_insert a s).2 = true <-> a ∉ s.
Proof.
  intros Hs. unfold bs_insert. destruct (bsearch id a s) eqn:E; simpl.
  - destruct (bsearch_found _ _ _ _ E) as (c & Hc & Hk). unfold id in Hk. subst c.
    apply list_elem_of_lookup_2 in Hc. split; [done|]. intros []; done.
  - split; [|done]. intros _ Ha. by eapply (bsearch_missing_notin id) in E.
Qed.
End BTreeSet.


#[export] Hint Resolve ksorted_nil ksorted_singleton : ottto.
