(* ===== verification/Text.v ===== *)
(** Rust text: [str] operations by bytes, UTF-8 and its scalar values, the
    [char] classes the code tests, and hexadecimal digits
    (crates/ottto-service/src/hex.rs; the rest is the standard library's
    [str] and [char]).

    A [String] is the Rocq [string] of its UTF-8 bytes.  [chars] decodes it;
    on the text of any list of scalar values it returns that list
    ([chars_of_chars]), which is all the text a Rust [str] can hold. *)
From S2P Require Import Prelude.
Local Open Scope Z_scope.

(** ** [str] operations by bytes *)
(** The UTF-8 encodings of Unicode [White_Space]. *)
Definition whitespace : list (list Z) :=
  [[9]; [10]; [11]; [12]; [13]; [32]; [194; 133]; [194; 160]; [225; 154; 128]]
  ++ ((fun b => [226; 128; b]) <$> [128; 129; 130; 131; 132; 133; 134; 135; 136; 137; 138; 168; 169; 175])
  ++ [[226; 129; 159]; [227; 128; 128]].

Fixpoint strip_prefix (p l : list Z) : option (list Z) :=
  match p, l with
  | [], _ => Some l
  | a :: p, b :: l => if a =? b then strip_prefix p l else None
  | _ :: _, [] => None
  end.
Definition strip_suffix (p l : list Z) : option (list Z) := reverse <$> strip_prefix (reverse p) (reverse l).

Definition first_prefix (ps : list (list Z)) (l : list Z) : option (list Z) :=
  foldr (fun p found => match strip_prefix p l with Some l => Some l | None => found end) None ps.
(** One strip per step; the length is fuel enough, each strip takes a byte. *)
Fixpoint trim_left (ps : list (list Z)) (fuel : nat) (l : list Z) : list Z :=
  match fuel with
  | O => l
  | S fuel => match first_prefix ps l with Some l => trim_left ps fuel l | None => l end
  end.
Definition trim (l : list Z) : list Z :=
  let l := trim_left whitespace (length l) l in
  reverse (trim_left (reverse <$> whitespace) (length l) (reverse l)).

Definition ascii_lower (b : Z) : Z := if (65 <=? b) && (b <=? 90) then b + 32 else b.
Definition is_ascii_digit (b : Z) : bool := (48 <=? b) && (b <=? 57).

(** [find], [rsplit_once], [split_once]: the text before and after a match. *)
Fixpoint split_at_first (p l : list Z) : option (list Z * list Z) :=
  match strip_prefix p l with
  | Some rest => Some ([], rest)
  | None =>
      match l with
      | [] => None
      | b :: l => try? (before, after) := split_at_first p l in Some (b :: before, after)
      end
  end.
Fixpoint split_at_last (p l : list Z) : option (list Z * list Z) :=
  let here := (fun rest => ([], rest)) <$> strip_prefix p l in
  match l with
  | [] => here
  | b :: l =>
      match split_at_last p l with
      | Some (before, after) => Some (b :: before, after)
      | None => here
      end
  end.

Definition all_digits (part : list Z) : bool :=
  match part with [] => false | _ => forallb is_ascii_digit part end.


(** [str::contains], [starts_with], [to_ascii_lowercase]. *)
Definition starts_with (p l : list Z) : bool := if strip_prefix p l is Some _ then true else false.
Fixpoint contains (p l : list Z) : bool :=
  starts_with p l || match l with [] => false | _ :: l => contains p l end.
Definition to_ascii_lowercase (l : list Z) : list Z := ascii_lower <$> l.

(** [trim_start_matches], [trim_matches] of a set of ASCII characters. *)
Fixpoint trim_start_matches (m : Z -> bool) (l : list Z) : list Z :=
  match l with b :: rest => if m b then trim_start_matches m rest else l | [] => [] end.
Definition trim_matches (m : Z -> bool) (l : list Z) : list Z :=
  reverse (trim_start_matches m (reverse (trim_start_matches m l))).

(** ** Scalar values and UTF-8 *)
Definition scalar (c : Z) : Prop := 0 <= c < 55296 \/ 57344 <= c < 1114112.
#[export] Instance scalar_dec c : Decision (scalar c).
Proof. unfold scalar. apply _. Defined.
Definition len_utf8 (c : Z) : Z :=
  if c <? 128 then 1 else if c <? 2048 then 2 else if c <? 65536 then 3 else 4.
Definition encode_char (c : Z) : list Z :=
  if c <? 128 then [c]
  else if c <? 2048 then [192 + c / 64; 128 + c mod 64]
  else if c <? 65536 then [224 + c / 4096; 128 + c / 64 mod 64; 128 + c mod 64]
  else [240 + c / 262144; 128 + c / 4096 mod 64; 128 + c / 64 mod 64; 128 + c mod 64].
Fixpoint encode_chars (cs : list Z) : list Z :=
  match cs with [] => [] | c :: cs => encode_char c ++ encode_chars cs end.
(** [str::chars] over the bytes of a [str]. *)
Fixpoint decode_chars (bs : list Z) : list Z :=
  match bs with
  | [] => []
  | a :: bs1 =>
      if a <? 128 then a :: decode_chars bs1
      else match bs1 with
      | [] => []
      | b :: bs2 =>
          if a <? 224 then ((a - 192) * 64 + (b - 128)) :: decode_chars bs2
          else match bs2 with
          | [] => []
          | c :: bs3 =>
              if a <? 240 then ((a - 224) * 4096 + (b - 128) * 64 + (c - 128)) :: decode_chars bs3
              else match bs3 with
              | [] => []
              | d :: bs4 =>
                  ((a - 240) * 262144 + (b - 128) * 4096 + (c - 128) * 64 + (d - 128)) :: decode_chars bs4
              end
          end
      end
  end.
Definition chars (s : string) : list Z := decode_chars (as_bytes s).
Definition of_chars (cs : list Z) : string := of_bytes (encode_chars cs).
Definition str_len (s : string) : Z := Z.of_nat (length (as_bytes s)).

(** [char::is_control]: the Unicode category [Cc]. *)
Definition is_control (c : Z) : bool := (c <=? 31) || ((127 <=? c) && (c <=? 159)).
(** [char::is_whitespace]: the Unicode property [White_Space]. *)
Definition is_whitespace (c : Z) : bool :=
  ((9 <=? c) && (c <=? 13)) || (c =? 32) || (c =? 133) || (c =? 160) || (c =? 5760)
  || ((8192 <=? c) && (c <=? 8202)) || (c =? 8232) || (c =? 8233) || (c =? 8239) || (c =? 8287) || (c =? 12288).
Definition is_ascii_lowercase (b : Z) : bool := (97 <=? b) && (b <=? 122).
Definition is_ascii_uppercase (b : Z) : bool := (65 <=? b) && (b <=? 90).
Definition is_ascii_alphanumeric (b : Z) : bool :=
  is_ascii_lowercase b || is_ascii_uppercase b || is_ascii_digit b.

(** [str::trim]: the characters between the first and the last that is no
    white space.  [trim] above does the same on the bytes. *)
Definition str_trim (s : string) : string := of_chars (trim_matches is_whitespace (chars s)).

(** [text.split(pred)]: the pieces between the separators. *)
Fixpoint split_chars (sep : Z -> bool) (cs : list Z) : list (list Z) :=
  match cs with
  | [] => [[]]
  | c :: cs =>
      if sep c then [] :: split_chars sep cs
      else match split_chars sep cs with
           | part :: parts => (c :: part) :: parts
           | [] => [[c]]
           end
  end.

(** ** Hexadecimal digits: two lowercase digits per byte *)
Definition HEX : list Z := as_bytes "0123456789abcdef".
Fixpoint hex_encode (bytes : list Z) : list Z :=
  match bytes with
  | [] => []
  | byte :: bytes =>
      nth (Z.to_nat (Z.shiftr byte 4)) HEX 0 :: nth (Z.to_nat (Z.land byte 15)) HEX 0
      :: hex_encode bytes
  end.

Lemma HEX_u8 n : u8 (nth n HEX 0).
Proof.
  destruct (decide (n < length HEX)%nat).
  - assert (Forall u8 HEX) as Hall by apply as_bytes_u8. rewrite Forall_nth in Hall. by apply Hall.
  - rewrite nth_overflow by lia. done.
Qed.
Lemma length_hex_encode bs : length (hex_encode bs) = (2 * length bs)%nat.
Proof. induction bs; cbn; lia. Qed.
Lemma hex_encode_u8 bs : Forall u8 (hex_encode bs).
Proof. induction bs; cbn [hex_encode]; [done|]. repeat constructor; try apply HEX_u8; done. Qed.

(** ** Laws *)
#[local] Arguments Z.mul : simpl never.
#[local] Arguments Z.div : simpl never.
#[local] Arguments Z.modulo : simpl never.
#[local] Arguments Z.ltb : simpl never.
#[local] Arguments Z.add : simpl never.
#[local] Arguments Z.sub : simpl never.

(** Decides a chain of [<?] tests from the linear facts at hand. *)
Ltac ltb_cases :=
  repeat match goal with
    | |- context [?a <? ?b] =>
        first [ rewrite (proj2 (Z.ltb_lt a b)) by lia | rewrite (proj2 (Z.ltb_ge a b)) by lia
              | destruct (a <? b) eqn:?; zbool ]
    end.

Lemma decode_encode_char c rest :
  scalar c -> decode_chars (encode_char c ++ rest) = c :: decode_chars rest.
Proof.
  intros Hc. unfold scalar in Hc. unfold encode_char.
  pose proof (Z.div_mod c 64). pose proof (Z.mod_pos_bound c 64 eq_refl).
  pose proof (Z.div_mod (c / 64) 64). pose proof (Z.mod_pos_bound (c / 64) 64 eq_refl).
  pose proof (Z.div_mod (c / 4096) 64). pose proof (Z.mod_pos_bound (c / 4096) 64 eq_refl).
  assert (c / 64 / 64 = c / 4096) by (by rewrite Z.div_div by lia).
  assert (c / 4096 / 64 = c / 262144) by (by rewrite Z.div_div by lia).
  assert (0 <= c / 262144 <= 4).
  { split; [apply Z.div_pos; lia|]. apply Z.lt_succ_r, Z.div_lt_upper_bound; lia. }
  assert (0 <= c / 64) by (apply Z.div_pos; lia). assert (0 <= c / 4096) by (apply Z.div_pos; lia).
  ltb_cases; cbn [app decode_chars]; ltb_cases; first [done | f_equal; lia | lia].
Qed.

Lemma decode_encode_chars cs : Forall scalar cs -> decode_chars (encode_chars cs) = cs.
Proof.
  induction 1 as [|c cs Hc _ IH]; [done|]. cbn. by rewrite decode_encode_char, IH.
Qed.
Lemma encode_char_u8 c : scalar c -> Forall u8 (encode_char c).
Proof.
  intros Hc. unfold scalar in Hc. unfold encode_char.
  pose proof (Z.mod_pos_bound c 64 eq_refl). pose proof (Z.mod_pos_bound (c / 64) 64 eq_refl).
  pose proof (Z.mod_pos_bound (c / 4096) 64 eq_refl).
  assert (c < 262144 * 8) by lia. assert (0 <= c / 262144 < 8).
  { split; [apply Z.div_pos; lia|apply Z.div_lt_upper_bound; lia]. }
  assert (c < 65536 -> c / 4096 < 16) by (intros; apply Z.div_lt_upper_bound; lia).
  assert (c < 2048 -> c / 64 < 32) by (intros; apply Z.div_lt_upper_bound; lia).
  assert (0 <= c / 4096) by (apply Z.div_pos; lia). assert (0 <= c / 64) by (apply Z.div_pos; lia).
  ltb_cases; repeat constructor; lia.
Qed.
Lemma encode_chars_u8 cs : Forall scalar cs -> Forall u8 (encode_chars cs).
Proof.
  induction 1 as [|c cs Hc _ IH]; cbn; [done|].
  apply Forall_app. split; [by apply encode_char_u8|done].
Qed.
Lemma as_bytes_of_chars cs : Forall scalar cs -> as_bytes (of_chars cs) = encode_chars cs.
Proof. intros. by apply as_of_bytes, encode_chars_u8. Qed.
Lemma chars_of_chars cs : Forall scalar cs -> chars (of_chars cs) = cs.
Proof. intros. unfold chars. by rewrite as_bytes_of_chars, decode_encode_chars. Qed.
Lemma encode_chars_app cs ds : encode_chars (cs ++ ds) = encode_chars cs ++ encode_chars ds.
Proof. induction cs as [|c cs IH]; cbn; [done|]. by rewrite IH, app_assoc. Qed.
Lemma length_encode_char c : Z.of_nat (length (encode_char c)) = len_utf8 c.
Proof. unfold encode_char, len_utf8. ltb_cases; done. Qed.
Lemma len_utf8_bound c : 1 <= len_utf8 c <= 4.
Proof. unfold len_utf8. ltb_cases; lia. Qed.

(** Text a Rust [str] can hold. *)
Definition utf8 (s : string) : Prop := exists cs, Forall scalar cs /\ s = of_chars cs.
Lemma utf8_chars s : utf8 s -> s = of_chars (chars s) /\ Forall scalar (chars s).
Proof. intros (cs & Hc & ->). by rewrite chars_of_chars. Qed.
Lemma str_len_of_chars cs : Forall scalar cs -> str_len (of_chars cs) = Z.of_nat (length (encode_chars cs)).
Proof. intros. unfold str_len. by rewrite as_bytes_of_chars. Qed.

(** ASCII bytes are their own characters. *)
Lemma encode_ascii cs : Forall (fun c => 0 <= c < 128) cs -> encode_chars cs = cs.
Proof.
  induction 1 as [|c cs Hc _ IH]; [done|]. cbn. rewrite IH.
  unfold encode_char. by ltb_cases.
Qed.
Lemma decode_ascii bs : Forall (fun c => 0 <= c < 128) bs -> decode_chars bs = bs.
Proof.
  intros H. rewrite <-(encode_ascii bs) at 1 by done. apply decode_encode_chars.
  eapply Forall_impl; [done|]. unfold scalar. intros. cbn in *. lia.
Qed.

Lemma forallb_Forall {A} (p : A -> bool) l : forallb p l = true <-> Forall (fun x => p x = true) l.
Proof. rewrite forallb_forall, Forall_forall. by setoid_rewrite list_elem_of_In. Qed.

(** ** Searching *)
Lemma strip_prefix_Some p l rest : strip_prefix p l = Some rest <-> l = p ++ rest.
Proof.
  revert l. induction p as [|a p IH]; intros [|b l]; cbn; try naive_solver.
  destruct (a =? b) eqn:E; zbool; [rewrite IH; naive_solver|]. naive_solver.
Qed.
Lemma split_at_first_Some p l before after : split_at_first p l = Some (before, after) -> l = before ++ p ++ after.
Proof.
  revert before. induction l as [|b l IH]; intros before; cbn [split_at_first].
  - destruct (strip_prefix p []) eqn:E; [|done]. intros [= <- <-]. by apply strip_prefix_Some in E.
  - destruct (strip_prefix p (b :: l)) eqn:E; [intros [= <- <-]; by apply strip_prefix_Some in E|].
    destruct (split_at_first p l) as [[x y]|] eqn:E'; [|done]. intros [= <- <-]. cbn. f_equal. by apply IH.
Qed.
Lemma starts_with_spec p l : starts_with p l = true <-> exists rest, l = p ++ rest.
Proof.
  unfold starts_with. destruct (strip_prefix p l) as [rest|] eqn:E.
  - apply strip_prefix_Some in E. naive_solver.
  - split; [done|]. intros [rest Hl]. apply strip_prefix_Some in Hl. by rewrite Hl in E.
Qed.
Lemma contains_spec p l : contains p l = true <-> exists pre post, l = pre ++ p ++ post.
Proof.
  induction l as [|b l IH]; cbn [contains]; rewrite orb_true_iff, starts_with_spec.
  - split; [intros [[rest Hr]|]; [by exists [], rest|done]|].
    intros (pre & post & H). left. symmetry in H. apply app_eq_nil in H as [-> H].
    exists post. by rewrite H.
  - rewrite IH. split.
    + intros [[rest ->]|(pre & post & ->)]; [by exists [], rest|by exists (b :: pre), post].
    + intros ([|b' pre] & post & H); cbn in H; simplify_eq; [left; by exists post|right; by exists pre, post].
Qed.
Lemma contains_middle p pre post : contains p (pre ++ p ++ post) = true.
Proof. apply contains_spec. by exists pre, post. Qed.
Lemma contains_app_l p pre l : contains p l = true -> contains p (pre ++ l) = true.
Proof. rewrite !contains_spec. intros (a & b & ->). exists (pre ++ a), b. by rewrite <-app_assoc. Qed.
Lemma contains_app_r p post l : contains p l = true -> contains p (l ++ post) = true.
Proof. rewrite !contains_spec. intros (a & b & ->). exists a, (b ++ post). by rewrite <-!app_assoc. Qed.

(** ** Trimming *)
(** Letters, digits and dashes. *)
Definition is_plain (b : Z) : bool := is_ascii_alphanumeric b || (b =? 45).
Lemma plain_range b : is_plain b = true -> 33 <= b < 127.
Proof.
  unfold is_plain, is_ascii_alphanumeric, is_ascii_lowercase, is_ascii_uppercase, is_ascii_digit.
  rewrite !orb_true_iff, !andb_true_iff. intros H.
  repeat match goal with H : _ \/ _ |- _ => destruct H | H : _ /\ _ |- _ => destruct H end; zbool; lia.
Qed.
Lemma ascii_not_space m : 33 <= m < 127 -> is_whitespace m = false.
Proof.
  intros. apply not_true_iff_false. unfold is_whitespace. rewrite !orb_true_iff, !andb_true_iff. intros E.
  repeat match goal with H : _ \/ _ |- _ => destruct H | H : _ /\ _ |- _ => destruct H end; zbool; lia.
Qed.
Lemma trim_start_none m l : Forall (fun b => m b = false) l -> trim_start_matches m l = l.
Proof. destruct 1 as [|b l Hb _]; cbn; [done|]. by rewrite Hb. Qed.
Lemma trim_matches_none m l : Forall (fun b => m b = false) l -> trim_matches m l = l.
Proof.
  intros Hl. unfold trim_matches. rewrite (trim_start_none m l) by done.
  rewrite trim_start_none by by apply Forall_reverse. apply reverse_involutive.
Qed.
(** Text of plain characters is its own bytes and has no white space to trim. *)
Lemma plain_text cs :
  Forall (fun b => is_plain b = true) cs ->
  as_bytes (of_chars cs) = cs /\ chars (of_chars cs) = cs /\ str_trim (of_chars cs) = of_chars cs.
Proof.
  intros Hp. assert (Forall (fun b => 33 <= b < 127) cs) as Hr.
  { eapply Forall_impl; [exact Hp|]. intros b. apply plain_range. }
  assert (Forall scalar cs) as Hs.
  { eapply Forall_impl; [exact Hr|]. unfold scalar. cbn. lia. }
  assert (as_bytes (of_chars cs) = cs) as Hb.
  { rewrite as_bytes_of_chars by done. apply encode_ascii. eapply Forall_impl; [exact Hr|]. cbn. lia. }
  split_and!; [done|by apply chars_of_chars|]. unfold str_trim. rewrite chars_of_chars by done.
  f_equal. apply trim_matches_none. eapply Forall_impl; [exact Hr|]. intros b. apply ascii_not_space.
Qed.
