(* ===== verification/Std.v ===== *)
(** Rust's standard library as the components share it: slices and iterators
    (the stable sort by a comparison, the least and the greatest by a key, and
    their laws), and the monotonic clock.

    A [Duration] is its nanoseconds, at most [DURATION_MAX]; an [Instant] is the
    nanoseconds since the clock's origin. *)
From S2P Require Import Prelude.
Local Open Scope Z_scope.

(** [slice::sort_by]: stable. *)
Fixpoint insert_by {A} (cmp : A -> A -> comparison) (x : A) (l : list A) : list A :=
  match l with
  | [] => [x]
  | y :: rest => if cmp x y is Gt then y :: insert_by cmp x rest else x :: l
  end.
Definition sort_by {A} (cmp : A -> A -> comparison) (l : list A) : list A := foldr (insert_by cmp) [] l.
(** [Iterator::min_by_key] keeps the first of the least keys, [max_by_key] the
    last of the greatest. *)
Fixpoint min_by_key {A} (key : A -> Z) (l : list A) : option A :=
  match l with
  | [] => None
  | x :: l =>
      match min_by_key key l with
      | None => Some x
      | Some y => Some (if key y <? key x then y else x)
      end
  end.
Fixpoint max_by_key {A} (key : A -> Z) (l : list A) : option A :=
  match l with
  | [] => None
  | x :: l =>
      match max_by_key key l with
      | None => Some x
      | Some y => Some (if key y <? key x then x else y)
      end
  end.

(** [Iterator::max_by]: a later element replaces an earlier one unless it is
    less. *)
Definition max_by {A} (cmp : A -> A -> comparison) (l : list A) : option A :=
  match l with
  | [] => None
  | x :: l => Some (foldl (fun x y => if cmp x y is Gt then x else y) x l)
  end.

(** ** Sorting by a key with a total order *)
Section SortBy.
Context {A K : Type} `{RustOrdLaws K} (key : A -> K) (cmp : A -> A -> comparison).
Context (Hcmp : forall a b, cmp a b = rcmp (key a) (key b)).
Definition not_after (a b : A) : Prop := rcmp (key a) (key b) <> Gt.

Lemma insert_by_perm x l : insert_by cmp x l ≡ₚ x :: l.
Proof.
  induction l as [|y l IH]; cbn; [done|]. destruct (cmp x y); [done..|]. rewrite IH. by rewrite Permutation_swap.
Qed.
Lemma sort_by_perm l : sort_by cmp l ≡ₚ l.
Proof. induction l as [|x l IH]; cbn; [done|]. by rewrite insert_by_perm, IH. Qed.
#[global] Instance not_after_trans : Transitive not_after.
Proof.
  intros a b c. unfold not_after. intros H1 H2 H3. apply rcmp_gt in H3. unfold rlt in H3.
  destruct (rcmp (key a) (key b)) eqn:E1; [| |done].
  - apply rcmp_eq in E1. rewrite E1 in H3. apply H2. by apply rcmp_gt.
  - apply H2, rcmp_gt. unfold rlt. by apply (rcmp_trans _ (key a)).
Qed.
Lemma insert_by_sorted x l : StronglySorted not_after l -> StronglySorted not_after (insert_by cmp x l).
Proof.
  induction 1 as [|y l Hl IH Hy]; cbn; [repeat constructor|].
  assert (cmp x y <> Gt -> StronglySorted not_after (x :: y :: l)) as Hlt.
  { intros Hc. rewrite Hcmp in Hc. constructor; [by constructor|]. constructor; [done|].
    eapply Forall_impl; [exact Hy|]. intros z. by apply not_after_trans. }
  destruct (cmp x y) eqn:E; [by apply Hlt..|]. constructor; [exact IH|].
  rewrite Forall_forall in *. intros z Hz. rewrite insert_by_perm in Hz. apply elem_of_cons in Hz as [->|Hz].
  - rewrite Hcmp in E. unfold not_after. apply rcmp_gt in E. unfold rlt in E. by rewrite E.
  - by apply Hy.
Qed.
Lemma sort_by_sorted l : StronglySorted not_after (sort_by cmp l).
Proof. induction l; cbn; [constructor|]. by apply insert_by_sorted. Qed.
Lemma max_by_spec l :
  match max_by cmp l with
  | Some x => x ∈ l /\ forall y, y ∈ l -> not_after y x
  | None => l = []
  end.
Proof.
  destruct l as [|x l]; cbn; [done|]. revert x. induction l as [|z l IH]; intros x; cbn [foldl].
  - split; [set_solver|]. intros y ->%list_elem_of_singleton. unfold not_after. by rewrite rcmp_refl.
  - set (w := if cmp x z is Gt then x else z). destruct (IH w) as [Hin Hmax].
    assert (w = x /\ not_after z x \/ w = z /\ not_after x z) as Hw.
    { unfold w, not_after. rewrite (rcmp_flip (key x) (key z)), Hcmp. destruct (rcmp (key x) (key z)); naive_solver. }
    pose proof (Hmax w ltac:(by left)) as Hmw. split.
    + apply elem_of_cons in Hin as [Hin|Hin]; [rewrite Hin|by do 2 right].
      destruct Hw as [[-> _]|[-> _]]; [by left|by right; left].
    + assert (forall v, not_after v v) as Hrefl by (intros v; unfold not_after; by rewrite rcmp_refl).
      intros y [->|[->|Hy]%elem_of_cons]%elem_of_cons; [| |apply Hmax; by right];
        (etrans; [|exact Hmw]); destruct Hw as [[-> Hw]|[-> Hw]]; auto.
Qed.
(** With distinct keys the sorted list does not depend on the order given. *)
Lemma sort_by_canonical l1 l2 : l1 ≡ₚ l2 -> NoDup (key <$> l1) -> sort_by cmp l1 = sort_by cmp l2.
Proof.
  intros Hp Hn. apply (StronglySorted_unique_strong not_after).
  - intros a b Ha Hb H1 H2. rewrite sort_by_perm in Ha, Hb. rewrite <-Hp in Hb.
    assert (key a = key b) as Hk.
    { apply rcmp_eq. unfold not_after in *. rewrite (rcmp_flip (key a)) in H2.
      by destruct (rcmp (key a) (key b)). }
    clear -Hn Ha Hb Hk. induction l1 as [|x l IH]; [by apply elem_of_nil in Ha|].
    rewrite fmap_cons in Hn. apply NoDup_cons in Hn as [Hx Hn].
    apply elem_of_cons in Ha as [->|Ha], Hb as [->|Hb]; [done| | |by apply IH].
    + destruct Hx. rewrite Hk. by apply list_elem_of_fmap_2.
    + destruct Hx. rewrite <-Hk. by apply list_elem_of_fmap_2.
  - apply sort_by_sorted.
  - apply sort_by_sorted.
  - by rewrite !sort_by_perm.
Qed.
End SortBy.

Lemma min_by_key_spec {A} (key : A -> Z) l :
  match min_by_key key l with
  | Some x => x ∈ l /\ forall y, y ∈ l -> key x <= key y
  | None => l = []
  end.
Proof.
  induction l as [|x l IH]; cbn; [done|]. destruct (min_by_key key l) as [y|].
  - destruct IH as [Hy Hmin]. destruct (key y <? key x) eqn:E; zbool.
    + split; [by right|]. intros z [->|Hz]%elem_of_cons; [lia|by apply Hmin].
    + split; [by left|]. intros z [->|Hz]%elem_of_cons; [lia|]. specialize (Hmin z Hz). lia.
  - subst l. split; [by left|]. intros z [->|Hz]%elem_of_cons; [lia|by apply elem_of_nil in Hz].
Qed.
Lemma length_omap {A B} (f : A -> option B) (l : list A) : (length (omap f l) <= length l)%nat.
Proof. induction l as [|x l IH]; cbn; [lia|]. destruct (f x); cbn; lia. Qed.
Lemma Forall_filter {A} (Q P : A -> Prop) `{forall x, Decision (P x)} l : Forall Q l -> Forall Q (filter P l).
Proof. rewrite !Forall_forall. intros Hq x [_ Hx]%list_elem_of_filter. by apply Hq. Qed.
Lemma StronglySorted_filter {A} (R : A -> A -> Prop) (P : A -> Prop) `{forall x, Decision (P x)} l :
  StronglySorted R l -> StronglySorted R (filter P l).
Proof.
  induction 1 as [|x l Hl IH Hx]; [constructor|]. destruct (decide (P x)).
  - rewrite filter_cons_True by done. constructor; [done|]. by apply Forall_filter.
  - by rewrite filter_cons_False by done.
Qed.

Abbreviation Duration := Z (only parsing).
Abbreviation Instant := Z (only parsing).
Definition secs (n : Z) : Duration := n * 1000000000.
(** [Duration::as_secs]. *)
Definition as_secs (d : Duration) : Z := d / 1000000000.
Definition DURATION_MAX : Z := 2 ^ 64 * 1000000000 - 1.
Definition duration (d : Z) : Prop := 0 <= d <= DURATION_MAX.
(** [Duration::checked_mul]. *)
Definition duration_mul (d : Duration) (n : Z) : option Duration :=
  if d * n <=? DURATION_MAX then Some (d * n) else None.
(** [Instant::duration_since] and [saturating_duration_since] saturate at zero. *)
Definition duration_since (now earlier : Instant) : Duration := Z.max 0 (now - earlier).
(** [Instant::checked_duration_since]. *)
Definition checked_duration_since (now earlier : Instant) : option Duration :=
  if now <? earlier then None else Some (now - earlier).
