(* ===== verification/PrivacyGuard.v ===== *)
(** The guards uploaded status text passes (crates/ottto-protocol/src/lib.rs):
    backend text, provider identifiers, display text, credit text with its
    fold of Unicode lookalikes, reason codes, grant keys and RFC 3339 instants.

    [char::to_lowercase] is a parameter: its Unicode table is the standard
    library's, and only what it does to ASCII is relied on. *)
From S2P Require Import Prelude Text.
Local Open Scope Z_scope.

(** ** Backend text *)
Definition has_any (fragments : list string) (normalized : list Z) : bool :=
  existsb (fun fragment => contains (as_bytes fragment) normalized) fragments.
Definition has_any_prefix (prefixes : list string) (normalized : list Z) : bool :=
  existsb (fun prefix => starts_with (as_bytes prefix) normalized) prefixes.

Definition forbidden_fragments : list string := [
  "/users/"; "\users\"; "/home/"; "\home\"; "/.codex"; "\.codex"; "/.claude"; "\.claude"; "/.pi/"; "\.pi\";
  "authorization:"; "bearer "; "otdev_"; "otsi_"; "otsr_"; "otsct_"; "otel_"; "otrelay_"; "sk-"]%string.
(** The quotes and brackets trimmed before a leading path or URL is looked for. *)
Definition is_wrapper (b : Z) : bool :=
  existsb (Z.eqb b) [34; 39; 44; 59; 41; 40; 91; 93; 123; 125].

Definition is_safe_backend_text_without_email_guard (value : string) : bool :=
  let normalized := to_ascii_lowercase (as_bytes value) in
  if bool_decide (trim_matches is_whitespace (decode_chars normalized) = []) then false
  else if has_any forbidden_fragments normalized then false
  else negb (has_any_prefix ["/"; "~/"; "file:/"; "http://"; "https://"]%string
               (trim_matches is_wrapper normalized)).
Definition is_safe_backend_text (value : string) : bool :=
  negb (contains [64] (as_bytes value)) && is_safe_backend_text_without_email_guard value.
Definition safe_optional_text (value : option string) : option string :=
  try? text := value in if is_safe_backend_text text then Some text else None.

(** ** Provider identifiers *)
Definition BACKEND_PROVIDER_IDENTIFIER_MAX_CHARS : Z := 128.
Definition safe_provider_identifier (value : option string) : option string :=
  try? value := value in
  let trimmed := str_trim value in
  if (str_len trimmed =? 0)
     || (BACKEND_PROVIDER_IDENTIFIER_MAX_CHARS <? str_len trimmed)
     || negb (forallb (fun ch => is_ascii_alphanumeric ch || (ch =? 45)) (trim_matches is_whitespace (chars value)))
     || negb (is_safe_backend_text trimmed)
  then None
  else Some trimmed.

(** ** Display text *)
Definition display_fragments : list string := [
  "access_token"; "refresh_token"; "id_token"; "api_key"; "password="; "password:"; "cookie:"; "-----begin";
  "transcript_path"; "workspace_path"; "http://"; "https://"; "file:/"]%string.
Definition splits_display (ch : Z) : bool :=
  is_whitespace ch || existsb (Z.eqb ch) [61; 58; 34; 39; 40; 41; 91; 93; 123; 125; 44; 59; 124].
Definition opens_display (b : Z) : bool := existsb (Z.eqb b) [34; 39; 40; 91; 123].
Definition is_path_part (part : list Z) : bool :=
  let part := trim_start_matches opens_display (encode_chars part) in
  has_any_prefix ["/"; "~/"; "\"]%string part
  || (bool_decide (part !! 1%nat = Some 58)
      && (bool_decide (part !! 2%nat = Some 47) || bool_decide (part !! 2%nat = Some 92))).
Definition is_safe_display_text (max_chars : Z) (text : string) : bool :=
  (Z.of_nat (length (chars text)) <=? max_chars)
  && negb (existsb is_control (chars text))
  && is_safe_backend_text_without_email_guard (str_trim text)
  && negb (has_any display_fragments (to_ascii_lowercase (as_bytes text)))
  && negb (existsb is_path_part (split_chars splits_display (chars text))).
Definition safe_status_display_text (value : option string) (max_chars : Z) : option string :=
  try? text := value in if is_safe_display_text max_chars text then Some text else None.

(** ** Closed shapes *)
Definition is_credit_reason_code (value : string) : bool :=
  (1 <=? str_len value) && (str_len value <=? 64)
  && forallb (fun b => is_ascii_lowercase b || is_ascii_digit b || existsb (Z.eqb b) [95; 46; 45])
       (as_bytes value).
Definition is_credit_grant_key (value : string) : bool :=
  (str_len value =? 64)
  && forallb (fun b => is_ascii_digit b || ((97 <=? b) && (b <=? 102))) (as_bytes value).

(** ** RFC 3339 instants *)
Definition byte_of (bytes : list Z) (at_ : nat) : Z := nth at_ bytes 0.
Fixpoint parse_digits (acc : Z) (part : list Z) : Z :=
  match part with [] => acc | b :: part => parse_digits (acc * 10 + (b - 48)) part end.
Definition number (bytes : list Z) (from until : nat) : option Z :=
  let part := take (until - from) (drop from bytes) in
  if forallb is_ascii_digit part then Some (parse_digits 0 part) else None.
Definition days_in_month (year month : Z) : option Z :=
  let leap := (year mod 4 =? 0) && (negb (year mod 100 =? 0) || (year mod 400 =? 0)) in
  match month with
  | 1 | 3 | 5 | 7 | 8 | 10 | 12 => Some 31
  | 4 | 6 | 9 | 11 => Some 30
  | 2 => Some (if leap then 29 else 28)
  | _ => None
  end.
Definition is_offset (rest : list Z) : bool :=
  match rest with
  | [z] => (z =? 90) || (z =? 122)
  | [sign; h1; h2; colon; m1; m2] =>
      ((sign =? 43) || (sign =? 45)) && (colon =? 58) && forallb is_ascii_digit [h1; h2; m1; m2]
      && ((h1 - 48) * 10 + (h2 - 48) <=? 23) && ((m1 - 48) * 10 + (m2 - 48) <=? 59)
  | _ => false
  end.
Fixpoint digit_run (l : list Z) : nat :=
  match l with b :: l => if is_ascii_digit b then S (digit_run l) else O | [] => O end.
(** [rest]: an optional fraction of one to nine digits, then the offset. *)
Definition fraction_and_offset (rest : list Z) : bool :=
  match strip_prefix [46] rest with
  | Some fraction =>
      let digits := digit_run fraction in
      bool_decide (1 <= digits <= 9)%nat && is_offset (drop digits fraction)
  | None => is_offset rest
  end.
Definition is_date_time (bytes : list Z) : bool :=
  match number bytes 0 4, number bytes 5 7, number bytes 8 10,
        number bytes 11 13, number bytes 14 16, number bytes 17 19 with
  | Some year, Some month, Some day, Some hour, Some minute, Some second =>
      match days_in_month year month with
      | Some days =>
          negb ((day =? 0) || (days <? day) || (23 <? hour) || (59 <? minute) || (60 <? second))
      | None => false
      end
  | _, _, _, _, _, _ => false
  end.
Definition is_rfc3339_instant (value : string) : bool :=
  let bytes := as_bytes value in
  if (Z.of_nat (length bytes) <? 20) || (64 <? Z.of_nat (length bytes))
     || negb (forallb (fun b => b <? 128) bytes) then false
  else if negb ((byte_of bytes 4 =? 45) && (byte_of bytes 7 =? 45) && (byte_of bytes 13 =? 58)
                && (byte_of bytes 16 =? 58))
          || negb ((byte_of bytes 10 =? 84) || (byte_of bytes 10 =? 116)) then false
  else is_date_time bytes && fraction_and_offset (drop 19 bytes).

(** ** Lookalikes *)
Definition in_ranges (ranges : list (Z * Z)) (ch : Z) : bool :=
  existsb (fun '(lo, hi) => (lo <=? ch) && (ch <=? hi)) ranges.
Definition is_format_char (ch : Z) : bool :=
  in_ranges [(173, 173); (1536, 1541); (1564, 1564); (1757, 1757); (1807, 1807); (2192, 2193); (2274, 2274);
    (6158, 6158); (8203, 8207); (8234, 8238); (8288, 8292); (8294, 8303); (65279, 65279); (65529, 65531);
    (69821, 69821); (69837, 69837); (113824, 113827); (119155, 119162); (917505, 917505); (917536, 917631)] ch.
(** The fold of one character; [None] drops it. *)
Definition fold_lookalike (ch : Z) : option Z :=
  if (65281 <=? ch) && (ch <=? 65374) then Some (ch - 65248)
  else if existsb (Z.eqb ch) [8260; 8725; 10744] then Some 47
  else if ch =? 65131 then Some 64
  else if existsb (Z.eqb ch) [8726; 10741; 10745; 65128] then Some 92
  else if is_format_char ch then None
  else Some ch.

Section Fold.
(** [char::to_lowercase] as the characters it yields. *)
Context (to_lowercase : Z -> list Z).

Fixpoint fold_chars (in_space : bool) (cs : list Z) : list Z :=
  match cs with
  | [] => []
  | ch :: cs =>
      match fold_lookalike ch with
      | None => fold_chars in_space cs
      | Some mapped =>
          if is_whitespace mapped then (if in_space then [] else [32]) ++ fold_chars true cs
          else to_lowercase mapped ++ fold_chars false cs
      end
  end.
Definition fold_for_privacy_match (value : string) : string := of_chars (fold_chars false (chars value)).
Definition is_backend_safe_credit_text (value : string) : bool :=
  is_safe_backend_text value && is_safe_backend_text (fold_for_privacy_match value).
End Fold.

(** ** What safe text never holds *)
(** [part] spells [fragment] up to ASCII case. *)
Lemma safe_text_no_at value pre post :
  is_safe_backend_text value = true -> as_bytes value <> pre ++ [64] ++ post.
Proof.
  unfold is_safe_backend_text. intros H E. zbool. rewrite E, contains_middle in *. done.
Qed.
Lemma has_any_spec fragments l :
  has_any fragments l = true <-> exists f, f ∈ fragments /\ contains (as_bytes f) l = true.
Proof. unfold has_any. by rewrite existsb_exists; setoid_rewrite list_elem_of_In. Qed.
Lemma safe_text_no_fragment value fragment pre part post :
  is_safe_backend_text_without_email_guard value = true -> fragment ∈ forbidden_fragments ->
  to_ascii_lowercase part = as_bytes fragment -> as_bytes value <> pre ++ part ++ post.
Proof.
  unfold is_safe_backend_text_without_email_guard. intros Hs Hf Hp E.
  destruct (bool_decide _); [done|]. destruct (has_any _ _) eqn:Ha; [done|].
  apply not_true_iff_false in Ha. apply Ha. apply has_any_spec. exists fragment. split; [done|].
  rewrite E. unfold to_ascii_lowercase in *. rewrite !fmap_app, Hp. apply contains_middle.
Qed.
Lemma safe_text_guarded value : is_safe_backend_text value = true -> is_safe_backend_text_without_email_guard value = true.
Proof. unfold is_safe_backend_text. intros. by zbool. Qed.

(** ** Disguises *)
(** [ch] reads as the ASCII character [c]: itself, its capital, their
    full-width forms, or a slash, backslash or at-sign lookalike. *)
Definition wears (ch c : Z) : bool :=
  let letter := (ascii_lower ch =? c) && (ch <? 128) in
  let wide := (65281 <=? ch) && (ch <=? 65374) && (ascii_lower (ch - 65248) =? c) in
  letter || wide
  || ((c =? 47) && existsb (Z.eqb ch) [8260; 8725; 10744])
  || ((c =? 64) && (ch =? 65131))
  || ((c =? 92) && existsb (Z.eqb ch) [8726; 10741; 10745; 65128]).
Definition is_gap (ch : Z) : bool := is_whitespace ch || is_format_char ch.
(** [spells f cs]: the characters [cs] spell the ASCII text [f] to a reader:
    invisible characters anywhere, disguised letters, and any run of white
    space for a space. *)
Inductive spells : list Z -> list Z -> Prop :=
  | spells_nil : spells [] []
  | spells_format ch f cs : is_format_char ch = true -> spells f cs -> spells f (ch :: cs)
  | spells_letter c ch f cs :
      33 <= c < 127 -> wears ch c = true -> spells f cs -> spells (c :: f) (ch :: cs)
  | spells_space ch gap f cs :
      is_whitespace ch = true -> Forall (fun g => is_gap g = true) gap -> head f <> Some 32 ->
      spells f cs -> spells (32 :: f) (ch :: gap ++ cs).

(** Decides a class of one concrete character. *)
Ltac char_cases :=
  repeat match goal with
    | H : existsb _ _ = true |- _ => apply existsb_exists in H as (? & ? & ?)
    | H : In _ _ |- _ => cbn in H
    | H : _ \/ _ |- _ => destruct H
    | H : False |- _ => destruct H
    | H : _ || _ = true |- _ => apply orb_prop in H as [?|?]
    | _ => progress (zbool; subst)
    end.

Lemma format_folds ch : is_format_char ch = true -> fold_lookalike ch = None.
Proof.
  intros H. unfold fold_lookalike. rewrite H.
  assert (forall v, (65281 <= v <= 65374 \/ v ∈ [8260; 8725; 10744; 65131; 8726; 10741; 10745; 65128]) ->
    is_format_char v = false) as Hd.
  { intros v [Hv|Hv].
    - unfold is_format_char, in_ranges. apply not_true_iff_false. intros E. cbn [existsb] in E. char_cases; lia.
    - rewrite !elem_of_cons, elem_of_nil in Hv. by repeat destruct Hv as [->|Hv]. }
  destruct ((65281 <=? ch) && (ch <=? 65374)) eqn:E1.
  { zbool. rewrite Hd in H; [done|lia]. }
  destruct (existsb (Z.eqb ch) [8260; 8725; 10744]) eqn:E2.
  { char_cases; by rewrite Hd in H by set_solver. }
  destruct (ch =? 65131) eqn:E3; [char_cases; by rewrite Hd in H by set_solver|].
  destruct (existsb (Z.eqb ch) [8726; 10741; 10745; 65128]) eqn:E4; [char_cases; by rewrite Hd in H by set_solver|].
  done.
Qed.
Lemma space_folds ch : is_whitespace ch = true -> fold_lookalike ch = Some ch.
Proof.
  intros H. unfold is_whitespace in H.
  assert (9 <= ch <= 13 \/ 8192 <= ch <= 8202 \/ ch ∈ [32; 133; 160; 5760; 8232; 8233; 8239; 8287; 12288]) as Hc.
  { char_cases; (lia || set_solver). }
  clear H. rewrite !elem_of_cons, elem_of_nil in Hc. unfold fold_lookalike. destruct (is_format_char ch) eqn:Ef.
  { unfold is_format_char, in_ranges in Ef. cbn [existsb] in Ef. char_cases; lia. }
  destruct (_ && _) eqn:E1; [char_cases; lia|]. destruct (existsb _ [8260; _; _]) eqn:E2; [char_cases; lia|].
  destruct (ch =? 65131) eqn:E3; [char_cases; lia|].
  destruct (existsb _ [8726; _; _; _]) eqn:E4; [char_cases; lia|]. done.
Qed.

Lemma ascii_lower_range ch c : 33 <= c < 127 -> ascii_lower ch = c -> 33 <= ch < 127.
Proof. intros Hc. unfold ascii_lower. destruct (_ && _) eqn:E; zbool; lia. Qed.
Lemma ascii_not_format m : 33 <= m < 127 -> is_format_char m = false.
Proof.
  intros. apply not_true_iff_false. unfold is_format_char, in_ranges. cbn [existsb]. intros E. char_cases; lia.
Qed.
Lemma ascii_folds m : 33 <= m < 127 -> fold_lookalike m = Some m.
Proof.
  intros Hm. unfold fold_lookalike. rewrite ascii_not_format by done.
  destruct (_ && _) eqn:E1; [char_cases; lia|]. destruct (existsb _ [8260; _; _]) eqn:E2; [char_cases; lia|].
  destruct (m =? 65131) eqn:E3; [char_cases; lia|].
  destruct (existsb _ [8726; _; _; _]) eqn:E4; [char_cases; lia|]. done.
Qed.
Lemma letter_folds ch c :
  33 <= c < 127 -> wears ch c = true ->
  exists m, fold_lookalike ch = Some m /\ 33 <= m < 127 /\ ascii_lower m = c.
Proof.
  intros Hc. unfold wears. rewrite !orb_true_iff, !andb_true_iff.
  intros [[[[[Hl _]|[[H1 H2] Hl]]|[Hl Hs]]|[Hl Hs]]|[Hl Hs]]; zbool.
  - pose proof (ascii_lower_range _ _ Hc Hl). exists ch. split_and!; [by apply ascii_folds|lia..|done].
  - pose proof (ascii_lower_range _ _ Hc Hl). exists (ch - 65248). split_and!; [|lia..|done].
    unfold fold_lookalike. by rewrite (proj2 (Z.leb_le _ _) H1), (proj2 (Z.leb_le _ _) H2).
  - subst. exists 47. char_cases; split_and!; (done || lia).
  - subst. exists 64. char_cases; split_and!; (done || lia).
  - subst. exists 92. char_cases; split_and!; (done || lia).
Qed.

(** What the guards rely on of [char::to_lowercase]: scalar values out, and
    on ASCII the ASCII lower case. *)
Record LowercaseOk (to_lowercase : Z -> list Z) : Prop := {
  lower_scalar : forall c, scalar c -> Forall scalar (to_lowercase c);
  lower_ascii : forall c, 0 <= c < 128 -> to_lowercase c = [ascii_lower c];
}.

Section FoldLaws.
Context (to_lowercase : Z -> list Z) (Hlower : LowercaseOk to_lowercase).
Abbreviation fold := (fold_chars to_lowercase).

Lemma fold_app b cs ds : exists b', fold b (cs ++ ds) = fold b cs ++ fold b' ds.
Proof.
  revert b. induction cs as [|c cs IH]; intros b; cbn [app fold_chars]; [by exists b|].
  destruct (fold_lookalike c) as [m|]; [|apply IH].
  destruct (is_whitespace m); [destruct (IH true) as [b' ->]|destruct (IH false) as [b' ->]];
    exists b'; by rewrite app_assoc.
Qed.
Lemma fold_gap gap cs : Forall (fun g => is_gap g = true) gap -> fold true (gap ++ cs) = fold true cs.
Proof.
  induction 1 as [|g gap Hg _ IH]; [done|]. cbn [app fold_chars]. unfold is_gap in Hg.
  apply orb_prop in Hg as [Hg|Hg].
  - by rewrite space_folds, Hg, IH.
  - by rewrite format_folds, IH.
Qed.
Lemma fold_spells f cs b post :
  spells f cs -> (b = true -> head f <> Some 32) -> exists b', fold b (cs ++ post) = f ++ fold b' post.
Proof.
  intros Hs. revert b. induction Hs as [|ch f cs Hc _ IH|c ch f cs Hc Hw _ IH|ch gap f cs Hc Hg Hf _ IH];
    intros b Hb; cbn [app fold_chars].
  - by exists b.
  - rewrite format_folds by done. by apply IH.
  - destruct (letter_folds _ _ Hc Hw) as (m & -> & Hm & Hl). rewrite ascii_not_space by done.
    rewrite (lower_ascii _ Hlower), Hl by lia. destruct (IH false) as [b' ->]; [done|]. by exists b'.
  - rewrite space_folds, Hc by done. destruct b; [by destruct Hb|].
    rewrite <-app_assoc, fold_gap by done. destruct (IH true) as [b' ->]; [done|]. by exists b'.
Qed.
Lemma fold_scalar b cs : Forall scalar cs -> Forall scalar (fold b cs).
Proof.
  intros H. revert b. induction H as [|c cs Hc _ IH]; intros b; cbn [fold_chars]; [done|].
  destruct (fold_lookalike c) as [m|] eqn:E; [|apply IH].
  assert (scalar m) as Hm.
  { unfold fold_lookalike in E. destruct (_ && _) eqn:E1; [zbool; simplify_eq; unfold scalar in *; lia|].
    split_matches; unfold scalar in *; lia. }
  destruct (is_whitespace m).
  - apply Forall_app. split; [|apply IH]. destruct b; repeat constructor. unfold scalar. lia.
  - apply Forall_app. split; [by apply (lower_scalar _ Hlower)|apply IH].
Qed.
Lemma fold_spelled value f pre cs post :
  utf8 value -> spells f cs -> head f <> Some 32 -> chars value = pre ++ cs ++ post ->
  exists before after, as_bytes (fold_for_privacy_match to_lowercase value) = before ++ encode_chars f ++ after.
Proof.
  intros Hu Hs Hf E. apply utf8_chars in Hu as [_ Hsc]. unfold fold_for_privacy_match.
  rewrite as_bytes_of_chars by by apply fold_scalar. rewrite E in *.
  destruct (fold_app false pre (cs ++ post)) as [b ->].
  destruct (fold_spells f cs b post Hs) as [b' ->]; [done|].
  exists (encode_chars (fold false pre)), (encode_chars (fold b' post)). by rewrite !encode_chars_app.
Qed.
End FoldLaws.

(** Every fragment the guard forbids, and the at-sign, as characters. *)
Definition leak_fragments : list (list Z) := [64] :: (as_bytes <$> forbidden_fragments).
Lemma leak_fragment_shape :
  Forall (fun f => Forall (fun c => 0 <= c < 128) f /\ to_ascii_lowercase f = f /\ head f <> Some 32) leak_fragments.
Proof.
  unfold leak_fragments, forbidden_fragments.
  repeat (apply Forall_cons; split; [split_and!; [vm_compute; repeat constructor; discriminate|done|done]|]).
  constructor.
Qed.
Lemma credit_text_hides_nothing to_lowercase value fragment pre disguise post :
  LowercaseOk to_lowercase -> utf8 value -> is_backend_safe_credit_text to_lowercase value = true ->
  fragment ∈ leak_fragments -> spells fragment disguise -> chars value <> pre ++ disguise ++ post.
Proof.
  intros Hl Hu Hs Hf Hd E. unfold is_backend_safe_credit_text in Hs. zbool.
  destruct (proj1 (Forall_forall _ _) leak_fragment_shape _ Hf) as (Ha & Hlow & Hh).
  destruct (fold_spelled _ Hl _ _ _ _ _ Hu Hd Hh E) as (before & after & Hb). rewrite encode_ascii in Hb by done.
  unfold leak_fragments in Hf. apply elem_of_cons in Hf as [->|Hf].
  - by eapply safe_text_no_at.
  - apply list_elem_of_fmap in Hf as (f & -> & Hf).
    eapply safe_text_no_fragment; [by apply safe_text_guarded|done| |done]. done.
Qed.
