(* ===== verification/StatusTypes.v ===== *)
(** The agent status snapshot a daemon reports and uploads
    (crates/ottto-protocol/src/lib.rs): its account, models, quota windows,
    credit balances, context, capabilities, plan observations, diagnostics and
    runtime defaults, field by field.  Amounts are [u64], percentages [u8]. *)
From S2P Require Import Prelude.
Local Open Scope Z_scope.

Abbreviation Rfc3339Timestamp := string.

Inductive SourceKind := Codex | ClaudeCode | Pi.
Inductive AgentStatusState :=
  | StatusAvailable | StatusDegraded | StatusAuthRequired | StatusNotInstalled | StatusUnsupported
  | StatusError | StatusUnknown.
Inductive AgentStatusCollectionMethod :=
  AppServer | CliJson | CliText | ConfigFile | StatusLine | CommandProbe | ManualFallback | MethodUnsupported.
Inductive AgentStatusConfidence := ConfidenceHigh | ConfidenceMedium | ConfidenceLow | ConfidenceUnknown.
Inductive AgentLoginState := SignedIn | SignedOut | LoginUnknown | LoginUnsupported.
Inductive ClaudeQuotaAccessState :=
  AccessFull | AccessPartial | TemporarilyUnavailable | ReconnectRequired | AccessPaused | AttentionRequired.
Inductive ClaudeAccountAnchorDurabilityV1 := Anchored | DefaultOnly | Unresolved.
Inductive ClaudeAccountAnchorHealthV1 :=
  AnchorHealthy | AnchorTemporarilyUnavailable | AnchorReconnectRequired | AnchorPaused | AnchorAttentionRequired.

Record AgentAccountStatus := mkAccount {
  acc_login_state : AgentLoginState;
  acc_provider : option string;
  acc_auth_method : option string;
  acc_email : option string;
  acc_account_id : option string;
  acc_organization_id : option string;
  acc_organization_label : option string;
  acc_plan_type : option string;
  acc_subscription_product : option string;
  acc_billing_channel : option string;
  acc_subscription_period_start : option Rfc3339Timestamp;
  acc_subscription_period_end : option Rfc3339Timestamp;
  acc_subscription_period_last_checked_at : option Rfc3339Timestamp;
  acc_account_identifier_hash : option string;
  acc_organization_identifier_hash : option string;
  acc_superseded_account_identifier_hash : option string;
  acc_superseded_organization_identifier_hash : option string;
  acc_credential_fingerprint_hash : option string;
  acc_billing_identity_evidence : option string;
  acc_claude_quota_access_state : option ClaudeQuotaAccessState;
  acc_claude_anchor_durability : option ClaudeAccountAnchorDurabilityV1;
  acc_claude_anchor_health : option ClaudeAccountAnchorHealthV1;
  acc_billing_identity_confidence : AgentStatusConfidence;
  acc_confidence : AgentStatusConfidence;
}.

Record AgentStatusPlanObservation := mkPlan {
  plan_desktop_recent_at : option Rfc3339Timestamp;
  plan_observed_at : option Rfc3339Timestamp;
  plan_evidence_method : option string;
  plan_source_session_id : option string;
  plan_provider : option string;
  plan_billing_provider : option string;
  plan_model_provider : option string;
  plan_billing_channel : option string;
  plan_auth_mode : option string;
  plan_gateway_provider : option string;
  plan_subscription_product : option string;
  plan_plan_type : option string;
  plan_account_label : option string;
  plan_account_id : option string;
  plan_organization_label : option string;
  plan_organization_id : option string;
  plan_account_identifier_hash : option string;
  plan_organization_identifier_hash : option string;
  plan_superseded_account_identifier_hash : option string;
  plan_superseded_organization_identifier_hash : option string;
  plan_credential_fingerprint_hash : option string;
  plan_billing_identity_evidence : option string;
  plan_billing_identity_confidence : AgentStatusConfidence;
  plan_confidence : AgentStatusConfidence;
  plan_is_current : option bool;
}.

Record AgentAvailableModelStatus := mkAvailableModel {
  am_id : string;
  am_provider : option string;
  am_model_provider : option string;
  am_billing_provider : option string;
  am_billing_channel : option string;
  am_auth_mode : option string;
  am_gateway_provider : option string;
  am_subscription_product : option string;
  am_source_category : option string;
  am_account_identifier_hash : option string;
  am_organization_identifier_hash : option string;
  am_credential_fingerprint_hash : option string;
  am_billing_identity_evidence : option string;
  am_billing_identity_confidence : AgentStatusConfidence;
  am_context_window_tokens : option Z;
  am_max_output_tokens : option Z;
  am_supports_thinking : option bool;
  am_supports_images : option bool;
}.
Record AgentModelStatus := mkModelStatus {
  active_model : option string;
  default_model : option string;
  model_provider : option string;
  available_models : list string;
  available_model_details : list AgentAvailableModelStatus;
  context_window_tokens : option Z;
}.

Inductive AgentQuotaWindowScope := ScopeSource | ScopeAccount | ScopeOrganization | ScopeModel | ScopeUnknown.
Inductive AgentQuotaWindowStatus :=
  | WindowOk | WindowNearLimit | WindowExhausted | WindowRateLimited | WindowUnsupported | WindowStale
  | WindowError | WindowUnknown.
Inductive AgentQuotaWindowFreshness := Fresh | Stale | FreshnessUnsupported | FreshnessError | FreshnessUnknown.
#[export] Instance AgentQuotaWindowFreshness_eq_dec : EqDecision AgentQuotaWindowFreshness.
Proof. solve_decision. Defined.
#[export] Instance SourceKind_eq_dec : EqDecision SourceKind.
Proof. solve_decision. Defined.

Record AgentQuotaWindow := mkWindow {
  win_name : string;
  win_scope : AgentQuotaWindowScope;
  win_status : AgentQuotaWindowStatus;
  win_freshness : AgentQuotaWindowFreshness;
  win_observed_at : option Rfc3339Timestamp;
  win_model : option string;
  win_account_label : option string;
  win_account_identifier_hash : option string;
  win_organization_identifier_hash : option string;
  win_window_seconds : option Z;
  win_started_at : option Rfc3339Timestamp;
  win_started_at_basis : option string;
  win_resets_at : option Rfc3339Timestamp;
  win_quota : option Z;
  win_remaining : option Z;
  win_used_percent : option Z;
  win_left_percent : option Z;
  win_limit_cents : option Z;
  win_used_cents : option Z;
  win_remaining_cents : option Z;
  win_group : option string;
  win_severity : option string;
  win_is_active : option bool;
  win_spend_control_reached : option bool;
  win_rate_limit_reached_type : option string;
  win_limit_id : option string;
}.

(** ** Credit balances *)
Inductive CreditBalanceKind :=
  UsageCredits | PlanCredits | SavedResets | OneTimeCredit | WorkspaceAllowance | KindUnknown.
Inductive CreditGrantsState := Complete | Capped | Partial | Unavailable | NotSupported.
Inductive CreditGrantType := RateLimitReset | GrantCredit | GrantTypeUnknown.
Inductive CreditGrantStatus := Available | Redeeming | Redeemed | Paused | GrantStatusUnknown.
Inductive AgentCreditBalanceStatus :=
  | BalanceOk | BalanceLow | BalanceExhausted | BalanceUnlimited | BalanceUnsupported | BalanceStale
  | BalanceError | BalanceUnknown.
Inductive AgentCreditBalanceUnit := Credits | Usd | Tokens | Resets | UnitUnknown.
Inductive CreditGrantsUnavailableCause := Reader.
#[export] Instance CreditBalanceKind_eq_dec : EqDecision CreditBalanceKind.
Proof. solve_decision. Defined.
#[export] Instance CreditGrantsState_eq_dec : EqDecision CreditGrantsState.
Proof. solve_decision. Defined.
#[export] Instance CreditGrantStatus_eq_dec : EqDecision CreditGrantStatus.
Proof. solve_decision. Defined.
#[export] Instance AgentCreditBalanceUnit_eq_dec : EqDecision AgentCreditBalanceUnit.
Proof. solve_decision. Defined.

Record AgentCreditGrant := mkGrant {
  grant_key : string;
  grant_type : CreditGrantType;
  grant_status : CreditGrantStatus;
  granted_at : option Rfc3339Timestamp;
  starts_at : option Rfc3339Timestamp;
  grant_expires_at : option Rfc3339Timestamp;
  resets_included : option Z;
  resets_left : option Z;
  clears : option (list string);
  grant_title : option string;
  usable_now : option bool;
}.

Record AgentCreditBalance := mkBalance {
  bal_name : string;
  bal_status : AgentCreditBalanceStatus;
  bal_freshness : AgentQuotaWindowFreshness;
  bal_unit : AgentCreditBalanceUnit;
  bal_account_label : option string;
  bal_account_identifier_hash : option string;
  bal_organization_identifier_hash : option string;
  bal_remaining : option Z;
  bal_used : option Z;
  bal_quota : option Z;
  bal_unlimited : option bool;
  bal_updated_at : option Rfc3339Timestamp;
  bal_currency : option string;
  bal_resets_at : option Rfc3339Timestamp;
  bal_used_percent : option Z;
  bal_enabled : option bool;
  bal_spend_control_reached : option bool;
  bal_rate_limit_reached_type : option string;
  bal_limit_id : option string;
  bal_observed_at : option Rfc3339Timestamp;
  bal_expires_at : option Rfc3339Timestamp;
  bal_disabled_reason : option string;
  bal_grant_count : option Z;
  bal_grants : option (list AgentCreditGrant);
  bal_grants_state : option CreditGrantsState;
  bal_grants_observed_at : option Rfc3339Timestamp;
  bal_kind : option CreditBalanceKind;
  bal_title : option string;
  bal_next_expires_at : option Rfc3339Timestamp;
  bal_latest_granted_at : option Rfc3339Timestamp;
  bal_eligible : option bool;
  bal_at_limit : option bool;
  bal_ineligible_reason : option string;
  bal_cooldown_until : option Rfc3339Timestamp;
  bal_grants_unavailable_cause : option CreditGrantsUnavailableCause;
}.

(** ** Context, capabilities, diagnostics *)
Inductive AgentContextState := ContextAvailable | ContextUnsupported | ContextUnknown.
Inductive AgentContextCompleteness :=
  FullPressure | WindowSizeOnly | ContextUnavailable | CompletenessUnknown.
Record AgentContextPressureSample := mkSample {
  sample_at : Rfc3339Timestamp;
  sample_active_tokens : option Z;
  sample_max_tokens : option Z;
  sample_used_percent : option Z;
  sample_remaining_tokens : option Z;
}.
Record AgentContextSessionPeak := mkPeak {
  peak_fill_tokens : Z;
  peak_context_window_tokens : option Z;
  peak_fill_percent : option Z;
  peak_over_window : option bool;
}.
Record AgentContextPostureSummary := mkPosture {
  sessions_analyzed : Z;
  window_days : Z;
  typical_first_turn_tokens : option Z;
  peak_session_count : Z;
  window_evidenced_session_count : Z;
  deep_session_count : option Z;
  over_window_session_count : option Z;
  session_peaks : list AgentContextSessionPeak;
  compaction_count : option Z;
  reread_tokens : option Z;
}.
Record AgentContextStatus := mkContext {
  ctx_status : AgentContextState;
  ctx_active_tokens : option Z;
  ctx_max_tokens : option Z;
  ctx_used_percent : option Z;
  ctx_remaining_tokens : option Z;
  ctx_source : option string;
  ctx_recent_samples : list AgentContextPressureSample;
  ctx_observed_at : option Rfc3339Timestamp;
  ctx_completeness : option AgentContextCompleteness;
  ctx_reason : option string;
  ctx_posture : option AgentContextPostureSummary;
}.

Inductive AgentCapabilityStatus := CapabilitySupported | CapabilityUnsupported | CapabilityUnknown.
Record AgentCapabilityGap := mkCapability {
  capability : string;
  capability_status : AgentCapabilityStatus;
  capability_detail : option string;
}.

Inductive AgentDiagnosticScope := DiagnosticSource | DiagnosticAccount | DiagnosticOrganization.
Inductive AgentDiagnosticSeverity := DiagnosticInfo | DiagnosticWarning | DiagnosticError.
Record AgentStatusDiagnostic := mkDiagnostic {
  diag_code : string;
  diag_severity : AgentDiagnosticSeverity;
  diag_message : string;
  diag_observed_at : option Rfc3339Timestamp;
  diag_retry_after : option Rfc3339Timestamp;
  diag_account_identifier_hash : option string;
  diag_organization_identifier_hash : option string;
  diag_account_label : option string;
  diag_scope : option AgentDiagnosticScope;
}.

(** A [BTreeMap<String, String>]: its entries in key order. *)
Record AgentRuntimeDefaults := mkDefaults {
  def_captured_at : option Rfc3339Timestamp;
  def_provenance : option string;
  def_machine_id : option string;
  def_model : option string;
  def_service_tier : option string;
  def_speed_mode : option string;
  def_fast_mode_enabled : option bool;
  def_priority_enabled : option bool;
  def_reasoning_effort : option string;
  def_reasoning_effort_by_model : list (string * string);
  def_approval_policy : option string;
  def_sandbox_mode : option string;
  def_selector_context : list (string * string);
  def_selector_sources : list (string * string);
}.

Record AgentStatusSnapshot := mkSnapshot {
  snap_source : SourceKind;
  snap_status : AgentStatusState;
  snap_collection_method : AgentStatusCollectionMethod;
  snap_captured_at : Rfc3339Timestamp;
  snap_expires_at : Rfc3339Timestamp;
  snap_account : option AgentAccountStatus;
  snap_model : option AgentModelStatus;
  snap_quota_windows : list AgentQuotaWindow;
  snap_credit_balances : list AgentCreditBalance;
  snap_context : option AgentContextStatus;
  snap_capabilities : list AgentCapabilityGap;
  snap_plan_observations : list AgentStatusPlanObservation;
  snap_diagnostics : list AgentStatusDiagnostic;
  snap_runtime_defaults : option AgentRuntimeDefaults;
}.

(** ** Diagnostics, as their producers build them *)
(** [AgentStatusDiagnostic::source]: provider-wide, no scope. *)
Definition source_diagnostic (code : string) (severity : AgentDiagnosticSeverity) (message : string)
    : AgentStatusDiagnostic := mkDiagnostic code severity message None None None None None None.
Definition account_diagnostic (code : string) (severity : AgentDiagnosticSeverity) (message account_label : string)
    : AgentStatusDiagnostic :=
  mkDiagnostic code severity message None None None None (Some account_label) (Some DiagnosticAccount).
Definition with_observed_at (d : AgentStatusDiagnostic) (observed_at : option Rfc3339Timestamp)
    : AgentStatusDiagnostic :=
  mkDiagnostic (diag_code d) (diag_severity d) (diag_message d) observed_at (diag_retry_after d)
    (diag_account_identifier_hash d) (diag_organization_identifier_hash d) (diag_account_label d) (diag_scope d).
Definition with_quota_binding (d : AgentStatusDiagnostic) (account organization : option string)
    : AgentStatusDiagnostic :=
  mkDiagnostic (diag_code d) (diag_severity d) (diag_message d) (diag_observed_at d) (diag_retry_after d)
    account organization (diag_account_label d) (diag_scope d).
