(* ===== verification/Redaction.v ===== *)
(** The backend copy of an agent status snapshot: [redacted_for_backend] and
    the redactions of its parts (crates/ottto-protocol/src/lib.rs). *)
From S2P Require Import Prelude Text PrivacyGuard StatusTypes.
From coqutil Require Import Datatypes.RecordSetters.
Import DoubleBraceUpdate.
Local Open Scope Z_scope.

(** [Option::filter]. *)
Definition opt_filter {A} (p : A -> bool) (value : option A) : option A :=
  try? x := value in if p x then Some x else None.
Definition is_none {A} (x : option A) : bool := if x is None then true else false.

(** ** Parts *)
Definition redact_available_model_for_backend (detail : AgentAvailableModelStatus)
    : option AgentAvailableModelStatus :=
  if negb (is_safe_backend_text (am_id detail)) then None
  else Some (detail{{
    am_provider ::= safe_optional_text; am_model_provider ::= safe_optional_text;
    am_billing_provider ::= safe_optional_text; am_billing_channel ::= safe_optional_text;
    am_auth_mode ::= safe_optional_text; am_gateway_provider ::= safe_optional_text;
    am_subscription_product ::= safe_optional_text; am_source_category ::= safe_optional_text;
    am_account_identifier_hash ::= safe_optional_text; am_organization_identifier_hash ::= safe_optional_text;
    am_credential_fingerprint_hash ::= safe_optional_text; am_billing_identity_evidence ::= safe_optional_text}}).

Definition redact_capability_for_backend (c : AgentCapabilityGap) : option AgentCapabilityGap :=
  if negb (is_safe_backend_text (capability c)) then None
  else Some (c{{capability_detail ::= safe_optional_text}}).

Definition redact_plan_observation_for_backend (observation : AgentStatusPlanObservation)
    : AgentStatusPlanObservation :=
  observation{{
    plan_desktop_recent_at := None;
    plan_evidence_method ::= safe_optional_text; plan_source_session_id ::= safe_optional_text;
    plan_provider ::= safe_optional_text; plan_billing_provider ::= safe_optional_text;
    plan_model_provider ::= safe_optional_text; plan_billing_channel ::= safe_optional_text;
    plan_auth_mode ::= safe_optional_text; plan_gateway_provider ::= safe_optional_text;
    plan_subscription_product ::= safe_optional_text; plan_plan_type ::= safe_optional_text;
    plan_account_label ::= (fun v => safe_status_display_text v 255);
    plan_account_id ::= safe_provider_identifier;
    plan_organization_label ::= (fun v => safe_status_display_text v 255);
    plan_organization_id ::= safe_provider_identifier;
    plan_account_identifier_hash ::= safe_optional_text;
    plan_organization_identifier_hash ::= safe_optional_text;
    plan_credential_fingerprint_hash ::= safe_optional_text;
    plan_billing_identity_evidence ::= safe_optional_text}}.

Definition CLAUDE_OAUTH_USAGE_RATE_LIMITED_DIAGNOSTIC_CODE : string := "claude_oauth_usage_rate_limited".
Definition is_local_only_diagnostic (code : string) : bool :=
  bool_decide (code = CLAUDE_OAUTH_USAGE_RATE_LIMITED_DIAGNOSTIC_CODE).
Definition redact_diagnostic_for_backend (diagnostic : AgentStatusDiagnostic) : AgentStatusDiagnostic :=
  diagnostic{{
    diag_code ::= (fun code => if is_safe_backend_text code then code else "redacted"%string);
    diag_message ::= (fun message =>
      if is_safe_backend_text message then message else "diagnostic redacted"%string);
    diag_account_label := None; diag_scope := None;
    diag_account_identifier_hash ::= safe_optional_text;
    diag_organization_identifier_hash ::= safe_optional_text}}.

Definition credit_grants_unavailable_cause_allowed (credit : AgentCreditBalance) : bool :=
  bool_decide (bal_kind credit = Some SavedResets) && bool_decide (bal_unit credit = Resets)
  && bool_decide (bal_grants_state credit = Some Unavailable)
  && is_none (bal_grants credit) && is_none (bal_remaining credit) && is_none (bal_grant_count credit).

Section Redaction.
Context (to_lowercase : Z -> list Z).
Abbreviation credit_text := (is_backend_safe_credit_text to_lowercase).

Definition reason_ok (reason : string) : bool := is_credit_reason_code reason && is_safe_backend_text reason.
(** One grant of the list: its display text, and its times, each refused time
    degrading the list. *)
Definition redact_grant (grant : AgentCreditGrant) : AgentCreditGrant :=
  grant{{
    grant_title ::= opt_filter credit_text;
    clears ::= opt_filter (forallb reason_ok);
    granted_at ::= opt_filter is_rfc3339_instant;
    starts_at ::= opt_filter is_rfc3339_instant;
    grant_expires_at ::= opt_filter is_rfc3339_instant}}.
Definition refused_time (t : option Rfc3339Timestamp) : bool :=
  if t is Some value then negb (is_rfc3339_instant value) else false.
Definition grant_degrades (grant : AgentCreditGrant) : bool :=
  refused_time (granted_at grant) || refused_time (starts_at grant) || refused_time (grant_expires_at grant).
Definition retained_grants (grants : list AgentCreditGrant) : list AgentCreditGrant :=
  filter (fun grant => is_credit_grant_key (grant_key grant)) grants.
Definition list_degraded (grants : option (list AgentCreditGrant)) : bool :=
  if grants is Some grants then
    negb (bool_decide (length (retained_grants grants) = length grants))
    || existsb grant_degrades (retained_grants grants)
  else false.

(** The checks of each field on its own. *)
Definition redact_credit_fields (credit : AgentCreditBalance) : AgentCreditBalance :=
  let resets := bool_decide (bal_unit credit = Resets) in
  let only_resets {A} (v : option A) := if resets then v else None in
  credit{{
    bal_account_label := None;
    bal_rate_limit_reached_type ::= safe_optional_text;
    bal_limit_id ::= safe_optional_text;
    bal_title ::= opt_filter credit_text;
    bal_disabled_reason ::= opt_filter (fun reason =>
      bool_decide (bal_enabled credit = Some false) && reason_ok reason);
    bal_ineligible_reason ::= (fun v => only_resets (opt_filter reason_ok v));
    bal_eligible ::= only_resets; bal_at_limit ::= only_resets;
    bal_cooldown_until ::= (fun v => opt_filter is_rfc3339_instant (only_resets v));
    bal_observed_at ::= opt_filter is_rfc3339_instant;
    bal_expires_at ::= opt_filter is_rfc3339_instant;
    bal_grants_observed_at ::= opt_filter is_rfc3339_instant;
    bal_next_expires_at ::= opt_filter is_rfc3339_instant;
    bal_latest_granted_at ::= opt_filter is_rfc3339_instant}}.
Definition redact_credit_grants (credit : AgentCreditBalance) : AgentCreditBalance :=
  let degraded := list_degraded (bal_grants credit) in
  let credit := credit{{bal_grants ::= fmap (fun grants => redact_grant <$> retained_grants grants)}} in
  if degraded then
    credit{{
      bal_grants_state ::= (fun state =>
        match state with Some Complete | Some Capped => Some Partial | _ => state end);
      bal_next_expires_at := None; bal_latest_granted_at := None}}
  else credit.
Definition redact_credit_balance_for_backend (credit : AgentCreditBalance) : option AgentCreditBalance :=
  if negb (is_safe_backend_text (bal_name credit)) then None
  else
    let credit := redact_credit_grants (redact_credit_fields credit) in
    Some (if credit_grants_unavailable_cause_allowed credit then credit
          else credit{{bal_grants_unavailable_cause := None}}).

(** ** The snapshot *)
Definition is_codex_failed_usage_read (s : AgentStatusSnapshot) : bool :=
  bool_decide (snap_source s = Codex)
  && existsb (fun diagnostic =>
       bool_decide (diag_code diagnostic = "codex_usage_probe_failed"%string)
       || bool_decide (diag_code diagnostic = "codex_configured_account_unavailable"%string))
     (snap_diagnostics s).

Definition forget_plan (account : AgentAccountStatus) : AgentAccountStatus :=
  account{{
    acc_plan_type := None; acc_subscription_product := None; acc_subscription_period_start := None;
    acc_subscription_period_end := None; acc_subscription_period_last_checked_at := None}}.
(** What a failed Codex usage read uploads: the failure only. *)
Definition failure_only (s : AgentStatusSnapshot) : AgentStatusSnapshot :=
  s{{
    snap_quota_windows ::= filter (fun window => win_freshness window <> Stale);
    snap_credit_balances := []; snap_plan_observations := [];
    snap_account ::= fmap forget_plan}}.

Definition redact_account (account : AgentAccountStatus) : AgentAccountStatus :=
  account{{
    acc_email ::= (fun v => safe_status_display_text v 320);
    acc_account_id ::= safe_provider_identifier;
    acc_organization_id ::= safe_provider_identifier;
    acc_organization_label ::= (fun v => safe_status_display_text v 255);
    acc_provider ::= safe_optional_text; acc_auth_method ::= safe_optional_text;
    acc_plan_type ::= safe_optional_text; acc_subscription_product ::= safe_optional_text;
    acc_billing_channel ::= safe_optional_text;
    acc_account_identifier_hash ::= safe_optional_text;
    acc_organization_identifier_hash ::= safe_optional_text;
    acc_credential_fingerprint_hash ::= safe_optional_text;
    acc_billing_identity_evidence ::= safe_optional_text}}.
Definition redact_model (model : AgentModelStatus) : AgentModelStatus :=
  model{{
    active_model ::= safe_optional_text; default_model ::= safe_optional_text;
    model_provider ::= safe_optional_text;
    available_models ::= filter is_safe_backend_text;
    available_model_details ::= omap redact_available_model_for_backend}}.
Definition redact_window (window : AgentQuotaWindow) : AgentQuotaWindow :=
  window{{win_rate_limit_reached_type ::= safe_optional_text; win_limit_id ::= safe_optional_text}}.
Definition safe_entries (entries : list (string * string)) : list (string * string) :=
  filter (fun '(key, value) => is_safe_backend_text key && is_safe_backend_text value) entries.
Definition redact_defaults (defaults : AgentRuntimeDefaults) : AgentRuntimeDefaults :=
  defaults{{
    def_model ::= safe_optional_text; def_service_tier ::= safe_optional_text;
    def_speed_mode ::= safe_optional_text; def_reasoning_effort ::= safe_optional_text;
    def_approval_policy ::= safe_optional_text; def_sandbox_mode ::= safe_optional_text;
    def_machine_id ::= safe_optional_text; def_provenance ::= safe_optional_text;
    def_reasoning_effort_by_model ::= safe_entries;
    def_selector_context ::= safe_entries; def_selector_sources ::= safe_entries}}.
Definition uploaded_diagnostics (diagnostics : list AgentStatusDiagnostic) : list AgentStatusDiagnostic :=
  redact_diagnostic_for_backend <$>
    filter (fun diagnostic => negb (is_local_only_diagnostic (diag_code diagnostic))) diagnostics.

Definition redacted_for_backend (s : AgentStatusSnapshot) : AgentStatusSnapshot :=
  let s := if is_codex_failed_usage_read s then failure_only s else s in
  s{{
    snap_account ::= fmap redact_account;
    snap_model ::= fmap redact_model;
    snap_context ::= fmap (fun context => context{{ctx_posture := None}});
    snap_capabilities ::= omap redact_capability_for_backend;
    snap_quota_windows ::= fmap redact_window;
    snap_credit_balances ::= omap redact_credit_balance_for_backend;
    snap_plan_observations ::= fmap redact_plan_observation_for_backend;
    snap_diagnostics ::= uploaded_diagnostics;
    snap_runtime_defaults ::= fmap redact_defaults}}.
End Redaction.

(** ** Guards applied twice *)
Lemma opt_filter_idem {A} (p : A -> bool) v : opt_filter p (opt_filter p v) = opt_filter p v.
Proof. destruct v as [x|]; [|done]. cbn. destruct (p x) eqn:E; [|done]. cbn. by rewrite E. Qed.
Lemma opt_filter_Some {A} (p : A -> bool) v x : opt_filter p v = Some x <-> v = Some x /\ p x = true.
Proof.
  destruct v as [y|]; cbn; [|split; [done|by intros []]]. destruct (p y) eqn:E.
  - split; [by intros [= <-]|by intros [[= ->] _]].
  - split; [done|]. intros [[= ->] H]. by rewrite H in E.
Qed.
Lemma opt_filter_keeps {A} (p : A -> bool) v : (forall x, v = Some x -> p x = true) -> opt_filter p v = v.
Proof. destruct v as [x|]; [|done]. intros H. cbn. by rewrite H. Qed.
Lemma safe_optional_text_filter v : safe_optional_text v = opt_filter is_safe_backend_text v.
Proof. done. Qed.
Lemma safe_optional_text_idem v : safe_optional_text (safe_optional_text v) = safe_optional_text v.
Proof. apply opt_filter_idem. Qed.
Lemma safe_status_display_text_idem max v :
  safe_status_display_text (safe_status_display_text v max) max = safe_status_display_text v max.
Proof. apply (opt_filter_idem (is_safe_display_text max)). Qed.

Lemma safe_provider_identifier_Some v text :
  safe_provider_identifier v = Some text ->
  exists cs, text = of_chars cs /\ Forall (fun b => is_plain b = true) cs /\
    0 < str_len text <= BACKEND_PROVIDER_IDENTIFIER_MAX_CHARS /\ is_safe_backend_text text = true.
Proof.
  unfold safe_provider_identifier. destruct v as [value|]; [|done]. cbn [negb].
  destruct (_ || _) eqn:E; [done|]. intros [= <-]. zbool.
  exists (trim_matches is_whitespace (chars value)).
  assert (0 <= str_len (str_trim value)) by (unfold str_len; lia).
  split_and!; [done| |lia..|done]. by apply (forallb_Forall is_plain).
Qed.
Lemma safe_provider_identifier_idem v :
  safe_provider_identifier (safe_provider_identifier v) = safe_provider_identifier v.
Proof.
  destruct (safe_provider_identifier v) as [text|] eqn:E; [|done].
  apply safe_provider_identifier_Some in E as (cs & -> & Hp & Hl & Hs).
  destruct (plain_text cs Hp) as (Hb & Hc & Ht). cbn. rewrite Ht, Hc, Hs.
  rewrite (trim_matches_none is_whitespace cs).
  2: { eapply Forall_impl; [exact Hp|]. intros b ?. by apply ascii_not_space, plain_range. }
  rewrite (proj2 (Z.eqb_neq _ _)), (proj2 (Z.ltb_ge _ _)) by lia. cbn [orb negb].
  apply (forallb_Forall is_plain) in Hp. unfold is_plain in Hp. by rewrite Hp.
Qed.

(** Rewrites a guard applied twice to one application. *)
Create Rewrite HintDb redaction.
#[export] Hint Rewrite safe_optional_text_idem safe_status_display_text_idem safe_provider_identifier_idem
  @opt_filter_idem : redaction.
Ltac redact_twice := intros []; cbn; by autorewrite with redaction.

Lemma omap_idem {A} (f : A -> option A) (l : list A) :
  (forall x y, f x = Some y -> f y = Some y) -> omap f (omap f l) = omap f l.
Proof.
  intros Hf. induction l as [|x l IH]; [done|]. cbn. destruct (f x) as [y|] eqn:E; [|done].
  cbn. rewrite (Hf _ _ E). f_equal. exact IH.
Qed.
Lemma filter_all {A} (P : A -> Prop) `{forall x, Decision (P x)} (l : list A) : Forall P l -> filter P l = l.
Proof. induction 1 as [|x l Hx _ IH]; [done|]. rewrite filter_cons_True by done. by rewrite IH. Qed.
Lemma filter_idem {A} (P : A -> Prop) `{forall x, Decision (P x)} (l : list A) : filter P (filter P l) = filter P l.
Proof. apply filter_all. apply Forall_forall. intros x Hx. by apply list_elem_of_filter in Hx as [? _]. Qed.

Lemma redact_plan_idem o :
  redact_plan_observation_for_backend (redact_plan_observation_for_backend o) = redact_plan_observation_for_backend o.
Proof. revert o. redact_twice. Qed.
Lemma redact_account_idem a : redact_account (redact_account a) = redact_account a.
Proof. revert a. redact_twice. Qed.
Lemma redact_window_idem w : redact_window (redact_window w) = redact_window w.
Proof. revert w. redact_twice. Qed.
Lemma redact_available_model_idem x y :
  redact_available_model_for_backend x = Some y -> redact_available_model_for_backend y = Some y.
Proof.
  unfold redact_available_model_for_backend. destruct (is_safe_backend_text (am_id x)) eqn:E; [|done].
  intros [= <-]. destruct x. cbn in *. rewrite E. cbn. by autorewrite with redaction.
Qed.
Lemma redact_capability_idem x y :
  redact_capability_for_backend x = Some y -> redact_capability_for_backend y = Some y.
Proof.
  unfold redact_capability_for_backend. destruct (is_safe_backend_text (capability x)) eqn:E; [|done].
  intros [= <-]. destruct x. cbn in *. rewrite E. cbn. by autorewrite with redaction.
Qed.
Lemma redact_diagnostic_idem d :
  redact_diagnostic_for_backend (redact_diagnostic_for_backend d) = redact_diagnostic_for_backend d.
Proof.
  destruct d as [code ? message ? ? ? ? ? ?]. unfold redact_diagnostic_for_backend. cbn.
  autorewrite with redaction.
  assert (is_safe_backend_text "redacted" = true) as H1 by done.
  assert (is_safe_backend_text "diagnostic redacted" = true) as H2 by done.
  destruct (is_safe_backend_text code) eqn:E1, (is_safe_backend_text message) eqn:E2;
    by rewrite ?E1, ?E2, ?H1, ?H2.
Qed.
Lemma redact_defaults_idem d : redact_defaults (redact_defaults d) = redact_defaults d.
Proof.
  destruct d. cbn. autorewrite with redaction. unfold redact_defaults, safe_entries. cbn.
  by rewrite !filter_idem.
Qed.
Lemma redact_model_idem m : redact_model (redact_model m) = redact_model m.
Proof.
  destruct m. unfold redact_model. cbn. autorewrite with redaction.
  by rewrite !filter_idem, omap_idem by apply redact_available_model_idem.
Qed.

Section CreditLaws.
Context (to_lowercase : Z -> list Z).
Abbreviation fields := (redact_credit_fields to_lowercase).
Abbreviation grants := (redact_credit_grants to_lowercase).

Lemma redact_grant_idem g : redact_grant to_lowercase (redact_grant to_lowercase g) = redact_grant to_lowercase g.
Proof. revert g. redact_twice. Qed.
Lemma redact_grant_sound g : grant_degrades (redact_grant to_lowercase g) = false.
Proof.
  assert (forall t, refused_time (opt_filter is_rfc3339_instant t) = false) as H.
  { intros [t|]; [|done]. cbn. destruct (is_rfc3339_instant t) eqn:E; [|done]. cbn. by rewrite E. }
  destruct g. unfold grant_degrades. cbn. by rewrite !H.
Qed.
Lemma retained_redacted (l : list AgentCreditGrant) :
  retained_grants (redact_grant to_lowercase <$> retained_grants l) = redact_grant to_lowercase <$> retained_grants l.
Proof.
  unfold retained_grants. apply filter_all, Forall_forall. intros x Hx.
  apply list_elem_of_fmap in Hx as (g & -> & Hg). apply list_elem_of_filter in Hg as [Hg _]. by destruct g.
Qed.
Lemma redacted_not_degraded l :
  list_degraded ((fun l => redact_grant to_lowercase <$> retained_grants l) <$> l) = false.
Proof.
  destruct l as [l|]; [|done]. cbn [fmap option_fmap option_map list_degraded].
  rewrite retained_redacted, bool_decide_eq_true_2 by done. cbn [negb orb].
  induction (retained_grants l) as [|g gs IH]; [done|]. rewrite fmap_cons. cbn [existsb].
  by rewrite redact_grant_sound.
Qed.
Lemma redact_grants_idem c : grants (grants c) = grants c.
Proof.
  assert (forall l : list AgentCreditGrant,
    (redact_grant to_lowercase <$> retained_grants (redact_grant to_lowercase <$> retained_grants l))
    = (redact_grant to_lowercase <$> retained_grants l)) as Hl.
  { intros l. rewrite retained_redacted, <-list_fmap_compose. apply list_fmap_ext. intros _ g _.
    apply redact_grant_idem. }
  unfold redact_credit_grants at 1.
  assert (bal_grants (grants c) = ((fun l => redact_grant to_lowercase <$> retained_grants l) <$> bal_grants c)) as E.
  { unfold redact_credit_grants. by destruct (list_degraded _), c. }
  rewrite E, redacted_not_degraded. unfold redact_credit_grants.
  destruct c. cbn. destruct (list_degraded _); cbn; f_equal; destruct bal_grants; cbn; by rewrite ?Hl.
Qed.
Lemma redact_fields_idem c : fields (fields c) = fields c.
Proof.
  destruct c. unfold redact_credit_fields. cbn. autorewrite with redaction.
  destruct (bool_decide (bal_unit = Resets)); by autorewrite with redaction.
Qed.
Lemma redact_fields_grants c : fields (grants c) = grants (fields c).
Proof.
  destruct c. unfold redact_credit_fields, redact_credit_grants. cbn. by destruct (list_degraded _).
Qed.
Definition without_cause (c : AgentCreditBalance) : AgentCreditBalance := c{{bal_grants_unavailable_cause := None}}.
Lemma without_cause_commutes c :
  fields (without_cause c) = without_cause (fields c) /\ grants (without_cause c) = without_cause (grants c) /\
  credit_grants_unavailable_cause_allowed (without_cause c) = credit_grants_unavailable_cause_allowed c.
Proof. destruct c. split_and!; [done| |done]. unfold redact_credit_grants. cbn. by destruct (list_degraded _). Qed.
Lemma redact_credit_idem x y :
  redact_credit_balance_for_backend to_lowercase x = Some y ->
  redact_credit_balance_for_backend to_lowercase y = Some y.
Proof.
  unfold redact_credit_balance_for_backend. destruct (is_safe_backend_text (bal_name x)) eqn:E; [|done].
  set (c := grants (fields x)). cbn [negb]. intros Hy%(inj Some).
  assert (bal_name y = bal_name x) as ->.
  { subst y. assert (bal_name c = bal_name x) as Hc.
    { unfold c, redact_credit_grants. by destruct (list_degraded _), x. }
    rewrite <-Hc. by destruct (credit_grants_unavailable_cause_allowed c), c. }
  assert (grants (fields c) = c) as Hc.
  { unfold c. by rewrite redact_fields_grants, redact_fields_idem, redact_grants_idem. }
  destruct (without_cause_commutes c) as (Hf & _ & Ha). destruct (without_cause_commutes (fields c)) as (_ & Hg & _).
  rewrite E. cbn [negb]. fold (without_cause c) in Hy.
  destruct (credit_grants_unavailable_cause_allowed c) eqn:Ec; subst y.
  - by rewrite Hc, Ec.
  - rewrite Hf, Hg, Hc, Ha. by destruct c.
Qed.
End CreditLaws.

(** ** The snapshot *)
Section SnapshotLaws.
Context (to_lowercase : Z -> list Z).
Abbreviation redacted := (redacted_for_backend to_lowercase).

Lemma snap_diagnostics_redacted s :
  snap_diagnostics (redacted s) = uploaded_diagnostics (snap_diagnostics s).
Proof. unfold redacted_for_backend. by destruct (is_codex_failed_usage_read s), s. Qed.
Lemma uploaded_diagnostics_idem ds : uploaded_diagnostics (uploaded_diagnostics ds) = uploaded_diagnostics ds.
Proof.
  unfold uploaded_diagnostics. rewrite filter_all.
  - rewrite <-list_fmap_compose. apply list_fmap_ext. intros _ d _. apply redact_diagnostic_idem.
  - apply Forall_forall. intros x Hx. apply list_elem_of_fmap in Hx as (d & -> & Hd).
    apply list_elem_of_filter in Hd as [Hd _]. destruct d as [code]. cbn in *.
    by destruct (is_safe_backend_text code).
Qed.
(** Redacting a diagnostic neither hides nor invents a failed usage read. *)
Lemma failed_read_redacted s : is_codex_failed_usage_read (redacted s) = is_codex_failed_usage_read s.
Proof.
  unfold is_codex_failed_usage_read. rewrite snap_diagnostics_redacted.
  assert (snap_source (redacted s) = snap_source s) as ->.
  { unfold redacted_for_backend. by destruct (is_codex_failed_usage_read s), s. }
  f_equal. unfold uploaded_diagnostics. induction (snap_diagnostics s) as [|d ds IH]; [done|].
  destruct (is_local_only_diagnostic (diag_code d)) eqn:El.
  - rewrite filter_cons_False by (rewrite El; exact (fun H => H)). rewrite IH. cbn [existsb].
    apply bool_decide_eq_true in El. by rewrite El.
  - rewrite filter_cons_True by by rewrite El. rewrite fmap_cons. cbn [existsb]. rewrite IH. f_equal.
    destruct d as [code]. cbn in *. destruct (is_safe_backend_text code) eqn:E; [done|].
    rewrite (bool_decide_eq_false_2 (code = _)); [rewrite (bool_decide_eq_false_2 (code = _)); [done|]|];
      intros ->; by vm_compute in E.
Qed.

Lemma forget_plan_redacted a : forget_plan (redact_account (forget_plan a)) = redact_account (forget_plan a).
Proof. by destruct a. Qed.
Lemma option_fmap_idem {A} (f : A -> A) (o : option A) :
  (forall x, f (f x) = f x) -> (f <$> (f <$> o)) = (f <$> o).
Proof. destruct o; [|done]. intros H. cbn. by rewrite H. Qed.
Lemma list_fmap_idem {A} (f : A -> A) (l : list A) :
  (forall x, f (f x) = f x) -> (f <$> (f <$> l)) = (f <$> l).
Proof. intros H. rewrite <-list_fmap_compose. apply list_fmap_ext. intros _ x _. apply H. Qed.
Lemma failure_only_redacted s :
  is_codex_failed_usage_read s = true -> failure_only (redacted s) = redacted s.
Proof.
  intros Hf. unfold redacted_for_backend. rewrite Hf. destruct s. unfold failure_only. cbn. f_equal.
  - destruct snap_account as [a|]; [|done]. exact (f_equal Some (forget_plan_redacted a)).
  - apply filter_all, Forall_forall. intros w Hw. apply list_elem_of_fmap in Hw as (v & -> & Hv).
    apply list_elem_of_filter in Hv as [Hv _]. by destruct v.
Qed.

(** Redaction is idempotent: redacting the backend copy of a snapshot again
    changes nothing, so a copy that passes through two upload paths is the same
    copy. *)
Theorem redaction_idempotent s :
  redacted_for_backend to_lowercase (redacted_for_backend to_lowercase s) = redacted_for_backend to_lowercase s.
Proof.
  unfold redacted_for_backend at 1. rewrite failed_read_redacted.
  assert ((if is_codex_failed_usage_read s then failure_only (redacted s) else redacted s) = redacted s) as ->.
  { destruct (is_codex_failed_usage_read s) eqn:E; [by apply failure_only_redacted|done]. }
  unfold redacted_for_backend. set (t := if is_codex_failed_usage_read s then _ else _).
  destruct t. cbn. f_equal.
  - apply option_fmap_idem, redact_account_idem.
  - apply option_fmap_idem, redact_model_idem.
  - apply list_fmap_idem, redact_window_idem.
  - apply omap_idem, redact_credit_idem.
  - apply option_fmap_idem. by intros [].
  - apply omap_idem, redact_capability_idem.
  - apply list_fmap_idem, redact_plan_idem.
  - apply uploaded_diagnostics_idem.
  - apply option_fmap_idem, redact_defaults_idem.
Qed.
End SnapshotLaws.
