(* ===== verification/RedactionSafety.v ===== *)
(** What a backend copy of an agent status snapshot carries
    (crates/ottto-protocol/src/lib.rs, [redacted_for_backend]): its texts part
    by part, that none of them leaks, and what a failed usage read uploads. *)
From S2P Require Import Prelude Text PrivacyGuard StatusTypes Redaction.
Local Open Scope Z_scope.

(** ** What the backend copy carries *)
(** The provider text of each part that the redaction answers for.  Left as
    the provider sent them, and so not listed: a quota window's name, model,
    label and severity, a balance's currency, a context's source and reason,
    and the hashes of a superseded scheme. *)
Definition somes (texts : list (option string)) : list string := omap id texts.
Definition account_texts (a : AgentAccountStatus) : list string := somes [
  acc_provider a; acc_auth_method a; acc_plan_type a; acc_subscription_product a; acc_billing_channel a;
  acc_account_identifier_hash a; acc_organization_identifier_hash a; acc_credential_fingerprint_hash a;
  acc_billing_identity_evidence a; acc_account_id a; acc_organization_id a].
Definition plan_texts (o : AgentStatusPlanObservation) : list string := somes [
  plan_evidence_method o; plan_source_session_id o; plan_provider o; plan_billing_provider o;
  plan_model_provider o; plan_billing_channel o; plan_auth_mode o; plan_gateway_provider o;
  plan_subscription_product o; plan_plan_type o; plan_account_id o; plan_organization_id o;
  plan_account_identifier_hash o; plan_organization_identifier_hash o; plan_credential_fingerprint_hash o;
  plan_billing_identity_evidence o].
Definition available_model_texts (m : AgentAvailableModelStatus) : list string := am_id m :: somes [
  am_provider m; am_model_provider m; am_billing_provider m; am_billing_channel m; am_auth_mode m;
  am_gateway_provider m; am_subscription_product m; am_source_category m; am_account_identifier_hash m;
  am_organization_identifier_hash m; am_credential_fingerprint_hash m; am_billing_identity_evidence m].
Definition model_texts (m : AgentModelStatus) : list string :=
  somes [active_model m; default_model m; model_provider m] ++ available_models m
  ++ (available_model_details m ≫= available_model_texts).
Definition window_texts (w : AgentQuotaWindow) : list string :=
  somes [win_rate_limit_reached_type w; win_limit_id w].
Definition grant_texts (g : AgentCreditGrant) : list string := somes [grant_title g] ++ default [] (clears g).
Definition balance_titles (b : AgentCreditBalance) : list string :=
  somes (bal_title b :: (grant_title <$> default [] (bal_grants b))).
Definition balance_texts (b : AgentCreditBalance) : list string :=
  bal_name b :: somes [bal_rate_limit_reached_type b; bal_limit_id b; bal_title b; bal_disabled_reason b;
    bal_ineligible_reason b] ++ (default [] (bal_grants b) ≫= grant_texts).
Definition capability_texts (c : AgentCapabilityGap) : list string := capability c :: somes [capability_detail c].
Definition diagnostic_texts (d : AgentStatusDiagnostic) : list string := diag_code d :: diag_message d
  :: somes [diag_account_identifier_hash d; diag_organization_identifier_hash d; diag_account_label d].
Definition entry_texts (entries : list (string * string)) : list string := entries ≫= fun '(k, v) => [k; v].
Definition defaults_texts (d : AgentRuntimeDefaults) : list string :=
  somes [def_model d; def_service_tier d; def_speed_mode d; def_reasoning_effort d; def_approval_policy d;
    def_sandbox_mode d; def_machine_id d; def_provenance d]
  ++ entry_texts (def_reasoning_effort_by_model d) ++ entry_texts (def_selector_context d)
  ++ entry_texts (def_selector_sources d).
Definition of_option {A B} (f : A -> list B) (x : option A) : list B := if x is Some a then f a else [].
Definition backend_texts (s : AgentStatusSnapshot) : list string :=
  of_option account_texts (snap_account s) ++ of_option model_texts (snap_model s)
  ++ (snap_quota_windows s ≫= window_texts) ++ (snap_credit_balances s ≫= balance_texts)
  ++ (snap_capabilities s ≫= capability_texts) ++ (snap_plan_observations s ≫= plan_texts)
  ++ (snap_diagnostics s ≫= diagnostic_texts) ++ of_option defaults_texts (snap_runtime_defaults s).

Abbreviation all_safe := (Forall (fun text => is_safe_backend_text text = true)).
Lemma somes_safe os :
  Forall (fun o => forall text, o = Some text -> is_safe_backend_text text = true) os -> all_safe (somes os).
Proof.
  induction 1 as [|o os Ho _ IH]; [constructor|]. destruct o as [t|]; cbn; [|done]. constructor; [by apply Ho|done].
Qed.
Lemma optional_text_safe v text : safe_optional_text v = Some text -> is_safe_backend_text text = true.
Proof. intros H. by apply opt_filter_Some in H as [_ H]. Qed.
Lemma identifier_safe v text : safe_provider_identifier v = Some text -> is_safe_backend_text text = true.
Proof. intros H. by apply safe_provider_identifier_Some in H as (? & _ & _ & _ & H). Qed.
Lemma none_safe text : None = Some text -> is_safe_backend_text text = true.
Proof. done. Qed.
Create HintDb redaction_safe.
#[local] Hint Resolve optional_text_safe identifier_safe none_safe : redaction_safe.
Ltac somes_safe := apply somes_safe; repeat (apply Forall_cons; split); try apply Forall_nil;
  cbn; eauto with redaction_safe.

Lemma redacted_account_safe a : all_safe (account_texts (redact_account a)).
Proof. destruct a. somes_safe. Qed.
Lemma redacted_plan_safe o : all_safe (plan_texts (redact_plan_observation_for_backend o)).
Proof. destruct o. somes_safe. Qed.
Lemma redacted_window_safe w : all_safe (window_texts (redact_window w)).
Proof. destruct w. somes_safe. Qed.
Lemma redacted_diagnostic_safe d : all_safe (diagnostic_texts (redact_diagnostic_for_backend d)).
Proof.
  destruct d as [code ? message]. unfold diagnostic_texts. cbn [redact_diagnostic_for_backend].
  apply Forall_cons; split; [|apply Forall_cons; split; [|somes_safe]]; cbn; by case_match.
Qed.
Lemma redacted_capability_safe x y : redact_capability_for_backend x = Some y -> all_safe (capability_texts y).
Proof.
  unfold redact_capability_for_backend. destruct (is_safe_backend_text (capability x)) eqn:E; [|done].
  intros H%(inj Some). subst y. destruct x. apply Forall_cons; split; [done|somes_safe].
Qed.
Lemma redacted_available_model_safe x y :
  redact_available_model_for_backend x = Some y -> all_safe (available_model_texts y).
Proof.
  unfold redact_available_model_for_backend. destruct (is_safe_backend_text (am_id x)) eqn:E; [|done].
  intros H%(inj Some). subst y. destruct x. apply Forall_cons; split; [done|somes_safe].
Qed.

Lemma bind_safe {A} (f : A -> list string) (l : list A) :
  Forall (fun x => all_safe (f x)) l -> all_safe (l ≫= f).
Proof. induction 1; cbn; [constructor|]. by apply Forall_app. Qed.
Lemma fmap_safe {A B} (f : B -> list string) (g : A -> B) (l : list A) :
  (forall x, all_safe (f (g x))) -> Forall (fun x => all_safe (f x)) (g <$> l).
Proof. intros H. apply Forall_fmap, Forall_true. done. Qed.
Lemma omap_safe {A B} (f : B -> list string) (g : A -> option B) (l : list A) :
  (forall x y, g x = Some y -> all_safe (f y)) -> Forall (fun x => all_safe (f x)) (omap g l).
Proof. intros H. apply Forall_forall. intros y Hy. apply list_elem_of_omap in Hy as (x & _ & Hx). by eapply H. Qed.
Lemma entries_safe entries : all_safe (entry_texts (safe_entries entries)).
Proof.
  apply bind_safe, Forall_forall. intros [k v] H. apply list_elem_of_filter in H as [H _].
  apply Is_true_true in H. zbool. by repeat constructor.
Qed.
Lemma redacted_defaults_safe d : all_safe (defaults_texts (redact_defaults d)).
Proof.
  destruct d. unfold defaults_texts. rewrite !Forall_app. split_and!; [somes_safe|apply entries_safe..].
Qed.
Lemma redacted_model_safe m : all_safe (model_texts (redact_model m)).
Proof.
  destruct m. unfold model_texts. rewrite !Forall_app. split_and!; [somes_safe| |].
  - apply Forall_forall. intros t H. apply list_elem_of_filter in H as [H _]. by apply Is_true_true.
  - apply bind_safe, omap_safe, redacted_available_model_safe.
Qed.

Section CreditSafe.
Context (to_lowercase : Z -> list Z).
Lemma credit_title_safe v text :
  opt_filter (is_backend_safe_credit_text to_lowercase) v = Some text -> is_safe_backend_text text = true.
Proof. intros H. apply opt_filter_Some in H as [_ H]. unfold is_backend_safe_credit_text in H. by zbool. Qed.
Lemma reason_safe p v text :
  (forall t, p t = true -> is_safe_backend_text t = true) ->
  opt_filter p v = Some text -> is_safe_backend_text text = true.
Proof. intros Hp H. apply opt_filter_Some in H as [_ H]. by apply Hp. Qed.
Lemma redacted_grant_safe g : all_safe (grant_texts (redact_grant to_lowercase g)).
Proof.
  destruct g as [? ? ? ? ? ? ? ? names title ?]. unfold grant_texts. apply Forall_app. split.
  - apply somes_safe. apply Forall_singleton. cbn. apply credit_title_safe.
  - cbn. destruct names as [names|]; [|constructor]. cbn. destruct (forallb reason_ok names) eqn:E; [|constructor].
    apply forallb_Forall in E. eapply Forall_impl; [exact E|]. unfold reason_ok. intros ? ?. cbn in *. by zbool.
Qed.
(** The list and the texts of a redacted balance, whatever its grants did. *)
Lemma redacted_balance_parts x y :
  redact_credit_balance_for_backend to_lowercase x = Some y ->
  is_safe_backend_text (bal_name y) = true /\
  bal_grants y = ((fun l => redact_grant to_lowercase <$> retained_grants l) <$> bal_grants x) /\
  bal_rate_limit_reached_type y = safe_optional_text (bal_rate_limit_reached_type x) /\
  bal_limit_id y = safe_optional_text (bal_limit_id x) /\
  bal_title y = opt_filter (is_backend_safe_credit_text to_lowercase) (bal_title x) /\
  bal_account_label y = None /\
  (exists p, bal_disabled_reason y = opt_filter (fun r => p && reason_ok r) (bal_disabled_reason x)) /\
  (bal_ineligible_reason y = None \/ bal_ineligible_reason y = opt_filter reason_ok (bal_ineligible_reason x)).
Proof.
  unfold redact_credit_balance_for_backend. destruct (is_safe_backend_text (bal_name x)) eqn:E; [|done].
  cbn [negb]. intros H%(inj Some). subst y.
  destruct (credit_grants_unavailable_cause_allowed _); unfold redact_credit_grants;
    destruct (list_degraded _); destruct x; (split_and!; [done..|by eexists|]);
    cbn; (destruct (bool_decide _); [by right|by left]).
Qed.
Lemma redacted_balance_safe x y :
  redact_credit_balance_for_backend to_lowercase x = Some y -> all_safe (balance_texts y).
Proof.
  intros H. apply redacted_balance_parts in H as (Hn & Hg & Hr & Hl & Ht & _ & [p Hd] & Hi).
  unfold balance_texts. apply Forall_cons; split; [done|]. rewrite Forall_app. split.
  - apply somes_safe. rewrite Hr, Hl, Ht, Hd.
    assert (forall r, reason_ok r = true -> is_safe_backend_text r = true) as Hok.
    { unfold reason_ok. intros r ?. by zbool. }
    repeat (apply Forall_cons; split); try apply Forall_nil; eauto using credit_title_safe with redaction_safe.
    + intros text Hx. eapply reason_safe; [|exact Hx]. intros t ?. cbn in *. apply Hok. by zbool.
    + destruct Hi as [->| ->]; [done|]. intros text. by apply reason_safe.
  - rewrite Hg. destruct (bal_grants x) as [l|]; [|constructor]. cbn.
    apply bind_safe, fmap_safe, redacted_grant_safe.
Qed.
Lemma redacted_balance_titles x y title :
  redact_credit_balance_for_backend to_lowercase x = Some y -> title ∈ balance_titles y ->
  is_backend_safe_credit_text to_lowercase title = true.
Proof.
  intros H. apply redacted_balance_parts in H as (_ & Hg & _ & _ & Ht & _). unfold balance_titles, somes.
  rewrite Hg, Ht. intros (o & Ho & Hx)%list_elem_of_omap. cbn in Hx. subst o.
  apply elem_of_cons in Ho as [Ho|Ho]; [symmetry in Ho; by apply opt_filter_Some in Ho as [_ Ho]|].
  apply list_elem_of_fmap in Ho as (g & Hgt & Ho). destruct (bal_grants x) as [l|]; [|by apply elem_of_nil in Ho].
  cbn in Ho. apply list_elem_of_fmap in Ho as (g' & -> & _). destruct g'. cbn in Hgt. symmetry in Hgt.
  by apply opt_filter_Some in Hgt as [_ Hgt].
Qed.
End CreditSafe.

Section Upload.
Context (to_lowercase : Z -> list Z).
Abbreviation redacted := (redacted_for_backend to_lowercase).

Lemma of_option_safe {A} (f : A -> list string) (g : A -> A) (o : option A) :
  (forall x, all_safe (f (g x))) -> all_safe (of_option f (g <$> o)).
Proof. intros H. destruct o; cbn; [apply H|constructor]. Qed.
Lemma upload_guarded s : all_safe (backend_texts (redacted s)).
Proof.
  unfold redacted_for_backend. set (t := if is_codex_failed_usage_read s then _ else _). destruct t.
  unfold backend_texts. cbn. rewrite !Forall_app. split_and!.
  - apply of_option_safe, redacted_account_safe.
  - apply of_option_safe, redacted_model_safe.
  - apply bind_safe, fmap_safe, redacted_window_safe.
  - apply bind_safe, omap_safe, redacted_balance_safe.
  - apply bind_safe, omap_safe, redacted_capability_safe.
  - apply bind_safe, fmap_safe, redacted_plan_safe.
  - apply bind_safe, fmap_safe, redacted_diagnostic_safe.
  - apply of_option_safe, redacted_defaults_safe.
Qed.

(** [text] holds [fragment] in any ASCII case. *)
Definition leaks (fragment text : string) : Prop :=
  exists pre part post, as_bytes text = pre ++ part ++ post /\ to_ascii_lowercase part = as_bytes fragment.
(** C13: Every guarded text of a backend copy is free of credentials and local
    paths: no text of the account, the models, the windows' limits, the credit
    balances and grants, the capabilities, the plans, the diagnostics or the
    runtime defaults holds an at-sign or, in any case, a home path, a hidden
    agent directory, an authorization header or a token prefix. *)
Theorem upload_never_leaks s text fragment :
  text ∈ backend_texts (redacted s) -> fragment ∈ "@"%string :: forbidden_fragments -> ~ leaks fragment text.
Proof.
  intros Ht Hf (pre & part & post & E & Hp).
  pose proof (proj1 (Forall_forall _ _) (upload_guarded s) _ Ht) as Hs. apply elem_of_cons in Hf as [->|Hf].
  - assert (part = [64]) as ->; [|exact (safe_text_no_at _ _ _ Hs E)].
    change (as_bytes "@") with [64] in Hp. destruct part as [|b [|]]; try done. injection Hp as Hb. unfold ascii_lower in Hb.
    destruct (_ && _) eqn:Eb; zbool; f_equal; lia.
  - exact (safe_text_no_fragment _ _ _ _ _ (safe_text_guarded _ Hs) Hf Hp E).
Qed.

(** The titles of a backend copy's balances and grants. *)
Definition credit_titles (s : AgentStatusSnapshot) : list string := snap_credit_balances s ≫= balance_titles.
(** A disguise does not help: no credit title of a backend copy spells a
    forbidden fragment or an at-sign even to a reader, whatever capitals,
    full-width forms, slash lookalikes, invisible characters or runs of white
    space it is written with. *)
Theorem titles_hide_nothing s title fragment pre disguise post :
  LowercaseOk to_lowercase -> title ∈ credit_titles (redacted s) -> utf8 title ->
  fragment ∈ leak_fragments -> spells fragment disguise -> chars title <> pre ++ disguise ++ post.
Proof.
  intros Hl Ht Hu Hf Hd. eapply credit_text_hides_nothing; [done..| |done|done].
  unfold credit_titles in Ht. apply list_elem_of_bind in Ht as (b & Ht & Hb).
  assert (exists x, redact_credit_balance_for_backend to_lowercase x = Some b) as [x Hx].
  { unfold redacted_for_backend in Hb. set (t := if is_codex_failed_usage_read s then _ else _) in Hb.
    destruct t. cbn in Hb. apply list_elem_of_omap in Hb as (x & _ & Hx). by exists x. }
  by eapply redacted_balance_titles.
Qed.

(** A failed Codex usage read uploads the failure and no reading: no stale
    quota window, no credit balance, no plan observation and no plan or period
    of the account; the windows that are not stale, the diagnostics and the
    account's identity stay.  Any other snapshot keeps every window. *)
Theorem failed_codex_read_uploads_failure s :
  (is_codex_failed_usage_read s = true ->
    Forall (fun w => win_freshness w <> Stale) (snap_quota_windows (redacted s)) /\
    snap_credit_balances (redacted s) = [] /\ snap_plan_observations (redacted s) = [] /\
    (forall a, snap_account (redacted s) = Some a -> forget_plan a = a)) /\
  (win_name <$> snap_quota_windows (redacted s)) =
    (win_name <$> if is_codex_failed_usage_read s
                  then filter (fun w => win_freshness w <> Stale) (snap_quota_windows s)
                  else snap_quota_windows s) /\
  length (snap_diagnostics (redacted s)) =
    length (filter (fun d => negb (is_local_only_diagnostic (diag_code d))) (snap_diagnostics s)) /\
  (acc_billing_channel <$> snap_account (redacted s)) =
    ((fun a => safe_optional_text (acc_billing_channel a)) <$> snap_account s).
Proof.
  split; [|split_and!].
  - intros Hf. pose proof (failure_only_redacted to_lowercase s Hf) as Hr. rewrite <-Hr.
    split_and!; [|done|done|].
    + apply Forall_forall. intros w Hw. apply list_elem_of_filter in Hw as [Hw _]. done.
    + intros a. generalize (redacted s). intros r Ha. 
      assert (snap_account (failure_only r) = (forget_plan <$> snap_account r)) as E by done.
      rewrite E in Ha. destruct (snap_account r) as [b|]; [|done]. injection Ha as <-. by destruct b.
  - unfold redacted_for_backend. destruct (is_codex_failed_usage_read s), s; cbn; rewrite <-list_fmap_compose;
      apply list_fmap_ext; by intros _ [] _.
  - rewrite snap_diagnostics_redacted. unfold uploaded_diagnostics. by rewrite length_fmap.
  - unfold redacted_for_backend. by destruct (is_codex_failed_usage_read s), s as [? ? ? ? ? [[]|]].
Qed.
End Upload.

(** ** Samples *)
Definition ascii_to_lowercase (c : Z) : list Z := [ascii_lower c].
Lemma ascii_lowercase_ok : LowercaseOk ascii_to_lowercase.
Proof.
  split; [|done]. intros c Hc. apply Forall_singleton. unfold scalar, ascii_lower in *.
  destruct (_ && _) eqn:E; zbool; lia.
Qed.
Definition sample_balance : AgentCreditBalance :=
  mkBalance "saved resets" BalanceOk Fresh Resets None None None (Some 1) None None None None None None None None None
    None (Some "codex"%string) None None None None None None None (Some SavedResets) (Some "Spring promo"%string)
    None None None None None None None.
Definition sample_diagnostic (code : string) : AgentStatusDiagnostic :=
  mkDiagnostic code DiagnosticWarning "probe failed" None None None None (Some "Me"%string) None.
Definition sample_snapshot (source : SourceKind) : AgentStatusSnapshot :=
  mkSnapshot source StatusDegraded AppServer "2026-02-19T10:00:00Z" "2026-02-19T10:05:00Z" None None [] [sample_balance]
    None [] [] [sample_diagnostic "codex_usage_probe_failed";
      sample_diagnostic CLAUDE_OAUTH_USAGE_RATE_LIMITED_DIAGNOSTIC_CODE] None.

Lemma upload_never_leaks_witness :
  "codex"%string ∈ backend_texts (redacted_for_backend ascii_to_lowercase (sample_snapshot ClaudeCode)) /\
  ~ leaks "bearer " "codex".
Proof.
  assert ("codex"%string ∈ backend_texts (redacted_for_backend ascii_to_lowercase (sample_snapshot ClaudeCode))) as H.
  { apply (bool_decide_unpack _). vm_compute. exact I. }
  split; [exact H|]. apply (upload_never_leaks ascii_to_lowercase (sample_snapshot ClaudeCode) _ _ H).
  apply (bool_decide_unpack _). vm_compute. exact I.
Defined.
Definition disguised_bearer : list Z := [66; 8203; 101; 65345; 114; 101; 82; 9; 160].
Lemma titles_hide_nothing_witness :
  "Spring promo"%string ∈ credit_titles (redacted_for_backend ascii_to_lowercase (sample_snapshot ClaudeCode)) /\
  chars "Spring promo" <> [83] ++ disguised_bearer ++ [].
Proof.
  assert ("Spring promo"%string
    ∈ credit_titles (redacted_for_backend ascii_to_lowercase (sample_snapshot ClaudeCode))) as H.
  { apply (bool_decide_unpack _). vm_compute. exact I. }
  split; [exact H|].
  apply (titles_hide_nothing ascii_to_lowercase (sample_snapshot ClaudeCode) _
    [98; 101; 97; 114; 101; 114; 32]).
  - exact ascii_lowercase_ok.
  - exact H.
  - exists (chars "Spring promo"). split; [|reflexivity].
    apply (bool_decide_unpack _). vm_compute. exact I.
  - apply (bool_decide_unpack _). vm_compute. exact I.
  - unfold disguised_bearer. apply spells_letter; [lia|reflexivity|]. apply spells_format; [reflexivity|].
    apply spells_letter; [lia|reflexivity|]. apply spells_letter; [lia|reflexivity|].
    apply spells_letter; [lia|reflexivity|]. apply spells_letter; [lia|reflexivity|].
    apply spells_letter; [lia|reflexivity|].
    apply (spells_space 9 [160] [] []); [reflexivity| |discriminate|constructor].
    apply Forall_singleton. reflexivity.
Defined.
(** A disguised header is refused whole. *)
Example disguised_title_refused :
  is_backend_safe_credit_text ascii_to_lowercase (of_chars (disguised_bearer ++ [120])) = false.
Proof. vm_compute. reflexivity. Qed.
