(* ===== verification/QuotaCredits.v ===== *)
(** The daemon's credit model: grant identity, grant building, balance
    summaries, readiness and one-time pools
    (crates/ottto-service/src/quota_credit_model.rs).

    Parameters: [sha256] (sha2), [nfkc] (unicode-normalization), the [time]
    crate ([TimeCrate]), the serialized size of a grant (serde_json) and
    [char::to_lowercase].  A routine that records diagnostics returns them in
    the order the code pushes them. *)
From S2P Require Import Prelude Text Std PrivacyGuard StatusTypes.
From coqutil Require Import Datatypes.RecordSetters.
Import DoubleBraceUpdate.
Local Open Scope Z_scope.

Definition GRANTS_MAX : nat := 20.
Definition GRANT_MAX_BYTES : Z := 1024.
Definition TITLE_MAX_CHARS : Z := 128.
Definition TITLE_MAX_BYTES : Z := 512.
Definition RESETS_MAX : Z := 1000.
Definition CLEARS_MAX_ITEMS : nat := 8.
Definition GRANT_COUNT_MAX : Z := 10000.
Definition ANTHROPIC_GRANT_ID_MAX : Z := 40.
Definition OPENAI_GRANT_ID_MAX : Z := 256.

(** ** Inputs *)
Inductive Provider := OpenAi | Anthropic.
#[export] Instance Provider_eq_dec : EqDecision Provider.
Proof. solve_decision. Defined.
Definition token (p : Provider) : string := match p with OpenAi => "openai" | Anthropic => "anthropic" end.

Inductive Field (T : Type) := Absent | Value (v : T) | Invalid.
Arguments Absent {T}.
Arguments Value {T} v.
Arguments Invalid {T}.
Inductive TimeInput := TimeAbsent | TimeRfc3339 (text : string) | UnixSeconds (seconds : Z) | TimeInvalid.
Inductive GrantStatusInput :=
  | Reported (word : Field string)
  | PausedResetsLeft (paused : Field bool) (left_ : Field Z).
Record GrantInput := mkGrantInput {
  in_id : Field string;
  in_reset_type : Field string;
  in_status : GrantStatusInput;
  in_granted_at : TimeInput;
  in_starts_at : TimeInput;
  in_expires_at : TimeInput;
  in_resets_included : Field Z;
  in_resets_left : Field Z;
  in_clears : Field (list string);
  in_title : Field string;
  in_usable_now : Field bool;
}.
Inductive ListObservation :=
  | Read (provider : Provider) (provider_count : option Z) (records : list GrantInput)
      (observed_at : Rfc3339Timestamp)
  | NotRead (provider : Provider) (provider_count : option Z).

(** ** Diagnostics *)
Record CreditModelDiagnostic := mkCreditDiagnostic { code : string; field : string }.
Definition field_refused (name : string) : CreditModelDiagnostic := mkCreditDiagnostic "field_refused" name.
(** A value, the diagnostics pushed, and whether a refused field must make the
    list partial. *)
Definition Checked (A : Type) : Type := A * list CreditModelDiagnostic * bool.
Definition keep {A} (x : A) : Checked A := (x, [], false).
Definition refuse {A} (name : string) (partial_on_refusal : bool) (x : A) : Checked A :=
  (x, [field_refused name], partial_on_refusal).
Definition and_then {A B} (m : Checked A) (f : A -> Checked B) : Checked B :=
  let '(x, d1, p1) := m in let '(y, d2, p2) := f x in (y, d1 ++ d2, p1 || p2).
Notation "'check' x ':=' m 'in' k" := (and_then m (fun x => k))
  (at level 10, x name, m at level 100, k at level 200) : ottto_scope.

(** The [time] crate: instants in nanoseconds from the Unix epoch.
    [format_utc] is [to_offset(UtcOffset::UTC).format(&Rfc3339)]. *)
Record TimeCrate := mkTimeCrate {
  time_parse : string -> option Z;
  format_utc : Z -> option string;
  from_unix_timestamp : Z -> option Z;
}.

Record GrantsBuild := mkBuild {
  gb_grants : option (list AgentCreditGrant);
  gb_grants_state : option CreditGrantsState;
  gb_grant_count : option Z;
  gb_grants_observed_at : option Rfc3339Timestamp;
  gb_sender_capped : bool;
  gb_sender_capped_next_expires_at : option Rfc3339Timestamp;
  gb_provider : option Provider;
  gb_diagnostics : list CreditModelDiagnostic;
}.

Section CreditModel.
Context (sha256 : list Z -> list Z) (nfkc : string -> string) (time : TimeCrate)
  (grant_json_len : AgentCreditGrant -> option Z) (to_lowercase : Z -> list Z).
Abbreviation is_backend_safe_credit_text := (is_backend_safe_credit_text to_lowercase).

Definition credit_grant_key (provider : Provider) (id : string) : string :=
  of_bytes (hex_encode (sha256 (as_bytes (token provider ++ ":credit_grant:" ++ id)%string))).

(** ** Field checks *)
Definition normalize_time (input : TimeInput) : option (option Rfc3339Timestamp) :=
  match input with
  | TimeAbsent => Some None
  | TimeInvalid => None
  | TimeRfc3339 text =>
      try? instant := time_parse time (str_trim text) in
      try? text := format_utc time instant in Some (Some text)
  | UnixSeconds seconds =>
      try? instant := from_unix_timestamp time seconds in
      try? text := format_utc time instant in Some (Some text)
  end.
Definition parse_instant (text : string) : option Z := time_parse time text.

Definition is_privacy_safe_display_text (text : string) : bool :=
  is_backend_safe_credit_text text && is_backend_safe_credit_text (nfkc text).
(** The loop of [bounded_title]: [count] characters and [len] bytes are kept. *)
Fixpoint cut_title (count len : Z) (cs : list Z) : list Z :=
  match cs with
  | [] => []
  | ch :: cs =>
      if (count =? TITLE_MAX_CHARS) || (TITLE_MAX_BYTES <? len + len_utf8 ch) then []
      else ch :: cut_title (count + 1) (len + len_utf8 ch) cs
  end.
Definition bounded_title (input : Field string) (name : string)
    : option string * option CreditModelDiagnostic :=
  match input with
  | Absent => (None, None)
  | Invalid => (None, Some (field_refused name))
  | Value text =>
      if str_len text =? 0 then (None, None)
      else if negb (is_privacy_safe_display_text text) || existsb is_control (chars text)
      then (None, Some (field_refused name))
      else if (Z.of_nat (length (chars text)) <=? TITLE_MAX_CHARS) && (str_len text <=? TITLE_MAX_BYTES)
      then (Some text, None)
      else (Some (of_chars (cut_title 0 0 (chars text))), Some (mkCreditDiagnostic "title_truncated" name))
  end.

Definition grant_id_is_valid (provider : Provider) (id : string) : bool :=
  match provider with
  | Anthropic =>
      (1 <=? str_len id) && (str_len id <=? ANTHROPIC_GRANT_ID_MAX)
      && forallb (fun b => is_ascii_lowercase b || is_ascii_digit b || existsb (Z.eqb b) [95; 45]) (as_bytes id)
  | OpenAi =>
      (1 <=? str_len id) && (str_len id <=? OPENAI_GRANT_ID_MAX) && negb (existsb is_control (chars id))
  end.
Definition bounded_grant_count (count : option Z) : option Z * list CreditModelDiagnostic :=
  match count with
  | Some count =>
      if GRANT_COUNT_MAX <? count then (None, [field_refused "grant_count"]) else (Some count, [])
  | None => (None, [])
  end.
Definition bounded_resets (input : Field Z) (name : string) : Checked (option Z) :=
  match input with
  | Absent => keep None
  | Value value => if value <=? RESETS_MAX then keep (Some value) else refuse name true None
  | Invalid => refuse name true None
  end.

(** ** One grant *)
Definition grant_type_of (provider : Provider) (reset_type : Field string) : Checked CreditGrantType :=
  match provider with
  | Anthropic => keep RateLimitReset
  | OpenAi =>
      let refused := refuse "grants[].grant_type" false GrantTypeUnknown in
      match reset_type with
      | Value reset_type =>
          if bool_decide (reset_type = "codexRateLimits"%string) then keep RateLimitReset else refused
      | _ => refused
      end
  end.
Definition status_of (status : GrantStatusInput) : option CreditGrantStatus :=
  match status with
  | Reported (Value word) =>
      if bool_decide (word = "available"%string) then Some Available
      else if bool_decide (word = "redeeming"%string) then Some Redeeming
      else if bool_decide (word = "redeemed"%string) then Some Redeemed
      else if bool_decide (word = "paused"%string) then Some Paused
      else None
  | Reported _ => None
  | PausedResetsLeft (Value true) _ => Some Paused
  | PausedResetsLeft (Value false) (Value left_) =>
      if left_ =? 0 then Some Redeemed else if left_ <=? RESETS_MAX then Some Available else None
  | PausedResetsLeft _ _ => None
  end.
Definition checked_status (status : GrantStatusInput) : Checked CreditGrantStatus :=
  match status_of status with
  | Some status => keep status
  | None => refuse "grants[].status" true GrantStatusUnknown
  end.
Definition checked_time (input : TimeInput) (name : string) : Checked (option Rfc3339Timestamp) :=
  match normalize_time input with Some value => keep value | None => refuse name true None end.
Definition checked_clears (input : Field (list string)) : Checked (option (list string)) :=
  let refused := refuse "grants[].clears" false None in
  match input with
  | Absent => keep None
  | Value names =>
      if bool_decide (length names <= CLEARS_MAX_ITEMS)%nat && forallb is_credit_reason_code names
      then keep (Some names) else refused
  | Invalid => refused
  end.
Definition checked_usable_now (input : Field bool) : Checked (option bool) :=
  match input with
  | Absent => keep None
  | Value value => keep (Some value)
  | Invalid => refuse "grants[].usable_now" false None
  end.
Definition checked_title (input : Field string) (name : string) : Checked (option string) :=
  let '(title, diagnostic) := bounded_title input name in (title, option_list diagnostic, false).

(** The size the backend measures: an absent key is spelled [,"key":null]. *)
Definition absent_key {A} (key : string) (x : option A) : Z :=
  match x with None => str_len key + 8 | Some _ => 0 end.
Definition grant_wire_size (grant : AgentCreditGrant) : Z :=
  let present := default (umax 64) (grant_json_len grant) in
  saturating_add 64 present
    (absent_key "granted_at" (granted_at grant) + absent_key "starts_at" (starts_at grant)
     + absent_key "expires_at" (grant_expires_at grant) + absent_key "resets_included" (resets_included grant)
     + absent_key "resets_left" (resets_left grant) + absent_key "clears" (clears grant)
     + absent_key "title" (grant_title grant) + absent_key "usable_now" (usable_now grant)).
Definition too_large (grant : AgentCreditGrant) : bool := GRANT_MAX_BYTES <? grant_wire_size grant.
Definition shed_title (grant : AgentCreditGrant) : Checked AgentCreditGrant :=
  match grant_title grant with
  | Some _ =>
      if too_large grant then refuse "grants[].title" false (grant{{grant_title := None}}) else keep grant
  | None => keep grant
  end.
Definition shed_clears (grant : AgentCreditGrant) : Checked AgentCreditGrant :=
  match clears grant with
  | Some _ =>
      if too_large grant then refuse "grants[].clears" false (grant{{clears := None}}) else keep grant
  | None => keep grant
  end.

Definition grant_of_record (provider : Provider) (id : string) (record : GrantInput) : Checked AgentCreditGrant :=
  check kind := grant_type_of provider (in_reset_type record) in
  check left_ := bounded_resets (in_resets_left record) "grants[].resets_left" in
  check included := bounded_resets (in_resets_included record) "grants[].resets_included" in
  check status := checked_status (in_status record) in
  check granted := checked_time (in_granted_at record) "grants[].granted_at" in
  check starts := checked_time (in_starts_at record) "grants[].starts_at" in
  check expires := checked_time (in_expires_at record) "grants[].expires_at" in
  check names := checked_clears (in_clears record) in
  check usable := checked_usable_now (in_usable_now record) in
  check title := checked_title (in_title record) "grants[].title" in
  check grant := shed_title (mkGrant (credit_grant_key provider id) kind status granted starts expires
                               included left_ names title usable) in
  shed_clears grant.
(** The grant, and whether a refused field must make the list partial. *)
Definition build_grant (provider : Provider) (record : GrantInput)
    : option (AgentCreditGrant * bool) * list CreditModelDiagnostic :=
  let dropped := (None, [mkCreditDiagnostic "grant_dropped" "grants[].id"]) in
  match in_id record with
  | Value id =>
      if grant_id_is_valid provider id then
        let '(grant, diagnostics, partial) := grant_of_record provider id record in
        (Some (grant, partial), diagnostics)
      else dropped
  | _ => dropped
  end.

(** ** The list *)
Definition grant_order (left_ right_ : AgentCreditGrant) : comparison :=
  let expiry grant := grant_expires_at grant ≫= parse_instant in
  let by_expiry :=
    match expiry left_, expiry right_ with
    | Some left_, Some right_ => Z.compare left_ right_
    | Some _, None => Lt
    | None, Some _ => Gt
    | None, None => Eq
    end in
  match by_expiry with Eq => rcmp (grant_key left_) (grant_key right_) | c => c end.

Definition counts_toward_next_expiry (grant : AgentCreditGrant) : bool :=
  match grant_status grant with Available | Paused => true | _ => false end.
Definition dated (time_of : AgentCreditGrant -> option Rfc3339Timestamp) (grant : AgentCreditGrant)
    : option (Z * Rfc3339Timestamp) :=
  try? text := time_of grant in try? instant := parse_instant text in Some (instant, text).
Definition next_expires_at (grants : list AgentCreditGrant) : option Rfc3339Timestamp :=
  snd <$> min_by_key fst (omap (dated grant_expires_at) (filter counts_toward_next_expiry grants)).
Definition latest_granted_at (grants : list AgentCreditGrant) : option Rfc3339Timestamp :=
  snd <$> max_by_key fst (omap (dated granted_at) grants).

(** The records in order: the grants, whether one was dropped or refused a
    state field, and the diagnostics. *)
Fixpoint build_records (provider : Provider) (records : list GrantInput) : Checked (list AgentCreditGrant) :=
  match records with
  | [] => keep []
  | record :: records =>
      let '(built, diagnostics) := build_grant provider record in
      let '(grants, rest, partial) := build_records provider records in
      match built with
      | Some (grant, refused_state_field) =>
          (grant :: grants, diagnostics ++ rest, refused_state_field || partial)
      | None => (grants, diagnostics ++ rest, true)
      end
  end.

Definition build_read (provider : Provider) (provider_count : option Z) (records : list GrantInput)
    (observed_at : Rfc3339Timestamp) : GrantsBuild :=
  let '(grant_count, count_diagnostics) := bounded_grant_count provider_count in
  let returned := Z.of_nat (length records) in
  let '(grants, record_diagnostics, dropped) := build_records provider records in
  let grants := sort_by grant_order grants in
  let provider_capped := if provider_count is Some count then returned <? count else false in
  let partial := dropped || match provider_count with Some count => count <? returned | None => true end in
  let over := bool_decide (GRANTS_MAX < length grants)%nat in
  let sender_capped := over && negb provider_capped && negb partial in
  mkBuild (Some (if over then take GRANTS_MAX grants else grants))
    (Some (if partial then Partial else if provider_capped || over then Capped else Complete))
    grant_count (Some observed_at) sender_capped
    (if sender_capped then next_expires_at grants else None) (Some provider)
    (count_diagnostics ++ record_diagnostics
     ++ (if over then [mkCreditDiagnostic "grants_capped" "grants"] else [])).
Definition build_grants (obs : ListObservation) : GrantsBuild :=
  match obs with
  | Read provider provider_count records observed_at => build_read provider provider_count records observed_at
  | NotRead provider provider_count =>
      let '(grant_count, diagnostics) := bounded_grant_count provider_count in
      mkBuild None (Some Unavailable) grant_count None false None (Some provider) diagnostics
  end.

(** ** Balances *)
Definition status_for_remaining (remaining : option Z) : AgentCreditBalanceStatus :=
  match remaining with
  | Some n => if n =? 0 then BalanceExhausted else BalanceOk
  | None => BalanceUnknown
  end.
Definition is_saved_resets (balance : AgentCreditBalance) : bool :=
  bool_decide (bal_kind balance = Some SavedResets) && bool_decide (bal_unit balance = Resets).
(** The count of what is left; a sum that overflows [u64] is [None]. *)
Definition sum_u64 (l : list Z) : option Z :=
  foldl (fun acc n => try? acc := acc in checked_add 64 acc n) (Some 0) l.
Definition resets_remaining (grants : list AgentCreditGrant) : list Z :=
  omap resets_left (filter (fun grant => grant_status grant <> Paused) grants).
Definition summarize (balance : AgentCreditBalance) (provider : option Provider) : option AgentCreditBalance :=
  let complete := bool_decide (bal_grants_state balance = Some Complete) in
  let grants := default [] (bal_grants balance) in
  let balance := balance{{
    bal_next_expires_at := if complete then next_expires_at grants else None;
    bal_latest_granted_at := if complete then latest_granted_at grants else None}} in
  if negb (is_saved_resets balance) then Some balance
  else
    try? balance :=
      (if bool_decide (provider = Some Anthropic) then
         if complete then
           try? left_ := sum_u64 (resets_remaining grants) in Some (balance{{bal_remaining := Some left_}})
         else Some (balance{{bal_remaining := None}})
       else Some balance) in
    Some (balance{{bal_status := status_for_remaining (bal_remaining balance)}}).
(** [GrantsBuild::apply_to]; [None] is the sum's overflow panic. *)
Definition apply_to (build : GrantsBuild) (balance : AgentCreditBalance)
    : option (AgentCreditBalance * list CreditModelDiagnostic) :=
  let balance := balance{{
    bal_grants := gb_grants build; bal_grants_state := gb_grants_state build;
    bal_grant_count := gb_grant_count build; bal_grants_observed_at := gb_grants_observed_at build}} in
  try? balance := summarize balance (gb_provider build) in
  Some (if gb_sender_capped build && bool_decide (bal_grants_state balance = Some Capped)
        then balance{{bal_next_expires_at := gb_sender_capped_next_expires_at build}} else balance,
        gb_diagnostics build).

(** ** Readiness, disabled balances, one-time pools *)
Record ReadinessInput := mkReadiness {
  in_eligible : Field bool;
  in_at_limit : Field bool;
  in_ineligible_reason : Field string;
  in_cooldown_until : TimeInput;
}.
Definition safe_reason (reason : string) : bool :=
  is_credit_reason_code reason && is_backend_safe_credit_text reason.
Definition flag (resets : bool) (value : Field bool) (name : string) : Checked (option bool) :=
  match value with
  | Absent => keep None
  | Value value => if resets then keep (Some value) else refuse name false None
  | Invalid => refuse name false None
  end.
Definition checked_reason (resets : bool) (reason : Field string) (name : string) : Checked (option string) :=
  match reason with
  | Absent => keep None
  | Value reason => if resets && safe_reason reason then keep (Some reason) else refuse name false None
  | Invalid => refuse name false None
  end.
Definition checked_cooldown (resets : bool) (input : TimeInput) : Checked (option Rfc3339Timestamp) :=
  match normalize_time input with
  | Some None => keep None
  | Some (Some instant) => if resets then keep (Some instant) else refuse "cooldown_until" false None
  | None => refuse "cooldown_until" false None
  end.
Definition apply_readiness (balance : AgentCreditBalance) (input : ReadinessInput)
    : AgentCreditBalance * list CreditModelDiagnostic :=
  let resets := bool_decide (bal_unit balance = Resets) in
  let '(balance, diagnostics, _) :=
    check eligible := flag resets (in_eligible input) "eligible" in
    check at_limit := flag resets (in_at_limit input) "at_limit" in
    check reason := checked_reason resets (in_ineligible_reason input) "ineligible_reason" in
    check cooldown := checked_cooldown resets (in_cooldown_until input) in
    keep (balance{{
      bal_eligible := eligible; bal_at_limit := at_limit; bal_ineligible_reason := reason;
      bal_cooldown_until := cooldown}}) in
  (balance, diagnostics).

Definition apply_disabled (balance : AgentCreditBalance) (reason : Field string)
    : AgentCreditBalance * list CreditModelDiagnostic :=
  let '(reason, diagnostics, _) := checked_reason true reason "disabled_reason" in
  (balance{{
     bal_enabled := Some false; bal_status := BalanceUnknown; bal_remaining := None; bal_used := None;
     bal_quota := None; bal_used_percent := None; bal_unlimited := None; bal_disabled_reason := reason}},
   diagnostics).

Inductive OneTimeCreditRefusal := LimitId.
Definition diagnostic (refusal : OneTimeCreditRefusal) : CreditModelDiagnostic :=
  match refusal with LimitId => field_refused "limit_id" end.
(** [AgentCreditBalance::default()]. *)
Definition default_balance : AgentCreditBalance :=
  mkBalance "" BalanceUnknown FreshnessUnknown UnitUnknown None None None None None None None None None None None
    None None None None None None None None None None None None None None None None None None None None.
Definition one_time_credit (limit_id : string) (title : Field string) (limit_cents used_cents remaining_cents : option Z)
    (expires_at observed_at : TimeInput)
    : OneTimeCreditRefusal + (AgentCreditBalance * list CreditModelDiagnostic) :=
  if negb (safe_reason limit_id) then inl LimitId
  else
    let '(balance, diagnostics, _) :=
      check title := checked_title title "title" in
      check expires := checked_time expires_at "expires_at" in
      check observed := checked_time observed_at "observed_at" in
      keep (default_balance{{
        bal_name := "one_time_credit"%string; bal_status := status_for_remaining remaining_cents;
        bal_freshness := Fresh; bal_unit := Usd; bal_remaining := remaining_cents; bal_used := used_cents;
        bal_quota := limit_cents; bal_currency := Some "USD"%string; bal_limit_id := Some limit_id;
        bal_observed_at := observed; bal_expires_at := expires; bal_kind := Some OneTimeCredit;
        bal_title := title}}) in
    inr (balance, diagnostics).
End CreditModel.
