(* ===== verification/QuotaGrants.v ===== *)
(** Laws of the credit model's grant lists
    (crates/ottto-service/src/quota_credit_model.rs, [build_grants],
    [GrantsBuild::apply_to], [bounded_title]): order and cap, completeness,
    the soonest expiry, the reset sum, and titles. *)
From S2P Require Import Prelude Text Std PrivacyGuard StatusTypes QuotaCredits.
From coqutil Require Import Datatypes.RecordSetters.
Import DoubleBraceUpdate.
Local Open Scope Z_scope.

Section GrantLaws.
Context (sha256 : list Z -> list Z) (nfkc : string -> string) (time : TimeCrate)
  (grant_json_len : AgentCreditGrant -> option Z) (to_lowercase : Z -> list Z).
Abbreviation order := (grant_order time).
Abbreviation records_built := (build_records sha256 nfkc time grant_json_len to_lowercase).
Abbreviation read_built := (build_read sha256 nfkc time grant_json_len to_lowercase).

(** [None] sorts after every instant. *)
Definition order_key (grant : AgentCreditGrant) : (bool * Z) * string :=
  let expiry := grant_expires_at grant ≫= parse_instant time in
  ((if expiry is None then true else false, default 0 expiry), grant_key grant).
Lemma order_by_key a b : order a b = rcmp (order_key a) (order_key b).
Proof.
  unfold grant_order, order_key. rewrite rcmp_pair, rcmp_pair.
  destruct (grant_expires_at a ≫= _) as [x|], (grant_expires_at b ≫= _) as [y|]; try done.
  change (rcmp false false) with Eq. change (rcmp (default 0 (Some x)) (default 0 (Some y))) with (Z.compare x y).
  by destruct (x ?= y).
Qed.

(** [Ordered l]: soonest expiry first, no expiry last, then by key. *)
Definition Ordered : list AgentCreditGrant -> Prop := StronglySorted (not_after order_key).
Lemma sorted_grants l : sort_by order l ≡ₚ l /\ Ordered (sort_by order l).
Proof. split; [apply sort_by_perm|apply sort_by_sorted, order_by_key]. Qed.

(** ** The records, in any order *)
Lemma records_perm p l1 l2 :
  l1 ≡ₚ l2 ->
  (records_built p l1).1.1 ≡ₚ (records_built p l2).1.1 /\
  (records_built p l1).1.2 ≡ₚ (records_built p l2).1.2 /\
  (records_built p l1).2 = (records_built p l2).2.
Proof.
  induction 1 as [|x l1 l2 _ (H1 & H2 & H3)|x y l|l1 l2 l3 _ (A1 & A2 & A3) _ (B1 & B2 & B3)].
  - done.
  - cbn. destruct (build_grant _ _ _ _ _ p x) as [[[g b]|] ds],
      (records_built p l1) as [[g1 d1] p1], (records_built p l2) as [[g2 d2] p2]; cbn in *; subst;
      (split_and!; [|by rewrite H2|done]); [by rewrite H1|done].
  - cbn. destruct (build_grant _ _ _ _ _ p x) as [rx dx], (build_grant _ _ _ _ _ p y) as [ry dy],
      (records_built p l) as [[gs ds] ps].
    assert (dy ++ dx ++ ds ≡ₚ dx ++ dy ++ ds) as Hd.
    { rewrite !app_assoc. apply Permutation_app_tail, Permutation_app_comm. }
    destruct rx as [[gx bx]|], ry as [[gy b_y]|]; cbn; (split_and!; [|done|]); try done;
      [apply Permutation_swap|destruct bx, b_y|destruct bx|destruct b_y]; done.
  - split_and!; [by rewrite A1|by rewrite A2|congruence].
Qed.

(** The grants the records build, before the order and the cap, and whether a
    record was dropped or refused a state field. *)
Definition all_built (p : Provider) (records : list GrantInput) : list AgentCreditGrant :=
  (records_built p records).1.1.
Definition record_lost (p : Provider) (record : GrantInput) : bool :=
  match (build_grant sha256 nfkc time grant_json_len to_lowercase p record).1 with
  | Some (_, refused) => refused
  | None => true
  end.
Lemma records_lost p records : (records_built p records).2 = existsb (record_lost p) records.
Proof.
  induction records as [|r records IH]; cbn; [done|]. unfold record_lost at 1. rewrite <-IH.
  destruct (build_grant _ _ _ _ _ p r) as [[[g b]|] ds], (records_built p records) as [[gs d] l]; done.
Qed.

(** The enumeration is known to be whole: nothing lost, and the provider
    counts exactly the records. *)
Definition whole (p : Provider) (count : option Z) (records : list GrantInput) : bool :=
  negb (existsb (record_lost p) records) && bool_decide (count = Some (Z.of_nat (length records))).
(** It is known or feared to miss something. *)
Definition unsure (p : Provider) (count : option Z) (records : list GrantInput) : bool :=
  existsb (record_lost p) records
  || match count with Some n => n <? Z.of_nat (length records) | None => true end.
Definition state_of (p : Provider) (count : option Z) (records : list GrantInput) : CreditGrantsState :=
  if unsure p count records then Partial
  else if whole p count records && bool_decide (length (all_built p records) <= GRANTS_MAX)%nat then Complete
  else Capped.
Definition over (p : Provider) (records : list GrantInput) : bool :=
  bool_decide (GRANTS_MAX < length (all_built p records))%nat.

Lemma read_fields p count records at_ :
  let build := read_built p count records at_ in
  let sorted := sort_by order (all_built p records) in
  gb_grants build = Some (take GRANTS_MAX sorted) /\
  gb_grants_state build = Some (state_of p count records) /\
  gb_sender_capped build = whole p count records && over p records /\
  gb_sender_capped_next_expires_at build =
    (if whole p count records && over p records then next_expires_at time sorted else None) /\
  gb_provider build = Some p.
Proof.
  intros build sorted. subst build. unfold build_read, sorted, over, state_of, whole, unsure.
  pose proof (records_lost p records) as Hl. unfold all_built.
  destruct (bounded_grant_count count) as [gc cd], (records_built p records) as [[gs ds] lost].
  cbn [fst snd] in *. subst lost. rewrite (Permutation_length (sort_by_perm order gs)).
  cbn [gb_grants gb_grants_state gb_sender_capped gb_sender_capped_next_expires_at gb_provider].
  set (lost := existsb _ records). set (n := Z.of_nat (length records)).
  assert ((if bool_decide (GRANTS_MAX < length gs)%nat then take GRANTS_MAX (sort_by order gs) else sort_by order gs)
    = take GRANTS_MAX (sort_by order gs)) as ->.
  { case_bool_decide as Ho; [done|]. symmetry. apply take_ge. rewrite (Permutation_length (sort_by_perm order gs)). lia. }
  assert (bool_decide (length gs <= GRANTS_MAX)%nat = negb (bool_decide (GRANTS_MAX < length gs)%nat)) as ->.
  { repeat case_bool_decide; try done; lia. }
  assert (forall b1 b2, bool_decide (GRANTS_MAX < length gs)%nat && b1 && b2 =
    b1 && b2 && bool_decide (GRANTS_MAX < length gs)%nat) as Hand.
  { intros b1 b2. by destruct (bool_decide _), b1, b2. }
  rewrite !Hand.
  assert (forall c, c <> n -> bool_decide (Some c = Some n) = false) as Hne.
  { intros c Hc. apply bool_decide_eq_false_2. congruence. }
  destruct count as [c|].
  - destruct (Z.lt_trichotomy c n) as [Hc|[->|Hc]].
    + rewrite (proj2 (Z.ltb_lt c n)), (proj2 (Z.ltb_ge n c)), Hne by lia.
      rewrite !orb_true_r, !andb_false_r. done.
    + rewrite Z.ltb_irrefl, (bool_decide_eq_true_2 (Some n = Some n)) by done. rewrite !orb_false_r, !andb_true_r.
      split_and!; try done; by destruct lost, (bool_decide _).
    + rewrite (proj2 (Z.ltb_ge c n)), (proj2 (Z.ltb_lt n c)), Hne by lia.
      rewrite !orb_false_r, !andb_false_r. split_and!; try done; by destruct lost.
  - rewrite (bool_decide_eq_false_2 (None = Some n)) by done. rewrite !orb_true_r, !andb_false_r. done.
Qed.

(** ** One grant *)
Lemma and_then_value {A B} (m : Checked A) (f : A -> Checked B) : (and_then m f).1.1 = (f m.1.1).1.1.
Proof. unfold and_then. destruct m as [[x d] q]. cbn. by destruct (f x) as [[y d'] q']. Qed.
Lemma and_then_lost {A B} (m : Checked A) (f : A -> Checked B) : (and_then m f).2 = m.2 || (f m.1.1).2.
Proof. unfold and_then. destruct m as [[x d] q]. cbn. by destruct (f x) as [[y d'] q']. Qed.

Abbreviation time_of := (fun input => default None (normalize_time time input)).
Lemma checked_time_value input name : (checked_time time input name).1.1 = time_of input.
Proof. unfold checked_time. by destruct (normalize_time time input). Qed.
Lemma checked_time_lost input name : (checked_time time input name).2 = bool_decide (normalize_time time input = None).
Proof. unfold checked_time. by destruct (normalize_time time input). Qed.
Lemma shed_same g :
  let g' := (shed_clears grant_json_len (shed_title grant_json_len g).1.1).1.1 in
  grant_key g' = grant_key g /\ grant_status g' = grant_status g /\ granted_at g' = granted_at g /\
  starts_at g' = starts_at g /\ grant_expires_at g' = grant_expires_at g /\ resets_left g' = resets_left g /\
  (grant_title g' = None \/ grant_title g' = grant_title g).
Proof.
  assert (forall h, (shed_title grant_json_len h).1.1 = h \/
    (shed_title grant_json_len h).1.1 = h{{grant_title := None}}) as Ht.
  { intros h. unfold shed_title. destruct (grant_title h); [|by left].
    destruct (too_large grant_json_len h); [by right|by left]. }
  assert (forall h, (shed_clears grant_json_len h).1.1 = h \/
    (shed_clears grant_json_len h).1.1 = h{{clears := None}}) as Hc.
  { intros h. unfold shed_clears. destruct (clears h); [|by left].
    destruct (too_large grant_json_len h); [by right|by left]. }
  cbn zeta. destruct (Hc (shed_title grant_json_len g).1.1) as [->| ->], (Ht g) as [->| ->]; destruct g;
    split_and!; (done || (by left) || by right).
Qed.
Lemma grant_fields p id record :
  let g := (grant_of_record sha256 nfkc time grant_json_len to_lowercase p id record).1.1 in
  grant_key g = credit_grant_key sha256 p id /\ grant_status g = (checked_status (in_status record)).1.1 /\
  granted_at g = time_of (in_granted_at record) /\ starts_at g = time_of (in_starts_at record) /\
  grant_expires_at g = time_of (in_expires_at record) /\
  resets_left g = (bounded_resets (in_resets_left record) "grants[].resets_left").1.1 /\
  (grant_title g = None \/ grant_title g = (bounded_title nfkc to_lowercase (in_title record) "grants[].title").1).
Proof.
  unfold grant_of_record. rewrite !and_then_value, !checked_time_value.
  unfold checked_title. destruct (bounded_title _ _ _ _) as [title d]. cbn [fst].
  lazymatch goal with |- context [shed_title grant_json_len ?x] =>
    destruct (shed_same x) as (H1 & H2 & H3 & H4 & H5 & H6 & H7) end.
  cbn zeta.
  rewrite H1, H2, H3, H4, H5, H6. split_and!; done.
Qed.
Lemma all_built_elem p records g :
  g ∈ all_built p records ->
  exists record id, record ∈ records /\ in_id record = Value id /\ grant_id_is_valid p id = true /\
    g = (grant_of_record sha256 nfkc time grant_json_len to_lowercase p id record).1.1.
Proof.
  unfold all_built. induction records as [|r records IH]; cbn; [by intros ?%elem_of_nil|].
  destruct (records_built p records) as [[gs ds] l]. cbn in IH.
  assert (g ∈ gs -> exists record id, record ∈ r :: records /\ in_id record = Value id /\
    grant_id_is_valid p id = true /\ g = (grant_of_record sha256 nfkc time grant_json_len to_lowercase p id record).1.1) as Hrest.
  { intros Hg. destruct (IH Hg) as (record & id & Hr & Hid). exists record, id. split; [by right|done]. }
  unfold build_grant. destruct (in_id r) as [|id|] eqn:Eid; [done| |done].
  destruct (grant_id_is_valid p id) eqn:Ev; [|done].
  destruct (grant_of_record _ _ _ _ _ p id r) as [[g0 d0] p0] eqn:Eg. cbn.
  intros [->|Hg]%elem_of_cons; [|by apply Hrest]. exists r, id. split_and!; [by left|done..|]. by rewrite Eg.
Qed.

(** The reset counts are [u64] on input and at most [RESETS_MAX] once built. *)
Definition resets_u64 (record : GrantInput) : Prop :=
  match in_resets_left record with Value n => u64 n | _ => True end.
Lemma built_resets p records g n :
  Forall resets_u64 records -> g ∈ all_built p records -> resets_left g = Some n -> 0 <= n <= RESETS_MAX.
Proof.
  intros Hu Hg Hn. apply all_built_elem in Hg as (record & id & Hr & _ & _ & ->).
  destruct (grant_fields p id record) as (_ & _ & _ & _ & _ & Hl & _). rewrite Hl in Hn.
  rewrite Forall_forall in Hu. specialize (Hu _ Hr). unfold resets_u64, uint in Hu. unfold bounded_resets in Hn.
  destruct (in_resets_left record) as [|v|]; cbn in *; [done| |done].
  destruct (v <=? RESETS_MAX) eqn:E; cbn in *; [|done]. injection Hn as <-. zbool. lia.
Qed.

(** ** The soonest expiry *)
Definition counted_expiry (g : AgentCreditGrant) (text : string) (instant : Z) : Prop :=
  counts_toward_next_expiry g = true /\ grant_expires_at g = Some text /\ parse_instant time text = Some instant.
(** [t] is an earliest expiry among the available and paused grants of [l]. *)
Definition soonest (l : list AgentCreditGrant) (t : option Rfc3339Timestamp) : Prop :=
  match t with
  | Some text => exists g i, g ∈ l /\ counted_expiry g text i /\
      forall g' text' i', g' ∈ l -> counted_expiry g' text' i' -> i <= i'
  | None => forall g text i, g ∈ l -> ~ counted_expiry g text i
  end.
Lemma dated_expiries (l : list AgentCreditGrant) text i :
  (i, text) ∈ omap (dated time grant_expires_at) (filter counts_toward_next_expiry l) <->
  exists g, g ∈ l /\ counted_expiry g text i.
Proof.
  rewrite list_elem_of_omap. unfold counted_expiry. split.
  - intros (g & Hg & Hd). apply list_elem_of_filter in Hg as [Hc Hg]. exists g. unfold dated in Hd.
    destruct (grant_expires_at g) as [t|]; [|done]. destruct (parse_instant time t) eqn:E; [|done].
    injection Hd as <- <-. split_and!; [done|by apply Is_true_true|done|done].
  - intros (g & Hg & Hc & He & Hp). exists g. split; [apply list_elem_of_filter; split; [by apply Is_true_true|done]|].
    unfold dated. by rewrite He, Hp.
Qed.
Lemma next_expires_soonest l : soonest l (next_expires_at time l).
Proof.
  unfold next_expires_at. set (ds := omap (dated time grant_expires_at) _).
  pose proof (min_by_key_spec fst ds) as Hm. destruct (min_by_key fst ds) as [[i text]|]; cbn.
  - destruct Hm as [Hi Hm]. apply dated_expiries in Hi as (g & Hg & Hc). exists g, i. split_and!; [done..|].
    intros g' text' i' Hg' Hc'. apply (Hm (i', text')). apply dated_expiries. by exists g'.
  - intros g text i Hg Hc. assert ((i, text) ∈ ds) as H by (apply dated_expiries; by exists g).
    rewrite Hm in H. by apply elem_of_nil in H.
Qed.
Lemma soonest_perm l l' t : l ≡ₚ l' -> soonest l t -> soonest l' t.
Proof. intros Hp. unfold soonest. destruct t; by setoid_rewrite Hp. Qed.

(** ** Writing the section onto a balance *)
Lemma summarize_parts b p b' :
  summarize time b p = Some b' ->
  let complete := bool_decide (bal_grants_state b = Some Complete) in
  bal_grants_state b' = bal_grants_state b /\ bal_grants b' = bal_grants b /\
  bal_next_expires_at b' = (if complete then next_expires_at time (default [] (bal_grants b)) else None) /\
  bal_latest_granted_at b' = (if complete then latest_granted_at time (default [] (bal_grants b)) else None) /\
  (is_saved_resets b = true -> bal_status b' = status_for_remaining (bal_remaining b')) /\
  (is_saved_resets b = true -> p = Some Anthropic ->
    bal_remaining b' = if complete then sum_u64 (resets_remaining (default [] (bal_grants b))) else None) /\
  (p <> Some Anthropic -> bal_remaining b' = bal_remaining b).
Proof.
  unfold summarize. set (c := bool_decide (bal_grants_state b = Some Complete)). set (b1 := apply_update _ (apply_update _ b)).
  assert (is_saved_resets b1 = is_saved_resets b) as -> by by destruct b.
  destruct (is_saved_resets b) eqn:Hs; cbn [negb].
  - destruct (decide (p = Some Anthropic)) as [Hp|Hp];
      [rewrite (bool_decide_eq_true_2 (p = _)) by done|rewrite (bool_decide_eq_false_2 (p = _)) by done].
    + destruct c; [destruct (sum_u64 _) as [n|]; [|done]|]; intros <-%(inj Some); subst b1; destruct b; by split_and!.
    + intros <-%(inj Some). subst b1. destruct b; by split_and!.
  - intros <-%(inj Some). subst b1. destruct b; by split_and!.
Qed.
Lemma summarize_some b p n :
  sum_u64 (resets_remaining (default [] (bal_grants b))) = Some n -> is_Some (summarize time b p).
Proof.
  intros Hn. unfold summarize. rewrite Hn. destruct (negb _); [done|].
  destruct (bool_decide (p = Some Anthropic)); [|done]. by destruct (bool_decide _).
Qed.
Definition sum (l : list Z) : Z := foldr Z.add 0 l.
Lemma sum_perm l l' : l ≡ₚ l' -> sum l = sum l'.
Proof. unfold sum. induction 1; cbn in *; lia. Qed.
Lemma sum_u64_bounded m l :
  0 <= m -> Forall (fun n => 0 <= n <= m) l -> m * Z.of_nat (length l) < 2 ^ 64 ->
  sum_u64 l = Some (sum l) /\ 0 <= sum l <= m * Z.of_nat (length l).
Proof.
  intros Hm Hl Hb. unfold sum_u64.
  enough (forall acc k, 0 <= acc <= m * k -> m * (k + Z.of_nat (length l)) < 2 ^ 64 ->
    foldl (fun acc n => try? acc := acc in checked_add 64 acc n) (Some acc) l = Some (acc + sum l) /\
      0 <= sum l <= m * Z.of_nat (length l)) as H.
  { destruct (H 0 0) as [Ht Hb']; [lia..|]. split; [|lia]. by rewrite Ht. }
  clear Hb. induction Hl as [|n l Hn _ IH]; intros acc k Ha Hb; cbn [foldl sum foldr].
  - split; [f_equal; lia|]. cbn in *. lia.
  - cbn [length] in *. rewrite checked_add_eq by lia.
    rewrite (proj2 (Z.ltb_lt _ _)) by nia. destruct (IH (acc + n) (k + 1)) as [-> Hb']; [nia..|].
    unfold sum in *. split; [f_equal; lia|nia].
Qed.

Lemma complete_whole p count records :
  state_of p count records = Complete ->
  whole p count records = true /\ (length (all_built p records) <= GRANTS_MAX)%nat.
Proof.
  unfold state_of. destruct (unsure p count records); [done|]. destruct (whole p count records); [|done]. cbn.
  by case_bool_decide.
Qed.
Lemma whole_state p count records :
  whole p count records = true -> state_of p count records = if over p records then Capped else Complete.
Proof.
  unfold state_of, unsure, whole, over. intros H. zbool.
  match goal with H : bool_decide _ = true |- _ => apply bool_decide_eq_true in H; subst count end.
  repeat match goal with H : existsb _ _ = false |- _ => rewrite H end. rewrite Z.ltb_irrefl.
  rewrite bool_decide_eq_true_2 by done. cbn. repeat case_bool_decide; (done || lia).
Qed.
(** The section of a complete list is all of it, in order. *)
Lemma complete_list p count records :
  state_of p count records = Complete ->
  take GRANTS_MAX (sort_by order (all_built p records)) = sort_by order (all_built p records).
Proof.
  intros [_ H]%complete_whole. apply take_ge. by rewrite (Permutation_length (sort_by_perm order _)).
Qed.
Lemma apply_to_read p count records at_ b :
  let balance := b{{
    bal_grants := Some (take GRANTS_MAX (sort_by order (all_built p records)));
    bal_grants_state := Some (state_of p count records);
    bal_grant_count := gb_grant_count (read_built p count records at_);
    bal_grants_observed_at := gb_grants_observed_at (read_built p count records at_)}} in
  apply_to time (read_built p count records at_) b =
    (try? balance := summarize time balance (Some p) in
     Some (if whole p count records && over p records && bool_decide (bal_grants_state balance = Some Capped)
           then balance{{bal_next_expires_at := next_expires_at time (sort_by order (all_built p records))}}
           else balance,
           gb_diagnostics (read_built p count records at_))).
Proof.
  destruct (read_fields p count records at_) as (H1 & H2 & H3 & H4 & H5). cbn zeta. unfold apply_to.
  rewrite H1, H2, H3, H4, H5. destruct (summarize _ _ _) as [b1|]; [|done].
  by destruct (whole p count records && over p records).
Qed.
Lemma apply_to_expiry p count records at_ b b' ds :
  apply_to time (read_built p count records at_) b = Some (b', ds) ->
  bal_grants b' = Some (take GRANTS_MAX (sort_by order (all_built p records))) /\
  bal_grants_state b' = Some (state_of p count records) /\
  bal_next_expires_at b' =
    (if whole p count records then next_expires_at time (sort_by order (all_built p records)) else None).
Proof.
  rewrite apply_to_read. cbn zeta. destruct (summarize _ _ _) as [b1|] eqn:Hs; [|done]. intros [= <- _].
  apply summarize_parts in Hs as (H1 & H2 & H3 & _).
  assert (bal_grants_state b1 = Some (state_of p count records)) as Hst by by rewrite H1; destruct b.
  assert (bal_grants b1 = Some (take GRANTS_MAX (sort_by order (all_built p records)))) as Hg by by rewrite H2; destruct b.
  rewrite <-H1, <-H2, Hst, Hg in H3. cbn [default] in H3. rewrite Hst. clear H1 H2.
  destruct (whole p count records) eqn:Hw; cbn [andb].
  - pose proof (whole_state _ _ _ Hw) as Hws. destruct (over p records) eqn:Ho; rewrite Hws in *; cbn [andb].
    + rewrite bool_decide_eq_true_2 by done. by destruct b1.
    + split_and!; [done..|]. rewrite H3, bool_decide_eq_true_2 by done.
      change (default [] (Some ?l)) with l. by rewrite (complete_list p count records).
  - split_and!; [done..|]. rewrite H3, bool_decide_eq_false_2; [done|].
    intros [= Hc]. apply complete_whole in Hc as [Hc _]. congruence.
Qed.

(** C20: A grant list is the records' grants, soonest expiry first and then by
    key, cut at twenty.  It is [Complete] exactly when nothing was lost, the
    provider counts exactly the records and the cap cut nothing; [Partial]
    exactly when a record was dropped or refused a state field, the count is
    unknown or it is below the records returned; [Capped] otherwise. *)
Theorem grants_read_exact p count records at_ :
  let build := build_grants sha256 nfkc time grant_json_len to_lowercase (Read p count records at_) in
  exists sorted, sorted ≡ₚ all_built p records /\ Ordered sorted /\
    gb_grants build = Some (take GRANTS_MAX sorted) /\
    (gb_grants_state build = Some Complete <->
      existsb (record_lost p) records = false /\ count = Some (Z.of_nat (length records)) /\
      (length (all_built p records) <= GRANTS_MAX)%nat) /\
    (gb_grants_state build = Some Partial <->
      existsb (record_lost p) records = true \/
      match count with Some n => n < Z.of_nat (length records) | None => True end) /\
    gb_grants_state build ∈ [Some Complete; Some Partial; Some Capped].
Proof.
  cbn zeta. cbn [build_grants]. destruct (read_fields p count records at_) as (Hg & Hs & _).
  exists (sort_by order (all_built p records)). destruct (sorted_grants (all_built p records)) as [Hp Ho].
  rewrite Hg, Hs. split_and!; [done..| | |].
  - split.
    + intros [= H]. apply complete_whole in H as [Hw Hl]. unfold whole in Hw. zbool. split_and!; [done| |done].
      by match goal with H : bool_decide _ = true |- _ => apply bool_decide_eq_true in H end.
    + intros (Hl & -> & Hn). unfold state_of, unsure, whole. rewrite Hl, Z.ltb_irrefl. cbn [negb andb orb].
      by rewrite !bool_decide_eq_true_2.
  - unfold state_of. destruct (unsure p count records) eqn:Hu.
    + split; [intros _|done]. unfold unsure in Hu. apply orb_true_iff in Hu as [Hu|Hu]; [by left|right].
      destruct count; [by zbool|done].
    + unfold unsure in Hu. zbool. split; [destruct (whole p count records && _); done|]. intros [Hx|Hx]; [congruence|].
      destruct count; [zbool; lia|done].
  - unfold state_of. repeat case_match; set_solver.
Qed.

(** The order the provider lists its records in does not matter: with
    distinct grant keys, any reordering gives the same grants, state, count and
    soonest expiry, and the same diagnostics up to their order. *)
Theorem grants_order_independent p count records records' at_ :
  records ≡ₚ records' -> NoDup (grant_key <$> all_built p records) ->
  let build := read_built p count records at_ in
  let build' := read_built p count records' at_ in
  gb_grants build = gb_grants build' /\ gb_grants_state build = gb_grants_state build' /\
  gb_grant_count build = gb_grant_count build' /\
  gb_sender_capped_next_expires_at build = gb_sender_capped_next_expires_at build' /\
  gb_diagnostics build ≡ₚ gb_diagnostics build'.
Proof.
  intros Hp Hn. cbn zeta. destruct (records_perm p records records' Hp) as (Hg & Hd & Hl).
  assert (sort_by order (records_built p records).1.1 = sort_by order (records_built p records').1.1) as Hs.
  { apply (sort_by_canonical order_key); [exact order_by_key|done|].
    unfold all_built in Hn. revert Hn. generalize (records_built p records).1.1. intros l Hn.
    apply NoDup_fmap_1 with (f := snd). by rewrite <-list_fmap_compose. }
  unfold build_read. rewrite <-(Permutation_length Hp).
  destruct (records_built p records) as [[gs ds] l], (records_built p records') as [[gs' ds'] l']. cbn [fst snd] in *.
  subst l'. rewrite <-Hs. destruct (bounded_grant_count count) as [gc cd].
  cbn [gb_grants gb_grants_state gb_grant_count gb_sender_capped_next_expires_at gb_diagnostics].
  split_and!; [done..|]. by rewrite Hd.
Qed.

(** The soonest expiry is exact or absent.  When the whole enumeration was
    read, even one the twenty-grant cap cut, the balance carries an earliest
    expiry among all the available and paused grants, none exactly when none of
    them has one; any other list carries none. *)
Theorem next_expiry_exact p count records at_ b b' ds :
  apply_to time (build_grants sha256 nfkc time grant_json_len to_lowercase (Read p count records at_)) b
    = Some (b', ds) ->
  if whole p count records then soonest (all_built p records) (bal_next_expires_at b')
  else bal_next_expires_at b' = None.
Proof.
  intros H. apply apply_to_expiry in H as (_ & _ & ->). destruct (whole p count records); [|done].
  eapply soonest_perm; [apply (sort_by_perm order)|]. apply next_expires_soonest.
Qed.

(** The resets of the listed grants: few, small, so their sum fits. *)
Lemma listed_resets p records :
  Forall resets_u64 records ->
  let l := resets_remaining (take GRANTS_MAX (sort_by order (all_built p records))) in
  Forall (fun n => 0 <= n <= RESETS_MAX) l /\ (length l <= GRANTS_MAX)%nat.
Proof.
  intros Hu. cbn zeta. split.
  - apply Forall_forall. intros n Hn. apply list_elem_of_omap in Hn as (g & Hg & Hr).
    apply list_elem_of_filter in Hg as [_ Hg]. apply (built_resets p records g); [done| |done].
    rewrite <-(sort_by_perm order). eapply elem_of_sublist; [exact Hg|]. apply sublist_take.
  - unfold resets_remaining. etrans; [apply length_omap|]. etrans; [apply length_filter|].
    rewrite length_take. lia.
Qed.
(** Anthropic's saved resets are counted from a complete list and from
    nothing else: the count is the sum over the grants that are not paused, at
    most 20,000, so it never overflows; every other list leaves it unknown.  The
    status is the count's. *)
Theorem saved_resets_counted count records at_ b :
  Forall resets_u64 records -> is_saved_resets b = true ->
  exists b' ds,
    apply_to time (build_grants sha256 nfkc time grant_json_len to_lowercase (Read Anthropic count records at_)) b
      = Some (b', ds) /\
    bal_remaining b' =
      (if bool_decide (bal_grants_state b' = Some Complete)
       then Some (sum (resets_remaining (all_built Anthropic records))) else None) /\
    (forall n, bal_remaining b' = Some n -> 0 <= n <= 20 * RESETS_MAX) /\
    bal_status b' = status_for_remaining (bal_remaining b').
Proof.
  intros Hu Hb. cbn [build_grants]. rewrite apply_to_read. cbn zeta.
  destruct (listed_resets Anthropic records Hu) as [Hl Hn].
  set (all := all_built Anthropic records) in *. set (l := take GRANTS_MAX (sort_by order all)) in *.
  set (b0 := apply_update _ (apply_update _ (apply_update _ (apply_update _ b)))).
  destruct (sum_u64_bounded RESETS_MAX (resets_remaining l)) as [Hsum Hbound]; [done..| |].
  { unfold RESETS_MAX, GRANTS_MAX in *. lia. }
  destruct (summarize_some b0 (Some Anthropic) (sum (resets_remaining l))) as [b1 E]; [exact Hsum|].
  pose proof (summarize_parts _ _ _ E) as (Hs & Hg & _ & _ & Hst & Hrem & _). cbn zeta in Hrem.
  assert (bal_grants_state b0 = Some (state_of Anthropic count records)) as Hs0 by by destruct b.
  change (default [] (bal_grants b0)) with l in Hrem.
  rewrite E. set (c := whole Anthropic count records && _ && _). set (b' := if c then _ else b1). exists b', (gb_diagnostics (read_built Anthropic count records at_)).
  assert (bal_remaining b' = bal_remaining b1 /\ bal_status b' = bal_status b1 /\ bal_grants_state b' = bal_grants_state b1)
    as (-> & -> & ->) by (subst b'; by destruct c, b1).
  assert (is_saved_resets b0 = true) as Hb0 by (rewrite <-Hb; by destruct b).
  rewrite (Hst Hb0), (Hrem Hb0 eq_refl), Hs, Hs0.
  split_and!; [done| | |done].
  - destruct (bool_decide _) eqn:Hc; [|done]. apply bool_decide_eq_true in Hc. injection Hc as Hc.
    rewrite Hsum. f_equal. subst l all.
    rewrite (complete_list _ _ _ Hc). unfold resets_remaining.
    apply sum_perm. by rewrite (sort_by_perm order).
  - intros n. destruct (bool_decide _); [|done]. rewrite Hsum. intros [= <-]. unfold RESETS_MAX, GRANTS_MAX in *. lia.
Qed.

(** ** Titles *)
Lemma cut_title_spec count len cs :
  0 <= count <= TITLE_MAX_CHARS -> 0 <= len <= TITLE_MAX_BYTES ->
  exists rest, cs = cut_title count len cs ++ rest /\
    count + Z.of_nat (length (cut_title count len cs)) <= TITLE_MAX_CHARS /\
    len + Z.of_nat (length (encode_chars (cut_title count len cs))) <= TITLE_MAX_BYTES /\
    match rest with
    | [] => True
    | ch :: _ => count + Z.of_nat (length (cut_title count len cs)) = TITLE_MAX_CHARS \/
        TITLE_MAX_BYTES < len + Z.of_nat (length (encode_chars (cut_title count len cs))) + len_utf8 ch
    end.
Proof.
  revert count len. induction cs as [|ch cs IH]; intros count len Hc Hl; cbn [cut_title].
  - exists []. cbn. split_and!; (done || lia).
  - pose proof (len_utf8_bound ch) as Hb.
    destruct ((count =? TITLE_MAX_CHARS) || (TITLE_MAX_BYTES <? len + len_utf8 ch)) eqn:E.
    + exists (ch :: cs). cbn. split_and!; [done|lia..|].
      apply orb_true_iff in E as [E|E]; zbool; [left|right]; lia.
    + zbool. destruct (IH (count + 1) (len + len_utf8 ch)) as (rest & Hr & Hn & Hbytes & Hmax); [lia..|].
      exists rest. cbn [app length encode_chars]. rewrite length_app, !Nat2Z.inj_add, Nat2Z.inj_succ, length_encode_char.
      split_and!; [by f_equal|lia..|]. destruct rest as [|ch' rest]; [done|].
      destruct Hmax as [Hmax|Hmax]; [left|right]; lia.
Qed.

(** A display title is bounded without hiding a leak.  Whatever is kept is
    a prefix of the provider's text at a character boundary, at most 128
    characters and 512 bytes and as long as those allow; the whole text passed
    the privacy check first, so no part of the kept title spells a forbidden
    fragment, disguised or not. *)
Theorem titles_bounded text name title :
  LowercaseOk to_lowercase -> utf8 text -> (bounded_title nfkc to_lowercase (Value text) name).1 = Some title ->
  exists rest, chars text = chars title ++ rest /\ utf8 title /\
    Z.of_nat (length (chars title)) <= TITLE_MAX_CHARS /\ str_len title <= TITLE_MAX_BYTES /\
    match rest with
    | [] => True
    | ch :: _ => Z.of_nat (length (chars title)) = TITLE_MAX_CHARS \/
        TITLE_MAX_BYTES < str_len title + len_utf8 ch
    end /\
    existsb is_control (chars title) = false /\
    forall fragment disguise pre post, fragment ∈ leak_fragments -> spells fragment disguise ->
      chars title <> pre ++ disguise ++ post.
Proof.
  intros Hl Hu. cbn [bounded_title]. destruct (str_len text =? 0) eqn:E0; [done|].
  destruct (negb _ || _) eqn:Esafe; [done|]. zbool. unfold is_privacy_safe_display_text in *. zbool.
  match goal with H : is_backend_safe_credit_text _ text = true |- _ => rename H into Hsafe end.
  match goal with H : existsb is_control _ = false |- _ => rename H into Hcontrol end.
  assert (forall t rest, chars text = chars t ++ rest -> existsb is_control (chars t) = false /\
    forall fragment disguise pre post, fragment ∈ leak_fragments -> spells fragment disguise ->
      chars t <> pre ++ disguise ++ post) as Hclean.
  { intros t rest Hr. rewrite Hr, existsb_app in Hcontrol. zbool. split; [done|].
    intros fragment disguise pre post Hf Hd Ht.
    apply (credit_text_hides_nothing to_lowercase text fragment pre disguise (post ++ rest)); try done.
    rewrite Hr, Ht. by rewrite <-!app_assoc. }
  pose proof (utf8_chars text Hu) as [Ht Hscalar].
  destruct (_ && _) eqn:Efit; cbn; intros [= <-].
  - zbool. exists []. rewrite app_nil_r. split_and!; try done; apply (Hclean text []); by rewrite app_nil_r.
  - destruct (cut_title_spec 0 0 (chars text)) as (rest & Hr & Hn & Hb & Hmax); [done..|].
    set (cut := cut_title 0 0 (chars text)) in *.
    assert (Forall scalar cut) as Hcut.
    { rewrite Hr in Hscalar. by apply Forall_app in Hscalar as [? _]. }
    assert (chars (of_chars cut) = cut) as Hc by by apply chars_of_chars.
    rewrite Hc, str_len_of_chars by done. exists rest. split_and!; [done|by exists cut|lia|lia| | |].
    + destruct rest; [done|]. rewrite !Z.add_0_l in Hmax. exact Hmax.
    + rewrite <-Hc. apply (Hclean _ rest). by rewrite Hc.
    + rewrite <-Hc. apply (Hclean _ rest). by rewrite Hc.
Qed.
End GrantLaws.
