(* ===== verification/QuotaUpload.v ===== *)
(** From the provider's grant records to the backend copy: a grant section
    the credit model builds passes the redaction whole
    (crates/ottto-service/src/quota_credit_model.rs with
    crates/ottto-protocol/src/lib.rs), and concrete instances of the external
    crates for the credit model's theorems. *)
From S2P Require Import Prelude Text Std PrivacyGuard StatusTypes Redaction RedactionSafety QuotaCredits QuotaGrants.
From coqutil Require Import Datatypes.RecordSetters.
Import DoubleBraceUpdate.
Local Open Scope Z_scope.

(** What the [time] crate promises: the text it formats is RFC 3339 and parses
    back to the same instant. *)
Record TimeOk (time : TimeCrate) : Prop := {
  format_parses : forall i text, format_utc time i = Some text -> time_parse time text = Some i;
  format_rfc3339 : forall i text, format_utc time i = Some text -> is_rfc3339_instant text = true;
}.
(** A SHA-256 digest is 32 bytes. *)
Definition DigestOk (sha256 : list Z -> list Z) : Prop :=
  forall bytes, length (sha256 bytes) = 32%nat /\ Forall u8 (sha256 bytes).

Lemma hex_digit_key n : (n < 16)%nat ->
  is_ascii_digit (nth n HEX 0) || ((97 <=? nth n HEX 0) && (nth n HEX 0 <=? 102)) = true.
Proof.
  intros Hn. assert (Forall (fun n => is_ascii_digit (nth n HEX 0)
    || ((97 <=? nth n HEX 0) && (nth n HEX 0 <=? 102)) = true) (seq 0 16)) as H by by repeat constructor.
  rewrite Forall_forall in H. apply H, elem_of_seq. lia.
Qed.
Lemma hex_is_key bytes :
  length bytes = 32%nat -> Forall u8 bytes -> is_credit_grant_key (of_bytes (hex_encode bytes)) = true.
Proof.
  intros Hl Hu. unfold is_credit_grant_key, str_len. rewrite as_of_bytes by apply hex_encode_u8.
  rewrite length_hex_encode, Hl. cbn [Z.eqb Nat.mul Nat.add Z.of_nat]. apply andb_true_iff. split; [done|].
  clear Hl. induction Hu as [|b bytes Hb _ IH]; [done|]. cbn [hex_encode forallb].
  unfold uint in Hb. rewrite !hex_digit_key, IH; [done| |].
  - pose proof (Z.land_spec b 15 0). rewrite (land_low_mod 4) by lia. pose proof (Z.mod_pos_bound b (2 ^ 4) eq_refl). lia.
  - rewrite Z.shiftr_div_pow2 by lia. assert (0 <= b / 2 ^ 4 < 16); [|lia].
    split; [apply Z.div_pos; lia|apply Z.div_lt_upper_bound; lia].
Qed.

Section Upload.
Context (sha256 : list Z -> list Z) (nfkc : string -> string) (time : TimeCrate)
  (grant_json_len : AgentCreditGrant -> option Z) (to_lowercase : Z -> list Z).
Context (Hsha : DigestOk sha256) (Htime : TimeOk time).
Abbreviation built := (all_built sha256 nfkc time grant_json_len to_lowercase).

Lemma normalized_instant input text : normalize_time time input = Some (Some text) -> is_rfc3339_instant text = true.
Proof.
  destruct input as [|raw|seconds|]; cbn; [done| | |done].
  - destruct (time_parse time _) as [i|]; [|done]. destruct (format_utc time i) eqn:E; [|done].
    intros [= <-]. by eapply format_rfc3339.
  - destruct (from_unix_timestamp time seconds) as [i|]; [|done]. destruct (format_utc time i) eqn:E; [|done].
    intros [= <-]. by eapply format_rfc3339.
Qed.
Lemma time_of_sound input : refused_time (default None (normalize_time time input)) = false.
Proof.
  destruct (normalize_time time input) as [[text|]|] eqn:E; [|done..]. cbn.
  by rewrite (normalized_instant _ _ E).
Qed.
Lemma built_grant_sound p records g :
  g ∈ built p records ->
  is_credit_grant_key (grant_key g) = true /\ refused_time (granted_at g) = false /\
  refused_time (starts_at g) = false /\ refused_time (grant_expires_at g) = false.
Proof.
  intros Hg. apply all_built_elem in Hg as (record & id & _ & _ & _ & ->).
  destruct (grant_fields sha256 nfkc time grant_json_len to_lowercase p id record) as (-> & _ & -> & -> & -> & _).
  rewrite !time_of_sound. split_and!; try done. unfold credit_grant_key. by apply hex_is_key; apply Hsha.
Qed.
Lemma built_list_whole p records n :
  list_degraded (Some (take n (sort_by (grant_order time) (built p records)))) = false.
Proof.
  set (l := take n _).
  assert (Forall (fun g => g ∈ built p records) l) as Hl.
  { apply Forall_forall. intros g Hg. rewrite <-(sort_by_perm (grant_order time)).
    eapply elem_of_sublist; [exact Hg|]. apply sublist_take. }
  unfold list_degraded. assert (retained_grants l = l) as ->.
  { apply filter_all. eapply Forall_impl; [exact Hl|]. intros g Hg. cbn.
    apply built_grant_sound in Hg as [Hk _]. by rewrite Hk. }
  rewrite bool_decide_eq_true_2 by done. cbn [negb orb].
  induction Hl as [|g l' Hg _ IH]; [done|]. cbn [existsb]. rewrite IH.
  apply built_grant_sound in Hg as (_ & H1 & H2 & H3). unfold grant_degrades. by rewrite H1, H2, H3.
Qed.
Lemma soonest_instant l text : soonest time l (Some text) ->
  (forall g, g ∈ l -> refused_time (grant_expires_at g) = false) -> is_rfc3339_instant text = true.
Proof.
  intros (g & i & Hg & (_ & He & _) & _) Hs. specialize (Hs g Hg). rewrite He in Hs. cbn in Hs.
  by apply negb_false_iff in Hs.
Qed.

(** What a reader keys and counts a grant by. *)
Definition vital (g : AgentCreditGrant) : string * CreditGrantStatus * list (option Rfc3339Timestamp) * option Z :=
  (grant_key g, grant_status g, [granted_at g; starts_at g; grant_expires_at g], resets_left g).
Lemma unrefused_kept t : refused_time t = false -> opt_filter is_rfc3339_instant t = t.
Proof. destruct t as [text|]; cbn; [|done]. intros H. apply negb_false_iff in H. by rewrite H. Qed.
Lemma redact_grant_vital g : grant_degrades g = false -> vital (redact_grant to_lowercase g) = vital g.
Proof.
  unfold grant_degrades. intros H. zbool. destruct g. unfold vital. cbn in *. by rewrite !unrefused_kept.
Qed.
Lemma whole_list_kept l :
  list_degraded (Some l) = false -> vital <$> (redact_grant to_lowercase <$> retained_grants l) = vital <$> l.
Proof.
  cbn. intros H. zbool. apply bool_decide_eq_true in H.
  match goal with H : existsb _ _ = false |- _ => rename H into Hd end.
  assert (retained_grants l = l) as E.
  { unfold retained_grants in *. clear Hd. induction l as [|g l IH]; [done|]. destruct (decide (is_credit_grant_key (grant_key g))).
    - rewrite filter_cons_True in * by done. cbn in H. f_equal. apply IH. lia.
    - rewrite filter_cons_False in * by done. pose proof (length_filter (fun g => is_credit_grant_key (grant_key g)) l).
      cbn in H. lia. }
  rewrite E in *. clear H E. induction l as [|g l IH]; [done|]. cbn [existsb] in Hd. zbool.
  rewrite !fmap_cons, redact_grant_vital, IH; done.
Qed.
Lemma redact_keeps_section c l :
  bal_grants c = Some l -> list_degraded (Some l) = false ->
  refused_time (bal_next_expires_at c) = false ->
  forall c', redact_credit_balance_for_backend to_lowercase c = Some c' ->
  bal_grants_state c' = bal_grants_state c /\ bal_next_expires_at c' = bal_next_expires_at c /\
  bal_remaining c' = bal_remaining c /\ bal_grants c' = Some (redact_grant to_lowercase <$> retained_grants l).
Proof.
  intros Hg Hd Hn c'. unfold redact_credit_balance_for_backend. destruct (negb _); [done|].
  assert (bal_grants (redact_credit_fields to_lowercase c) = Some l) as Hf by by destruct c.
  unfold redact_credit_grants. rewrite Hf, Hd. destruct (credit_grants_unavailable_cause_allowed _);
    intros <-%(inj Some); destruct c; cbn in *; subst; (split_and!; [done| |done..]); by rewrite unrefused_kept.
Qed.

(** A grant list survives the upload.  For every list the credit model
    builds and writes onto a balance, the redaction keeps the completeness
    state, the soonest expiry, the saved-reset count and every grant with its
    key, status, times and count: it never finds a grant to drop or a time to
    refuse, so a complete list is uploaded as complete. *)
Theorem built_section_survives p count records at_ b b' ds c :
  apply_to time (build_grants sha256 nfkc time grant_json_len to_lowercase (Read p count records at_)) b
    = Some (b', ds) ->
  redact_credit_balance_for_backend to_lowercase b' = Some c ->
  bal_grants_state c = bal_grants_state b' /\ bal_next_expires_at c = bal_next_expires_at b' /\
  bal_remaining c = bal_remaining b' /\
  (vital <$> default [] (bal_grants c)) = (vital <$> default [] (bal_grants b')).
Proof.
  intros H Hc. apply apply_to_expiry in H as (Hg & _ & Hn).
  set (l := take GRANTS_MAX _) in Hg. pose proof (built_list_whole p records GRANTS_MAX) as Hwhole. fold l in Hwhole.
  assert (refused_time (bal_next_expires_at b') = false) as Hvalid.
  { rewrite Hn. destruct (whole _ _ _ _ _ _ _ _); [|done].
    set (sorted := sort_by _ _). pose proof (next_expires_soonest time sorted) as Hsoon.
    destruct (next_expires_at time sorted) as [text|]; [|done]. cbn.
    rewrite (soonest_instant _ _ Hsoon); [done|]. intros g Hx. unfold sorted in Hx. rewrite sort_by_perm in Hx.
    by apply built_grant_sound in Hx as (_ & _ & _ & ?). }
  destruct (redact_keeps_section _ _ Hg Hwhole Hvalid _ Hc) as (-> & -> & -> & ->). split_and!; [done..|].
  rewrite Hg. cbn [default]. by apply whole_list_kept.
Qed.
End Upload.

(** ** Concrete crates and readings *)
Definition sample_instants : list (string * Z) :=
  [("2026-02-19T10:00:01Z", 1); ("2026-02-19T10:00:02Z", 2); ("2026-02-19T10:00:03Z", 3)]%string.
Definition sample_time : TimeCrate := {|
  time_parse text := snd <$> head (filter (fun e => e.1 = text) sample_instants);
  format_utc i := fst <$> head (filter (fun e => e.2 = i) sample_instants);
  from_unix_timestamp s := Some s |}.
Definition sample_sha256 (bytes : list Z) : list Z := take 32 ((fun b => b mod 256) <$> bytes ++ replicate 32 0).
Definition sample_json_len (g : AgentCreditGrant) : option Z := Some 200.
Lemma sample_time_ok : TimeOk sample_time.
Proof.
  assert (forall i text, format_utc sample_time i = Some text -> (text, i) ∈ sample_instants) as H.
  { intros i text. cbn [format_utc sample_time]. destruct (filter _ _) as [|[t j] rest] eqn:E; [done|].
    intros [= <-]. assert ((t, j) ∈ filter (fun e : string * Z => e.2 = i) sample_instants) as Hx by (rewrite E; by left).
    apply list_elem_of_filter in Hx as [<- Hx]. done. }
  assert (Forall (fun e => time_parse sample_time e.1 = Some e.2 /\ is_rfc3339_instant e.1 = true) sample_instants) as Ha.
  { repeat constructor. }
  rewrite Forall_forall in Ha. split; intros i text Ht; by destruct (Ha _ (H _ _ Ht)).
Qed.
Lemma sample_digest_ok : DigestOk sample_sha256.
Proof.
  intros bytes. unfold sample_sha256. split.
  - rewrite length_take, length_fmap, length_app, length_replicate. lia.
  - apply Forall_take, Forall_fmap, Forall_true. intros b. pose proof (Z.mod_pos_bound b 256 eq_refl). done.
Qed.
Definition sample_record (id status : string) (expires : TimeInput) (left_ : Z) : GrantInput :=
  mkGrantInput (Value id) (Value "codexRateLimits"%string) (Reported (Value status)) (UnixSeconds 1) TimeAbsent expires
    Absent (Value left_) Absent (Value "Spring promo"%string) (Value true).
Definition sample_records : list GrantInput := [
  sample_record "b" "available" (TimeRfc3339 "2026-02-19T10:00:03Z") 2;
  sample_record "a" "paused" (TimeRfc3339 "2026-02-19T10:00:02Z") 7;
  sample_record "c" "redeemed" (TimeRfc3339 "2026-02-19T10:00:01Z") 5]%string.
Abbreviation sample_build p records :=
  (build_grants sample_sha256 id sample_time sample_json_len ascii_to_lowercase
    (Read p (Some 3) records "2026-02-19T10:00:01Z")).
Abbreviation sample_built p records :=
  (all_built sample_sha256 id sample_time sample_json_len ascii_to_lowercase p records).

Lemma grants_order_independent_witness :
  gb_grants (sample_build OpenAi sample_records) = gb_grants (sample_build OpenAi (reverse sample_records)).
Proof.
  apply (grants_order_independent sample_sha256 id sample_time sample_json_len ascii_to_lowercase OpenAi (Some 3)
    sample_records (reverse sample_records)).
  - rewrite reverse_Permutation. reflexivity.
  - apply (bool_decide_unpack _). vm_compute. exact I.
Defined.
Definition sample_applied (p : Provider) : AgentCreditBalance * list CreditModelDiagnostic :=
  default (sample_balance, []) (apply_to sample_time (sample_build p sample_records) sample_balance).
Lemma sample_applied_eq p :
  apply_to sample_time (sample_build p sample_records) sample_balance = Some ((sample_applied p).1, (sample_applied p).2).
Proof. destruct p; vm_compute; reflexivity. Qed.
Lemma next_expiry_exact_witness :
  bal_next_expires_at (sample_applied OpenAi).1 = Some "2026-02-19T10:00:02Z"%string /\
  soonest sample_time (sample_built OpenAi sample_records) (bal_next_expires_at (sample_applied OpenAi).1).
Proof.
  split; [vm_compute; reflexivity|].
  exact (next_expiry_exact sample_sha256 id sample_time sample_json_len ascii_to_lowercase OpenAi (Some 3)
    sample_records "2026-02-19T10:00:01Z" sample_balance _ _ (sample_applied_eq OpenAi)).
Defined.
Lemma saved_resets_counted_witness :
  Forall resets_u64 sample_records /\
  exists b' ds, apply_to sample_time (sample_build Anthropic sample_records) sample_balance = Some (b', ds) /\
    bal_status b' = status_for_remaining (bal_remaining b').
Proof.
  assert (Forall resets_u64 sample_records) as H by (repeat constructor; discriminate).
  split; [exact H|].
  destruct (saved_resets_counted sample_sha256 id sample_time sample_json_len ascii_to_lowercase (Some 3) sample_records
    "2026-02-19T10:00:01Z" sample_balance H eq_refl) as (b' & ds & Ha & Hr & _ & Hs).
  exists b', ds. split; [exact Ha|exact Hs].
Defined.
(** Two available resets and five redeemed ones: the seven of the paused grant do not count. *)
Example saved_resets_of_sample : bal_remaining (sample_applied Anthropic).1 = Some 7.
Proof. vm_compute. reflexivity. Qed.
Lemma titles_bounded_witness :
  exists rest, chars (String.concat "" (replicate 130 "x"%string)) =
    chars (of_chars (cut_title 0 0 (replicate 130 120))) ++ rest /\ length rest = 2%nat.
Proof.
  destruct (titles_bounded id ascii_to_lowercase (String.concat "" (replicate 130 "x"%string)) "title"
    (of_chars (cut_title 0 0 (replicate 130 120)))) as (rest & Hr & _).
  - exact ascii_lowercase_ok.
  - exists (replicate 130 120). split; [|vm_compute; reflexivity].
    apply Forall_replicate. apply (bool_decide_unpack _). exact I.
  - vm_compute. reflexivity.
  - exists rest. split; [exact Hr|]. apply (f_equal length) in Hr. vm_compute in Hr.
    rewrite Nat.add_comm in Hr || idtac. cbn in Hr. injection Hr as Hr. symmetry. exact Hr.
Defined.
Lemma built_section_survives_witness :
  exists c, redact_credit_balance_for_backend ascii_to_lowercase (sample_applied OpenAi).1 = Some c /\
    bal_grants_state c = Some Complete.
Proof.
  eexists. split; [vm_compute; reflexivity|].
  etransitivity.
  - apply (built_section_survives sample_sha256 id sample_time sample_json_len ascii_to_lowercase sample_digest_ok
      sample_time_ok OpenAi (Some 3) sample_records "2026-02-19T10:00:01Z" sample_balance _ _ _
      (sample_applied_eq OpenAi)). vm_compute. reflexivity.
  - vm_compute. reflexivity.
Defined.
