(* ===== verification/SectionCache.v ===== *)
(** Sender stability across read cadence
    (crates/ottto-service/src/quota_credit_model.rs, [SectionCache]): the
    cache of the last observed credit sections, bounded by evicting the section
    stored longest ago, refines a recency list of observations. *)
From S2P Require Import Prelude Std OrdMap StatusTypes QuotaCredits.
From coqutil Require Import Datatypes.RecordSetters.
Import DoubleBraceUpdate.
Local Open Scope Z_scope.

(** ** Data *)
Record GrantListSection := mkListSection {
  ls_grant_count : option Z;
  ls_grants : list AgentCreditGrant;
  ls_grants_state : CreditGrantsState;
  ls_grants_observed_at : option Rfc3339Timestamp;
  ls_next_expires_at : option Rfc3339Timestamp;
  ls_latest_granted_at : option Rfc3339Timestamp;
}.
Definition from_balance (balance : AgentCreditBalance) : option GrantListSection :=
  try? grants := bal_grants balance in
  try? state := bal_grants_state balance in
  Some (mkListSection (bal_grant_count balance) grants state (bal_grants_observed_at balance)
          (bal_next_expires_at balance) (bal_latest_granted_at balance)).
(** [GrantListSection::apply_to]. *)
Definition apply_section (s : GrantListSection) (balance : AgentCreditBalance) : AgentCreditBalance :=
  let balance := balance{{
    bal_grant_count := ls_grant_count s; bal_grants := Some (ls_grants s);
    bal_grants_state := Some (ls_grants_state s); bal_grants_observed_at := ls_grants_observed_at s;
    bal_next_expires_at := ls_next_expires_at s; bal_latest_granted_at := ls_latest_granted_at s}} in
  if is_saved_resets balance then balance{{bal_status := status_for_remaining (bal_remaining balance)}}
  else balance.

(** A credential-identity hash. *)
Abbreviation BindingKey := string.
Inductive CreditSection := GrantListSection_ | UsageCreditsSection | OneTimeCreditsSection | SavedResetsSection.
#[export] Instance CreditSection_eq_dec : EqDecision CreditSection.
Proof. solve_decision. Defined.
(** Derived [Ord]: declaration order. *)
Definition section_rank (s : CreditSection) : Z :=
  match s with
  | GrantListSection_ => 0 | UsageCreditsSection => 1 | OneTimeCreditsSection => 2 | SavedResetsSection => 3
  end.
#[export] Instance CreditSection_ord : RustOrd CreditSection := fun a b => rcmp (section_rank a) (section_rank b).
#[export] Instance CreditSection_ord_laws : RustOrdLaws CreditSection.
Proof. apply (ord_by_laws section_rank). by intros [] []. Qed.

Inductive CachedSection :=
  | Balances (balances : list AgentCreditBalance)
  | GrantList (provider_count : Z) (section : GrantListSection).
Record CacheEntry := mkEntry { cached : CachedSection; stored_seq : Z }.
Definition SECTION_CACHE_MAX_ENTRIES : nat := 64.
Abbreviation SectionKey := (BindingKey * CreditSection)%type.
Record SectionCache := mkCache {
  entries : list (SectionKey * CacheEntry);
  next_seq : Z;
  cache_diagnostics : list CreditModelDiagnostic;
}.
Definition new_cache : SectionCache := mkCache [] 0 [].

(** ** Operations *)
Definition evicted : CreditModelDiagnostic := mkCreditDiagnostic "section_cache_evicted" "section_cache".
Definition record_eviction (diagnostics : list CreditModelDiagnostic) : list CreditModelDiagnostic :=
  if bool_decide (length diagnostics < SECTION_CACHE_MAX_ENTRIES)%nat then diagnostics ++ [evicted] else diagnostics.
(** [while self.entries.len() > SECTION_CACHE_MAX_ENTRIES]: each turn removes
    an entry, so the number of entries is fuel enough. *)
Fixpoint evict (fuel : nat) (cache : SectionCache) : SectionCache :=
  match fuel with
  | O => cache
  | S fuel =>
      if bool_decide (SECTION_CACHE_MAX_ENTRIES < length (entries cache))%nat then
        match min_by_key (fun e => stored_seq e.2) (entries cache) with
        | None => cache
        | Some (oldest, _) =>
            evict fuel (cache{{
              entries ::= (fun m => (bt_remove oldest m).1); cache_diagnostics ::= record_eviction}})
        end
      else cache
  end.
(** [next_seq += 1] of a release build. *)
Definition cache_insert (binding : BindingKey) (section : CreditSection) (value : CachedSection)
    (cache : SectionCache) : SectionCache :=
  let seq := wrap_u 64 (next_seq cache + 1) in
  let m := (bt_insert (binding, section) (mkEntry value seq) (entries cache)).1 in
  evict (length m) (cache{{next_seq := seq; entries := m}}).

Definition clear_updated_at (balance : AgentCreditBalance) : AgentCreditBalance := balance{{bal_updated_at := None}}.
Definition observe_balances (binding : BindingKey) (section : CreditSection) (balances : list AgentCreditBalance)
    (cache : SectionCache) : SectionCache :=
  if bool_decide (section = GrantListSection_) then cache
  else cache_insert binding section (Balances (clear_updated_at <$> balances)) cache.
Definition resend_balances (binding : BindingKey) (section : CreditSection) (cache : SectionCache)
    : option (list AgentCreditBalance) :=
  try? entry := bt_get (binding, section) (entries cache) in
  match cached entry with Balances balances => Some balances | GrantList _ _ => None end.
Definition observe_grant_list (binding : BindingKey) (provider_count : Z) (balance : AgentCreditBalance)
    (cache : SectionCache) : SectionCache :=
  match from_balance balance with
  | Some section => cache_insert binding GrantListSection_ (GrantList provider_count section) cache
  | None => cache
  end.
Definition grant_list_for_count (binding : BindingKey) (provider_count : Z) (cache : SectionCache)
    : option GrantListSection :=
  try? entry := bt_get (binding, GrantListSection_) (entries cache) in
  match cached entry with
  | GrantList count section => if count =? provider_count then Some section else None
  | Balances _ => None
  end.
Definition take_diagnostics (cache : SectionCache) : list CreditModelDiagnostic * SectionCache :=
  (cache_diagnostics cache, cache{{cache_diagnostics := nil}}).

(** ** The specification: observations by recency *)
(** The observed sections, the newest first, one per key. *)
Record Recency := mkRecency {
  observed : list (SectionKey * CachedSection);
  evictions : list CreditModelDiagnostic;
}.
Definition recency_insert (key : SectionKey) (value : CachedSection) (r : Recency) : Recency :=
  let newest := (key, value) :: filter (fun e => e.1 <> key) (observed r) in
  mkRecency (take SECTION_CACHE_MAX_ENTRIES newest)
    (if bool_decide (SECTION_CACHE_MAX_ENTRIES < length newest)%nat then record_eviction (evictions r)
     else evictions r).
Definition recency_get (key : SectionKey) (r : Recency) : option CachedSection :=
  snd <$> head (filter (fun e => e.1 = key) (observed r)).

(** What a caller does to the cache, and what it is answered. *)
Inductive CacheOp :=
  | ObserveBalances (binding : BindingKey) (section : CreditSection) (balances : list AgentCreditBalance)
  | ObserveGrantList (binding : BindingKey) (provider_count : Z) (balance : AgentCreditBalance)
  | ResendBalances (binding : BindingKey) (section : CreditSection)
  | GrantListForCount (binding : BindingKey) (provider_count : Z)
  | TakeDiagnostics.
Inductive CacheAnswer :=
  | NoAnswer
  | Resent (balances : option (list AgentCreditBalance))
  | Offered (section : option GrantListSection)
  | Taken (diagnostics : list CreditModelDiagnostic).

Definition cache_step (op : CacheOp) (cache : SectionCache) : CacheAnswer * SectionCache :=
  match op with
  | ObserveBalances binding section balances => (NoAnswer, observe_balances binding section balances cache)
  | ObserveGrantList binding count balance => (NoAnswer, observe_grant_list binding count balance cache)
  | ResendBalances binding section => (Resent (resend_balances binding section cache), cache)
  | GrantListForCount binding count => (Offered (grant_list_for_count binding count cache), cache)
  | TakeDiagnostics => let '(diagnostics, cache) := take_diagnostics cache in (Taken diagnostics, cache)
  end.
(** What an operation observes, if it observes anything. *)
Definition observes (op : CacheOp) : option (SectionKey * CachedSection) :=
  match op with
  | ObserveBalances binding section balances =>
      if bool_decide (section = GrantListSection_) then None
      else Some ((binding, section), Balances (clear_updated_at <$> balances))
  | ObserveGrantList binding count balance =>
      try? section := from_balance balance in Some ((binding, GrantListSection_), GrantList count section)
  | _ => None
  end.
Definition recency_answer (op : CacheOp) (r : Recency) : CacheAnswer :=
  match op with
  | ResendBalances binding section =>
      Resent (match recency_get (binding, section) r with Some (Balances balances) => Some balances | _ => None end)
  | GrantListForCount binding count =>
      Offered (match recency_get (binding, GrantListSection_) r with
               | Some (GrantList observed_count section) =>
                   if observed_count =? count then Some section else None
               | _ => None
               end)
  | TakeDiagnostics => Taken (evictions r)
  | _ => NoAnswer
  end.
Definition recency_step (op : CacheOp) (r : Recency) : CacheAnswer * Recency :=
  (recency_answer op r,
   match observes op with
   | Some (key, value) => recency_insert key value r
   | None => if op is TakeDiagnostics then r{{evictions := nil}} else r
   end).

Fixpoint run {S} (step : CacheOp -> S -> CacheAnswer * S) (ops : list CacheOp) (s : S) : list CacheAnswer * S :=
  match ops with
  | [] => ([], s)
  | op :: ops =>
      let '(answer, s) := step op s in let '(answers, s) := run step ops s in (answer :: answers, s)
  end.

(** ** The simulation *)
Definition newer (a b : SectionKey * CacheEntry) : Prop := stored_seq b.2 < stored_seq a.2.
(** [l] lists the cache's entries, the newest first. *)
Record represents (l : list (SectionKey * CacheEntry)) (cache : SectionCache) : Prop := {
  rep_perm : l ≡ₚ entries cache;
  rep_sorted : ksorted fst (entries cache);
  rep_newest : StronglySorted newer l;
  rep_seq : Forall (fun e => stored_seq e.2 <= next_seq cache) l;
}.
Definition observation (e : SectionKey * CacheEntry) : SectionKey * CachedSection := (e.1, cached e.2).
Record simulates (cache : SectionCache) (r : Recency) : Prop := {
  sim_rep : exists l, represents l cache /\ observed r = (observation <$> l);
  sim_bound : (length (observed r) <= SECTION_CACHE_MAX_ENTRIES)%nat;
  sim_diagnostics : evictions r = cache_diagnostics cache;
}.

Lemma represents_unique l cache k e e' : represents l cache -> (k, e) ∈ l -> (k, e') ∈ l -> e = e'.
Proof.
  intros Hr H1 H2. rewrite (rep_perm _ _ Hr) in H1, H2.
  pose proof (ksorted_unique fst _ _ _ (rep_sorted _ _ Hr) H1 H2 eq_refl) as [= ->]. done.
Qed.
(** A lookup answers the observation the specification has. *)
Lemma lookup_simulated cache r k :
  simulates cache r -> recency_get k r = (cached <$> bt_get k (entries cache)).
Proof.
  intros [(l & Hl & Ho) _ _]. unfold recency_get. rewrite Ho.
  assert (forall e, (k, e) ∈ l <-> bt_get k (entries cache) = Some e) as Hget.
  { intros e. rewrite (bt_get_elem _ _ _ (rep_sorted _ _ Hl)). by rewrite (rep_perm _ _ Hl). }
  destruct (filter _ _) as [|[k' v] rest] eqn:E; cbn.
  - destruct (bt_get k (entries cache)) as [e|]; [|done]. assert ((k, e) ∈ l) as He by by apply Hget.
    assert ((k, cached e) ∈ filter (fun e : SectionKey * CachedSection => e.1 = k) (observation <$> l)) as Hx.
    { apply list_elem_of_filter. split; [done|]. apply (list_elem_of_fmap_2 observation _ _ He). }
    rewrite E in Hx. by apply elem_of_nil in Hx.
  - assert ((k', v) ∈ filter (fun e : SectionKey * CachedSection => e.1 = k) (observation <$> l)) as Hx
      by (rewrite E; by left).
    apply list_elem_of_filter in Hx as [Hk Hx]. cbn in Hk. subst k'.
    apply list_elem_of_fmap in Hx as ([k' e] & [= -> ->] & He). apply Hget in He. by rewrite He.
Qed.

(** Eviction removes the last of the recency order. *)
Lemma oldest_is_last l x cache :
  represents (l ++ [x]) cache -> min_by_key (fun e => stored_seq e.2) (entries cache) = Some x.
Proof.
  intros Hr. pose proof (min_by_key_spec (fun e : SectionKey * CacheEntry => stored_seq e.2) (entries cache)) as Hm.
  assert (x ∈ entries cache) as Hx.
  { rewrite <-(rep_perm _ _ Hr). apply elem_of_app. right. by left. }
  destruct (min_by_key _ _) as [y|]; [|rewrite Hm in Hx; by apply elem_of_nil in Hx].
  destruct Hm as [Hy Hmin]. rewrite <-(rep_perm _ _ Hr) in Hy.
  apply elem_of_app in Hy as [Hy|Hy%list_elem_of_singleton]; [|by subst].
  pose proof (rep_newest _ _ Hr) as Hs. apply StronglySorted_app_1_elem_of with (x1 := y) (x2 := x) in Hs;
    [|done|by left]. unfold newer in Hs. specialize (Hmin _ Hx). cbn in Hmin. lia.
Qed.
Lemma evict_one l x cache :
  represents (l ++ [x]) cache -> represents l (cache{{
    entries ::= (fun m => (bt_remove x.1 m).1); cache_diagnostics ::= record_eviction}}).
Proof.
  intros Hr. destruct x as [k e]. pose proof (rep_sorted _ _ Hr) as Hs.
  assert ((k, e) ∈ entries cache) as Hx.
  { rewrite <-(rep_perm _ _ Hr). apply elem_of_app. right. by left. }
  pose proof (bt_remove_perm _ _ _ Hs Hx) as Hp. destruct Hr as [H1 H2 H3 H4]. split; cbn.
  - apply (Permutation_cons_inv (a := (k, e))). rewrite <-Hp, <-H1. apply Permutation_cons_append.
  - by apply bt_remove_sorted.
  - by apply StronglySorted_app_1_l in H3.
  - by apply Forall_app in H4 as [? _].
Qed.
Lemma evict_none fuel cache : (length (entries cache) <= SECTION_CACHE_MAX_ENTRIES)%nat -> evict fuel cache = cache.
Proof. intros H. destruct fuel; cbn; [done|]. rewrite bool_decide_eq_false_2; [done|]. unfold SECTION_CACHE_MAX_ENTRIES in *. lia. Qed.
Lemma evict_simulated fuel l cache r :
  represents l cache -> (length l <= S SECTION_CACHE_MAX_ENTRIES)%nat -> (length l <= fuel)%nat ->
  observed r = take SECTION_CACHE_MAX_ENTRIES (observation <$> l) ->
  evictions r = (if bool_decide (SECTION_CACHE_MAX_ENTRIES < length l)%nat
                 then record_eviction (cache_diagnostics cache) else cache_diagnostics cache) ->
  simulates (evict fuel cache) r /\ next_seq (evict fuel cache) = next_seq cache.
Proof.
  intros Hr Hb Hf Ho He. pose proof (Permutation_length (rep_perm _ _ Hr)) as Hlen.
  destruct (decide (SECTION_CACHE_MAX_ENTRIES < length l)%nat) as [Hover|Hover].
  - destruct fuel as [|fuel]; [lia|]. destruct l as [|x l0 _] using rev_ind; [cbn in Hover; lia|].
    rewrite length_app in *. cbn [length] in *. cbn [evict]. rewrite bool_decide_eq_true_2 in He by lia.
    rewrite bool_decide_eq_true_2, (oldest_is_last _ _ _ Hr) by lia. destruct x as [k e].
    pose proof (evict_one _ _ _ Hr) as Hr'. pose proof (Permutation_length (rep_perm _ _ Hr')) as Hlen'.
    cbn [fst] in *. rewrite evict_none by lia. split; [|done]. split; [|rewrite Ho, length_take; lia|done].
    exists l0. split; [done|]. rewrite Ho, fmap_app, take_app_length'; [done|]. rewrite length_fmap. lia.
  - rewrite evict_none by lia. split; [|done]. rewrite bool_decide_eq_false_2 in He by done.
    split; [|rewrite Ho, length_take; lia|done]. exists l. split; [done|].
    rewrite Ho. apply take_ge. rewrite length_fmap. lia.
Qed.

Lemma filter_observation k (l : list (SectionKey * CacheEntry)) :
  filter (fun e => e.1 <> k) (observation <$> l) = (observation <$> filter (fun e => e.1 <> k) l).
Proof.
  induction l as [|[k' e] l IH]; [done|]. rewrite fmap_cons. destruct (decide (k' <> k)).
  - rewrite !filter_cons_True by done. by rewrite fmap_cons, IH.
  - rewrite !filter_cons_False by done. exact IH.
Qed.
Lemma insert_simulated binding section value cache r :
  simulates cache r -> 0 <= next_seq cache < umax 64 ->
  simulates (cache_insert binding section value cache) (recency_insert (binding, section) value r) /\
  next_seq (cache_insert binding section value cache) = next_seq cache + 1.
Proof.
  intros [(l & Hl & Ho) Hb Hd] Hseq. set (k := (binding, section)). unfold cache_insert.
  rewrite wrap_u_small by (unfold uint, umax in *; lia). fold k. set (e := mkEntry value (next_seq cache + 1)).
  set (m := (bt_insert k e (entries cache)).1).
  set (l' := (k, e) :: filter (fun e => e.1 <> k) l).
  pose proof (rep_sorted _ _ Hl) as Hs. pose proof (bt_insert_perm k e _ Hs) as Hm. fold m in Hm.
  assert (l' ≡ₚ m) as Hp by (rewrite Hm; unfold l'; by rewrite (rep_perm _ _ Hl)).
  assert ((observation <$> l') = (k, value) :: filter (fun e => e.1 <> k) (observed r)) as Hobs.
  { unfold l'. rewrite fmap_cons, Ho. by rewrite filter_observation. }
  assert (length l' <= S SECTION_CACHE_MAX_ENTRIES)%nat as Hlen.
  { unfold l'. cbn [length]. pose proof (length_filter (fun e : SectionKey * CacheEntry => e.1 <> k) l).
    rewrite Ho, length_fmap in Hb. lia. }
  destruct (evict_simulated (length m) l' (cache{{next_seq := next_seq cache + 1; entries := m}})
    (recency_insert k value r)) as [Hsim Hn]; [|done| |by rewrite Hobs| |by split].
  - split; [done|by apply bt_insert_sorted| |]; unfold l'.
    + constructor; [apply StronglySorted_filter, (rep_newest _ _ Hl)|].
      apply Forall_filter. eapply Forall_impl; [apply (rep_seq _ _ Hl)|].
      intros [k' e'] He. unfold newer. cbn in *. lia.
    + apply Forall_cons. split; [cbn; unfold constant; lia|]. apply Forall_filter.
      eapply Forall_impl; [apply (rep_seq _ _ Hl)|]. intros ? ?; cbn in *; unfold constant; lia.
  - by rewrite (Permutation_length Hp).
  - unfold recency_insert. cbn [evictions]. rewrite Hd. rewrite <-Hobs, length_fmap. done.
Qed.

(** ** Refinement *)
Lemma step_simulated op cache r :
  simulates cache r -> 0 <= next_seq cache < umax 64 ->
  (cache_step op cache).1 = (recency_step op r).1 /\
  simulates (cache_step op cache).2 (recency_step op r).2 /\
  next_seq cache <= next_seq (cache_step op cache).2 <= next_seq cache + 1.
Proof.
  intros Hsim Hseq. unfold recency_step.
  destruct op as [binding section balances|binding count balance|binding section|binding count|]; cbn.
  - unfold observe_balances. case_bool_decide; [split_and!; (done || lia)|].
    destruct (insert_simulated binding section (Balances (clear_updated_at <$> balances)) cache r Hsim Hseq) as [Hi Hnext]; rewrite Hnext.
    split_and!; (done || lia).
  - unfold observe_grant_list. destruct (from_balance balance) as [s|]; [|split_and!; (done || lia)].
    destruct (insert_simulated binding GrantListSection_ (GrantList count s) cache r Hsim Hseq) as [Hi Hnext]; rewrite Hnext.
    split_and!; (done || lia).
  - split_and!; [|done|lia..]. unfold resend_balances. rewrite (lookup_simulated _ _ _ Hsim).
    destruct (bt_get _ _) as [[[] ?]|]; done.
  - split_and!; [|done|lia..]. unfold grant_list_for_count. rewrite (lookup_simulated _ _ _ Hsim).
    destruct (bt_get _ _) as [[[] ?]|]; done.
  - destruct Hsim as [(l & [] & Ho) Hb Hd], cache. cbn in *. split_and!; [by rewrite Hd| |lia..].
    split; [exists l|done..]. by split.
Qed.
Lemma new_simulated : simulates new_cache (mkRecency [] []).
Proof. split; [exists []; split; [split|]|cbn; lia|done]; try done; constructor. Qed.

(** C15: The section cache refines the recency list.  Started empty, any
    sequence of observations, re-sends and drains answers exactly what the list
    of the 64 most recently observed sections answers: the sequence numbers,
    the map and the eviction loop are not visible to a caller.  The sequence
    number is a [u64], so for fewer than 2^64 operations. *)
Theorem section_cache_refines ops :
  Z.of_nat (length ops) < 2 ^ 64 ->
  (run cache_step ops new_cache).1 = (run recency_step ops (mkRecency [] [])).1.
Proof.
  intros Hn.
  enough (forall cache r, simulates cache r -> 0 <= next_seq cache ->
    next_seq cache + Z.of_nat (length ops) < 2 ^ 64 ->
    (run cache_step ops cache).1 = (run recency_step ops r).1) as H.
  { apply H; [apply new_simulated|done|cbn; lia]. }
  clear Hn. induction ops as [|op ops IH]; intros cache r Hsim H0 Hn; [done|]. cbn [run length] in *.
  destruct (step_simulated op cache r Hsim) as (Ha & Hs & Hseq); [unfold umax; lia|].
  destruct (cache_step op cache) as [a1 c1], (recency_step op r) as [a2 r2]. cbn [fst snd] in *. subst a2.
  specialize (IH c1 r2 Hs). destruct (run cache_step ops c1) as [as1 c2], (run recency_step ops r2) as [as2 r3].
  cbn [fst] in *. rewrite IH; [done|lia..].
Qed.

(** ** What is re-sent, and for how long *)
Definition observe_into (key : SectionKey) (acc : option CachedSection) (op : CacheOp) : option CachedSection :=
  match observes op with Some (k, v) => if decide (k = key) then Some v else acc | None => acc end.
(** The last observation of [key]. *)
Definition last_observation (key : SectionKey) (ops : list CacheOp) : option CachedSection :=
  foldl (observe_into key) None ops.

(** The observation of [key] among the [n] newest. *)
Definition found (n : nat) (key : SectionKey) (l : list (SectionKey * CachedSection)) : option CachedSection :=
  snd <$> head (filter (fun e => e.1 = key) (take n l)).
Lemma found_all n key l : (length l <= n)%nat -> found n key l = snd <$> head (filter (fun e => e.1 = key) l).
Proof. intros H. unfold found. by rewrite take_ge. Qed.
Lemma found_more n m key l v : (n <= m)%nat -> found n key l = Some v -> found m key l = Some v.
Proof.
  unfold found. revert n m. induction l as [|[k w] l IH]; intros [|n] [|m] Hn; cbn [take]; try (done || lia).
  destruct (decide (k = key)).
  - by rewrite !filter_cons_True.
  - rewrite !filter_cons_False by done. apply IH. lia.
Qed.
Lemma found_filter_other n key k l :
  k <> key -> forall v, found n key l = Some v -> found n key (filter (fun e => e.1 <> k) l) = Some v.
Proof.
  intros Hk v. revert n. induction l as [|[k' w] l IH]; intros [|n]; try done. intros H.
  destruct (decide (k' <> k)) as [Hne|He].
  - rewrite filter_cons_True by done. unfold found in *. cbn [take] in *. destruct (decide (k' = key)).
    + by rewrite filter_cons_True in *.
    + rewrite filter_cons_False in * by done. by apply IH.
  - assert (k' = k) as -> by (destruct (decide (k' = k)); tauto). rewrite filter_cons_False by done.
    apply IH. unfold found in H. cbn [take] in H. rewrite filter_cons_False in H by done.
    apply (found_more n); [lia|exact H].
Qed.
Lemma found_unfilter n key k l v : k <> key ->
  found n key (filter (fun e => e.1 <> k) l) = Some v -> exists m, found m key l = Some v.
Proof.
  intros Hk. revert n. induction l as [|[k' w] l IH]; intros n; [by exists n|].
  destruct (decide (k' <> k)) as [Hne|He].
  - rewrite filter_cons_True by done. destruct n as [|n]; [done|]. unfold found. cbn [take].
    destruct (decide (k' = key)).
    + rewrite filter_cons_True by done. intros H. exists 1%nat. cbn [take]. by rewrite filter_cons_True.
    + rewrite filter_cons_False by done. intros H. destruct (IH n H) as [m Hm]. exists (S m).
      cbn [take]. by rewrite filter_cons_False.
  - rewrite filter_cons_False by done. intros H. destruct (IH n H) as [m Hm]. exists (S m).
    unfold found. cbn [take]. rewrite filter_cons_False; [exact Hm|]. cbn. intros ->. apply He. congruence.
Qed.

Lemma insert_found n key k v r w :
  found n key (observed (recency_insert k v r)) = Some w ->
  if decide (k = key) then w = v else exists m, found m key (observed r) = Some w.
Proof.
  unfold recency_insert. cbn [observed]. unfold found at 1. rewrite take_take.
  destruct (n `min` _)%nat as [|m]; [done|]. cbn [take]. case_decide as Hk.
  - subst k. rewrite filter_cons_True by done. by intros [= <-].
  - rewrite filter_cons_False by done. intros H. by apply (found_unfilter m) with (k := k).
Qed.
(** [key]'s answer in [r] is the observation [f] has last. *)
Definition answers_last (key : SectionKey) (r : Recency) (f : option CachedSection) : Prop :=
  forall n w, found n key (observed r) = Some w -> f = Some w.
Lemma step_answers_last key op r f :
  answers_last key r f -> answers_last key (recency_step op r).2 (observe_into key f op).
Proof.
  intros H n w. unfold recency_step, observe_into. cbn [snd].
  destruct (observes op) as [[k v]|] eqn:E.
  - intros Hf. apply insert_found in Hf. case_decide; [by subst|]. destruct Hf as [m Hm]. by eapply H.
  - destruct op; cbn; by apply H.
Qed.
Lemma simulated_run ops cache r :
  simulates cache r -> 0 <= next_seq cache -> next_seq cache + Z.of_nat (length ops) < 2 ^ 64 ->
  simulates (run cache_step ops cache).2 (run recency_step ops r).2.
Proof.
  revert cache r. induction ops as [|op ops IH]; intros cache r Hsim H0 Hn; [done|]. cbn [run length] in *.
  destruct (step_simulated op cache r Hsim) as (Ha & Hs & Hseq); [unfold umax; lia|].
  destruct (cache_step op cache) as [a1 c1], (recency_step op r) as [a2 r2]. cbn [fst snd] in *.
  specialize (IH c1 r2 Hs). destruct (run cache_step ops c1), (run recency_step ops r2). cbn [snd] in *.
  apply IH; lia.
Qed.
Lemma run_app {S} (step : CacheOp -> S -> CacheAnswer * S) ops1 ops2 s :
  (run step (ops1 ++ ops2) s).2 = (run step ops2 (run step ops1 s).2).2.
Proof.
  revert s. induction ops1 as [|op ops1 IH]; intros s; [done|]. cbn [run app].
  destruct (step op s) as [a s1]. specialize (IH s1).
  destruct (run step (ops1 ++ ops2) s1), (run step ops1 s1). cbn [snd] in *. done.
Qed.

(** The cache never mixes identities and never makes a section up.  After
    any sequence of operations, what it re-sends for a credential and a section
    is the last observation of exactly that credential and section, with
    [updated_at] unset and nothing else changed. *)
Theorem resent_is_last_observed ops binding section balances :
  Z.of_nat (length ops) < 2 ^ 64 ->
  resend_balances binding section (run cache_step ops new_cache).2 = Some balances ->
  last_observation (binding, section) ops = Some (Balances balances).
Proof.
  intros Hn Hr. pose proof (simulated_run ops _ _ new_simulated ltac:(done) ltac:(cbn; lia)) as Hsim.
  unfold resend_balances in Hr. pose proof (lookup_simulated _ _ (binding, section) Hsim) as Hl.
  destruct (bt_get _ _) as [entry|]; [|done]. destruct (cached entry) as [bs|] eqn:E; [|done]. injection Hr as ->.
  cbn in Hl. rewrite E in Hl. unfold recency_get in Hl. rewrite <-(found_all (length (observed (run recency_step ops (mkRecency [] [])).2))) in Hl by lia.
  revert Hl. generalize (length (observed (run recency_step ops (mkRecency [] [])).2)). intros n Hl.
  clear -Hl. unfold last_observation.
  enough (forall f r, answers_last (binding, section) r f ->
    answers_last (binding, section) (run recency_step ops r).2 (foldl (observe_into (binding, section)) f ops)) as H.
  { eapply H; [|exact Hl]. by intros []. }
  clear Hl. induction ops as [|op ops IH]; intros f r H; [done|]. cbn [run foldl].
  pose proof (step_answers_last _ op _ _ H) as H1. destruct (recency_step op r) as [a r1]. cbn [snd] in H1.
  specialize (IH _ _ H1). by destruct (run recency_step ops r1).
Qed.

Lemma found_after_other n key k v r w :
  k <> key -> (n < SECTION_CACHE_MAX_ENTRIES)%nat -> found n key (observed r) = Some w ->
  found (S n) key (observed (recency_insert k v r)) = Some w.
Proof.
  intros Hk Hn Hf. unfold recency_insert. cbn [observed]. unfold found. rewrite take_take, Nat.min_l by lia.
  cbn [take]. rewrite filter_cons_False by done. by apply found_filter_other.
Qed.
Lemma found_kept n key ops r w :
  (forall op k v, op ∈ ops -> observes op = Some (k, v) -> k <> key) ->
  found n key (observed r) = Some w -> (n + length (omap observes ops) <= SECTION_CACHE_MAX_ENTRIES)%nat ->
  exists m, found m key (observed (run recency_step ops r).2) = Some w.
Proof.
  revert n r. induction ops as [|op ops IH]; intros n r Ho Hf Hn; [by exists n|]. cbn [run].
  assert (exists n', found n' key (observed (recency_step op r).2) = Some w /\
    (n' + length (omap observes ops) <= SECTION_CACHE_MAX_ENTRIES)%nat) as (n' & Hf' & Hn').
  { unfold recency_step. cbn [snd]. cbn in Hn. destruct (observes op) as [[k v]|] eqn:E.
    - exists (S n). cbn in Hn. split; [|cbn in *; lia]. apply found_after_other; [|lia|done].
      apply (Ho op k v); [by left|done].
    - exists n. split; [by destruct op|done]. }
  destruct (recency_step op r) as [a r1]. cbn [snd] in Hf'.
  destruct (IH n' r1) as [m Hm]; [|done|done|].
  { intros op' k v Hop. apply Ho. by right. }
  exists m. by destruct (run recency_step ops r1).
Qed.
(** A section is not lost early.  The balances observed for a credential
    and a section are re-sent, whatever came before, for as long as fewer than
    64 observations of other sections follow. *)
Theorem recent_section_served pre post binding section balances :
  section <> GrantListSection_ -> Z.of_nat (length (pre ++ post)) + 1 < 2 ^ 64 ->
  (forall op k v, op ∈ post -> observes op = Some (k, v) -> k <> (binding, section)) ->
  (length (omap observes post) < SECTION_CACHE_MAX_ENTRIES)%nat ->
  resend_balances binding section
    (run cache_step (pre ++ ObserveBalances binding section balances :: post) new_cache).2
  = Some (clear_updated_at <$> balances).
Proof.
  intros Hs Hn Ho Hc. set (ops := pre ++ _). set (key := (binding, section)).
  assert (Z.of_nat (length ops) < 2 ^ 64) as Hlen.
  { unfold ops. rewrite length_app in *. cbn [length]. lia. }
  pose proof (simulated_run ops _ _ new_simulated ltac:(done) ltac:(cbn; lia)) as Hsim.
  unfold resend_balances. fold key. pose proof (lookup_simulated _ _ key Hsim) as Hl.
  enough (recency_get key (run recency_step ops (mkRecency [] [])).2 = Some (Balances (clear_updated_at <$> balances))) as Hg.
  { rewrite Hg in Hl. destruct (bt_get _ _) as [entry|]; [|done]. injection Hl as Hl. by rewrite <-Hl. }
  unfold ops. rewrite run_app. set (r := (run recency_step pre _).2). cbn [run].
  set (r1 := (recency_step (ObserveBalances binding section balances) r).2).
  assert (found 1 key (observed r1) = Some (Balances (clear_updated_at <$> balances))) as H1.
  { unfold r1, recency_step. cbn [snd observes]. rewrite bool_decide_eq_false_2 by done.
    unfold recency_insert, found. cbn [observed]. rewrite take_take.
    change (1 `min` SECTION_CACHE_MAX_ENTRIES)%nat with 1%nat. cbn [take]. by rewrite filter_cons_True. }
  destruct (found_kept 1 key post r1 _ Ho H1) as [m Hm]; [lia|].
  destruct (recency_step _ r) as [a r1']. cbn in r1. subst r1. destruct (run recency_step post r1') as [ans r2].
  cbn [snd] in *. unfold recency_get. rewrite <-(found_all (m `max` length (observed r2))) by lia.
  apply (found_more m); [lia|done].
Qed.

(** ** A slot that switches accounts and back *)
Definition sample_balances : list AgentCreditBalance := [default_balance{{bal_updated_at := Some "now"%string}}].
Definition switching : list CacheOp :=
  [ObserveBalances "a" SavedResetsSection sample_balances; ObserveBalances "b" SavedResetsSection [];
   ResendBalances "a" SavedResetsSection; ResendBalances "c" SavedResetsSection].
Example switching_answers :
  (run cache_step switching new_cache).1 = [NoAnswer; NoAnswer; Resent (Some [default_balance]); Resent None].
Proof. vm_compute. reflexivity. Qed.
Lemma section_cache_refines_witness :
  Z.of_nat (length switching) < 2 ^ 64 /\
  (run recency_step switching (mkRecency [] [])).1 = [NoAnswer; NoAnswer; Resent (Some [default_balance]); Resent None].
Proof.
  assert (Z.of_nat (length switching) < 2 ^ 64) as H by reflexivity.
  split; [exact H|]. rewrite <-(section_cache_refines switching H). vm_compute. reflexivity.
Defined.
Lemma resent_is_last_observed_witness :
  resend_balances "a" SavedResetsSection (run cache_step switching new_cache).2 = Some [default_balance] /\
  last_observation ("a"%string, SavedResetsSection) switching = Some (Balances [default_balance]).
Proof.
  assert (resend_balances "a" SavedResetsSection (run cache_step switching new_cache).2 = Some [default_balance]) as H
    by (vm_compute; reflexivity).
  split; [exact H|]. apply resent_is_last_observed; [reflexivity|exact H].
Defined.
Lemma recent_section_served_witness :
  resend_balances "a" SavedResetsSection
    (run cache_step ([] ++ ObserveBalances "a" SavedResetsSection sample_balances ::
      [ObserveBalances "b" SavedResetsSection []]) new_cache).2 = Some (clear_updated_at <$> sample_balances).
Proof.
  apply recent_section_served; [discriminate|reflexivity| |apply (bool_decide_unpack _); vm_compute; exact I].
  intros op k v Hop Ho. apply list_elem_of_singleton in Hop. subst op. cbn in Ho. injection Ho as <- _. discriminate.
Defined.
