(* ===== verification/DurableCodec.v ===== *)
(** The byte layer of the durable tail codec
    (crates/ottto-service/src/durable_tail_codec.rs).

    An encoder walks a value twice through the same code, first on a counting
    sink and then on a sink of exactly the counted size; a decoder is a cursor
    over one record body.  This file models both sinks, the cursor, the varint
    format and the scratch allowance for one moved [E] field, and gives the
    record-level contract: what [count_write] returns for any field walk. *)
From S2P Require Import Prelude.
Local Open Scope Z_scope.

(** Why a value was not encoded.  Paths are field names, never values. *)
Inductive Refuse :=
| NonEmpty (path : string)
| UnknownLabel
| TooLarge
| WriteFailed
| NotDigest (path : string).

#[export] Instance Refuse_eq_dec : EqDecision Refuse.
Proof. solve_decision. Defined.

(** ** Encoder *)

(** A [dyn Write]: the bytes taken so far, and whether it takes the next ones.
    What a failed write leaves behind is never read. *)
Record DynWrite := mkDynWrite {
  dw_taken : list Z;
  dw_accepts : list Z -> list Z -> bool;
}.
Definition write_all (w : DynWrite) (bytes : list Z) : DynWrite * bool :=
  if dw_accepts w (dw_taken w) bytes
  then (mkDynWrite (dw_taken w ++ bytes) (dw_accepts w), true)
  else (w, false).
(** [Vec<u8>] takes everything. *)
Definition vec_writer : DynWrite := mkDynWrite [] (fun _ _ => true).

Inductive Sink :=
| Write (out : DynWrite) (len limit : Z)
| Count (len limit : Z).

Record Enc := mkEnc { sink : Sink; moved_field : option string }.

(** A step of the encoder: the encoder after it, and the refusal if any. *)
Definition EncM : Type := Enc -> Enc * option Refuse.

Definition enc_ok : EncM := fun e => (e, None).
Definition enc_refuse (r : Refuse) : EncM := fun e => (e, Some r).
(** Rust's [first?; second]. *)
Definition enc_seq (m1 m2 : EncM) : EncM := fun e =>
  match m1 e with
  | (e1, None) => m2 e1
  | (e1, Some r) => (e1, Some r)
  end.
Notation "m1 ;;; m2" := (enc_seq m1 m2) (at level 60, right associativity) : ottto_scope.

Definition slice_len (bytes : list Z) : Z := Z.of_nat (length bytes).

Definition enc_writer (out : DynWrite) (exact_len : Z) : Enc :=
  mkEnc (Write out 0 exact_len) None.
Definition enc_count (limit : Z) : Enc := mkEnc (Count 0 limit) None.

(** [None] is the [unreachable!] arm. *)
Definition finish_written (e : Enc) : option (Refuse + Z) :=
  match sink e with
  | Write _ len limit => Some (if len =? limit then inr len else inl WriteFailed)
  | Count _ _ => None
  end.
Definition counted (e : Enc) : option Z :=
  match sink e with Count len _ => Some len | Write _ _ _ => None end.
Definition written (e : Enc) : list Z :=
  match sink e with Write out _ _ => dw_taken out | Count _ _ => [] end.

Definition with_moved_field (path : string) (put : EncM) : EncM := fun e =>
  let '(e1, r) := put (mkEnc (sink e) (Some path)) in
  (mkEnc (sink e1) None, r).
Definition field_moved (e : Enc) (path : string) : bool :=
  bool_decide (moved_field e = Some path).

Definition enc_raw (bytes : list Z) : EncM := fun e =>
  match sink e with
  | Write out len limit =>
      match checked_add 64 len (slice_len bytes) with
      | None => (e, Some TooLarge)
      | Some end_ =>
          if limit <? end_ then (e, Some TooLarge)
          else match write_all out bytes with
               | (out, true) => (mkEnc (Write out end_ limit) (moved_field e), None)
               | (out, false) => (mkEnc (Write out len limit) (moved_field e), Some WriteFailed)
               end
      end
  | Count len limit =>
      match checked_add 64 len (slice_len bytes) with
      | None => (e, Some TooLarge)
      | Some len =>
          (mkEnc (Count len limit) (moved_field e),
           if limit <? len then Some TooLarge else None)
      end
  end.

(** The [loop] of [varint]; its 10-byte buffer is the fuel and [None] an index
    past it (a panic, excluded by [varint_bytes_total] below). *)
Fixpoint varint_loop (buf_left : nat) (value : Z) : option (list Z) :=
  match buf_left with
  | O => None
  | S buf_left =>
      let byte := wrap_u 8 (Z.land value 127) in
      let value := Z.shiftr value 7 in
      if value =? 0 then Some [byte]
      else try? rest := varint_loop buf_left value in Some (Z.lor byte 128 :: rest)
  end.
Definition varint_bytes (value : Z) : list Z := default [] (varint_loop 10 value).
Definition enc_varint (value : Z) : EncM := enc_raw (varint_bytes value).
(** [bytes.len() as u64] then the bytes. *)
Definition enc_len_prefixed (bytes : list Z) : EncM :=
  enc_varint (wrap_u 64 (slice_len bytes)) ;;; enc_raw bytes.

(** The outer [option] is a reached [unreachable!]. *)
Definition count_write (limit : Z) (put : EncM) : option (Refuse + list Z) :=
  match put (enc_count limit) with
  | (_, Some r) => Some (inl r)
  | (count, None) =>
      try? len := counted count in
      match put (enc_writer vec_writer len) with
      | (_, Some r) => Some (inl r)
      | (writer, None) =>
          try? fin := finish_written writer in
          Some match fin with inl r => inl r | inr _ => inr (written writer) end
      end
  end.

(** ** Decoder: a cursor; [None] is [Corrupt] *)
Record Dec := mkDec { dbytes : list Z; dpos : nat }.
Definition DecM (A : Type) : Type := Dec -> option (A * Dec).

Definition dec_new (bytes : list Z) : Dec := mkDec bytes 0.
Definition dec_raw (len : Z) : DecM (list Z) := fun d =>
  try? end_ := checked_add 64 (Z.of_nat (dpos d)) len in
  if end_ <=? slice_len (dbytes d)
  then Some (take (Z.to_nat len) (drop (dpos d) (dbytes d)), mkDec (dbytes d) (Z.to_nat end_))
  else None.
Definition dec_remaining (d : Dec) : Z := slice_len (dbytes d) - Z.of_nat (dpos d).
Definition dec_finish (d : Dec) : bool := bool_decide (dpos d = length (dbytes d)).

(** [(0..64).step_by(7)]. *)
Definition varint_shifts : list Z := [0; 7; 14; 21; 28; 35; 42; 49; 56; 63].
Fixpoint varint_dec_loop (shifts : list Z) (value : Z) (d : Dec) : option (Z * Dec) :=
  match shifts with
  | [] => None
  | shift :: shifts =>
      try? (bs, d) := dec_raw 1 d in
      try? byte := bs !! 0%nat in
      let bits := Z.land byte 127 in
      if (shift =? 63) && (1 <? bits) then None
      else
        let value := Z.lor value (wrap_u 64 (Z.shiftl bits shift)) in
        if Z.land byte 128 =? 0 then Some (value, d)
        else varint_dec_loop shifts value d
  end.
Definition dec_varint : DecM Z := varint_dec_loop varint_shifts 0.
Definition take_len : DecM Z := fun d =>
  try? (v, d) := dec_varint d in
  try? len := try_uint 64 v in
  if dec_remaining d <? len then None else Some (len, d).
Definition dec_len_prefixed : DecM (list Z) := fun d =>
  try? (len, d) := take_len d in dec_raw len d.

(** ** Traces

    A field walk never looks at its sink: for a given moved field it appends
    the same chunks and then ends the same way on every sink.  A [Trace] is
    that abstract walk and [traced] states that an encoder step performs it. *)
Definition Trace : Type := list (list Z) * option Refuse.

Fixpoint replay (chunks : list (list Z)) (r : option Refuse) : EncM :=
  match chunks with
  | [] => fun e => (e, r)
  | c :: chunks => enc_raw c ;;; replay chunks r
  end.
Definition traced (m : EncM) (mf : option string) (t : Trace) : Prop :=
  forall e, moved_field e = mf -> m e = replay t.1 t.2 e.

Definition tr_ok : Trace := ([], None).
Definition tr_raw (bytes : list Z) : Trace := ([bytes], None).
Definition tr_refuse (r : Refuse) : Trace := ([], Some r).
Definition tr_seq (t1 t2 : Trace) : Trace :=
  match t1 with
  | (cs, None) => (cs ++ t2.1, t2.2)
  | (cs, Some r) => (cs, Some r)
  end.
(** What a walk that does not refuse writes. *)
Definition trace_bytes (t : Trace) : option (list Z) :=
  match t with (cs, None) => Some (concat cs) | (_, Some _) => None end.
Definition chunks_len (chunks : list (list Z)) : Z := slice_len (concat chunks).

Lemma slice_len_app a b : slice_len (a ++ b) = slice_len a + slice_len b.
Proof. unfold slice_len. rewrite length_app. lia. Qed.
Lemma slice_len_nonneg a : 0 <= slice_len a.
Proof. unfold slice_len. lia. Qed.
Lemma chunks_len_cons c cs : chunks_len (c :: cs) = slice_len c + chunks_len cs.
Proof. apply slice_len_app. Qed.
Lemma chunks_len_nonneg cs : 0 <= chunks_len cs.
Proof. apply slice_len_nonneg. Qed.
#[export] Hint Resolve slice_len_nonneg chunks_len_nonneg : ottto.

Lemma trace_bytes_seq t1 t2 :
  trace_bytes (tr_seq t1 t2) =
    try? b1 := trace_bytes t1 in try? b2 := trace_bytes t2 in Some (b1 ++ b2).
Proof.
  destruct t1 as [cs1 [x|]], t2 as [cs2 [y|]]; simpl; try done. by rewrite concat_app.
Qed.
Lemma trace_bytes_seq_Some t1 t2 bs :
  trace_bytes (tr_seq t1 t2) = Some bs ->
  exists b1 b2, trace_bytes t1 = Some b1 /\ trace_bytes t2 = Some b2 /\ bs = b1 ++ b2.
Proof. rewrite trace_bytes_seq. intros. inv_try. eauto. Qed.
Lemma trace_bytes_raw bytes : trace_bytes (tr_raw bytes) = Some bytes.
Proof. simpl. by rewrite app_nil_r. Qed.

Lemma enc_raw_moved bytes e : moved_field (enc_raw bytes e).1 = moved_field e.
Proof. unfold enc_raw. destruct e as [[] mf]; simpl; by repeat split_match; simplify_eq/=. Qed.

Lemma replay_moved cs r e : moved_field (replay cs r e).1 = moved_field e.
Proof.
  revert e. induction cs as [|c cs IH]; intros e; [done|]. simpl. unfold enc_seq.
  pose proof (enc_raw_moved c e) as Hm. destruct (enc_raw c e) as [e1 [x|]]; simpl in *.
  - done.
  - by rewrite IH.
Qed.

Lemma replay_app cs1 cs2 r e :
  replay (cs1 ++ cs2) r e = (replay cs1 None ;;; replay cs2 r) e.
Proof.
  revert e. induction cs1 as [|c cs1 IH]; intros e; [done|]. simpl. unfold enc_seq in *.
  destruct (enc_raw c e) as [e1 [x|]]; [done|]. rewrite IH. done.
Qed.

Lemma replay_refused cs r r' e :
  (replay cs (Some r) ;;; r') e = replay cs (Some r) e.
Proof.
  revert e. induction cs as [|c cs IH]; intros e; [done|]. simpl. unfold enc_seq in *.
  destruct (enc_raw c e) as [e1 [x|]]; [done|]. apply IH.
Qed.

(** *** Composition of traces *)
Lemma traced_ok mf : traced enc_ok mf tr_ok.
Proof. by intros e _. Qed.
Lemma traced_refuse mf r : traced (enc_refuse r) mf (tr_refuse r).
Proof. by intros e _. Qed.
Lemma traced_raw mf bytes : traced (enc_raw bytes) mf (tr_raw bytes).
Proof. intros e _. simpl. unfold enc_seq. by destruct (enc_raw bytes e) as [? []]. Qed.
Lemma traced_seq m1 m2 mf t1 t2 :
  traced m1 mf t1 -> traced m2 mf t2 -> traced (m1 ;;; m2) mf (tr_seq t1 t2).
Proof.
  intros H1 H2 e He. destruct t1 as [cs1 [x|]]; simpl in *.
  - rewrite <-(replay_refused cs1 x m2). unfold enc_seq. by rewrite H1.
  - rewrite replay_app. unfold enc_seq. rewrite H1 by done. simpl.
    pose proof (replay_moved cs1 None e) as Hm.
    destruct (replay cs1 None e) as [e1 [x|]]; [done|]. apply H2. simpl in Hm. congruence.
Qed.

Lemma replay_any_moved cs r s mf :
  replay cs r (mkEnc s mf) =
    let '(e1, x) := replay cs r (mkEnc s None) in (mkEnc (sink e1) mf, x).
Proof.
  revert s. induction cs as [|c cs IH]; intros s; [done|]. simpl. unfold enc_seq, enc_raw.
  destruct s; simpl; repeat split_match; simplify_eq/=; try done;
    rewrite IH; by repeat split_match; simplify_eq/=.
Qed.

(** A walk under [with_moved_field] is the walk with that field moved, and
    leaves no allowance behind. *)
Lemma traced_moved path m t :
  traced m (Some path) t -> traced (with_moved_field path m) None t.
Proof.
  intros Hm e He. unfold with_moved_field. rewrite Hm by done.
  destruct e as [s mf]; simpl in *; subst. rewrite replay_any_moved.
  pose proof (replay_moved t.1 t.2 (mkEnc s None)) as Hk.
  destruct (replay t.1 t.2 (mkEnc s None)) as [[s1 m1] x]; simpl in *. by subst.
Qed.

#[export] Hint Resolve traced_ok traced_refuse traced_raw traced_seq : ottto.

(** *** Both sinks perform a trace *)
Lemma replay_count cs r len limit mf :
  0 <= len <= limit -> usize limit ->
  exists len',
    replay cs r (mkEnc (Count len limit) mf) =
      (mkEnc (Count len' limit) mf,
       if limit <? len + chunks_len cs then Some TooLarge else r) /\
    (len + chunks_len cs <= limit -> len' = len + chunks_len cs).
Proof.
  intros Hlen Hlim. revert len Hlen. induction cs as [|c cs IH]; intros len Hlen; simpl.
  - exists len. unfold chunks_len, slice_len; simpl. rewrite (proj2 (Z.ltb_ge _ _)) by lia.
    split; [done|lia].
  - rewrite chunks_len_cons. unfold enc_seq, enc_raw; simpl.
    pose proof (slice_len_nonneg c). pose proof (chunks_len_nonneg cs).
    destruct (checked_add 64 len (slice_len c)) as [len1|] eqn:E.
    + apply try_uint_Some in E as [-> Hu].
      destruct (limit <? len + slice_len c) eqn:El; zbool.
      * eexists. rewrite (proj2 (Z.ltb_lt _ _)) by lia. split; [done|lia].
      * destruct (IH (len + slice_len c)) as (len' & -> & Hl); [lia|].
        exists len'. split; [|lia]. do 2 f_equal. by rewrite Z.add_assoc.
    + assert (~ usize (len + slice_len c)).
      { intros Hu. unfold checked_add in E. by rewrite try_uint_ok in E. }
      unfold uint in *. exists len. rewrite (proj2 (Z.ltb_lt _ _)) by lia. split; [done|lia].
Qed.

Lemma replay_vec cs out len limit mf :
  0 <= len -> len + chunks_len cs <= limit -> usize limit ->
  (forall h b, dw_accepts out h b = true) ->
  replay cs None (mkEnc (Write out len limit) mf) =
    (mkEnc (Write (mkDynWrite (dw_taken out ++ concat cs) (dw_accepts out))
                  (len + chunks_len cs) limit) mf, None).
Proof.
  intros H0 Hle Hlim Hacc. revert out len H0 Hle Hacc.
  induction cs as [|c cs IH]; intros out len H0 Hle Hacc; simpl.
  - unfold chunks_len, slice_len; simpl. rewrite app_nil_r, Z.add_0_r. by destruct out.
  - rewrite chunks_len_cons in *. unfold enc_seq, enc_raw; simpl.
    pose proof (slice_len_nonneg c). pose proof (chunks_len_nonneg cs).
    unfold checked_add. rewrite try_uint_ok by (unfold uint in *; lia).
    rewrite (proj2 (Z.ltb_ge _ _)) by lia. unfold write_all. rewrite Hacc.
    rewrite IH by (simpl; auto; lia). simpl. by rewrite <-app_assoc, Z.add_assoc.
Qed.

(** The contract of [count_write] for any walk that performs a trace [t]: the
    size cap wins, then the walk's own refusal, else exactly its bytes. *)
Definition count_write_spec (limit : Z) (t : Trace) : Refuse + list Z :=
  if limit <? chunks_len t.1 then inl TooLarge
  else match t.2 with Some r => inl r | None => inr (concat t.1) end.

Lemma count_write_traced limit put t :
  usize limit -> traced put None t ->
  count_write limit put = Some (count_write_spec limit t).
Proof.
  intros Hlim Ht. unfold count_write, count_write_spec. destruct t as [cs r].
  rewrite (Ht (enc_count limit)) by done. unfold enc_count; simpl.
  destruct (replay_count cs r 0 limit None) as (len' & -> & Hl); [unfold uint in *; lia|done|].
  rewrite Z.add_0_l in *. destruct (limit <? chunks_len cs) eqn:E; [done|]. zbool.
  destruct r as [r|]; [done|]. rewrite Hl by lia. unfold counted; simpl.
  rewrite Ht by done. unfold enc_writer; simpl. pose proof (chunks_len_nonneg cs).
  rewrite replay_vec; [|lia|lia|unfold uint in *; lia|done].
  unfold finish_written; simpl. by rewrite Z.eqb_refl.
Qed.

(** ** The decoder as a function of what is left *)
Definition dec_rest (d : Dec) : list Z := drop (dpos d) (dbytes d).
Definition advance (n : nat) (d : Dec) : Dec := mkDec (dbytes d) (dpos d + n).
(** A cursor inside a byte slice ([isize::MAX] bounds every Rust slice). *)
Record dec_wf (d : Dec) : Prop := mkDecWf {
  dec_wf_pos : (dpos d <= length (dbytes d))%nat;
  dec_wf_len : slice_len (dbytes d) < 2 ^ 63;
  dec_wf_bytes : Forall u8 (dbytes d);
}.
(** [d'] is [d] after reading some of what was left. *)
Definition dec_step (d d' : Dec) : Prop :=
  dbytes d' = dbytes d /\ (dpos d <= dpos d' <= length (dbytes d))%nat.

Lemma dec_rest_advance n d : dec_rest (advance n d) = drop n (dec_rest d).
Proof. unfold dec_rest, advance; simpl. by rewrite drop_drop. Qed.
Lemma dec_rest_advance_app d b s :
  dec_rest d = b ++ s -> dec_rest (advance (length b) d) = s.
Proof. intros E. by rewrite dec_rest_advance, E, drop_app_length. Qed.
Lemma advance_advance n m d : advance m (advance n d) = advance (n + m) d.
Proof. unfold advance; simpl. f_equal. lia. Qed.
Lemma advance_app (a b : list Z) d :
  advance (length b) (advance (length a) d) = advance (length (a ++ b)) d.
Proof. by rewrite advance_advance, length_app. Qed.
Lemma advance_0 d : advance 0 d = d.
Proof. destruct d. unfold advance; simpl. f_equal. lia. Qed.
Lemma length_dec_rest d : length (dec_rest d) = (length (dbytes d) - dpos d)%nat.
Proof. apply length_drop. Qed.

Lemma dec_wf_new bytes :
  slice_len bytes < 2 ^ 63 -> Forall u8 bytes -> dec_wf (dec_new bytes).
Proof. intros. split; simpl; [lia|done..]. Qed.
Lemma dec_rest_new bytes : dec_rest (dec_new bytes) = bytes.
Proof. done. Qed.
Lemma dec_step_refl d : dec_wf d -> dec_step d d.
Proof. intros [H _ _]. split; [done|lia]. Qed.
Lemma dec_step_trans d1 d2 d3 : dec_step d1 d2 -> dec_step d2 d3 -> dec_step d1 d3.
Proof. intros [E1 H1] [E2 H2]. split; [congruence|]. rewrite E1 in H2. lia. Qed.
Lemma dec_step_wf d d' : dec_step d d' -> dec_wf d -> dec_wf d'.
Proof. intros [E H] [H1 H2 H3]. split; rewrite E; [lia|done..]. Qed.
Lemma dec_step_advance n d :
  dec_wf d -> (n <= length (dec_rest d))%nat -> dec_step d (advance n d).
Proof. intros [H _ _] Hn. rewrite length_dec_rest in Hn. split; simpl; [done|lia]. Qed.
Lemma dec_wf_advance n d :
  dec_wf d -> (n <= length (dec_rest d))%nat -> dec_wf (advance n d).
Proof. intros H Hn. eapply dec_step_wf; [by apply dec_step_advance|done]. Qed.
Lemma dec_wf_advance_app d b s :
  dec_wf d -> dec_rest d = b ++ s -> dec_wf (advance (length b) d).
Proof. intros H E. apply dec_wf_advance; [done|]. rewrite E, length_app. lia. Qed.
Lemma dec_wf_rest d : dec_wf d -> Forall u8 (dec_rest d).
Proof. intros [_ _ H]. by apply Forall_drop. Qed.
#[export] Hint Resolve dec_step_refl dec_wf_advance_app dec_step_wf dec_wf_rest : ottto.

Lemma dec_raw_spec len d :
  dec_wf d -> 0 <= len ->
  dec_raw len d =
    if len <=? slice_len (dec_rest d)
    then Some (take (Z.to_nat len) (dec_rest d), advance (Z.to_nat len) d) else None.
Proof.
  intros [Hp Hl _] H0. unfold dec_raw, slice_len in *. rewrite length_dec_rest.
  destruct (len <=? Z.of_nat (length (dbytes d) - dpos d)) eqn:E; zbool.
  - unfold checked_add. rewrite try_uint_ok by (unfold uint; lia).
    rewrite (proj2 (Z.leb_le _ _)) by lia. unfold advance. do 3 f_equal. lia.
  - destruct (checked_add 64 _ len) as [e|] eqn:Ec; [|done].
    apply try_uint_Some in Ec as [-> _]. by rewrite (proj2 (Z.leb_gt _ _)) by lia.
Qed.

Lemma dec_raw_app bs s d :
  dec_wf d -> dec_rest d = bs ++ s ->
  dec_raw (slice_len bs) d = Some (bs, advance (length bs) d).
Proof.
  intros Hd E. rewrite dec_raw_spec by auto with ottto.
  rewrite E, slice_len_app. pose proof (slice_len_nonneg s).
  rewrite (proj2 (Z.leb_le _ _)) by lia. unfold slice_len.
  by rewrite Nat2Z.id, take_app_length.
Qed.

Lemma dec_raw_step len d bs d' :
  dec_wf d -> 0 <= len -> dec_raw len d = Some (bs, d') ->
  dec_step d d' /\ slice_len bs = len /\ Forall u8 bs /\ dec_rest d = bs ++ dec_rest d'.
Proof.
  intros Hd H0. rewrite dec_raw_spec by done. intros; inv_try. zbool.
  split; [apply dec_step_advance; [done|unfold slice_len in *; lia]|].
  split; [unfold slice_len in *; rewrite length_take; lia|].
  split; [by apply Forall_take, dec_wf_rest|].
  by rewrite dec_rest_advance, take_drop.
Qed.

(** ** Varints *)
Lemma varint_loop_S n v :
  0 <= v ->
  varint_loop (S n) v =
    if v <? 128 then Some [v]
    else (try? rest := varint_loop n (v / 128) in Some (v mod 128 + 128 :: rest)).
Proof.
  intros Hv. cbn [varint_loop]. rewrite land_127, Z.shiftr_div_pow2 by lia.
  change (2 ^ 7) with 128. pose proof (Z.mod_pos_bound v 128 eq_refl).
  rewrite wrap_u_small by (unfold uint; lia).
  destruct (v <? 128) eqn:E; zbool.
  - rewrite Z.div_small, Z.mod_small by lia. done.
  - assert ((v / 128 =? 0) = false) as ->.
    { apply Z.eqb_neq. pose proof (Z.div_str_pos v 128). lia. }
    by rewrite (lor_disjoint_add 7 _ 1 : _ -> _ -> Z.lor _ 128 = _) by lia.
Qed.

Lemma varint_loop_total n v : 0 <= v < 128 ^ Z.of_nat (S n) -> is_Some (varint_loop (S n) v).
Proof.
  revert v. induction n as [|n IH]; intros v Hv; rewrite varint_loop_S by lia.
  - rewrite (proj2 (Z.ltb_lt _ _)) by lia. eauto.
  - destruct (v <? 128) eqn:E; [eauto|]. zbool.
    destruct (IH (v / 128)) as [rest ->]; [|eauto].
    rewrite (Nat2Z.inj_succ (S n)), Z.pow_succ_r in Hv by lia.
    split; [apply Z.div_pos; lia|]. apply Z.div_lt_upper_bound; lia.
Qed.

(** No [u64] overruns the 10-byte buffer. *)
Lemma varint_bytes_total v : u64 v -> varint_loop 10 v = Some (varint_bytes v).
Proof.
  intros Hv. unfold varint_bytes.
  destruct (varint_loop_total 9 v) as [bs ->]; [unfold uint in *; lia|done].
Qed.

Lemma varint_loop_bytes n v bs :
  0 <= v -> varint_loop n v = Some bs ->
  Forall u8 bs /\ (1 <= length bs <= n)%nat.
Proof.
  revert v bs. induction n as [|n IH]; intros v bs Hv; [done|]. rewrite varint_loop_S by done.
  intros. pose proof (Z.mod_pos_bound v 128 eq_refl).
  destruct (v <? 128) eqn:E; inv_try; zbool.
  - split; [repeat constructor; lia|simpl; lia].
  - destruct (IH _ _ (Z.div_pos v 128 Hv eq_refl) Heqo) as [H1 H2]. simpl.
    split; [constructor; [unfold uint; lia|done]|lia].
Qed.

Lemma varint_bytes_u8 v : u64 v -> Forall u8 (varint_bytes v).
Proof. intros Hv. eapply varint_loop_bytes, varint_bytes_total; [|done]. apply Hv. Qed.
Lemma varint_bytes_length v : u64 v -> (1 <= length (varint_bytes v) <= 10)%nat.
Proof. intros Hv. eapply varint_loop_bytes, varint_bytes_total; [|done]. apply Hv. Qed.

Fixpoint shifts_from (n : nat) (s : Z) : list Z :=
  match n with O => [] | S n => s :: shifts_from n (s + 7) end.
Lemma varint_shifts_from : varint_shifts = shifts_from 10 0.
Proof. done. Qed.

(** One byte of the decoding loop, on a slice that has it. *)
Lemma varint_dec_byte shift shifts value b s d :
  dec_wf d -> dec_rest d = b :: s -> u8 b ->
  0 <= shift -> 0 <= value < 2 ^ shift -> (b mod 128) * 2 ^ shift < 2 ^ 64 ->
  (shift = 63 -> b mod 128 <= 1) ->
  varint_dec_loop (shift :: shifts) value d =
    if b <? 128 then Some (value + b * 2 ^ shift, advance 1 d)
    else varint_dec_loop shifts (value + (b mod 128) * 2 ^ shift) (advance 1 d).
Proof.
  intros Hd E Hb Hs Hv Hfit H63. cbn [varint_dec_loop].
  rewrite (dec_raw_app [b] s d Hd E : dec_raw 1 d = Some ([b], advance 1 d)). simpl.
  rewrite land_127. pose proof (Z.mod_pos_bound b 128 eq_refl).
  assert ((shift =? 63) && (1 <? b mod 128) = false) as ->.
  { destruct (shift =? 63) eqn:Es; [|done]. zbool. simpl. apply Z.ltb_ge. auto. }
  rewrite Z.shiftl_mul_pow2 by done.
  rewrite wrap_u_small by (unfold uint; nia).
  rewrite lor_disjoint_add by done.
  change 128 with (2 ^ 7) at 2. rewrite (land_bit_eqb 7) by (unfold uint in *; lia).
  change (2 ^ 7) with 128. destruct (b <? 128) eqn:Eb; [|done]. zbool.
  rewrite Z.mod_small by (unfold uint in *; lia). done.
Qed.

Arguments varint_dec_loop : simpl never.
Arguments dec_raw : simpl never.

Lemma varint_dec_loop_enc n m v bs shift value d s :
  varint_loop n v = Some bs -> 0 <= v -> (n <= m)%nat ->
  shift + 7 * Z.of_nat n = 70 -> 0 <= shift -> 0 <= value < 2 ^ shift ->
  v * 2 ^ shift < 2 ^ 64 -> dec_wf d -> dec_rest d = bs ++ s ->
  varint_dec_loop (shifts_from m shift) value d = Some (value + v * 2 ^ shift, advance (length bs) d).
Proof.
  revert m v bs shift value d. induction n as [|n IH]; intros m v bs shift value d Hl Hv Hm Hs H0 Hval Hfit Hd E.
  { done. }
  destruct m as [|m]; [lia|]. cbn [shifts_from]. rewrite varint_loop_S in Hl by done.
  pose proof (Z.mod_pos_bound v 128 eq_refl) as Hmod.
  assert (Hdiv : v = 128 * (v / 128) + v mod 128) by (apply Z.div_mod; lia).
  assert (Hp : 0 < 2 ^ shift) by (apply Z.pow_pos_nonneg; lia).
  assert (H63 : shift = 63 -> v <= 1) by (intros ->; lia).
  destruct (v <? 128) eqn:Ev; inv_try; zbool.
  - rewrite (varint_dec_byte _ _ _ v s) by
      (done || unfold uint; rewrite ?Z.mod_small by lia; auto; lia).
    by rewrite (proj2 (Z.ltb_lt _ _)) by lia.
  - assert (Hm128 : (v mod 128 + 128) mod 128 = v mod 128).
    { rewrite <-(Z.mul_1_l 128) at 2. by rewrite Z.mod_add, Z.mod_mod by lia. }
    assert (Hd0 : 0 <= v / 128) by (apply Z.div_pos; lia).
    rewrite (varint_dec_byte _ _ _ (v mod 128 + 128) (l ++ s)); [|done|done|unfold uint; lia|lia|lia|..].
    2,3: rewrite Hm128; nia.
    rewrite (proj2 (Z.ltb_ge _ _)), Hm128 by lia.
    assert (Hp7 : 2 ^ (shift + 7) = 128 * 2 ^ shift) by (rewrite Z.pow_add_r; lia).
    assert (v mod 128 * 2 ^ shift <= 127 * 2 ^ shift) by nia.
    assert (v * 2 ^ shift = v / 128 * (128 * 2 ^ shift) + v mod 128 * 2 ^ shift)
      by (rewrite Hdiv at 1; ring).
    assert (0 <= v mod 128 * 2 ^ shift) by nia.
    pose proof (dec_wf_advance_app d [_] _ Hd E) as Hd1.
    pose proof (dec_rest_advance_app d [_] _ E) as E1.
    rewrite (IH m (v / 128) l); rewrite ?Hp7; first [done | lia | idtac].
    do 2 f_equal; [lia|]. by rewrite advance_advance.
Qed.

(** *** Reading back what was written *)
Lemma dec_varint_enc v d s :
  u64 v -> dec_wf d -> dec_rest d = varint_bytes v ++ s ->
  dec_varint d = Some (v, advance (length (varint_bytes v)) d).
Proof.
  intros Hv Hd E. unfold dec_varint. rewrite varint_shifts_from.
  rewrite (varint_dec_loop_enc 10 10 v (varint_bytes v) 0 0 d s);
    [f_equal; f_equal; lia|by apply varint_bytes_total|unfold uint in *; lia..|done|done].
Qed.

Lemma varint_dec_loop_step shifts value d v d' :
  dec_wf d -> Forall (fun s => 0 <= s < 64) shifts -> u64 value ->
  varint_dec_loop shifts value d = Some (v, d') -> u64 v /\ dec_step d d'.
Proof.
  intros Hd Hs. revert value d Hd. induction Hs as [|s shifts Hs _ IH]; intros value d Hd Hv.
  { done. }
  unfold varint_dec_loop; fold varint_dec_loop. intros H.
  destruct (dec_raw 1 d) as [[bs d1]|] eqn:Er; [|done].
  apply dec_raw_step in Er as (Hst & _ & _ & _); [|done|lia].
  destruct (bs !! 0%nat) as [b|]; [|done].
  destruct ((s =? 63) && (1 <? Z.land b 127)); [done|].
  assert (Hv' : u64 (Z.lor value (wrap_u 64 (Z.shiftl (Z.land b 127) s)))).
  { pose proof (wrap_u_uint 64 (Z.shiftl (Z.land b 127) s)) as Hw. revert Hv Hw.
    generalize (wrap_u 64 (Z.shiftl (Z.land b 127) s)). unfold uint. intros w [? ?] Hw.
    split; [apply Z.lor_nonneg; lia|]. apply Z.log2_lt_cancel.
    rewrite Z.log2_lor by lia. change (Z.log2 (2 ^ 64)) with 64.
    apply Z.max_lub_lt.
    - destruct (decide (value = 0)) as [->|]; [done|]. apply Z.log2_lt_pow2; lia.
    - destruct (decide (w = 0)) as [->|]; [done|]. apply Z.log2_lt_pow2; lia. }
  destruct (Z.land b 128 =? 0).
  - simplify_eq. by split.
  - apply IH in H as [? ?]; [|by eapply dec_step_wf|done].
    split; [done|by eapply dec_step_trans].
Qed.

Lemma dec_varint_step d v d' :
  dec_wf d -> dec_varint d = Some (v, d') -> u64 v /\ dec_step d d'.
Proof.
  intros Hd H. eapply varint_dec_loop_step; [done| |split|exact H]; [|done..].
  repeat constructor; done.
Qed.

Lemma take_len_enc v d s :
  u64 v -> dec_wf d -> dec_rest d = varint_bytes v ++ s -> v <= slice_len s ->
  take_len d = Some (v, advance (length (varint_bytes v)) d).
Proof.
  intros Hv Hd E Hle. unfold take_len. erewrite dec_varint_enc by done.
  rewrite try_uint_ok by done.
  assert (dec_remaining (advance (length (varint_bytes v)) d) = slice_len s) as ->.
  { rewrite <-(dec_rest_advance_app _ _ _ E). unfold dec_remaining, slice_len.
    rewrite length_dec_rest. destruct (dec_wf_advance_app _ _ _ Hd E) as [Hp _ _]. lia. }
  by rewrite (proj2 (Z.ltb_ge _ _)).
Qed.

Lemma take_len_step d len d' :
  dec_wf d -> take_len d = Some (len, d') ->
  0 <= len <= slice_len (dec_rest d') /\ dec_step d d'.
Proof.
  intros Hd H. unfold take_len in H. inv_try. zbool.
  apply dec_varint_step in Heqo as [Hv Hs]; [|done].
  apply try_uint_Some in Heqo0 as [-> _]. split; [|done].
  unfold dec_remaining, slice_len, uint in *. rewrite length_dec_rest. lia.
Qed.

Lemma dec_len_prefixed_enc bs d s :
  slice_len bs < 2 ^ 64 -> dec_wf d ->
  dec_rest d = varint_bytes (slice_len bs) ++ bs ++ s ->
  dec_len_prefixed d = Some (bs, advance (length (varint_bytes (slice_len bs) ++ bs)) d).
Proof.
  intros Hl Hd E. pose proof (slice_len_nonneg bs). unfold dec_len_prefixed.
  pose proof (slice_len_nonneg s).
  rewrite (take_len_enc (slice_len bs) d (bs ++ s));
    [|split; lia|done|done|rewrite slice_len_app; lia].
  erewrite dec_raw_app; [by rewrite advance_app| |].
  - by eapply dec_wf_advance_app.
  - by eapply dec_rest_advance_app.
Qed.

Lemma dec_len_prefixed_step d bs d' :
  dec_wf d -> dec_len_prefixed d = Some (bs, d') ->
  dec_step d d' /\ Forall u8 bs /\ slice_len bs < 2 ^ 63.
Proof.
  intros Hd H. unfold dec_len_prefixed in H.
  destruct (take_len d) as [[len d1]|] eqn:E; [|done].
  apply take_len_step in E as [Hl Hs]; [|done].
  pose proof (dec_step_wf _ _ Hs Hd) as Hd1.
  apply dec_raw_step in H as (Hs' & Hlen & Hb & _); [|done|lia].
  split; [by eapply dec_step_trans|]. split; [done|].
  destruct Hd1 as [_ Hlt _]. unfold slice_len in *. rewrite length_dec_rest in Hl. lia.
Qed.

(** Splits what a successful composed walk wrote. *)
Ltac tr_inv :=
  repeat match goal with
    | H : trace_bytes (tr_seq _ _) = Some _ |- _ =>
        apply trace_bytes_seq_Some in H as (? & ? & ? & ? & ->)
    | H : trace_bytes (tr_raw _) = Some _ |- _ =>
        rewrite trace_bytes_raw in H; injection H as <-
    | H : trace_bytes tr_ok = Some _ |- _ => injection H as <-
    | H : trace_bytes (tr_refuse _) = Some _ |- _ => discriminate H
    end.
(** The cursor facts after reading the first part of what is left. *)
Ltac dec_at E :=
  match type of E with
  | dec_rest ?d = ?b ++ _ =>
      let Hw := fresh "Hd" in let Er := fresh "E" in
      assert (Hw : dec_wf (advance (length b) d)) by (eapply dec_wf_advance_app; eauto);
      pose proof (dec_rest_advance_app _ _ _ E) as Er
  end.
#[global] Arguments tr_seq : simpl never.
#[global] Arguments tr_raw : simpl never.
#[global] Arguments tr_ok : simpl never.
#[global] Arguments tr_refuse : simpl never.
