(* ===== verification/DurableTypes.v ===== *)
(** The [Durable], [DurableKey] traits of the durable tail codec and their
    implementations for scalars, strings, options, tuples, sequences, arrays,
    grown arrays, sets and maps
    (crates/ottto-service/src/durable_tail_codec.rs).

    A trait is a class of dictionaries; an implementation is a dictionary.
    [DurableOk] states what one implementation promises to the next: its field
    walk is a trace, reading back what it wrote gives the retained value, a
    decoded value is representable, and the allocation-free [verify] walk
    accepts exactly what [take] decodes. *)
From S2P Require Import Prelude OrdMap DurableCodec.
Local Open Scope Z_scope.

Class Durable (T : Type) := mkDurable {
  put : T -> EncM;
  dtake : DecM T;
  verify : Dec -> option Dec;
}.

(** Borrowed equality and order views of keys. *)
Class DurableKey {T : Type} (D : Durable T) := mkDurableKey {
  View : Type;
  #[global] view_ord :: RustOrd View;
  key : DecM View;
}.
Arguments View {T D} _.
Arguments key {T D} _.
Arguments view_ord {T D} _.

(** [scalar_verify!]: validation stays identical to decode. *)
Definition scalar_verify {T} (t : DecM T) (d : Dec) : option Dec := option_map snd (t d).

Class DurableOk {T : Type} (D : Durable T) := mkDurableOk {
  (** The values the Rust type can hold. *)
  dval : T -> Prop;
  (** What a decoded copy keeps: [X], [E] and [I] fields come back empty. *)
  retained : T -> T;
  trace : option string -> T -> Trace;
  put_traced : forall x mf, dval x -> traced (put x) mf (trace mf x);
  put_u8 : forall x mf bs, dval x -> trace_bytes (trace mf x) = Some bs -> Forall u8 bs;
  take_put : forall x mf bs d s,
    dval x -> trace_bytes (trace mf x) = Some bs -> dec_wf d -> dec_rest d = bs ++ s ->
    dtake d = Some (retained x, advance (length bs) d);
  take_val : forall d x d', dec_wf d -> dtake d = Some (x, d') -> dval x /\ dec_step d d';
  verify_take : forall d, dec_wf d -> verify d = option_map snd (dtake d);
}.

(** Every value takes at least one byte, so a length prefix never exceeds what
    is left. *)
Class DurableSized {T} (D : Durable T) `{!DurableOk D} : Prop :=
  sized : forall x mf bs, dval x -> trace_bytes (trace mf x) = Some bs -> bs <> [].

Class DurableKeyOk {T} {D : Durable T} (K : DurableKey D) `{!DurableOk D} := mkDurableKeyOk {
  view : T -> View K;
  #[global] view_laws :: @RustOrdLaws (View K) (view_ord K);
  key_take : forall d, dec_wf d -> key K d = (try? (x, d') := dtake d in Some (view x, d'));
  (** The view tells decoded keys apart. *)
  view_inj : forall d1 x d1' d2 y d2',
    dec_wf d1 -> dec_wf d2 -> dtake d1 = Some (x, d1') -> dtake d2 = Some (y, d2') ->
    view x = view y -> x = y;
  key_retained : forall x, dval x -> retained x = x;
}.

(** ** Scalars *)
Definition u64_durable : Durable Z := {|
  put := enc_varint; dtake := dec_varint; verify := scalar_verify dec_varint |}.

Definition usize_put (x : Z) : EncM :=
  match try_uint 64 x with Some v => enc_varint v | None => enc_refuse TooLarge end.
Definition usize_take : DecM Z := fun d =>
  try? (v, d) := dec_varint d in try? v := try_uint 64 v in Some (v, d).
Definition usize_durable : Durable Z := {|
  put := usize_put; dtake := usize_take; verify := scalar_verify usize_take |}.

(** [narrow_unsigned!]: u8, u16 and u32. *)
Definition narrow_take (w : Z) : DecM Z := fun d =>
  try? (v, d) := dec_varint d in try? v := try_uint w v in Some (v, d).
Definition narrow_durable (w : Z) : Durable Z := {|
  put := enc_varint; dtake := narrow_take w; verify := scalar_verify (narrow_take w) |}.

(** Zigzag: [((value << 1) ^ (value >> 63)) as u64] and back. *)
Definition zigzag (value : Z) : Z :=
  wrap_u 64 (Z.lxor (wrap_s 64 (Z.shiftl value 1)) (Z.shiftr value 63)).
Definition unzigzag (raw : Z) : Z :=
  Z.lxor (wrap_s 64 (Z.shiftr raw 1)) (- wrap_s 64 (Z.land raw 1)).
Definition put_signed (value : Z) : EncM := enc_varint (zigzag value).
Definition take_signed : DecM Z := fun d =>
  try? (raw, d) := dec_varint d in Some (unzigzag raw, d).
Definition i64_durable : Durable Z := {|
  put := put_signed; dtake := take_signed; verify := scalar_verify take_signed |}.
Definition i32_take : DecM Z := fun d =>
  try? (v, d) := take_signed d in try? v := try_sint 32 v in Some (v, d).
Definition i32_durable : Durable Z := {|
  put := put_signed; dtake := i32_take; verify := scalar_verify i32_take |}.

(** [to_le_bytes] and [from_le_bytes]. *)
Fixpoint to_le_bytes (n : nat) (z : Z) : list Z :=
  match n with O => [] | S n => z mod 256 :: to_le_bytes n (z / 256) end.
Fixpoint from_le_bytes (bs : list Z) : Z :=
  match bs with [] => 0 | b :: bs => b + 256 * from_le_bytes bs end.

Definition u128_take : DecM Z := fun d =>
  try? (bytes, d) := dec_raw 16 d in Some (from_le_bytes bytes, d).
Definition u128_durable : Durable Z := {|
  put x := enc_raw (to_le_bytes 16 x); dtake := u128_take; verify := scalar_verify u128_take |}.
Definition i128_take : DecM Z := fun d =>
  try? (bytes, d) := dec_raw 16 d in Some (wrap_s 128 (from_le_bytes bytes), d).
Definition i128_durable : Durable Z := {|
  put x := enc_raw (to_le_bytes 16 (wrap_u 128 x)); dtake := i128_take;
  verify := scalar_verify i128_take |}.

Definition nonzero_u64_take : DecM Z := fun d =>
  try? (v, d) := dec_varint d in if v =? 0 then None else Some (v, d).
Definition nonzero_u64_durable : Durable Z := {|
  put := enc_varint; dtake := nonzero_u64_take; verify := scalar_verify nonzero_u64_take |}.

Definition bool_put (b : bool) : EncM := enc_raw [Z.b2z b].
Definition bool_take : DecM bool := fun d =>
  try? (bs, d) := dec_raw 1 d in
  match bs with [0] => Some (false, d) | [1] => Some (true, d) | _ => None end.
Definition bool_durable : Durable bool := {|
  put := bool_put; dtake := bool_take; verify := scalar_verify bool_take |}.

Definition unit_durable : Durable unit := {|
  put _ := enc_ok; dtake d := Some (tt, d); verify := scalar_verify (fun d => Some (tt, d)) |}.

(** ** Strings *)
Definition in_range (lo hi b : Z) : bool := (lo <=? b) && (b <=? hi).
Definition utf8_cont (b : Z) : bool := in_range 128 191 b.

(** [std::str::from_utf8]: well-formed UTF-8 by lead byte. *)
Fixpoint utf8_valid (bs : list Z) : bool :=
  match bs with
  | [] => true
  | b0 :: bs =>
      if b0 <=? 127 then utf8_valid bs
      else if in_range 194 223 b0 then
        match bs with b1 :: bs => utf8_cont b1 && utf8_valid bs | _ => false end
      else if in_range 224 239 b0 then
        match bs with
        | b1 :: b2 :: bs =>
            (if b0 =? 224 then in_range 160 191 b1
             else if b0 =? 237 then in_range 128 159 b1 else utf8_cont b1)
            && utf8_cont b2 && utf8_valid bs
        | _ => false
        end
      else if in_range 240 244 b0 then
        match bs with
        | b1 :: b2 :: b3 :: bs =>
            (if b0 =? 240 then in_range 144 191 b1
             else if b0 =? 244 then in_range 128 143 b1 else utf8_cont b1)
            && utf8_cont b2 && utf8_cont b3 && utf8_valid bs
        | _ => false
        end
      else false
  end.

Definition string_put (s : string) : EncM := enc_len_prefixed (as_bytes s).
Definition string_take : DecM string := fun d =>
  try? (bytes, d) := dec_len_prefixed d in
  if utf8_valid bytes then Some (of_bytes bytes, d) else None.
Definition string_verify (d : Dec) : option Dec :=
  try? (bytes, d) := dec_len_prefixed d in if utf8_valid bytes then Some d else None.
Definition string_durable : Durable string := {|
  put := string_put; dtake := string_take; verify := string_verify |}.
(** The view of a string key is the borrowed text itself. *)
Definition string_key : DurableKey string_durable := {| View := string; key := string_take |}.

Definition STATIC_LABELS : list string := [
  "anthropic"; "openai"; "provider-sha256:v1"; "claude_desktop_original:v1";
  "codex_creator_header:v1"; "conflict"; "missing"; "complete" ]%string.

Fixpoint position (s : string) (labels : list string) : option nat :=
  match labels with
  | [] => None
  | l :: labels => if decide (l = s) then Some 0%nat else S <$> position s labels
  end.
Definition label_put (s : string) : EncM :=
  match position s STATIC_LABELS with
  | Some index => enc_varint (Z.of_nat index)
  | None => enc_refuse UnknownLabel
  end.
Definition label_take : DecM string := fun d =>
  try? (v, d) := dec_varint d in
  try? index := try_uint 64 v in
  try? label := STATIC_LABELS !! Z.to_nat index in Some (label, d).
Definition label_durable : Durable string := {|
  put := label_put; dtake := label_take; verify := scalar_verify label_take |}.

(** A path is never stored: [put] always refuses. *)
Definition path_put (_ : string) : EncM := enc_refuse (NonEmpty "PathBuf").
Definition path_durable : Durable string := {|
  put := path_put; dtake := string_take; verify := string_verify |}.

(** ** Laws of the scalars *)
Lemma wrap_s_small w z : 0 < w -> sint w z -> wrap_s w z = z.
Proof.
  intros Hw Hz. unfold wrap_s, sint in *.
  assert (2 ^ w = 2 * 2 ^ (w - 1)) by (rewrite <-Z.pow_succ_r by lia; f_equal; lia).
  rewrite Z.mod_small; lia.
Qed.
Lemma wrap_s_shift w z : 0 < w -> exists k, wrap_s w z = z + k * 2 ^ w.
Proof.
  intros Hw. unfold wrap_s. exists (- ((z + 2 ^ (w - 1)) / 2 ^ w)).
  rewrite Z.mod_eq by (apply Z.pow_nonzero; lia). lia.
Qed.
Lemma wrap_s_sint w z : 0 < w -> sint w (wrap_s w z).
Proof.
  intros Hw. unfold wrap_s, sint.
  assert (2 ^ w = 2 * 2 ^ (w - 1)) by (rewrite <-Z.pow_succ_r by lia; f_equal; lia).
  pose proof (Z.mod_pos_bound (z + 2 ^ (w - 1)) (2 ^ w)). lia.
Qed.

Lemma zigzag_eq v : sint 64 v -> zigzag v = if v <? 0 then - 2 * v - 1 else 2 * v.
Proof.
  intros Hv. unfold zigzag. rewrite Z.shiftl_mul_pow2, Z.shiftr_div_pow2 by lia.
  unfold sint in Hv. change (2 ^ (64 - 1)) with (2 ^ 63) in Hv.
  destruct (v <? 0) eqn:E; zbool.
  - assert (v / 2 ^ 63 = -1) as -> by (symmetry; apply (Z.div_unique _ _ _ (v + 2 ^ 63)); lia).
    rewrite Z.lxor_m1_r. unfold wrap_u, Z.lnot.
    destruct (wrap_s_shift 64 (v * 2 ^ 1)) as [k ->]; [lia|].
    symmetry. apply (Z.mod_unique _ _ (- k)); lia.
  - rewrite Z.div_small, Z.lxor_0_r by lia. unfold wrap_u.
    destruct (wrap_s_shift 64 (v * 2 ^ 1)) as [k ->]; [lia|].
    symmetry. apply (Z.mod_unique _ _ k); lia.
Qed.

Lemma zigzag_u64 v : sint 64 v -> u64 (zigzag v).
Proof. intros. unfold zigzag. by apply wrap_u_uint. Qed.

Lemma land_1 z : Z.land z 1 = z mod 2.
Proof. apply (land_low_mod 1). lia. Qed.

Lemma unzigzag_eq raw :
  u64 raw -> unzigzag raw = if raw mod 2 =? 0 then raw / 2 else - (raw / 2) - 1.
Proof.
  intros Hr. unfold unzigzag. rewrite Z.shiftr_div_pow2, land_1 by lia. change (2 ^ 1) with 2.
  pose proof (Z.mod_pos_bound raw 2 eq_refl). unfold uint in Hr.
  assert (0 <= raw / 2 < 2 ^ 63).
  { split; [apply Z.div_pos; lia|apply Z.div_lt_upper_bound; lia]. }
  rewrite !wrap_s_small by (unfold sint; simpl; lia).
  destruct (raw mod 2 =? 0) eqn:E; zbool.
  - rewrite E. apply Z.lxor_0_r.
  - replace (raw mod 2) with 1 by lia. rewrite Z.lxor_m1_r. unfold Z.lnot. lia.
Qed.

Lemma unzigzag_sint raw : u64 raw -> sint 64 (unzigzag raw).
Proof.
  intros Hr. rewrite unzigzag_eq by done. unfold uint, sint in *. simpl.
  assert (0 <= raw / 2 < 2 ^ 63).
  { split; [apply Z.div_pos; lia|apply Z.div_lt_upper_bound; lia]. }
  destruct (raw mod 2 =? 0); lia.
Qed.

Lemma unzigzag_zigzag v : sint 64 v -> unzigzag (zigzag v) = v.
Proof.
  intros Hv. rewrite unzigzag_eq by by apply zigzag_u64. rewrite zigzag_eq by done.
  destruct (v <? 0) eqn:E; zbool.
  - assert ((-2 * v - 1) mod 2 = 1) as -> by
      (symmetry; apply (Z.mod_unique _ _ (- v - 1)); lia). simpl.
    assert ((-2 * v - 1) / 2 = - v - 1) as -> by
      (symmetry; apply (Z.div_unique _ _ _ 1); lia). lia.
  - rewrite (Z.mul_comm 2), Z.mod_mul, Z.div_mul by lia. done.
Qed.

Lemma to_le_bytes_u8 n z : Forall u8 (to_le_bytes n z).
Proof.
  revert z. induction n as [|n IH]; intros z; constructor; [|done].
  apply (Z.mod_pos_bound z 256). done.
Qed.
Lemma length_to_le_bytes n z : length (to_le_bytes n z) = n.
Proof. revert z. induction n; intros; simpl; auto. Qed.
Lemma from_to_le_bytes n z : from_le_bytes (to_le_bytes n z) = z mod 256 ^ Z.of_nat n.
Proof.
  revert z. induction n as [|n IH]; intros z; cbn [to_le_bytes from_le_bytes].
  { by rewrite Z.mod_1_r. }
  rewrite IH, Nat2Z.inj_succ, Z.pow_succ_r by lia.
  rewrite Z.rem_mul_r; [done|lia|apply Z.pow_pos_nonneg; lia].
Qed.
Lemma from_le_bytes_bound bs :
  Forall u8 bs -> 0 <= from_le_bytes bs < 256 ^ slice_len bs.
Proof.
  unfold slice_len. induction 1 as [|b bs Hb _ IH]; cbn [from_le_bytes length]; [done|].
  rewrite Nat2Z.inj_succ, Z.pow_succ_r by lia. unfold uint in Hb. lia.
Qed.

(** A scalar is one chunk of bytes. *)
Program Definition scalar_ok {T} (p : T -> EncM) (t : DecM T) (val : T -> Prop) (enc : T -> list Z)
    (Hput : forall x, val x -> p x = enc_raw (enc x))
    (Hu8 : forall x, val x -> Forall u8 (enc x))
    (Htake : forall x d s, val x -> dec_wf d -> dec_rest d = enc x ++ s ->
      t d = Some (x, advance (length (enc x)) d))
    (Hval : forall d x d', dec_wf d -> t d = Some (x, d') -> val x /\ dec_step d d') :
    DurableOk (mkDurable T p t (scalar_verify t)) :=
  mkDurableOk T _ val id (fun _ x => tr_raw (enc x)) _ _ _ Hval _.
Next Obligation. intros. simpl. rewrite Hput by done. apply traced_raw. Qed.
Next Obligation. intros. simplify_eq/=. rewrite app_nil_r in *. auto. Qed.
Next Obligation. intros. simplify_eq/=. rewrite app_nil_r in *. eauto. Qed.
Next Obligation. done. Qed.

Lemma scalar_sized {T} p t val enc Hp Hu Ht Hv :
  (forall x : T, val x -> enc x <> []) ->
  DurableSized (mkDurable T p t (scalar_verify t)) (DurableOk0 := scalar_ok p t val enc Hp Hu Ht Hv).
Proof. intros Hne x mf bs Hx Hb. simpl in *. rewrite app_nil_r in Hb. simplify_eq. auto. Qed.

(** Decoders that read a varint and then check or map it. *)
Lemma varint_map_take {A} (f : Z -> option A) v x d s :
  u64 v -> f v = Some x -> dec_wf d -> dec_rest d = varint_bytes v ++ s ->
  (try? (v, d) := dec_varint d in try? x := f v in Some (x, d)) =
    Some (x, advance (length (varint_bytes v)) d).
Proof. intros Hv Hf Hd E. erewrite dec_varint_enc by done. by rewrite Hf. Qed.

Lemma varint_map_val {A} (f : Z -> option A) (P : A -> Prop) d x d' :
  (forall v x, u64 v -> f v = Some x -> P x) -> dec_wf d ->
  (try? (v, d) := dec_varint d in try? x := f v in Some (x, d)) = Some (x, d') ->
  P x /\ dec_step d d'.
Proof.
  intros Hf Hd H. inv_try. apply dec_varint_step in Heqo as [Hv Hs]; eauto.
Qed.

Lemma varint_bytes_ne v : u64 v -> varint_bytes v <> [].
Proof. intros Hv He. pose proof (varint_bytes_length v Hv). rewrite He in *. simpl in *. lia. Qed.
#[export] Hint Resolve varint_bytes_u8 varint_bytes_ne : ottto.

#[export] Instance u64_ok : DurableOk u64_durable.
Proof.
  refine (scalar_ok _ _ u64 varint_bytes _ _ _ _); [done|eauto with ottto|..].
  - intros. by eapply dec_varint_enc.
  - intros. by apply dec_varint_step.
Defined.
#[export] Instance u64_sized : DurableSized u64_durable.
Proof. apply scalar_sized. auto with ottto. Qed.

#[export] Instance usize_ok : DurableOk usize_durable.
Proof.
  refine (scalar_ok _ _ usize varint_bytes _ _ _ _); [|eauto with ottto|..].
  - intros x Hx. unfold usize_put. by rewrite try_uint_ok.
  - intros. eapply varint_map_take; eauto using try_uint_ok.
  - intros. eapply varint_map_val; [|done..]. intros v y Hv Hy. by apply try_uint_Some in Hy as [-> ?].
Defined.
#[export] Instance usize_sized : DurableSized usize_durable.
Proof. apply scalar_sized. auto with ottto. Qed.

Lemma narrow_u64 w v : w <= 64 -> uint w v -> u64 v.
Proof.
  intros Hw [? Hlt]. split; [done|]. eapply Z.lt_le_trans; [exact Hlt|].
  apply Z.pow_le_mono_r; lia.
Qed.

Section Narrow.
Context (w : Z) (Hw : w <= 64).
Definition narrow_ok : DurableOk (narrow_durable w).
Proof.
  refine (scalar_ok _ _ (uint w) varint_bytes _ _ _ _); [done|eauto using narrow_u64 with ottto|..].
  - intros. eapply varint_map_take; eauto using try_uint_ok, narrow_u64.
  - intros. eapply varint_map_val; [|done..]. intros v y Hv Hy. by apply try_uint_Some in Hy as [-> ?].
Defined.
Lemma narrow_sized : DurableSized (DurableOk0 := narrow_ok) (narrow_durable w).
Proof. apply scalar_sized. eauto using narrow_u64 with ottto. Qed.
End Narrow.
Definition u8_durable := narrow_durable 8.
Definition u16_durable := narrow_durable 16.
Definition u32_durable := narrow_durable 32.
#[export] Instance u8_ok : DurableOk u8_durable := narrow_ok 8 ltac:(done).
#[export] Instance u16_ok : DurableOk u16_durable := narrow_ok 16 ltac:(done).
#[export] Instance u32_ok : DurableOk u32_durable := narrow_ok 32 ltac:(done).
#[export] Instance u8_sized : DurableSized u8_durable := narrow_sized 8 ltac:(done).
#[export] Instance u16_sized : DurableSized u16_durable := narrow_sized 16 ltac:(done).
#[export] Instance u32_sized : DurableSized u32_durable := narrow_sized 32 ltac:(done).

#[export] Instance i64_ok : DurableOk i64_durable.
Proof.
  refine (scalar_ok _ _ (sint 64) (fun v => varint_bytes (zigzag v)) _ _ _ _).
  - done.
  - eauto using zigzag_u64 with ottto.
  - intros x d s Hx Hd E. unfold take_signed.
    rewrite (dec_varint_enc (zigzag x) d s) by eauto using zigzag_u64. by rewrite unzigzag_zigzag.
  - intros d x d' Hd H. unfold take_signed in H. inv_try.
    apply dec_varint_step in Heqo as [Hv Hs]; [|done]. split; [by apply unzigzag_sint|done].
Defined.
#[export] Instance i64_sized : DurableSized i64_durable.
Proof. apply scalar_sized. eauto using zigzag_u64 with ottto. Qed.

Lemma sint_32_64 v : sint 32 v -> sint 64 v.
Proof. unfold sint. simpl. lia. Qed.
#[export] Instance i32_ok : DurableOk i32_durable.
Proof.
  refine (scalar_ok _ _ (sint 32) (fun v => varint_bytes (zigzag v)) _ _ _ _).
  - done.
  - eauto using zigzag_u64, sint_32_64 with ottto.
  - intros x d s Hx Hd E. pose proof (sint_32_64 _ Hx). unfold i32_take, take_signed.
    rewrite (dec_varint_enc (zigzag x) d s) by eauto using zigzag_u64.
    by rewrite unzigzag_zigzag, try_sint_ok.
  - intros d x d' Hd H. unfold i32_take, take_signed in H.
    destruct (dec_varint d) as [[raw d1]|] eqn:E; [|done].
    apply dec_varint_step in E as [Hv Hs]; [|done]. inv_try.
    by apply try_sint_Some in Heqo as [-> ?].
Defined.
#[export] Instance i32_sized : DurableSized i32_durable.
Proof. apply scalar_sized. eauto using zigzag_u64, sint_32_64 with ottto. Qed.

Lemma le_bytes_take n z d s :
  dec_wf d -> dec_rest d = to_le_bytes n z ++ s ->
  dec_raw (Z.of_nat n) d = Some (to_le_bytes n z, advance (length (to_le_bytes n z)) d).
Proof.
  intros Hd E. pose proof (dec_raw_app _ _ _ Hd E) as H. unfold slice_len in H.
  by rewrite length_to_le_bytes in *.
Qed.

#[export] Instance u128_ok : DurableOk u128_durable.
Proof.
  refine (scalar_ok _ _ u128 (to_le_bytes 16) _ _ _ _).
  - done.
  - intros. apply to_le_bytes_u8.
  - intros x d s Hx Hd E. unfold u128_take. rewrite (le_bytes_take 16 x d s Hd E : dec_raw 16 d = _).
    rewrite from_to_le_bytes, Z.mod_small by (unfold uint in Hx; simpl; lia). done.
  - intros d x d' Hd H. unfold u128_take in H. inv_try.
    apply dec_raw_step in Heqo as (Hs & Hl & Hb & _); [|done..]. split; [|done].
    pose proof (from_le_bytes_bound _ Hb) as Hbd. rewrite Hl in Hbd. apply Hbd.
Defined.
#[export] Instance u128_sized : DurableSized u128_durable.
Proof. by apply scalar_sized. Qed.

#[export] Instance i128_ok : DurableOk i128_durable.
Proof.
  refine (scalar_ok _ _ (sint 128) (fun x => to_le_bytes 16 (wrap_u 128 x)) _ _ _ _).
  - done.
  - intros. apply to_le_bytes_u8.
  - intros x d s Hx Hd E. unfold i128_take. rewrite (le_bytes_take 16 _ d s Hd E : dec_raw 16 d = _).
    rewrite from_to_le_bytes. change (256 ^ Z.of_nat 16) with (2 ^ 128).
    unfold wrap_u. rewrite Z.mod_mod by lia. do 2 f_equal. unfold sint in Hx.
    change (2 ^ (128 - 1)) with (2 ^ 127) in Hx. unfold wrap_s. change (2 ^ (128 - 1)) with (2 ^ 127).
    rewrite Zplus_mod_idemp_l. rewrite Z.mod_small; lia.
  - intros d x d' Hd H. unfold i128_take in H. inv_try.
    apply dec_raw_step in Heqo as (Hs & Hl & Hb & _); [|done..].
    split; [by apply wrap_s_sint|done].
Defined.
#[export] Instance i128_sized : DurableSized i128_durable.
Proof. by apply scalar_sized. Qed.

#[export] Instance nonzero_u64_ok : DurableOk nonzero_u64_durable.
Proof.
  refine (scalar_ok _ _ (fun v => u64 v /\ v <> 0) varint_bytes _ _ _ _).
  - done.
  - intros x [? ?]. auto with ottto.
  - intros x d s [Hx Hne] Hd E. unfold nonzero_u64_take. erewrite dec_varint_enc by done.
    by rewrite (proj2 (Z.eqb_neq _ _)).
  - intros d x d' Hd H. unfold nonzero_u64_take in H. inv_try. zbool.
    by apply dec_varint_step in Heqo as [? ?].
Defined.
#[export] Instance nonzero_u64_sized : DurableSized nonzero_u64_durable.
Proof. apply scalar_sized. intros x [? _]. auto with ottto. Qed.

#[export] Instance bool_ok : DurableOk bool_durable.
Proof.
  refine (scalar_ok _ _ (fun _ => True) (fun b => [Z.b2z b]) _ _ _ _).
  - done.
  - intros [] _; repeat constructor; done.
  - intros b d s _ Hd E. unfold bool_take.
    rewrite (dec_raw_app [Z.b2z b] s d Hd E : dec_raw 1 d = _). by destruct b.
  - intros d b d' Hd H. unfold bool_take in H.
    destruct (dec_raw 1 d) as [[bs d1]|] eqn:E; [|done].
    apply dec_raw_step in E as (Hs & _); [|done|lia]. split; [done|].
    repeat split_match; by simplify_eq.
Defined.
#[export] Instance bool_sized : DurableSized bool_durable.
Proof. by apply scalar_sized. Qed.

#[export] Instance unit_ok : DurableOk unit_durable.
Proof.
  refine (mkDurableOk _ _ (fun _ => True) id (fun _ _ => tr_ok) _ _ _ _ _).
  - intros. apply traced_ok.
  - intros x mf bs _ H. by simplify_eq/=.
  - intros [] mf bs d s _ H Hd E. simplify_eq/=. by rewrite advance_0.
  - intros d [] d' Hd H. simplify_eq/=. auto with ottto.
  - done.
Defined.

(** A Rust [String]: well-formed UTF-8 no longer than a slice can be. *)
Definition rust_string (s : string) : Prop :=
  utf8_valid (as_bytes s) = true /\ slice_len (as_bytes s) < 2 ^ 63.

Definition len_prefixed (bs : list Z) : list Z := varint_bytes (slice_len bs) ++ bs.
Definition tr_len_prefixed (bs : list Z) : Trace :=
  tr_seq (tr_raw (varint_bytes (slice_len bs))) (tr_raw bs).

Lemma traced_len_prefixed mf bs :
  slice_len bs < 2 ^ 63 -> traced (enc_len_prefixed bs) mf (tr_len_prefixed bs).
Proof.
  intros Hl. pose proof (slice_len_nonneg bs). unfold enc_len_prefixed.
  rewrite wrap_u_small by (unfold uint; lia). unfold enc_varint, tr_len_prefixed. auto with ottto.
Qed.
Lemma tr_len_prefixed_bytes bs : trace_bytes (tr_len_prefixed bs) = Some (len_prefixed bs).
Proof. unfold tr_len_prefixed. by rewrite trace_bytes_seq, !trace_bytes_raw. Qed.
Lemma len_prefixed_u8 bs : slice_len bs < 2 ^ 63 -> Forall u8 bs -> Forall u8 (len_prefixed bs).
Proof.
  intros Hl Hb. apply Forall_app. split; [|done]. apply varint_bytes_u8.
  pose proof (slice_len_nonneg bs). unfold uint. lia.
Qed.
Lemma len_prefixed_ne bs : slice_len bs < 2 ^ 63 -> len_prefixed bs <> [].
Proof.
  intros Hl. unfold len_prefixed. pose proof (slice_len_nonneg bs).
  destruct (varint_bytes (slice_len bs)) eqn:E; [|done].
  by apply varint_bytes_ne in E; [|unfold uint; lia].
Qed.

Lemma string_take_enc s d rest :
  rust_string s -> dec_wf d -> dec_rest d = len_prefixed (as_bytes s) ++ rest ->
  string_take d = Some (s, advance (length (len_prefixed (as_bytes s))) d).
Proof.
  intros [Hv Hl] Hd E. unfold string_take, len_prefixed in *. rewrite <-app_assoc in E.
  rewrite (dec_len_prefixed_enc (as_bytes s) d rest) by (done || lia). by rewrite Hv, of_as_bytes.
Qed.
Lemma string_take_val d s d' :
  dec_wf d -> string_take d = Some (s, d') -> rust_string s /\ dec_step d d'.
Proof.
  intros Hd H. unfold string_take in H. inv_try.
  apply dec_len_prefixed_step in Heqo as (Hs & Hb & Hl); [|done].
  unfold rust_string. by rewrite as_of_bytes.
Qed.

#[export] Instance string_ok : DurableOk string_durable.
Proof.
  refine (mkDurableOk _ _ rust_string id (fun _ s => tr_len_prefixed (as_bytes s)) _ _ _ _ _).
  - intros s mf [_ Hl]. by apply traced_len_prefixed.
  - intros s mf bs [_ Hl]. rewrite tr_len_prefixed_bytes. intros [= <-].
    by apply len_prefixed_u8, as_bytes_u8.
  - intros s mf bs d rest Hs. rewrite tr_len_prefixed_bytes. intros [= <-]. by apply string_take_enc.
  - apply string_take_val.
  - intros d Hd. simpl. unfold string_verify, string_take.
    destruct (dec_len_prefixed d) as [[bs d1]|]; [|done]. by destruct (utf8_valid bs).
Defined.
#[export] Instance string_sized : DurableSized string_durable.
Proof.
  intros s mf bs [_ Hl]. unfold trace, string_ok. rewrite tr_len_prefixed_bytes.
  intros [= <-]. by apply len_prefixed_ne.
Qed.

(** *** Static labels *)
Lemma position_Some s labels i :
  position s labels = Some i -> labels !! i = Some s /\ (i < length labels)%nat.
Proof.
  revert i. induction labels as [|l labels IH]; intros i; [done|]. simpl.
  case_decide; [intros [= <-]; subst; split; [done|lia]|].
  intros (j & Hj & ->)%fmap_Some. apply IH in Hj as [? ?]. split; [done|lia].
Qed.
Arguments position : simpl never.
Definition label_trace (s : string) : Trace :=
  match position s STATIC_LABELS with
  | Some i => tr_raw (varint_bytes (Z.of_nat i))
  | None => tr_refuse UnknownLabel
  end.
Lemma label_index i s : position s STATIC_LABELS = Some i -> u64 (Z.of_nat i).
Proof. intros [_ Hi]%position_Some. simpl in Hi. unfold uint. lia. Qed.

#[export] Instance label_ok : DurableOk label_durable.
Proof.
  refine (mkDurableOk _ _ (fun _ => True) id (fun _ => label_trace) _ _ _ _ _); unfold label_trace.
  - intros s mf _. simpl. unfold label_put. destruct (position s STATIC_LABELS); auto with ottto.
    apply traced_raw.
  - intros s mf bs _ H. destruct (position s STATIC_LABELS) eqn:E; [|done].
    rewrite trace_bytes_raw in H. simplify_eq. eauto using varint_bytes_u8, label_index.
  - intros s mf bs d rest _ H Hd Er. destruct (position s STATIC_LABELS) as [i|] eqn:E; [|done].
    rewrite trace_bytes_raw in H. simplify_eq. simpl. unfold label_take.
    pose proof (label_index _ _ E). erewrite dec_varint_enc, try_uint_ok by done.
    rewrite Nat2Z.id. apply position_Some in E as [-> _]. done.
  - intros d s d' Hd H. simpl in H. unfold label_take in H. inv_try.
    by apply dec_varint_step in Heqo as [? ?].
  - done.
Defined.

#[export] Instance path_ok : DurableOk path_durable.
Proof.
  refine (mkDurableOk _ _ rust_string id (fun _ _ => tr_refuse (NonEmpty "PathBuf")) _ _ _ _ _).
  - intros. apply traced_refuse.
  - done.
  - done.
  - apply string_take_val.
  - apply (verify_take (D := string_durable)).
Defined.
