(* ===== verification/DurableEntries.v ===== *)
(** Sequences of entries in the durable tail codec: the loops that write and
    read them, the duplicate check of sets and maps, and the allocation-free
    [verify_entries] walk that must agree with it
    (crates/ottto-service/src/durable_tail_codec.rs). *)
From S2P Require Import Prelude OrdMap DurableCodec DurableTypes.
Local Open Scope Z_scope.

(** [for item in items { item.put(e)?; }] *)
Fixpoint put_each {T} (p : T -> EncM) (items : list T) : EncM :=
  match items with [] => enc_ok | x :: items => p x ;;; put_each p items end.
Definition put_seq {T} (p : T -> EncM) (items : list T) : EncM :=
  enc_varint (wrap_u 64 (Z.of_nat (length items))) ;;; put_each p items.

(** [for _ in 0..len { out.push(T::take(d)?); }] *)
Fixpoint take_times {T} (n : nat) (t : DecM T) : DecM (list T) := fun d =>
  match n with
  | O => Some ([], d)
  | S n => try? (x, d) := t d in try? (xs, d) := take_times n t d in Some (x :: xs, d)
  end.
Fixpoint verify_times (n : nat) (v : Dec -> option Dec) (d : Dec) : option Dec :=
  match n with
  | O => Some d
  | S n => try? d := v d in verify_times n v d
  end.
Definition verify_seq (item : Dec -> option Dec) (d : Dec) : option Dec :=
  try? (len, d) := take_len d in verify_times (Z.to_nat len) item d.

(** ** The borrowed-key walk *)
Section VerifyEntries.
Context {V : Type} `{RustOrd V} (key : DecM V) (value : Dec -> option Dec).

(** Re-walks the first [i] entries and refuses a key equal to [current]. *)
Fixpoint rewalk (i : nat) (current : V) (earlier : Dec) : option Dec :=
  match i with
  | O => Some earlier
  | S i =>
      try? (k, earlier) := key earlier in
      if reqb k current then None
      else try? earlier := value earlier in rewalk i current earlier
  end.

Fixpoint verify_loop (n i : nat) (start : Dec) (previous : option V) (sorted : bool) (d : Dec)
    : option Dec :=
  match n with
  | O => Some d
  | S n =>
      try? (current, d) := key d in
      let sorted :=
        match previous with Some p => sorted && rltb p current | None => sorted end in
      if (if sorted then true
          else match rewalk i current start with Some _ => true | None => false end)
      then try? d := value d in verify_loop n (S i) start (Some current) sorted d
      else None
  end.

Definition verify_entries_bounded (max : Z) (d : Dec) : option Dec :=
  try? (len, d) := take_len d in
  if max <? len then None else verify_loop (Z.to_nat len) 0 d None true d.

(** The keys of the first [n] entries. *)
Fixpoint walk (n : nat) (d : Dec) : option (list V * Dec) :=
  match n with
  | O => Some ([], d)
  | S n =>
      try? (k, d) := key d in
      try? d := value d in
      try? (ks, d) := walk n d in Some (k :: ks, d)
  end.
End VerifyEntries.
(** [verify_entries] passes [usize::MAX]. *)
Definition verify_entries {V} `{RustOrd V} (key : DecM V) (value : Dec -> option Dec) :=
  verify_entries_bounded key value (umax 64).

Section VerifyEntriesSpec.
Context {V : Type} `{RustOrdLaws V} (key : DecM V) (value : Dec -> option Dec).
Abbreviation walk := (walk key value).
Abbreviation rewalk := (rewalk key value).
Abbreviation verify_loop := (verify_loop key value).

Lemma walk_S n d :
  walk (S n) d =
    (try? (k, d) := key d in try? d := value d in
     try? (ks, d) := walk n d in Some (k :: ks, d)).
Proof. done. Qed.

Lemma walk_snoc n d ks d1 k d2 d3 :
  walk n d = Some (ks, d1) -> key d1 = Some (k, d2) -> value d2 = Some d3 ->
  walk (S n) d = Some (ks ++ [k], d3).
Proof.
  revert d ks. induction n as [|n IH]; intros d ks Hw Hk Hv.
  { simplify_eq/=. by rewrite Hk, Hv. }
  rewrite walk_S. rewrite walk_S in Hw.
  destruct (key d) as [[k0 e1]|] eqn:Ek; [|done].
  destruct (value e1) as [e2|] eqn:Ev; [|done].
  destruct (walk n e2) as [[ks' e3]|] eqn:Ew; [|done].
  injection Hw as <- <-. by rewrite (IH _ _ Ew Hk Hv).
Qed.

Lemma rewalk_spec i cur start ks d :
  walk i start = Some (ks, d) ->
  match rewalk i cur start with Some _ => true | None => false end = bool_decide (cur ∉ ks).
Proof.
  revert start ks. induction i as [|i IH]; intros start ks Hw; cbn in Hw |- *.
  { simplify_eq. rewrite bool_decide_eq_true_2; [done|]. apply not_elem_of_nil. }
  inv_try. destruct (reqb v cur) eqn:Er.
  - apply reqb_spec in Er as ->. rewrite bool_decide_eq_false_2; [done|]. set_solver.
  - apply reqb_false in Er. rewrite (IH _ _ Heqo1). apply bool_decide_ext.
    rewrite not_elem_of_cons. naive_solver.
Qed.

(** What the loop knows after [i] entries. *)
Record walked (i : nat) (start d : Dec) (ks : list V) (previous : option V) (sorted : bool) : Prop := {
  walked_walk : walk i start = Some (ks, d);
  walked_nodup : NoDup ks;
  walked_last : previous = last ks;
  walked_sorted : sorted = true -> StronglySorted rlt ks;
}.

Lemma sorted_snoc (ks : list V) (k : V) :
  StronglySorted rlt ks -> (forall p, last ks = Some p -> rlt p k) ->
  StronglySorted rlt (ks ++ [k]) /\ k ∉ ks.
Proof.
  intros Hs Hl. assert (Hall : forall p, p ∈ ks -> rlt p k).
  { clear -Hs Hl H0. induction Hs as [|p ks Hs IH Hp]; intros q Hq; [by apply not_elem_of_nil in Hq|].
    apply elem_of_cons in Hq as [->|Hq].
    - destruct ks as [|q' ks]; [by apply Hl|].
      rewrite Forall_forall in Hp. destruct (last (q' :: ks)) as [z|] eqn:Ez.
      + transitivity z; [apply Hp, last_Some_elem_of, Ez|]. by apply Hl.
      + by apply last_None in Ez.
    - apply IH; [|done]. intros z Hz. apply Hl. destruct ks; [done|]. by rewrite last_cons, Hz. }
  split.
  - apply (ksorted_app id ks [k]). split; [done|]. split; [repeat constructor|].
    intros a b Ha ->%list_elem_of_singleton. by apply Hall.
  - intros Hin. by apply Hall, rlt_irrefl in Hin.
Qed.

Lemma verify_loop_spec n i start previous sorted d ks :
  walked i start d ks previous sorted ->
  verify_loop n i start previous sorted d =
    (try? (ks', d') := walk n d in
     if bool_decide (NoDup (ks ++ ks')) then Some d' else None).
Proof.
  revert i previous sorted d ks. induction n as [|n IH]; intros i previous sorted d ks Hw; cbn.
  { rewrite app_nil_r, bool_decide_eq_true_2; [done|]. apply Hw. }
  destruct (key d) as [[k d1]|] eqn:Ek; [|done].
  set (sorted' := match previous with Some p => sorted && rltb p k | None => sorted end).
  assert (Hs' : sorted' = true -> StronglySorted rlt (ks ++ [k]) /\ k ∉ ks).
  { intros Hs. apply sorted_snoc.
    - apply Hw. destruct previous; [by apply andb_prop in Hs as [? _]|done].
    - intros p Hp. rewrite <-(walked_last _ _ _ _ _ _ Hw) in Hp. subst previous.
      subst sorted'. apply andb_prop in Hs as [_ Hs]. by apply rltb_spec. }
  rewrite (rewalk_spec _ _ _ _ _ (walked_walk _ _ _ _ _ _ Hw)).
  assert ((if sorted' then true else bool_decide (k ∉ ks)) = bool_decide (k ∉ ks)) as ->.
  { destruct sorted'; [|done]. symmetry. apply bool_decide_eq_true_2. by apply Hs'. }
  destruct (value d1) as [d2|] eqn:Ev; [|by destruct (bool_decide _)].
  case_bool_decide as Hk.
  - rewrite (IH _ _ _ _ (ks ++ [k])).
    + destruct (walk n d2) as [[ks' d']|]; [|done]. by rewrite <-app_assoc.
    + split.
      * eapply walk_snoc; [apply Hw|done|done].
      * apply NoDup_app. split; [apply Hw|]. split; [|apply NoDup_singleton].
        intros x Hx ->%list_elem_of_singleton. done.
      * by rewrite last_snoc.
      * intros Hs. by apply Hs'.
  - destruct (walk n d2) as [[ks' d']|]; [|done].
    rewrite bool_decide_eq_false_2; [done|]. intros (_ & Hd & _)%NoDup_app.
    apply (Hd k Hk), elem_of_cons. by left.
Qed.

(** The walk accepts exactly the entries whose keys are pairwise distinct. *)
Lemma verify_entries_spec max d :
  verify_entries_bounded key value max d =
    (try? (len, d) := take_len d in
     if max <? len then None else
     try? (ks, d) := walk (Z.to_nat len) d in
     if bool_decide (NoDup ks) then Some d else None).
Proof.
  unfold verify_entries_bounded. destruct (take_len d) as [[len d1]|]; [|done].
  destruct (max <? len); [done|].
  rewrite (verify_loop_spec _ _ _ _ _ _ []); [done|].
  split; [done|constructor|done|constructor].
Qed.
End VerifyEntriesSpec.

(** ** Laws of the loops over any lawful entry *)
Definition tr_each {T} (tr : T -> Trace) (xs : list T) : Trace :=
  foldr (fun x t => tr_seq (tr x) t) tr_ok xs.

Section Loops.
Context {T : Type} {D : Durable T} {Dok : DurableOk D}.
Implicit Types (xs : list T) (d : Dec).

Lemma put_each_traced xs mf :
  Forall dval xs -> traced (put_each put xs) mf (tr_each (trace mf) xs).
Proof. induction 1; simpl; auto using put_traced with ottto. Qed.

Lemma tr_each_u8 xs mf bs :
  Forall dval xs -> trace_bytes (tr_each (trace mf) xs) = Some bs -> Forall u8 bs.
Proof.
  intros Hx. revert bs. induction Hx as [|x xs Hx _ IH]; intros bs; cbn.
  { by intros [= <-]. }
  intros (b1 & b2 & H1 & H2 & ->)%trace_bytes_seq_Some.
  apply Forall_app. eauto using put_u8.
Qed.

Lemma tr_each_sized `{!DurableSized D} xs mf bs :
  Forall dval xs -> trace_bytes (tr_each (trace mf) xs) = Some bs ->
  (length xs <= length bs)%nat.
Proof.
  intros Hx. revert bs. induction Hx as [|x xs Hx _ IH]; intros bs; cbn; [lia|].
  intros (b1 & b2 & H1 & H2 & ->)%trace_bytes_seq_Some. apply IH in H2.
  apply sized in H1; [|done]. rewrite length_app. destruct b1; [done|]. simpl. lia.
Qed.

Lemma take_times_put xs mf bs d s :
  Forall dval xs -> trace_bytes (tr_each (trace mf) xs) = Some bs ->
  dec_wf d -> dec_rest d = bs ++ s ->
  take_times (length xs) dtake d = Some (retained <$> xs, advance (length bs) d).
Proof.
  intros Hx. revert bs d. induction Hx as [|x xs Hx _ IH]; intros bs d; cbn.
  { intros [= <-] _ _. by rewrite advance_0. }
  intros (b1 & b2 & H1 & H2 & ->)%trace_bytes_seq_Some Hd E. rewrite <-app_assoc in E.
  erewrite take_put by done. erewrite IH; [by rewrite advance_app|done|..].
  - by eapply dec_wf_advance_app.
  - by eapply dec_rest_advance_app.
Qed.

(** A value some decode produced. *)
Definition decoded (x : T) : Prop :=
  exists d d', dec_wf d /\ dtake d = Some (x, d').

Lemma take_times_val n d xs d' :
  dec_wf d -> take_times n dtake d = Some (xs, d') ->
  Forall dval xs /\ Forall decoded xs /\ length xs = n /\ dec_step d d'.
Proof.
  revert d xs. induction n as [|n IH]; intros d xs Hd; cbn.
  { intros [= <- <-]. split_and!; auto with ottto. }
  destruct (dtake d) as [[x d1]|] eqn:E; [|done].
  destruct (take_val _ _ _ Hd E) as [Hx Hs]. pose proof (dec_step_wf _ _ Hs Hd) as Hd1.
  destruct (take_times n dtake d1) as [[ys d2]|] eqn:E2; [|done]. intros [= <- <-].
  destruct (IH _ _ Hd1 E2) as (Hv & Hdec & <- & Hs2).
  split_and!; [by constructor|constructor; [by exists d, d1|done]|done|by eapply dec_step_trans].
Qed.

Lemma verify_times_take n d :
  dec_wf d -> verify_times n verify d = option_map snd (take_times n dtake d).
Proof.
  revert d. induction n as [|n IH]; intros d Hd; cbn; [done|].
  rewrite verify_take by done. destruct (dtake d) as [[x d1]|] eqn:E; [|done]. cbn.
  apply take_val in E as [_ Hs]; [|done]. rewrite IH by eauto with ottto.
  by destruct (take_times n dtake d1) as [[]|].
Qed.
End Loops.
