(* ===== verification/DurableContainers.v ===== *)
(** Containers in the durable tail codec: options, boxes, tuples, sequences,
    fixed and grown arrays, sets and maps, and their use as keys
    (crates/ottto-service/src/durable_tail_codec.rs).

    Each is a dictionary over the dictionaries of its parts, with the walk in
    the order of the code.  The laws come from one construction ([counted_ok])
    for everything stored as a length and its entries. *)
From S2P Require Import Prelude OrdMap DurableCodec DurableTypes DurableEntries.
Local Open Scope Z_scope.

(** ** Options and boxes *)
Definition option_put {T} (p : T -> EncM) (x : option T) : EncM :=
  match x with None => enc_raw [0] | Some v => enc_raw [1] ;;; p v end.
(** [match d.raw(1)?[0] { 0 => .., 1 => .., _ => Err(Corrupt) }]. *)
Definition option_tag {A} (none : Dec -> option A) (some : Dec -> option A) (d : Dec) : option A :=
  try? (bs, d) := dec_raw 1 d in
  match bs with [0] => none d | [1] => some d | _ => None end.
Definition option_take {T} (t : DecM T) : DecM (option T) :=
  option_tag (fun d => Some (None, d)) (fun d => try? (v, d) := t d in Some (Some v, d)).
Definition option_verify (v : Dec -> option Dec) : Dec -> option Dec := option_tag Some v.
Definition option_durable {T} (D : Durable T) : Durable (option T) := {|
  put := option_put put; dtake := option_take dtake; verify := option_verify verify |}.
Definition option_key {T} {D : Durable T} (K : DurableKey D) : DurableKey (option_durable D) := {|
  View := option (View K); key := option_take (key K) |}.

(** [Box<T>] forwards to its content. *)
Definition box_durable {T} (D : Durable T) : Durable T := {|
  put x := put x; dtake d := dtake d; verify d := verify d |}.

(** ** Tuples *)
Definition pair_take {A B} (ta : DecM A) (tb : DecM B) : DecM (A * B) := fun d =>
  try? (a, d) := ta d in try? (b, d) := tb d in Some ((a, b), d).
Definition pair_durable {A B} (DA : Durable A) (DB : Durable B) : Durable (A * B) := {|
  put x := put x.1 ;;; put x.2;
  dtake := pair_take dtake dtake;
  verify d := try? d := @verify _ DA d in @verify _ DB d |}.
Definition pair_key {A B} {DA : Durable A} {DB : Durable B} (KA : DurableKey DA) (KB : DurableKey DB)
    : DurableKey (pair_durable DA DB) := {|
  View := View KA * View KB; key := pair_take (key KA) (key KB) |}.

Definition triple_take {A B C} (ta : DecM A) (tb : DecM B) (tc : DecM C) : DecM (A * B * C) := fun d =>
  try? (a, d) := ta d in try? (b, d) := tb d in try? (c, d) := tc d in Some ((a, b, c), d).
Definition triple_durable {A B C} (DA : Durable A) (DB : Durable B) (DC : Durable C)
    : Durable (A * B * C) := {|
  put x := let '(a, b, c) := x in put a ;;; put b ;;; put c;
  dtake := triple_take dtake dtake dtake;
  verify d := try? d := @verify _ DA d in try? d := @verify _ DB d in @verify _ DC d |}.
Definition triple_key {A B C} {DA : Durable A} {DB : Durable B} {DC : Durable C}
    (KA : DurableKey DA) (KB : DurableKey DB) (KC : DurableKey DC)
    : DurableKey (triple_durable DA DB DC) := {|
  View := View KA * View KB * View KC; key := triple_take (key KA) (key KB) (key KC) |}.

(** ** Sequences: [Vec], [VecDeque], [OwnedVec] *)
Definition vec_take {T} (t : DecM T) : DecM (list T) := fun d =>
  try? (len, d) := take_len d in take_times (Z.to_nat len) t d.
Definition vec_durable {T} (D : Durable T) : Durable (list T) := {|
  put := put_seq put; dtake := vec_take dtake; verify := verify_seq verify |}.
Definition vec_deque_durable {T} (D : Durable T) : Durable (list T) := {|
  put := put_seq put; dtake := vec_take dtake; verify := @verify _ (vec_durable D) |}.
Definition owned_vec_durable {T} (D : Durable T) : Durable (list T) := {|
  put := put_seq put; dtake := vec_take dtake; verify := @verify _ (vec_durable D) |}.

(** ** Fixed arrays [T; N] *)
Definition try_into_array {T} (n : nat) (xs : list T) : option (list T) :=
  if decide (length xs = n) then Some xs else None.
Definition array_durable {T} (n : nat) (D : Durable T) : Durable (list T) := {|
  put := put_each put;
  dtake d := try? (xs, d) := take_times n dtake d in try? xs := try_into_array n xs in Some (xs, d);
  verify := verify_times n verify |}.

(** ** Grown arrays: [G] fields store their length *)
Definition grown_len (n : nat) : DecM Z := fun d =>
  try? (v, d) := dec_varint d in
  try? len := try_uint 64 v in
  if len <=? Z.of_nat n then Some (len, d) else None.
(** [Vec::resize_with]. *)
Definition resize {T} (n : nat) (pad : T) (xs : list T) : list T :=
  take n xs ++ replicate (n - length xs) pad.
Definition put_grown {T} (n : nat) (p : T -> EncM) (xs : list T) : EncM :=
  enc_varint (wrap_u 64 (Z.of_nat n)) ;;; put_each p xs.
Definition take_grown {T} (n : nat) (t : DecM T) (pad : T) : DecM (list T) := fun d =>
  try? (stored, d) := grown_len n d in
  try? (out, d) := take_times (Z.to_nat stored) t d in
  try? out := try_into_array n (resize n pad out) in Some (out, d).
Definition verify_grown (n : nat) (v : Dec -> option Dec) (d : Dec) : option Dec :=
  try? (len, d) := grown_len n d in verify_times (Z.to_nat len) v d.
Definition grown_durable {T} (n : nat) (D : Durable T) (pad : T) : Durable (list T) := {|
  put := put_grown n put; dtake := take_grown n dtake pad; verify := verify_grown n verify |}.

(** ** Sets and maps *)
(** [for _ in 0..len { out = step(out, T::take(d)?)?; }]. *)
Fixpoint take_fold {T S} (n : nat) (t : DecM T) (step : S -> T -> option S) (out : S) : DecM S := fun d =>
  match n with
  | O => Some (out, d)
  | S n => try? (x, d) := t d in try? out := step out x in take_fold n t step out d
  end.

(** [if !out.insert(x) { return Err(Corrupt) }]. *)
Definition set_step {T} `{RustOrd T} (out : list T) (x : T) : option (list T) :=
  match bs_insert x out with (out, true) => Some out | (_, false) => None end.
Definition set_take {T} `{RustOrd T} (t : DecM T) : DecM (list T) := fun d =>
  try? (len, d) := take_len d in take_fold (Z.to_nat len) t set_step [] d.
Definition set_durable {T} `{RustOrd T} {D : Durable T} (K : DurableKey D) : Durable (list T) := {|
  put := put_seq put; dtake := set_take dtake; verify := verify_entries (key K) Some |}.

(** [if out.insert(key, value).is_some() { return Err(Corrupt) }]. *)
Definition map_step {K V} `{RustOrd K} (out : list (K * V)) (kv : K * V) : option (list (K * V)) :=
  match bt_insert kv.1 kv.2 out with (out, None) => Some out | (_, Some _) => None end.
Definition map_take {K V} `{RustOrd K} (tk : DecM K) (tv : DecM V) : DecM (list (K * V)) := fun d =>
  try? (len, d) := take_len d in take_fold (Z.to_nat len) (pair_take tk tv) map_step [] d.
Definition put_map {K V} (pk : K -> EncM) (pv : V -> EncM) (items : list (K * V)) : EncM :=
  enc_varint (wrap_u 64 (Z.of_nat (length items))) ;;; put_each (fun kv => pk kv.1 ;;; pv kv.2) items.
(** [BTreeMap<K, V>] and [OwnedMap<K, V>]. *)
Definition map_durable {K V} `{RustOrd K} {DK : Durable K} (KK : DurableKey DK) (DV : Durable V)
    : Durable (list (K * V)) := {|
  put := put_map put put; dtake := map_take dtake dtake; verify := verify_entries (key KK) (@verify _ DV) |}.

(** ** Laws: options and tuples *)
Section OptionLaws.
Context {T : Type} {D : Durable T} {Dok : DurableOk D}.

Definition option_trace (mf : option string) (x : option T) : Trace :=
  match x with None => tr_raw [0] | Some v => tr_seq (tr_raw [1]) (trace mf v) end.

Lemma option_tag_enc {A} tag (none some : Dec -> option A) d s :
  dec_wf d -> dec_rest d = tag :: s -> tag = 0 \/ tag = 1 ->
  option_tag none some d = if tag =? 0 then none (advance 1 d) else some (advance 1 d).
Proof.
  intros Hd E Ht. unfold option_tag.
  rewrite (dec_raw_app [tag] s d Hd E : dec_raw 1 d = _). by destruct Ht as [->| ->].
Qed.
(** Reading a tag reads one byte and then goes on in one of two ways. *)
Lemma option_tag_cases {A} d :
  dec_wf d ->
  (exists d1, dec_step d d1 /\ forall none some : Dec -> option A, option_tag none some d = none d1) \/
  (exists d1, dec_step d d1 /\ forall none some : Dec -> option A, option_tag none some d = some d1) \/
  (forall none some : Dec -> option A, option_tag none some d = None).
Proof.
  intros Hd. unfold option_tag. destruct (dec_raw 1 d) as [[bs d1]|] eqn:E; [|auto].
  apply dec_raw_step in E as (Hs & _); [|done|lia].
  destruct bs as [|[|[]|] []]; eauto.
Qed.

#[export] Instance option_ok : DurableOk (option_durable D).
Proof.
  refine (mkDurableOk _ _ (fun x => match x with Some v => dval v | None => True end)
    (option_map retained) option_trace _ _ _ _ _).
  - intros [v|] mf Hv; cbn; auto using put_traced with ottto.
  - intros [v|] mf bs Hv Hb; cbn in Hb; tr_inv; [|by repeat constructor].
    constructor; [done|]. by eapply put_u8.
  - intros [v|] mf bs d s Hv Hb Hd E; cbn in Hb; tr_inv; cbn; unfold option_take.
    + rewrite <-app_assoc in E. rewrite (option_tag_enc 1 _ _ d (x0 ++ s)) by auto.
      dec_at E. cbn in *. rewrite (take_put _ _ _ _ s Hv H0 Hd0 E0).
      by rewrite (advance_app [1]).
    + by rewrite (option_tag_enc 0 _ _ d s) by auto.
  - intros d x d' Hd. cbn. unfold option_take.
    destruct (option_tag_cases (A := option T * Dec) d Hd) as [(d1 & Hs & ->)|[(d1 & Hs & ->)| ->]].
    + by intros [= <- <-].
    + intros. inv_try. apply take_val in Heqo as [? ?]; [|by eauto with ottto].
      split; [done|by eapply dec_step_trans].
    + done.
  - intros d Hd. cbn. unfold option_verify, option_take, option_tag.
    destruct (dec_raw 1 d) as [[bs d1]|] eqn:E; [|done].
    apply dec_raw_step in E as (Hs & _); [|done|lia].
    destruct bs as [|[|[]|] []]; try done. rewrite verify_take by eauto with ottto.
    by destruct (dtake d1) as [[]|].
Defined.

#[export] Instance option_sized : DurableSized (option_durable D).
Proof.
  intros [v|] mf bs Hv Hb; cbn in Hb; by tr_inv.
Qed.

#[export] Instance option_key_ok (K : DurableKey D) `{!DurableKeyOk K} : DurableKeyOk (option_key K).
Proof.
  refine {| view := option_map view : option T -> View (option_key K) |}.
  - intros d Hd. cbn. unfold option_take.
    unfold option_tag. destruct (dec_raw 1 d) as [[bs d1]|] eqn:E; [|done].
    apply dec_raw_step in E as (Hs & _); [|done|lia].
    destruct bs as [|[|[]|] []]; try done. rewrite key_take by eauto with ottto.
    by destruct (dtake d1) as [[]|].
  - intros d1 x d1' d2 y d2' Hd1 Hd2. cbn. unfold option_take.
    destruct (option_tag_cases (A := option T * Dec) d1 Hd1) as [(e1 & Hs1 & ->)|[(e1 & Hs1 & ->)| ->]];
      destruct (option_tag_cases (A := option T * Dec) d2 Hd2) as [(e2 & Hs2 & ->)|[(e2 & Hs2 & ->)| ->]];
      intros; inv_try; try done.
    f_equal. by eapply (view_inj e1 _ _ e2); eauto with ottto.
  - intros [x|] Hx; cbn; [|done]. by rewrite key_retained.
Defined.
End OptionLaws.

Section BoxLaws.
Context {T : Type} {D : Durable T} {Dok : DurableOk D}.

#[export] Instance box_ok : DurableOk (box_durable D).
Proof.
  refine (mkDurableOk _ _ (dval (D := D)) retained trace _ _ _ _ _);
    [exact put_traced|exact put_u8|exact take_put|exact (take_val (D := D))|exact (verify_take (D := D))].
Defined.
#[export] Instance box_sized `{!DurableSized D} : DurableSized (box_durable D).
Proof. intros x mf bs Hx Hb. exact (sized (D := D) x mf bs Hx Hb). Qed.
End BoxLaws.

Lemma pair_take_inv {A B} (ta : DecM A) (tb : DecM B) d a b d' :
  pair_take ta tb d = Some ((a, b), d') ->
  exists d1, ta d = Some (a, d1) /\ tb d1 = Some (b, d').
Proof. unfold pair_take. intros. inv_try. eauto. Qed.

Section PairLaws.
Context {A B : Type} {DA : Durable A} {DB : Durable B} {OA : DurableOk DA} {OB : DurableOk DB}.

Definition pair_trace (mf : option string) (x : A * B) : Trace :=
  tr_seq (trace mf x.1) (trace mf x.2).

#[export] Instance pair_ok : DurableOk (pair_durable DA DB).
Proof.
  refine (mkDurableOk _ _ (fun x => dval x.1 /\ dval x.2)
    (fun x => (retained x.1, retained x.2)) pair_trace _ _ _ _ _).
  - intros [a b] mf [Ha Hb]. apply traced_seq; by apply put_traced.
  - intros [a b] mf bs [Ha Hb] Ht. unfold pair_trace in Ht. tr_inv.
    apply Forall_app. split; [exact (put_u8 a _ _ Ha H)|exact (put_u8 b _ _ Hb H0)].
  - intros [a b] mf bs d s [Ha Hb] Ht Hd E. unfold pair_trace in Ht. tr_inv.
    rewrite <-app_assoc in E. cbn. unfold pair_take. erewrite take_put by done.
    dec_at E. erewrite take_put by done. by rewrite advance_app.
  - intros d [a b] d' Hd. cbn. unfold pair_take.
    destruct (@dtake _ DA d) as [[a' d1]|] eqn:E1; [|done].
    apply take_val in E1 as [Ha Hs1]; [|done]. pose proof (dec_step_wf _ _ Hs1 Hd) as Hd1.
    destruct (@dtake _ DB d1) as [[b' d2]|] eqn:E2; [|done].
    apply take_val in E2 as [Hb Hs2]; [|done]. intros [= <- <- <-].
    split; [done|by eapply dec_step_trans].
  - intros d Hd. cbn. unfold pair_take. rewrite verify_take by done.
    destruct (@dtake _ DA d) as [[a' d1]|] eqn:E1; [|done]. cbn.
    apply take_val in E1 as [_ Hs1]; [|done]. rewrite verify_take by eauto with ottto.
    by destruct (@dtake _ DB d1) as [[]|].
Defined.

(** Either half that takes a byte sizes the pair. *)
Lemma pair_sized_l `{!DurableSized DA} : DurableSized (pair_durable DA DB).
Proof.
  intros [a b] mf bs [Ha Hb] Ht. cbn in Ht. unfold pair_trace in Ht. tr_inv.
  intros [-> _]%app_eq_nil. by eapply sized.
Qed.
Lemma pair_sized_r `{!DurableSized DB} : DurableSized (pair_durable DA DB).
Proof.
  intros [a b] mf bs [Ha Hb] Ht. cbn in Ht. unfold pair_trace in Ht. tr_inv.
  intros [_ ->]%app_eq_nil. by eapply (sized b).
Qed.

#[export] Instance pair_key_ok (KA : DurableKey DA) (KB : DurableKey DB)
  `{!DurableKeyOk KA, !DurableKeyOk KB} : DurableKeyOk (pair_key KA KB).
Proof.
  refine {| view := fun x => (view x.1, view x.2) : View (pair_key KA KB) |}.
  - intros d Hd. cbn. unfold pair_take. rewrite key_take by done.
    destruct (@dtake _ DA d) as [[a d1]|] eqn:E1; [|done].
    apply take_val in E1 as [_ Hs1]; [|done]. rewrite key_take by eauto with ottto.
    by destruct (@dtake _ DB d1) as [[]|].
  - intros d1 [x1 x2] d1' d2 [y1 y2] d2' Hd1 Hd2 (e1 & Hx1 & Hx2)%pair_take_inv
      (e2 & Hy1 & Hy2)%pair_take_inv [= Hv1 Hv2].
    pose proof (take_val _ _ _ Hd1 Hx1) as [_ Hs1]. pose proof (take_val _ _ _ Hd2 Hy1) as [_ Hs2].
    f_equal; [by eapply (view_inj d1 _ _ d2)|].
    eapply view_inj; [..|exact Hx2|exact Hy2|done]; by eapply dec_step_wf.
  - intros [a b] [Ha Hb]. cbn. by rewrite !key_retained.
Defined.
End PairLaws.
#[export] Existing Instance pair_sized_l | 1.
#[export] Existing Instance pair_sized_r | 2.

(** A dictionary that walks like another one through a change of
    representation (tuples as nested pairs, structs as their fields). *)
Section Iso.
Context {T S : Type} {D : Durable T} {Dok : DurableOk D} (D' : Durable S).
Context (f : T -> S) (g : S -> T) (fg : forall s, f (g s) = s) (gf : forall t, g (f t) = t).
Context (Hput : forall s, @put _ D' s = put (g s)).
Context (Htake : forall d, @dtake _ D' d = (try? (x, d') := dtake d in Some (f x, d'))).
Context (Hverify : forall d, dec_wf d -> @verify _ D' d = @verify _ D d).

Definition iso_ok : DurableOk D'.
Proof.
  refine (mkDurableOk _ D' (fun s => dval (g s)) (fun s => f (retained (g s)))
    (fun mf s => trace mf (g s)) _ _ _ _ _).
  - intros s mf Hs. rewrite Hput. by apply put_traced.
  - intros s mf bs Hs Hb. by eapply put_u8.
  - intros s mf bs d r Hs Hb Hd E. rewrite Htake. by erewrite take_put.
  - intros d s d' Hd. rewrite Htake.
    destruct (dtake d) as [[x d1]|] eqn:E; [|done]. intros [= <- <-]. rewrite gf.
    by apply take_val in E.
  - intros d Hd. rewrite Hverify, Htake, verify_take by done. by destruct (dtake d) as [[]|].
Defined.

Lemma iso_sized `{!DurableSized D} : DurableSized (DurableOk0 := iso_ok) D'.
Proof. intros s mf bs Hs Hb. exact (sized (D := D) (g s) mf bs Hs Hb). Qed.

Context {K : DurableKey D} {Kok : DurableKeyOk K} (K' : DurableKey D').
Context (fv : View K -> View K').
Context (fv_inj : forall a b, fv a = fv b -> a = b).
Context (Hlaws : @RustOrdLaws (View K') (view_ord K')).
Context (Hkey : forall d, key K' d = (try? (v, d') := key K d in Some (fv v, d'))).
Definition iso_key_ok : DurableKeyOk (DurableOk0 := iso_ok) K'.
Proof.
  refine (@mkDurableKeyOk _ _ K' iso_ok (fun s => fv (view (g s))) Hlaws _ _ _).
  - intros d Hd. rewrite Hkey, Htake, key_take by done.
    destruct (dtake d) as [[x d1]|] eqn:E; [|done]. by rewrite gf.
  - intros d1 x d1' d2 y d2' Hd1 Hd2. rewrite !Htake. intros Hx Hy Hv%fv_inj.
    destruct (dtake d1) as [[x1 e1]|] eqn:E1; [|done].
    destruct (dtake d2) as [[x2 e2]|] eqn:E2; [|done]. simplify_eq. rewrite !gf in Hv.
    f_equal. by eapply (view_inj d1 _ _ d2).
  - intros s Hs. cbn. by rewrite key_retained, fg.
Defined.
End Iso.

Section TripleLaws.
Context {A B C : Type} {DA : Durable A} {DB : Durable B} {DC : Durable C}.
Context {OA : DurableOk DA} {OB : DurableOk DB} {OC : DurableOk DC}.

Definition triple_of {X Y Z} (x : X * (Y * Z)) : X * Y * Z := (x.1, x.2.1, x.2.2).
Definition nest_triple {X Y Z} (x : X * Y * Z) : X * (Y * Z) := (x.1.1, (x.1.2, x.2)).

Lemma triple_nest_take {X Y Z} (tx : DecM X) (ty : DecM Y) (tz : DecM Z) d :
  triple_take tx ty tz d =
    (try? (x, d') := pair_take tx (pair_take ty tz) d in Some (triple_of x, d')).
Proof.
  unfold triple_take, pair_take. destruct (tx d) as [[x d1]|]; [|done].
  destruct (ty d1) as [[y d2]|]; [|done]. by destruct (tz d2) as [[]|].
Qed.

#[export] Instance triple_ok : DurableOk (triple_durable DA DB DC).
Proof.
  refine (iso_ok (D := pair_durable DA (pair_durable DB DC)) _ triple_of nest_triple _ _ _ _).
  - by intros [x [y z]].
  - by intros [[x y] z].
  - apply triple_nest_take.
  - done.
Defined.

#[export] Instance triple_key_ok (KA : DurableKey DA) (KB : DurableKey DB) (KC : DurableKey DC)
  `{!DurableKeyOk KA, !DurableKeyOk KB, !DurableKeyOk KC} : DurableKeyOk (triple_key KA KB KC).
Proof.
  refine (iso_key_ok (K := pair_key KA (pair_key KB KC)) _ _ _ _ _ _ _ _
    (triple_key KA KB KC) triple_of _ _ _).
  - by intros [[x y] z].
  - intros [a [b c]] [a' [b' c']]. by intros [= -> -> ->].
  - apply triple_nest_take.
Defined.
End TripleLaws.

(** ** Laws: a length and its entries

    [S] is a collection of [T]s: [elems] lists them in stored order and
    [build] is what the decoding loop makes of the decoded entries. *)
Definition seq_trace {T} (tr : T -> Trace) (xs : list T) : Trace :=
  tr_seq (tr_raw (varint_bytes (Z.of_nat (length xs)))) (tr_each tr xs).
Definition slice_sized {T} (xs : list T) : Prop := Z.of_nat (length xs) < 2 ^ 63.
Lemma slice_sized_u64 {T} (xs : list T) : slice_sized xs -> u64 (Z.of_nat (length xs)).
Proof. unfold slice_sized, uint. lia. Qed.
#[export] Hint Resolve slice_sized_u64 : ottto.

Section Counted.
Context {T S : Type} {D : Durable T} {Dok : DurableOk D} {Dsz : DurableSized D}.
Context (D' : Durable S) (elems : S -> list T) (build : list T -> option S) (ok : S -> Prop).
Context (ret : S -> S).
Context (Hput : forall s, @put _ D' s = put_seq put (elems s)).
Context (Htake : forall d, @dtake _ D' d =
  (try? (len, d) := take_len d in
   try? (xs, d) := take_times (Z.to_nat len) dtake d in
   try? s := build xs in Some (s, d))).
Context (Hok : forall s, ok s -> Forall dval (elems s) /\ slice_sized (elems s)).
Context (Hret : forall s, ok s -> build (retained <$> elems s) = Some (ret s)).
Context (Hbuild : forall xs s, Forall dval xs -> slice_sized xs -> build xs = Some s -> ok s).
Context (Hverify : forall d, dec_wf d -> @verify _ D' d =
  (try? (len, d) := take_len d in
   try? (xs, d) := take_times (Z.to_nat len) dtake d in
   try? _ := build xs in Some d)).

Definition counted_ok : DurableOk D'.
Proof.
  refine (mkDurableOk _ D' ok ret (fun mf s => seq_trace (trace mf) (elems s)) _ _ _ _ _).
  - intros s mf [Hx Hl]%Hok. rewrite Hput. unfold put_seq.
    rewrite wrap_u_small by auto with ottto. apply traced_seq; [apply traced_raw|].
    by apply put_each_traced.
  - intros s mf bs [Hx Hl]%Hok Hb. unfold seq_trace in Hb. tr_inv. apply Forall_app.
    split; [auto with ottto|by eapply tr_each_u8].
  - intros s mf bs d r Hs Hb Hd E. pose proof (Hok s Hs) as [Hx Hl]. rewrite Htake.
    unfold seq_trace in Hb. tr_inv. rewrite <-app_assoc in E.
    pose proof (tr_each_sized _ _ _ Hx H0).
    rewrite (take_len_enc (Z.of_nat (length (elems s))) d (x0 ++ r)); [|auto with ottto..|].
    + rewrite Nat2Z.id. dec_at E. erewrite take_times_put by done.
      by rewrite Hret, advance_app by done.
    + rewrite slice_len_app. pose proof (slice_len_nonneg r). unfold slice_len. lia.
  - intros d s d' Hd. rewrite Htake. destruct (take_len d) as [[len d1]|] eqn:E1; [|done].
    apply take_len_step in E1 as [Hl Hs1]; [|done]. pose proof (dec_step_wf _ _ Hs1 Hd) as Hd1.
    destruct (take_times _ _ d1) as [[xs d2]|] eqn:E2; [|done].
    destruct (take_times_val _ _ _ _ Hd1 E2) as (Hx & _ & Hlen & Hs2).
    destruct (build xs) as [s'|] eqn:Eb; [|done]. intros [= <- <-].
    split; [|by eapply dec_step_trans]. eapply Hbuild; [exact Hx| |exact Eb].
    unfold slice_sized. destruct Hd1 as [_ Hlt _]. unfold slice_len in *.
    rewrite length_dec_rest in Hl. lia.
  - intros d Hd. rewrite Hverify, Htake by done. destruct (take_len d) as [[len d1]|]; [|done].
    destruct (take_times _ _ d1) as [[xs d2]|]; [|done]. by destruct (build xs).
Defined.

Lemma counted_sized : DurableSized (DurableOk0 := counted_ok) D'.
Proof.
  intros s mf bs Hs Hb. cbn in Hb. unfold seq_trace in Hb. tr_inv.
  intros [He _]%app_eq_nil. apply Hok in Hs as [_ Hs]. by apply varint_bytes_ne in He; auto with ottto.
Qed.
End Counted.

Section VecLaws.
Context {T : Type} {D : Durable T} {Dok : DurableOk D} {Dsz : DurableSized D}.

Definition vec_ok_of (D' : Durable (list T))
  (Hput : forall s, @put _ D' s = put_seq put s)
  (Htake : forall d, @dtake _ D' d = vec_take dtake d)
  (Hverify : forall d, @verify _ D' d = verify_seq (@verify _ D) d) : DurableOk D'.
Proof.
  refine (counted_ok D' id Some (fun xs => Forall dval xs /\ slice_sized xs) (fmap retained) _ _ _ _ _ _).
  - exact Hput.
  - intros d. rewrite Htake. unfold vec_take. destruct (take_len d) as [[len d1]|]; [|done].
    by destruct (take_times _ _ d1) as [[]|].
  - done.
  - done.
  - by intros xs _ Hx Hl [= <-].
  - intros d Hd. rewrite Hverify. unfold verify_seq.
    destruct (take_len d) as [[len d1]|] eqn:E; [|done].
    apply take_len_step in E as [_ Hs]; [|done]. rewrite (verify_times_take (D := D)) by eauto with ottto.
    by destruct (take_times _ _ d1) as [[]|].
Defined.

#[export] Instance vec_ok : DurableOk (vec_durable D).
Proof. by refine (vec_ok_of _ _ _ _). Defined.
#[export] Instance vec_deque_ok : DurableOk (vec_deque_durable D).
Proof. by refine (vec_ok_of _ _ _ _). Defined.
#[export] Instance owned_vec_ok : DurableOk (owned_vec_durable D).
Proof. by refine (vec_ok_of _ _ _ _). Defined.
#[export] Instance vec_sized : DurableSized (vec_durable D).
Proof. apply counted_sized. Qed.
#[export] Instance vec_deque_sized : DurableSized (vec_deque_durable D).
Proof. apply counted_sized. Qed.
#[export] Instance owned_vec_sized : DurableSized (owned_vec_durable D).
Proof. apply counted_sized. Qed.
End VecLaws.

(** ** Laws: insertion into a sorted collection, duplicates refused *)
Fixpoint fold_opt {A S} (step : S -> A -> option S) (out : S) (xs : list A) : option S :=
  match xs with
  | [] => Some out
  | x :: xs => try? out := step out x in fold_opt step out xs
  end.

(** The insertion loop reads every entry and then inserts them in order. *)
Lemma take_fold_times {A S} n (t : DecM A) (step : S -> A -> option S) out d :
  take_fold n t step out d =
    (try? (xs, d') := take_times n t d in
     try? s := fold_opt step out xs in Some (s, d')).
Proof.
  revert out d. induction n as [|n IH]; intros out d; cbn; [done|].
  destruct (t d) as [[x d1]|]; [|done]. destruct (step out x) as [out'|] eqn:Es.
  - rewrite IH. destruct (take_times n t d1) as [[xs d2]|]; [|done]. cbn. by rewrite Es.
  - destruct (take_times n t d1) as [[xs d2]|]; [|done]. cbn. by rewrite Es.
Qed.

Section KeyedFold.
Context {E K : Type} `{RustOrdLaws K} (f : E -> K).
Implicit Types (out xs : list E).

Definition keyed_step out (x : E) : option (list E) :=
  match bsearch f (f x) out with Found _ => None | Missing i => Some (insert_at i x out) end.

Lemma keyed_fold_Some out xs s :
  ksorted f out -> fold_opt keyed_step out xs = Some s ->
  ksorted f s /\ (forall x, x ∈ s <-> x ∈ out \/ x ∈ xs) /\
  length s = (length out + length xs)%nat.
Proof.
  revert out. induction xs as [|x xs IH]; intros out Ho; cbn.
  { intros [= <-]. split_and!; [done| |lia]. set_solver. }
  unfold keyed_step at 1. destruct (bsearch f (f x) out) as [i|i] eqn:Eb; [done|].
  intros Hf. destruct (IH _ (ksorted_insert_at _ _ _ _ Ho Eb) Hf) as (Hs & Hin & Hl).
  split_and!; [done| |rewrite Hl, length_insert_at; lia].
  intros y. rewrite Hin, elem_of_insert_at, elem_of_cons. tauto.
Qed.

(** Insertion succeeds exactly when no key repeats. *)
Lemma keyed_fold_dup out xs :
  ksorted f out ->
  is_Some (fold_opt keyed_step out xs) <-> NoDup (f <$> xs) /\ (forall x y, x ∈ xs -> y ∈ out -> f y <> f x).
Proof.
  revert out. induction xs as [|x xs IH]; intros out Ho.
  { split; [|by eauto]. intros _. split; [constructor|]. intros x y Hx.
    by apply not_elem_of_nil in Hx. }
  cbn [fold_opt]. rewrite fmap_cons, NoDup_cons. unfold keyed_step at 1.
  destruct (bsearch f (f x) out) as [i|i] eqn:Eb.
  - split; [intros [? [=]]|]. intros [_ Hd]. destruct (bsearch_found _ _ _ _ Eb) as (b & Hb & Hk).
    destruct (Hd x b); [set_solver|by eapply list_elem_of_lookup_2|done].
  - rewrite (IH _ (ksorted_insert_at _ _ _ _ Ho Eb)).
    pose proof (bsearch_missing_notin f (f x) out i) as Hx. rewrite list_elem_of_fmap.
    setoid_rewrite elem_of_insert_at. setoid_rewrite elem_of_cons. naive_solver.
Qed.

Lemma bsearch_last out x :
  ksorted f (out ++ [x]) -> bsearch f (f x) out = Missing (length out).
Proof.
  intros (_ & _ & Ho)%ksorted_app. induction out as [|a out IH]; [done|]. cbn.
  assert (rlt (f a) (f x)) as -> by (apply Ho; set_solver).
  rewrite IH; [done|]. intros. apply Ho; set_solver.
Qed.

Lemma keyed_fold_sorted out xs :
  ksorted f (out ++ xs) -> fold_opt keyed_step out xs = Some (out ++ xs).
Proof.
  revert out. induction xs as [|x xs IH]; intros out Ho; cbn; [by rewrite app_nil_r|].
  rewrite (cons_middle x out xs), app_assoc in Ho. unfold keyed_step at 1.
  rewrite bsearch_last; [|by apply ksorted_app in Ho as [? _]].
  unfold insert_at. rewrite take_ge, drop_ge by lia. rewrite IH by done. by rewrite <-app_assoc.
Qed.
End KeyedFold.

Lemma set_step_keyed `{RustOrdLaws T} (out : list T) x : set_step out x = keyed_step id out x.
Proof. unfold set_step, bs_insert, keyed_step, id. by destruct (bsearch _ _ _). Qed.
Lemma map_step_keyed `{RustOrdLaws K} {V} (out : list (K * V)) x : map_step out x = keyed_step fst out x.
Proof.
  unfold map_step, bt_insert, keyed_step. destruct (bsearch fst x.1 out) as [i|i] eqn:E.
  - destruct (bsearch_found _ _ _ _ E) as (b & -> & _). done.
  - by destruct x.
Qed.
Lemma fold_opt_ext {A S} (f g : S -> A -> option S) out xs :
  (forall s x, f s x = g s x) -> fold_opt f out xs = fold_opt g out xs.
Proof.
  intros Hfg. revert out. induction xs as [|x xs IH]; intros out; cbn; [done|].
  rewrite Hfg. by destruct (g out x).
Qed.

(** The borrowed-key walk over the stored entries of a collection whose decoded
    entries are told apart by [f]. *)
Section KeyedVerify.
Context {E KV KO : Type} {D : Durable E} {Dok : DurableOk D} `{RustOrdLaws KV, RustOrdLaws KO}.
Context (kf : DecM KV) (vf : Dec -> option Dec) (vw : E -> KV) (f : E -> KO).
Context (Hentry : forall d, dec_wf d ->
  (try? (k, d1) := kf d in try? d2 := vf d1 in Some (k, d2)) =
  (try? (e, d2) := dtake d in Some (vw e, d2))).
Context (Hinj : forall x y, decoded x -> decoded y -> vw x = vw y <-> f x = f y).

Lemma walk_take_times n d :
  dec_wf d ->
  walk kf vf n d = (try? (xs, d') := take_times n dtake d in Some (vw <$> xs, d')).
Proof.
  revert d. induction n as [|n IH]; intros d Hd; [done|].
  rewrite walk_S. cbn [take_times]. pose proof (Hentry d Hd) as He.
  destruct (dtake d) as [[x d2]|] eqn:Ed;
    destruct (kf d) as [[k d1]|]; try done; destruct (vf d1) as [d2'|]; try done.
  simplify_eq. apply take_val in Ed as [_ Hs]; [|done]. rewrite IH by eauto with ottto.
  by destruct (take_times n dtake d2) as [[]|].
Qed.

Lemma NoDup_views xs : Forall decoded xs -> NoDup (vw <$> xs) <-> NoDup (f <$> xs).
Proof.
  induction 1 as [|x xs Hx Hxs IH]; [by split; constructor|].
  rewrite !fmap_cons, !NoDup_cons, IH, !list_elem_of_fmap. rewrite Forall_forall in Hxs.
  naive_solver.
Qed.

Lemma verify_entries_keyed d :
  dec_wf d ->
  verify_entries kf vf d =
    (try? (len, d) := take_len d in
     try? (xs, d) := take_times (Z.to_nat len) dtake d in
     try? _ := fold_opt (keyed_step f) [] xs in Some d).
Proof.
  intros Hd. unfold verify_entries. rewrite verify_entries_spec.
  destruct (take_len d) as [[len d1]|] eqn:El; [|done].
  apply take_len_step in El as [Hlen Hs]; [|done].
  assert ((umax 64 <? len) = false) as ->.
  { apply Z.ltb_ge. destruct (dec_step_wf _ _ Hs Hd) as [_ Hlt _].
    unfold slice_len in *. rewrite length_dec_rest in Hlen. unfold umax. lia. }
  pose proof (dec_step_wf _ _ Hs Hd) as Hd1. rewrite walk_take_times by done.
  destruct (take_times (Z.to_nat len) dtake d1) as [[xs d2]|] eqn:Ex; [|done].
  destruct (take_times_val _ _ _ _ Hd1 Ex) as (_ & Hdec & _ & _).
  pose proof (keyed_fold_dup f [] xs (ksorted_nil f)) as Hfold.
  destruct (fold_opt (keyed_step f) [] xs) as [s|].
  - rewrite bool_decide_eq_true_2; [done|]. apply NoDup_views; [done|]. apply Hfold. eauto.
  - rewrite bool_decide_eq_false_2; [done|]. rewrite NoDup_views by done. intros Hn.
    destruct (proj2 Hfold); [|done]. split; [done|]. intros x y _ Hy. by apply not_elem_of_nil in Hy.
Qed.
End KeyedVerify.

Section SetLaws.
Context {T : Type} `{RustOrdLaws T} {D : Durable T} (K : DurableKey D).
Context {Dok : DurableOk D} {Dsz : DurableSized D} {Kok : DurableKeyOk K}.

Lemma retained_keys xs : Forall dval xs -> retained <$> xs = xs.
Proof. induction 1; [done|]. rewrite fmap_cons, key_retained by done. by f_equal. Qed.

#[export] Instance set_ok : DurableOk (set_durable K).
Proof.
  refine (counted_ok (set_durable K) id (fold_opt (keyed_step id) [])
    (fun s => ksorted id s /\ Forall dval s /\ slice_sized s) id _ _ _ _ _ _).
  - done.
  - intros d. cbn. unfold set_take. destruct (take_len d) as [[len d1]|]; [|done].
    rewrite take_fold_times. destruct (take_times _ _ d1) as [[xs d2]|]; [|done].
    by rewrite (fold_opt_ext _ _ _ _ set_step_keyed).
  - by intros s (_ & ? & ?).
  - intros s (Hs & Hv & _). unfold id at 1. rewrite retained_keys by done.
    by rewrite keyed_fold_sorted.
  - intros xs s Hx Hl Hb. destruct (keyed_fold_Some id [] xs s (ksorted_nil _) Hb) as (Hs & Hin & Hlen).
    split; [done|]. split; [|unfold slice_sized in *; simpl in Hlen; lia].
    rewrite Forall_forall in *. intros x [Hx'|Hx']%Hin; [by apply not_elem_of_nil in Hx'|auto].
  - intros d Hd. apply (verify_entries_keyed _ _ view); [| |done].
    + intros e He. rewrite key_take by done. by destruct (dtake e) as [[]|].
    + intros x y (e1 & e1' & He1 & Hx) (e2 & e2' & He2 & Hy). split.
      * by eapply (view_inj e1 _ _ e2).
      * unfold id. by intros ->.
Defined.
#[export] Instance set_sized : DurableSized (set_durable K).
Proof. apply counted_sized. Qed.
End SetLaws.

Section MapLaws.
Context {K V : Type} `{RustOrdLaws K} {DK : Durable K} (KK : DurableKey DK) (DV : Durable V).
Context {OK : DurableOk DK} {OV : DurableOk DV} {Ksz : DurableSized DK} {Kok : DurableKeyOk KK}.

(** What a decoded copy of a map keeps: every key, with its value's copy. *)
Definition retained_map (m : list (K * V)) : list (K * V) :=
  (fun kv => (kv.1, retained kv.2)) <$> m.
Lemma retained_pairs m :
  Forall (fun kv : K * V => dval kv.1 /\ dval kv.2) m ->
  (fun kv => (retained kv.1, retained kv.2)) <$> m = retained_map m.
Proof.
  unfold retained_map. induction 1 as [|[k v] m [Hk _] _ IH]; [done|].
  rewrite !fmap_cons, IH. simpl in *. by rewrite key_retained.
Qed.
Lemma retained_map_sorted m : ksorted fst m -> ksorted fst (retained_map m).
Proof. by apply ksorted_map. Qed.

#[export] Instance map_ok : DurableOk (map_durable KK DV).
Proof.
  refine (counted_ok (D := pair_durable DK DV) (map_durable KK DV) id (fold_opt (keyed_step fst) [])
    (fun m => ksorted fst m /\ Forall (fun kv => dval kv.1 /\ dval kv.2) m /\ slice_sized m)
    retained_map _ _ _ _ _ _).
  - done.
  - intros d. cbn. unfold map_take. destruct (take_len d) as [[len d1]|]; [|done].
    rewrite take_fold_times. destruct (take_times _ _ d1) as [[xs d2]|]; [|done].
    by rewrite (fold_opt_ext _ _ _ _ map_step_keyed).
  - by intros s (_ & ? & ?).
  - intros s (Hs & Hv & _). unfold id at 1.
    change (retained <$> s) with ((fun kv : K * V => (retained kv.1, retained kv.2)) <$> s).
    rewrite retained_pairs by done. rewrite keyed_fold_sorted; [done|]. by apply retained_map_sorted.
  - intros xs s Hx Hl Hb. destruct (keyed_fold_Some fst [] xs s (ksorted_nil _) Hb) as (Hs & Hin & Hlen).
    split; [done|]. split; [|unfold slice_sized in *; simpl in Hlen; lia].
    rewrite Forall_forall in *. intros x [Hx'|Hx']%Hin; [by apply not_elem_of_nil in Hx'|].
    by apply Hx.
  - intros d Hd. apply (verify_entries_keyed _ _ (view ∘ fst)); [| |done].
    + intros e He. cbn. unfold pair_take. rewrite key_take by done.
      destruct (@dtake _ DK e) as [[k e1]|] eqn:Ek; [|done].
      apply take_val in Ek as [_ Hs]; [|done]. rewrite verify_take by eauto with ottto.
      by destruct (@dtake _ DV e1) as [[]|].
    + intros [k1 v1] [k2 v2] (e1 & e1' & He1 & (a1 & Hx & _)%pair_take_inv)
        (e2 & e2' & He2 & (a2 & Hy & _)%pair_take_inv). split; cbn.
      * by eapply (view_inj e1 _ _ e2).
      * by intros ->.
Defined.
#[export] Instance map_sized : DurableSized (map_durable KK DV).
Proof. apply counted_sized. Qed.
End MapLaws.

(** ** Laws: fixed and grown arrays *)
Section ArrayLaws.
Context {T : Type} {D : Durable T} {Dok : DurableOk D} (n : nat).

#[export] Instance array_ok : DurableOk (array_durable n D).
Proof.
  refine (mkDurableOk _ (array_durable n D) (fun xs => length xs = n /\ Forall dval xs)
    (fmap retained) (fun mf xs => tr_each (trace mf) xs) _ _ _ _ _).
  - intros xs mf [_ Hx]. by apply put_each_traced.
  - intros xs mf bs [_ Hx]. by apply tr_each_u8.
  - intros xs mf bs d s [<- Hx] Hb Hd E. cbn. erewrite take_times_put by done.
    unfold try_into_array. by rewrite decide_True by (apply length_fmap).
  - intros d xs d' Hd. cbn. destruct (take_times n dtake d) as [[ys d1]|] eqn:E; [|done].
    apply take_times_val in E as (Hv & _ & Hl & Hs); [|done].
    unfold try_into_array. rewrite decide_True by done. by intros [= <- <-].
  - intros d Hd. cbn. rewrite verify_times_take by done.
    destruct (take_times n dtake d) as [[ys d1]|] eqn:E; [|done].
    apply take_times_val in E as (_ & _ & Hl & _); [|done].
    unfold try_into_array. by rewrite decide_True by done.
Defined.
End ArrayLaws.

Section GrownLaws.
Context {T : Type} {D : Durable T} {Dok : DurableOk D}.

Lemma grown_len_enc n m d s :
  (m <= n)%nat -> u64 (Z.of_nat m) -> dec_wf d -> dec_rest d = varint_bytes (Z.of_nat m) ++ s ->
  grown_len n d = Some (Z.of_nat m, advance (length (varint_bytes (Z.of_nat m))) d).
Proof.
  intros Hm Hu Hd E. unfold grown_len. erewrite dec_varint_enc, try_uint_ok by done.
  by rewrite (proj2 (Z.leb_le _ _)) by lia.
Qed.
Lemma grown_len_step n d len d' :
  dec_wf d -> grown_len n d = Some (len, d') -> 0 <= len <= Z.of_nat n /\ dec_step d d'.
Proof.
  intros Hd H. unfold grown_len in H. inv_try. zbool.
  apply dec_varint_step in Heqo as [Hv Hs]; [|done].
  apply try_uint_Some in Heqo0 as [-> _]. split; [unfold uint in Hv; lia|done].
Qed.
Lemma length_resize n (pad : T) xs : length (resize n pad xs) = n.
Proof. unfold resize. rewrite length_app, length_take, length_replicate. lia. Qed.
Lemma resize_le n (pad : T) xs :
  (length xs <= n)%nat -> resize n pad xs = xs ++ replicate (n - length xs) pad.
Proof. intros. unfold resize. by rewrite take_ge. Qed.

(** A build with [n] slots reads what a build with [m <= n] slots stored. *)
Lemma take_grown_stored n (pad : T) xs mf bs d s :
  (length xs <= n)%nat -> Forall dval xs -> u64 (Z.of_nat (length xs)) ->
  trace_bytes (seq_trace (trace mf) xs) = Some bs -> dec_wf d -> dec_rest d = bs ++ s ->
  take_grown n dtake pad d =
    Some (resize n pad (retained <$> xs), advance (length bs) d).
Proof.
  intros Hn Hx Hu Hb Hd E. unfold seq_trace in Hb. tr_inv. rewrite <-app_assoc in E.
  unfold take_grown. erewrite grown_len_enc by done. rewrite Nat2Z.id. dec_at E.
  erewrite take_times_put by done. unfold try_into_array. rewrite decide_True by apply length_resize.
  by rewrite advance_app.
Qed.
(** A longer stored array is corrupt. *)
Lemma take_grown_longer n m (pad : T) d s :
  (n < m)%nat -> u64 (Z.of_nat m) -> dec_wf d -> dec_rest d = varint_bytes (Z.of_nat m) ++ s ->
  take_grown n dtake pad d = None.
Proof.
  intros Hm Hu Hd E. unfold take_grown, grown_len. erewrite dec_varint_enc, try_uint_ok by done.
  by rewrite (proj2 (Z.leb_gt _ _)) by lia.
Qed.

Context (n : nat) (pad : T) (Hn : u64 (Z.of_nat n)) (Hpad : dval pad).
Definition grown_ok : DurableOk (grown_durable n D pad).
Proof.
  refine (mkDurableOk _ (grown_durable n D pad) (fun xs => length xs = n /\ Forall dval xs)
    (fmap retained) (fun mf xs => seq_trace (trace mf) xs) _ _ _ _ _).
  - intros xs mf [<- Hx]. cbn. unfold put_grown. rewrite wrap_u_small by done.
    apply traced_seq; [apply traced_raw|by apply put_each_traced].
  - intros xs mf bs [<- Hx] Hb. unfold seq_trace in Hb. tr_inv. apply Forall_app.
    split; [auto with ottto|by eapply tr_each_u8].
  - intros xs mf bs d s [Hl Hx] Hb Hd E. cbn.
    rewrite (take_grown_stored n pad xs mf bs d s) by (done || rewrite Hl; done).
    by rewrite resize_le, length_fmap, Hl, Nat.sub_diag, app_nil_r by (rewrite length_fmap; lia).
  - intros d xs d' Hd. cbn. unfold take_grown. destruct (grown_len n d) as [[len d1]|] eqn:El; [|done].
    apply grown_len_step in El as [Hlen Hs1]; [|done]. pose proof (dec_step_wf _ _ Hs1 Hd) as Hd1.
    destruct (take_times _ dtake d1) as [[ys d2]|] eqn:E; [|done].
    apply take_times_val in E as (Hv & _ & Hl & Hs2); [|done].
    unfold try_into_array. rewrite decide_True by apply length_resize. intros [= <- <-].
    split; [|by eapply dec_step_trans]. split; [apply length_resize|].
    apply Forall_app. split; [by apply Forall_take|by apply Forall_replicate].
  - intros d Hd. cbn. unfold verify_grown, take_grown.
    destruct (grown_len n d) as [[len d1]|] eqn:El; [|done].
    apply grown_len_step in El as [Hlen Hs1]; [|done].
    rewrite verify_times_take by eauto with ottto.
    destruct (take_times _ dtake d1) as [[ys d2]|] eqn:E; [|done].
    unfold try_into_array. by rewrite decide_True by apply length_resize.
Defined.
Lemma grown_sized : DurableSized (DurableOk0 := grown_ok) (grown_durable n D pad).
Proof.
  intros xs mf bs [Hl _] Hb. cbn in Hb. unfold seq_trace in Hb. tr_inv.
  intros [He _]%app_eq_nil. apply varint_bytes_ne in He; [done|]. by rewrite Hl.
Qed.
End GrownLaws.
