(* ===== verification/DurableDigest.v ===== *)
(** Digest fields ([H]) and the keys of the durable tail codec
    (crates/ottto-service/src/durable_tail_codec.rs).

    A digest field stores 32 raw bytes: a [[u8; 32]] as they are, or exactly 64
    lower-case hex digits.  Options, sets, maps and vectors of digests store
    their digests the same way.  For each field path an [HDigest] is a
    [Durable] dictionary ([h_at]), so the container laws apply unchanged. *)
From S2P Require Import Prelude Text OrdMap DurableCodec DurableTypes DurableEntries DurableContainers.
Local Open Scope Z_scope.

(** ** Keys: scalars, strings *)
(** [scalar_keys!]: the view of a scalar key is the scalar. *)
Definition scalar_key {T} (D : Durable T) `{RustOrd T} : DurableKey D := {|
  View := T; key := dtake |}.

Section ScalarKey.
Context {T : Type} {D : Durable T} {Dok : DurableOk D} `{RustOrdLaws T}.
Definition scalar_key_ok (Hret : forall x, dval x -> retained x = x) : DurableKeyOk (scalar_key D).
Proof.
  refine (@mkDurableKeyOk _ _ (scalar_key D) Dok id _ _ _ Hret).
  - intros d _. cbn. by destruct (dtake d) as [[]|].
  - done.
Defined.
End ScalarKey.
#[export] Hint Extern 2 (DurableKeyOk (scalar_key _)) =>
  (refine (scalar_key_ok _); exact (fun _ _ => eq_refl)) : typeclass_instances.

#[export] Instance string_key_ok : DurableKeyOk string_key.
Proof. refine (scalar_key_ok (D := string_durable) _). done. Defined.

(** ** Digests *)
Class HDigest (T : Type) := mkHDigest {
  put_h : T -> string -> EncM;
  take_h : DecM T;
  verify_h : Dec -> option Dec;
}.
(** Borrowed views of digest keys. *)
Class HDigestKey {T} (H : HDigest T) := mkHDigestKey {
  HView : Type;
  #[global] hview_ord :: RustOrd HView;
  key_h : DecM HView;
}.
Arguments HView {T H} _.
Arguments key_h {T H} _.

Definition h_at {T} (H : HDigest T) (path : string) : Durable T := {|
  put x := put_h x path; dtake := take_h; verify := verify_h |}.
Definition hkey_at {T} {H : HDigest T} (K : HDigestKey H) (path : string) : DurableKey (h_at H path) := {|
  View := HView K; key := key_h K |}.

(** [[u8; 32]]. *)
Definition digest32_take : DecM (list Z) := fun d =>
  try? (bs, d) := dec_raw 32 d in try? bs := try_into_array 32 bs in Some (bs, d).
Definition digest32_verify (d : Dec) : option Dec := option_map snd (dec_raw 32 d).
Definition digest32 : HDigest (list Z) := {|
  put_h bytes _ := enc_raw bytes; take_h := digest32_take; verify_h := digest32_verify |}.
Definition digest32_key : HDigestKey digest32 := {| HView := list Z; key_h := dec_raw 32 |}.

(** [String] holding a digest. *)
Definition nibble (c : Z) : option Z :=
  if in_range 48 57 c then Some (c - 48)
  else if in_range 97 102 c then Some (c - 97 + 10) else None.
(** [text.chunks_exact(2)], each pair one byte. *)
Fixpoint hex_decode (text : list Z) : option (list Z) :=
  match text with
  | c0 :: c1 :: text =>
      try? high := nibble c0 in
      try? low := nibble c1 in
      try? rest := hex_decode text in
      Some (Z.lor (wrap_u 8 (Z.shiftl high 4)) low :: rest)
  | _ => Some []
  end.
(** The bytes a digest text stores. *)
Definition hex_digest (s : string) : option (list Z) :=
  let text := as_bytes s in
  if decide (length text = 64%nat) then hex_decode text else None.
Definition hex64_put_h (s : string) (path : string) : EncM :=
  match hex_digest s with Some bytes => enc_raw bytes | None => enc_refuse (NotDigest path) end.
Definition hex64_take : DecM string := fun d =>
  try? (bytes, d) := dec_raw 32 d in Some (of_bytes (hex_encode bytes), d).
Definition hex64 : HDigest string := {|
  put_h := hex64_put_h; take_h := hex64_take; verify_h := digest32_verify |}.
Definition hex64_key : HDigestKey hex64 := {| HView := list Z; key_h := dec_raw 32 |}.

(** [Option<T>] of a digest: varint tags. *)
Definition hoption_put {T} (p : T -> EncM) (x : option T) : EncM :=
  match x with None => enc_varint 0 | Some v => enc_varint 1 ;;; p v end.
Definition hoption_tag {A} (none some : Dec -> option A) (d : Dec) : option A :=
  try? (tag, d) := dec_varint d in
  match tag with 0 => none d | 1 => some d | _ => None end.
Definition hoption_take {T} (t : DecM T) : DecM (option T) :=
  hoption_tag (fun d => Some (None, d)) (fun d => try? (v, d) := t d in Some (Some v, d)).
Definition hoption {T} (H : HDigest T) : HDigest (option T) := {|
  put_h x path := hoption_put (fun v => put_h v path) x;
  take_h := hoption_take take_h; verify_h := hoption_tag Some verify_h |}.
Definition hoption_key {T} {H : HDigest T} (K : HDigestKey H) : HDigestKey (hoption H) := {|
  HView := option (HView K); key_h := hoption_take (key_h K) |}.

(** Sets, maps and vectors of digests. *)
Definition hset {T} `{RustOrd T} {H : HDigest T} (K : HDigestKey H) : HDigest (list T) := {|
  put_h s path := put_seq (fun v => put_h v path) s;
  take_h := set_take take_h; verify_h := verify_entries (key_h K) Some |}.
Definition verify_h_map {K V} {H : HDigest K} (HK : HDigestKey H) (DV : Durable V) (max : Z)
  : Dec -> option Dec := verify_entries_bounded (key_h HK) (@verify _ DV) max.
Definition hmap {K V} `{RustOrd K} {H : HDigest K} (HK : HDigestKey H) (DV : Durable V)
    : HDigest (list (K * V)) := {|
  put_h m path := put_map (fun k => put_h k path) put m;
  take_h := map_take take_h dtake; verify_h := verify_h_map HK DV (umax 64) |}.
Definition hvec {T} (H : HDigest T) : HDigest (list T) := {|
  put_h s path := put_seq (fun v => put_h v path) s;
  take_h := vec_take take_h; verify_h := verify_seq verify_h |}.

(** ** Laws *)
Class HDigestOk {T} (H : HDigest T) := hdigest_ok path : DurableOk (h_at H path).
#[export] Existing Instance hdigest_ok.
Class HDigestSized {T} (H : HDigest T) `{!HDigestOk H} : Prop :=
  hdigest_sized path : DurableSized (h_at H path).
#[export] Existing Instance hdigest_sized.
Class HDigestKeyOk {T} {H : HDigest T} (K : HDigestKey H) `{!HDigestOk H} :=
  hdigest_key_ok path : DurableKeyOk (hkey_at K path).
#[export] Existing Instance hdigest_key_ok.

Lemma raw32_app bs d s :
  length bs = 32%nat -> dec_wf d -> dec_rest d = bs ++ s ->
  dec_raw 32 d = Some (bs, advance (length bs) d).
Proof.
  intros Hl Hd E. pose proof (dec_raw_app _ _ _ Hd E) as H. unfold slice_len in H.
  by rewrite Hl in *.
Qed.
Lemma raw32_step d bs d' :
  dec_wf d -> dec_raw 32 d = Some (bs, d') -> length bs = 32%nat /\ Forall u8 bs /\ dec_step d d'.
Proof.
  intros Hd H. apply dec_raw_step in H as (Hs & Hl & Hu & _); [|done..].
  unfold slice_len in Hl. split_and!; [lia|done..].
Qed.

#[export] Instance digest32_ok : HDigestOk digest32.
Proof.
  intros path. refine (mkDurableOk _ (h_at digest32 path) (fun bs => length bs = 32%nat /\ Forall u8 bs)
    id (fun _ bs => tr_raw bs) _ _ _ _ _).
  - intros x mf _. apply traced_raw.
  - intros x mf bs [_ Hu] Hb. by tr_inv.
  - intros x mf bs d s [Hl Hu] Hb Hd E. tr_inv. cbn. unfold digest32_take.
    erewrite raw32_app by done. unfold try_into_array. by rewrite decide_True.
  - intros d x d' Hd. cbn. unfold digest32_take. destruct (dec_raw 32 d) as [[bs d1]|] eqn:E; [|done].
    apply raw32_step in E as (Hl & Hu & Hs); [|done].
    unfold try_into_array. rewrite decide_True by done. by intros [= <- <-].
  - intros d Hd. cbn. unfold digest32_take, digest32_verify.
    destruct (dec_raw 32 d) as [[bs d1]|] eqn:E; [|done]. apply raw32_step in E as (Hl & _ & _); [|done].
    unfold try_into_array. by rewrite decide_True.
Defined.
#[export] Instance digest32_sized : HDigestSized digest32.
Proof. intros path x mf bs [Hl _] Hb. cbn in Hb. tr_inv. by intros ->. Qed.
#[export] Instance digest32_key_ok : HDigestKeyOk digest32_key.
Proof.
  intros path. refine {| view := (id : list Z -> View (hkey_at digest32_key path)) |}.
  - intros d Hd. cbn. unfold digest32_take. destruct (dec_raw 32 d) as [[bs d1]|] eqn:E; [|done].
    apply raw32_step in E as (Hl & _ & _); [|done]. unfold try_into_array. by rewrite decide_True.
  - done.
  - done.
Defined.

(** *** Digest text *)
Lemma nibble_Some c v :
  nibble c = Some v -> 0 <= v < 16 /\ nth (Z.to_nat v) HEX 0 = c.
Proof.
  unfold nibble, in_range. destruct ((48 <=? c) && (c <=? 57)) eqn:E1.
  { zbool. intros [= <-]. split; [lia|].
    assert (c = 48 \/ c = 49 \/ c = 50 \/ c = 51 \/ c = 52 \/ c = 53 \/ c = 54 \/ c = 55 \/ c = 56 \/ c = 57)
      as Hc by lia. by repeat destruct Hc as [->|Hc]; subst. }
  destruct ((97 <=? c) && (c <=? 102)) eqn:E2; [|done]. zbool. intros [= <-]. split; [lia|].
  assert (c = 97 \/ c = 98 \/ c = 99 \/ c = 100 \/ c = 101 \/ c = 102) as Hc by lia.
  by repeat destruct Hc as [->|Hc]; subst.
Qed.
Lemma nibble_hex v : 0 <= v < 16 -> nibble (nth (Z.to_nat v) HEX 0) = Some v.
Proof.
  intros Hv. assert (Hall : Forall (fun n => nibble (nth n HEX 0) = Some (Z.of_nat n)) (seq 0 16)).
  { by repeat constructor. }
  rewrite Forall_forall in Hall. rewrite (Hall (Z.to_nat v)); [f_equal; lia|]. apply elem_of_seq. lia.
Qed.
Lemma join_nibbles h l :
  0 <= h < 16 -> 0 <= l < 16 -> Z.lor (wrap_u 8 (Z.shiftl h 4)) l = h * 16 + l.
Proof.
  intros Hh Hl. rewrite Z.shiftl_mul_pow2, wrap_u_small by (unfold uint; lia).
  rewrite Z.lor_comm, (lor_disjoint_add 4) by lia. lia.
Qed.
Lemma high_nibble h l : 0 <= h < 16 -> 0 <= l < 16 -> Z.shiftr (h * 16 + l) 4 = h.
Proof.
  intros. rewrite Z.shiftr_div_pow2 by lia. symmetry. apply (Z.div_unique _ _ _ l); lia.
Qed.
Lemma low_nibble h l : 0 <= h < 16 -> 0 <= l < 16 -> Z.land (h * 16 + l) 15 = l.
Proof.
  intros. rewrite (land_low_mod 4) by lia. symmetry. apply (Z.mod_unique _ _ h); lia.
Qed.

Lemma hex_decode_encode bs : Forall u8 bs -> hex_decode (hex_encode bs) = Some bs.
Proof.
  induction 1 as [|b bs Hb _ IH]; [done|]. cbn [hex_encode hex_decode].
  assert (exists h l, b = h * 16 + l /\ 0 <= h < 16 /\ 0 <= l < 16) as (h & l & -> & Hh & Hl).
  { exists (b / 16), (b mod 16). pose proof (Z.div_mod b 16). pose proof (Z.mod_pos_bound b 16 eq_refl).
    unfold uint in Hb. split_and!; lia. }
  by rewrite high_nibble, low_nibble, !nibble_hex, IH, join_nibbles by done.
Qed.
Lemma hex_decode_Some n text bs :
  length text = (2 * n)%nat -> hex_decode text = Some bs ->
  hex_encode bs = text /\ Forall u8 bs /\ length bs = n.
Proof.
  revert text bs. induction n as [|n IH]; intros text bs Hl.
  { destruct text; [|done]. by intros [= <-]. }
  destruct text as [|c0 [|c1 text]]; [simpl in Hl; lia..|]. cbn [hex_decode].
  destruct (nibble c0) as [h|] eqn:Eh; [|done]. destruct (nibble c1) as [l|] eqn:El; [|done].
  destruct (hex_decode text) as [rest|] eqn:Er; [|done]. intros [= <-].
  apply nibble_Some in Eh as [Hh Hc0]. apply nibble_Some in El as [Hl' Hc1].
  destruct (IH text rest) as (He & Hu & Hn); [simpl in Hl; lia|done|].
  cbn [hex_encode length]. rewrite join_nibbles, high_nibble, low_nibble by done.
  split_and!; [by rewrite Hc0, Hc1, He|constructor; [unfold uint; lia|done]|lia].
Qed.

Lemma hex_digest_Some s bs :
  hex_digest s = Some bs -> of_bytes (hex_encode bs) = s /\ Forall u8 bs /\ length bs = 32%nat.
Proof.
  unfold hex_digest. case_decide as Hl; [|done]. intros Hd.
  destruct (hex_decode_Some 32 _ _ Hl Hd) as (He & Hu & Hn). by rewrite He, of_as_bytes.
Qed.
Lemma hex_digest_encode bs :
  Forall u8 bs -> length bs = 32%nat -> hex_digest (of_bytes (hex_encode bs)) = Some bs.
Proof.
  intros Hu Hl. unfold hex_digest. rewrite as_of_bytes by apply hex_encode_u8.
  rewrite decide_True by (rewrite length_hex_encode; lia). by apply hex_decode_encode.
Qed.

#[export] Instance hex64_ok : HDigestOk hex64.
Proof.
  intros path. refine (mkDurableOk _ (h_at hex64 path) (fun _ => True) id
    (fun _ s => match hex_digest s with Some bs => tr_raw bs | None => tr_refuse (NotDigest path) end)
    _ _ _ _ _).
  - intros s mf _. cbn. unfold hex64_put_h. destruct (hex_digest s); [apply traced_raw|apply traced_refuse].
  - intros s mf bs _ Hb. destruct (hex_digest s) as [b|] eqn:E; tr_inv. by apply hex_digest_Some in E as (_ & ? & _).
  - intros s mf bs d r _ Hb Hd E. destruct (hex_digest s) as [b|] eqn:Eh; tr_inv.
    apply hex_digest_Some in Eh as (Hs & Hu & Hl). cbn. unfold hex64_take.
    erewrite raw32_app by done. by rewrite Hs.
  - intros d s d' Hd. cbn. unfold hex64_take. destruct (dec_raw 32 d) as [[bs d1]|] eqn:E; [|done].
    apply raw32_step in E as (_ & _ & Hs); [|done]. by intros [= <- <-].
  - intros d Hd. cbn. unfold hex64_take, digest32_verify. by destruct (dec_raw 32 d) as [[]|].
Defined.
#[export] Instance hex64_sized : HDigestSized hex64.
Proof.
  intros path s mf bs _ Hb. cbn in Hb. destruct (hex_digest s) as [b|] eqn:E; tr_inv.
  apply hex_digest_Some in E as (_ & _ & Hl). by intros ->.
Qed.
#[export] Instance hex64_key_ok : HDigestKeyOk hex64_key.
Proof.
  intros path. refine {| view := ((fun s => default [] (hex_digest s)) : string -> View (hkey_at hex64_key path)) |}.
  - intros d Hd. cbn. unfold hex64_take. destruct (dec_raw 32 d) as [[bs d1]|] eqn:E; [|done].
    apply raw32_step in E as (Hl & Hu & _); [|done]. by rewrite hex_digest_encode.
  - intros d1 x d1' d2 y d2' Hd1 Hd2. cbn. unfold hex64_take.
    destruct (dec_raw 32 d1) as [[b1 e1]|] eqn:E1; [|done].
    destruct (dec_raw 32 d2) as [[b2 e2]|] eqn:E2; [|done].
    apply raw32_step in E1 as (? & ? & _); [|done]. apply raw32_step in E2 as (? & ? & _); [|done].
    intros [= <- _] [= <- _]. rewrite !hex_digest_encode by done. by intros [= ->].
  - done.
Defined.

Section HOptionLaws.
Context {T : Type} {H : HDigest T} {Hok : HDigestOk H}.

Lemma hoption_tag_cases d :
  dec_wf d ->
  (exists d1, dec_step d d1 /\ forall A (none some : Dec -> option A), hoption_tag none some d = none d1) \/
  (exists d1, dec_step d d1 /\ forall A (none some : Dec -> option A), hoption_tag none some d = some d1) \/
  (forall A (none some : Dec -> option A), hoption_tag none some d = None).
Proof.
  intros Hd. unfold hoption_tag. destruct (dec_varint d) as [[v d1]|] eqn:E; [|auto].
  apply dec_varint_step in E as [_ Hs]; [|done]. destruct v as [|[]|]; eauto.
Qed.

#[export] Instance hoption_ok : HDigestOk (hoption H).
Proof.
  intros path. refine (mkDurableOk _ (h_at (hoption H) path)
    (fun x => match x with Some v => dval (D := h_at H path) v | None => True end)
    (option_map (retained (D := h_at H path)))
    (fun mf x => match x with
                 | None => tr_raw (varint_bytes 0)
                 | Some v => tr_seq (tr_raw (varint_bytes 1)) (trace (D := h_at H path) mf v)
                 end) _ _ _ _ _).
  - intros [v|] mf Hv; cbn; [|apply traced_raw].
    apply traced_seq; [apply traced_raw|exact (put_traced (D := h_at H path) v mf Hv)].
  - intros [v|] mf bs Hv Hb; cbn in Hb; tr_inv; [|by repeat constructor].
    constructor; [done|]. exact (put_u8 (D := h_at H path) v mf _ Hv H1).
  - intros [v|] mf bs d s Hv Hb Hd E; cbn in Hb; tr_inv; cbn; unfold hoption_take, hoption_tag.
    + rewrite <-app_assoc in E. rewrite (dec_varint_enc 1 d (x0 ++ s)) by done. dec_at E.
      pose proof (take_put (D := h_at H path) v mf x0 _ s Hv H1 Hd0 E0) as Ht.
      change (varint_bytes 1) with [1] in *. cbn in Ht |- *. rewrite Ht. by rewrite (advance_app [1]).
    + by rewrite (dec_varint_enc 0 d s) by done.
  - intros d x d' Hd. cbn. unfold hoption_take.
    destruct (hoption_tag_cases d Hd) as [(d1 & Hs & Ht)|[(d1 & Hs & Ht)|Ht]]; rewrite Ht; [|..|done].
    + by intros [= <- <-].
    + destruct (take_h d1) as [[v d2]|] eqn:E; [|done]. intros [= <- <-].
      apply (take_val (D := h_at H path)) in E as [? ?]; [|by eauto with ottto].
      split; [done|by eapply dec_step_trans].
  - intros d Hd. cbn. unfold hoption_take.
    destruct (hoption_tag_cases d Hd) as [(d1 & Hs & Ht)|[(d1 & Hs & Ht)|Ht]]; rewrite !Ht; [done| |done].
    pose proof (verify_take (D := h_at H path) d1) as Hv. cbn in Hv. rewrite Hv by eauto with ottto.
    by destruct (take_h d1) as [[]|].
Defined.

#[export] Instance hoption_sized : HDigestSized (hoption H).
Proof.
  intros path [v|] mf bs Hv Hb; cbn in Hb; tr_inv; [|done]. by intros [Hx _]%app_eq_nil.
Qed.

#[export] Instance hoption_key_ok (K : HDigestKey H) `{!HDigestKeyOk K} : HDigestKeyOk (hoption_key K).
Proof.
  intros path. refine {| view :=
    (option_map (view (K := hkey_at K path)) : option T -> View (hkey_at (hoption_key K) path)) |}.
  - exact (@option_ord_laws _ (view_ord (hkey_at K path)) view_laws).
  - intros d Hd. cbn. unfold hoption_take.
    destruct (hoption_tag_cases d Hd) as [(d1 & Hs & Ht)|[(d1 & Hs & Ht)|Ht]]; rewrite !Ht; [done| |done].
    pose proof (key_take (K := hkey_at K path) d1) as Hk. cbn in Hk. rewrite Hk by eauto with ottto.
    by destruct (take_h d1) as [[]|].
  - intros d1 x d1' d2 y d2' Hd1 Hd2. cbn. unfold hoption_take.
    destruct (hoption_tag_cases d1 Hd1) as [(e1 & Hs1 & Ht1)|[(e1 & Hs1 & Ht1)|Ht1]]; rewrite Ht1; [..|done];
      (destruct (hoption_tag_cases d2 Hd2) as [(e2 & Hs2 & Ht2)|[(e2 & Hs2 & Ht2)|Ht2]]; rewrite Ht2; [..|done]).
    1: by intros [= <- _] [= <- _].
    1,2: intros; inv_try; done.
    destruct (take_h e1) as [[v1 f1]|] eqn:E1; [|done]. destruct (take_h e2) as [[v2 f2]|] eqn:E2; [|done].
    intros [= <- _] [= <- _] [= Hv]. f_equal.
    eapply (view_inj (K := hkey_at K path) e1 _ f1 e2 _ f2); eauto with ottto.
  - intros [x|] Hx; cbn; [|done]. f_equal. by apply (key_retained (K := hkey_at K path)).
Defined.
End HOptionLaws.

Section HContainers.
Context {T : Type} {H : HDigest T} {Hok : HDigestOk H} {Hsz : HDigestSized H}.

#[export] Instance hvec_ok : HDigestOk (hvec H) := fun path => vec_ok (D := h_at H path).
#[export] Instance hvec_sized : HDigestSized (hvec H) := fun path => vec_sized (D := h_at H path).

Context `{RustOrdLaws T} (K : HDigestKey H) {Kok : HDigestKeyOk K}.
#[export] Instance hset_ok : HDigestOk (hset K) := fun path => set_ok (hkey_at K path).
#[export] Instance hset_sized : HDigestSized (hset K) := fun path => set_sized (hkey_at K path).

Context {V : Type} (DV : Durable V) {OV : DurableOk DV}.
#[export] Instance hmap_ok : HDigestOk (hmap K DV) := fun path => map_ok (hkey_at K path) DV.
#[export] Instance hmap_sized : HDigestSized (hmap K DV) := fun path => map_sized (hkey_at K path) DV.
End HContainers.
