(* ===== verification/DurableStruct.v ===== *)
(** Records of the durable tail codec: the field classes of [durable_field!],
    and the [Durable] implementations that [durable_struct!] and
    [durable_enum!] generate
    (crates/ottto-service/src/durable_tail_codec.rs).

    A struct is its list of classed fields; the generated walk visits them in
    order.  An enum is its list of tagged variants.  The dictionaries below are
    the macro expansions, and their laws follow from those of the fields. *)
From S2P Require Import Prelude OrdMap DurableCodec DurableTypes DurableEntries DurableContainers DurableDigest.
Local Open Scope Z_scope.

(** The default value an [E] field must hold for the record to be written. *)
Class DurableEmpty (T : Type) := durable_empty : T -> bool.
(** [empty_when_zero!]. *)
#[export] Instance zero_empty : DurableEmpty Z := fun x => x =? 0.
#[export] Instance bool_empty : DurableEmpty bool := negb.
#[export] Instance string_empty : DurableEmpty string := fun s => bool_decide (s = ""%string).
#[export] Instance option_empty {T} : DurableEmpty (option T) := fun x =>
  match x with None => true | Some _ => false end.
(** [Vec], [OwnedVec], [BTreeSet], [BTreeMap] and [OwnedMap]. *)
#[export] Instance list_empty {T} : DurableEmpty (list T) := fun l =>
  match l with [] => true | _ => false end.

(** The class and type of one field. *)
Inductive FieldCodec : Type -> Type :=
| FN {T} (D : Durable T) : FieldCodec T
| FU {T} (D : Durable T) : FieldCodec T
| FL {T} (D : Durable T) : FieldCodec T
| FD {T} (D : Durable T) : FieldCodec T
| FP {T} (D : Durable T) : FieldCodec T
| FH {T} (H : HDigest T) : FieldCodec T
| FG {T} (n : nat) (D : Durable T) (default : T) : FieldCodec (list T)
| FX {T} (default : T) : FieldCodec T
| FE {T} (E : DurableEmpty T) (default : T) : FieldCodec T
| FI {T} (default : T) : FieldCodec T.

(** [durable_field!(put ..)], [(take ..)] and [(verify ..)]. *)
Definition field_put {T} (c : FieldCodec T) (path : string) : T -> EncM :=
  match c in FieldCodec T return T -> EncM with
  | FN D | FU D | FL D | FD D | FP D => put
  | FH H => fun x => put_h x path
  | FG n D _ => put_grown n put
  | FX _ | FI _ => fun _ => enc_ok
  | FE E _ => fun x e =>
      if negb (field_moved e path) && negb (durable_empty x) then (e, Some (NonEmpty path)) else (e, None)
  end.
Definition field_take {T} (c : FieldCodec T) : DecM T :=
  match c in FieldCodec T return DecM T with
  | FN D | FU D | FL D | FD D | FP D => dtake
  | FH H => take_h
  | FG n D default => take_grown n dtake default
  | FX default | FE _ default | FI default => fun d => Some (default, d)
  end.
Definition field_verify {T} (c : FieldCodec T) : Dec -> option Dec :=
  match c with
  | FN D | FU D | FL D | FD D | FP D => @verify _ D
  | FH H => @verify_h _ H
  | FG n D _ => verify_grown n (@verify _ D)
  | FX _ | FE _ _ | FI _ => Some
  end.
Definition field_durable {T} (c : FieldCodec T) (path : string) : Durable T := {|
  put := field_put c path; dtake := field_take c; verify := field_verify c |}.

(** ** Structs: fields in declaration order *)
Inductive Fields : Type -> Type :=
| FNil : Fields unit
| FCons {T R} (name : string) (c : FieldCodec T) (fs : Fields R) : Fields (T * R).

Definition field_path (owner name : string) : string := (owner ++ name)%string.

(** [owner] is ["T."] for a struct and ["T::V."] for a variant. *)
Fixpoint fields_put {R} (owner : string) (fs : Fields R) : R -> EncM :=
  match fs in Fields R return R -> EncM with
  | FNil => fun _ => enc_ok
  | FCons name c fs => fun x => field_put c (field_path owner name) x.1 ;;; fields_put owner fs x.2
  end.
Fixpoint fields_take {R} (fs : Fields R) : DecM R :=
  match fs in Fields R return DecM R with
  | FNil => fun d => Some (tt, d)
  | FCons _ c fs => fun d =>
      try? (x, d) := field_take c d in try? (xs, d) := fields_take fs d in Some ((x, xs), d)
  end.
Fixpoint fields_verify {R} (fs : Fields R) (d : Dec) : option Dec :=
  match fs with
  | FNil => Some d
  | FCons _ c fs => try? d := field_verify c d in fields_verify fs d
  end.
Definition fields_durable {R} (owner : string) (fs : Fields R) : Durable R := {|
  put := fields_put owner fs; dtake := fields_take fs; verify := fields_verify fs |}.

(** [durable_struct!(T { .. })]: [of_fields] is the struct literal and
    [to_fields] the pattern [let Self { .. } = self]. *)
Definition durable_struct {R S} (t : string) (fs : Fields R) (of_fields : R -> S) (to_fields : S -> R)
    : Durable S := {|
  put x := fields_put (t ++ ".") fs (to_fields x);
  dtake d := try? (xs, d) := fields_take fs d in Some (of_fields xs, d);
  verify d := fields_verify fs d |}.

(** [durable_struct!(key T ..)]: the fields' borrowed views, in order. *)
Definition stored_key {T} {D : Durable T} (K : DurableKey D) (c : FieldCodec T) (path : string)
    : DurableKey (field_durable c path) := {| View := View K; key := key K |}.
Definition fields_nil_key (owner : string) : DurableKey (fields_durable owner FNil) := {|
  View := unit; key d := Some (tt, d) |}.
Definition fields_cons_key {T R owner name} {c : FieldCodec T} {fs : Fields R}
    (K : DurableKey (field_durable c (field_path owner name))) (Ks : DurableKey (fields_durable owner fs))
    : DurableKey (fields_durable owner (FCons name c fs)) := {|
  View := View K * View Ks; key := pair_take (key K) (key Ks) |}.
Definition struct_key {R S t} {fs : Fields R} {of_fields : R -> S} {to_fields : S -> R}
    (K : DurableKey (fields_durable (t ++ ".") fs))
    : DurableKey (durable_struct t fs of_fields to_fields) := {|
  View := View K; key := key K |}.

(** ** Enums: tagged variants, in declaration order *)
Inductive Variants : Type -> Type :=
| VNil : Variants Empty_set
| VCons {R S} (tag : Z) (name : string) (decode_only : bool) (fs : Fields R) (vs : Variants S)
    : Variants (R + S).

Definition variant_owner (t name : string) : string := (t ++ "::" ++ name ++ ".")%string.
(** [durable_enum!(@tag ..)]. *)
Definition tag_put (tag : Z) (decode_only : bool) : EncM :=
  if decode_only then enc_refuse (NonEmpty "retired enum variant") else enc_varint tag.
Fixpoint variants_put {S} (t : string) (vs : Variants S) : S -> EncM :=
  match vs in Variants S return S -> EncM with
  | VNil => fun x => match x with end
  | VCons tag name decode_only fs vs => fun x =>
      match x with
      | inl r => tag_put tag decode_only ;;; fields_put (variant_owner t name) fs r
      | inr s => variants_put t vs s
      end
  end.
Fixpoint variants_take {S} (vs : Variants S) (read : Z) : DecM S :=
  match vs in Variants S return DecM S with
  | VNil => fun _ => None
  | VCons tag _ _ fs vs => fun d =>
      if read =? tag then try? (r, d) := fields_take fs d in Some (inl r, d)
      else try? (s, d) := variants_take vs read d in Some (inr s, d)
  end.
Fixpoint variants_verify {S} (vs : Variants S) (read : Z) (d : Dec) : option Dec :=
  match vs with
  | VNil => None
  | VCons tag _ _ fs vs => if read =? tag then fields_verify fs d else variants_verify vs read d
  end.
Fixpoint tags {S} (vs : Variants S) : list Z :=
  match vs with VNil => [] | VCons tag _ _ _ vs => tag :: tags vs end.

Definition durable_enum {V S} (t : string) (vs : Variants V) (of_variant : V -> S) (to_variant : S -> V)
    : Durable S := {|
  put x := variants_put t vs (to_variant x);
  dtake d :=
    try? (tag, d) := dec_varint d in
    try? (v, d) := variants_take vs tag d in Some (of_variant v, d);
  verify d := try? (tag, d) := dec_varint d in variants_verify vs tag d |}.

(** ** Laws of a field *)
Section FieldLaws.
Context {T : Type} {D : Durable T} {Dok : DurableOk D} (path : string).

(** The classes that store their value as the type does. *)
Definition stored_ok (c : FieldCodec T)
  (Hput : field_put c path = put) (Htake : field_take c = dtake)
  (Hverify : field_verify c = @verify _ D) : DurableOk (field_durable c path).
Proof.
  refine (iso_ok (D := D) (field_durable c path) id id _ _ _ _); [done|..].
  - intros s. cbn. by rewrite Hput.
  - intros d. cbn. rewrite Htake. by destruct (dtake d) as [[]|].
  - intros d _. cbn. by rewrite Hverify.
Defined.
#[export] Instance FN_ok : DurableOk (field_durable (FN D) path).
Proof. by refine (stored_ok _ _ _ _). Defined.
#[export] Instance FU_ok : DurableOk (field_durable (FU D) path).
Proof. by refine (stored_ok _ _ _ _). Defined.
#[export] Instance FL_ok : DurableOk (field_durable (FL D) path).
Proof. by refine (stored_ok _ _ _ _). Defined.
#[export] Instance FD_ok : DurableOk (field_durable (FD D) path).
Proof. by refine (stored_ok _ _ _ _). Defined.
#[export] Instance FP_ok : DurableOk (field_durable (FP D) path).
Proof. by refine (stored_ok _ _ _ _). Defined.
End FieldLaws.

#[export] Instance FH_ok {T} {H : HDigest T} {Hok : HDigestOk H} path :
  DurableOk (field_durable (FH H) path).
Proof. by refine (stored_ok (D := h_at H path) path _ _ _ _). Defined.

(** A slot count and a padding that the row type can hold. *)
Class GrownFits {T} (D : Durable T) `{!DurableOk D} (n : nat) (default : T) : Prop := {
  grown_fits_len : u64 (Z.of_nat n);
  grown_fits_pad : dval default;
}.
#[export] Instance FG_ok {T} {D : Durable T} {Dok : DurableOk D} n default path
  `{!GrownFits D n default} : DurableOk (field_durable (FG n D default) path).
Proof.
  refine (stored_ok (D := grown_durable n D default) (Dok := grown_ok n default _ _) path _ _ _ _);
    by try apply GrownFits0.
Defined.

(** A field that is not stored comes back as the default. *)
Definition skipped_ok {T} (c : FieldCodec T) (path : string) (default : T)
  (refusal : option string -> T -> option Refuse)
  (Hput : forall x e, field_put c path x e = (e, refusal (moved_field e) x))
  (Htake : forall d, field_take c d = Some (default, d))
  (Hverify : field_verify c = Some) : DurableOk (field_durable c path).
Proof.
  refine (mkDurableOk _ (field_durable c path) (fun _ => True) (fun _ => default)
    (fun mf x => ([], refusal mf x)) _ _ _ _ _).
  - intros x mf _ e He. cbn. by rewrite Hput, He.
  - intros x mf bs _ Hb. cbn in Hb. destruct (refusal mf x); by simplify_eq.
  - intros x mf bs d s _ Hb Hd E. cbn in *. rewrite Htake.
    destruct (refusal mf x); simplify_eq/=. by rewrite advance_0.
  - intros d x d' Hd. cbn. rewrite Htake. intros [= <- <-]. auto with ottto.
  - intros d Hd. cbn. by rewrite Htake, Hverify.
Defined.
#[export] Instance FX_ok {T} (default : T) path : DurableOk (field_durable (FX default) path).
Proof. by refine (skipped_ok _ _ default (fun _ _ => None) _ _ _). Defined.
#[export] Instance FI_ok {T} (default : T) path : DurableOk (field_durable (FI default) path).
Proof. by refine (skipped_ok _ _ default (fun _ _ => None) _ _ _). Defined.
(** An [E] field refuses anything but its empty value, unless it is the moved
    field of this walk. *)
Definition empty_refusal {T} (E : DurableEmpty T) (path : string) (mf : option string) (x : T) : option Refuse :=
  if bool_decide (mf = Some path) || durable_empty x then None else Some (NonEmpty path).
#[export] Instance FE_ok {T} (E : DurableEmpty T) (default : T) path :
  DurableOk (field_durable (FE E default) path).
Proof.
  refine (skipped_ok _ _ default (empty_refusal E path) _ _ _); [|done..].
  intros x e. cbn. unfold empty_refusal, field_moved.
  by destruct (bool_decide _), (durable_empty x).
Defined.

(** *** Keys *)
Section KeyLaws.
Context {T : Type} {D : Durable T} {Dok : DurableOk D} (K : DurableKey D) {Kok : DurableKeyOk K}.

Definition stored_key_ok (c : FieldCodec T) (path : string)
  (Hput : field_put c path = put) (Htake : field_take c = dtake)
  (Hverify : field_verify c = @verify _ D) :
  DurableKeyOk (DurableOk0 := stored_ok path c Hput Htake Hverify) (stored_key K c path).
Proof.
  refine (@mkDurableKeyOk _ _ (stored_key K c path) (stored_ok path c Hput Htake Hverify)
    (view (K := K)) (view_laws (K := K)) _ _ _).
  - intros d Hd. cbn. rewrite Htake. by apply key_take.
  - intros d1 x d1' d2 y d2' Hd1 Hd2. cbn. rewrite Htake. by apply view_inj.
  - exact (key_retained (K := K)).
Defined.
#[export] Instance FN_key_ok path : DurableKeyOk (stored_key K (FN D) path) :=
  stored_key_ok (FN D) path eq_refl eq_refl eq_refl.
#[export] Instance FL_key_ok path : DurableKeyOk (stored_key K (FL D) path) :=
  stored_key_ok (FL D) path eq_refl eq_refl eq_refl.
End KeyLaws.
#[export] Instance FH_key_ok {T} {H : HDigest T} {Hok : HDigestOk H} (K : HDigestKey H)
  {Kok : HDigestKeyOk K} path : DurableKeyOk (stored_key (hkey_at K path) (FH H) path) :=
  stored_key_ok (hkey_at K path) (FH H) path eq_refl eq_refl eq_refl.

(** ** Laws of structs *)
#[export] Instance fields_nil_ok owner : DurableOk (fields_durable owner FNil).
Proof. by refine (iso_ok (D := unit_durable) (fields_durable owner FNil) id id _ _ _ _). Defined.
#[export] Instance fields_cons_ok {T R} owner name (c : FieldCodec T) (fs : Fields R)
  {Oc : DurableOk (field_durable c (field_path owner name))}
  {Ofs : DurableOk (fields_durable owner fs)} : DurableOk (fields_durable owner (FCons name c fs)).
Proof.
  refine (iso_ok (D := pair_durable (field_durable c (field_path owner name)) (fields_durable owner fs))
    (fields_durable owner (FCons name c fs)) id id _ _ _ _); [done|done| |done].
  intros d. cbn. unfold pair_take. destruct (field_take c d) as [[x d1]|]; [|done].
  by destruct (fields_take fs d1) as [[]|].
Defined.

#[export] Instance fields_nil_key_ok owner :
  DurableKeyOk (DurableOk0 := fields_nil_ok owner) (fields_nil_key owner).
Proof. refine {| view := id : unit -> View (fields_nil_key owner) |}; done. Defined.
#[export] Instance fields_cons_key_ok {T R} owner name (c : FieldCodec T) (fs : Fields R)
  {Oc : DurableOk (field_durable c (field_path owner name))} {Ofs : DurableOk (fields_durable owner fs)}
  (K : DurableKey (field_durable c (field_path owner name))) (Ks : DurableKey (fields_durable owner fs))
  {Kok : DurableKeyOk K} {Ksok : DurableKeyOk Ks} : DurableKeyOk (fields_cons_key K Ks).
Proof.
  refine (@mkDurableKeyOk _ _ (fields_cons_key K Ks) _ (view (K := pair_key K Ks))
    (view_laws (K := pair_key K Ks)) _ _ _).
  - intros d Hd. rewrite (key_take (K := pair_key K Ks) d Hd : key (fields_cons_key K Ks) d = _). cbn.
    unfold pair_take. cbn. destruct (field_take c d) as [[x d1]|]; [|done].
    by destruct (fields_take fs d1) as [[]|].
  - intros d1 x d1' d2 y d2' Hd1 Hd2 Hx Hy.
    apply (view_inj (K := pair_key K Ks) d1 x d1' d2 y d2' Hd1 Hd2);
      cbn in *; unfold pair_take; cbn;    [exact Hx|exact Hy].
  - exact (@key_retained _ _ _ _ (pair_key_ok K Ks)).
Defined.

Section StructLaws.
Context {R S : Type} (t : string) (fs : Fields R) (of_fields : R -> S) (to_fields : S -> R).
Context {Ofs : DurableOk (fields_durable (t ++ ".") fs)}.
Context (to_of : forall r, to_fields (of_fields r) = r).
Definition struct_ok : DurableOk (durable_struct t fs of_fields to_fields).
Proof.
  by refine (iso_ok (D := fields_durable (t ++ ".") fs) (durable_struct t fs of_fields to_fields)
    of_fields to_fields to_of _ _ _).
Defined.

Context (Ks : DurableKey (fields_durable (t ++ ".") fs)) {Ksok : DurableKeyOk Ks}.
Context (of_to : forall s, of_fields (to_fields s) = s).
Definition struct_key_ok :
  DurableKeyOk (DurableOk0 := struct_ok) (struct_key Ks : DurableKey (durable_struct t fs of_fields to_fields)).
Proof.
  refine (@mkDurableKeyOk _ _ (struct_key Ks) struct_ok (fun s => view (K := Ks) (to_fields s))
    (view_laws (K := Ks)) _ _ _).
  - intros d Hd. rewrite (key_take (K := Ks) d Hd : key (struct_key Ks) d = _). cbn.
    destruct (fields_take fs d) as [[r d1]|]; [|done]. by rewrite to_of.
  - intros d1 x d1' d2 y d2' Hd1 Hd2. cbn.
    destruct (fields_take fs d1) as [[r1 e1]|] eqn:E1; [|done].
    destruct (fields_take fs d2) as [[r2 e2]|] eqn:E2; [|done]. intros [= <- _] [= <- _].
    rewrite !to_of. intros Hv. f_equal. by eapply (view_inj (K := Ks) d1 _ _ d2).
  - intros s Hs. cbn. by rewrite (key_retained (K := Ks)), of_to.
Defined.
End StructLaws.

(** ** Laws of enums *)
(** Every variant's fields are lawful. *)
Class VariantsOk {S} (t : string) (vs : Variants S) := mkVariantsOk {
  var_val : S -> Prop;
  var_retained : S -> S;
  var_trace : option string -> S -> Trace;
  (** The tag a value is stored with, and the walk of its fields. *)
  var_tag : S -> Z;
  var_retired : S -> bool;
  var_traced : forall x mf, var_val x ->
    traced (variants_put t vs x) mf (tr_seq
      (if var_retired x then tr_refuse (NonEmpty "retired enum variant") else tr_raw (varint_bytes (var_tag x)))
      (var_trace mf x));
  var_in : forall x, var_tag x ∈ tags vs;
  var_u8 : forall x mf bs, var_val x -> trace_bytes (var_trace mf x) = Some bs -> Forall u8 bs;
  var_take_put : forall x mf bs d s, NoDup (tags vs) ->
    var_val x -> trace_bytes (var_trace mf x) = Some bs -> dec_wf d -> dec_rest d = bs ++ s ->
    variants_take vs (var_tag x) d = Some (var_retained x, advance (length bs) d);
  var_take_val : forall tag d x d',
    dec_wf d -> variants_take vs tag d = Some (x, d') -> var_val x /\ dec_step d d';
  var_verify : forall tag d, dec_wf d -> variants_verify vs tag d = option_map snd (variants_take vs tag d);
}.

#[export] Instance variants_nil_ok t : VariantsOk t VNil.
Proof.
  refine (mkVariantsOk _ t VNil (fun _ => True) id (fun _ x => match x with end)
    (fun x => match x with end) (fun x => match x with end) _ _ _ _ _ _); try done; by intros [].
Defined.

#[export] Instance variants_cons_ok {R S} t tag name decode_only (fs : Fields R) (vs : Variants S)
  {Ofs : DurableOk (fields_durable (variant_owner t name) fs)} {Ovs : VariantsOk t vs} :
  VariantsOk t (VCons tag name decode_only fs vs).
Proof.
  set (DF := fields_durable (variant_owner t name) fs).
  refine (mkVariantsOk _ t (VCons tag name decode_only fs vs)
    (fun x => match x with inl r => dval (D := DF) r | inr s => var_val s end)
    (fun x => match x with inl r => inl (retained (D := DF) r) | inr s => inr (var_retained s) end)
    (fun mf x => match x with inl r => trace (D := DF) mf r | inr s => var_trace mf s end)
    (fun x => match x with inl _ => tag | inr s => var_tag s end)
    (fun x => match x with inl _ => decode_only | inr s => var_retired s end) _ _ _ _ _ _).
  - intros [r|s] mf Hv; cbn; [|by apply var_traced].
    apply traced_seq; [unfold tag_put; destruct decode_only; [apply traced_refuse|apply traced_raw]|].
    exact (put_traced (D := DF) r mf Hv).
  - intros [r|s]; cbn; [apply elem_of_cons; by left|apply elem_of_cons; right; apply var_in].
  - intros [r|s] mf bs Hv; [exact (put_u8 (D := DF) r mf bs Hv)|by apply var_u8].
  - intros [r|s] mf bs d rest Hnd Hv Hb Hd E; cbn.
    + rewrite Z.eqb_refl. pose proof (take_put (D := DF) r mf bs d rest Hv Hb Hd E) as Ht.
      cbn in Ht. by rewrite Ht.
    + cbn in Hnd. apply NoDup_cons in Hnd as [Hn Hnd]. pose proof (var_in s) as Hin.
      rewrite (proj2 (Z.eqb_neq _ _)) by (intros He; apply Hn; by rewrite <-He).
      by erewrite var_take_put.
  - intros read d x d' Hd. cbn. destruct (read =? tag).
    + destruct (fields_take fs d) as [[r d1]|] eqn:E; [|done]. intros [= <- <-].
      exact (take_val (D := DF) d r d1 Hd E).
    + destruct (variants_take vs read d) as [[s d1]|] eqn:E; [|done]. intros [= <- <-].
      by eapply var_take_val.
  - intros read d Hd. cbn. destruct (read =? tag).
    + pose proof (verify_take (D := DF) d Hd) as Hv. cbn in Hv. rewrite Hv.
      by destruct (fields_take fs d) as [[]|].
    + rewrite var_verify by done. by destruct (variants_take vs read d) as [[]|].
Defined.

Section EnumLaws.
Context {V S : Type} (t : string) (vs : Variants V) (of_variant : V -> S) (to_variant : S -> V).
Context {Ovs : VariantsOk t vs} (to_of : forall v, to_variant (of_variant v) = v).
(** Tags are explicit and never reused. *)
Context (Hnodup : NoDup (tags vs)) (Hu64 : Forall u64 (tags vs)).

Definition enum_trace (mf : option string) (x : S) : Trace :=
  let v := to_variant x in
  tr_seq (if var_retired (vs := vs) v then tr_refuse (NonEmpty "retired enum variant")
          else tr_raw (varint_bytes (var_tag v)))
         (var_trace mf v).

Lemma var_tag_u64 v : u64 (var_tag (vs := vs) v).
Proof. rewrite Forall_forall in Hu64. apply Hu64, var_in. Qed.

Definition enum_ok : DurableOk (durable_enum t vs of_variant to_variant).
Proof.
  refine (mkDurableOk _ (durable_enum t vs of_variant to_variant)
    (fun x => var_val (to_variant x)) (fun x => of_variant (var_retained (to_variant x)))
    enum_trace _ _ _ _ _).
  - intros x mf Hv. by apply var_traced.
  - intros x mf bs Hv Hb. unfold enum_trace in Hb. destruct (var_retired _); tr_inv.
    apply Forall_app. split; [auto using varint_bytes_u8, var_tag_u64|by eapply var_u8].
  - intros x mf bs d s Hv Hb Hd E. unfold enum_trace in Hb. destruct (var_retired _); tr_inv.
    rewrite <-app_assoc in E. cbn. erewrite dec_varint_enc by eauto using var_tag_u64. dec_at E.
    erewrite var_take_put by done. by rewrite advance_app.
  - intros d x d' Hd. cbn. destruct (dec_varint d) as [[tag d1]|] eqn:E; [|done].
    apply dec_varint_step in E as [_ Hs]; [|done].
    destruct (variants_take vs tag d1) as [[v d2]|] eqn:E; [|done]. intros [= <- <-].
    apply var_take_val in E as [Hv Hs2]; [|by eauto with ottto]. rewrite to_of.
    split; [done|by eapply dec_step_trans].
  - intros d Hd. cbn. destruct (dec_varint d) as [[tag d1]|] eqn:E; [|done].
    apply dec_varint_step in E as [_ Hs]; [|done]. rewrite var_verify by eauto with ottto.
    by destruct (variants_take vs tag d1) as [[]|].
Defined.
End EnumLaws.

(** ** A whole record: written by [count_write], read by a fresh cursor *)
Section Record.
Context {T : Type} {D : Durable T} {Dok : DurableOk D}.

Lemma record_written limit (x : T) bytes :
  usize limit -> dval x -> count_write limit (put x) = Some (inr bytes) ->
  trace_bytes (trace None x) = Some bytes /\ slice_len bytes <= limit.
Proof.
  intros Hlim Hx. rewrite (count_write_traced _ _ _ Hlim (put_traced x None Hx)).
  unfold count_write_spec. destruct (trace None x) as [cs [r|]]; cbn;
    destruct (limit <? chunks_len cs) eqn:E; intros [= <-]. zbool. done.
Qed.
Lemma record_fits limit (x : T) bytes :
  usize limit -> dval x -> trace_bytes (trace None x) = Some bytes -> slice_len bytes <= limit ->
  count_write limit (put x) = Some (inr bytes).
Proof.
  intros Hlim Hx Hb Hl. rewrite (count_write_traced _ _ _ Hlim (put_traced x None Hx)).
  unfold count_write_spec. destruct (trace None x) as [cs [r|]]; simplify_eq/=.
  unfold chunks_len. by rewrite (proj2 (Z.ltb_ge _ _)) by lia.
Qed.
(** Reading the record back gives its retained value, leaves nothing unread,
    and the verifying walk agrees. *)
Lemma record_read {mf} (x : T) bytes :
  dval x -> trace_bytes (trace mf x) = Some bytes -> slice_len bytes < 2 ^ 63 ->
  exists d, dtake (dec_new bytes) = Some (retained x, d) /\ dec_finish d = true /\
            verify (dec_new bytes) = Some d.
Proof.
  intros Hx Hb Hl. pose proof (put_u8 x mf bytes Hx Hb) as Hu.
  pose proof (dec_wf_new bytes Hl Hu) as Hd. exists (advance (length bytes) (dec_new bytes)).
  assert (Ht : dtake (dec_new bytes) = Some (retained x, advance (length bytes) (dec_new bytes))).
  { eapply take_put; [done..|]. by rewrite app_nil_r. }
  split_and!; [done|by apply bool_decide_eq_true_2|]. by rewrite verify_take, Ht.
Qed.
End Record.
