(* ===== verification/UsageTotals.v ===== *)
(** Token counters and exact costs of a usage row: their add, monotonic and
    delta rules, and their stored record
    (crates/ottto-service/src/snapshots/usage.rs).

    A counter is a [u64]; a cost is an optional [u128] of pico-dollars.  A
    mutating method returns the receiver after it. *)
From S2P Require Import Prelude OrdMap DurableCodec DurableTypes DurableEntries DurableContainers.
From S2P Require Import DurableDigest DurableStruct.
Local Open Scope Z_scope.

Record UsageCosts := mkCosts {
  observed : bool;
  reported : bool;
  cost_total : option Z;
  cost_input : option Z;
  cost_output : option Z;
  cost_cache_read : option Z;
  cost_cache_creation : option Z;
}.
Definition costs_default : UsageCosts := mkCosts false false None None None None None.

Definition add_complete_cost (left right : option Z) : option Z :=
  match left, right with
  | Some l, Some r => checked_add 128 l r
  | _, _ => None
  end.

(** [UsageCosts::add]. *)
Definition costs_add (self other : UsageCosts) : UsageCosts :=
  if negb (observed other) then self
  else if negb (observed self) then other
  else
    let reported := reported self && reported other in
    if negb reported then mkCosts (observed self) reported None None None None None
    else mkCosts (observed self) reported
           (add_complete_cost (cost_total self) (cost_total other))
           (add_complete_cost (cost_input self) (cost_input other))
           (add_complete_cost (cost_output self) (cost_output other))
           (add_complete_cost (cost_cache_read self) (cost_cache_read other))
           (add_complete_cost (cost_cache_creation self) (cost_cache_creation other)).

Definition cost_is_monotonic (current previous : option Z) : bool :=
  match current, previous with
  | Some current, Some previous => previous <=? current
  | Some _, None | None, None => true
  | None, Some _ => false
  end.

(** [UsageCosts::is_monotonic_after]. *)
Definition costs_monotonic_after (self previous : UsageCosts) : bool :=
  (negb (observed previous) || observed self)
  && (negb (reported previous) || reported self)
  && cost_is_monotonic (cost_total self) (cost_total previous)
  && cost_is_monotonic (cost_input self) (cost_input previous)
  && cost_is_monotonic (cost_output self) (cost_output previous)
  && cost_is_monotonic (cost_cache_read self) (cost_cache_read previous)
  && cost_is_monotonic (cost_cache_creation self) (cost_cache_creation previous).

(** Rust's [-] on [u64]/[u128]: [None] is an overflow (a debug panic). *)
Definition minus (w a b : Z) : option Z := checked_sub w a b.
Definition cost_delta (current previous : option Z) : option (option Z) :=
  match current with
  | None => Some None
  | Some current => Some <$> minus 128 current (default 0 previous)
  end.
(** [UsageCosts::delta_from]. *)
Definition costs_delta (self previous : UsageCosts) : option UsageCosts :=
  try? total := cost_delta (cost_total self) (cost_total previous) in
  try? input := cost_delta (cost_input self) (cost_input previous) in
  try? output := cost_delta (cost_output self) (cost_output previous) in
  try? cache_read := cost_delta (cost_cache_read self) (cost_cache_read previous) in
  try? cache_creation := cost_delta (cost_cache_creation self) (cost_cache_creation previous) in
  Some (mkCosts (observed self) (reported self) total input output cache_read cache_creation).

Record UsageTotals := mkTotals {
  input_tokens : Z;
  output_tokens : Z;
  cache_read_tokens : Z;
  cache_creation_5m_tokens : Z;
  cache_creation_1h_tokens : Z;
  reasoning_output_tokens : Z;
  unattributed_total_tokens : Z;
  request_count : Z;
  costs : UsageCosts;
}.
Definition totals_default : UsageTotals := mkTotals 0 0 0 0 0 0 0 0 costs_default.

Definition total_tokens (u : UsageTotals) : Z :=
  let sat := saturating_add 64 in
  sat (sat (sat (sat (sat (input_tokens u) (output_tokens u)) (cache_read_tokens u))
    (cache_creation_5m_tokens u)) (cache_creation_1h_tokens u)) (unattributed_total_tokens u).
Definition is_zero (u : UsageTotals) : bool :=
  (total_tokens u =? 0) && (reasoning_output_tokens u =? 0).
Definition effective_input_context (u : UsageTotals) : Z :=
  let sat := saturating_add 64 in
  sat (sat (sat (input_tokens u) (cache_read_tokens u)) (cache_creation_5m_tokens u))
    (cache_creation_1h_tokens u).

(** [UsageTotals::add]: the receiver after it, and whether it was changed. *)
Definition totals_add (self other : UsageTotals) : UsageTotals * bool :=
  let sum f := checked_add 64 (f self) (f other) in
  match
    (try? input_tokens := sum input_tokens in
     try? output_tokens := sum output_tokens in
     try? cache_read_tokens := sum cache_read_tokens in
     try? cache_creation_5m_tokens := sum cache_creation_5m_tokens in
     try? cache_creation_1h_tokens := sum cache_creation_1h_tokens in
     try? reasoning_output_tokens := sum reasoning_output_tokens in
     try? unattributed_total_tokens := sum unattributed_total_tokens in
     try? request_count := sum request_count in
     Some (mkTotals input_tokens output_tokens cache_read_tokens cache_creation_5m_tokens
       cache_creation_1h_tokens reasoning_output_tokens unattributed_total_tokens request_count
       (costs_add (costs self) (costs other))))
  with
  | Some sum => (sum, true)
  | None => (self, false)
  end.

(** [UsageTotals::is_monotonic_after]. *)
Definition totals_monotonic_after (self previous : UsageTotals) : bool :=
  (input_tokens previous <=? input_tokens self)
  && (output_tokens previous <=? output_tokens self)
  && (cache_read_tokens previous <=? cache_read_tokens self)
  && (cache_creation_5m_tokens previous <=? cache_creation_5m_tokens self)
  && (cache_creation_1h_tokens previous <=? cache_creation_1h_tokens self)
  && (reasoning_output_tokens previous <=? reasoning_output_tokens self)
  && (unattributed_total_tokens previous <=? unattributed_total_tokens self)
  && (request_count previous <=? request_count self)
  && costs_monotonic_after (costs self) (costs previous).

(** [UsageTotals::delta_from]. *)
Definition totals_delta (self previous : UsageTotals) : option UsageTotals :=
  let sub f := minus 64 (f self) (f previous) in
  try? input_tokens := sub input_tokens in
  try? output_tokens := sub output_tokens in
  try? cache_read_tokens := sub cache_read_tokens in
  try? cache_creation_5m_tokens := sub cache_creation_5m_tokens in
  try? cache_creation_1h_tokens := sub cache_creation_1h_tokens in
  try? reasoning_output_tokens := sub reasoning_output_tokens in
  try? unattributed_total_tokens := sub unattributed_total_tokens in
  try? request_count := sub request_count in
  try? costs := costs_delta (costs self) (costs previous) in
  Some (mkTotals input_tokens output_tokens cache_read_tokens cache_creation_5m_tokens
    cache_creation_1h_tokens reasoning_output_tokens unattributed_total_tokens request_count costs).

Definition usage_totals_has_usage (u : UsageTotals) : bool :=
  negb (is_zero u) || (0 <? request_count u).
Definition usage_totals_equal (left right : UsageTotals) : bool :=
  (input_tokens left =? input_tokens right)
  && (output_tokens left =? output_tokens right)
  && (cache_read_tokens left =? cache_read_tokens right)
  && (cache_creation_5m_tokens left =? cache_creation_5m_tokens right)
  && (cache_creation_1h_tokens left =? cache_creation_1h_tokens right)
  && (reasoning_output_tokens left =? reasoning_output_tokens right)
  && (unattributed_total_tokens left =? unattributed_total_tokens right)
  && (request_count left =? request_count right).

(** ** Stored records *)
Definition UsageCosts_fields := FCons "observed" (FN bool_durable) (FCons "reported" (FN bool_durable)
  (FCons "total" (FN (option_durable u128_durable)) (FCons "input" (FN (option_durable u128_durable))
  (FCons "output" (FN (option_durable u128_durable)) (FCons "cache_read" (FN (option_durable u128_durable))
  (FCons "cache_creation" (FN (option_durable u128_durable)) FNil)))))).
Definition UsageCosts_durable : Durable UsageCosts := durable_struct "UsageCosts" UsageCosts_fields
  (fun '(o, (r, (t, (i, (u, (cr, (cc, _))))))) => mkCosts o r t i u cr cc)
  (fun c => (observed c, (reported c, (cost_total c, (cost_input c, (cost_output c,
    (cost_cache_read c, (cost_cache_creation c, tt)))))))).

Definition UsageTotals_fields := FCons "input_tokens" (FN u64_durable) (FCons "output_tokens" (FN u64_durable)
  (FCons "cache_read_tokens" (FN u64_durable) (FCons "cache_creation_5m_tokens" (FN u64_durable)
  (FCons "cache_creation_1h_tokens" (FN u64_durable) (FCons "reasoning_output_tokens" (FN u64_durable)
  (FCons "unattributed_total_tokens" (FN u64_durable) (FCons "request_count" (FN u64_durable)
  (FCons "costs" (FN UsageCosts_durable) FNil)))))))).
Definition UsageTotals_durable : Durable UsageTotals := durable_struct "UsageTotals" UsageTotals_fields
  (fun '(i, (o, (cr, (c5, (c1, (ro, (ut, (rc, (c, _))))))))) => mkTotals i o cr c5 c1 ro ut rc c)
  (fun u => (input_tokens u, (output_tokens u, (cache_read_tokens u, (cache_creation_5m_tokens u,
    (cache_creation_1h_tokens u, (reasoning_output_tokens u, (unattributed_total_tokens u,
    (request_count u, (costs u, tt)))))))))).

(** ** Well-formed rows *)
Definition cost_ok (c : option Z) : Prop := match c with Some c => u128 c | None => True end.
Record costs_wf (c : UsageCosts) : Prop := {
  costs_wf_observed : observed c = false -> reported c = false;
  (** Only a fully reported row carries amounts. *)
  costs_wf_reported : reported c = false -> c = mkCosts (observed c) false None None None None None;
  costs_wf_amounts : cost_ok (cost_total c) /\ cost_ok (cost_input c) /\ cost_ok (cost_output c) /\
    cost_ok (cost_cache_read c) /\ cost_ok (cost_cache_creation c);
}.
Definition counters : list (UsageTotals -> Z) :=
  [input_tokens; output_tokens; cache_read_tokens; cache_creation_5m_tokens; cache_creation_1h_tokens;
   reasoning_output_tokens; unattributed_total_tokens; request_count].
Record totals_wf (u : UsageTotals) : Prop := {
  totals_wf_counters : Forall (fun f => u64 (f u)) counters;
  totals_wf_costs : costs_wf (costs u);
}.

Lemma add_complete_comm a b : add_complete_cost a b = add_complete_cost b a.
Proof. destruct a, b; cbn; try done. unfold checked_add. by rewrite Z.add_comm. Qed.
Lemma add_complete_ok a b : cost_ok (add_complete_cost a b).
Proof.
  destruct a, b; cbn; try done. destruct (checked_add 128 z z0) eqn:E; [|done].
  by apply try_uint_Some in E as [-> ?].
Qed.
Lemma add_complete_assoc a b c :
  cost_ok a -> cost_ok b -> cost_ok c ->
  add_complete_cost (add_complete_cost a b) c = add_complete_cost a (add_complete_cost b c).
Proof.
  destruct a as [a|], b as [b|], c as [c|]; cbn; intros Ha Hb Hc; try done;
    [|by destruct (checked_add 128 a b)].
  unfold uint in *. rewrite !(checked_add_eq 128 a), !(checked_add_eq 128 b) by lia.
  destruct (a + b <? 2 ^ 128) eqn:E1, (b + c <? 2 ^ 128) eqn:E2; cbn; zbool;
    rewrite ?checked_add_eq by lia; try done; rewrite ?Z.add_assoc; try done.
  - by rewrite (proj2 (Z.ltb_ge _ _)) by lia.
  - by rewrite (proj2 (Z.ltb_ge _ _)) by lia.
Qed.

Lemma costs_add_wf a b : costs_wf a -> costs_wf b -> costs_wf (costs_add a b).
Proof.
  intros Ha Hb. unfold costs_add. destruct (observed b) eqn:Ob; [|done].
  destruct (observed a) eqn:Oa; [|done]. cbn.
  destruct (reported a && reported b) eqn:R; cbn; split; cbn; try done.
  split_and!; apply add_complete_ok.
Qed.

Lemma costs_unobserved c : costs_wf c -> observed c = false -> c = costs_default.
Proof. intros [H1 H2 _] Ho. rewrite H2 by auto. unfold costs_default. by rewrite Ho. Qed.

Lemma costs_add_comm a b : costs_wf a -> costs_wf b -> costs_add a b = costs_add b a.
Proof.
  intros Ha Hb. unfold costs_add. destruct (observed b) eqn:Ob, (observed a) eqn:Oa; cbn; try done.
  - rewrite (andb_comm (reported b)). destruct (reported a && reported b); cbn; [|done].
    f_equal; apply add_complete_comm.
  - by rewrite (costs_unobserved a), (costs_unobserved b).
Qed.
Lemma costs_add_default a : costs_wf a -> costs_add a costs_default = a /\ costs_add costs_default a = a.
Proof.
  intros Ha. split; [done|]. unfold costs_add. destruct (observed a) eqn:Oa; [done|]. cbn.
  by rewrite (costs_unobserved a).
Qed.
Lemma costs_add_assoc a b c :
  costs_wf a -> costs_wf b -> costs_wf c ->
  costs_add (costs_add a b) c = costs_add a (costs_add b c).
Proof.
  intros Ha Hb Hc.
  destruct (observed a) eqn:Oa; [|rewrite (costs_unobserved a) by done;
    by rewrite (proj2 (costs_add_default b Hb)), (proj2 (costs_add_default _ (costs_add_wf b c Hb Hc)))].
  destruct (observed b) eqn:Ob; [|rewrite (costs_unobserved b) by done;
    by rewrite (proj2 (costs_add_default c Hc)), (proj1 (costs_add_default a Ha))].
  destruct (observed c) eqn:Oc; [|by rewrite (costs_unobserved c)].
  destruct (costs_wf_amounts _ Ha) as (?&?&?&?&?), (costs_wf_amounts _ Hb) as (?&?&?&?&?),
    (costs_wf_amounts _ Hc) as (?&?&?&?&?).
  destruct a as [oa ra], b as [ob rb], c as [oc rc]; cbn in *; subst.
  destruct ra, rb, rc; cbn; try done. unfold costs_add; cbn. f_equal; by apply add_complete_assoc.
Qed.
Lemma costs_default_wf : costs_wf costs_default.
Proof. by split. Qed.

(** ** Adding rows *)
Lemma totals_add_true a b :
  totals_wf a -> totals_wf b -> Forall (fun f => f a + f b < 2 ^ 64) counters ->
  exists s, totals_add a b = (s, true) /\ Forall (fun f => f s = f a + f b) counters /\
    costs s = costs_add (costs a) (costs b).
Proof.
  intros [Ha _] [Hb _] Hf. unfold totals_add, counters in *.
  rewrite !Forall_cons in Ha, Hb, Hf. unfold uint in *. destruct_and!.
  repeat (rewrite checked_add_eq by lia; rewrite (proj2 (Z.ltb_lt _ _)) by lia).
  eexists. split; [done|]. split; [by repeat constructor|done].
Qed.
Lemma totals_add_false a b :
  totals_wf a -> totals_wf b -> (totals_add a b).2 = true ->
  Forall (fun f => f a + f b < 2 ^ 64) counters.
Proof.
  intros Ha Hb. unfold totals_add. intros H.
  repeat match type of H with
    | (match ?m with Some _ => _ | None => _ end).2 = true => destruct m eqn:?; [|done]
    end. inv_try. unfold counters, checked_add in *.
  repeat match goal with H : try_uint 64 _ = Some _ |- _ => apply try_uint_Some in H as [-> ?] end.
  unfold uint in *. repeat constructor; lia.
Qed.
Lemma totals_add_cases a b : (totals_add a b).2 = true \/ totals_add a b = (a, false).
Proof.
  unfold totals_add.
  match goal with |- context [match ?m with Some s => (s, true) | None => _ end] => destruct m end; auto.
Qed.
Lemma totals_add_wf a b : totals_wf a -> totals_wf b -> totals_wf (totals_add a b).1.
Proof.
  intros Ha Hb. destruct (totals_add_cases a b) as [Ht|Ht].
  - pose proof (totals_add_false a b Ha Hb Ht) as Hf.
    destruct (totals_add_true a b Ha Hb Hf) as (s & -> & Hs & Hc). cbn. split.
    + rewrite Forall_forall in *. intros f Hin. rewrite (Hs f Hin). specialize (Hf f Hin).
      pose proof (totals_wf_counters _ Ha) as Ha'. pose proof (totals_wf_counters _ Hb) as Hb'.
      rewrite Forall_forall in *. specialize (Ha' f Hin). specialize (Hb' f Hin). unfold uint in *. lia.
    + rewrite Hc. apply costs_add_wf; [apply Ha|apply Hb].
  - by rewrite Ht.
Qed.
Lemma totals_ext a b : Forall (fun f => f a = f b) counters -> costs a = costs b -> a = b.
Proof.
  unfold counters. rewrite !Forall_cons. destruct a, b; cbn. intros. by destruct_and!; subst.
Qed.
Lemma totals_default_wf : totals_wf totals_default.
Proof. split; [by repeat constructor|apply costs_default_wf]. Qed.

(** [UsageTotals::add] is atomic: it succeeds exactly when no counter
    overflows, then every counter is the exact sum and the costs are added;
    otherwise the receiver is unchanged.  Rows stay well formed. *)
Theorem totals_add_atomic a b :
  totals_wf a -> totals_wf b ->
  totals_wf (totals_add a b).1 /\
  ((totals_add a b).2 = true <-> Forall (fun f => f a + f b < 2 ^ 64) counters) /\
  ((totals_add a b).2 = true ->
     Forall (fun f => f (totals_add a b).1 = f a + f b) counters /\
     costs (totals_add a b).1 = costs_add (costs a) (costs b)) /\
  ((totals_add a b).2 = false -> (totals_add a b).1 = a).
Proof.
  intros Ha Hb. split; [by apply totals_add_wf|]. split; [split|].
  - by apply totals_add_false.
  - intros Hf. by destruct (totals_add_true a b Ha Hb Hf) as (s & -> & _).
  - split.
    + intros Ht. destruct (totals_add_true a b Ha Hb (totals_add_false a b Ha Hb Ht)) as (s & -> & Hs & Hc).
      done.
    + destruct (totals_add_cases a b) as [->| ->]; done.
Qed.
Definition sample_row : UsageTotals :=
  mkTotals 1200 30 7 0 5 2 0 1 (mkCosts true true (Some 9000) (Some 8000) (Some 500) (Some 500) (Some 0)).
Lemma sample_row_wf : totals_wf sample_row.
Proof. split; [by repeat constructor|]. split; [done|done|]. by repeat split. Qed.
Lemma totals_add_atomic_witness :
  totals_wf (totals_add sample_row sample_row).1 /\ (totals_add sample_row sample_row).2 = true.
Proof.
  destruct (totals_add_atomic sample_row sample_row) as (Hw & Hb & _);
    [apply sample_row_wf..|]. split; [exact Hw|]. vm_compute. reflexivity.
Defined.

(** Rows aggregated in the order they are read. *)
Definition totals_sum (rows : list UsageTotals) : UsageTotals :=
  foldl (fun acc row => (totals_add acc row).1) totals_default rows.
Fixpoint column (f : UsageTotals -> Z) (rows : list UsageTotals) : Z :=
  match rows with [] => 0 | row :: rows => f row + column f rows end.

Lemma column_perm f xs ys : xs ≡ₚ ys -> column f xs = column f ys.
Proof. induction 1; cbn; lia. Qed.
Lemma column_nonneg f xs : f ∈ counters -> Forall totals_wf xs -> 0 <= column f xs.
Proof.
  intros Hf. induction 1 as [|x xs Hx _ IH]; cbn; [lia|].
  pose proof (totals_wf_counters _ Hx) as Hc. rewrite Forall_forall in Hc.
  specialize (Hc f Hf). unfold uint in Hc. lia.
Qed.
Lemma costs_fold_perm xs ys :
  xs ≡ₚ ys -> Forall costs_wf xs -> foldr costs_add costs_default xs = foldr costs_add costs_default ys.
Proof.
  assert (Hfold : forall xs, Forall costs_wf xs -> costs_wf (foldr costs_add costs_default xs)).
  { induction 1; cbn; auto using costs_add_wf, costs_default_wf. }
  induction 1 as [|x xs ys Hp IH|x y xs|xs ys zs H1 IH1 H2 IH2]; intros Hw; [done|..].
  - apply Forall_cons in Hw as [_ Hw]. cbn. by rewrite IH.
  - apply Forall_cons in Hw as [Hx Hw]. apply Forall_cons in Hw as [Hy Hw]. cbn.
    rewrite <-!costs_add_assoc by auto. by rewrite (costs_add_comm x y).
  - rewrite IH1 by done. apply IH2. by rewrite <-H1.
Qed.

Lemma totals_sum_from acc rows :
  totals_wf acc -> Forall totals_wf rows ->
  Forall (fun f => f acc + column f rows < 2 ^ 64) counters ->
  let s := foldl (fun acc row => (totals_add acc row).1) acc rows in
  Forall (fun f => f s = f acc + column f rows) counters /\
  costs s = costs_add (costs acc) (foldr costs_add costs_default (costs <$> rows)).
Proof.
  intros Ha Hr. revert acc Ha. induction Hr as [|row rows Hrow Hr IH]; intros acc Ha Hf; cbn.
  - split; [repeat constructor; cbn; lia|done].
  - assert (Hadd : Forall (fun f => f acc + f row < 2 ^ 64) counters).
    { pose proof (fun f Hin => column_nonneg f rows Hin Hr) as Hpos.
      rewrite Forall_forall in *. intros f Hin. specialize (Hf f Hin). specialize (Hpos f Hin).
      cbn in Hf. lia. }
    pose proof (totals_add_wf acc row Ha Hrow) as Hw.
    destruct (totals_add_true acc row Ha Hrow Hadd) as (s & E & Hs & Hc). rewrite E in Hw |- *. cbn in *.
    destruct (IH s Hw) as [H1 H2].
    + rewrite Forall_forall in *. intros f Hin. rewrite (Hs f Hin). specialize (Hf f Hin). cbn in Hf. lia.
    + split.
      * rewrite Forall_forall in *. intros f Hin. rewrite (H1 f Hin), (Hs f Hin). lia.
      * rewrite H2, Hc. apply costs_add_assoc; [apply Ha|apply Hrow|].
        clear -Hr. induction Hr; cbn; [apply costs_default_wf|apply costs_add_wf; [apply H|done]].
Qed.

(** A session's totals do not depend on the order its rows are read in, as
    long as the sums fit the wire counters: every permutation of the rows gives
    the same counters and the same costs, overflowed costs included. *)
Theorem totals_sum_order rows rows' :
  rows ≡ₚ rows' -> Forall totals_wf rows -> Forall (fun f => column f rows < 2 ^ 64) counters ->
  totals_sum rows = totals_sum rows' /\
  Forall (fun f => f (totals_sum rows) = column f rows) counters.
Proof.
  intros Hp Hw Hf. assert (Hw' : Forall totals_wf rows') by by rewrite <-Hp.
  assert (Hf' : Forall (fun f => column f rows' < 2 ^ 64) counters).
  { rewrite Forall_forall in *. intros f Hin. rewrite <-(column_perm f _ _ Hp). auto. }
  assert (Hz : Forall (fun f => f totals_default = 0) counters) by by repeat constructor.
  destruct (totals_sum_from totals_default rows totals_default_wf Hw) as [H1 H2].
  { rewrite Forall_forall in *. intros f Hin. rewrite (Hz f Hin). by apply Hf. }
  destruct (totals_sum_from totals_default rows' totals_default_wf Hw') as [H1' H2'].
  { rewrite Forall_forall in *. intros f Hin. rewrite (Hz f Hin). by apply Hf'. }
  fold (totals_sum rows) in *. fold (totals_sum rows') in *. split.
  - apply totals_ext.
    + rewrite Forall_forall in *. intros f Hin. rewrite (H1 f Hin), (H1' f Hin).
      by rewrite (column_perm f _ _ Hp).
    + rewrite H2, H2'. f_equal. apply costs_fold_perm; [by apply fmap_Permutation|].
      apply Forall_fmap. eapply Forall_impl; [exact Hw|]. intros r Hr. apply Hr.
  - rewrite Forall_forall in *. intros f Hin. rewrite (H1 f Hin), (Hz f Hin). lia.
Qed.
Lemma totals_sum_order_witness :
  totals_sum [sample_row; totals_default] = totals_sum [totals_default; sample_row] /\
  Forall (fun f => f (totals_sum [sample_row; totals_default]) = column f [sample_row; totals_default]) counters.
Proof.
  apply (totals_sum_order [sample_row; totals_default] [totals_default; sample_row]).
  - apply Permutation_swap.
  - repeat constructor; try apply sample_row_wf; apply totals_default_wf.
  - repeat constructor.
Defined.

(** ** Monotonic rows and their deltas *)
Lemma cost_monotonic_delta cur prev :
  cost_ok cur -> cost_ok prev -> cost_is_monotonic cur prev = true ->
  exists d, cost_delta cur prev = Some d /\ cost_ok d /\
    (is_Some prev -> add_complete_cost prev d = cur).
Proof.
  destruct cur as [c|], prev as [p|]; cbn; intros Hc Hp Hm; try done.
  - zbool. unfold uint in *. unfold minus. rewrite checked_sub_eq, (proj2 (Z.leb_le _ _)) by lia.
    eexists. split; [done|]. cbn. unfold uint. split; [lia|]. intros _.
    rewrite checked_add_eq by lia. rewrite (proj2 (Z.ltb_lt _ _)) by lia. f_equal. lia.
  - unfold minus, uint in *. rewrite checked_sub_eq, (proj2 (Z.leb_le _ _)) by lia.
    eexists. split; [done|]. cbn. unfold uint. split; [lia|]. by intros [].
  - exists None. split_and!; [done..|]. by intros [].
Qed.

(** A row whose costs are all reported. *)
Definition costs_complete (c : UsageCosts) : Prop :=
  reported c = true /\ is_Some (cost_total c) /\ is_Some (cost_input c) /\ is_Some (cost_output c) /\
  is_Some (cost_cache_read c) /\ is_Some (cost_cache_creation c).

Lemma costs_monotonic_delta cur prev :
  costs_wf cur -> costs_wf prev -> costs_monotonic_after cur prev = true ->
  exists d, costs_delta cur prev = Some d /\ costs_wf d /\
    (costs_complete prev -> costs_add prev d = cur).
Proof.
  intros Hc Hp Hm. unfold costs_monotonic_after in Hm. zbool.
  destruct (costs_wf_amounts _ Hc) as (?&?&?&?&?), (costs_wf_amounts _ Hp) as (?&?&?&?&?).
  destruct (cost_monotonic_delta (cost_total cur) (cost_total prev)) as (t & Ht & ? & Rt); [done..|].
  destruct (cost_monotonic_delta (cost_input cur) (cost_input prev)) as (i & Hi & ? & Ri); [done..|].
  destruct (cost_monotonic_delta (cost_output cur) (cost_output prev)) as (o & Ho & ? & Ro); [done..|].
  destruct (cost_monotonic_delta (cost_cache_read cur) (cost_cache_read prev)) as (r & Hr & ? & Rr); [done..|].
  destruct (cost_monotonic_delta (cost_cache_creation cur) (cost_cache_creation prev)) as (w & Hw & ? & Rw);
    [done..|].
  unfold costs_delta. rewrite Ht, Hi, Ho, Hr, Hw. eexists. split; [done|]. split.
  - split; cbn; [apply Hc| |done]. intros Hn. pose proof (costs_wf_reported _ Hc Hn) as He.
    rewrite He in Ht, Hi, Ho, Hr, Hw. cbn in Ht, Hi, Ho, Hr, Hw. rewrite He. cbn. by simplify_eq.
  - intros (Rp & ? & ? & ? & ? & ?). rewrite Rp in *. cbn in *.
    assert (Op : observed prev = true).
    { destruct (observed prev) eqn:E; [done|]. by rewrite (costs_wf_observed _ Hp E) in Rp. }
    rewrite Op in *. cbn in *. unfold costs_add. cbn. rewrite Op.
    match goal with H : observed cur = true |- _ => rewrite H end. cbn. rewrite Rp.
    match goal with H : reported cur = true |- _ => rewrite H end. cbn.
    rewrite Rt, Ri, Ro, Rr, Rw by done. destruct cur; cbn in *. by subst.
Qed.

(** A row that passes [is_monotonic_after] has a delta (the subtractions
    never underflow), the delta is a well-formed row, and adding it back to the
    previous row is never rejected and restores every counter; when the previous
    row's costs are complete it restores the whole row. *)
Theorem monotonic_delta_restores cur prev :
  totals_wf cur -> totals_wf prev -> totals_monotonic_after cur prev = true ->
  exists delta, totals_delta cur prev = Some delta /\ totals_wf delta /\
    (totals_add prev delta).2 = true /\
    usage_totals_equal (totals_add prev delta).1 cur = true /\
    (costs_complete (costs prev) -> (totals_add prev delta).1 = cur).
Proof.
  intros Hc Hp Hm. unfold totals_monotonic_after in Hm. zbool.
  destruct (costs_monotonic_delta (costs cur) (costs prev)) as (dc & Hdc & Hwf & Hback);
    [apply Hc|apply Hp|done|].
  pose proof (totals_wf_counters _ Hc) as Cc. pose proof (totals_wf_counters _ Hp) as Cp.
  unfold counters in Cc, Cp. rewrite !Forall_cons in Cc, Cp. unfold uint in Cc, Cp. destruct_and!.
  unfold totals_delta, minus. rewrite Hdc.
  repeat (rewrite checked_sub_eq by lia; rewrite (proj2 (Z.leb_le _ _)) by lia).
  eexists. split; [done|].
  set (delta := mkTotals _ _ _ _ _ _ _ _ dc).
  assert (Hd : totals_wf delta) by (split; [repeat constructor; unfold uint; cbn; lia|done]).
  destruct (totals_add_true prev delta Hp Hd) as (s & -> & Hs & Hcosts).
  { repeat constructor; cbn; lia. }
  unfold counters in Hs. rewrite !Forall_cons in Hs. cbn in Hs. destruct_and!. cbn.
  split_and!; [done|done| |].
  - unfold usage_totals_equal. repeat (apply andb_true_intro; split); apply Z.eqb_eq; lia.
  - intros Hcomp. apply totals_ext; [repeat constructor; lia|]. rewrite Hcosts. by apply Hback.
Qed.
Definition later_row : UsageTotals :=
  mkTotals 1300 45 7 0 9 2 0 3 (mkCosts true true (Some 9900) (Some 8800) (Some 500) (Some 600) (Some 0)).
Lemma later_row_wf : totals_wf later_row.
Proof. split; [by repeat constructor|]. split; [done|done|]. by repeat split. Qed.
Lemma monotonic_delta_restores_witness :
  exists delta, totals_delta later_row sample_row = Some delta /\ (totals_add sample_row delta).1 = later_row.
Proof.
  destruct (monotonic_delta_restores later_row sample_row) as (delta & Hd & _ & _ & _ & Hr).
  - apply later_row_wf.
  - apply sample_row_wf.
  - vm_compute. reflexivity.
  - exists delta. split; [exact Hd|]. apply Hr. repeat split; eexists; reflexivity.
Defined.

Lemma cost_monotonic_refl c : cost_is_monotonic c c = true.
Proof. destruct c; cbn; [apply Z.leb_refl|done]. Qed.
Lemma cost_monotonic_trans a b c :
  cost_is_monotonic a b = true -> cost_is_monotonic b c = true -> cost_is_monotonic a c = true.
Proof. destruct a, b, c; cbn; try done. rewrite !Z.leb_le. lia. Qed.

Lemma totals_monotonic_refl a : totals_monotonic_after a a = true.
Proof.
  unfold totals_monotonic_after, costs_monotonic_after.
  rewrite !Z.leb_refl, !cost_monotonic_refl. by destruct (observed (costs a)), (reported (costs a)).
Qed.
Lemma totals_monotonic_trans a b c :
  totals_monotonic_after b a = true -> totals_monotonic_after c b = true -> totals_monotonic_after c a = true.
Proof.
  unfold totals_monotonic_after, costs_monotonic_after. intros H1 H2. zbool.
  repeat (apply andb_true_intro; split); try (apply Z.leb_le; lia); try (by eapply cost_monotonic_trans).
  - destruct (observed (costs a)), (observed (costs b)), (observed (costs c)); done.
  - destruct (reported (costs a)), (reported (costs b)), (reported (costs c)); done.
Qed.
Lemma totals_monotonic_counters a b :
  totals_monotonic_after b a = true -> Forall (fun f => f a <= f b) counters.
Proof. unfold totals_monotonic_after. intros H. zbool. repeat constructor; lia. Qed.

(** [is_monotonic_after] is a preorder on rows: a row is monotonic after
    itself, and monotonic steps compose, so a session that only ever replaces
    its row by a monotonic successor never loses a counted token or a reported
    cost. *)
Theorem totals_monotonic_preorder a b c :
  totals_monotonic_after a a = true /\
  (totals_monotonic_after b a = true -> totals_monotonic_after c b = true ->
   totals_monotonic_after c a = true /\ Forall (fun f => f a <= f c) counters).
Proof.
  split; [apply totals_monotonic_refl|]. intros H1 H2.
  pose proof (totals_monotonic_trans _ _ _ H1 H2) as H. split; [done|by apply totals_monotonic_counters].
Qed.
Lemma totals_monotonic_preorder_witness :
  totals_monotonic_after later_row totals_default = true /\
  Forall (fun f => f totals_default <= f later_row) counters.
Proof.
  apply (totals_monotonic_preorder totals_default sample_row later_row); vm_compute; reflexivity.
Defined.

(** ** The stored row *)
#[export] Instance UsageCosts_ok : DurableOk UsageCosts_durable.
Proof.
  refine (struct_ok "UsageCosts" UsageCosts_fields _ _ _). by intros (?&?&?&?&?&?&?&[]).
Defined.
#[export] Instance UsageTotals_ok : DurableOk UsageTotals_durable.
Proof.
  refine (struct_ok "UsageTotals" UsageTotals_fields _ _ _). by intros (?&?&?&?&?&?&?&?&?&[]).
Defined.

(** What the walk of an optional amount writes. *)
Lemma option_u128_bytes mf (c : option Z) :
  exists bs, trace_bytes (trace (D := option_durable u128_durable) mf c) = Some bs /\ slice_len bs <= 17.
Proof.
  destruct c as [c|]; cbn.
  - rewrite trace_bytes_seq, !trace_bytes_raw. eexists. split; [done|].
    rewrite slice_len_app. done.
  - rewrite trace_bytes_raw. by eexists.
Qed.
Lemma varint_tr_bytes v :
  u64 v -> exists bs, trace_bytes (tr_raw (varint_bytes v)) = Some bs /\ slice_len bs <= 10.
Proof.
  intros Hv. rewrite trace_bytes_raw. eexists. split; [done|].
  pose proof (varint_bytes_length v Hv). unfold slice_len. lia.
Qed.
Lemma tr_seq_bytes t1 t2 n m :
  (exists bs, trace_bytes t1 = Some bs /\ slice_len bs <= n) ->
  (exists bs, trace_bytes t2 = Some bs /\ slice_len bs <= m) ->
  exists bs, trace_bytes (tr_seq t1 t2) = Some bs /\ slice_len bs <= n + m.
Proof.
  intros (b1 & H1 & L1) (b2 & H2 & L2). rewrite trace_bytes_seq, H1, H2.
  eexists. split; [done|]. rewrite slice_len_app. lia.
Qed.
Lemma tr_ok_bytes : exists bs, trace_bytes tr_ok = Some bs /\ slice_len bs <= 0.
Proof. by eexists. Qed.

Lemma costs_trace_bytes mf c :
  exists bs, trace_bytes (trace (D := UsageCosts_durable) mf c) = Some bs /\ slice_len bs <= 87.
Proof.
  cbn -[Z.le option_trace]. change 87 with (1 + (1 + (17 + (17 + (17 + (17 + (17 + 0))))))).
  do 2 (apply tr_seq_bytes; [eexists; split; [apply trace_bytes_raw|done]|]).
  do 5 (apply tr_seq_bytes; [apply option_u128_bytes|]). apply tr_ok_bytes.
Qed.
Lemma totals_trace_bytes u :
  totals_wf u ->
  exists bs, trace_bytes (trace (D := UsageTotals_durable) None u) = Some bs /\ slice_len bs <= 167.
Proof.
  intros [Hu _]. unfold counters in Hu. rewrite !Forall_cons in Hu. destruct_and!.
  cbn -[Z.le]. change 167 with (10 + (10 + (10 + (10 + (10 + (10 + (10 + (10 + (87 + 0))))))))).
  do 8 (apply tr_seq_bytes; [by apply varint_tr_bytes|]).
  apply tr_seq_bytes; [exact (costs_trace_bytes None (costs u))|apply tr_ok_bytes].
Qed.
Lemma totals_dval u : totals_wf u -> dval (D := UsageTotals_durable) u.
Proof.
  intros [Hu [_ _ Hc]]. unfold counters in Hu. rewrite !Forall_cons in Hu. cbn -[uint].
  destruct_and!. split_and!; try done;
    by match goal with |- match ?c with Some _ => _ | None => _ end => destruct c end.
Qed.

(** A usage row is never refused by the record writer, takes at most 167
    bytes, and reads back as exactly the row that was written, with no byte
    left over; the verifying walk accepts the same bytes. *)
Theorem usage_row_stored limit u :
  167 <= limit < 2 ^ 63 -> totals_wf u ->
  exists bytes d,
    count_write limit (@put _ UsageTotals_durable u) = Some (inr bytes) /\
    slice_len bytes <= 167 /\
    @dtake _ UsageTotals_durable (dec_new bytes) = Some (u, d) /\ dec_finish d = true /\
    @verify _ UsageTotals_durable (dec_new bytes) = Some d.
Proof.
  intros Hl Hu. destruct (totals_trace_bytes u Hu) as (bytes & Hb & Hlen).
  pose proof (totals_dval u Hu) as Hv.
  destruct (record_read (D := UsageTotals_durable) u bytes Hv Hb) as (d & Ht & Hf & Hver); [lia|].
  exists bytes, d. split_and!; [|done| |done|done].
  - apply (record_fits (D := UsageTotals_durable)); [unfold uint; lia|done|done|lia].
  - rewrite Ht. do 2 f_equal. destruct u as [? ? ? ? ? ? ? ? []]; cbn.
    by repeat match goal with c : option Z |- _ => destruct c end.
Qed.
Lemma usage_row_stored_witness :
  exists bytes d, count_write 1024 (@put _ UsageTotals_durable sample_row) = Some (inr bytes) /\
    @dtake _ UsageTotals_durable (dec_new bytes) = Some (sample_row, d).
Proof.
  destruct (usage_row_stored 1024 sample_row) as (bytes & d & Hw & _ & Ht & _).
  - lia.
  - apply sample_row_wf.
  - exists bytes, d. split; [exact Hw|exact Ht].
Defined.
