(* ===== verification/PriceLines.v ===== *)
(** Provider price lines: the canonical model key, the table lookup and one
    request's context bucket; exact dollar text of a pico amount
    (crates/ottto-service/src/snapshots/usage.rs, snapshots/scan/limits.rs,
    snapshots.rs).

    Text is handled by its bytes, as the code does; [rfc3339_unix_seconds]
    parses with the time crate and is a parameter. *)
From S2P Require Import Prelude.
From S2P Require Import Text.
Local Open Scope Z_scope.

(** ** The canonical model key *)
Definition route_prefixes : list (list Z) :=
  as_bytes <$> ["anthropic."; "anthropic/"; "openai/"]%string.
Definition drop_route (key marker : list Z) : list Z :=
  match split_at_first marker key with Some (_, rest) => rest | None => key end.
Definition drop_version (key : list Z) : list Z :=
  match split_at_last (as_bytes "-v") key with
  | Some (head, version) =>
      match split_at_first (as_bytes ":") version with
      | Some (major, minor) => if all_digits major && all_digits minor then head else key
      | None => key
      end
  | None => key
  end.
Definition drop_latest (key : list Z) : list Z :=
  match strip_suffix (as_bytes "-latest") key with Some head => head | None => key end.

Definition byte_at (bytes : list Z) (i : nat) : Z := nth i bytes 0.
Definition slice (bytes : list Z) (from until : nat) : list Z := take (until - from) (drop from bytes).
Definition dated_suffix (bytes : list Z) : nat :=
  let n := length bytes in
  if bool_decide (11 < n)%nat
     && (byte_at bytes (n - 11) =? 45) && (byte_at bytes (n - 6) =? 45) && (byte_at bytes (n - 3) =? 45)
     && all_digits (slice bytes (n - 10) (n - 6)) && all_digits (slice bytes (n - 5) (n - 3))
     && all_digits (slice bytes (n - 2) n)
  then 11%nat
  else if bool_decide (9 < n)%nat
     && ((byte_at bytes (n - 9) =? 45) || (byte_at bytes (n - 9) =? 64))
     && all_digits (slice bytes (n - 8) n)
  then 9%nat
  else 0%nat.

Definition provider_price_line_model_key (model : string) : string :=
  let key := ascii_lower <$> trim (as_bytes model) in
  let key := foldl drop_route key route_prefixes in
  let key := drop_latest (drop_version key) in
  let key := take (length key - dated_suffix key) key in
  of_bytes ((fun b => if b =? 46 then 45 else b) <$> key).

(** ** The table *)
Inductive ProviderPriceLineKind := Tiered | TieredForward | Analysis.
#[export] Instance ProviderPriceLineKind_eq_dec : EqDecision ProviderPriceLineKind.
Proof. solve_decision. Defined.

Definition CLAUDE_CONTEXT_BUCKET_LONG_THRESHOLD_TOKENS : Z := 200000.
Definition PROVIDER_PRICE_LINES : list (string * Z * ProviderPriceLineKind) := [
  ("gpt-5-4", 272000, Tiered); ("gpt-5-4-pro", 272000, Tiered); ("gpt-5-5", 272000, Tiered);
  ("gpt-5-5-pro", 272000, Tiered); ("gpt-5-6-luna", 272000, Tiered); ("gpt-5-6-sol", 272000, Tiered);
  ("gpt-5-6-terra", 272000, Tiered); ("gpt-6-astra", 272000, Tiered); ("gpt-6-luna", 272000, Tiered);
  ("gpt-6-sol", 272000, Tiered); ("gpt-6-1-sol", 272000, Tiered);
  ("gpt-6-1-terra", 272000, TieredForward); ("gpt-6-rosalind", 272000, TieredForward);
  ("claude-haiku-5-5", 100000, Tiered);
  ("claude-fable-5", CLAUDE_CONTEXT_BUCKET_LONG_THRESHOLD_TOKENS, Analysis);
  ("claude-fable-5-1", CLAUDE_CONTEXT_BUCKET_LONG_THRESHOLD_TOKENS, Analysis);
  ("claude-mythos-5", CLAUDE_CONTEXT_BUCKET_LONG_THRESHOLD_TOKENS, Analysis);
  ("claude-mythos-5-1", CLAUDE_CONTEXT_BUCKET_LONG_THRESHOLD_TOKENS, Analysis);
  ("claude-opus-4-6", CLAUDE_CONTEXT_BUCKET_LONG_THRESHOLD_TOKENS, Analysis);
  ("claude-opus-4-7", CLAUDE_CONTEXT_BUCKET_LONG_THRESHOLD_TOKENS, Analysis);
  ("claude-opus-4-8", CLAUDE_CONTEXT_BUCKET_LONG_THRESHOLD_TOKENS, Analysis);
  ("claude-opus-5", CLAUDE_CONTEXT_BUCKET_LONG_THRESHOLD_TOKENS, Analysis);
  ("claude-opus-5-5", CLAUDE_CONTEXT_BUCKET_LONG_THRESHOLD_TOKENS, Analysis);
  ("claude-sonnet-4-6", CLAUDE_CONTEXT_BUCKET_LONG_THRESHOLD_TOKENS, Analysis);
  ("claude-sonnet-5", CLAUDE_CONTEXT_BUCKET_LONG_THRESHOLD_TOKENS, Analysis);
  ("claude-sonnet-5-5", CLAUDE_CONTEXT_BUCKET_LONG_THRESHOLD_TOKENS, Analysis)]%string.

Definition find_line (key : string) (lines : list (string * Z * ProviderPriceLineKind))
    : option (Z * ProviderPriceLineKind) :=
  foldr (fun '(listed, tokens, kind) found => if decide (listed = key) then Some (tokens, kind) else found)
    None lines.
Definition provider_price_line (model : string) : option (Z * ProviderPriceLineKind) :=
  find_line (provider_price_line_model_key model) PROVIDER_PRICE_LINES.

Definition PROVIDER_PRICE_LINE_EFFECTIVE_FROM_UNIX_SECONDS : Z := 1788220800.
Definition CODEX_FORWARD_EVIDENCE_FROM_UNIX_SECONDS : Z := 1794182400.

(** ** One request's bucket *)
Inductive Bucket := Long | Short.

Section ContextBucket.
(** [OffsetDateTime::parse(value, &Rfc3339)] as Unix seconds. *)
Context (rfc3339_unix_seconds : string -> option Z).

Definition dated_on_or_after (timestamp : option string) (from_unix_seconds : Z) : bool :=
  match timestamp ≫= rfc3339_unix_seconds with
  | Some seconds => from_unix_seconds <=? seconds
  | None => false
  end.
Definition in_codex_forward_evidence_epoch (timestamp : option string) : bool :=
  dated_on_or_after timestamp CODEX_FORWARD_EVIDENCE_FROM_UNIX_SECONDS.

(** The bucket of a request on a line of [kind] at [line] tokens. *)
Definition line_bucket (line : Z) (kind : ProviderPriceLineKind) (prompt_tokens : Z)
    (observed_at : option string) : option Bucket :=
  let bucket := Some (if line <? prompt_tokens then Long else Short) in
  match kind with
  | Tiered =>
      if prompt_tokens =? 0 then None
      else
        try? seconds := observed_at ≫= rfc3339_unix_seconds in
        if seconds <? PROVIDER_PRICE_LINE_EFFECTIVE_FROM_UNIX_SECONDS then None else bucket
  | TieredForward =>
      if (prompt_tokens =? 0) || negb (in_codex_forward_evidence_epoch observed_at) then None else bucket
  | Analysis => bucket
  end.
Definition provider_context_bucket (model : string) (prompt_tokens : Z) (observed_at : option string)
    : option Bucket :=
  try? (line, kind) := provider_price_line model in line_bucket line kind prompt_tokens observed_at.
End ContextBucket.

(** ** Exact dollar text *)
Definition USD_PICO_SCALE : Z := 1000000000000.

Definition digit_char (d : Z) : Z := 48 + d.
(** [u128::to_string]: at most 39 digits. *)
Fixpoint digits_rev (fuel : nat) (n : Z) : list Z :=
  match fuel with
  | O => []
  | S fuel => digit_char (n mod 10) :: (if n / 10 =? 0 then [] else digits_rev fuel (n / 10))
  end.
Definition u128_to_string (n : Z) : list Z := reverse (digits_rev 39 n).
(** [{fraction:012}]. *)
Definition pad12 (text : list Z) : list Z := replicate (12 - length text) 48 ++ text.
(** [while text.ends_with('0') { text.pop(); }], on the reversed text. *)
Fixpoint pop_zeros (text_rev : list Z) : list Z :=
  match text_rev with b :: rest => if b =? 48 then pop_zeros rest else text_rev | [] => [] end.

Definition usd_picos_string (value : Z) : list Z :=
  let whole := value / USD_PICO_SCALE in
  let fraction := value mod USD_PICO_SCALE in
  if fraction =? 0 then u128_to_string whole
  else u128_to_string whole ++ [46] ++ reverse (pop_zeros (reverse (pad12 (u128_to_string fraction)))).

(** ** Buckets *)
(** When a request on a line of this kind may be stamped. *)
Definition line_applies (parse : string -> option Z) (kind : ProviderPriceLineKind) (prompt_tokens : Z)
    (observed_at : option string) : Prop :=
  let dated_from s := exists seconds, observed_at ≫= parse = Some seconds /\ s <= seconds in
  match kind with
  | Analysis => True
  | Tiered => prompt_tokens <> 0 /\ dated_from PROVIDER_PRICE_LINE_EFFECTIVE_FROM_UNIX_SECONDS
  | TieredForward => prompt_tokens <> 0 /\ dated_from CODEX_FORWARD_EVIDENCE_FROM_UNIX_SECONDS
  end.

Lemma line_bucket_spec parse line kind n at_ b :
  line_bucket parse line kind n at_ = Some b <->
  line_applies parse kind n at_ /\ b = (if line <? n then Long else Short).
Proof.
  unfold line_bucket, line_applies, in_codex_forward_evidence_epoch, dated_on_or_after.
  destruct kind.
  - destruct (n =? 0) eqn:En; zbool; [naive_solver|].
    destruct (at_ ≫= parse) as [s|]; [|naive_solver].
    destruct (s <? _) eqn:Es; zbool; [|naive_solver].
    split; [done|]. intros [[_ (s' & [= <-] & Hs)] _]. lia.
  - destruct (n =? 0) eqn:En; zbool; [naive_solver|]. cbn.
    destruct (at_ ≫= parse) as [s|]; [|naive_solver].
    destruct (_ <=? s) eqn:Es; zbool; cbn; [naive_solver|].
    split; [done|]. intros [[_ (s' & [= <-] & Hs)] _]. lia.
  - naive_solver.
Qed.

(** A request is stamped exactly when its model has a catalog line and,
    for a tiered line, its prompt is known and non-zero and its own timestamp
    parses to a time on or after that line's effective date; the stamp is
    [Long] exactly when the prompt is strictly over the line.  With no
    timestamp parser assumption: an unparsable time is never stamped. *)
Theorem context_bucket_exact parse model prompt_tokens observed_at b :
  provider_context_bucket parse model prompt_tokens observed_at = Some b <->
  exists line kind, provider_price_line model = Some (line, kind) /\
    line_applies parse kind prompt_tokens observed_at /\
    (b = Long <-> line < prompt_tokens) /\ (b = Short <-> prompt_tokens <= line).
Proof.
  unfold provider_context_bucket. destruct (provider_price_line model) as [[line kind]|]; [|naive_solver].
  rewrite line_bucket_spec. split.
  - intros [Ha ->]. exists line, kind. split_and!; [done..| |];
      destruct (line <? prompt_tokens) eqn:E; zbool; split; try done; intros; lia.
  - intros (line' & kind' & [= <- <-] & Ha & Hl & Hs). split; [done|].
    destruct (line <? prompt_tokens) eqn:E; zbool; [by apply Hl|by apply Hs].
Qed.

(** How a provider or a release may decorate a model id. *)
Definition decorations : list (string -> string) :=
  [ id; String.append "anthropic."; String.append "us.anthropic."; String.append "anthropic/";
    String.append "openai/"; fun m => m ++ "-latest"; fun m => m ++ "-20260219"; fun m => m ++ "@20260219";
    fun m => m ++ "-2026-02-19"; fun m => " " ++ m ++ " "; fun m => "us.anthropic." ++ m ++ "-20260219-v1:0";
    fun m => "bedrock/anthropic." ++ m ++ "-v2:10" ]%string.

(** Every listed model is found under its own key and under each routed,
    dated, versioned or [-latest] form of it, with its own threshold and kind:
    no row of the table is shadowed by another and no decoration reaches a
    neighbouring model. *)
Theorem price_lines_reachable :
  Forall (fun '(key, tokens, kind) =>
    Forall (fun decorate => provider_price_line (decorate key) = Some (tokens, kind)) decorations)
    PROVIDER_PRICE_LINES.
Proof. repeat constructor. Qed.

(** ** Dollar text *)
#[local] Arguments Z.eqb : simpl never.
Fixpoint digits_value_rev (text_rev : list Z) : Z :=
  match text_rev with [] => 0 | c :: rest => (c - 48) + 10 * digits_value_rev rest end.
Definition digits_value (text : list Z) : Z := digits_value_rev (reverse text).
(** The pico-dollars a decimal text stands for. *)
Definition usd_text_picos (text : list Z) : Z :=
  match split_at_first [46] text with
  | None => digits_value text * USD_PICO_SCALE
  | Some (whole, fraction) =>
      digits_value whole * USD_PICO_SCALE
      + digits_value (fraction ++ replicate (12 - length fraction) 48)
  end.

Lemma digits_rev_value fuel n :
  0 <= n < 10 ^ Z.of_nat fuel -> digits_value_rev (digits_rev fuel n) = n.
Proof.
  revert n. induction fuel as [|fuel IH]; intros n Hn; cbn [digits_rev digits_value_rev].
  { change (10 ^ Z.of_nat 0) with 1 in Hn. lia. }
  rewrite Nat2Z.inj_succ, Z.pow_succ_r in Hn by lia. unfold digit_char.
  destruct (n / 10 =? 0) eqn:E; zbool.
  - cbn. pose proof (Z.div_mod n 10). lia.
  - rewrite IH by (split; [apply Z.div_pos; lia|apply Z.div_lt_upper_bound; lia]). pose proof (Z.div_mod n 10). lia.
Qed.
Lemma u128_to_string_value n : u128 n -> digits_value (u128_to_string n) = n.
Proof.
  intros Hn. unfold digits_value, u128_to_string. rewrite reverse_involutive.
  apply digits_rev_value. unfold uint in Hn. assert (2 ^ 128 < 10 ^ Z.of_nat 39) by done. lia.
Qed.
Lemma digits_rev_digits fuel n : 0 <= n -> Forall (fun c => 48 <= c <= 57) (digits_rev fuel n).
Proof.
  revert n. induction fuel as [|fuel IH]; intros n Hn; constructor.
  - unfold digit_char. pose proof (Z.mod_pos_bound n 10). lia.
  - destruct (n / 10 =? 0); [done|]. apply IH, Z.div_pos; lia.
Qed.
Lemma digits_rev_length fuel n m :
  0 <= n < 10 ^ Z.of_nat m -> (0 < m)%nat -> (length (digits_rev fuel n) <= m)%nat.
Proof.
  revert n m. induction fuel as [|fuel IH]; intros n m Hn Hm; cbn; [lia|].
  destruct (n / 10 =? 0) eqn:E; cbn; [lia|]. zbool. destruct m as [|[|m]]; [lia| |].
  - change (10 ^ Z.of_nat 1) with 10 in Hn. rewrite Z.div_small in E; lia.
  - rewrite (Nat2Z.inj_succ (S m)), Z.pow_succ_r in Hn by lia.
    apply le_n_S, IH; [|lia]. split; [apply Z.div_pos; lia|apply Z.div_lt_upper_bound; lia].
Qed.

Lemma digits_value_zeros k text : digits_value_rev (text ++ replicate k 48) = digits_value_rev text.
Proof.
  induction text as [|c text IH]; cbn; [|lia]. induction k; cbn; lia.
Qed.
Lemma pop_zeros_spec l : exists k, l = replicate k 48 ++ pop_zeros l.
Proof.
  induction l as [|b l [k IH]]; [by exists 0%nat|]. cbn. destruct (b =? 48) eqn:E; zbool.
  - exists (S k). cbn. by rewrite E, <-IH.
  - by exists 0%nat.
Qed.
Lemma split_at_dot whole rest :
  Forall (fun c => 48 <= c <= 57) whole -> split_at_first [46] (whole ++ 46 :: rest) = Some (whole, rest).
Proof.
  induction 1 as [|c whole Hc _ IH]; cbn; [done|].
  destruct (46 =? c) eqn:E; zbool; [lia|]. cbn in IH. by rewrite IH.
Qed.
Lemma split_no_dot whole :
  Forall (fun c => 48 <= c <= 57) whole -> split_at_first [46] whole = None.
Proof.
  induction 1 as [|c whole Hc _ IH]; cbn; [done|].
  destruct (46 =? c) eqn:E; zbool; [lia|]. cbn in IH. by rewrite IH.
Qed.
Lemma u128_to_string_digits n : 0 <= n -> Forall (fun c => 48 <= c <= 57) (u128_to_string n).
Proof. intros. unfold u128_to_string. by apply Forall_reverse, digits_rev_digits. Qed.

(** The dollar text of a cost is exact: for every [u128] amount of
    pico-dollars the text [usd_picos_string] prints stands for that amount. *)
Theorem usd_text_exact value :
  u128 value -> usd_text_picos (usd_picos_string value) = value.
Proof.
  intros Hv. unfold usd_picos_string, usd_text_picos. unfold uint in Hv.
  pose proof (Z.div_mod value USD_PICO_SCALE). pose proof (Z.mod_pos_bound value USD_PICO_SCALE eq_refl).
  assert (Hw : 0 <= value / USD_PICO_SCALE) by (apply Z.div_pos; [lia|done]).
  assert (Hu : u128 (value / USD_PICO_SCALE)).
  { split; [done|]. apply Z.div_lt_upper_bound; [done|]. unfold USD_PICO_SCALE. lia. }
  set (f := value mod USD_PICO_SCALE) in *. assert (Hf : 0 <= f < 10 ^ Z.of_nat 12) by (unfold USD_PICO_SCALE in *; lia).
  assert (Hfu : u128 f) by (unfold uint; lia).
  destruct (f =? 0) eqn:E; zbool.
  - rewrite split_no_dot by by apply u128_to_string_digits. rewrite u128_to_string_value by done. lia.
  - cbn [app]. rewrite split_at_dot by by apply u128_to_string_digits.
    rewrite u128_to_string_value by done.
    set (p := pad12 (u128_to_string f)). destruct (pop_zeros_spec (reverse p)) as [k Hk].
    assert (Hlen : length p = 12%nat).
    { unfold p, pad12. rewrite length_app, length_replicate. unfold u128_to_string. rewrite length_reverse.
      pose proof (digits_rev_length 39 f 12 Hf). lia. }
    assert (Hp : reverse (pop_zeros (reverse p)) ++ replicate k 48 = p).
    { rewrite <-(reverse_involutive p) at 2. rewrite Hk at 2. by rewrite reverse_app, reverse_replicate. }
    assert (12 - length (reverse (pop_zeros (reverse p))) = k)%nat as ->.
    { rewrite <-Hlen, <-Hp at 1. rewrite length_app, length_replicate. lia. }
    rewrite Hp. unfold digits_value, p, pad12. rewrite reverse_app, reverse_replicate, digits_value_zeros.
    fold (digits_value (u128_to_string f)). rewrite u128_to_string_value by done. lia.
Qed.
Lemma usd_text_exact_witness : usd_text_picos (usd_picos_string 12340000500000) = 12340000500000.
Proof. apply (usd_text_exact 12340000500000). split; vm_compute; congruence. Defined.
