(* ===== verification/AdaptiveCadence.v ===== *)
(** The adaptive cadence of the snapshot sync loop: when a source is scanned
    next, and when a paused job may continue early
    (crates/ottto-service/src/adaptive_collector.rs).

    [instant_max] is the last instant the platform represents.  A method on
    [&mut self] returns the state after it.  [None] in the outer option of a
    result is a panic (an empty backoff list). *)
From S2P Require Import Prelude Std.
Local Open Scope Z_scope.

Inductive LocalCollectorState := Hot | Warm | Idle | Cold | Failing | Disabled.
#[export] Instance LocalCollectorState_eq_dec : EqDecision LocalCollectorState.
Proof. solve_decision. Defined.

Record CadenceConfig := mkConfig {
  hot_min_interval : Duration;
  warm_interval : Duration;
  warm_window : Duration;
  idle_interval : Duration;
  cold_interval : Duration;
  failure_backoffs : list Duration;
}.
Definition default_config : CadenceConfig := {|
  hot_min_interval := secs 10; warm_interval := secs 60; warm_window := secs (15 * 60);
  idle_interval := secs (10 * 60); cold_interval := secs (30 * 60);
  failure_backoffs := [secs 60; secs (2 * 60); secs (5 * 60); secs (15 * 60); secs (60 * 60)] |}.
Definition cost_first (floor : Duration) : CadenceConfig := {|
  hot_min_interval := floor; warm_interval := floor; warm_window := warm_window default_config;
  idle_interval := Z.max (idle_interval default_config) floor;
  cold_interval := Z.max (cold_interval default_config) floor;
  failure_backoffs := failure_backoffs default_config |}.

Record ContinuationPacing := mkPacing { min_gap : Duration; idle_per_work : Z }.
Record ContinuationRequest := mkRequest { finished_at : Instant; work : Duration }.

Record SourceCadence := mkCadence {
  config : CadenceConfig;
  state : LocalCollectorState;
  last_activity_at : option Instant;
  last_scan_at : option Instant;
  consecutive_failures : nat;
  disabled : bool;
  server_min_interval : option Duration;
  continuation : option ContinuationRequest;
}.
Definition new_cadence (c : CadenceConfig) : SourceCadence :=
  mkCadence c Cold None None 0 false None None.

Definition with_state (s : LocalCollectorState) (c : SourceCadence) : SourceCadence :=
  mkCadence (config c) s (last_activity_at c) (last_scan_at c) (consecutive_failures c) (disabled c)
    (server_min_interval c) (continuation c).
Definition with_activity (now : Instant) (s : LocalCollectorState) (c : SourceCadence) : SourceCadence :=
  mkCadence (config c) s (Some now) (last_scan_at c) (consecutive_failures c) (disabled c)
    (server_min_interval c) (continuation c).

Definition set_server_min_interval (interval : option Duration) (c : SourceCadence) : SourceCadence :=
  mkCadence (config c) (state c) (last_activity_at c) (last_scan_at c) (consecutive_failures c)
    (disabled c) interval (continuation c).
Definition set_disabled (d : bool) (c : SourceCadence) : SourceCadence :=
  let c := mkCadence (config c) (state c) (last_activity_at c) (last_scan_at c)
    (consecutive_failures c) d (server_min_interval c) (continuation c) in
  if d then with_state Disabled c
  else if decide (state c = Disabled) then with_state Cold c else c.
Definition record_file_event (now : Instant) (c : SourceCadence) : SourceCadence :=
  if disabled c then c else with_activity now Hot c.
Definition record_backend_hint (now : Instant) (record_count_15m : Z)
    (last_data_is_newer reconciliation_enabled : bool) (c : SourceCadence) : SourceCadence :=
  let c := set_disabled (negb reconciliation_enabled) c in
  if disabled c then c
  else if (0 <? record_count_15m) || last_data_is_newer then with_activity now Warm c else c.
Definition record_scan_success (now : Instant) (uploaded_count : Z) (c : SourceCadence) : SourceCadence :=
  if disabled c then c
  else
    let c := mkCadence (config c) (state c) (last_activity_at c) (Some now) 0 (disabled c)
      (server_min_interval c) (continuation c) in
    if 0 <? uploaded_count then with_activity now Warm c
    else if match last_activity_at c with
            | Some activity => duration_since now activity <=? warm_window (config c)
            | None => false
            end
    then with_state Warm c else with_state Idle c.
Definition record_scan_failure (now : Instant) (c : SourceCadence) : SourceCadence :=
  if disabled c then c
  else mkCadence (config c) Failing (last_activity_at c) (Some now) (S (consecutive_failures c))
    (disabled c) (server_min_interval c) (continuation c).

(** [failure_backoffs[0]] and [.last().expect(..)] panic on an empty list. *)
Definition failure_backoff (c : SourceCadence) : option Duration :=
  let backoffs := failure_backoffs (config c) in
  match consecutive_failures c with
  | O => backoffs !! 0%nat
  | S n => match backoffs !! n with Some d => Some d | None => last backoffs end
  end.
Definition tier_interval (c : SourceCadence) : option Duration :=
  match state c with
  | Hot => Some (hot_min_interval (config c))
  | Warm => Some (warm_interval (config c))
  | Idle => Some (idle_interval (config c))
  | Cold => Some (cold_interval (config c))
  | Failing => failure_backoff c
  | Disabled => Some (cold_interval (config c))
  end.
Definition ordinary_interval (c : SourceCadence) : option Duration :=
  if disabled c then Some (cold_interval (config c))
  else
    try? tier := tier_interval c in
    Some match server_min_interval c with Some requested => Z.max tier requested | None => tier end.

Definition request_continuation (finished : Instant) (w : Duration) (c : SourceCadence)
    : SourceCadence * bool :=
  let k := if disabled c then None else Some (mkRequest finished w) in
  (mkCadence (config c) (state c) (last_activity_at c) (last_scan_at c) (consecutive_failures c)
     (disabled c) (server_min_interval c) k,
   match k with Some _ => true | None => false end).
Definition clear_continuation (c : SourceCadence) : SourceCadence :=
  mkCadence (config c) (state c) (last_activity_at c) (last_scan_at c) (consecutive_failures c)
    (disabled c) (server_min_interval c) None.
Definition continuation_work (c : SourceCadence) : option Duration := work <$> continuation c.

Definition remaining_after (interval : Duration) (elapsed : option Duration) : Duration :=
  match elapsed with
  | Some elapsed => if interval <=? elapsed then 0 else interval - elapsed
  | None => 0
  end.
Definition next_scan_after (now : Instant) (c : SourceCadence) : option Duration :=
  if disabled c then Some (cold_interval (config c))
  else
    try? interval := ordinary_interval c in
    Some (remaining_after interval (duration_since now <$> last_scan_at c)).

Section ContinuationDue.
(** The last representable [Instant]. *)
Context (instant_max : Instant).
Definition instant_add (i : Instant) (d : Duration) : option Instant :=
  if i + d <=? instant_max then Some (i + d) else None.

(** The interval a continuation waits; the inner [None] refuses it. *)
Definition continuation_interval (pacing : ContinuationPacing) (request : ContinuationRequest)
    (c : SourceCadence) : option (option Duration) :=
  match duration_mul (work request) (idle_per_work pacing) with
  | None => Some None
  | Some gap =>
      let interval := Z.max gap (min_gap pacing) in
      let interval :=
        match server_min_interval c with Some requested => Z.max interval requested | None => interval end in
      if decide (state c = Failing)
      then try? backoff := failure_backoff c in Some (Some (Z.max interval backoff))
      else Some (Some interval)
  end.
Definition continuation_due (pacing : ContinuationPacing) (c : SourceCadence) : option (option Instant) :=
  if disabled c then Some None
  else
    match continuation c, last_scan_at c with
    | Some request, Some last_scan =>
        match continuation_interval pacing request c with
        | None => None
        | Some None => Some None
        | Some (Some interval) =>
            match instant_add (Z.max (finished_at request) last_scan) interval with
            | None => Some None
            | Some due =>
                try? ordinary := ordinary_interval c in
                Some (try? ordinary_due := instant_add last_scan ordinary in
                      if due <? ordinary_due then Some due else None)
            end
        end
    | _, _ => Some None
    end.
End ContinuationDue.

(** ** The cadence as a state machine *)
Inductive cadence_step : SourceCadence -> SourceCadence -> Prop :=
| StepServer i c : cadence_step c (set_server_min_interval i c)
| StepDisabled d c : cadence_step c (set_disabled d c)
| StepFile now c : cadence_step c (record_file_event now c)
| StepHint now n newer enabled c : cadence_step c (record_backend_hint now n newer enabled c)
| StepSuccess now n c : cadence_step c (record_scan_success now n c)
| StepFailure now c : cadence_step c (record_scan_failure now c)
| StepRequest at_ w c : cadence_step c (request_continuation at_ w c).1
| StepClear c : cadence_step c (clear_continuation c).

Inductive reachable (k : CadenceConfig) : SourceCadence -> Prop :=
| ReachNew : reachable k (new_cadence k)
| ReachStep c c' : reachable k c -> cadence_step c c' -> reachable k c'.

Record cadence_inv (k : CadenceConfig) (c : SourceCadence) : Prop := {
  inv_config : config c = k;
  inv_disabled : disabled c = true <-> state c = Disabled;
  inv_failing : state c = Failing -> (0 < consecutive_failures c)%nat;
  inv_scanned : (0 < consecutive_failures c)%nat \/ state c = Idle -> is_Some (last_scan_at c);
}.

Ltac cadence_cases :=
  repeat match goal with
    | |- context [if decide ?P then _ else _] => destruct (decide P); simpl in *
    | |- context [if ?b then _ else _] => destruct b eqn:?; simpl in *
    | |- context [match ?o with Some _ => _ | None => _ end] => destruct o eqn:?; simpl in *
    end.

Lemma cadence_step_inv k c c' : cadence_inv k c -> cadence_step c c' -> cadence_inv k c'.
Proof.
  intros [Hc Hd Hf Hs] Hst. destruct Hst; destruct c as [cfg st act scan fails dis srv cont]; cbn in *;
    subst; unfold record_file_event, record_backend_hint, record_scan_success, record_scan_failure,
      set_disabled, with_activity, with_state; cbn; cadence_cases;
    (split; cbn; [done|split; naive_solver|intros; try lia; naive_solver (eauto; lia)|
       intros Hx; try (by eauto); apply Hs; naive_solver (eauto; lia)]).
Qed.
Lemma reachable_cadence_inv k c : reachable k c -> cadence_inv k c.
Proof.
  induction 1 as [|c c' _ IH Hs]; [|by eapply cadence_step_inv].
  split; cbn; [done|done|done|]. intros [?|?]; [lia|done].
Qed.

Lemma failure_backoff_total c :
  failure_backoffs (config c) <> [] ->
  exists d, failure_backoff c = Some d /\ d ∈ failure_backoffs (config c).
Proof.
  intros Hne. unfold failure_backoff. destruct (failure_backoffs (config c)) as [|b bs] eqn:E; [done|].
  assert (Hlast : exists d, last (b :: bs) = Some d /\ d ∈ b :: bs).
  { destruct (last (b :: bs)) as [d|] eqn:El; [|by apply last_None in El].
    exists d. split; [done|]. by apply last_Some_elem_of. }
  destruct (consecutive_failures c) as [|n]; [exists b; split; [done|set_solver]|].
  destruct ((b :: bs) !! n) as [d|] eqn:El; [|done].
  exists d. split; [done|]. by eapply list_elem_of_lookup_2.
Qed.
Lemma ordinary_interval_total c :
  failure_backoffs (config c) <> [] -> is_Some (ordinary_interval c).
Proof.
  intros Hne. unfold ordinary_interval. destruct (disabled c); [by eexists|].
  unfold tier_interval. destruct (failure_backoff_total c Hne) as (d & Hd & _).
  destruct (state c); rewrite ?Hd; by eexists.
Qed.

(** In the cost-first configuration every tier but [Failing] is at least the
    floor, and the interval is never below the tier or a directive. *)
Lemma cost_first_interval floor c d :
  config c = cost_first floor -> disabled c = false -> ordinary_interval c = Some d ->
  (state c <> Failing -> floor <= d) /\ (forall t, tier_interval c = Some t -> t <= d) /\
  (forall r, server_min_interval c = Some r -> r <= d).
Proof.
  intros Hk Hd Ho. unfold ordinary_interval in Ho. rewrite Hd in Ho.
  destruct (tier_interval c) as [t|] eqn:Et; [|done]. simplify_eq/=.
  assert (state c <> Failing -> floor <= t).
  { intros Hs. unfold tier_interval in Et. rewrite Hk in Et. cbn in Et. destruct (state c); simplify_eq; lia. }
  destruct (server_min_interval c); split_and!; intros; simplify_eq; try lia; etrans; try apply H; auto; lia.
Qed.

(** C39: Invariant of every cadence reached from a fresh one by any sequence of
    file events, backend hints, scan outcomes, directives and continuation
    requests: the configuration never changes, [disabled] agrees with the
    [Disabled] state, a failing source has failed at least once and has a scan
    time, and no question the sync loop asks of it panics. *)
Theorem cadence_reachable_sound k c instant_max pacing now :
  failure_backoffs k <> [] -> reachable k c ->
  cadence_inv k c /\
  is_Some (ordinary_interval c) /\ is_Some (next_scan_after now c) /\
  is_Some (continuation_due instant_max pacing c).
Proof.
  intros Hne Hr. pose proof (reachable_cadence_inv k c Hr) as Hinv. split; [done|].
  assert (Hne' : failure_backoffs (config c) <> []) by by rewrite (inv_config _ _ Hinv).
  destruct (ordinary_interval_total c Hne') as [d Hd]. split_and!; [by eexists|..].
  - unfold next_scan_after. rewrite Hd. destruct (disabled c); by eexists.
  - unfold continuation_due. destruct (disabled c); [by eexists|].
    destruct (continuation c) as [rq|]; [|by eexists]. destruct (last_scan_at c) as [ls|]; [|by eexists].
    unfold continuation_interval. destruct (duration_mul _ _) as [gap|]; [|by eexists].
    destruct (failure_backoff_total c Hne') as (b & Hb & _). rewrite Hb, Hd.
    case_decide; destruct (instant_add _ _ _); by eexists.
Qed.
Lemma cadence_reachable_sound_witness :
  is_Some (next_scan_after 7 (record_scan_failure 5 (record_file_event 3 (new_cadence default_config)))).
Proof.
  refine (proj1 (proj2 (proj2 (cadence_reachable_sound default_config _ 0 (mkPacing 0 0) 7 _ _)))).
  - discriminate.
  - eapply ReachStep; [eapply ReachStep; [apply ReachNew|]|]; constructor.
Defined.

(** With the cost-first tiers the sync loop uses, a scan is due exactly when
    the ordinary interval has passed since the last one: never before the floor
    unless the source is failing, in which case never before its backoff, and
    never before the server's directive; and it does become due once they have
    passed, however often the same directive is read again. *)
Theorem scan_due_exactly floor c last_scan now d :
  config c = cost_first floor -> disabled c = false -> last_scan_at c = Some last_scan ->
  ordinary_interval c = Some d -> last_scan <= now ->
  (next_scan_after now c = Some 0 <-> last_scan + d <= now) /\
  (next_scan_after now c = Some 0 ->
     (state c <> Failing -> last_scan + floor <= now) /\
     (state c = Failing -> exists b, failure_backoff c = Some b /\ last_scan + b <= now) /\
     forall r, server_min_interval c = Some r -> last_scan + r <= now) /\
  (forall r c', c' = set_server_min_interval (Some r) c ->
     forall d', ordinary_interval c' = Some d' ->
     ordinary_interval (set_server_min_interval (Some r) c') = Some d' /\
     (last_scan + d' <= now -> next_scan_after now (set_server_min_interval (Some r) c') = Some 0)).
Proof.
  intros Hk Hdis Hls Hd Hnow.
  assert (Hdue : forall c1 d1, disabled c1 = false -> last_scan_at c1 = Some last_scan ->
    ordinary_interval c1 = Some d1 -> next_scan_after now c1 = Some 0 <-> last_scan + d1 <= now).
  { intros c1 d1 H1 H2 H3. unfold next_scan_after. rewrite H1, H3, H2. cbn. unfold duration_since.
    destruct (d1 <=? _) eqn:E; zbool; split; try done; intros.
    - lia.
    - simplify_eq. lia.
    - lia. }
  split; [by apply Hdue|]. split.
  - intros Hz%(Hdue c d Hdis Hls Hd).
    destruct (cost_first_interval floor c d Hk Hdis Hd) as (Hf & Ht & Hr). split_and!.
    + intros Hs. specialize (Hf Hs). lia.
    + intros Hs. destruct (tier_interval c) as [t|] eqn:Et.
      * specialize (Ht t eq_refl). unfold tier_interval in Et. rewrite Hs in Et. exists t. split; [done|lia].
      * unfold ordinary_interval in Hd. by rewrite Hdis, Et in Hd.
    + intros r Hsr. specialize (Hr r Hsr). lia.
  - intros r c' -> d' Hd'. split; [done|]. intros Hle. by apply (Hdue _ d').
Qed.
Lemma scan_due_exactly_witness :
  let c := record_scan_success 0 0 (set_server_min_interval (Some (secs 2700)) (new_cadence (cost_first (secs 300)))) in
  next_scan_after (secs 2700) c = Some 0 <-> 0 + secs 2700 <= secs 2700.
Proof.
  intros c. refine (proj1 (scan_due_exactly (secs 300) c 0 (secs 2700) (secs 2700) _ _ _ _ _)).
  - reflexivity.
  - reflexivity.
  - reflexivity.
  - reflexivity.
  - vm_compute. congruence.
Defined.

(** A continuation never runs unless it is strictly earlier than the
    ordinary scan; it waits after its page at least the minimum gap and
    [idle_per_work] times the page's work (so continuation pages keep one thread
    busy at most [1 / (1 + idle_per_work)] of the time), it never beats a server
    directive or a failure backoff, and asking for one leaves the ordinary
    cadence where it was. *)
Theorem continuation_due_bounds instant_max pacing c due now :
  0 <= idle_per_work pacing ->
  continuation_due instant_max pacing c = Some (Some due) ->
  exists request last_scan ordinary,
    disabled c = false /\ continuation c = Some request /\ last_scan_at c = Some last_scan /\
    ordinary_interval c = Some ordinary /\ due < last_scan + ordinary /\ due <= instant_max /\
    finished_at request + min_gap pacing <= due /\
    work request * (1 + idle_per_work pacing) <= due - (finished_at request - work request) /\
    (forall r, server_min_interval c = Some r ->
       last_scan + r <= due /\ finished_at request + r <= due) /\
    (state c = Failing -> exists b, failure_backoff c = Some b /\ last_scan + b <= due) /\
    forall at_ w, next_scan_after now (request_continuation at_ w c).1 = next_scan_after now c.
Proof.
  intros Hidle Hdue. unfold continuation_due in Hdue. destruct (disabled c) eqn:Hdis; [done|].
  destruct (continuation c) as [rq|] eqn:Hrq; [|done]. destruct (last_scan_at c) as [ls|] eqn:Hls; [|done].
  unfold continuation_interval, duration_mul in Hdue.
  destruct (_ <=? DURATION_MAX) eqn:Hmax; [|done].
  set (gap := work rq * idle_per_work pacing) in *.
  set (base := match server_min_interval c with Some r => _ | None => _ end) in *.
  assert (Hbase : gap <= base /\ min_gap pacing <= base /\
    forall r, server_min_interval c = Some r -> r <= base).
  { unfold base. destruct (server_min_interval c); split_and!; intros; simplify_eq; lia. }
  assert (Hfin : exists interval, base <= interval /\
    (state c = Failing -> exists b, failure_backoff c = Some b /\ b <= interval) /\
    match instant_add instant_max (Z.max (finished_at rq) ls) interval with
    | None => Some None
    | Some due => try? ordinary := ordinary_interval c in
        Some (try? od := instant_add instant_max ls ordinary in if due <? od then Some due else None)
    end = Some (Some due)).
  { case_decide as Hf.
    - destruct (failure_backoff c) as [b|] eqn:Hb; [|done]. exists (Z.max base b).
      split_and!; [lia|intros _; exists b; split; [done|lia]|done].
    - exists base. split_and!; [lia|done|done]. }
  destruct Hfin as (interval & Hi & Hfail & Hd). unfold instant_add in Hd.
  destruct (_ <=? instant_max) eqn:Hadd; [|done]. destruct (ordinary_interval c) as [o|] eqn:Ho; [|done].
  destruct (ls + o <=? instant_max) eqn:Hod; [|done]. destruct (_ <? ls + o) eqn:Hlt; [|done].
  simplify_eq. zbool. destruct Hbase as (Hb1 & Hb2 & Hb3).
  exists rq, ls, o. split_and!; try done; try lia.
  - intros r Hr. specialize (Hb3 r Hr). lia.
  - intros Hst. destruct (Hfail Hst) as (b & Hb & Hle). exists b. split; [done|lia].
Qed.
Definition paused_cadence : SourceCadence :=
  (request_continuation (secs 5) (secs 3)
     (record_scan_success 0 1 (new_cadence (cost_first (secs 300))))).1.
Lemma continuation_due_bounds_witness :
  exists request, continuation paused_cadence = Some request /\
    work request * (1 + 19) <= secs 62 - (finished_at request - work request).
Proof.
  destruct (continuation_due_bounds (2 ^ 63) (mkPacing (secs 30) 19) paused_cadence (secs 62) 0)
    as (rq & ls & o & _ & Hrq & _ & _ & _ & _ & _ & Hduty & _).
  - discriminate.
  - vm_compute. reflexivity.
  - exists rq. split; [exact Hrq|exact Hduty].
Defined.

(** Non-decreasing backoffs. *)
Definition ascending_backoffs (bs : list Duration) : Prop :=
  forall i j a b, (i <= j)%nat -> bs !! i = Some a -> bs !! j = Some b -> a <= b.

(** Consecutive failures never shorten the backoff: with a non-decreasing
    backoff list a further failure leaves the wait at least as long, the first
    failure waits the first entry, and from the last entry on it stays there. *)
Theorem failure_backoff_monotone c now d d' :
  ascending_backoffs (failure_backoffs (config c)) -> disabled c = false ->
  failure_backoff c = Some d -> failure_backoff (record_scan_failure now c) = Some d' ->
  d <= d' /\
  (consecutive_failures c = O -> d' = d) /\
  ((length (failure_backoffs (config c)) <= consecutive_failures c)%nat ->
     last (failure_backoffs (config c)) = Some d').
Proof.
  intros Hasc Hdis. unfold record_scan_failure, failure_backoff. rewrite Hdis. cbn.
  set (bs := failure_backoffs (config c)) in *.
  assert (Hlast : forall d i a, last bs = Some d -> bs !! i = Some a -> a <= d).
  { intros e i a Hl Hi. rewrite last_lookup in Hl. pose proof (lookup_lt_Some _ _ _ Hi).
    eapply (Hasc i _ a e); [|done|exact Hl]. lia. }
  destruct (consecutive_failures c) as [|n].
  - intros H0. rewrite H0. intros [= <-]. split_and!; [lia|done|].
    intros Hle. destruct bs; [done|]. simpl in Hle. lia.
  - destruct (bs !! S n) as [b|] eqn:Eb.
    + destruct (lookup_lt_is_Some_2 bs n) as [a Ea]; [apply lookup_lt_Some in Eb; lia|].
      rewrite Ea. intros [= <-] [= <-]. split_and!; [eapply (Hasc n (S n)); eauto|done|].
      apply lookup_lt_Some in Eb. lia.
    + intros Hd Hl. split_and!; [|done|done]. destruct (bs !! n) as [a|] eqn:Ea; simplify_eq; [|lia].
      by eapply Hlast.
Qed.
Lemma failure_backoff_monotone_witness : secs 60 <= secs 60.
Proof.
  refine (proj1 (failure_backoff_monotone (new_cadence default_config) 3 (secs 60) (secs 60) _ _ _ _));
    [|reflexivity..].
  intros [|[|[|[|[|i]]]]] [|[|[|[|[|j]]]]] a b Hij Ha Hb; cbn in Ha, Hb; try discriminate; try lia;
    injection Ha as <-; injection Hb as <-; vm_compute; congruence.
Defined.

(** The floor of [cost_first] is a floor of every tier but one: a failing source
    retries after its backoff, which is the default list's, not the floor. *)
Lemma failing_source_beats_floor :
  let floor := secs 300 in
  let c := record_scan_failure 0 (new_cadence (cost_first floor)) in
  next_scan_after 0 c = Some (secs 60) /\ secs 60 < floor.
Proof. by split. Qed.
