(* ===== verification/SourceRotation.v ===== *)
(** Cooperative collection turns over the due sources of one snapshot cycle
    (crates/ottto-service/src/source_rotation.rs).

    The trait [Owner] is a record of operations on the owner's state [W]; a
    method on [&mut self] returns the state after it, and the clock is part of
    that state.  The model of [run] also returns the calls it made, in order. *)
From S2P Require Import Prelude.
Local Open Scope Z_scope.

Definition OVERLAP_BUDGET : Z := 32 * 1024 * 1024.
Definition PARKED_BUDGET : Z := OVERLAP_BUDGET / 4.
Definition TURN_STEPS : nat := 64.
(** [Duration::from_millis(16)], in nanoseconds. *)
Definition TURN_TIME : Z := 16000000.

Inductive Step (F C E : Type) := Pending (f : F) | Complete (c : C) | Refused (reason : E).
Arguments Pending {F C E} _.
Arguments Complete {F C E} _.
Arguments Refused {F C E} _.

(** [Err] values are [Some]; [Ok(())] is [None]. *)
Record Owner (W Source Frame Completed Error : Type) := mkOwner {
  prepare : W -> Source -> option Z -> W * (Error + option Frame);
  validate : W -> Frame -> W * option Error;
  step : W -> Frame -> option Z -> W * Step Frame Completed Error;
  finish : W -> Completed -> option Z -> W * option Error;
  outcome : W -> Source -> option Error -> W;
  monotonic : W -> W * Z;
  retained_bound : W -> Z -> option Z;
  discard_retained : W -> W;
  retained_budget_unavailable : W -> W;
  boundary : W -> W;
}.
Arguments prepare {W Source Frame Completed Error} _ _ _ _.
Arguments validate {W Source Frame Completed Error} _ _ _.
Arguments step {W Source Frame Completed Error} _ _ _ _.
Arguments finish {W Source Frame Completed Error} _ _ _ _.
Arguments outcome {W Source Frame Completed Error} _ _ _ _.
Arguments monotonic {W Source Frame Completed Error} _ _.
Arguments retained_bound {W Source Frame Completed Error} _ _ _.
Arguments discard_retained {W Source Frame Completed Error} _ _.
Arguments retained_budget_unavailable {W Source Frame Completed Error} _ _.
Arguments boundary {W Source Frame Completed Error} _ _.

(** What the rotation asked of the owner. *)
Inductive Call (Source Error : Type) :=
| CPrepare (source : Source) (remaining : option Z)
| CValidate
| CStep (remaining : option Z)
| CFinish (remaining : option Z)
| COutcome (source : Source) (result : option Error)
| CBoundary.
Arguments CPrepare {Source Error} _ _.
Arguments CValidate {Source Error}.
Arguments CStep {Source Error} _.
Arguments CFinish {Source Error} _.
Arguments COutcome {Source Error} _ _.
Arguments CBoundary {Source Error}.

Section Rotation.
Context {W Source Frame Completed Error : Type} (o : Owner W Source Frame Completed Error).
Abbreviation call := (Call Source Error).

Definition retained_within (w : W) (available : Z) : option Z :=
  try? bytes := retained_bound o w available in if bytes <=? available then Some bytes else None.
Definition retained_remainder (w : W) (available : option Z) : W * option (Z * Z) :=
  match available with
  | None => (retained_budget_unavailable o w, None)
  | Some available =>
      match retained_within w available with
      | Some bytes => (w, Some (available - bytes, bytes))
      | None =>
          let w := discard_retained o w in
          (w, try? bytes := retained_within w available in Some (available - bytes, bytes))
      end
  end.

(** How the step loop of one turn ended. *)
Inductive Turn := TurnPending (f : Frame) | TurnComplete (c : Completed) | TurnRefused (reason : Error).

(** [for _ in 0..TURN_STEPS { .. }]. *)
Fixpoint turn_steps (n : nat) (frame : Frame) (available : option Z) (started : Z) (w : W)
    : W * list call * Turn :=
  match n with
  | O => (w, [], TurnPending frame)
  | S n =>
      match step o w frame available with
      | (w, Complete result) => (w, [CStep available], TurnComplete result)
      | (w, Refused reason) => (w, [CStep available], TurnRefused reason)
      | (w, Pending next) =>
          let '(w, now) := monotonic o w in
          if TURN_TIME <=? saturating_sub now started then (w, [CStep available], TurnPending next)
          else let '(w, calls, turn) := turn_steps n next available started w in
               (w, CStep available :: calls, turn)
      end
  end.

Context (budget : option Z).

(** ['source_turn: loop { .. }]: one turn per unit of fuel. *)
Fixpoint source_turn (fuel : nat) (source : Source) (frame : Frame) (w : W) : option (W * list call) :=
  match fuel with
  | O => None
  | S fuel =>
      match validate o w frame with
      | (w, Some error) =>
          Some (outcome o w source (Some error), [CValidate; COutcome source (Some error)])
      | (w, None) =>
          let '(w, started) := monotonic o w in
          let '(w, remainder) := retained_remainder w budget in
          let '(w, calls, turn) := turn_steps TURN_STEPS frame (fst <$> remainder) started w in
          match turn with
          | TurnRefused reason =>
              Some (outcome o w source (Some reason), CValidate :: calls ++ [COutcome source (Some reason)])
          | TurnComplete completed =>
              let '(w, remainder) := retained_remainder w budget in
              let '(w, result) := finish o w completed (fst <$> remainder) in
              let '(w, _) := retained_remainder w budget in
              Some (outcome o w source result,
                CValidate :: calls ++ [CFinish (fst <$> remainder); COutcome source result])
          | TurnPending frame =>
              try? (w, rest) := source_turn fuel source frame w in
              Some (w, CValidate :: calls ++ rest)
          end
      end
  end.

(** [loop { .. remaining.pop_front() .. }]. *)
Fixpoint rotate (fuel : nat) (remaining : list Source) (w : W) : option (W * list call) :=
  match remaining with
  | [] =>
      let w := boundary o w in
      let '(w, _) := retained_remainder w budget in Some (w, [CBoundary])
  | source :: remaining =>
      let '(w, _) := retained_remainder w budget in
      let '(w, remainder) := retained_remainder w budget in
      let prepared := CPrepare source (fst <$> remainder) in
      match prepare o w source (fst <$> remainder) with
      | (w, inr None) =>
          try? (w, rest) := rotate fuel remaining (outcome o w source None) in
          Some (w, prepared :: COutcome source None :: rest)
      | (w, inl error) =>
          try? (w, rest) := rotate fuel remaining (outcome o w source (Some error)) in
          Some (w, prepared :: COutcome source (Some error) :: rest)
      | (w, inr (Some frame)) =>
          try? (w, calls) := source_turn fuel source frame w in
          try? (w, rest) := rotate fuel remaining w in
          Some (w, prepared :: calls ++ rest)
      end
  end.
End Rotation.

(** [size_of::<O::Source>()] and the queue's capacity for a source list are the
    compiler's and the allocator's. *)
Definition rotation_allowance (source_size capacity rotation_budget : Z) : option Z :=
  try? charged := checked_mul 64 capacity source_size in checked_sub 64 rotation_budget charged.
Definition run {W Source Frame Completed Error} (o : Owner W Source Frame Completed Error)
    (source_size : Z) (queue_capacity : nat -> Z) (fuel : nat) (sources : list Source)
    (rotation_budget : Z) (w : W) : option (W * list (Call Source Error)) :=
  rotate o (rotation_allowance source_size (queue_capacity (length sources)) rotation_budget)
    fuel sources w.

(** ** What a finished rotation has done *)
(** The part of the calls that says which source was served. *)
Inductive Served (Source Error : Type) :=
| SPrepared (source : Source) | SOutcome (source : Source) (result : option Error) | SBoundary.
Arguments SPrepared {Source Error} _.
Arguments SOutcome {Source Error} _ _.
Arguments SBoundary {Source Error}.
Definition served {Source Error} (c : Call Source Error) : option (Served Source Error) :=
  match c with
  | CPrepare s _ => Some (SPrepared s)
  | COutcome s r => Some (SOutcome s r)
  | CBoundary => Some SBoundary
  | _ => None
  end.
(** The allowance passed with a call. *)
Definition allowance {Source Error} (c : Call Source Error) : option Z :=
  match c with CPrepare _ a | CStep a | CFinish a => a | _ => None end.

Section RotationLaws.
Context {W Source Frame Completed Error : Type} (o : Owner W Source Frame Completed Error).
Context (budget : option Z).
Implicit Types (w : W) (calls : list (Call Source Error)).

Lemma retained_remainder_spec w w' avail bytes :
  retained_remainder o w budget = (w', Some (avail, bytes)) ->
  exists b, budget = Some b /\ avail + bytes = b /\ 0 <= avail /\ retained_bound o w' b = Some bytes.
Proof.
  unfold retained_remainder. destruct budget as [b|]; [|done]. intros H. exists b. split; [done|].
  unfold retained_within in H. destruct (retained_bound o w b) as [n|] eqn:E.
  1: destruct (n <=? b) eqn:El; [simplify_eq; zbool; split_and!; [lia|lia|done]|].
  all: simplify_eq/=; destruct (retained_bound o (discard_retained o w) b) as [m|] eqn:E'; [|done];
    destruct (m <=? b) eqn:El'; [|done]; simplify_eq; zbool; split_and!; [lia|lia|done].
Qed.

(** Every allowance is what the budget leaves. *)
Definition within_budget calls : Prop :=
  Forall (fun c => forall a, allowance c = Some a -> exists b, budget = Some b /\ a <= b) calls.
Context (Hbound : forall w n bytes, retained_bound o w n = Some bytes -> 0 <= bytes).

Lemma remainder_allowance w w' r a :
  retained_remainder o w budget = (w', r) -> fst <$> r = Some a -> exists b, budget = Some b /\ a <= b.
Proof.
  intros Hr Ha. destruct r as [[avail bytes]|]; simplify_eq/=.
  apply retained_remainder_spec in Hr as (b & -> & Hs & _ & Hb). exists b. split; [done|].
  apply Hbound in Hb. lia.
Qed.

Lemma turn_steps_calls n frame avail started w w' calls turn :
  turn_steps o n frame avail started w = (w', calls, turn) ->
  calls = replicate (length calls) (CStep avail) /\ (length calls <= n)%nat.
Proof.
  revert frame w w' calls. induction n as [|n IH]; intros frame w w' calls; cbn; [by intros [= <- <- <-]|].
  destruct (step o w frame avail) as [w1 [next|c|r]]; [|intros [= <- <- <-]; split; [done|simpl; lia]..].
  destruct (monotonic o w1) as [w2 now]. destruct (TURN_TIME <=? _).
  { intros [= <- <- <-]. split; [done|simpl; lia]. }
  destruct (turn_steps o n next avail started w2) as [[w3 calls'] turn'] eqn:E. intros [= <- <- <-].
  apply IH in E as [E Hl]. split; [|simpl; lia]. cbn. by rewrite <-E.
Qed.

Lemma served_steps n (a : option Z) : omap served (replicate n (CStep a : Call Source Error)) = [].
Proof. induction n; [done|]. cbn. done. Qed.
Lemma within_budget_steps n a :
  (forall x, a = Some x -> exists b, budget = Some b /\ x <= b) -> within_budget (replicate n (CStep a)).
Proof. intros Ha. apply Forall_replicate. intros x. by apply Ha. Qed.

Lemma source_turn_calls fuel source frame w w' calls :
  source_turn o budget fuel source frame w = Some (w', calls) ->
  (exists result, omap served calls = [SOutcome source result]) /\ within_budget calls.
Proof.
  revert frame w calls. induction fuel as [|fuel IH]; intros frame w calls; cbn [source_turn]; [done|].
  destruct (validate o w frame) as [w1 [err|]].
  { intros [= <- <-]. split; [by eexists|]. repeat constructor; done. }
  destruct (monotonic o w1) as [w2 started]. destruct (retained_remainder o w2 budget) as [w3 r] eqn:Er.
  destruct (turn_steps o _ frame _ started w3) as [[w4 cs] turn] eqn:Et.
  apply turn_steps_calls in Et as [-> _].
  pose proof (within_budget_steps (length cs) (fst <$> r) (fun a => remainder_allowance _ _ _ a Er)) as Hsteps.
  destruct turn as [next|c|reason].
  - destruct (source_turn o budget fuel source next w4) as [[w5 rest]|] eqn:E; [|done].
    intros [= <- <-]. destruct (IH _ _ _ E) as [[res Hres] Hw]. split.
    + exists res. change (CValidate :: ?l) with ([CValidate] ++ l). cbn. by rewrite omap_app, served_steps.
    + constructor; [done|]. by apply Forall_app.
  - destruct (retained_remainder o w4 budget) as [w5 r2] eqn:Er2.
    destruct (finish o w5 c _) as [w6 res]. destruct (retained_remainder o w6 budget) as [w7 r3].
    intros [= <- <-]. split.
    + exists res. cbn. by rewrite omap_app, served_steps.
    + constructor; [done|]. apply Forall_app. split; [done|]. repeat constructor; [|done].
      intros a. by apply (remainder_allowance _ _ _ _ Er2).
  - intros [= <- <-]. split.
    + exists (Some reason). cbn. by rewrite omap_app, served_steps.
    + constructor; [done|]. apply Forall_app. split; [done|]. by repeat constructor.
Qed.

Lemma rotate_calls fuel sources w w' calls :
  rotate o budget fuel sources w = Some (w', calls) ->
  (exists results, length results = length sources /\
    omap served calls =
      concat (zip_with (fun s r => [SPrepared s; SOutcome s r]) sources results) ++ [SBoundary]) /\
  within_budget calls.
Proof.
  revert w calls. induction sources as [|s sources IH]; intros w calls; cbn [rotate].
  { destruct (retained_remainder o _ budget) as [w1 r]. intros [= <- <-].
    split; [by exists []|]. by repeat constructor. }
  destruct (retained_remainder o w budget) as [w1 r1]. destruct (retained_remainder o w1 budget) as [w2 r2] eqn:Er.
  pose proof (fun a => remainder_allowance _ _ _ a Er) as Ha.
  destruct (prepare o w2 s _) as [w3 [err|[frame|]]].
  - destruct (rotate o budget fuel sources _) as [[w4 rest]|] eqn:E; [|done]. intros [= <- <-].
    destruct (IH _ _ E) as [(res & Hl & Hs) Hw]. split; [|by repeat constructor].
    exists (Some err :: res). cbn. rewrite Hs. split; [by f_equal|done].
  - destruct (source_turn o budget fuel s frame w3) as [[w4 cs]|] eqn:Et; [|done].
    destruct (rotate o budget fuel sources w4) as [[w5 rest]|] eqn:E; [|done]. intros [= <- <-].
    destruct (IH _ _ E) as [(res & Hl & Hs) Hw]. apply source_turn_calls in Et as [[r Hr] Hcs]. split.
    + exists (r :: res). cbn. rewrite omap_app, Hr, Hs. split; [by f_equal|done].
    + constructor; [done|]. by apply Forall_app.
  - destruct (rotate o budget fuel sources _) as [[w4 rest]|] eqn:E; [|done]. intros [= <- <-].
    destruct (IH _ _ E) as [(res & Hl & Hs) Hw]. split; [|by repeat constructor].
    exists (None :: res). cbn. rewrite Hs. split; [by f_equal|done].
Qed.
End RotationLaws.

(** ** Termination *)
Section RotationTermination.
Context {W Source Frame Completed Error : Type} (o : Owner W Source Frame Completed Error).
Context (budget : option Z).
(** The work left in a frame: every pending step leaves less. *)
Context (left_ : Frame -> nat).
Definition progresses : Prop := forall w f a w' f', step o w f a = (w', Pending f') -> (left_ f' < left_ f)%nat.
Definition prepares_at_most (n : nat) : Prop := forall w s a w' f, prepare o w s a = (w', inr (Some f)) -> (left_ f <= n)%nat.

Lemma turn_steps_progress n frame avail started w w' calls next :
  progresses -> turn_steps o (S n) frame avail started w = (w', calls, TurnPending next) ->
  (left_ next < left_ frame)%nat.
Proof.
  intros Hp. revert frame w calls. induction n as [|n IH]; intros frame w calls; cbn [turn_steps].
  - destruct (step o w frame avail) as [w1 [f|c|r]] eqn:E; [|done..]. apply Hp in E.
    destruct (monotonic o w1) as [w2 now]. destruct (TURN_TIME <=? _); by intros [= <- <- <-].
  - destruct (step o w frame avail) as [w1 [f|c|r]] eqn:E; [|done..]. apply Hp in E.
    destruct (monotonic o w1) as [w2 now]. destruct (TURN_TIME <=? _); [by intros [= <- <- <-]|].
    destruct (turn_steps o (S n) f avail started w2) as [[w3 cs] t] eqn:Et. cbn [turn_steps] in *.
    rewrite Et. intros [= <- <- ->]. pose proof (IH _ _ _ Et). lia.
Qed.

Lemma source_turn_total fuel source frame w :
  progresses -> (left_ frame < fuel)%nat -> is_Some (source_turn o budget fuel source frame w).
Proof.
  intros Hp. revert frame w. induction fuel as [|fuel IH]; intros frame w Hf; [lia|]. cbn [source_turn].
  destruct (validate o w frame) as [w1 [err|]]; [by eexists|].
  destruct (monotonic o w1) as [w2 started]. destruct (retained_remainder o w2 budget) as [w3 r].
  destruct (turn_steps o _ frame _ started w3) as [[w4 cs] turn] eqn:Et. destruct turn as [next|c|reason].
  - apply turn_steps_progress in Et; [|done]. destruct (IH next w4) as [[w5 rest] ->]; [lia|]. by eexists.
  - destruct (retained_remainder o w4 budget) as [w5 r2]. destruct (finish o w5 c _) as [w6 res].
    destruct (retained_remainder o w6 budget) as [w7 r3]. by eexists.
  - by eexists.
Qed.

Lemma rotate_total n fuel sources w :
  progresses -> prepares_at_most n -> (n < fuel)%nat -> is_Some (rotate o budget fuel sources w).
Proof.
  intros Hp Hn Hf. revert w. induction sources as [|s sources IH]; intros w; cbn [rotate].
  { destruct (retained_remainder o _ budget). by eexists. }
  destruct (retained_remainder o w budget) as [w1 r1]. destruct (retained_remainder o w1 budget) as [w2 r2].
  destruct (prepare o w2 s _) as [w3 [err|[frame|]]] eqn:E.
  - destruct (IH (outcome o w3 s (Some err))) as [[w4 rest] ->]. by eexists.
  - apply Hn in E. destruct (source_turn_total fuel s frame w3 Hp) as [[w4 cs] ->]; [lia|].
    destruct (IH w4) as [[w5 rest] ->]. by eexists.
  - destruct (IH (outcome o w3 s None)) as [[w4 rest] ->]. by eexists.
Qed.
End RotationTermination.

(** A small owner: a frame is the steps it still needs, source [s] needs [s]
    steps (at most 150) and source 3 is refused at its last step; the clock ticks 1 ms. *)
Definition toy_owner : Owner (list (nat * bool) * Z) nat (nat * nat) nat string := {|
  prepare w s _ := (w, inr (if (s =? 0)%nat then None else Some (s, Nat.min s 150)));
  validate w _ := (w, None);
  step w f _ := match f with
                | (s, O) => (w, Complete s)
                | (s, S n) => if ((s =? 3) && (n =? 0))%nat then (w, Refused "busy") else (w, Pending (s, n))
                end;
  finish w _ _ := (w, None);
  outcome w s r := ((w.1 ++ [(s, match r with None => true | Some _ => false end)]), w.2);
  monotonic w := ((w.1, w.2 + 1000000), w.2);
  retained_bound _ _ := Some 100;
  discard_retained w := w;
  retained_budget_unavailable w := w;
  boundary w := w |}.

(** C38: A rotation over owners whose pending steps make progress returns, serves
    every due source exactly once and in the given order (one [prepare], then
    its one [outcome], before the next source is prepared), and calls [boundary]
    once, after the last outcome. *)
Theorem rotation_serves_each_once {W Source Frame Completed Error}
    (o : Owner W Source Frame Completed Error) left_ n source_size queue_capacity fuel sources rotation_budget w :
  progresses o left_ -> prepares_at_most o left_ n -> (n < fuel)%nat ->
  (forall w n bytes, retained_bound o w n = Some bytes -> 0 <= bytes) ->
  exists w' calls results,
    run o source_size queue_capacity fuel sources rotation_budget w = Some (w', calls) /\
    length results = length sources /\
    omap served calls =
      concat (zip_with (fun s r => [SPrepared s; SOutcome s r]) sources results) ++ [SBoundary].
Proof.
  intros Hp Hn Hf Hb. unfold run.
  destruct (rotate_total o (rotation_allowance source_size (queue_capacity (length sources)) rotation_budget)
    left_ n fuel sources w Hp Hn Hf) as [[w' calls] E].
  destruct (rotate_calls o _ Hb _ _ _ _ _ E) as [(results & Hl & Hs) _].
  exists w', calls, results. by rewrite E.
Qed.
Lemma rotation_serves_each_once_witness :
  exists w' calls results,
    run toy_owner 8 Z.of_nat 200 [2; 0; 130]%nat 4096 ([], 0) = Some (w', calls) /\
    length results = 3%nat /\
    omap served calls =
      concat (zip_with (fun s r => [SPrepared s; SOutcome s r]) [2; 0; 130]%nat results) ++ [SBoundary].
Proof.
  apply (rotation_serves_each_once toy_owner snd 150 8 Z.of_nat 200 [2; 0; 130]%nat 4096 ([], 0)).
  - intros w' [s [|n]] a w'' [s' n'] E; cbn in E; [discriminate E|].
    destruct ((s =? 3) && (n =? 0))%nat; [discriminate E|]. injection E as _ _ <-. cbn. lia.
  - intros w' s a w'' [s' n'] E. cbn in E. destruct (s =? 0)%nat; [discriminate E|].
    injection E as _ _ <-. cbn. lia.
  - lia.
  - intros w' m bytes E. cbn in E. injection E as <-. lia.
Defined.

(** No call of a rotation is given more room than the one allowance leaves:
    the rotation budget less the queue's own capacity charge; with no allowance (the queue alone exceeds the budget, or the
    charge overflows) no call is given any room at all. *)
Theorem rotation_allowance_bound {W Source Frame Completed Error}
    (o : Owner W Source Frame Completed Error) source_size queue_capacity fuel sources rotation_budget w w' calls :
  (forall w n bytes, retained_bound o w n = Some bytes -> 0 <= bytes) ->
  0 <= source_size -> 0 <= queue_capacity (length sources) ->
  run o source_size queue_capacity fuel sources rotation_budget w = Some (w', calls) ->
  Forall (fun c => forall a, allowance c = Some a ->
    a <= rotation_budget - queue_capacity (length sources) * source_size) calls /\
  (rotation_budget < queue_capacity (length sources) * source_size ->
     Forall (fun c => allowance c = None) calls).
Proof.
  intros Hb Hs Hq E. destruct (rotate_calls o _ Hb _ _ _ _ _ E) as [_ Hw]. unfold within_budget in Hw.
  assert (Hal : forall b, rotation_allowance source_size (queue_capacity (length sources)) rotation_budget = Some b ->
    b = rotation_budget - queue_capacity (length sources) * source_size /\ 0 <= b).
  { intros b H. unfold rotation_allowance in H. inv_try.
    apply try_uint_Some in Heqo0 as [-> _]. apply try_uint_Some in H as [-> Hu]. split; [done|apply Hu]. }
  split.
  - eapply Forall_impl; [exact Hw|]. intros c Hc a Ha. destruct (Hc a Ha) as (b & Hb' & Hle).
    apply Hal in Hb' as [-> _]. done.
  - intros Hlt. eapply Forall_impl; [exact Hw|]. intros c Hc. destruct (allowance c) as [a|] eqn:Ea; [|done].
    destruct (Hc a Ea) as (b & Hb' & _). apply Hal in Hb'. lia.
Qed.
Lemma rotation_allowance_bound_witness :
  exists w' calls, run toy_owner 8 Z.of_nat 200 [2; 3]%nat 4096 ([], 0) = Some (w', calls) /\
    Forall (fun c => forall a, allowance c = Some a -> a <= 4096 - 2 * 8) calls.
Proof.
  do 2 eexists. split; [vm_compute; reflexivity|].
  refine (proj1 (rotation_allowance_bound toy_owner 8 Z.of_nat 200 [2; 3]%nat 4096 ([], 0) _ _ _ _ _ _)).
  - intros w' m bytes E. cbn in E. injection E as <-. lia.
  - lia.
  - vm_compute. discriminate.
  - vm_compute. reflexivity.
Defined.
