(* ===== verification/BirthStore.v ===== *)
(** Claude physical births and move cutoffs: the sorted tables, their updates
    and their binary text
    (crates/ottto-service/src/snapshots/claude_request_money/birth_store.rs).

    SHA-256 and URL-safe base64 are third-party code: [sha256] and the two
    base64 functions are parameters of the definitions that use them.  A
    [&mut self] method returns the store after it. *)
From S2P Require Import Prelude OrdMap DurableTypes.
Local Open Scope Z_scope.

(** Sixteen digest bytes. *)
Definition LocationKey := list Z.
Definition ABSENT_RETENTION_SECONDS : Z := 30 * 24 * 60 * 60.
(** [(u32::MAX >> 1) as u64]. *)
Definition MAX_GENERATION : Z := Z.shiftr (umax 32) 1.

(** The opened object as a digest of (device, inode), and its extent. *)
Record BirthIdentity := mkIdentity { object : Z; size : Z }.
Definition identity_default : BirthIdentity := mkIdentity 0 0.
Record ClaudeOpenedBirth := mkOpened {
  opened_birth : Z; opened_device : Z; opened_inode : Z; opened_size : Z }.

(** One observation: path key, physical birth (zero when retired), generation,
    opened identity. *)
Record Observation := mkObs { o_path : LocationKey; o_birth : Z; o_generation : Z; o_identity : BirthIdentity }.
Record Session := mkSession {
  s_key : LocationKey; s_owner : LocationKey; s_cutoff : Z; s_absent : Z; s_paths : list Observation }.
Record MoneyMarks := mkMarks { marks_version : Z; marks_paths : list (LocationKey * Z) }.
Record BirthStore := mkStore { sessions : list Session; staged : list LocationKey; money : MoneyMarks }.
Definition store_default : BirthStore := mkStore [] [] (mkMarks 0 []).

Definition with_sessions (ss : list Session) (b : BirthStore) := mkStore ss (staged b) (money b).
Definition with_marks (m : list (LocationKey * Z)) (b : BirthStore) :=
  mkStore (sessions b) (staged b) (mkMarks (marks_version (money b)) m).
Definition with_paths (ps : list Observation) (s : Session) :=
  mkSession (s_key s) (s_owner s) (s_cutoff s) (s_absent s) ps.
Definition with_owner (owner : LocationKey) (cutoff absent : Z) (s : Session) :=
  mkSession (s_key s) owner cutoff absent (s_paths s).
(** [slice[i] = f(slice[i])]. *)
Definition update_at {A} (f : A -> A) (i : nat) (l : list A) : list A :=
  match l !! i with Some x => <[i := f x]> l | None => l end.

(** [.is_ok()] of a search. *)
Definition is_found (r : search) : bool := match r with Found _ => true | Missing _ => false end.

Section Keys.
(** [Sha256::digest]. *)
Context (sha256 : list Z -> list Z).

Definition location_key_of (domain : string) (value : string) : LocationKey :=
  take 16 (sha256 (as_bytes domain ++ [0] ++ as_bytes value)).
Definition location_key (path : string) : LocationKey := location_key_of "claude-money-path-v1" path.
Definition session_key (session : string) : LocationKey := location_key_of "claude-money-session-v1" session.

Definition identity_object (device inode : Z) : Z :=
  if inode =? 0 then 0
  else Z.max 1 (from_le_bytes (take 8 (sha256
    (as_bytes "claude-money-object-v1" ++ [0] ++ to_le_bytes 8 device ++ to_le_bytes 8 inode)))).
Definition identity_from_opened (o : ClaudeOpenedBirth) : BirthIdentity :=
  match try_uint 32 (opened_size o) with
  | Some size => mkIdentity (identity_object (opened_device o) (opened_inode o)) size
  | None => identity_default
  end.
Definition covers (i : BirthIdentity) (current : ClaudeOpenedBirth) : bool :=
  negb (object i =? 0)
  && match try_uint 32 (opened_size current) with Some _ => true | None => false end
  && (object i =? identity_object (opened_device current) (opened_inode current))
  && (size i <=? opened_size current).

(** ** Lookups *)
Definition find_session (sk : LocationKey) (b : BirthStore) : option Session := kget s_key sk (sessions b).
Definition get (session : string) (b : BirthStore) : option Session := find_session (session_key session) b.
Definition observation_of (pk : LocationKey) (s : Session) : option Observation := kget o_path pk (s_paths s).
Definition observed_birth (session path : string) (b : BirthStore) : option Z :=
  try? s := get session b in
  try? o := observation_of (location_key path) s in
  if o_birth o =? 0 then None else Some (o_birth o).
Definition effective_cutoff (session path : string) (b : BirthStore) : option Z :=
  try? s := get session b in
  if decide (s_owner s = location_key path) then Some (s_cutoff s) else observed_birth session path b.
Definition session_effective_cutoff (session : string) (b : BirthStore) : option Z :=
  s_cutoff <$> get session b.
Definition live_location (session : string) (b : BirthStore) : option LocationKey := s_owner <$> get session b.
Definition observations (session : string) (b : BirthStore) : list (LocationKey * Z) :=
  match get session b with
  | None => []
  | Some s => omap (fun o => if o_birth o =? 0 then None else Some (o_path o, o_birth o)) (s_paths s)
  end.
Definition moved_to (session from : string) (b : BirthStore) : option LocationKey :=
  try? s := get session b in
  if existsb (fun o => bool_decide (o_path o = location_key from) && (o_birth o =? 0)
                       && negb (o_generation o =? 0)) (s_paths s)
  then Some (s_owner s) else None.

(** ** Observations *)
(** The path table after one birth, and the birth it now holds. *)
Definition observe_paths (pk : LocationKey) (birth : Z) (ps : list Observation) : list Observation * Z :=
  match bsearch o_path pk ps with
  | Found j =>
      let ps := update_at (fun o => mkObs (o_path o)
        (if o_birth o =? 0 then birth else Z.min (o_birth o) birth) (o_generation o) (o_identity o)) j ps in
      (ps, match ps !! j with Some o => o_birth o | None => birth end)
  | Missing j => (insert_at j (mkObs pk birth 0 identity_default) ps, birth)
  end.
Definition observe_session (pk : LocationKey) (birth : Z) (s : Session) : Session :=
  let '(ps, observed) := observe_paths pk birth (s_paths s) in
  let s := with_paths ps s in
  if observed <? s_cutoff s then with_owner pk observed 0 s
  else with_owner (s_owner s) (s_cutoff s) 0 s.
Definition record_observation (session path : string) (birth : Z) (b : BirthStore) : BirthStore :=
  match try_uint 64 birth with
  | None => b
  | Some birth =>
      if birth =? 0 then b
      else
        let sk := session_key session in
        let pk := location_key path in
        match bsearch s_key sk (sessions b) with
        | Found i => with_sessions (update_at (observe_session pk birth) i (sessions b)) b
        | Missing i =>
            with_sessions
              (insert_at i (mkSession sk pk birth 0 [mkObs pk birth 0 identity_default]) (sessions b)) b
        end
  end.

(** Remembers the identity at birth; an old minimum is never rebound. *)
Definition identify (remembered : bool) (birth : Z) (opened : ClaudeOpenedBirth) (o : Observation) : Observation :=
  if negb remembered && (o_birth o =? birth)
  then mkObs (o_path o) (o_birth o) (o_generation o) (identity_from_opened opened)
  else if covers (o_identity o) opened
  then mkObs (o_path o) (o_birth o) (o_generation o)
         (mkIdentity (object (o_identity o)) (default (umax 32) (try_uint 32 (opened_size opened))))
  else o.
Definition record_opened (session path : string) (birth : Z) (opened : ClaudeOpenedBirth) (b : BirthStore)
    : BirthStore :=
  let remembered := match observed_birth session path b with Some _ => true | None => false end in
  let b := record_observation session path birth b in
  match bsearch s_key (session_key session) (sessions b) with
  | Missing _ => b
  | Found i =>
      with_sessions (update_at (fun s =>
        match bsearch o_path (location_key path) (s_paths s) with
        | Missing _ => s
        | Found j => with_paths (update_at (identify remembered birth opened) j (s_paths s)) s
        end) i (sessions b)) b
  end.

(** ** Page-local probes *)
Definition begin_page (b : BirthStore) : BirthStore := mkStore (sessions b) [] (money b).
Definition staged_location (pk : LocationKey) (b : BirthStore) : bool :=
  is_found (bsearch id pk (staged b)).
Definition stage_opened (session path : string) (opened : option ClaudeOpenedBirth) (b : BirthStore)
    : BirthStore :=
  let pk := location_key path in
  let b := match opened with
           | Some o => if opened_birth o =? 0 then b else record_opened session path (opened_birth o) o b
           | None => b
           end in
  match bsearch id pk (staged b) with
  | Found _ => b
  | Missing i => mkStore (sessions b) (insert_at i pk (staged b)) (money b)
  end.

(** ** Moves *)
Definition find_path (pk : LocationKey) (ps : list Observation) : option Observation :=
  List.find (fun o => bool_decide (o_path o = pk)) ps.
Definition can_record_discovered_move (session from to : string) (opened : ClaudeOpenedBirth) (b : BirthStore)
    : bool :=
  match get session b with
  | None => false
  | Some s =>
      let source := location_key from in
      match find_path source (s_paths s) with
      | None => false
      | Some old =>
          bool_decide (s_owner s = source)
          && negb (o_birth old =? 0)
          && (o_birth old =? opened_birth opened)
          && covers (o_identity old) opened
          && (o_generation old <? MAX_GENERATION)
          && match find_path (location_key to) (s_paths s) with
             | None => true
             | Some o => (o_birth o =? opened_birth opened) && covers (o_identity o) opened
             end
      end
  end.

(** [None] is a refused move, which changes nothing. *)
Definition move_session (from to : LocationKey) (s : Session) : option Session :=
  if decide (s_owner s = from) then
    match bsearch o_path to (s_paths s) with
    | Missing _ => None
    | Found destination =>
        try? d := s_paths s !! destination in
        if o_birth d =? 0 then None
        else if decide (from = to) then Some s
        else
          match bsearch o_path from (s_paths s) with
          | Missing _ => None
          | Found source =>
              try? o := s_paths s !! source in
              try? generation := checked_add 64 (o_generation o) 1 in
              if generation <=? MAX_GENERATION then
                Some (with_owner to (s_cutoff s) 0 (with_paths
                  (<[source := mkObs (o_path o) 0 generation identity_default]> (s_paths s)) s))
              else None
          end
    end
  else None.
Definition record_proven_move (session : string) (from : LocationKey) (to : string) (b : BirthStore)
    : BirthStore * bool :=
  match bsearch s_key (session_key session) (sessions b) with
  | Missing _ => (b, false)
  | Found i =>
      match sessions b !! i ≫= move_session from (location_key to) with
      | Some s => (with_sessions (<[i := s]> (sessions b)) b, true)
      | None => (b, false)
      end
  end.
Definition record_discovered_move (session from to : string) (opened : ClaudeOpenedBirth) (b : BirthStore)
    : BirthStore * bool :=
  if can_record_discovered_move session from to opened b
  then record_proven_move session (location_key from) to
         (record_opened session to (opened_birth opened) opened b)
  else (b, false).

(** ** Marks *)
Definition money_marks (path : LocationKey) (b : BirthStore) : Z :=
  default 0 (snd <$> kget fst path (marks_paths (money b))).
Definition set_money_rule_version (version : Z) (b : BirthStore) : BirthStore :=
  mkStore (sessions b) (staged b) (mkMarks version (marks_paths (money b))).
Definition set_money_marks (path : string) (marks : Z) (b : BirthStore) : BirthStore :=
  let ps := marks_paths (money b) in
  if (marks =? 0) && bool_decide (ps = []) then b
  else
    let key := location_key path in
    match bsearch fst key ps with
    | Found i => with_marks (if marks =? 0 then delete i ps else update_at (fun m => (m.1, marks)) i ps) b
    | Missing i => if marks =? 0 then b else with_marks (insert_at i (key, marks) ps) b
    end.
Definition retain_money_marks (live : list LocationKey) (b : BirthStore) : BirthStore :=
  with_marks (filter (fun m => is_found (bsearch id m.1 live) = true) (marks_paths (money b))) b.
Definition store_is_empty (b : BirthStore) : bool :=
  bool_decide (length (sessions b) = 0%nat) && (marks_version (money b) =? 0)
  && bool_decide (marks_paths (money b) = []).

(** ** Retention *)
(** [live] is sorted and without repeats, as [sort_unstable] and [dedup] leave it. *)
Definition sorted_keys (ks : list LocationKey) : list LocationKey :=
  foldr (fun k s => (bs_insert k s).1) [] ks.
Definition prune_session (now : Z) (live : list LocationKey) (s : Session) : Session :=
  if is_found (bsearch id (s_key s) live) then with_owner (s_owner s) (s_cutoff s) 0 s
  else if s_absent s =? 0 then with_owner (s_owner s) (s_cutoff s) (Z.max now 1) s else s.
Definition retained_session (now : Z) (s : Session) : bool :=
  (s_absent s =? 0) || (saturating_sub now (s_absent s) <? ABSENT_RETENTION_SECONDS).
Definition prune (now : Z) (indexed : list (string * string)) (b : BirthStore) : BirthStore :=
  let live := sorted_keys ((fun sp => session_key sp.1) <$> indexed) in
  with_sessions (filter (fun s => retained_session now s = true) (prune_session now live <$> sessions b)) b.
End Keys.

(** ** Merging a previous table *)
Definition preserve_mark (paths : list (LocationKey * Z)) (m : LocationKey * Z) : list (LocationKey * Z) :=
  match bsearch fst m.1 paths with Found _ => paths | Missing i => insert_at i m paths end.
(** Both observations are of the same path. *)
Definition merge_observation (old current : Observation) : Observation :=
  if o_generation current <? o_generation old
  then mkObs (o_path current) (o_birth old) (o_generation old) (o_identity old)
  else if (o_generation old =? o_generation current) && negb (o_birth old =? 0) && negb (o_birth current =? 0)
  then mkObs (o_path current) (Z.min (o_birth current) (o_birth old)) (o_generation current)
         (if object (o_identity current) =? object (o_identity old)
          then mkIdentity (object (o_identity current)) (Z.max (size (o_identity current)) (size (o_identity old)))
          else o_identity current)
  else current.
Definition preserve_observation (ps : list Observation) (old : Observation) : list Observation :=
  match bsearch o_path (o_path old) ps with
  | Found j => update_at (merge_observation old) j ps
  | Missing j => insert_at j old ps
  end.
Definition merge_session (old s : Session) : Session :=
  let s := with_paths (foldl preserve_observation (s_paths s) (s_paths old)) s in
  if s_cutoff old <? s_cutoff s then with_owner (s_owner old) (s_cutoff old) (s_absent s) s else s.
Definition preserve_session (ss : list Session) (old : Session) : list Session :=
  match bsearch s_key (s_key old) ss with
  | Missing i => insert_at i old ss
  | Found i => update_at (merge_session old) i ss
  end.
Definition preserve_missing_from (previous b : BirthStore) : BirthStore :=
  mkStore (foldl preserve_session (sessions b) (sessions previous)) (staged b)
    (mkMarks (Z.max (marks_version (money b)) (marks_version (money previous)))
       (foldl preserve_mark (marks_paths (money b)) (marks_paths (money previous)))).

(** ** Validity: optional data is discarded as a unit if malformed or unordered *)
Definition session_valid (s : Session) : bool :=
  negb (s_cutoff s =? 0)
  && negb (bool_decide (length (s_paths s) = 0%nat))
  && ascending o_path (s_paths s)
  && negb (existsb (fun o => (o_birth o =? 0) && (o_generation o =? 0)) (s_paths s))
  && existsb (fun o => bool_decide (o_path o = s_owner s) && negb (o_birth o =? 0)) (s_paths s).
Definition valid (b : BirthStore) : option BirthStore :=
  if ascending s_key (sessions b) && ascending fst (marks_paths (money b))
     && negb (existsb (fun m => m.2 =? 0) (marks_paths (money b)))
     && forallb session_valid (sessions b)
  then Some b else None.

(** ** Binary layout *)
Inductive CMB := CMB1 | CMB2 | CMB3 | CMB4 | CMB5.
#[export] Instance CMB_eq_dec : EqDecision CMB.
Proof. solve_decision. Defined.
Definition cmb_bytes (v : CMB) : list Z :=
  as_bytes match v with CMB1 => "CMB1" | CMB2 => "CMB2" | CMB3 => "CMB3" | CMB4 => "CMB4" | CMB5 => "CMB5" end.
Definition u32_le (z : Z) : list Z := to_le_bytes 4 (wrap_u 32 z).

(** [None] is a serialization error. *)
Definition put_observation (o : Observation) : option (list Z) :=
  if MAX_GENERATION <? o_generation o then None
  else
    let known := negb (object (o_identity o) =? 0) in
    Some (o_path o ++ to_le_bytes 8 (o_birth o)
      ++ u32_le (o_generation o * 2 + Z.b2z known)
      ++ (if known then to_le_bytes 8 (object (o_identity o)) ++ to_le_bytes 4 (size (o_identity o)) else [])).
Fixpoint put_all {A} (f : A -> option (list Z)) (l : list A) : option (list Z) :=
  match l with
  | [] => Some []
  | x :: l => try? b := f x in try? bs := put_all f l in Some (b ++ bs)
  end.
Definition put_session (s : Session) : option (list Z) :=
  try? ps := put_all put_observation (s_paths s) in
  Some (s_key s ++ s_owner s ++ to_le_bytes 8 (s_cutoff s) ++ to_le_bytes 8 (s_absent s)
        ++ u32_le (Z.of_nat (length (s_paths s))) ++ ps).
Definition put_mark (m : LocationKey * Z) : option (list Z) := Some (m.1 ++ [m.2]).
Definition marked (b : BirthStore) : bool :=
  negb (marks_version (money b) =? 0) || negb (bool_decide (marks_paths (money b) = [])).

(** The exact size reserved for the bytes; an overflow is an error. *)
Definition session_len (n : Z) (s : Session) : option Z :=
  try? n := checked_add 64 n 52 in
  try? p := checked_mul 64 (Z.of_nat (length (s_paths s))) 28 in
  try? n := checked_add 64 n p in
  try? i := checked_mul 64 (Z.of_nat (length (filter (fun o => negb (object (o_identity o) =? 0) = true) (s_paths s)))) 12 in
  checked_add 64 n i.
Fixpoint try_fold {A B} (f : A -> B -> option A) (acc : A) (l : list B) : option A :=
  match l with [] => Some acc | x :: l => try? acc := f acc x in try_fold f acc l end.
Definition store_byte_len (b : BirthStore) : option Z :=
  try? n := try_fold session_len 8 (sessions b) in
  try? m := checked_mul 64 (Z.of_nat (length (marks_paths (money b)))) 17 in
  checked_add 64 n (6 + m).

Definition store_bytes (b : BirthStore) : option (list Z) :=
  try? _ := store_byte_len b in
  try? ss := put_all put_session (sessions b) in
  try? ms := put_all put_mark (marks_paths (money b)) in
  Some (cmb_bytes (if marked b then CMB5 else CMB4)
    ++ u32_le (Z.of_nat (length (sessions b))) ++ ss
    ++ (if marked b
        then to_le_bytes 2 (marks_version (money b)) ++ u32_le (Z.of_nat (length (marks_paths (money b)))) ++ ms
        else [])).

(** *** Decoding *)
Definition Input := list Z.
Definition take_bytes (n : nat) (input : Input) : option (list Z * Input) :=
  if bool_decide (n <= length input)%nat then Some (take n input, drop n input) else None.
Definition take_int (n : nat) (input : Input) : option (Z * Input) :=
  try? (bs, input) := take_bytes n input in Some (from_le_bytes bs, input).
Fixpoint take_many {A} (n : nat) (f : Input -> option (A * Input)) (input : Input) : option (list A * Input) :=
  match n with
  | O => Some ([], input)
  | S n => try? (x, input) := f input in try? (xs, input) := take_many n f input in Some (x :: xs, input)
  end.

Definition cmb_of_bytes (bs : list Z) : option CMB :=
  List.find (fun v => bool_decide (cmb_bytes v = bs)) [CMB1; CMB2; CMB3; CMB4; CMB5].
Definition record_bytes (v : CMB) : Z :=
  match v with CMB1 => 24 | CMB2 | CMB3 => 32 | CMB4 | CMB5 => 28 end.
Definition current_layout (v : CMB) : bool := match v with CMB4 | CMB5 => true | _ => false end.
Definition tagged_layout (v : CMB) : bool := match v with CMB3 | CMB4 | CMB5 => true | _ => false end.

Section Decode.
Context (sha256 : list Z -> list Z).

Definition take_identity (v : CMB) (has_identity : bool) (input : Input) : option (BirthIdentity * Input) :=
  if has_identity then
    if current_layout v then
      try? (object, input) := take_int 8 input in
      try? (size, input) := take_int 4 input in
      Some (mkIdentity object size, input)
    else
      try? (device, input) := take_int 4 input in
      try? (size, input) := take_int 4 input in
      try? (inode, input) := take_int 8 input in
      Some (mkIdentity (identity_object sha256 device inode) size, input)
  else Some (identity_default, input).
Definition take_generation (v : CMB) (input : Input) : option (Z * Input) :=
  match v with
  | CMB1 => Some (0, input)
  | CMB4 | CMB5 => take_int 4 input
  | _ => take_int 8 input
  end.
Definition take_observation (v : CMB) (input : Input) : option (Observation * Input) :=
  try? (path, input) := take_bytes 16 input in
  try? (birth, input) := take_int 8 input in
  try? (generation, input) := take_generation v input in
  let has_identity := tagged_layout v && negb (Z.land generation 1 =? 0) in
  let generation := if tagged_layout v then Z.shiftr generation 1 else generation in
  try? (opened, input) := take_identity v has_identity input in
  if MAX_GENERATION <? generation then None else Some (mkObs path birth generation opened, input).
Definition take_session (v : CMB) (input : Input) : option (Session * Input) :=
  try? (session, input) := take_bytes 16 input in
  try? (owner, input) := take_bytes 16 input in
  try? (cutoff, input) := take_int 8 input in
  try? (absent, input) := take_int 8 input in
  try? (count, input) := take_int 4 input in
  if Z.of_nat (length input) / record_bytes v <? count then None
  else
    try? (paths, input) := take_many (Z.to_nat count) (take_observation v) input in
    Some (mkSession session owner cutoff absent paths, input).
Definition take_mark (input : Input) : option ((LocationKey * Z) * Input) :=
  try? (path, input) := take_bytes 16 input in
  try? (mark, input) := take_int 1 input in Some ((path, mark), input).
Definition take_marks (v : CMB) (input : Input) : option (MoneyMarks * Input) :=
  if decide (v = CMB5) then
    try? (version, input) := take_int 2 input in
    try? (count, input) := take_int 4 input in
    if bool_decide (checked_mul 64 count 17 = Some (Z.of_nat (length input))) then
      try? (paths, input) := take_many (Z.to_nat count) take_mark input in
      Some (mkMarks version paths, input)
    else None
  else Some (mkMarks 0 [], input).
Definition decode_bytes (bytes : list Z) : option BirthStore :=
  try? (magic, input) := take_bytes 4 bytes in
  try? v := cmb_of_bytes magic in
  try? (count, input) := take_int 4 input in
  if Z.of_nat (length input) / 52 <? count then None
  else
    try? (ss, input) := take_many (Z.to_nat count) (take_session v) input in
    try? (marks, input) := take_marks v input in
    if bool_decide (input = []) then valid (mkStore ss [] marks) else None.

(** [URL_SAFE_NO_PAD.encode] and [.decode]. *)
Context (b64_encode : list Z -> list Z) (b64_decode : list Z -> option (list Z)).
Definition serialize_store (b : BirthStore) : option (list Z) := b64_encode <$> store_bytes b.
Definition deserialize_store (encoded : list Z) : option BirthStore :=
  if 4 * 1024 * 1024 <? Z.of_nat (length encoded) then None
  else try? bytes := b64_decode encoded in decode_bytes bytes.
End Decode.
