(* ===== verification/BirthLaws.v ===== *)
(** Laws of the Claude birth store: the validity of its tables under every
    update, what observations, moves, merges and prunes do, and the round trip
    of its binary form
    (crates/ottto-service/src/snapshots/claude_request_money/birth_store.rs). *)
From S2P Require Import Prelude OrdMap DurableTypes BirthStore.
Local Open Scope Z_scope.

(** ** Well-formed tables *)
(** [owned] asks in addition that every session's owner is a path it still
    observes: updates keep it, a merge may not. *)
Record session_ok (owned : bool) (s : Session) : Prop := {
  swf_cutoff : s_cutoff s <> 0;
  swf_sorted : ksorted o_path (s_paths s);
  swf_retired : forall o, o ∈ s_paths s -> o_birth o = 0 -> o_generation o <> 0;
  swf_owner : owned = true -> exists o, o ∈ s_paths s /\ o_path o = s_owner s /\ o_birth o <> 0;
}.
Record store_ok (owned : bool) (b : BirthStore) : Prop := {
  bwf_sessions : ksorted s_key (sessions b);
  bwf_each : Forall (session_ok owned) (sessions b);
  bwf_marks : ksorted fst (marks_paths (money b));
  bwf_nonzero : Forall (fun m => m.2 <> 0) (marks_paths (money b));
}.
Arguments swf_cutoff {owned s}. Arguments swf_sorted {owned s}. Arguments swf_retired {owned s}. Arguments swf_owner {owned s}.
Arguments bwf_sessions {owned b}. Arguments bwf_each {owned b}. Arguments bwf_marks {owned b}. Arguments bwf_nonzero {owned b}.
Abbreviation session_wf := (session_ok true).
Abbreviation store_wf := (store_ok true).

(** ** The Rust types: widths and 16-byte keys *)
Definition key16 (k : LocationKey) : Prop := length k = 16%nat /\ Forall u8 k.
Record obs_typed (o : Observation) : Prop := {
  ot_path : key16 (o_path o);
  ot_birth : u64 (o_birth o);
  ot_generation : 0 <= o_generation o <= MAX_GENERATION;
  ot_object : u64 (object (o_identity o));
  ot_size : u32 (size (o_identity o));
}.
Record session_typed (s : Session) : Prop := {
  st_key : key16 (s_key s);
  st_owner : key16 (s_owner s);
  st_cutoff : u64 (s_cutoff s);
  st_absent : u64 (s_absent s);
  st_paths : Forall obs_typed (s_paths s);
}.
Record store_typed (b : BirthStore) : Prop := {
  bt_sessions : Forall session_typed (sessions b);
  bt_version : u16 (marks_version (money b));
  bt_marks : Forall (fun m => key16 m.1 /\ u8 m.2) (marks_paths (money b));
}.

Lemma existsb_elem {A} (f : A -> bool) l : existsb f l = true <-> exists x, x ∈ l /\ f x = true.
Proof.
  induction l as [|a l IH]; cbn.
  - split; [done|]. intros (x & Hx & _). by apply not_elem_of_nil in Hx.
  - rewrite orb_true_iff, IH. setoid_rewrite elem_of_cons. naive_solver.
Qed.
Lemma forallb_elem {A} (f : A -> bool) l : forallb f l = true <-> Forall (fun x => f x = true) l.
Proof.
  induction l as [|a l IH]; cbn; [by split|]. by rewrite andb_true_iff, IH, Forall_cons.
Qed.

Lemma session_valid_wf s : session_valid s = true <-> session_wf s.
Proof.
  unfold session_valid. rewrite !andb_true_iff, !negb_true_iff, ascending_ksorted, existsb_elem.
  setoid_rewrite andb_true_iff. setoid_rewrite negb_true_iff. setoid_rewrite bool_decide_eq_true.
  rewrite Z.eqb_neq. split.
  - intros ((((Hc & _) & Hs) & Hr) & (o & Ho & Hp & Hb)). zbool. split; [done|done| |by exists o].
    intros o' Ho' Hb' Hg. apply not_true_iff_false in Hr. apply Hr, existsb_elem. exists o'.
    split; [done|]. by rewrite Hb', Hg.
  - intros [Hc Hs Hr Hown]. destruct (Hown eq_refl) as (o & Ho & Hp & Hb). split_and!; [done| |done| |].
    + apply bool_decide_eq_false_2. destruct (s_paths s); [by apply not_elem_of_nil in Ho|done].
    + apply not_true_iff_false. rewrite existsb_elem. intros (o' & Ho' & Hx). zbool. by apply (Hr o').
    + exists o. split_and!; [done|done|by apply Z.eqb_neq].
Qed.
Lemma valid_spec b : valid b = Some b <-> store_wf b.
Proof.
  unfold valid. split.
  - destruct (_ && _ && _ && _) eqn:E; [|done]. intros _. rewrite !andb_true_iff in E.
    destruct E as [[[H1 H2] H3] H4]. split; [by apply ascending_ksorted| |by apply ascending_ksorted|].
    + apply forallb_elem in H4. eapply Forall_impl; [exact H4|]. intros s. apply session_valid_wf.
    + apply Forall_forall. intros m Hm Hz. apply negb_true_iff, not_true_iff_false in H3. apply H3.
      apply existsb_elem. exists m. split; [done|]. by apply Z.eqb_eq.
  - intros [H1 H2 H3 H4].
    assert (ascending s_key (sessions b) && ascending fst (marks_paths (money b)) &&
      negb (existsb (fun m => m.2 =? 0) (marks_paths (money b))) && forallb session_valid (sessions b) = true) as ->;
      [|done].
    rewrite !andb_true_iff, !ascending_ksorted, negb_true_iff, <-not_true_iff_false, existsb_elem, forallb_elem.
    split_and!; [done|done| |].
    + intros (m & Hm & Hz). rewrite Forall_forall in H4. by apply (H4 m Hm), Z.eqb_eq.
    + eapply Forall_impl; [exact H2|]. intros s. apply session_valid_wf.
Qed.
Lemma valid_Some b b' : valid b = Some b' -> b' = b /\ store_wf b.
Proof.
  intros H. assert (b' = b) as -> by (unfold valid in H; by destruct (_ && _) in H; simplify_eq).
  split; [done|]. by apply valid_spec.
Qed.

(** ** Editing a sorted table in place *)
Section UpdateAt.
Context {A K : Type} `{RustOrdLaws K} (key : A -> K) (f : A -> A) (Hf : forall x, key (f x) = key x).
Lemma update_at_found k i l :
  ksorted key l -> bsearch key k l = Found i ->
  exists a, l !! i = Some a /\ a ∈ l /\ key a = k /\ update_at f i l = <[i := f a]> l /\
    ksorted key (update_at f i l) /\
    (forall c, c ∈ update_at f i l <-> c = f a \/ (c ∈ l /\ key c <> k)).
Proof.
  intros Hs Hb. destruct (bsearch_found _ _ _ _ Hb) as (a & Ha & Hk). exists a.
  unfold update_at. rewrite Ha. split_and!; [done|by eapply list_elem_of_lookup_2|done|done| |].
  - by eapply ksorted_update.
  - intros c. rewrite (elem_of_update key) by done. by rewrite Hk.
Qed.
Lemma kget_update_at k k' i l :
  ksorted key l -> bsearch key k l = Found i ->
  kget key k' (update_at f i l) = if decide (k' = k) then f <$> kget key k' l else kget key k' l.
Proof.
  intros Hs Hb. destruct (update_at_found k i l Hs Hb) as (a & Ha & Hin & Hk & -> & _).
  erewrite kget_update by (done || exact Ha || auto). rewrite Hk. case_decide as Hd; [|done]. subst k'.
  by rewrite (bsearch_found_kget _ _ _ _ Hb), Ha.
Qed.
End UpdateAt.

Section Laws.
Context (sha256 : list Z -> list Z) {owned : bool}.
Abbreviation location_key := (location_key sha256).
Abbreviation session_key := (session_key sha256).

(** ** Recording an observation *)
Lemma observe_paths_spec pk birth ps :
  ksorted o_path ps -> birth <> 0 ->
  let '(ps', observed) := observe_paths pk birth ps in
  ksorted o_path ps' /\
  (exists o, o ∈ ps' /\ o_path o = pk /\ o_birth o = observed /\ kget o_path pk ps' = Some o) /\
  observed = match kget o_path pk ps with
             | Some o => if o_birth o =? 0 then birth else Z.min (o_birth o) birth
             | None => birth
             end /\
  (forall pk', pk' <> pk -> kget o_path pk' ps' = kget o_path pk' ps) /\
  (forall o, o ∈ ps' -> o_path o <> pk -> o ∈ ps) /\
  (forall o, o ∈ ps -> o_path o <> pk -> o ∈ ps').
Proof.
  intros Hs Hne. unfold observe_paths.
  set (f := fun o => mkObs (o_path o) (if o_birth o =? 0 then birth else Z.min (o_birth o) birth)
    (o_generation o) (o_identity o)).
  destruct (bsearch o_path pk ps) as [j|j] eqn:Eb.
  - destruct (update_at_found o_path f (fun _ => eq_refl) pk j ps Hs Eb) as (a & Ha & Hin & Hk & Hu & Hs' & Hel).
    assert (Hj : update_at f j ps !! j = Some (f a)).
    { rewrite Hu. apply list_lookup_insert_eq. by eapply lookup_lt_Some. }
    rewrite Hj. split_and!; [done| | | | |].
    + exists (f a). split_and!; [apply Hel; by left|done|done|].
      rewrite (kget_update_at o_path f (fun _ => eq_refl) pk) by done.
      rewrite decide_True by done. by rewrite (bsearch_found_kget _ _ _ _ Eb), Ha.
    + by rewrite (bsearch_found_kget _ _ _ _ Eb), Ha.
    + intros pk' Hne'. rewrite (kget_update_at o_path f (fun _ => eq_refl) pk) by done. by rewrite decide_False.
    + intros o [->|[? ?]]%Hel Hp; [by destruct Hp|done].
    + intros o Ho Hp. apply Hel. by right.
  - split_and!.
    + by apply (ksorted_insert_at o_path (mkObs pk birth 0 identity_default)).
    + exists (mkObs pk birth 0 identity_default). split_and!; [apply elem_of_insert_at; by left|done|done|].
      rewrite (kget_insert_at o_path pk (mkObs pk birth 0 identity_default)) by done. by rewrite decide_True.
    + by rewrite (bsearch_missing_kget _ _ _ _ Eb).
    + intros pk' Hne'. rewrite (kget_insert_at o_path pk' (mkObs pk birth 0 identity_default)) by done.
      by rewrite decide_False.
    + intros o [->|?]%elem_of_insert_at Hp; [by destruct Hp|done].
    + intros o Ho _. apply elem_of_insert_at. by right.
Qed.

Lemma observed_nonzero pk birth ps :
  ksorted o_path ps -> birth <> 0 -> (observe_paths pk birth ps).2 <> 0.
Proof.
  intros Hs Hb. pose proof (observe_paths_spec pk birth ps Hs Hb) as H.
  destruct (observe_paths pk birth ps) as [ps' observed]. cbn. destruct H as (_ & _ & -> & _).
  destruct (kget o_path pk ps) as [o|]; [|done]. destruct (o_birth o =? 0) eqn:Ez; zbool; lia.
Qed.

Lemma observe_session_wf pk birth s :
  session_ok owned s -> birth <> 0 ->
  session_ok owned (observe_session pk birth s) /\ s_key (observe_session pk birth s) = s_key s.
Proof.
  intros [Hc Hs Hr Hown] Hb. unfold observe_session.
  pose proof (observe_paths_spec pk birth (s_paths s) Hs Hb) as H.
  pose proof (observed_nonzero pk birth (s_paths s) Hs Hb) as Hne.
  destruct (observe_paths pk birth (s_paths s)) as [ps observed]. cbn in Hne.
  destruct H as (Hs' & (o & Ho & Hop & Hob & _) & _ & _ & Hold & Hnew).
  assert (Hr' : forall o, o ∈ ps -> o_birth o = 0 -> o_generation o <> 0).
  { intros x Hx Hxb. destruct (decide (o_path x = pk)) as [Hxp|Hxp]; [|by apply Hr; [apply Hold|]].
    rewrite <-Hop in Hxp. rewrite (ksorted_unique o_path ps x o Hs' Hx Ho Hxp) in Hxb. congruence. }
  destruct (observed <? s_cutoff (with_paths ps s)); cbn; (split; [split; cbn|done]); try done.
  - intros _. exists o. split_and!; congruence.
  - intros Hl. destruct (decide (s_owner s = pk)) as [He|He].
    + exists o. split_and!; congruence.
    + destruct (Hown Hl) as (w & Hw & Hwp & Hwb). exists w. split_and!; [apply Hnew; congruence|done|done].
Qed.

Lemma sessions_update_wf b i f :
  store_ok owned b -> is_Some (sessions b !! i) ->
  (forall s, session_ok owned s -> session_ok owned (f s)) -> (forall s, s_key (f s) = s_key s) ->
  store_ok owned (with_sessions (update_at f i (sessions b)) b).
Proof.
  intros [H1 H2 H3 H4] [s Hi] Hf Hk. split; cbn; [| |done|done].
  - unfold update_at. rewrite Hi. by eapply ksorted_update.
  - unfold update_at. rewrite Hi. apply Forall_insert; [done|]. apply Hf.
    rewrite Forall_forall in H2. by eapply H2, list_elem_of_lookup_2.
Qed.
Lemma fresh_session_wf sk pk birth :
  birth <> 0 -> session_ok owned (mkSession sk pk birth 0 [mkObs pk birth 0 identity_default]).
Proof.
  intros Hb. split; cbn; [done|apply ksorted_singleton| |].
  - intros o ->%list_elem_of_singleton Ho. by destruct Hb.
  - intros _. eexists. split; [by apply list_elem_of_singleton|done].
Qed.
Lemma sessions_insert_wf b i s :
  store_ok owned b -> bsearch s_key (s_key s) (sessions b) = Missing i -> session_ok owned s ->
  store_ok owned (with_sessions (insert_at i s (sessions b)) b).
Proof.
  intros [H1 H2 H3 H4] Hb Hs. split; cbn; [by apply ksorted_insert_at| |done|done].
  apply Forall_forall. intros x [->|Hx]%elem_of_insert_at; [done|]. rewrite Forall_forall in H2. auto.
Qed.

Lemma record_observation_wf session path birth b :
  store_ok owned b -> store_ok owned (record_observation sha256 session path birth b).
Proof.
  intros Hw. unfold record_observation. destruct (try_uint 64 birth) as [n|]; [|done].
  destruct (n =? 0) eqn:En; zbool; [done|].
  destruct (bsearch s_key (session_key session) (sessions b)) as [i|i] eqn:Eb.
  - apply sessions_update_wf; [done| |by intros; apply observe_session_wf|].
    + destruct (bsearch_found _ _ _ _ Eb) as (s & Hs & _). by eexists.
    + intros s. unfold observe_session. destruct (observe_paths _ _ _) as [ps o]. by destruct (_ <? _).
  - by apply sessions_insert_wf; [|exact Eb|apply fresh_session_wf].
Qed.

Lemma update_paths_wf f pk s :
  session_ok owned s -> (forall o, o_path (f o) = o_path o) -> (forall o, o_birth (f o) = o_birth o) ->
  (forall o, o_generation (f o) = o_generation o) ->
  session_ok owned (match bsearch o_path pk (s_paths s) with
              | Missing _ => s | Found j => with_paths (update_at f j (s_paths s)) s end).
Proof.
  intros [Hc Hs Hr Hown] Hp Hb Hg.
  destruct (bsearch o_path pk (s_paths s)) as [j|j] eqn:Eb; [|split; eauto].
  destruct (update_at_found o_path f Hp pk j _ Hs Eb) as (a & _ & Hin & Hk & _ & Hs' & Hel).
  split; cbn; [done|done| |].
  - intros o [->|[Ho _]]%Hel; [rewrite Hb, Hg; by apply Hr|by apply Hr].
  - intros Hl. destruct (Hown Hl) as (w & Hw & Hwp & Hwb). destruct (decide (o_path w = pk)) as [He|He].
    + rewrite <-Hk in He. assert (w = a) as -> by by apply (ksorted_unique o_path (s_paths s)).
      exists (f a). rewrite Hp, Hb. split_and!; [apply Hel; by left|done|done].
    + exists w. split_and!; [apply Hel; by right|done|done].
Qed.

Lemma record_opened_wf session path birth opened b :
  store_ok owned b -> store_ok owned (record_opened sha256 session path birth opened b).
Proof.
  intros Hw. unfold record_opened.
  pose proof (record_observation_wf session path birth b Hw) as Hw'.
  destruct (bsearch s_key (session_key session) _) as [i|i] eqn:Eb; [|done].
  apply sessions_update_wf; [done| | |].
  - destruct (bsearch_found _ _ _ _ Eb) as (s & Hs & _). by eexists.
  - intros s Hs. apply update_paths_wf; [done|..]; intros o; unfold identify; by repeat case_match.
  - intros s. by destruct (bsearch o_path _ _).
Qed.
Lemma stage_opened_wf session path opened b :
  store_ok owned b -> store_ok owned (stage_opened sha256 session path opened b).
Proof.
  intros Hw. unfold stage_opened.
  set (b' := match opened with Some _ => _ | None => _ end).
  assert (Hw' : store_ok owned b').
  { unfold b'. destruct opened as [o|]; [|done]. destruct (_ =? 0); [done|by apply record_opened_wf]. }
  destruct (bsearch id _ _); [done|]. destruct Hw'. by split.
Qed.

(** ** Moves *)
Lemma move_session_spec from to s s' :
  session_ok owned s -> move_session from to s = Some s' ->
  s_owner s = from /\ (exists d, kget o_path to (s_paths s) = Some d /\ o_birth d <> 0) /\
  (from = to /\ s' = s \/
   from <> to /\ exists i o, bsearch o_path from (s_paths s) = Found i /\ s_paths s !! i = Some o /\
     o_path o = from /\ 0 <= o_generation o + 1 <= MAX_GENERATION /\
     s' = with_owner to (s_cutoff s) 0 (with_paths
       (<[i := mkObs from 0 (o_generation o + 1) identity_default]> (s_paths s)) s)).
Proof.
  intros Hw. unfold move_session. case_decide as Ho; [|done].
  destruct (bsearch o_path to (s_paths s)) as [d|d] eqn:Ed; [|done].
  destruct (bsearch_found _ _ _ _ Ed) as (od & Hd & Hdk). rewrite Hd.
  destruct (o_birth od =? 0) eqn:Eb; [done|]. zbool.
  assert (Hk : kget o_path to (s_paths s) = Some od) by by rewrite (bsearch_found_kget _ _ _ _ Ed).
  case_decide as Hft.
  { intros [= <-]. split_and!; [done|by exists od|by left]. }
  destruct (bsearch o_path from (s_paths s)) as [i|i] eqn:Es; [|done].
  destruct (bsearch_found _ _ _ _ Es) as (os & Hi & Hik). rewrite Hi.
  destruct (checked_add 64 (o_generation os) 1) as [g|] eqn:Eg; [|done].
  apply try_uint_Some in Eg as [-> Hg]. destruct (_ <=? MAX_GENERATION) eqn:Em; [|done]. zbool.
  intros [= <-]. split_and!; [done|by exists od|]. right. split; [done|]. exists i, os.
  rewrite Hik. split_and!; try done. apply Hg.
Qed.

Lemma move_session_wf from to s s' :
  session_ok owned s -> session_typed s -> move_session from to s = Some s' ->
  session_ok owned s' /\ s_key s' = s_key s.
Proof.
  intros Hw Ht Hm. destruct (move_session_spec _ _ _ _ Hw Hm) as (Ho & (d & Hd & Hdb) & [[_ ->]|(Hne & i & o & Hf & Hi & Hp & Hg & ->)]).
  { done. }
  split; [|done]. destruct Hw as [Hc Hs Hr _].
  apply kget_Some in Hd as [Hd Hdk]; [|done].
  assert (Hs' : ksorted o_path (<[i:=mkObs from 0 (o_generation o + 1) identity_default]> (s_paths s)))
    by by eapply ksorted_update.
  pose proof (elem_of_update o_path (s_paths s) i o (mkObs from 0 (o_generation o + 1) identity_default)) as Hel.
  split; cbn; [done|done| |].
  - intros x [->|[Hx _]]%Hel Hb; [|by apply Hr|done..]. cbn. pose proof (st_paths _ Ht) as Hg'.
    rewrite Forall_forall in Hg'. apply list_elem_of_lookup_2, Hg', ot_generation in Hi. lia.
  - intros _. exists d. split_and!; [|done|done]. apply Hel; [done..|]. right. split; [done|]. congruence.
Qed.

Lemma record_proven_move_wf session from to b :
  store_ok owned b -> store_typed b -> store_ok owned (record_proven_move sha256 session from to b).1.
Proof.
  intros Hw Ht. unfold record_proven_move.
  destruct (bsearch s_key (session_key session) (sessions b)) as [i|i] eqn:Eb; [|done].
  destruct (sessions b !! i) as [s|] eqn:Ei; [|done]. cbn.
  destruct (move_session from (location_key to) s) as [s'|] eqn:Em; [|done]. cbn.
  assert (Hs : session_ok owned s).
  { pose proof (bwf_each Hw) as H. rewrite Forall_forall in H. by eapply H, list_elem_of_lookup_2. }
  assert (Hst : session_typed s).
  { pose proof (bt_sessions _ Ht) as H. rewrite Forall_forall in H. by eapply H, list_elem_of_lookup_2. }
  destruct (move_session_wf _ _ _ _ Hs Hst Em) as [Hs' Hk'].
  destruct Hw as [H1 H2 H3 H4]. split; cbn; [by eapply ksorted_update|by apply Forall_insert|done|done].
Qed.
(** ** Marks and retention *)
Lemma marks_wf ps b :
  store_ok owned b -> ksorted fst ps -> Forall (fun m => m.2 <> 0) ps -> store_ok owned (with_marks ps b).
Proof. intros [] ? ?. by split. Qed.
Lemma set_money_marks_wf path marks b : store_ok owned b -> store_ok owned (set_money_marks sha256 path marks b).
Proof.
  intros Hw. unfold set_money_marks. pose proof (bwf_marks Hw) as Hs. pose proof (bwf_nonzero Hw) as Hn.
  destruct ((marks =? 0) && _); [done|].
  destruct (bsearch fst (location_key path) (marks_paths (money b))) as [i|i] eqn:Eb;
    destruct (marks =? 0) eqn:Em; zbool; try done.
  - apply marks_wf; [done|by apply ksorted_delete|]. by apply Forall_delete.
  - set (f := fun m : LocationKey * Z => (m.1, marks)).
    destruct (update_at_found fst f (fun _ => eq_refl) _ i _ Hs Eb) as (a & _ & _ & _ & _ & Hs' & Hel).
    apply marks_wf; [done|done|]. apply Forall_forall. intros m [->|[Hm _]]%Hel; [done|].
    rewrite Forall_forall in Hn. auto.
  - apply marks_wf; [done|by apply (ksorted_insert_at fst (location_key path, marks))|].
    apply Forall_forall. intros m [->|Hm]%elem_of_insert_at; [done|]. rewrite Forall_forall in Hn. auto.
Qed.
Lemma retain_money_marks_wf live b : store_ok owned b -> store_ok owned (retain_money_marks live b).
Proof.
  intros Hw. apply marks_wf; [done|apply ksorted_filter, Hw|].
  apply Forall_forall. intros m [_ Hm]%list_elem_of_filter. pose proof (bwf_nonzero Hw) as Hn.
  rewrite Forall_forall in Hn. auto.
Qed.
Lemma prune_session_wf now live s : session_ok owned s -> session_ok owned (prune_session now live s).
Proof. intros []. unfold prune_session. destruct (is_found _); [by split|]. by destruct (s_absent s =? 0). Qed.
Lemma prune_session_key now live s : s_key (prune_session now live s) = s_key s.
Proof. unfold prune_session. destruct (is_found _); [done|]. by destruct (s_absent s =? 0). Qed.
Lemma prune_wf now indexed b : store_ok owned b -> store_ok owned (prune sha256 now indexed b).
Proof.
  intros [H1 H2 H3 H4]. split; cbn; [| |done|done].
  - apply ksorted_filter, ksorted_map; [apply prune_session_key|done].
  - apply Forall_forall. intros s [_ (s0 & -> & Hs)%list_elem_of_fmap]%list_elem_of_filter.
    apply prune_session_wf. rewrite Forall_forall in H2. auto.
Qed.
End Laws.

(** ** Typed tables *)
Lemma update_at_Forall {A} (P : A -> Prop) (f : A -> A) i l :
  Forall P l -> (forall x, P x -> P (f x)) -> Forall P (update_at f i l).
Proof.
  intros Hl Hf. unfold update_at. destruct (l !! i) as [x|] eqn:E; [|done].
  apply Forall_insert; [done|]. apply Hf. rewrite Forall_forall in Hl. by eapply Hl, list_elem_of_lookup_2.
Qed.
Lemma insert_at_Forall {A} (P : A -> Prop) i x (l : list A) :
  P x -> Forall P l -> Forall P (insert_at i x l).
Proof.
  intros Hx Hl. apply Forall_forall. intros y [->|Hy]%elem_of_insert_at; [done|].
  rewrite Forall_forall in Hl. auto.
Qed.

Section Typed.
Context (sha256 : list Z -> list Z) {owned : bool}.
(** SHA-256 digests are 32 bytes. *)
Context (Hsha : forall bs, length (sha256 bs) = 32%nat /\ Forall u8 (sha256 bs)).

Lemma location_key_key16 domain value : key16 (location_key_of sha256 domain value).
Proof.
  unfold location_key_of. destruct (Hsha (as_bytes domain ++ [0] ++ as_bytes value)) as [Hl Hu].
  split; [rewrite length_take; lia|by apply Forall_take].
Qed.
Lemma identity_object_u64 device inode : u64 (identity_object sha256 device inode).
Proof.
  unfold identity_object. destruct (inode =? 0); [done|].
  set (bs := _ ++ [0] ++ _). destruct (Hsha bs) as [Hl Hu].
  assert (H8 : Forall u8 (take 8 (sha256 bs))) by by apply Forall_take.
  apply from_le_bytes_bound in H8. unfold DurableCodec.slice_len in H8. rewrite length_take, Hl in H8.
  change (256 ^ Z.of_nat (8 `min` 32)) with (2 ^ 64) in H8. unfold uint. lia.
Qed.

Lemma obs_typed_fresh pk birth : key16 pk -> u64 birth -> obs_typed (mkObs pk birth 0 identity_default).
Proof. intros. by split. Qed.
Lemma observe_paths_typed pk birth ps :
  key16 pk -> u64 birth -> Forall obs_typed ps ->
  Forall obs_typed (observe_paths pk birth ps).1 /\ u64 (observe_paths pk birth ps).2.
Proof.
  intros Hk Hb Hps. unfold observe_paths. destruct (bsearch o_path pk ps) as [j|j].
  - set (f := fun o => mkObs (o_path o) _ (o_generation o) (o_identity o)).
    assert (Hf : Forall obs_typed (update_at f j ps)).
    { apply update_at_Forall; [done|]. intros o []. split; cbn; try done.
      destruct (o_birth o =? 0); [done|]. unfold uint in *. lia. }
    split; [done|]. cbn. destruct (update_at f j ps !! j) as [o|] eqn:E; [|done].
    rewrite Forall_forall in Hf. by apply list_elem_of_lookup_2, Hf, ot_birth in E.
  - split; [|done]. apply insert_at_Forall; [by apply obs_typed_fresh|done].
Qed.
Lemma observe_session_typed pk birth s :
  key16 pk -> u64 birth -> session_typed s -> session_typed (observe_session pk birth s).
Proof.
  intros Hk Hb [H1 H2 H3 H4 H5]. unfold observe_session.
  pose proof (observe_paths_typed pk birth (s_paths s) Hk Hb H5) as H.
  destruct (observe_paths pk birth (s_paths s)) as [ps o]. destruct H as [Hps Ho].
  destruct (o <? _); by split.
Qed.
Lemma with_sessions_typed ss b : store_typed b -> Forall session_typed ss -> store_typed (with_sessions ss b).
Proof. intros [] ?. by split. Qed.

Lemma record_observation_typed session path birth b :
  store_typed b -> store_typed (record_observation sha256 session path birth b).
Proof.
  intros Hb. unfold record_observation. destruct (try_uint 64 birth) as [n|] eqn:En; [|done].
  apply try_uint_Some in En as [-> Hn]. destruct (birth =? 0); [done|].
  pose proof (bt_sessions _ Hb) as Hs. destruct (bsearch s_key _ _); apply with_sessions_typed; try done.
  - apply update_at_Forall; [done|]. intros s. by apply observe_session_typed; [apply location_key_key16|].
  - apply insert_at_Forall; [|done]. split; cbn; try done; try apply location_key_key16.
    apply Forall_singleton, obs_typed_fresh; [apply location_key_key16|done].
Qed.
Lemma identify_typed remembered birth opened o :
  obs_typed o -> obs_typed (identify sha256 remembered birth opened o).
Proof.
  intros []. unfold identify. destruct (_ && _).
  - split; cbn; try done; unfold identity_from_opened; destruct (try_uint 32 _) as [n|] eqn:E; cbn; try done.
    + apply identity_object_u64.
    + by apply try_uint_Some in E as [-> ?].
  - destruct (covers _ _ _); [|by split]. split; cbn; try done.
    destruct (try_uint 32 _) as [n|] eqn:E; cbn; [by apply try_uint_Some in E as [-> ?]|done].
Qed.
Lemma record_opened_typed session path birth opened b :
  store_typed b -> store_typed (record_opened sha256 session path birth opened b).
Proof.
  intros Hb. unfold record_opened. apply (record_observation_typed session path birth) in Hb.
  destruct (bsearch s_key _ _); [|done]. apply with_sessions_typed; [done|].
  apply update_at_Forall; [apply Hb|]. intros s Hs. destruct (bsearch o_path _ _); [|done].
  destruct Hs. split; cbn; try done. apply update_at_Forall; [done|]. intros o. apply identify_typed.
Qed.
Lemma stage_opened_typed session path opened b :
  store_typed b -> store_typed (stage_opened sha256 session path opened b).
Proof.
  intros Hb. unfold stage_opened. set (b' := match opened with Some _ => _ | None => _ end).
  assert (Hb' : store_typed b').
  { unfold b'. destruct opened as [o|]; [|done]. destruct (_ =? 0); [done|by apply record_opened_typed]. }
  destruct (bsearch id _ _); [done|]. destruct Hb'. by split.
Qed.
Lemma move_session_typed from to s s' :
  key16 to -> session_ok owned s -> session_typed s -> move_session from to s = Some s' -> session_typed s'.
Proof.
  intros Hk Hw Ht Hm. destruct (move_session_spec _ _ _ _ Hw Hm) as (Ho & _ & [[_ ->]|(Hne & i & o & Hf & Hi & Hp & Hg & ->)]).
  { done. }
  destruct Ht. split; cbn; try done. apply Forall_insert; [done|]. split; cbn; try done.
  rewrite Forall_forall in st_paths0. apply list_elem_of_lookup_2, st_paths0, ot_path in Hi. congruence.
Qed.
Lemma record_proven_move_typed session from to b :
  store_ok owned b -> store_typed b -> store_typed (record_proven_move sha256 session from to b).1.
Proof.
  intros Hw Hb. unfold record_proven_move. destruct (bsearch s_key _ _) as [i|i]; [|done].
  destruct (sessions b !! i) as [s|] eqn:Ei; [|done]. cbn.
  destruct (move_session _ _ s) as [s'|] eqn:Em; [|done]. cbn. apply with_sessions_typed; [done|].
  apply Forall_insert; [apply Hb|]. apply list_elem_of_lookup_2 in Ei.
  pose proof (bwf_each Hw) as H1. pose proof (bt_sessions _ Hb) as H2. rewrite Forall_forall in H1, H2.
  eapply move_session_typed; [apply location_key_key16|by apply H1|by apply H2|done].
Qed.
Lemma set_money_marks_typed path marks b :
  u8 marks -> store_typed b -> store_typed (set_money_marks sha256 path marks b).
Proof.
  intros Hm [H1 H2 H3]. unfold set_money_marks. destruct (_ && _); [by split|].
  destruct (bsearch fst _ _); destruct (marks =? 0); split; cbn; try done.
  - by apply Forall_delete.
  - apply update_at_Forall; [done|]. by intros m [? _].
  - apply insert_at_Forall; [|done]. split; [apply location_key_key16|done].
Qed.
Lemma prune_typed now indexed b :
  u64 now -> store_typed b -> store_typed (prune sha256 now indexed b).
Proof.
  intros Hn [H1 H2 H3]. split; cbn; [|done|done].
  apply Forall_forall. intros s [_ (s0 & -> & Hs)%list_elem_of_fmap]%list_elem_of_filter.
  rewrite Forall_forall in H1. destruct (H1 s0 Hs). unfold prune_session.
  destruct (is_found _); [by split|]. destruct (_ =? 0); [|by split]. split; cbn; try done.
  unfold uint in *. lia.
Qed.

End Typed.

(** ** Merging one sorted table into another *)
Section KeyedMerge.
Context {A K : Type} `{RustOrdLaws K} (key : A -> K) (g : A -> A -> A).
Context (Hg : forall x a, key (g x a) = key a).
Definition merge_step (acc : list A) (x : A) : list A :=
  match bsearch key (key x) acc with
  | Found i => update_at (g x) i acc
  | Missing i => insert_at i x acc
  end.

Lemma merge_step_sorted acc x : ksorted key acc -> ksorted key (merge_step acc x).
Proof.
  intros Hs. unfold merge_step. destruct (bsearch key (key x) acc) as [i|i] eqn:E.
  - by destruct (update_at_found key (g x) (Hg x) _ _ _ Hs E) as (a & _ & _ & _ & _ & ? & _).
  - by apply ksorted_insert_at.
Qed.
Lemma merge_step_kget acc x k :
  ksorted key acc ->
  kget key k (merge_step acc x) =
    if decide (k = key x)
    then Some match kget key k acc with Some a => g x a | None => x end else kget key k acc.
Proof.
  intros Hs. unfold merge_step. destruct (bsearch key (key x) acc) as [i|i] eqn:E.
  - rewrite (kget_update_at key (g x) (Hg x) (key x)) by done. case_decide as Hd; [|done]. subst k.
    destruct (kget key (key x) acc) eqn:Ek; [done|]. rewrite (bsearch_found_kget _ _ _ _ E) in Ek.
    apply bsearch_found_lt in E. apply lookup_ge_None in Ek. lia.
  - rewrite kget_insert_at by done. case_decide as Hd; [|done]. subst k.
    by rewrite (bsearch_missing_kget _ _ _ _ E).
Qed.

Lemma kget_cons_ne k x l : ksorted key (x :: l) -> k <> key x -> kget key k (x :: l) = kget key k l.
Proof.
  intros Hs Hne. pose proof (ksorted_cons_inv _ _ _ Hs) as [Hl _]. apply option_eq. intros a.
  rewrite !kget_Some by done. rewrite elem_of_cons. split; [|tauto]. intros [[->|Ha] Hk]; [by destruct Hne|done].
Qed.
Lemma kget_cons_eq x l : kget key (key x) (x :: l) = Some x.
Proof. unfold kget. cbn. by rewrite rcmp_refl. Qed.
Lemma kget_after_head x l : ksorted key (x :: l) -> kget key (key x) l = None.
Proof.
  intros [Hl Hx]%ksorted_cons_inv. apply kget_None; [done|]. intros a Ha He.
  rewrite Forall_forall in Hx. specialize (Hx a Ha). rewrite He in Hx. by apply rlt_irrefl in Hx.
Qed.

Lemma merge_fold acc l :
  ksorted key acc -> ksorted key l ->
  ksorted key (foldl merge_step acc l) /\
  forall k, kget key k (foldl merge_step acc l) =
    match kget key k acc, kget key k l with
    | Some a, Some x => Some (g x a)
    | Some a, None => Some a
    | None, r => r
    end.
Proof.
  intros Hacc Hl. revert acc Hacc. induction l as [|x l IH]; intros acc Hacc; cbn [foldl].
  - split; [done|]. intros k. by destruct (kget key k acc).
  - pose proof (ksorted_cons_inv _ _ _ Hl) as [Hl' _].
    destruct (IH Hl' _ (merge_step_sorted acc x Hacc)) as [Hs Hk]. split; [done|]. intros k.
    rewrite Hk, merge_step_kget by done. case_decide as Hd.
    + subst k. rewrite kget_after_head, kget_cons_eq by done. by destruct (kget key (key x) acc).
    + by rewrite kget_cons_ne.
Qed.
End KeyedMerge.

Lemma merge_observation_path old o : o_path (merge_observation old o) = o_path o.
Proof. unfold merge_observation. destruct (_ <? _); [done|]. by destruct (_ && _). Qed.
Lemma merge_session_key old s : s_key (merge_session old s) = s_key s.
Proof. unfold merge_session. by destruct (_ <? _). Qed.

Lemma preserve_paths_fold ps l :
  ksorted o_path ps -> ksorted o_path l ->
  ksorted o_path (foldl preserve_observation ps l) /\
  forall pk, kget o_path pk (foldl preserve_observation ps l) =
    match kget o_path pk ps, kget o_path pk l with
    | Some c, Some o => Some (merge_observation o c)
    | Some c, None => Some c
    | None, r => r
    end.
Proof. apply (merge_fold o_path merge_observation merge_observation_path). Qed.
Lemma preserve_sessions_fold ss l :
  ksorted s_key ss -> ksorted s_key l ->
  ksorted s_key (foldl preserve_session ss l) /\
  forall sk, kget s_key sk (foldl preserve_session ss l) =
    match kget s_key sk ss, kget s_key sk l with
    | Some s, Some old => Some (merge_session old s)
    | Some s, None => Some s
    | None, r => r
    end.
Proof. apply (merge_fold s_key merge_session merge_session_key). Qed.
Lemma preserve_marks_fold ps l :
  ksorted fst ps -> ksorted fst l ->
  ksorted fst (foldl preserve_mark ps l) /\
  forall k, kget fst k (foldl preserve_mark ps l) =
    match kget fst k ps with Some m => Some m | None => kget fst k l end.
Proof.
  intros Hps Hl. pose proof (merge_fold fst (fun _ m : LocationKey * Z => m) (fun _ _ => eq_refl) ps l Hps Hl) as [Hs Hk].
  assert (forall ps l, foldl preserve_mark ps l = foldl (merge_step fst (fun _ m => m)) ps l) as Heq.
  { clear. intros ps l. revert ps. induction l as [|m l IH]; intros ps; [done|]. cbn. rewrite IH. f_equal.
    unfold preserve_mark, merge_step. destruct (bsearch fst m.1 ps) as [i|i]; [|done].
    unfold update_at. destruct (ps !! i) eqn:E; [|done]. by rewrite list_insert_id. }
  rewrite Heq. split; [done|]. intros k. rewrite Hk. destruct (kget fst k ps), (kget fst k l); done.
Qed.

Section Merged.
Context {owned : bool}.
Lemma find_session_preserved sk previous b :
  store_ok owned previous -> store_ok owned b ->
  find_session sk (preserve_missing_from previous b) =
    match find_session sk b, find_session sk previous with
    | Some s, Some old => Some (merge_session old s)
    | Some s, None => Some s
    | None, r => r
    end.
Proof. intros Hp Hb. apply preserve_sessions_fold; [apply Hb|apply Hp]. Qed.
Lemma observation_of_merged pk old s :
  session_ok owned old -> session_ok owned s ->
  observation_of pk (merge_session old s) =
    match observation_of pk s, observation_of pk old with
    | Some c, Some o => Some (merge_observation o c)
    | Some c, None => Some c
    | None, r => r
    end.
Proof.
  intros Ho Hs. unfold observation_of.
  assert (s_paths (merge_session old s) = foldl preserve_observation (s_paths s) (s_paths old)) as ->.
  { unfold merge_session. by destruct (_ <? _). }
  apply preserve_paths_fold; [apply Hs|apply Ho].
Qed.

Lemma find_session_wf sk b s :
  store_ok owned b -> find_session sk b = Some s -> session_ok owned s /\ s ∈ sessions b /\ s_key s = sk.
Proof.
  intros Hw Hf. apply kget_Some in Hf as [Hin Hk]; [|apply Hw]. split; [|done].
  pose proof (bwf_each Hw) as H. rewrite Forall_forall in H. auto.
Qed.

(** [s] saw everything [old] did: no later generation, no earlier cutoff. *)
Definition at_least_as_new (old s : Session) : Prop :=
  s_cutoff s <= s_cutoff old /\
  forall p o, observation_of (s_owner s) old = Some p -> observation_of (s_owner s) s = Some o ->
    o_generation p <= o_generation o.
Definition newer_than (previous b : BirthStore) : Prop :=
  forall sk s old, find_session sk b = Some s -> find_session sk previous = Some old -> at_least_as_new old s.

Lemma merge_session_paths old s :
  s_paths (merge_session old s) = foldl preserve_observation (s_paths s) (s_paths old).
Proof. unfold merge_session. by destruct (_ <? _). Qed.
Lemma merge_session_cutoff old s : s_cutoff (merge_session old s) = Z.min (s_cutoff s) (s_cutoff old).
Proof. unfold merge_session. cbn. destruct (_ <? _) eqn:E; zbool; cbn; lia. Qed.

Lemma merged_retired old s o :
  session_ok owned old -> session_ok owned s ->
  o ∈ s_paths (merge_session old s) -> o_birth o = 0 -> o_generation o <> 0.
Proof.
  intros Ho Hs Hin Hb. rewrite merge_session_paths in Hin.
  destruct (preserve_paths_fold (s_paths s) (s_paths old) (swf_sorted Hs) (swf_sorted Ho)) as [Hsort Hget].
  assert (Hk : kget o_path (o_path o) (foldl preserve_observation (s_paths s) (s_paths old)) = Some o)
    by by apply kget_Some.
  rewrite Hget in Hk. destruct (kget o_path (o_path o) (s_paths s)) as [c|] eqn:Ec.
  - apply kget_Some in Ec as [Hc' _]; [|apply Hs].
    destruct (kget o_path (o_path o) (s_paths old)) as [p|] eqn:Ep; [|simplify_eq; by apply (swf_retired Hs)].
    apply kget_Some in Ep as [Hp _]; [|apply Ho]. injection Hk as <-.
    unfold merge_observation in *. destruct (o_generation c <? o_generation p) eqn:E1; cbn in *.
    + by apply (swf_retired Ho).
    + destruct (_ && _) eqn:E2; cbn in *; [|by apply (swf_retired Hs)]. zbool. lia.
  - apply kget_Some in Hk as [Hp _]; [|apply Ho]. by apply (swf_retired Ho).
Qed.
Lemma merge_session_wf old s :
  session_ok owned old -> session_ok owned s -> (owned = true -> at_least_as_new old s) ->
  session_ok owned (merge_session old s).
Proof.
  intros Ho Hs Hnew.
  destruct (preserve_paths_fold (s_paths s) (s_paths old) (swf_sorted Hs) (swf_sorted Ho)) as [Hsort Hget].
  split; [|by rewrite merge_session_paths|intros o; by apply merged_retired|].
  - rewrite merge_session_cutoff. pose proof (swf_cutoff Hs). pose proof (swf_cutoff Ho). lia.
  - intros Hl. destruct (Hnew Hl) as [Hc Hg], (swf_owner Hs Hl) as (o & Hin & Hop & Hob).
    rewrite merge_session_paths.
    assert (s_owner (merge_session old s) = s_owner s) as ->.
    { unfold merge_session. cbn. by rewrite (proj2 (Z.ltb_ge _ _)). }
    assert (Ec : kget o_path (s_owner s) (s_paths s) = Some o) by by apply kget_Some; [apply Hs|].
    pose proof (Hget (s_owner s)) as Hk. rewrite Ec in Hk.
    destruct (kget o_path (s_owner s) (s_paths old)) as [p|] eqn:Ep.
    + apply kget_Some in Hk as [Hin' Hk']; [|done]. exists (merge_observation p o).
      split_and!; [done|done|]. specialize (Hg p o Ep Ec). unfold merge_observation.
      rewrite (proj2 (Z.ltb_ge _ _)) by done. destruct (_ && _) eqn:E2; cbn; [|done]. zbool. lia.
    + apply kget_Some in Hk as [Hin' Hk']; [|done]. by exists o.
Qed.

(** Merging two observations keeps the higher generation of both and, within
    it, the smaller of two live births. *)
Lemma merge_observation_keeps p c :
  let m := merge_observation p c in
  (o_generation p <= o_generation m /\
   (o_generation m = o_generation p -> o_birth p <> 0 -> o_birth m <> 0 -> o_birth m <= o_birth p)) /\
  (o_generation c <= o_generation m /\
   (o_generation m = o_generation c -> o_birth c <> 0 -> o_birth m <> 0 -> o_birth m <= o_birth c)).
Proof.
  cbv zeta. unfold merge_observation. destruct (o_generation c <? o_generation p) eqn:E1; zbool; cbn; [lia|].
  destruct (o_generation p =? o_generation c) eqn:E2, (o_birth p =? 0) eqn:E3, (o_birth c =? 0) eqn:E4;
    zbool; cbn; lia.
Qed.
Lemma preserved_marks previous b k : store_ok owned previous -> store_ok owned b ->
  money_marks k (preserve_missing_from previous b) =
  if decide (money_marks k b = 0) then money_marks k previous else money_marks k b.
Proof.
  intros Hp Hb. destruct (preserve_marks_fold _ _ (bwf_marks Hb) (bwf_marks Hp)) as [_ Hmget].
  unfold money_marks. cbn. rewrite Hmget.
  destruct (kget fst k (marks_paths (money b))) as [[k' m]|] eqn:E; cbn; [|done].
  apply kget_Some in E as [Hin _]; [|apply Hb]. pose proof (bwf_nonzero Hb) as Hn.
  rewrite Forall_forall in Hn. specialize (Hn _ Hin). cbn in Hn. by rewrite decide_False.
Qed.
Lemma preserved_valid previous b : store_ok owned previous -> store_ok owned b ->
  (owned = true -> newer_than previous b) ->
  store_ok owned (preserve_missing_from previous b).
Proof.
  intros Hp Hb Hnew. destruct (preserve_marks_fold _ _ (bwf_marks Hb) (bwf_marks Hp)) as [Hmsort Hmget].
  destruct (preserve_sessions_fold _ _ (bwf_sessions Hb) (bwf_sessions Hp)) as [Hssort _].
  split; cbn; [done| |done|].
  - apply Forall_forall. intros m Hm.
    assert (Hk : find_session (s_key m) (preserve_missing_from previous b) = Some m) by (apply kget_Some; [exact Hssort|done]).
    rewrite find_session_preserved in Hk by done. destruct (find_session (s_key m) b) as [s|] eqn:Es.
    + destruct (find_session_wf _ _ _ Hb Es) as (Hswf & _ & _).
      destruct (find_session (s_key m) previous) as [old|] eqn:Eo; [|by simplify_eq].
      destruct (find_session_wf _ _ _ Hp Eo) as (Howf & _ & _). injection Hk as <-.
      apply merge_session_wf; [done|done|]. intros Hl. by eapply (Hnew Hl).
    + by destruct (find_session_wf _ _ _ Hp Hk) as (? & _ & _).
  - apply Forall_forall. intros m Hm.
    assert (Hk : kget fst m.1 (foldl preserve_mark (marks_paths (money b)) (marks_paths (money previous))) = Some m)
      by by apply kget_Some.
    rewrite Hmget in Hk. pose proof (bwf_nonzero Hb) as Hnb. pose proof (bwf_nonzero Hp) as Hnp.
    rewrite Forall_forall in Hnb, Hnp. destruct (kget fst m.1 (marks_paths (money b))) as [m'|] eqn:E.
    + simplify_eq. apply kget_Some in E as [? _]; [auto|apply Hb].
    + apply kget_Some in Hk as [? _]; [auto|apply Hp].
Qed.

End Merged.

Lemma fold_Forall {A B} (P : A -> Prop) (Q : B -> Prop) (f : A -> B -> A) a l :
  P a -> Forall Q l -> (forall a b, P a -> Q b -> P (f a b)) -> P (foldl f a l).
Proof. intros Ha Hl Hf. revert a Ha. induction Hl as [|b l Hb _ IH]; intros a Ha; [done|]. cbn. auto. Qed.
Lemma merge_observation_typed old o : obs_typed old -> obs_typed o -> obs_typed (merge_observation old o).
Proof.
  intros [] []. unfold merge_observation. destruct (_ <? _); [by split|]. destruct (_ && _); [|by split].
  split; cbn; try done; [unfold uint in *; lia|by destruct (_ =? _)|]. destruct (_ =? _); [|done]. cbn. unfold uint in *. lia.
Qed.
Lemma merge_session_typed old s : session_typed old -> session_typed s -> session_typed (merge_session old s).
Proof.
  intros Ho Hs.
  assert (Forall obs_typed (foldl preserve_observation (s_paths s) (s_paths old))).
  { apply (fold_Forall (Forall obs_typed) obs_typed); [apply Hs|apply Ho|]. intros ps o Hps Hob.
    unfold preserve_observation. destruct (bsearch _ _ _); [|by apply insert_at_Forall].
    apply update_at_Forall; [done|]. intros o'. by apply merge_observation_typed. }
  destruct Ho, Hs. unfold merge_session. destruct (_ <? _); by split.
Qed.
Lemma preserve_missing_from_typed previous b :
  store_typed previous -> store_typed b -> store_typed (preserve_missing_from previous b).
Proof.
  intros [P1 P2 P3] [H1 H2 H3]. split; cbn; [|unfold uint in *; lia|].
  - apply (fold_Forall (Forall session_typed) session_typed); [done..|]. intros ss old Hss Hold.
    unfold preserve_session. destruct (bsearch _ _ _); [|by apply insert_at_Forall].
    apply update_at_Forall; [done|]. intros s. by apply merge_session_typed.
  - apply (fold_Forall (Forall (fun m => key16 m.1 /\ u8 m.2)) (fun m => key16 m.1 /\ u8 m.2)); [done..|].
    intros ps m Hps Hm. unfold preserve_mark. destruct (bsearch _ _ _); [done|by apply insert_at_Forall].
Qed.
