(* ===== verification/BirthCodec.v ===== *)
(** The binary form of the Claude birth store reads back as the table that was
    written, and only valid tables are ever read
    (crates/ottto-service/src/snapshots/claude_request_money/birth_store.rs). *)
From S2P Require Import Prelude OrdMap DurableTypes BirthStore BirthLaws.
Local Open Scope Z_scope.

#[local] Arguments to_le_bytes : simpl never.
#[local] Arguments app : simpl never.

(** ** Reading what was written *)
Lemma take_bytes_app n a r : length a = n -> take_bytes n (a ++ r) = Some (a, r).
Proof.
  intros <-. unfold take_bytes. rewrite bool_decide_eq_true_2 by (rewrite length_app; lia).
  by rewrite take_app_length, drop_app_length.
Qed.
Lemma take_int_app n z r : 0 <= z < 256 ^ Z.of_nat n -> take_int n (to_le_bytes n z ++ r) = Some (z, r).
Proof.
  intros Hz. unfold take_int. rewrite take_bytes_app by apply length_to_le_bytes.
  by rewrite from_to_le_bytes, Z.mod_small.
Qed.
Lemma take_u64 z r : u64 z -> take_int 8 (to_le_bytes 8 z ++ r) = Some (z, r).
Proof. intros Hz. apply (take_int_app 8). exact Hz. Qed.
Lemma take_u32 z r : u32 z -> take_int 4 (u32_le z ++ r) = Some (z, r).
Proof. intros Hz. unfold u32_le. rewrite wrap_u_small by done. apply (take_int_app 4). exact Hz. Qed.
Lemma length_u32_le z : length (u32_le z) = 4%nat.
Proof. apply length_to_le_bytes. Qed.
Lemma take_key16 k r : key16 k -> take_bytes 16 (k ++ r) = Some (k, r).
Proof. intros [Hl _]. by apply take_bytes_app. Qed.

Lemma take_many_put {A B} (f : A -> option (list Z)) (g : Input -> option (B * Input)) (h : A -> B) l bs r :
  (forall x b r, x ∈ l -> f x = Some b -> g (b ++ r) = Some (h x, r)) ->
  put_all f l = Some bs -> take_many (length l) g (bs ++ r) = Some (h <$> l, r).
Proof.
  revert bs. induction l as [|x l IH]; intros bs Hg; cbn; [by intros [= <-]|].
  destruct (f x) as [b|] eqn:Ef; [|done]. destruct (put_all f l) as [bs'|] eqn:El; [|done].
  intros [= <-]. rewrite <-app_assoc, (Hg x b) by set_solver.
  rewrite (IH bs'); [done| |done]. intros. apply Hg; set_solver.
Qed.
Lemma put_all_total {A} (f : A -> option (list Z)) l :
  (forall x, x ∈ l -> is_Some (f x)) -> is_Some (put_all f l).
Proof.
  induction l as [|x l IH]; intros H; cbn; [by eexists|].
  destruct (H x) as [b ->]; [set_solver|]. destruct IH as [bs ->]; [intros; apply H; set_solver|]. by eexists.
Qed.
Fixpoint total (ns : list Z) : Z := match ns with [] => 0 | n :: ns => n + total ns end.
Lemma put_all_length {A} (f : A -> option (list Z)) (w : A -> Z) l bs :
  (forall x b, x ∈ l -> f x = Some b -> Z.of_nat (length b) = w x) ->
  put_all f l = Some bs -> Z.of_nat (length bs) = total (w <$> l).
Proof.
  revert bs. induction l as [|x l IH]; intros bs H; cbn; [by intros [= <-]|].
  destruct (f x) as [b|] eqn:Ef; [|done]. destruct (put_all f l) as [bs'|] eqn:El; [|done].
  intros [= <-]. rewrite length_app, Nat2Z.inj_add, (H x b) by set_solver.
  rewrite (IH bs'); [done| |done]. intros. apply H; [set_solver|done].
Qed.
Lemma total_at_least ns c : 0 <= c -> Forall (fun n => c <= n) ns -> c * Z.of_nat (length ns) <= total ns.
Proof. intros Hc. induction 1; cbn [total length]; lia. Qed.
Lemma total_elem ns n : Forall (fun n => 0 <= n) ns -> n ∈ ns -> n <= total ns.
Proof.
  induction 1 as [|m ns Hm Hns IH]; [by intros ?%not_elem_of_nil|].
  assert (0 <= total ns) by (clear -Hns; induction Hns; cbn; lia).
  intros [->|Hn]%elem_of_cons; cbn; [lia|]. specialize (IH Hn). lia.
Qed.

(** ** Exact sizes *)
Definition known (o : Observation) : bool := negb (object (o_identity o) =? 0).
Definition obs_weight (o : Observation) : Z := 28 + (if known o then 12 else 0).
Definition session_weight (s : Session) : Z := 52 + total (obs_weight <$> s_paths s).
Definition store_weight (b : BirthStore) : Z :=
  8 + total (session_weight <$> sessions b) + (6 + 17 * Z.of_nat (length (marks_paths (money b)))).

Lemma obs_weight_bounds o : 28 <= obs_weight o <= 40.
Proof. unfold obs_weight. destruct (known o); lia. Qed.
Lemma session_weight_paths s : 28 * Z.of_nat (length (s_paths s)) <= session_weight s - 52.
Proof.
  unfold session_weight. rewrite <-(length_fmap obs_weight).
  pose proof (total_at_least (obs_weight <$> s_paths s) 28) as H.
  rewrite length_fmap in *. assert (Forall (fun n => 28 <= n) (obs_weight <$> s_paths s)).
  { apply Forall_fmap, Forall_true. intros o. apply obs_weight_bounds. } specialize (H ltac:(lia) ltac:(done)). lia.
Qed.
Lemma session_weight_pos s : 52 <= session_weight s.
Proof. pose proof (session_weight_paths s). lia. Qed.
Lemma obs_weights ps :
  total (obs_weight <$> ps) =
    28 * Z.of_nat (length ps) + 12 * Z.of_nat (length (filter (fun o => negb (object (o_identity o) =? 0) = true) ps)).
Proof.
  induction ps as [|o ps IH]; [done|]. rewrite fmap_cons. cbn [total length]. rewrite IH, filter_cons.
  unfold obs_weight, known. destruct (negb (object (o_identity o) =? 0)).
  - rewrite decide_True by done. cbn [length]. lia.
  - rewrite decide_False by done. lia.
Qed.

Lemma session_len_eq n s :
  0 <= n -> n + session_weight s < 2 ^ 64 -> session_len n s = Some (n + session_weight s).
Proof.
  intros Hn Hs. unfold session_len. unfold session_weight in *. rewrite obs_weights in *.
  set (p := Z.of_nat (length (s_paths s))) in *. set (i := Z.of_nat (length (filter _ _))) in *.
  assert (0 <= p /\ 0 <= i) as [? ?] by (unfold p, i; lia).
  rewrite (checked_add_eq 64 n 52), (proj2 (Z.ltb_lt (n + 52) _)) by lia.
  unfold checked_mul. rewrite (try_uint_ok 64 (p * 28)) by (unfold uint; lia).
  rewrite checked_add_eq, (proj2 (Z.ltb_lt (n + 52 + p * 28) _)) by lia.
  rewrite (try_uint_ok 64 (i * 12)) by (unfold uint; lia).
  rewrite checked_add_eq, (proj2 (Z.ltb_lt (n + 52 + p * 28 + i * 12) _)) by lia. f_equal. lia.
Qed.
Lemma try_fold_weights n ss :
  0 <= n -> n + total (session_weight <$> ss) < 2 ^ 64 ->
  try_fold session_len n ss = Some (n + total (session_weight <$> ss)).
Proof.
  revert n. induction ss as [|s ss IH]; intros n Hn Hlt; cbn in *; [f_equal; lia|].
  assert (0 <= total (session_weight <$> ss)).
  { clear. induction ss; cbn; [done|]. pose proof (session_weight_pos a). lia. }
  pose proof (session_weight_pos s). rewrite session_len_eq by lia. rewrite IH by lia. f_equal. lia.
Qed.
Lemma store_byte_len_eq b : store_weight b < 2 ^ 64 -> store_byte_len b = Some (store_weight b).
Proof.
  intros Hw. unfold store_byte_len, store_weight in *.
  assert (0 <= total (session_weight <$> sessions b)).
  { generalize (sessions b). clear. induction l; cbn; [done|]. pose proof (session_weight_pos a). lia. }
  rewrite try_fold_weights by lia. unfold checked_mul. rewrite try_uint_ok by (unfold uint; lia).
  rewrite checked_add_eq, (proj2 (Z.ltb_lt _ _)) by lia. f_equal. lia.
Qed.

(** ** One record at a time *)
(** What is read back: an unknown object keeps no extent. *)
Definition norm_observation (o : Observation) : Observation :=
  mkObs (o_path o) (o_birth o) (o_generation o) (if known o then o_identity o else identity_default).
Definition norm_session (s : Session) : Session := with_paths (norm_observation <$> s_paths s) s.
Definition norm_store (b : BirthStore) : BirthStore := mkStore (norm_session <$> sessions b) [] (money b).

Lemma tagged_bits g k :
  Z.land (g * 2 + Z.b2z k) 1 = Z.b2z k /\ Z.shiftr (g * 2 + Z.b2z k) 1 = g.
Proof.
  rewrite land_1, Z.shiftr_div_pow2 by lia. change (2 ^ 1) with 2.
  rewrite Z.add_comm. rewrite Z.mod_add, Z.div_add by lia. destruct k; cbn [Z.b2z]; split; try done.
Qed.

Section RoundTrip.
Context (sha256 : list Z -> list Z).

Lemma put_observation_total o : obs_typed o -> is_Some (put_observation o).
Proof. intros []. unfold put_observation. rewrite (proj2 (Z.ltb_ge _ _)) by lia. by eexists. Qed.
Lemma put_observation_length o b :
  obs_typed o -> put_observation o = Some b -> Z.of_nat (length b) = obs_weight o.
Proof.
  intros [[Hp _] _ _ _ _]. unfold put_observation. destruct (_ <? _); [done|]. intros [= <-].
  unfold obs_weight, known. rewrite !length_app, Hp, length_to_le_bytes, length_u32_le.
  destruct (negb (object (o_identity o) =? 0)); [rewrite length_app, !length_to_le_bytes|]; cbn; lia.
Qed.
Lemma take_put_observation v o b r :
  current_layout v = true -> obs_typed o -> put_observation o = Some b ->
  take_observation sha256 v (b ++ r) = Some (norm_observation o, r).
Proof.
  intros Hv [Hp Hb Hg Ho Hs]. unfold put_observation. destruct (_ <? _) eqn:E; [done|]. zbool.
  intros [= <-]. unfold take_observation. rewrite <-!app_assoc, take_key16 by done.
  rewrite take_u64 by done.
  assert (take_generation v = take_int 4) as -> by by destruct v.
  set (k := negb (object (o_identity o) =? 0)).
  assert (Hk : 0 <= Z.b2z k <= 1) by by destruct k.
  rewrite take_u32 by (change MAX_GENERATION with 2147483647 in Hg; unfold uint; lia).
  assert (tagged_layout v = true) as -> by by destruct v.
  destruct (tagged_bits (o_generation o) k) as [-> ->].
  unfold take_identity. rewrite Hv. rewrite (proj2 (Z.ltb_ge _ _)) by lia.
  unfold norm_observation. change (known o) with k. destruct k eqn:Ek; cbn [andb negb Z.b2z Z.eqb].
  - rewrite <-app_assoc, take_u64 by done. rewrite (take_int_app 4) by done.
    by destruct o as [? ? ? []].
  - done.
Qed.

Lemma put_session_total s : session_typed s -> is_Some (put_session s).
Proof.
  intros [_ _ _ _ Hps]. unfold put_session. destruct (put_all_total put_observation (s_paths s)) as [bs ->];
    [|by eexists]. intros o Ho. rewrite Forall_forall in Hps. by apply put_observation_total, Hps.
Qed.
Lemma put_session_length s b :
  session_typed s -> put_session s = Some b -> Z.of_nat (length b) = session_weight s.
Proof.
  intros [[Hk _] [Ho _] _ _ Hps]. unfold put_session.
  destruct (put_all put_observation (s_paths s)) as [bs|] eqn:E; [|done]. intros [= <-].
  apply (put_all_length _ obs_weight) in E.
  - unfold session_weight. rewrite !length_app, Hk, Ho, !length_to_le_bytes, length_u32_le. lia.
  - intros o x Hin. rewrite Forall_forall in Hps. by apply put_observation_length, Hps.
Qed.
Lemma take_put_session v s b r :
  current_layout v = true -> session_typed s -> session_weight s < 2 ^ 32 -> put_session s = Some b ->
  take_session sha256 v (b ++ r) = Some (norm_session s, r).
Proof.
  intros Hv Ht Hw. pose proof (session_weight_paths s) as Hn.
  unfold put_session. destruct (put_all put_observation (s_paths s)) as [bs|] eqn:E; [|done].
  intros [= <-]. destruct Ht as [Hk Ho Hc Ha Hps]. unfold take_session.
  rewrite <-!app_assoc, !take_key16 by done. rewrite !take_u64 by done.
  rewrite take_u32 by (unfold uint; lia).
  assert (Hlen : Z.of_nat (length bs) = total (obs_weight <$> s_paths s)).
  { apply (put_all_length _ obs_weight) in E; [done|]. intros o x Hin. rewrite Forall_forall in Hps.
    by apply put_observation_length, Hps. }
  assert (record_bytes v = 28) as -> by by destruct v.
  rewrite (proj2 (Z.ltb_ge _ _)).
  - rewrite Nat2Z.id, (take_many_put put_observation (take_observation sha256 v) norm_observation); [done| |done].
    intros o x r' Hin Hx. rewrite Forall_forall in Hps. by apply take_put_observation; [|apply Hps|].
  - rewrite length_app. unfold session_weight in Hn. apply Z.div_le_lower_bound; lia.
Qed.

Lemma norm_session_wf owned s : session_ok owned s -> session_ok owned (norm_session s).
Proof.
  intros [Hc Hs Hr Hown]. split; cbn; [done|by apply (ksorted_map o_path norm_observation)| |].
  - intros x (y & -> & Hy)%list_elem_of_fmap. exact (Hr y Hy).
  - intros Hl. destruct (Hown Hl) as (o & Ho & Hp & Hb). exists (norm_observation o). split_and!; [apply list_elem_of_fmap; by exists o|done|done].
Qed.
Lemma norm_store_wf owned b : store_ok owned b -> store_ok owned (norm_store b).
Proof.
  intros [H1 H2 H3 H4]. split; cbn; [by apply (ksorted_map s_key norm_session)| |done|done].
  apply Forall_fmap. eapply Forall_impl; [exact H2|]. intros s. apply norm_session_wf.
Qed.

Lemma take_put_mark m b r :
  key16 m.1 /\ u8 m.2 -> put_mark m = Some b -> take_mark (b ++ r) = Some (m, r).
Proof.
  intros [Hk Hm] [= <-]. unfold take_mark. rewrite <-app_assoc, take_key16 by done.
  assert ([m.2] = to_le_bytes 1 m.2) as ->.
  { unfold to_le_bytes. by rewrite Z.mod_small. }
  rewrite take_int_app by done. by destruct m.
Qed.

Lemma cmb_of_cmb_bytes v : cmb_of_bytes (cmb_bytes v) = Some v.
Proof. by destruct v. Qed.

Lemma store_bytes_decode b :
  store_typed b -> store_weight b < 2 ^ 32 ->
  exists bytes, store_bytes b = Some bytes /\ decode_bytes sha256 bytes = valid (norm_store b) /\
    Z.of_nat (length bytes) <= store_weight b.
Proof.
  intros [Hss Hver Hms] Hw.
  assert (Hpos : Forall (fun n => 0 <= n) (session_weight <$> sessions b)).
  { apply Forall_fmap, Forall_true. intros s. pose proof (session_weight_pos s). cbn. lia. }
  assert (Hcount : 52 * Z.of_nat (length (sessions b)) <= total (session_weight <$> sessions b)).
  { rewrite <-(length_fmap session_weight). apply total_at_least; [lia|]. apply Forall_fmap, Forall_true.
    intros s. apply session_weight_pos. }
  unfold store_weight in Hw.
  destruct (put_all_total put_session (sessions b)) as [ss Ess].
  { intros s Hs. rewrite Forall_forall in Hss. by apply put_session_total, Hss. }
  destruct (put_all_total put_mark (marks_paths (money b))) as [ms Ems]; [by eexists|].
  pose proof Ess as Lss. apply (put_all_length _ session_weight) in Lss.
  2: { intros s x Hs. rewrite Forall_forall in Hss. by apply put_session_length, Hss. }
  pose proof Ems as Lms. apply (put_all_length _ (fun _ => 17)) in Lms.
  2: { intros m x Hm [= <-]. rewrite Forall_forall in Hms. destruct (Hms m Hm) as [[Hl _] _].
       rewrite length_app, Hl. done. }
  assert (total ((fun _ : LocationKey * Z => 17) <$> marks_paths (money b)) =
    17 * Z.of_nat (length (marks_paths (money b)))) as Hm17.
  { generalize (marks_paths (money b)). clear. intros l. induction l as [|? l IH]; [done|].
    rewrite fmap_cons. cbn [total length]. lia. }
  rewrite Hm17 in Lms.
  unfold store_bytes. rewrite store_byte_len_eq by (unfold store_weight; lia). rewrite Ess, Ems.
  eexists. split; [done|]. split.
  - unfold decode_bytes. rewrite take_bytes_app by by destruct (marked b).
    rewrite cmb_of_cmb_bytes. rewrite take_u32 by (unfold uint; lia).
    rewrite (proj2 (Z.ltb_ge _ _)) by (rewrite length_app; apply Z.div_le_lower_bound; lia).
    rewrite Nat2Z.id.
    rewrite (take_many_put put_session (take_session sha256 _) norm_session); [| |done].
    + unfold take_marks. destruct (marked b) eqn:Em.
      * rewrite decide_True by done. rewrite (take_int_app 2) by done.
        rewrite take_u32 by (unfold uint; lia). rewrite bool_decide_eq_true_2.
        2: { unfold checked_mul. rewrite try_uint_ok by (unfold uint; lia). f_equal. lia. }
        rewrite Nat2Z.id. pose proof (take_many_put put_mark take_mark id (marks_paths (money b)) ms []) as H.
        rewrite app_nil_r in H. rewrite H; [| |done].
        2: { intros m x r Hm. rewrite Forall_forall in Hms. by apply take_put_mark, Hms. }
        rewrite list_fmap_id. rewrite bool_decide_eq_true_2 by done.
        assert (mkMarks (marks_version (money b)) (marks_paths (money b)) = money b) as -> by by destruct (money b).
        done.
      * rewrite decide_False by done. rewrite bool_decide_eq_true_2 by done.
        unfold marked in Em. zbool. apply bool_decide_eq_true in H0.
        assert (mkMarks 0 [] = money b) as ->.
        { destruct (money b); cbn in *; congruence. }
        done.
    + intros s x r Hs Hx. rewrite Forall_forall in Hss. apply take_put_session; [|by apply Hss| |done].
      * by destruct (marked b).
      * pose proof (total_elem _ (session_weight s) Hpos) as He.
        assert (session_weight s ∈ session_weight <$> sessions b) by (apply list_elem_of_fmap; by exists s).
        specialize (He ltac:(done)). lia.
  - rewrite !length_app, length_u32_le. unfold store_weight. destruct (marked b); cbn [length];
      rewrite ?length_app, ?length_to_le_bytes, ?length_u32_le; cbn; lia.
Qed.
End RoundTrip.

(** ** Only bytes are written *)
Lemma put_all_u8 {A} (f : A -> option (list Z)) l bs :
  (forall x b, x ∈ l -> f x = Some b -> Forall u8 b) -> put_all f l = Some bs -> Forall u8 bs.
Proof.
  revert bs. induction l as [|x l IH]; intros bs H; cbn; [by intros [= <-]|].
  destruct (f x) as [b|] eqn:Ef; [|done]. destruct (put_all f l) as [bs'|] eqn:El; [|done].
  intros [= <-]. apply Forall_app. split; [by eapply (H x); [left|]|]. apply IH; [|done].
  intros y b' Hy. apply H. by right.
Qed.
Lemma put_observation_u8 o b : obs_typed o -> put_observation o = Some b -> Forall u8 b.
Proof.
  intros [[_ Hp] _ _ _ _]. unfold put_observation, u32_le. destruct (_ <? _); [done|]. intros [= <-].
  rewrite !Forall_app. split_and!; [done|apply to_le_bytes_u8..|]. destruct (negb _); [|constructor].
  apply Forall_app. split; apply to_le_bytes_u8.
Qed.
Lemma put_session_u8 s b : session_typed s -> put_session s = Some b -> Forall u8 b.
Proof.
  intros [[_ Hk] [_ Ho] _ _ Hps]. unfold put_session, u32_le. destruct (put_all _ _) as [ps|] eqn:E; [|done].
  intros [= <-]. rewrite !Forall_app. split_and!; [done..|apply to_le_bytes_u8|apply to_le_bytes_u8|apply to_le_bytes_u8|].
  eapply put_all_u8; [|exact E]. intros o x Hx. rewrite Forall_forall in Hps. by apply put_observation_u8, Hps.
Qed.
Lemma cmb_bytes_u8 v : Forall u8 (cmb_bytes v).
Proof. destruct v; repeat (constructor; [split; [discriminate|reflexivity]|]); constructor. Qed.
Lemma store_bytes_u8 b bytes : store_typed b -> store_bytes b = Some bytes -> Forall u8 bytes.
Proof.
  intros [Hs Hv Hm]. unfold store_bytes, u32_le. destruct (store_byte_len b); [|done].
  destruct (put_all put_session _) as [ss|] eqn:Es; [|done]. destruct (put_all put_mark _) as [ms|] eqn:Em; [|done].
  intros [= <-]. rewrite !Forall_app. split_and!; [apply cmb_bytes_u8|apply to_le_bytes_u8| |].
  - eapply put_all_u8; [|exact Es]. intros s x Hx. rewrite Forall_forall in Hs. by apply put_session_u8, Hs.
  - destruct (marked b); [|constructor]. rewrite !Forall_app. split_and!; [apply to_le_bytes_u8..|].
    eapply put_all_u8; [|exact Em]. intros m x Hx [= <-]. rewrite Forall_forall in Hm. destruct (Hm m Hx) as [[_ Hk] H8].
    apply Forall_app. split; [done|by apply Forall_singleton].
Qed.

(** ** What is read has the widths of its types *)
Lemma take_bytes_u8 n i a r : take_bytes n i = Some (a, r) -> Forall u8 i -> length a = n /\ Forall u8 a /\ Forall u8 r.
Proof.
  unfold take_bytes. case_bool_decide; [|done]. intros [= <- <-] Hi.
  split_and!; [rewrite length_take; lia|by apply Forall_take|by apply Forall_drop].
Qed.
Lemma take_int_bound n i z r : take_int n i = Some (z, r) -> Forall u8 i -> 0 <= z < 256 ^ Z.of_nat n /\ Forall u8 r.
Proof.
  unfold take_int. destruct (take_bytes n i) as [[a r']|] eqn:E; [|done]. intros [= <- <-] Hi.
  destruct (take_bytes_u8 _ _ _ _ E Hi) as (Hl & Ha & Hr). split; [|done].
  apply from_le_bytes_bound in Ha. unfold DurableCodec.slice_len in Ha. by rewrite Hl in Ha.
Qed.
Lemma take_many_Forall {A} (P : A -> Prop) (f : Input -> option (A * Input)) n i xs r :
  (forall i x r, f i = Some (x, r) -> Forall u8 i -> P x /\ Forall u8 r) ->
  take_many n f i = Some (xs, r) -> Forall u8 i -> Forall P xs /\ Forall u8 r.
Proof.
  intros Hf. revert i xs r. induction n as [|n IH]; intros i xs r; cbn; [by intros [= <- <-]|].
  destruct (f i) as [[x j]|] eqn:Ef; [|done]. destruct (take_many n f j) as [[ys k]|] eqn:Em; [|done].
  intros [= <- <-] Hi. destruct (Hf _ _ _ Ef Hi) as [Hx Hj]. destruct (IH _ _ _ Em Hj) as [? ?].
  split; [by constructor|done].
Qed.
Ltac take_step := match goal with
  | H : Forall u8 ?i, E : take_bytes _ ?i = Some (_, _) |- _ =>
      let L := fresh "L" in let U := fresh "U" in let R := fresh "R" in
      destruct (take_bytes_u8 _ _ _ _ E H) as (L & U & R); clear E
  | H : Forall u8 ?i, E : take_int _ ?i = Some (_, _) |- _ =>
      let B := fresh "B" in let R := fresh "R" in destruct (take_int_bound _ _ _ _ E H) as (B & R); clear E
  | |- context [match take_bytes ?n ?i with _ => _ end] => let E := fresh "E" in destruct (take_bytes n i) as [[? ?]|] eqn:E; [|done]
  | |- context [match take_int ?n ?i with _ => _ end] => let E := fresh "E" in destruct (take_int n i) as [[? ?]|] eqn:E; [|done]
  end.

Section DecodeTyped.
Context (sha256 : list Z -> list Z).
Context (Hsha : forall bs, length (sha256 bs) = 32%nat /\ Forall u8 (sha256 bs)).

Lemma take_identity_typed v k i x r :
  take_identity sha256 v k i = Some (x, r) -> Forall u8 i -> (u64 (object x) /\ u32 (size x)) /\ Forall u8 r.
Proof.
  unfold take_identity. intros H Hi. revert H.
  destruct k; [|by intros [= <- <-]]. destruct (current_layout v); repeat take_step; intros [= <- <-]; cbn;
    (split; [split|done]); [exact B|exact B0|by apply identity_object_u64|exact B0].
Qed.
Lemma take_generation_bound v i g r : take_generation v i = Some (g, r) -> Forall u8 i -> 0 <= g /\ Forall u8 r.
Proof.
  intros H Hi. destruct v; cbn in H; [by simplify_eq|..];
    by destruct (take_int_bound _ _ _ _ H Hi) as [[? _] ?].
Qed.
Lemma take_observation_typed v i o r :
  take_observation sha256 v i = Some (o, r) -> Forall u8 i -> obs_typed o /\ Forall u8 r.
Proof.
  unfold take_observation. intros H Hi. revert H. repeat take_step.
  destruct (take_generation v _) as [[g j]|] eqn:Eg; [|done].
  destruct (take_generation_bound _ _ _ _ Eg) as [Hg Hj]; [done|].
  set (gen := if tagged_layout v then _ else _).
  destruct (take_identity _ _ _ _) as [[x k]|] eqn:Ei; [|done].
  destruct (take_identity_typed _ _ _ _ _ Ei Hj) as [[Ho Hz] Hk].
  destruct (MAX_GENERATION <? gen) eqn:Em; [done|]. zbool. intros [= <- <-]. split; [|done].
  split; cbn; try done. split; [|done]. unfold gen. destruct (tagged_layout v); [|done]. by apply Z.shiftr_nonneg.
Qed.
Lemma take_session_typed v i s r :
  take_session sha256 v i = Some (s, r) -> Forall u8 i -> session_typed s /\ Forall u8 r.
Proof.
  unfold take_session. intros H Hi. revert H. repeat take_step.
  destruct (_ <? _); [done|]. destruct (take_many _ _ _) as [[ps j]|] eqn:Em; [|done]. intros [= <- <-].
  destruct (take_many_Forall obs_typed _ _ _ _ _ (take_observation_typed v) Em) as [Hp Hj]; [done|].
  split; [|done]. by split.
Qed.
Lemma take_marks_typed v i m r :
  take_marks v i = Some (m, r) -> Forall u8 i ->
  u16 (marks_version m) /\ Forall (fun m => key16 m.1 /\ u8 m.2) (marks_paths m).
Proof.
  unfold take_marks. intros H Hi. revert H. case_decide; [|by intros [= <- <-]]. repeat take_step.
  case_bool_decide; [|done]. destruct (take_many _ _ _) as [[ps j]|] eqn:Em; [|done]. intros [= <- <-].
  split; [exact B|]. refine (proj1 (take_many_Forall _ _ _ _ _ _ _ Em _)); [|done].
  intros i' x r'. unfold take_mark. intros H' Hi'. revert H'. repeat take_step. intros [= <- <-].
  split; [|done]. by split; [split|].
Qed.
Lemma decode_bytes_typed bytes b : Forall u8 bytes -> decode_bytes sha256 bytes = Some b -> store_wf b /\ store_typed b.
Proof.
  intros Hb. unfold decode_bytes. repeat take_step. destruct (cmb_of_bytes _) as [v|]; [|done]. repeat take_step.
  destruct (_ <? _); [done|]. destruct (take_many _ _ _) as [[ss j]|] eqn:Es; [|done].
  destruct (take_many_Forall session_typed _ _ _ _ _ (take_session_typed v) Es) as [Hs Hj]; [done|].
  destruct (take_marks v j) as [[m k]|] eqn:Em; [|done]. destruct (take_marks_typed _ _ _ _ Em Hj) as [Hv Hm].
  case_bool_decide; [|done]. intros [-> Hw]%valid_Some. split; [done|]. by split.
Qed.
End DecodeTyped.
Lemma store_wf_ok owned b : store_wf b -> store_ok owned b.
Proof.
  intros [H1 H2 H3 H4]. split; try done. eapply Forall_impl; [exact H2|].
  intros s [? ? ? Hown]. split; try done. intros _. by apply Hown.
Qed.

(** ** The tables the operations reach *)
Section Reachable.
Context (sha256 : list Z -> list Z).
Context (Hsha : forall bs, length (sha256 bs) = 32%nat /\ Forall u8 (sha256 bs)).
Context (b64_decode : list Z -> option (list Z)).
Context (Hb64_u8 : forall text bs, b64_decode text = Some bs -> Forall u8 bs).

Inductive store_step : BirthStore -> BirthStore -> Prop :=
| StepObserve session path birth b : store_step b (record_observation sha256 session path birth b)
| StepOpened session path birth opened b : store_step b (record_opened sha256 session path birth opened b)
| StepStage session path opened b : store_step b (stage_opened sha256 session path opened b)
| StepPage b : store_step b (begin_page b)
| StepMove session from to b : store_step b (record_proven_move sha256 session from to b).1
| StepDiscovered session from to opened b :
    store_step b (record_discovered_move sha256 session from to opened b).1
| StepVersion v b : u16 v -> store_step b (set_money_rule_version v b)
| StepMarks path marks b : u8 marks -> store_step b (set_money_marks sha256 path marks b)
| StepRetain live b : store_step b (retain_money_marks live b)
| StepPrune now indexed b : u64 now -> store_step b (prune sha256 now indexed b).

Lemma store_step_wf owned b b' :
  store_step b b' -> store_ok owned b -> store_typed b -> store_ok owned b' /\ store_typed b'.
Proof.
  destruct 1; intros Hw Ht.
  - split; [by apply record_observation_wf|by apply record_observation_typed].
  - split; [by apply record_opened_wf|by apply record_opened_typed].
  - split; [by apply stage_opened_wf|by apply stage_opened_typed].
  - destruct Hw, Ht. by split.
  - split; [by apply record_proven_move_wf|by eapply record_proven_move_typed].
  - unfold record_discovered_move. destruct (can_record_discovered_move _ _ _ _ _ _); [|done].
    pose proof (record_opened_wf (owned:=owned) sha256 session to (opened_birth opened) opened b Hw).
    pose proof (record_opened_typed sha256 Hsha session to (opened_birth opened) opened b Ht).
    split; [by apply record_proven_move_wf|by eapply record_proven_move_typed].
  - destruct Hw, Ht. by split.
  - split; [by apply set_money_marks_wf|by apply set_money_marks_typed].
  - split; [by apply retain_money_marks_wf|]. destruct Ht as [? ? Hmarks]. split; cbn; try done.
    apply Forall_forall. intros m [_ Hm]%list_elem_of_filter. rewrite Forall_forall in Hmarks. auto.
  - split; [by apply prune_wf|by apply prune_typed].
Qed.

(** Tables loaded from a saved text, updates of a table, and merges of one
    reachable table into another; with [owned], every merge is into a table at
    least as new as the merged one. *)
Inductive store_reachable (owned : bool) : BirthStore -> Prop :=
| StoreNew : store_reachable owned store_default
| StoreLoad text b : deserialize_store sha256 b64_decode text = Some b -> store_reachable owned b
| StoreStep b b' : store_reachable owned b -> store_step b b' -> store_reachable owned b'
| StoreMerge previous b :
    store_reachable owned previous -> store_reachable owned b -> (owned = true -> newer_than previous b) ->
    store_reachable owned (preserve_missing_from previous b).
Lemma store_reachable_wf owned b : store_reachable owned b -> store_ok owned b /\ store_typed b.
Proof.
  induction 1 as [|text b Hd|b b' _ [Hw Ht] Hs|previous b _ [Hp Htp] _ [Hb Htb] Hn]; [| |by eapply store_step_wf|].
  - split; split; try done; constructor.
  - unfold deserialize_store in Hd. destruct (_ <? _); [done|].
    destruct (b64_decode text) as [bs|] eqn:Eb; [|done].
    destruct (decode_bytes_typed sha256 Hsha bs b) as [Hw Ht]; [by eapply Hb64_u8|done|].
    split; [by apply store_wf_ok|done].
  - split; [by apply preserved_valid|by apply preserve_missing_from_typed].
Qed.
End Reachable.
