(* ===== verification/BirthTheorems.v ===== *)
(** What the Claude birth store promises: observations keep minima, proven
    moves retire their source for good, merges lose nothing, prunes keep
    exactly the live and the recently absent sessions, and every reachable
    table survives a save and a load
    (crates/ottto-service/src/snapshots/claude_request_money/birth_store.rs). *)
From S2P Require Import Prelude OrdMap DurableTypes BirthStore BirthLaws BirthCodec.
Local Open Scope Z_scope.

(** A digest function with 32-byte digests, to evaluate the definitions. *)
Definition toy_sha256 (bs : list Z) : list Z :=
  take 32 (((fun b => b mod 256) <$> reverse bs) ++ replicate 32 0).
Lemma toy_sha256_ok bs : length (toy_sha256 bs) = 32%nat /\ Forall u8 (toy_sha256 bs).
Proof.
  unfold toy_sha256. split.
  - rewrite length_take, length_app, length_replicate. lia.
  - apply Forall_take, Forall_app. split; [|by apply Forall_replicate].
    apply Forall_fmap, Forall_true. intros b. cbn. unfold uint. pose proof (Z.mod_pos_bound b 256). lia.
Qed.

Section Theorems.
Context (sha256 : list Z -> list Z).
Abbreviation location_key := (location_key sha256).
Abbreviation session_key := (session_key sha256).
Abbreviation record_observation := (record_observation sha256).
Abbreviation observed_birth := (observed_birth sha256).

(** ** Lookups after an observation *)
Lemma find_session_observed sk session path birth b :
  store_wf b -> u64 birth -> birth <> 0 ->
  find_session sk (record_observation session path birth b) =
    if decide (sk = session_key session)
    then Some match find_session sk b with
              | Some s => observe_session (location_key path) birth s
              | None => mkSession sk (location_key path) birth 0
                          [mkObs (location_key path) birth 0 identity_default]
              end
    else find_session sk b.
Proof.
  intros Hw Hu Hb. unfold record_observation, find_session. rewrite try_uint_ok by done.
  rewrite (proj2 (Z.eqb_neq _ _)) by done. pose proof (bwf_sessions Hw) as Hs.
  destruct (bsearch s_key (session_key session) (sessions b)) as [i|i] eqn:Eb; cbn [sessions with_sessions].
  - rewrite (kget_update_at s_key (observe_session (location_key path) birth)) with (k := session_key session);
      [|intros s; unfold observe_session; destruct (observe_paths _ _ _); by destruct (_ <? _)|done|done].
    case_decide as Hd; case_decide; try done. subst sk.
    destruct (kget s_key (session_key session) (sessions b)) as [s|] eqn:E; [done|].
    rewrite (bsearch_found_kget _ _ _ _ Eb) in E. apply bsearch_found_lt in Eb.
    by apply lookup_ge_None in E; lia.
  - rewrite (kget_insert_at s_key sk) by done. cbn. case_decide as Hd; case_decide; try done. subst sk.
    by rewrite (bsearch_missing_kget _ _ _ _ Eb).
Qed.

Definition path_birth (pk : LocationKey) (s : Session) : option Z :=
  try? o := observation_of pk s in if o_birth o =? 0 then None else Some (o_birth o).
Lemma observed_birth_path session path b :
  observed_birth session path b = (try? s := get sha256 session b in path_birth (location_key path) s).
Proof. done. Qed.

Lemma path_birth_observe pk pk' birth s :
  session_wf s -> birth <> 0 ->
  path_birth pk' (observe_session pk birth s) =
    if decide (pk' = pk)
    then Some match path_birth pk s with Some m => Z.min m birth | None => birth end
    else path_birth pk' s.
Proof.
  intros Hw Hb. unfold observe_session. pose proof (observe_paths_spec pk birth (s_paths s) (swf_sorted Hw) Hb) as H.
  pose proof (observed_nonzero pk birth (s_paths s) (swf_sorted Hw) Hb) as Hne.
  destruct (observe_paths pk birth (s_paths s)) as [ps obs]. cbn in Hne.
  destruct H as (_ & (o & _ & _ & Ho & Hget) & Hobs & Hother & _).
  assert (Hp : path_birth pk' (if obs <? s_cutoff (with_paths ps s) then with_owner pk obs 0 (with_paths ps s)
    else with_owner (s_owner (with_paths ps s)) (s_cutoff (with_paths ps s)) 0 (with_paths ps s))
    = (try? o := kget o_path pk' ps in if o_birth o =? 0 then None else Some (o_birth o)))
    by by destruct (_ <? _).
  rewrite Hp. case_decide as Hd.
  - subst pk'. rewrite Hget, Ho, (proj2 (Z.eqb_neq _ _)) by done. f_equal. rewrite Hobs.
    unfold path_birth, observation_of. destruct (kget o_path pk (s_paths s)) as [o'|]; [|done].
    by destruct (o_birth o' =? 0).
  - by rewrite (Hother pk') by done.
Qed.

(** The session cutoff is the smallest birth ever effective for it. *)
Lemma cutoff_observe pk birth s :
  session_wf s -> birth <> 0 ->
  s_cutoff (observe_session pk birth s) =
    Z.min (s_cutoff s) (default birth (path_birth pk (observe_session pk birth s))).
Proof.
  intros Hw Hb. rewrite path_birth_observe by done. rewrite decide_True by done. cbn.
  unfold observe_session. pose proof (observe_paths_spec pk birth (s_paths s) (swf_sorted Hw) Hb) as H.
  destruct (observe_paths pk birth (s_paths s)) as [ps obs]. destruct H as (_ & _ & Hobs & _).
  assert (match path_birth pk s with Some m => Z.min m birth | None => birth end = obs) as ->.
  { rewrite Hobs. unfold path_birth, observation_of. destruct (kget o_path pk (s_paths s)) as [o'|]; [|done].
    by destruct (o_birth o' =? 0). }
  destruct (obs <? s_cutoff (with_paths ps s)) eqn:E; cbn in *; zbool; lia.
Qed.

(** Recording a physical birth makes the path remember the smaller of the
    births it ever observed, lowers the session's cutoff to it when it is
    earlier, leaves every other path and session as it was, and keeps the
    table valid; a birth that is zero or not a [u64] changes nothing. *)
Theorem observation_keeps_minimum session path birth b :
  store_wf b ->
  let b' := record_observation session path birth b in
  store_wf b' /\
  (~ u64 birth \/ birth = 0 -> b' = b) /\
  (u64 birth -> birth <> 0 ->
   observed_birth session path b' =
     Some match observed_birth session path b with Some m => Z.min m birth | None => birth end /\
   (exists c, session_effective_cutoff sha256 session b' = Some c /\
      (forall c0, session_effective_cutoff sha256 session b = Some c0 -> c <= c0)) /\
   (forall session' path', session_key session' <> session_key session \/ location_key path' <> location_key path ->
      observed_birth session' path' b' = observed_birth session' path' b)).
Proof.
  intros Hw b'. split; [by apply record_observation_wf|]. split.
  { unfold b', BirthStore.record_observation. intros Hb. destruct (try_uint 64 birth) as [n|] eqn:E; [|done].
    apply try_uint_Some in E as [-> Hu]. destruct Hb as [?| ->]; [done|]. done. }
  intros Hu Hb. pose proof (fun sk => find_session_observed sk session path birth b Hw Hu Hb) as Hf.
  fold b' in Hf. unfold observed_birth, session_effective_cutoff, get in *.
  fold (path_birth (location_key path)).
  split_and!.
  - rewrite Hf, decide_True by done. destruct (find_session (session_key session) b) as [s|] eqn:E.
    + apply (find_session_wf (owned:=true)) in E as (Hs & _); [|done].
      pose proof (path_birth_observe (location_key path) (location_key path) birth s Hs Hb) as Hp.
      rewrite decide_True in Hp by done. exact Hp.
    + cbn. unfold observation_of, kget. cbn. rewrite rcmp_refl. cbn. by rewrite (proj2 (Z.eqb_neq _ _)).
  - rewrite Hf, decide_True by done. destruct (find_session (session_key session) b) as [s|] eqn:E; cbn.
    + eexists. split; [done|]. intros c0 [= <-]. apply (find_session_wf (owned:=true)) in E as (Hs & _); [|done].
      rewrite cutoff_observe by done. lia.
    + eexists. split; [done|]. done.
  - intros session' path' Hne. rewrite Hf. case_decide as Hd; [|done]. rewrite Hd.
    destruct Hne as [Hne|Hne]; [by destruct Hne|].
    destruct (find_session (session_key session) b) as [s|] eqn:E.
    + apply (find_session_wf (owned:=true)) in E as (Hs & _); [|done].
      pose proof (path_birth_observe (location_key path) (location_key path') birth s Hs Hb) as Hp.
      rewrite decide_False in Hp by done. exact Hp.
    + cbn. unfold observation_of, kget. cbn.
      destruct (rcmp (location_key path) (location_key path')) eqn:Ec; try done.
      by apply rcmp_eq in Ec.
Qed.

(** ** Proven moves *)
Lemma find_session_moved session from to b b' s :
  store_wf b -> get sha256 session b = Some s ->
  record_proven_move sha256 session from to b = (b', true) ->
  exists s', move_session from (location_key to) s = Some s' /\ get sha256 session b' = Some s'.
Proof.
  intros Hw Hg Hm. unfold get, find_session in *. unfold record_proven_move in Hm.
  destruct (bsearch s_key (session_key session) (sessions b)) as [i|i] eqn:Eb; [|done].
  destruct (bsearch_found _ _ _ _ Eb) as (s0 & Hi & Hk).
  rewrite (bsearch_found_kget _ _ _ _ Eb), Hi in Hg. simplify_eq.
  rewrite Hi in Hm. cbn in Hm. destruct (move_session from (location_key to) s) as [s'|] eqn:Em; [|done].
  simplify_eq. exists s'. split; [done|]. cbn.
  pose proof (find_session_wf (session_key session) b s Hw) as Hs.
  assert (Hkey : s_key s' = s_key s).
  { destruct (move_session_spec _ _ _ _ (proj1 (Hs ltac:(unfold find_session; by rewrite (bsearch_found_kget _ _ _ _ Eb)))) Em)
      as (_ & _ & [[_ ->]|(_ & j & o & _ & _ & _ & _ & ->)]); done. }
  rewrite (kget_update s_key _ _ _ _ _ (bwf_sessions Hw) Hi Hkey). by rewrite decide_True.
Qed.

(** A proven move of the current owner retires the source path and hands
    the session's cutoff, unchanged, to the destination; no other path's
    observation changes.  Merging any earlier snapshot of the table (one that
    knows the source at most at its generation before the move) never brings
    the retired birth back. *)
Theorem proven_move_retires session from to b b' s o :
  store_wf b -> store_typed b -> get sha256 session b = Some s -> observation_of from s = Some o ->
  from <> location_key to -> record_proven_move sha256 session from to b = (b', true) ->
  exists s', get sha256 session b' = Some s' /\
    s_owner s = from /\ s_owner s' = location_key to /\ s_cutoff s' = s_cutoff s /\
    path_birth from s' = None /\ is_Some (path_birth (location_key to) s') /\
    (forall pk, pk <> from -> observation_of pk s' = observation_of pk s) /\
    forall previous, store_wf previous ->
      (forall old p, get sha256 session previous = Some old -> observation_of from old = Some p ->
         o_generation p <= o_generation o) ->
      exists s'', get sha256 session (preserve_missing_from previous b') = Some s'' /\
        path_birth from s'' = None.
Proof.
  intros Hw Hty Hg Ho Hne Hm. destruct (find_session_moved _ _ _ _ _ _ Hw Hg Hm) as (s' & Hms & Hg').
  destruct (find_session_wf _ _ _ Hw Hg) as (Hs & Hin & Hk).
  destruct (move_session_spec _ _ _ _ Hs Hms) as (Hown & (d & Hd & Hdb) & [[He _]|(_ & i & o' & Hf & Hi & Hp & Hgen & Hs')]);
    [done|].
  assert (o' = o) as ->.
  { unfold observation_of in Ho. rewrite (bsearch_found_kget _ _ _ _ Hf), Hi in Ho. congruence. }
  set (retired := mkObs from 0 (o_generation o + 1) identity_default) in *.
  assert (Hobs : forall pk, observation_of pk s' = if decide (pk = from) then Some retired else observation_of pk s).
  { intros pk. subst s'. unfold observation_of. cbn.
    rewrite (kget_update o_path pk _ i o retired (swf_sorted Hs) Hi) by done. rewrite Hp.
    case_decide; case_decide; done. }
  assert (Hret : path_birth from s' = None).
  { unfold path_birth. rewrite Hobs, decide_True by done. done. }
  exists s'. split_and!; [done|done|by subst s'|by subst s'|done| | |].
  - unfold path_birth. rewrite Hobs, decide_False by done. unfold observation_of. rewrite Hd.
    rewrite (proj2 (Z.eqb_neq _ _)) by done. by eexists.
  - intros pk Hpk. by rewrite Hobs, decide_False.
  - intros previous Hprev Hold. assert (Hwb : store_wf b').
    { pose proof (record_proven_move_wf sha256 session from to b Hw Hty) as H. by rewrite Hm in H. }
    destruct (find_session_wf _ _ _ Hwb Hg') as (Hswf & _ & _).
    unfold get in *. rewrite find_session_preserved, Hg' by done.
    destruct (find_session (session_key session) previous) as [old|] eqn:Eold; [|by exists s'].
    eexists. split; [done|]. destruct (find_session_wf _ _ _ Hprev Eold) as (Howf & _ & _).
    unfold path_birth. rewrite observation_of_merged, Hobs, decide_True by done.
    destruct (observation_of from old) as [p|] eqn:Ep; [|done]. specialize (Hold old p eq_refl Ep).
    unfold merge_observation. cbn. rewrite (proj2 (Z.ltb_ge _ _)) by lia.
    by rewrite !andb_false_r.
Qed.

(** ** Merging a previous table *)
(** Merging a previous table loses nothing: every session, path and money
    mark of either table is in the result; a path known to both keeps the
    higher generation, and within one generation two live births keep their
    minimum; a session's cutoff is the smaller of the two.  When the receiving
    table is at least as new as the previous one for the sessions they share,
    the merged table is valid. *)
Theorem merge_loses_nothing previous b :
  store_wf previous -> store_wf b ->
  let merged := preserve_missing_from previous b in
  (forall sk old, find_session sk previous = Some old ->
     exists m, find_session sk merged = Some m /\
       s_cutoff m = match find_session sk b with Some s => Z.min (s_cutoff s) (s_cutoff old) | None => s_cutoff old end /\
       forall pk p, observation_of pk old = Some p ->
         exists o, observation_of pk m = Some o /\ o_generation p <= o_generation o /\
           (o_generation o = o_generation p -> o_birth p <> 0 -> o_birth o <> 0 -> o_birth o <= o_birth p)) /\
  (forall sk s, find_session sk b = Some s ->
     exists m, find_session sk merged = Some m /\
       forall pk o, observation_of pk s = Some o ->
         exists o', observation_of pk m = Some o' /\ o_generation o <= o_generation o' /\
           (o_generation o' = o_generation o -> o_birth o <> 0 -> o_birth o' <> 0 -> o_birth o' <= o_birth o)) /\
  (forall k, money_marks k merged = if decide (money_marks k b = 0) then money_marks k previous else money_marks k b) /\
  (newer_than previous b -> store_wf merged).
Proof.
  intros Hp Hb merged.
  assert (Hfind : forall sk, find_session sk merged = _) by (intros sk; apply (find_session_preserved sk previous b Hp Hb)).
  split_and!; [| |intros k; by apply (preserved_marks (owned:=true))|intros Hn; by apply (preserved_valid (owned:=true))].
  - intros sk old Hold. rewrite Hfind, Hold. destruct (find_session_wf _ _ _ Hp Hold) as (Howf & _ & _).
    destruct (find_session sk b) as [s|] eqn:Es.
    + destruct (find_session_wf _ _ _ Hb Es) as (Hswf & _ & _).
      eexists. split_and!; [done|apply merge_session_cutoff|]. intros pk p Hpk.
      rewrite observation_of_merged, Hpk by done. destruct (observation_of pk s) as [c|]; [|exists p; by split_and!].
      eexists. split; [done|apply (merge_observation_keeps p c)].
    + eexists. split_and!; [done|done|]. intros pk p Hpk. exists p. by split_and!.
  - intros sk s Hs. rewrite Hfind, Hs. destruct (find_session_wf _ _ _ Hb Hs) as (Hswf & _ & _).
    destruct (find_session sk previous) as [old|] eqn:Eo; [|eexists; split; [done|]; intros pk o Ho; exists o; by split_and!].
    destruct (find_session_wf _ _ _ Hp Eo) as (Howf & _ & _).
    eexists. split; [done|]. intros pk o Ho. rewrite observation_of_merged, Ho by done.
    destruct (observation_of pk old) as [p|]; [|exists o; by split_and!].
    eexists. split; [done|apply (merge_observation_keeps p o)].
Qed.

(** ** Pruning *)
Lemma sorted_keys_spec (ks : list LocationKey) : ksorted id (sorted_keys ks) /\ forall k, k ∈ sorted_keys ks <-> k ∈ ks.
Proof.
  induction ks as [|k ks [IH1 IH2]]; cbn; [by split; [constructor|]|]. split; [by apply bs_insert_sorted|].
  intros x. rewrite bs_insert_elem, IH2, elem_of_cons by done. done.
Qed.
Lemma is_found_id (k : LocationKey) (ks : list LocationKey) : ksorted id ks -> is_found (bsearch id k ks) = true <-> k ∈ ks.
Proof.
  intros Hs. destruct (bsearch id k ks) as [i|i] eqn:E; cbn.
  - split; [|done]. intros _. destruct (bsearch_found _ _ _ _ E) as (x & Hx & Hk). unfold id in Hk. subst x.
    by eapply list_elem_of_lookup_2.
  - split; [done|]. intros Hk. by eapply (bsearch_missing_notin id) in E.
Qed.

(** A prune keeps exactly the sessions that are indexed or have been
    absent for less than thirty days, counting from the first prune that
    missed them: an indexed session's absence is cleared, a newly absent one
    is stamped with the time and kept, and nothing else of a kept session
    changes. *)
Theorem prune_keeps_exactly now indexed b m :
  store_wf b -> 0 <= now ->
  m ∈ sessions (prune sha256 now indexed b) <->
  exists s, s ∈ sessions b /\
    let live := exists sp, sp ∈ indexed /\ session_key sp.1 = s_key s in
    (live /\ m = with_owner (s_owner s) (s_cutoff s) 0 s \/
     ~ live /\ s_absent s = 0 /\ m = with_owner (s_owner s) (s_cutoff s) (Z.max now 1) s \/
     ~ live /\ s_absent s <> 0 /\ now - s_absent s < ABSENT_RETENTION_SECONDS /\ m = s).
Proof.
  intros Hw Hnow. unfold prune. cbn. rewrite list_elem_of_filter, list_elem_of_fmap.
  destruct (sorted_keys_spec ((fun sp => session_key sp.1) <$> indexed)) as [Hsort Hin].
  set (live := sorted_keys _) in *.
  assert (Hlive : forall s, is_found (bsearch id (s_key s) live) = true <->
    exists sp, sp ∈ indexed /\ session_key sp.1 = s_key s).
  { intros s. rewrite is_found_id, Hin, list_elem_of_fmap by done. naive_solver. }
  assert (Hret : forall s, retained_session now s = true <->
    s_absent s = 0 \/ now - s_absent s < ABSENT_RETENTION_SECONDS).
  { intros s. unfold retained_session, saturating_sub. rewrite orb_true_iff, Z.eqb_eq, Z.ltb_lt.
    assert (0 < ABSENT_RETENTION_SECONDS) by done. lia. }
  split.
  - intros (Hr & s & -> & Hs). exists s. split; [done|]. cbn. specialize (Hlive s). unfold prune_session in *.
    destruct (is_found (bsearch id (s_key s) live)); [left; split; [by apply Hlive|done]|].
    assert (Hn : ~ exists sp, sp ∈ indexed /\ session_key sp.1 = s_key s) by (intros H; by apply Hlive in H).
    destruct (s_absent s =? 0) eqn:Ea; zbool; [right; left; done|]. right; right.
    apply Hret in Hr as [?|?]; [done|]. by split_and!.
  - intros (s & Hs & Hcase). cbn in Hcase. specialize (Hlive s). split.
    + apply Hret. destruct Hcase as [[_ ->]|[(_ & _ & ->)|(_ & _ & ? & ->)]]; cbn; [by left| |by right].
      right. assert (1 < ABSENT_RETENTION_SECONDS) by done. lia.
    + exists s. split; [|done]. unfold prune_session.
      destruct (is_found (bsearch id (s_key s) live)).
      * destruct Hcase as [[_ ->]|[(Hn & _)|(Hn & _)]]; [done|destruct Hn; by apply Hlive..].
      * destruct Hcase as [[Hl _]|[(_ & -> & ->)|(_ & Ha & _ & ->)]]; [by apply Hlive in Hl|done|].
        by rewrite (proj2 (Z.eqb_neq _ _)).
Qed.
End Theorems.

(** ** Save and load *)
(** Every session's owner is a path it still observes. *)
Definition all_owned (b : BirthStore) : Prop :=
  forall s, s ∈ sessions b -> exists o, o ∈ s_paths s /\ o_path o = s_owner s /\ o_birth o <> 0.
(** What a table answers to its callers. *)
Definition same_answers (sha256 : list Z -> list Z) (b c : BirthStore) : Prop :=
  (forall session path, observed_birth sha256 session path c = observed_birth sha256 session path b) /\
  (forall session path, effective_cutoff sha256 session path c = effective_cutoff sha256 session path b) /\
  (forall session, live_location sha256 session c = live_location sha256 session b) /\
  (forall session from, moved_to sha256 session from c = moved_to sha256 session from b) /\
  money c = money b.
Lemma store_ok_owned b owned : store_ok owned b -> (store_wf b <-> all_owned b).
Proof.
  intros [H1 H2 H3 H4]. split.
  - intros [_ H _ _] s Hs. rewrite Forall_forall in H. by apply (swf_owner (H s Hs)).
  - intros Ho. split; try done. apply Forall_forall. intros s Hs. rewrite Forall_forall in H2.
    destruct (H2 s Hs). split; try done. intros _. by apply Ho.
Qed.

Section SaveLoad.
Context (sha256 : list Z -> list Z) (b64_encode : list Z -> list Z) (b64_decode : list Z -> option (list Z)).
(** SHA-256 digests are 32 bytes; URL-safe base64 without padding reads
    bytes, reads back the bytes it wrote and takes four characters for three
    bytes. *)
Context (Hsha : forall bs, length (sha256 bs) = 32%nat /\ Forall u8 (sha256 bs)).
Context (Hb64_u8 : forall text bs, b64_decode text = Some bs -> Forall u8 bs).
Context (Hb64 : forall bs, Forall u8 bs -> b64_decode (b64_encode bs) = Some bs).
Context (Hb64_len : forall bs, 3 * Z.of_nat (length (b64_encode bs)) <= 4 * Z.of_nat (length bs) + 2).

Lemma find_session_norm sk b : find_session sk (norm_store b) = norm_session <$> find_session sk b.
Proof. unfold find_session. cbn. by rewrite (kget_map s_key sk norm_session). Qed.
Lemma observation_of_norm pk s : observation_of pk (norm_session s) = norm_observation <$> observation_of pk s.
Proof. unfold observation_of. cbn. by rewrite (kget_map o_path pk norm_observation). Qed.
Lemma norm_same_answers b : same_answers sha256 b (norm_store b).
Proof.
  assert (Hob : forall session path, observed_birth sha256 session path (norm_store b) = observed_birth sha256 session path b).
  { intros session path. unfold observed_birth, get. rewrite find_session_norm.
    destruct (find_session _ b) as [s|]; [|done]. cbn. rewrite observation_of_norm.
    by destruct (observation_of _ s). }
  split_and!; [exact Hob| | | |done].
  - intros session path. unfold effective_cutoff, get. rewrite find_session_norm.
    pose proof (Hob session path) as Ho. destruct (find_session _ b) as [s|]; [|done]. cbn. by rewrite Ho.
  - intros session. unfold live_location, get. rewrite find_session_norm. by destruct (find_session _ b).
  - intros session from. unfold moved_to, get. rewrite find_session_norm.
    destruct (find_session _ b) as [s|]; [|done]. cbn.
    assert (forall ps, existsb (fun o => bool_decide (o_path o = location_key sha256 from) && (o_birth o =? 0)
        && negb (o_generation o =? 0)) (norm_observation <$> ps)
      = existsb (fun o => bool_decide (o_path o = location_key sha256 from) && (o_birth o =? 0)
        && negb (o_generation o =? 0)) ps) as ->; [|done].
    induction ps as [|o ps IH]; [done|]. rewrite fmap_cons. cbn [existsb]. by rewrite IH.
Qed.
Lemma norm_owned b : all_owned (norm_store b) -> all_owned b.
Proof.
  intros H s Hs. destruct (H (norm_session s)) as (o & Ho & Hp & Hb).
  { apply list_elem_of_fmap. by exists s. }
  cbn in Ho. apply list_elem_of_fmap in Ho as (o' & -> & Ho'). by exists o'.
Qed.
Lemma saved_text_loads b :
  store_typed b -> store_weight b <= 3 * 1024 * 1024 ->
  exists text, serialize_store b64_encode b = Some text /\
    deserialize_store sha256 b64_decode text = valid (norm_store b).
Proof.
  intros Hty Hw. destruct (store_bytes_decode sha256 b Hty) as (bytes & Hb & Hd & Hl); [lia|].
  exists (b64_encode bytes). split; [unfold serialize_store; by rewrite Hb|].
  unfold deserialize_store. pose proof (Hb64_len bytes). rewrite (proj2 (Z.ltb_ge _ _)) by lia.
  rewrite Hb64 by by eapply store_bytes_u8. exact Hd.
Qed.

(** C19: Every table that loads, updates and merges of tables reach, up to
    three MiB of records, is saved without error.  When each of its sessions
    still observes its owner, the text loads back as a table that answers as
    before the restart: all births, cutoffs, owners, moves and marks; only the
    page-local probes are gone.  Loads and updates always leave such a table,
    and so do merges into a table at least as new for the shared sessions; of
    a table that another merge left with a lost owner nothing is loaded. *)
Theorem birth_store_survives_restart newer b :
  store_reachable sha256 b64_decode newer b -> store_weight b <= 3 * 1024 * 1024 ->
  exists text, serialize_store b64_encode b = Some text /\
    (newer = true -> all_owned b) /\
    (all_owned b -> exists loaded, deserialize_store sha256 b64_decode text = Some loaded /\
       valid loaded = Some loaded /\ staged loaded = [] /\ same_answers sha256 b loaded) /\
    (~ all_owned b -> deserialize_store sha256 b64_decode text = None).
Proof.
  intros Hr Hw. destruct (store_reachable_wf sha256 Hsha b64_decode Hb64_u8 newer b Hr) as [Hok Hty].
  destruct (saved_text_loads b Hty Hw) as (text & Hs & Hd). exists text. rewrite Hd.
  split_and!; [done|intros ->; by apply (store_ok_owned b true)| |].
  - intros Ho. exists (norm_store b). apply (store_ok_owned _ _ Hok), norm_store_wf, valid_spec in Ho.
    split_and!; [done..|apply norm_same_answers].
  - intros Hn. destruct (valid (norm_store b)) as [c|] eqn:E; [|done]. destruct Hn.
    apply valid_Some in E as [_ E]. apply norm_owned. by apply (store_ok_owned _ true).
Qed.

(** Whatever text a saved index holds, a table is loaded only if it is
    valid (sorted, no zero mark, every session with a cutoff and a live owner)
    and its records fit in the text: at least 52 bytes a session, so a hostile
    count cannot make the loader allocate more than it read. *)
Theorem loaded_table_valid text b :
  deserialize_store sha256 b64_decode text = Some b ->
  store_wf b /\ staged b = [] /\
  exists bytes, b64_decode text = Some bytes /\ 52 * Z.of_nat (length (sessions b)) <= Z.of_nat (length bytes) /\
    Z.of_nat (length text) <= 4 * 1024 * 1024.
Proof.
  unfold deserialize_store. destruct (_ <? _) eqn:El; [done|]. zbool.
  destruct (b64_decode text) as [bytes|] eqn:Ed; [|done]. unfold decode_bytes. intros H.
  destruct (take_bytes 4 bytes) as [[magic i0]|] eqn:E0; [|done].
  destruct (cmb_of_bytes magic) as [v|]; [|done].
  destruct (take_int 4 i0) as [[count i1]|] eqn:E1; [|done].
  destruct (Z.of_nat (length i1) / 52 <? count) eqn:Ec; [done|]. zbool.
  destruct (take_many (Z.to_nat count) _ i1) as [[ss i2]|] eqn:E2; [|done].
  destruct (take_marks v i2) as [[marks i3]|]; [|done]. destruct (bool_decide _); [|done].
  apply valid_Some in H as [-> Hwf]. split_and!; [done|done|]. exists bytes. split_and!; [done| |lia]. cbn.
  assert (Hlen : forall n i xs i', take_many n (take_session sha256 v) i = Some (xs, i') -> length xs = n).
  { clear. induction n as [|n IH]; intros i xs i'; cbn; [by intros [= <- _]|].
    destruct (take_session sha256 v i) as [[x j]|]; [|done].
    destruct (take_many n _ j) as [[ys k]|] eqn:E; [|done]. intros [= <- _]. cbn. f_equal. by eapply IH. }
  apply Hlen in E2. unfold take_bytes, take_int in *.
  destruct (bool_decide (4 <= length bytes)%nat); [|done]. simplify_eq.
  unfold take_bytes in E1. destruct (bool_decide (4 <= length (drop 4 bytes))%nat); [|done]. simplify_eq.
  assert (52 * (Z.of_nat (length (drop 4 (drop 4 bytes))) / 52) <= Z.of_nat (length (drop 4 (drop 4 bytes))))
    by (apply Z.mul_div_le; lia).
  rewrite !length_drop in *. lia.
Qed.
End SaveLoad.

(** ** Witnesses *)
Definition born : BirthStore :=
  record_observation toy_sha256 "s" "B" 200 (record_observation toy_sha256 "s" "A" 100 store_default).
Definition moved : BirthStore * bool := record_proven_move toy_sha256 "s" (location_key toy_sha256 "A") "B" born.
Definition toy_decode (text : list Z) : option (list Z) :=
  if decide (Forall (fun c => 0 <= c < 256) text) then Some text else None.
Lemma toy_decode_u8 text bs : toy_decode text = Some bs -> Forall u8 bs.
Proof. unfold toy_decode. case_decide; [|done]. by intros [= <-]. Qed.
Lemma toy_decode_encoded bs : Forall u8 bs -> toy_decode bs = Some bs.
Proof. intros H. unfold toy_decode. by rewrite decide_True. Qed.
Lemma born_reachable : store_reachable toy_sha256 toy_decode true born.
Proof. eapply StoreStep; [eapply StoreStep; [apply StoreNew|]|]; constructor. Qed.
Lemma born_wf : store_wf born /\ store_typed born.
Proof. apply (store_reachable_wf toy_sha256 toy_sha256_ok toy_decode toy_decode_u8 true), born_reachable. Qed.

Lemma observation_keeps_minimum_witness :
  observed_birth toy_sha256 "s" "A" (record_observation toy_sha256 "s" "A" 40 born) = Some 40.
Proof.
  refine (proj1 (proj2 (proj2 (observation_keeps_minimum toy_sha256 "s" "A" 40 born (proj1 born_wf))) _ _)).
  - split; reflexivity || (vm_compute; congruence).
  - discriminate.
Defined.
Lemma proven_move_retires_witness :
  exists s', get toy_sha256 "s" moved.1 = Some s' /\ path_birth (location_key toy_sha256 "A") s' = None.
Proof.
  destruct (proven_move_retires toy_sha256 "s" (location_key toy_sha256 "A") "B" born moved.1
    (mkSession (session_key toy_sha256 "s") (location_key toy_sha256 "A") 100 0
       [mkObs (location_key toy_sha256 "A") 100 0 identity_default;
        mkObs (location_key toy_sha256 "B") 200 0 identity_default])
    (mkObs (location_key toy_sha256 "A") 100 0 identity_default)) as (s' & Hg & _ & _ & _ & Hr & _).
  - apply born_wf.
  - apply born_wf.
  - vm_compute. reflexivity.
  - vm_compute. reflexivity.
  - vm_compute. discriminate.
  - vm_compute. reflexivity.
  - exists s'. split; [exact Hg|exact Hr].
Defined.
Lemma merge_loses_nothing_witness :
  exists m, find_session (session_key toy_sha256 "s") (preserve_missing_from born store_default) = Some m.
Proof.
  destruct (merge_loses_nothing born store_default (proj1 born_wf)) as (H & _).
  - destruct (store_reachable_wf toy_sha256 toy_sha256_ok toy_decode toy_decode_u8 true store_default (StoreNew _ _ _)) as [Hw _]. exact Hw.
  - destruct (H (session_key toy_sha256 "s") (mkSession (session_key toy_sha256 "s") (location_key toy_sha256 "A") 100 0
       [mkObs (location_key toy_sha256 "A") 100 0 identity_default;
        mkObs (location_key toy_sha256 "B") 200 0 identity_default])) as (m & Hm & _).
    + vm_compute. reflexivity.
    + exists m. exact Hm.
Defined.
Definition born_session : Session :=
  mkSession (session_key toy_sha256 "s") (location_key toy_sha256 "A") 100 0
    [mkObs (location_key toy_sha256 "A") 100 0 identity_default;
     mkObs (location_key toy_sha256 "B") 200 0 identity_default].
Lemma prune_keeps_exactly_witness :
  with_owner (s_owner born_session) (s_cutoff born_session) 500 born_session ∈ sessions (prune toy_sha256 500 [] born).
Proof.
  apply (prune_keeps_exactly toy_sha256 500 [] born _ (proj1 born_wf) ltac:(lia)).
  exists born_session. split; [vm_compute; left|]. cbv zeta. right. left. split; [|split; reflexivity].
  intros (sp & Hsp & _). by apply elem_of_nil in Hsp.
Defined.
Lemma birth_store_survives_restart_witness :
  exists text loaded, serialize_store id born = Some text /\ deserialize_store toy_sha256 toy_decode text = Some loaded.
Proof.
  destruct (birth_store_survives_restart toy_sha256 id toy_decode toy_sha256_ok toy_decode_u8 toy_decode_encoded
    (fun bs => ltac:(unfold id; lia)) true born born_reachable) as (text & Hs & Ho & Hd & _).
  - vm_compute. congruence.
  - destruct (Hd (Ho eq_refl)) as (loaded & Hl & _). exists text, loaded. split; [exact Hs|exact Hl].
Defined.
Lemma loaded_table_valid_witness :
  exists b, deserialize_store toy_sha256 Some (as_bytes "CMB4" ++ [0; 0; 0; 0]) = Some b /\ store_wf b.
Proof.
  eexists. split; [vm_compute; reflexivity|].
  refine (proj1 (loaded_table_valid toy_sha256 Some (as_bytes "CMB4" ++ [0; 0; 0; 0]) _ _)).
  vm_compute. reflexivity.
Defined.

(** Merging a table that recorded a move into one that did not see it, with the
    same cutoff, retires the receiving table's owner without replacing it: the
    merged table is one [valid] rejects, so the next load discards it whole. *)
Lemma merge_can_orphan_owner :
  valid born = Some born /\ valid moved.1 = Some moved.1 /\ valid (preserve_missing_from moved.1 born) = None.
Proof. split_and!; vm_compute; reflexivity. Qed.
