(* ===== verification/DurableSchemas.v ===== *)
(** The durable records of a session's opening
    (crates/ottto-service/src/snapshots/session_start.rs) and of the Codex
    ownership boundary (snapshots/scan/accumulator.rs): their data, and the
    dictionaries their [durable_struct!] and [durable_enum!] invocations
    generate.

    These records carry the codec's hard cases: content fields that must not
    reach the disk ([X]), a field that may only be moved out of the body ([E]),
    arrays that grow between builds ([G]), digest keys ([H]) and a retired enum
    variant. *)
From S2P Require Import Prelude OrdMap DurableCodec DurableTypes DurableEntries DurableContainers.
From S2P Require Import DurableDigest DurableStruct.
Local Open Scope Z_scope.

(** A field of a schema: name, class and codec. *)
Notation "n =: c ;> fs" := (FCons n c fs) (at level 60, c at level 59, right associativity) : ottto_scope.
Abbreviation opt D := (option_durable D).
Abbreviation u8_durable := (narrow_durable 8).
Abbreviation u16_durable := (narrow_durable 16).
Abbreviation u32_durable := (narrow_durable 32).

Definition WINDOW_REQUESTS : nat := 3.
Definition PARTS : nat := 11.

(** ** Data *)
Record OpeningRequest := mkOpeningRequest {
  or_context_tokens : Z;
  or_uncached_input_tokens : Z;
  or_cache_read_tokens : Z;
  or_cache_write_5m_tokens : option Z;
  or_cache_write_1h_tokens : option Z;
  or_parts_reconcile : bool;
  or_output_tokens : Z;
}.
Record ConfigDigest := mkConfigDigest { cd_a : Z; cd_b : Z; cd_len : Z }.
Record ClaudeBlob := mkClaudeBlob {
  cb_parts : list Z;
  cb_unmeasurable : bool;
  cb_config_digest : option ConfigDigest;
}.
Record ClaudeRequestKey := mkClaudeRequestKey { crk_digest : list Z }.
Record OpeningCallId := mkOpeningCallId { oci_id : string }.
Record OpeningCall := mkOpeningCall {
  oc_response : Z;
  oc_tool : string;
  oc_candidates : Z;
  oc_files : list string;
  oc_answered : bool;
  oc_truncated : bool;
}.
Record OpeningFileState := mkOpeningFileState {
  of_ordinal : Z;
  of_tool : string;
  of_repo_path : option string;
  of_instruction_segments : Z;
  of_reads : list Z;
  of_chars : list Z;
  of_client_loaded : list bool;
  of_truncated : list bool;
}.
(** [P] is the in-memory prelude parser ([CodexPreludeParser]), an [X] field. *)
Record SessionStartState (P : Type) := mkSessionStart {
  client_version : option string;
  user_turns : Z;
  inherited_prefix : bool;
  frozen : bool;
  requests : list (option OpeningRequest);
  codex_requests : Z;
  response_tool_calls : list Z;
  truncated_outputs : list Z;
  parts : list Z;
  parts_closed : bool;
  parts_unmeasurable : bool;
  codex_tools_logged : bool;
  config_digest : option ConfigDigest;
  claude_shape : option (ClaudeRequestKey * Z * Z);
  claude_blobs : list (ClaudeRequestKey * ClaudeBlob);
  memory_units : option Z;
  instruction_load_cut : option bool;
  instructions : option string;
  instructions_capped : bool;
  codex_prelude : option P;
  calls : list (OpeningCallId * OpeningCall);
  last_codex_call : option string;
  files : list (string * OpeningFileState);
  files_untracked : list Z;
  held_bytes : Z;
  shell_moved : bool;
  collapsed_requests : bool;
}.
Arguments mkSessionStart {P}.
Arguments client_version {P}. Arguments user_turns {P}. Arguments inherited_prefix {P}.
Arguments frozen {P}. Arguments requests {P}. Arguments codex_requests {P}.
Arguments response_tool_calls {P}. Arguments truncated_outputs {P}. Arguments parts {P}.
Arguments parts_closed {P}. Arguments parts_unmeasurable {P}. Arguments codex_tools_logged {P}.
Arguments config_digest {P}. Arguments claude_shape {P}. Arguments claude_blobs {P}.
Arguments memory_units {P}. Arguments instruction_load_cut {P}. Arguments instructions {P}.
Arguments instructions_capped {P}. Arguments codex_prelude {P}. Arguments calls {P}.
Arguments last_codex_call {P}. Arguments files {P}. Arguments files_untracked {P}.
Arguments held_bytes {P}. Arguments shell_moved {P}. Arguments collapsed_requests {P}.

Inductive CodexOwnershipBoundary :=
| Undetermined
| AllLocal
| AwaitingLegacyTrigger
| AwaitingParentPrefix
| Ordinal (start : Z)
| NativeCreatedThread
| AmbiguousFork.

(** Derived [Ord]: the order of the only field. *)
#[export] Instance ClaudeRequestKey_ord : RustOrd ClaudeRequestKey :=
  fun a b => rcmp (crk_digest a) (crk_digest b).
#[export] Instance OpeningCallId_ord : RustOrd OpeningCallId := fun a b => rcmp (oci_id a) (oci_id b).
#[export] Instance ClaudeRequestKey_ord_laws : RustOrdLaws ClaudeRequestKey.
Proof. apply (ord_by_laws crk_digest). by intros [] [] [= ->]. Qed.
#[export] Instance OpeningCallId_ord_laws : RustOrdLaws OpeningCallId.
Proof. apply (ord_by_laws oci_id). by intros [] [] [= ->]. Qed.

(** ** Schemas, as the macro invocations list them *)
Definition OpeningRequest_fields :=
  "context_tokens" =: FN u64_durable ;> "uncached_input_tokens" =: FN u64_durable ;>
  "cache_read_tokens" =: FN u64_durable ;> "cache_write_5m_tokens" =: FN (opt u64_durable) ;>
  "cache_write_1h_tokens" =: FN (opt u64_durable) ;> "parts_reconcile" =: FN bool_durable ;>
  "output_tokens" =: FN u64_durable ;> FNil.
Definition OpeningRequest_durable : Durable OpeningRequest := durable_struct "OpeningRequest" OpeningRequest_fields
  (fun '(a, (b, (c, (d, (e, (f, (g, _))))))) => mkOpeningRequest a b c d e f g)
  (fun r => (or_context_tokens r, (or_uncached_input_tokens r, (or_cache_read_tokens r,
    (or_cache_write_5m_tokens r, (or_cache_write_1h_tokens r, (or_parts_reconcile r,
    (or_output_tokens r, tt)))))))).

Definition ConfigDigest_fields :=
  "a" =: FX (T := Z) 0 ;> "b" =: FX (T := Z) 0 ;> "len" =: FX (T := Z) 0 ;> FNil.
Definition ConfigDigest_durable : Durable ConfigDigest := durable_struct "ConfigDigest" ConfigDigest_fields
  (fun '(a, (b, (l, _))) => mkConfigDigest a b l) (fun d => (cd_a d, (cd_b d, (cd_len d, tt)))).

Definition ClaudeBlob_fields :=
  "parts" =: FG PARTS u64_durable 0 ;> "unmeasurable" =: FN bool_durable ;>
  "config_digest" =: FX (T := option ConfigDigest) None ;> FNil.
Definition ClaudeBlob_durable : Durable ClaudeBlob := durable_struct "ClaudeBlob" ClaudeBlob_fields
  (fun '(p, (u, (c, _))) => mkClaudeBlob p u c)
  (fun b => (cb_parts b, (cb_unmeasurable b, (cb_config_digest b, tt)))).

Definition ClaudeRequestKey_fields := "digest" =: FH digest32 ;> FNil.
Definition ClaudeRequestKey_durable : Durable ClaudeRequestKey :=
  durable_struct "ClaudeRequestKey" ClaudeRequestKey_fields
    (fun '(d, _) => mkClaudeRequestKey d) (fun k => (crk_digest k, tt)).
Definition ClaudeRequestKey_key : DurableKey ClaudeRequestKey_durable :=
  struct_key (t := "ClaudeRequestKey") (fields_cons_key (name := "digest")
    (stored_key (hkey_at digest32_key "ClaudeRequestKey.digest") (FH digest32) _) (fields_nil_key _)).

Definition OpeningCallId_fields := "id" =: FL string_durable ;> FNil.
Definition OpeningCallId_durable : Durable OpeningCallId := durable_struct "OpeningCallId" OpeningCallId_fields
  (fun '(i, _) => mkOpeningCallId i) (fun k => (oci_id k, tt)).
Definition OpeningCallId_key : DurableKey OpeningCallId_durable :=
  struct_key (t := "OpeningCallId") (fields_cons_key (name := "id")
    (stored_key string_key (FL string_durable) _) (fields_nil_key _)).

Definition OpeningCall_fields :=
  "response" =: FN u8_durable ;> "tool" =: FU string_durable ;> "candidates" =: FN u64_durable ;>
  "files" =: FE (T := list string) list_empty [] ;> "answered" =: FN bool_durable ;>
  "truncated" =: FN bool_durable ;> FNil.
Definition OpeningCall_durable : Durable OpeningCall := durable_struct "OpeningCall" OpeningCall_fields
  (fun '(r, (t, (c, (f, (a, (tr, _)))))) => mkOpeningCall r t c f a tr)
  (fun c => (oc_response c, (oc_tool c, (oc_candidates c, (oc_files c, (oc_answered c, (oc_truncated c, tt))))))).

Definition OpeningFileState_fields :=
  "ordinal" =: FN u64_durable ;> "tool" =: FU string_durable ;>
  "repo_path" =: FX (T := option string) None ;> "instruction_segments" =: FN u8_durable ;>
  "reads" =: FN (array_durable 2 u64_durable) ;> "chars" =: FN (array_durable 2 u64_durable) ;>
  "client_loaded" =: FN (array_durable 2 bool_durable) ;> "truncated" =: FN (array_durable 2 bool_durable) ;> FNil.
Definition OpeningFileState_durable : Durable OpeningFileState :=
  durable_struct "OpeningFileState" OpeningFileState_fields
    (fun '(o, (t, (p, (i, (r, (c, (l, (tr, _)))))))) => mkOpeningFileState o t p i r c l tr)
    (fun f => (of_ordinal f, (of_tool f, (of_repo_path f, (of_instruction_segments f, (of_reads f,
      (of_chars f, (of_client_loaded f, (of_truncated f, tt))))))))).

Section SessionStart.
Context {P : Type}.

Definition SessionStartState_fields :=
  "client_version" =: FU (opt string_durable) ;> "user_turns" =: FN u8_durable ;>
  "inherited_prefix" =: FN bool_durable ;> "frozen" =: FN bool_durable ;>
  "requests" =: FG WINDOW_REQUESTS (opt OpeningRequest_durable) None ;>
  "codex_requests" =: FN u8_durable ;>
  "response_tool_calls" =: FN (array_durable 2 u64_durable) ;>
  "truncated_outputs" =: FN (array_durable 2 u64_durable) ;>
  "parts" =: FG PARTS u64_durable 0 ;> "parts_closed" =: FN bool_durable ;>
  "parts_unmeasurable" =: FN bool_durable ;> "codex_tools_logged" =: FN bool_durable ;>
  "config_digest" =: FX (T := option ConfigDigest) None ;>
  "claude_shape" =: FD (opt (triple_durable ClaudeRequestKey_durable u64_durable u64_durable)) ;>
  "claude_blobs" =: FD (map_durable ClaudeRequestKey_key ClaudeBlob_durable) ;>
  "memory_units" =: FN (opt u64_durable) ;> "instruction_load_cut" =: FN (opt bool_durable) ;>
  "instructions" =: FX (T := option string) None ;> "instructions_capped" =: FN bool_durable ;>
  "codex_prelude" =: FX (T := option P) None ;>
  "calls" =: FD (map_durable OpeningCallId_key OpeningCall_durable) ;>
  "last_codex_call" =: FL (opt string_durable) ;>
  "files" =: FX (T := list (string * OpeningFileState)) [] ;>
  "files_untracked" =: FN (array_durable 2 u64_durable) ;> "held_bytes" =: FN usize_durable ;>
  "shell_moved" =: FN bool_durable ;> "collapsed_requests" =: FN bool_durable ;> FNil.
Definition SessionStartState_durable : Durable (SessionStartState P) :=
  durable_struct "SessionStartState" SessionStartState_fields
    (fun '(cv, (ut, (ip, (fz, (rq, (cr, (rt, (tO, (pa, (pc, (pu, (ct, (cd, (cs, (cb, (mu, (il, (ins,
          (ic, (cp, (ca, (lc, (fi, (fu, (hb, (sm, (co, _))))))))))))))))))))))))))) =>
       mkSessionStart cv ut ip fz rq cr rt tO pa pc pu ct cd cs cb mu il ins ic cp ca lc fi fu hb sm co)
    (fun s => (client_version s, (user_turns s, (inherited_prefix s, (frozen s, (requests s,
      (codex_requests s, (response_tool_calls s, (truncated_outputs s, (parts s, (parts_closed s,
      (parts_unmeasurable s, (codex_tools_logged s, (config_digest s, (claude_shape s, (claude_blobs s,
      (memory_units s, (instruction_load_cut s, (instructions s, (instructions_capped s, (codex_prelude s,
      (calls s, (last_codex_call s, (files s, (files_untracked s, (held_bytes s, (shell_moved s,
      (collapsed_requests s, tt)))))))))))))))))))))))))))).
End SessionStart.
Arguments SessionStartState_fields : clear implicits.
Arguments SessionStartState_durable : clear implicits.

Definition CodexOwnershipBoundary_variants :=
  VCons 0 "Undetermined" false FNil (VCons 1 "AllLocal" false FNil (VCons 2 "AwaitingLegacyTrigger" false FNil
  (VCons 3 "AwaitingParentPrefix" true FNil (VCons 4 "Ordinal" false ("start" =: FN u64_durable ;> FNil)
  (VCons 5 "NativeCreatedThread" false FNil (VCons 6 "AmbiguousFork" false FNil VNil)))))).
Definition CodexOwnershipBoundary_durable : Durable CodexOwnershipBoundary :=
  durable_enum "CodexOwnershipBoundary" CodexOwnershipBoundary_variants
    (fun v => match v with
      | inl _ => Undetermined
      | inr (inl _) => AllLocal
      | inr (inr (inl _)) => AwaitingLegacyTrigger
      | inr (inr (inr (inl _))) => AwaitingParentPrefix
      | inr (inr (inr (inr (inl (start, _))))) => Ordinal start
      | inr (inr (inr (inr (inr (inl _))))) => NativeCreatedThread
      | inr (inr (inr (inr (inr (inr (inl _)))))) => AmbiguousFork
      | inr (inr (inr (inr (inr (inr (inr e)))))) => match e with end
      end)
    (fun b => match b with
      | Undetermined => inl tt
      | AllLocal => inr (inl tt)
      | AwaitingLegacyTrigger => inr (inr (inl tt))
      | AwaitingParentPrefix => inr (inr (inr (inl tt)))
      | Ordinal start => inr (inr (inr (inr (inl (start, tt)))))
      | NativeCreatedThread => inr (inr (inr (inr (inr (inl tt)))))
      | AmbiguousFork => inr (inr (inr (inr (inr (inr (inl tt))))))
      end).

(** Instance search matches dictionaries by name, not by their expansions. *)
#[export] Hint Opaque u64_durable narrow_durable usize_durable bool_durable string_durable option_durable
  box_durable pair_durable triple_durable vec_durable owned_vec_durable array_durable map_durable
  field_durable fields_durable durable_struct durable_enum
  OpeningRequest_durable ConfigDigest_durable ClaudeBlob_durable ClaudeRequestKey_durable
  OpeningCallId_durable OpeningCall_durable OpeningFileState_durable : typeclass_instances.

(** ** Laws of the schemas *)
#[export] Instance OpeningRequest_ok : DurableOk OpeningRequest_durable.
Proof. refine (struct_ok "OpeningRequest" OpeningRequest_fields _ _ _). by intros (?&?&?&?&?&?&?&[]). Defined.
#[export] Instance ConfigDigest_ok : DurableOk ConfigDigest_durable.
Proof. refine (struct_ok "ConfigDigest" ConfigDigest_fields _ _ _). by intros (?&?&?&[]). Defined.
#[export] Instance parts_fit : GrownFits u64_durable PARTS 0.
Proof. by split. Qed.
#[export] Instance requests_fit : GrownFits (opt OpeningRequest_durable) WINDOW_REQUESTS None.
Proof. by split. Qed.
#[export] Instance ClaudeBlob_ok : DurableOk ClaudeBlob_durable.
Proof. refine (struct_ok "ClaudeBlob" ClaudeBlob_fields _ _ _). by intros (?&?&?&[]). Defined.
#[export] Instance ClaudeRequestKey_ok : DurableOk ClaudeRequestKey_durable.
Proof. refine (struct_ok "ClaudeRequestKey" ClaudeRequestKey_fields _ _ _). by intros (?&[]). Defined.
#[export] Instance ClaudeRequestKey_sized : DurableSized ClaudeRequestKey_durable.
Proof.
  intros [k] mf bs [Hv _] Hb. cbn in Hb. unfold pair_trace in Hb. cbn in Hb.
  apply trace_bytes_seq_Some in Hb as (b1 & b2 & H1 & H2 & ->). intros [-> _]%app_eq_nil.
  exact (digest32_sized "ClaudeRequestKey.digest" k mf [] Hv H1 eq_refl).
Qed.
#[export] Instance ClaudeRequestKey_key_ok : DurableKeyOk ClaudeRequestKey_key.
Proof.
  refine (struct_key_ok "ClaudeRequestKey" ClaudeRequestKey_fields _ _ _ _ _). by intros [].
Defined.
#[export] Instance OpeningCallId_ok : DurableOk OpeningCallId_durable.
Proof. refine (struct_ok "OpeningCallId" OpeningCallId_fields _ _ _). by intros (?&[]). Defined.
#[export] Instance OpeningCallId_sized : DurableSized OpeningCallId_durable.
Proof.
  intros [k] mf bs [Hv _] Hb. cbn in Hb. unfold pair_trace in Hb. cbn in Hb.
  apply trace_bytes_seq_Some in Hb as (b1 & b2 & H1 & H2 & ->). intros [-> _]%app_eq_nil.
  exact (string_sized k mf [] Hv H1 eq_refl).
Qed.
#[export] Instance OpeningCallId_key_ok : DurableKeyOk OpeningCallId_key.
Proof. refine (struct_key_ok "OpeningCallId" OpeningCallId_fields _ _ _ _ _). by intros []. Defined.
#[export] Instance OpeningCall_ok : DurableOk OpeningCall_durable.
Proof. refine (struct_ok "OpeningCall" OpeningCall_fields _ _ _). by intros (?&?&?&?&?&?&[]). Defined.
#[export] Instance OpeningFileState_ok : DurableOk OpeningFileState_durable.
Proof. refine (struct_ok "OpeningFileState" OpeningFileState_fields _ _ _). by intros (?&?&?&?&?&?&?&?&[]). Defined.
#[export] Instance SessionStartState_ok P : DurableOk (SessionStartState_durable P).
Proof.
  refine (struct_ok "SessionStartState" (SessionStartState_fields P) _ _ _).
  by intros (?&?&?&?&?&?&?&?&?&?&?&?&?&?&?&?&?&?&?&?&?&?&?&?&?&?&?&[]).
Defined.
#[export] Instance CodexOwnershipBoundary_ok : DurableOk CodexOwnershipBoundary_durable.
Proof.
  refine (enum_ok "CodexOwnershipBoundary" CodexOwnershipBoundary_variants _ _ _ _ _).
  - by intros [[]|[[]|[[]|[[]|[[? []]|[[]|[[]|[]]]]]]]].
  - cbn. repeat constructor; set_solver.
  - repeat (apply Forall_cons; split; [done|]). apply Forall_nil_2.
Defined.
