(* ===== verification/DurableProps.v ===== *)
(** What the durable tail codec promises, stated on the formats the program
    stores: integers, digests and labels, collections read back from any bytes,
    and the session-opening and ownership records of [DurableSchemas].

    Everything is proved from the laws of the dictionaries
    ([DurableOk] and its companions). *)
From S2P Require Import Prelude Text OrdMap DurableCodec DurableTypes DurableEntries DurableContainers.
From S2P Require Import DurableDigest DurableStruct DurableSchemas.
Local Open Scope Z_scope.

(** ** What a stored copy of a session opening keeps *)
Definition stored_blob (b : ClaudeBlob) : ClaudeBlob := mkClaudeBlob (cb_parts b) (cb_unmeasurable b) None.
Definition stored_call (c : OpeningCall) : OpeningCall :=
  mkOpeningCall (oc_response c) (oc_tool c) (oc_candidates c) [] (oc_answered c) (oc_truncated c).
Definition on_values {K V W} (f : V -> W) (m : list (K * V)) : list (K * W) := (fun kv => (kv.1, f kv.2)) <$> m.
(** Content fields come back empty, everything else as it was. *)
Definition stored_copy {P} (s : SessionStartState P) : SessionStartState P :=
  mkSessionStart (client_version s) (user_turns s) (inherited_prefix s) (frozen s) (requests s)
    (codex_requests s) (response_tool_calls s) (truncated_outputs s) (parts s) (parts_closed s)
    (parts_unmeasurable s) (codex_tools_logged s) None (claude_shape s)
    (on_values stored_blob (claude_blobs s)) (memory_units s) (instruction_load_cut s) None
    (instructions_capped s) None (on_values stored_call (calls s)) (last_codex_call s) []
    (files_untracked s) (held_bytes s) (shell_moved s) (collapsed_requests s).

(** The values the Rust types hold. *)
Definition opt_wf {A} (wf : A -> Prop) (x : option A) : Prop := match x with Some v => wf v | None => True end.
Definition array_wf {A} (n : nat) (wf : A -> Prop) (xs : list A) : Prop := length xs = n /\ Forall wf xs.
Definition map_wf {K V} `{RustOrd K} (wk : K -> Prop) (wv : V -> Prop) (m : list (K * V)) : Prop :=
  ksorted fst m /\ Forall (fun kv => wk kv.1 /\ wv kv.2) m /\ slice_sized m.
Definition key_wf (k : ClaudeRequestKey) : Prop := length (crk_digest k) = 32%nat /\ Forall u8 (crk_digest k).
Record request_wf (r : OpeningRequest) : Prop := {
  request_wf_tokens : u64 (or_context_tokens r) /\ u64 (or_uncached_input_tokens r) /\
    u64 (or_cache_read_tokens r) /\ u64 (or_output_tokens r);
  request_wf_writes : opt_wf u64 (or_cache_write_5m_tokens r) /\ opt_wf u64 (or_cache_write_1h_tokens r);
}.
Definition blob_wf (b : ClaudeBlob) : Prop := array_wf PARTS u64 (cb_parts b).
Record call_wf (c : OpeningCall) : Prop := {
  call_wf_response : u8 (oc_response c);
  call_wf_tool : rust_string (oc_tool c);
  call_wf_candidates : u64 (oc_candidates c);
}.
Record session_wf {P} (s : SessionStartState P) : Prop := {
  session_wf_text : opt_wf rust_string (client_version s) /\ opt_wf rust_string (last_codex_call s);
  session_wf_bytes : u8 (user_turns s) /\ u8 (codex_requests s);
  session_wf_requests : array_wf WINDOW_REQUESTS (opt_wf request_wf) (requests s);
  session_wf_pairs : array_wf 2 u64 (response_tool_calls s) /\ array_wf 2 u64 (truncated_outputs s) /\
    array_wf 2 u64 (files_untracked s);
  session_wf_parts : array_wf PARTS u64 (parts s);
  session_wf_shape : opt_wf (fun x => key_wf x.1.1 /\ u64 x.1.2 /\ u64 x.2) (claude_shape s);
  session_wf_blobs : map_wf key_wf blob_wf (claude_blobs s);
  session_wf_units : opt_wf u64 (memory_units s) /\ usize (held_bytes s);
  session_wf_calls : map_wf (fun k => rust_string (oci_id k)) call_wf (calls s);
}.

#[local] Arguments varint_bytes : simpl never.

(** ** The walk of a session opening *)
Definition files_moved : option string := Some "OpeningCall.files"%string.

(** A walk that reaches its end. *)
Definition finishes (t : Trace) : Prop := t.2 = None.
Lemma finishes_seq t1 t2 : finishes t1 -> finishes t2 -> finishes (tr_seq t1 t2).
Proof. destruct t1 as [cs [r|]]; [done|]. intros _. done. Qed.
Lemma finishes_raw bs : finishes (tr_raw bs).
Proof. done. Qed.
Lemma finishes_ok : finishes tr_ok.
Proof. done. Qed.
Lemma finishes_len_prefixed bs : finishes (tr_len_prefixed bs).
Proof. done. Qed.
Lemma finishes_each {T} (tr : T -> Trace) xs : (forall x, finishes (tr x)) -> finishes (tr_each tr xs).
Proof. intros Hx. induction xs; [done|]. by apply finishes_seq. Qed.
Lemma finishes_seq_trace {T} (tr : T -> Trace) xs : (forall x, finishes (tr x)) -> finishes (seq_trace tr xs).
Proof. intros Hx. apply finishes_seq; [done|]. by apply finishes_each. Qed.
Lemma finishes_option {T} {D : Durable T} {Dok : DurableOk D} mf x :
  (forall v, finishes (trace mf v)) -> finishes (option_trace mf x).
Proof. intros Hv. destruct x; [|done]. by apply finishes_seq. Qed.
Lemma finishes_bytes t : finishes t -> trace_bytes t = Some (concat t.1).
Proof. destruct t as [cs [r|]]; done. Qed.

Lemma finishes_pair {A B} {DA : Durable A} {DB : Durable B} {OA : DurableOk DA} {OB : DurableOk DB} mf (x : A * B) :
  finishes (trace mf x.1) -> finishes (trace mf x.2) -> finishes (pair_trace mf x).
Proof. apply finishes_seq. Qed.
Ltac finishing :=
  repeat (cbn -[tr_each seq_trace]; lazymatch goal with
    | |- finishes (pair_trace _ _) => apply finishes_pair
    | |- finishes (option_trace _ _) => apply finishes_option; intros ?
    | |- finishes (seq_trace _ _) => apply finishes_seq_trace; intros ?
    | |- finishes (tr_each _ _) => apply finishes_each; intros ?
    | |- finishes _ => exact eq_refl
    end).
Lemma session_finishes {P} (s : SessionStartState P) :
  finishes (trace (D := SessionStartState_durable P) files_moved s).
Proof. finishing. Qed.

(** *** Values, copies and bytes *)
Lemma request_dval r : request_wf r -> dval (D := OpeningRequest_durable) r.
Proof. intros [(? & ? & ? & ?) [? ?]]. cbn. by destruct r as [? ? ? [] [] ? ?]. Qed.
Lemma call_dval c : call_wf c -> dval (D := OpeningCall_durable) c.
Proof. intros [? ? ?]. by destruct c. Qed.
Lemma blob_dval b : blob_wf b -> dval (D := ClaudeBlob_durable) b.
Proof. by destruct b. Qed.
Lemma session_dval {P} (s : SessionStartState P) : session_wf s -> dval (D := SessionStartState_durable P) s.
Proof.
  intros [[? ?] [? ?] [Hr Hr'] (? & ? & ?) ? Hs Hb [? ?] Hc]. cbn.
  destruct Hb as (Hb & Hb' & Hb''), Hc as (Hc & Hc' & Hc''). unfold array_wf in *. destruct_and!.
  split_and!; try done.
  - eapply Forall_impl; [done|]. intros [x|]; [apply request_dval|done].
  - destruct (claude_shape s) as [[[k a] b]|]; [|done]. by destruct Hs as ([? ?] & ? & ?).
  - eapply Forall_impl; [done|]. intros [k b] [? ?]. split; [done|by apply blob_dval].
  - by destruct (instruction_load_cut s).
  - eapply Forall_impl; [done|]. intros [k b] [? ?]. split; [done|by apply call_dval].
Qed.

Lemma option_map_same {A} (f : A -> A) x : (forall v, f v = v) -> option_map f x = x.
Proof. intros Hf. destruct x; simpl; [by rewrite Hf|done]. Qed.
Lemma list_fmap_same {A} (f : A -> A) (xs : list A) : (forall v, f v = v) -> f <$> xs = xs.
Proof. intros Hf. induction xs; [done|]. by rewrite fmap_cons, Hf, IHxs. Qed.
Lemma request_retained r : retained (D := OpeningRequest_durable) r = r.
Proof. by destruct r as [? ? ? [] [] ? ?]. Qed.
Lemma session_retained {P} (s : SessionStartState P) :
  retained (D := SessionStartState_durable P) s = stored_copy s.
Proof.
  destruct s. cbn. unfold stored_copy. cbn. f_equal;
    first [ by apply option_map_same | by apply list_fmap_same | idtac ].
  - apply list_fmap_same. intros v. apply option_map_same, request_retained.
  - apply option_map_same. by intros [[[k] a] b].
  - apply list_fmap_ext. intros i [k [ps u c]] _. cbn. by rewrite list_fmap_id.
Qed.

Lemma seq_trace_on_values {K V} (tr : K * V -> Trace) (f : V -> V) m :
  (forall k v, tr (k, f v) = tr (k, v)) -> seq_trace tr (on_values f m) = seq_trace tr m.
Proof.
  intros Hf. unfold seq_trace, on_values. rewrite length_fmap. f_equal.
  induction m as [|[k v] m IH]; [done|]. rewrite fmap_cons. unfold tr_each in *.
  cbn [foldr fst snd]. by rewrite Hf, IH.
Qed.
Lemma pair_trace_ext {A B} {DA : Durable A} {DB : Durable B} {OA : DurableOk DA} {OB : DurableOk DB} mf
    (a a' : A) (b b' : B) :
  trace mf a = trace mf a' -> trace mf b = trace mf b' -> pair_trace mf (a, b) = pair_trace mf (a', b').
Proof. unfold pair_trace. cbn. by intros -> ->. Qed.
(** The bytes are those of the stored copy. *)
Lemma session_trace_copy {P} (s : SessionStartState P) :
  trace (D := SessionStartState_durable P) files_moved (stored_copy s) =
  trace (D := SessionStartState_durable P) files_moved s.
Proof.
  cbn -[tr_each seq_trace pair_trace].
  repeat (lazymatch goal with |- pair_trace _ (_, _) = pair_trace _ (_, _) => apply pair_trace_ext end;
    cbn -[tr_each seq_trace pair_trace]); try exact eq_refl;
    apply seq_trace_on_values; by intros k [].
Qed.

(** A written session opening, under any cap. *)
Lemma session_written {P} limit (s : SessionStartState P) :
  usize limit -> session_wf s ->
  let t := trace (D := SessionStartState_durable P) files_moved s in
  count_write limit (with_moved_field "OpeningCall.files" (@put _ (SessionStartState_durable P) s)) =
    Some (if limit <? slice_len (concat t.1) then inl TooLarge else inr (concat t.1)).
Proof.
  intros Hl Hs t. rewrite (count_write_traced limit _ t Hl).
  - unfold count_write_spec. rewrite (session_finishes s : t.2 = None). done.
  - apply traced_moved. apply (put_traced (D := SessionStartState_durable P)). by apply session_dval.
Qed.

(** The walk of a call that names files: its own, the moved one, and that of
    its stored form. *)
Lemma call_traces c :
  oc_files c <> [] ->
  exists cs rest,
    trace (D := OpeningCall_durable) None c = (cs, Some (NonEmpty "OpeningCall.files")) /\
    trace (D := OpeningCall_durable) files_moved c = (cs ++ rest, None) /\
    trace_bytes (trace (D := OpeningCall_durable) None (stored_call c)) = Some (concat (cs ++ rest)).
Proof.
  destruct c as [r t n [|f fs] a tr]; [done|]. intros _.
  exists [varint_bytes r; varint_bytes (slice_len (as_bytes t)); as_bytes t; varint_bytes n],
    [[Z.b2z a]; [Z.b2z tr]]. by destruct a, tr.
Qed.

(** The body a build with [length xs] opening parts writes for a blob. *)
Definition put_blob_of_build (xs : list Z) (unmeasurable : bool) : EncM :=
  put_grown (length xs) enc_varint xs ;;; bool_put unmeasurable.

Lemma blob_of_build_bytes limit xs unmeasurable bytes :
  usize limit -> Forall u64 xs -> usize (Z.of_nat (length xs)) ->
  count_write limit (put_blob_of_build xs unmeasurable) = Some (inr bytes) ->
  exists b1 rest, trace_bytes (seq_trace (trace (D := u64_durable) None) xs) = Some b1 /\
    b1 = varint_bytes (Z.of_nat (length xs)) ++ rest /\
    bytes = b1 ++ [Z.b2z unmeasurable] /\ slice_len bytes <= limit /\ Forall u8 bytes.
Proof.
  intros Hl Hx Hn Hw. set (Dg := grown_durable (length xs) u64_durable 0).
  assert (H0 : dval (D := u64_durable) 0) by done.
  pose (Og := grown_ok (D := u64_durable) (length xs) 0 Hn H0 : DurableOk Dg).
  assert (Hv : dval (D := pair_durable Dg bool_durable) (xs, unmeasurable)) by done.
  destruct (record_written (D := pair_durable Dg bool_durable) limit (xs, unmeasurable) bytes Hl Hv Hw) as [Hb Hle].
  pose proof (put_u8 _ _ _ Hv Hb) as Hu. cbn in Hb. unfold pair_trace in Hb. cbn -[seq_trace] in Hb.
  apply trace_bytes_seq_Some in Hb as (b1 & b2 & H1 & H2 & ->). rewrite trace_bytes_raw in H2. injection H2 as <-.
  pose proof H1 as H1'. unfold seq_trace in H1'. tr_inv. by eexists _, _.
Qed.

Lemma blob_take d :
  @dtake _ ClaudeBlob_durable d =
    (try? (ps, d) := take_grown PARTS (@dtake _ u64_durable) 0 d in
     try? (u, d) := bool_take d in Some (mkClaudeBlob ps u None, d)).
Proof.
  change (@dtake _ ClaudeBlob_durable d) with
    (try? (x, d) := fields_take ClaudeBlob_fields d in
     Some ((fun '(p, (u, (c, _))) => mkClaudeBlob p u c) x, d)).
  cbn -[take_grown bool_take]. destruct (take_grown _ _ _ d) as [[ps d1]|]; [|done].
  by destruct (bool_take d1) as [[]|].
Qed.

(** *** Maps from any entry order *)
Definition index_durable : Durable (list (string * Z)) := map_durable string_key u32_durable.

Lemma map_take_vec {K V} `{RustOrd K} {DK : Durable K} (KK : DurableKey DK) (DV : Durable V) d :
  @dtake _ (map_durable KK DV) d =
    (try? (xs, d) := @dtake _ (vec_durable (pair_durable DK DV)) d in
     try? m := fold_opt map_step [] xs in Some (m, d)).
Proof.
  cbn. unfold map_take, vec_take. destruct (take_len d) as [[len d1]|]; [|done].
  rewrite take_fold_times. by destruct (take_times _ _ d1) as [[xs d2]|].
Qed.

(** Inserting any order of a map's entries rebuilds the map; a repeated key
    makes the insertion fail. *)
Lemma entries_rebuild {K V} `{RustOrdLaws K} (m xs : list (K * V)) :
  ksorted fst m -> xs ≡ₚ m -> fold_opt map_step [] xs = Some m.
Proof.
  intros Hm Hp. rewrite (fold_opt_ext _ _ _ _ map_step_keyed).
  assert (Hn : NoDup (fst <$> xs)) by (rewrite Hp; by apply ksorted_NoDup).
  destruct (proj2 (keyed_fold_dup fst [] xs (ksorted_nil _))) as [s Hs].
  { split; [done|]. intros x y _ Hy. by apply not_elem_of_nil in Hy. }
  rewrite Hs. f_equal. apply keyed_fold_Some in Hs as (Hsort & Hin & _); [|apply ksorted_nil].
  apply bt_ext; [done..|]. intros e. rewrite Hin, Hp. set_solver.
Qed.
Lemma entries_repeat {K V} `{RustOrdLaws K} (xs : list (K * V)) :
  ~ NoDup (fst <$> xs) -> fold_opt map_step [] xs = None.
Proof.
  intros Hn. rewrite (fold_opt_ext _ _ _ _ map_step_keyed).
  destruct (fold_opt _ [] xs) eqn:E; [|done]. exfalso. apply Hn.
  apply (keyed_fold_dup fst [] xs (ksorted_nil _)). eauto.
Qed.

(** ** Properties *)

(** C3: A session opening is refused by the writer only when it outgrows the
    cap: under any cap it is either too large or written as the same bytes, and
    those bytes read back, with nothing left over, as the stored copy: every
    counter, tool name, id and key as it was, and the instruction text, the
    configuration digests, the prelude parser and all file paths empty. *)
Theorem opening_survives_restart {P} limit (s : SessionStartState P) :
  usize limit -> session_wf s ->
  exists bytes,
    count_write limit (with_moved_field "OpeningCall.files" (@put _ (SessionStartState_durable P) s)) =
      Some (if limit <? slice_len bytes then inl TooLarge else inr bytes) /\
    (slice_len bytes < 2 ^ 63 -> exists d,
      @dtake _ (SessionStartState_durable P) (dec_new bytes) = Some (stored_copy s, d) /\
      dec_finish d = true).
Proof.
  intros Hl Hs. pose proof (session_written limit s Hl Hs) as Hw. cbv zeta in Hw.
  eexists. split; [exact Hw|]. intros Hlen.
  destruct (record_read (D := SessionStartState_durable P) (mf := files_moved) s _ (session_dval s Hs)
    (finishes_bytes _ (session_finishes s)) Hlen) as (d & Ht & Hf & _).
  exists d. by rewrite Ht, session_retained.
Qed.

(** C24: Content never reaches the disk: two session openings that differ only
    in instruction text, configuration digests, prelude parser or file paths
    are written as the same bytes. *)
Theorem content_never_stored {P} limit (s1 s2 : SessionStartState P) :
  usize limit -> session_wf s1 -> session_wf s2 -> stored_copy s1 = stored_copy s2 ->
  count_write limit (with_moved_field "OpeningCall.files" (@put _ (SessionStartState_durable P) s1)) =
  count_write limit (with_moved_field "OpeningCall.files" (@put _ (SessionStartState_durable P) s2)).
Proof.
  intros Hl H1 H2 Hc. rewrite !session_written by done.
  by rewrite <-(session_trace_copy s1), <-(session_trace_copy s2), Hc.
Qed.

(** The verifying walk, which builds no value, accepts exactly the byte
    strings that decode as a session opening, and stops where decoding stops.
    This holds for any bytes, corrupt ones included. *)
Theorem opening_verify_exact {P} bytes :
  Forall u8 bytes -> slice_len bytes < 2 ^ 63 ->
  @verify _ (SessionStartState_durable P) (dec_new bytes) =
  option_map snd (@dtake _ (SessionStartState_durable P) (dec_new bytes)).
Proof. intros Hb Hl. apply (verify_take (D := SessionStartState_durable P)). by apply dec_wf_new. Qed.

(** A call that names files is refused on its own: with the cap its stored
    form fits in, the writer answers that [OpeningCall.files] is not empty.
    Under the moved-field allowance for exactly that path it writes the bytes
    of the call without files; the allowance ends with the walk it was given
    to, so a second write in the same record is refused again. *)
Theorem opening_files_moved limit c bytes :
  usize limit -> call_wf c -> oc_files c <> [] ->
  count_write limit (@put _ OpeningCall_durable (stored_call c)) = Some (inr bytes) ->
  count_write limit (@put _ OpeningCall_durable c) = Some (inl (NonEmpty "OpeningCall.files")) /\
  count_write limit (with_moved_field "OpeningCall.files" (@put _ OpeningCall_durable c)) = Some (inr bytes) /\
  (2 * slice_len bytes <= limit ->
   count_write limit (with_moved_field "OpeningCall.files" (@put _ OpeningCall_durable c) ;;;
                      @put _ OpeningCall_durable c) = Some (inl (NonEmpty "OpeningCall.files"))).
Proof.
  intros Hl Hc Hf Hw. pose proof (call_dval c Hc) as Hv. pose proof (call_dval (stored_call c)) as Hv'.
  specialize (Hv' ltac:(by destruct Hc)). apply (record_written (D := OpeningCall_durable)) in Hw as [Hb Hle]; [|done..].
  destruct (call_traces c Hf) as (cs & rest & H1 & H2 & H3). rewrite H3 in Hb. injection Hb as <-.
  pose proof (put_traced (D := OpeningCall_durable) c None Hv) as T1. rewrite H1 in T1.
  pose proof (put_traced (D := OpeningCall_durable) c files_moved Hv) as T2. rewrite H2 in T2.
  pose proof (traced_moved _ _ _ T2) as T3.
  assert (Hcs : chunks_len cs <= chunks_len (cs ++ rest)).
  { unfold chunks_len. rewrite concat_app, slice_len_app. pose proof (slice_len_nonneg (concat rest)). lia. }
  unfold chunks_len in Hcs. split_and!.
  - rewrite (count_write_traced _ _ _ Hl T1). unfold count_write_spec. cbn. unfold chunks_len.
    by rewrite (proj2 (Z.ltb_ge _ _)) by lia.
  - rewrite (count_write_traced _ _ _ Hl T3). unfold count_write_spec. cbn. unfold chunks_len.
    by rewrite (proj2 (Z.ltb_ge _ _)) by lia.
  - intros H2l. rewrite (count_write_traced _ _ _ Hl (traced_seq _ _ _ _ _ T3 T1)).
    unfold count_write_spec, tr_seq. cbn. unfold chunks_len. rewrite concat_app, slice_len_app.
    by rewrite (proj2 (Z.ltb_ge _ _)) by lia.
Qed.

(** Opening parts are append-only: a blob written by a build with fewer
    parts reads back with its parts in place and zeros for the parts this
    build appended, and never with a digest; one written by a build with more
    parts is corrupt to both walks. *)
Theorem blob_read_across_builds limit xs unmeasurable bytes :
  limit < 2 ^ 63 -> usize limit -> Forall u64 xs -> usize (Z.of_nat (length xs)) ->
  count_write limit (put_blob_of_build xs unmeasurable) = Some (inr bytes) ->
  ((length xs <= PARTS)%nat -> exists d,
     @dtake _ ClaudeBlob_durable (dec_new bytes) =
       Some (mkClaudeBlob (xs ++ replicate (PARTS - length xs) 0) unmeasurable None, d) /\
     dec_finish d = true) /\
  ((PARTS < length xs)%nat -> @dtake _ ClaudeBlob_durable (dec_new bytes) = None /\
     @verify _ ClaudeBlob_durable (dec_new bytes) = None).
Proof.
  intros Hlim Hl Hx Hn Hw.
  destruct (blob_of_build_bytes limit xs unmeasurable bytes Hl Hx Hn Hw) as (b1 & rest & Hb1 & Hr & -> & Hlen & Hu).
  assert (Hd : dec_wf (dec_new (b1 ++ [Z.b2z unmeasurable]))) by (apply dec_wf_new; [lia|done]).
  assert (E : dec_rest (dec_new (b1 ++ [Z.b2z unmeasurable])) = b1 ++ [Z.b2z unmeasurable]) by done.
  split; intros Hp.
  - exists (advance (length (b1 ++ [Z.b2z unmeasurable])) (dec_new (b1 ++ [Z.b2z unmeasurable]))).
    split; [|by apply bool_decide_eq_true_2].
    rewrite blob_take, (take_grown_stored (Dok := u64_ok) PARTS 0 xs None b1 _ _ Hp Hx Hn Hb1 Hd E).
    rewrite <-advance_app. dec_at E. rewrite list_fmap_id, resize_le by done.
    unfold bool_take. rewrite (dec_raw_app [Z.b2z unmeasurable] [] _ Hd0 E0 : dec_raw 1 _ = _).
    by destruct unmeasurable.
  - assert (Hnone : @dtake _ ClaudeBlob_durable (dec_new (b1 ++ [Z.b2z unmeasurable])) = None).
    { rewrite blob_take. rewrite Hr, <-app_assoc in *.
      by rewrite (take_grown_longer (D := u64_durable) PARTS (length xs) 0 _ (rest ++ [Z.b2z unmeasurable]) Hp Hn Hd E). }
    split; [done|]. rewrite (verify_take (D := ClaudeBlob_durable)) by done. by rewrite Hnone.
Qed.

Definition is_retired (b : CodexOwnershipBoundary) : bool :=
  match b with AwaitingParentPrefix => true | _ => false end.
Definition ownership_tag (b : CodexOwnershipBoundary) : Z :=
  match b with
  | Undetermined => 0 | AllLocal => 1 | AwaitingLegacyTrigger => 2 | AwaitingParentPrefix => 3
  | Ordinal _ => 4 | NativeCreatedThread => 5 | AmbiguousFork => 6
  end.
(** The bytes a build that still wrote the retired boundary stored. *)
Definition ownership_bytes (b : CodexOwnershipBoundary) : list Z :=
  varint_bytes (ownership_tag b) ++ match b with Ordinal start => varint_bytes start | _ => [] end.

(** Every ownership boundary reads back from its stored bytes, the retired
    one included, and the walk stops right after it; the writer emits exactly
    those bytes for the live ones and refuses to write the retired one; an
    unknown tag is corrupt. *)
Theorem ownership_boundary_stored b s tag :
  (forall start, b = Ordinal start -> u64 start) -> Forall u8 s -> slice_len s < 2 ^ 62 ->
  6 < tag < 2 ^ 64 ->
  @dtake _ CodexOwnershipBoundary_durable (dec_new (ownership_bytes b ++ s)) =
    Some (b, mkDec (ownership_bytes b ++ s) (length (ownership_bytes b))) /\
  count_write 11 (@put _ CodexOwnershipBoundary_durable b) =
    Some (if is_retired b then inl (NonEmpty "retired enum variant") else inr (ownership_bytes b)) /\
  @dtake _ CodexOwnershipBoundary_durable (dec_new (varint_bytes tag ++ s)) = None.
Proof.
  intros Hb Hs Hl Htag. assert (Hn : u64 (ownership_tag b)) by by destruct b.
  assert (Hwf : forall v t, u64 v -> Forall u8 t -> slice_len t < 2 ^ 62 + 11 -> dec_wf (dec_new (varint_bytes v ++ t))).
  { intros v t Hv Ht Hlt. apply dec_wf_new; [|apply Forall_app; auto with ottto].
    rewrite slice_len_app. pose proof (varint_bytes_length v Hv). unfold slice_len in *. lia. }
  split_and!.
  - unfold ownership_bytes. rewrite <-app_assoc. destruct b as [| | | |start| |];
      try (cbn -[dec_new dec_varint varint_bytes];
           (erewrite dec_varint_enc; [|done|apply Hwf; [done..|lia]|done]); reflexivity).
    specialize (Hb start eq_refl). pose proof (varint_bytes_length start Hb).
    assert (Hd : dec_wf (dec_new (varint_bytes 4 ++ varint_bytes start ++ s))).
    { apply Hwf; [done|apply Forall_app; auto with ottto|]. rewrite slice_len_app. unfold slice_len in *. lia. }
    assert (E : dec_rest (dec_new (varint_bytes 4 ++ varint_bytes start ++ s)) =
      varint_bytes 4 ++ varint_bytes start ++ s) by done.
    change (ownership_tag (Ordinal start)) with 4. cbn -[dec_new dec_varint varint_bytes].
    rewrite (dec_varint_enc 4 _ _ ltac:(done) Hd E). dec_at E. cbn -[dec_new dec_varint varint_bytes].
    by rewrite (dec_varint_enc start _ _ Hb Hd0 E0), advance_app.
  - assert (Hv : dval (D := CodexOwnershipBoundary_durable) b) by (destruct b; cbn; auto).
    rewrite (count_write_traced 11 _ _ ltac:(done) (put_traced b None Hv)).
    destruct b as [| | | |start| |]; try done. specialize (Hb start eq_refl).
    assert (trace (D := CodexOwnershipBoundary_durable) None (Ordinal start) =
      ([varint_bytes 4; varint_bytes start], None)) as -> by done.
    unfold count_write_spec, chunks_len. cbn [concat fst snd]. rewrite app_nil_r, slice_len_app.
    pose proof (varint_bytes_length start Hb). rewrite (proj2 (Z.ltb_ge _ _)); [done|].
    change (slice_len (varint_bytes 4)) with 1. unfold slice_len. lia.
  - assert (Hu : u64 tag) by (unfold uint; lia).
    cbn -[dec_new dec_varint varint_bytes Z.eqb].
    rewrite (dec_varint_enc tag _ s Hu); [|apply Hwf; [done..|lia]|done].
    by rewrite !(proj2 (Z.eqb_neq tag _)) by lia.
Qed.

(** A stored response index (a map from text keys to 32-bit slots) reads
    back as the same map whatever order its entries were written in, and both
    walks read to the end; if any key is stored twice, both walks call the
    record corrupt. *)
Theorem index_reads_any_order limit xs m bytes :
  limit < 2 ^ 63 -> usize limit ->
  Forall (fun kv => rust_string kv.1 /\ u32 kv.2) xs -> slice_sized xs ->
  count_write limit (put_map string_put enc_varint xs) = Some (inr bytes) ->
  (ksorted fst m -> xs ≡ₚ m -> exists d,
     @dtake _ index_durable (dec_new bytes) = Some (m, d) /\ dec_finish d = true /\
     @verify _ index_durable (dec_new bytes) = Some d) /\
  (~ NoDup xs.*1 -> @dtake _ index_durable (dec_new bytes) = None /\
     @verify _ index_durable (dec_new bytes) = None).
Proof.
  intros Hlim Hl Hx Hs Hw. set (DV := vec_durable (pair_durable string_durable u32_durable)).
  assert (Hv : dval (D := DV) xs) by done.
  destruct (record_written (D := DV) limit xs bytes Hl Hv Hw) as [Hb Hle].
  destruct (record_read (D := DV) xs bytes Hv Hb ltac:(lia)) as (d & Ht & Hf & _).
  assert (Hd : dec_wf (dec_new bytes)) by (apply dec_wf_new; [lia|by eapply (put_u8 (D := DV))]).
  assert (Htake : @dtake _ index_durable (dec_new bytes) =
    (try? m := fold_opt map_step [] xs in Some (m, d))).
  { unfold index_durable. rewrite map_take_vec. fold DV. rewrite Ht.
    assert (retained (D := DV) xs = xs) as -> by (apply list_fmap_same; by intros []). done. }
  rewrite (verify_take (D := index_durable)) by done. rewrite Htake. split.
  - intros Hm Hp. rewrite (entries_rebuild m xs Hm Hp). eauto.
  - intros Hn. by rewrite (entries_repeat xs Hn).
Qed.

(** A digest text is stored in 32 bytes and reads back as the same text,
    and every 32 stored bytes come from exactly one text; a text that is not 64
    lower-case hex digits is refused with its field's path. *)
Theorem digest_text_stored path s bytes :
  (length bytes = 32%nat -> Forall u8 bytes ->
     count_write 32 (put_h (HDigest := hex64) (of_bytes (hex_encode bytes)) path) = Some (inr bytes) /\
     take_h (HDigest := hex64) (dec_new bytes) = Some (of_bytes (hex_encode bytes), mkDec bytes 32)) /\
  (count_write 32 (put_h (HDigest := hex64) s path) = Some (inl (NotDigest path)) \/
   exists bs, length bs = 32%nat /\ s = of_bytes (hex_encode bs) /\
     count_write 32 (put_h (HDigest := hex64) s path) = Some (inr bs)).
Proof.
  assert (Hput : forall text, count_write 32 (put_h (HDigest := hex64) text path) = Some (match hex_digest text with
    | Some bs => inr bs | None => inl (NotDigest path) end)).
  { intros text. pose proof (put_traced (DurableOk := hex64_ok path) text None I) as Ht.
    rewrite (count_write_traced 32 (put_h (HDigest := hex64) text path) _ ltac:(done) Ht). cbn. destruct (hex_digest text) as [bs|] eqn:E; [|done]. apply hex_digest_Some in E as (_ & _ & Hn).
    unfold count_write_spec, tr_raw, chunks_len, slice_len. cbn -[Z.of_nat]. rewrite app_nil_r, Hn. done. }
  split.
  - intros Hl Hu. rewrite Hput, hex_digest_encode by done. split; [done|]. cbn. unfold hex64_take.
    assert (E : dec_rest (dec_new bytes) = bytes ++ []) by by rewrite app_nil_r.
    rewrite (raw32_app bytes (dec_new bytes) [] Hl); [|apply dec_wf_new; [unfold slice_len; lia|done]|done].
    by rewrite Hl.
  - rewrite Hput. destruct (hex_digest s) as [bs|] eqn:E; [right|by left].
    apply hex_digest_Some in E as (<- & Hu & Hn). eauto.
Qed.

(** Every signed 64-bit value is written in at most ten bytes and reads
    back as itself, right after which reading continues; as an [i32] the same
    bytes read back only if the value fits, and as an unsigned value they read
    as a [u64]. *)
Theorem signed_stored v s :
  sint 64 v -> Forall u8 s -> slice_len s < 2 ^ 62 ->
  exists bytes,
    count_write 10 (put_signed v) = Some (inr bytes) /\
    take_signed (dec_new (bytes ++ s)) = Some (v, mkDec (bytes ++ s) (length bytes)) /\
    i32_take (dec_new (bytes ++ s)) = (if in_sint 32 v then Some (v, mkDec (bytes ++ s) (length bytes)) else None) /\
    dec_varint (dec_new (bytes ++ s)) = Some (zigzag v, mkDec (bytes ++ s) (length bytes)).
Proof.
  intros Hv Hs Hl. pose proof (zigzag_u64 v Hv) as Hz. pose proof (varint_bytes_length _ Hz) as Hn.
  exists (varint_bytes (zigzag v)).
  assert (Hd : dec_wf (dec_new (varint_bytes (zigzag v) ++ s))).
  { apply dec_wf_new; [|apply Forall_app; auto with ottto]. rewrite slice_len_app. unfold slice_len in *. lia. }
  assert (Hr : dec_varint (dec_new (varint_bytes (zigzag v) ++ s)) =
    Some (zigzag v, mkDec (varint_bytes (zigzag v) ++ s) (length (varint_bytes (zigzag v))))).
  { by rewrite (dec_varint_enc _ _ s Hz Hd). }
  split_and!; [| | |done].
  - rewrite (count_write_traced 10 (put_signed v) _ ltac:(done) (traced_raw None (varint_bytes (zigzag v)))).
    unfold count_write_spec, tr_raw, chunks_len, slice_len. cbn [fst snd concat]. rewrite app_nil_r.
    by rewrite (proj2 (Z.ltb_ge _ _)) by lia.
  - unfold take_signed. by rewrite Hr, unzigzag_zigzag.
  - unfold i32_take, take_signed, try_sint. rewrite Hr, unzigzag_zigzag by done. by destruct (in_sint 32 v).
Qed.

(** ** Witnesses *)
Definition sample_digest : list Z := Z.of_nat <$> seq 100 32.
Definition sample_call (fs : list string) : OpeningCall := mkOpeningCall 1 "Read" 2 fs true false.
Definition sample_opening (content : option string) (fs : list string) : SessionStartState unit :=
  mkSessionStart (Some "1.2.3"%string) 1 false true
    [Some (mkOpeningRequest 900 100 800 None (Some 5) true 42); None; None]
    0 [1; 0] [0; 0] [1; 2; 3; 0; 0; 0; 0; 0; 0; 0; 0] true false false
    (Some (mkConfigDigest 1 2 3)) (Some (mkClaudeRequestKey sample_digest, 7, 8))
    [(mkClaudeRequestKey sample_digest, mkClaudeBlob (replicate 11 4) false (Some (mkConfigDigest 9 9 9)))]
    (Some 12) (Some false) content false None
    [(mkOpeningCallId "call-1", sample_call fs)] (Some "call-1"%string) [] [0; 0] 640 false true.
Lemma sample_opening_wf content fs : session_wf (sample_opening content fs).
Proof.
  split; cbn; unfold opt_wf, array_wf, map_wf, rust_string, key_wf, blob_wf, array_wf, slice_sized; cbn;
    split_and!; try done; repeat (constructor; try done).
Qed.

Definition sample_full : SessionStartState unit := sample_opening (Some "text"%string) ["src/a.rs"%string].

Lemma opening_survives_restart_witness : exists bytes,
  count_write 65536 (with_moved_field "OpeningCall.files" (@put _ (SessionStartState_durable unit) sample_full)) =
    Some (if 65536 <? slice_len bytes then inl TooLarge else inr bytes) /\
  (slice_len bytes < 2 ^ 63 -> exists d,
    @dtake _ (SessionStartState_durable unit) (dec_new bytes) = Some (stored_copy sample_full, d) /\
    dec_finish d = true).
Proof.
  apply (opening_survives_restart 65536 sample_full); [done|apply sample_opening_wf].
Defined.

Lemma content_never_stored_witness :
  count_write 4096 (with_moved_field "OpeningCall.files" (@put _ (SessionStartState_durable unit) sample_full)) =
  count_write 4096 (with_moved_field "OpeningCall.files"
    (@put _ (SessionStartState_durable unit) (sample_opening None ["secret"%string; "b"%string]))).
Proof.
  apply (content_never_stored 4096 sample_full (sample_opening None ["secret"%string; "b"%string]));
    [done|apply sample_opening_wf|apply sample_opening_wf|done].
Defined.

Lemma opening_verify_exact_witness :
  @verify _ (SessionStartState_durable unit) (dec_new [0; 1; 2; 0; 0]) =
  option_map snd (@dtake _ (SessionStartState_durable unit) (dec_new [0; 1; 2; 0; 0])).
Proof. apply (opening_verify_exact [0; 1; 2; 0; 0]); [repeat (constructor; try done)|done]. Defined.

Lemma opening_files_moved_witness :
  count_write 64 (@put _ OpeningCall_durable (sample_call ["a"%string])) = Some (inl (NonEmpty "OpeningCall.files")) /\
  count_write 64 (with_moved_field "OpeningCall.files" (@put _ OpeningCall_durable (sample_call ["a"%string]))) =
    Some (inr [1; 4; 82; 101; 97; 100; 2; 1; 0]).
Proof.
  destruct (opening_files_moved 64 (sample_call ["a"%string]) [1; 4; 82; 101; 97; 100; 2; 1; 0]) as (H1 & H2 & _).
  - done.
  - by split.
  - done.
  - vm_compute. reflexivity.
  - split; [exact H1|exact H2].
Defined.

Lemma blob_read_across_builds_witness :
  (exists d, @dtake _ ClaudeBlob_durable (dec_new [3; 10; 20; 30; 1]) =
    Some (mkClaudeBlob [10; 20; 30; 0; 0; 0; 0; 0; 0; 0; 0] true None, d)) /\
  @dtake _ ClaudeBlob_durable (dec_new (12 :: replicate 12 7 ++ [0])) = None.
Proof.
  split.
  - destruct (blob_read_across_builds 64 [10; 20; 30] true [3; 10; 20; 30; 1]) as [H _];
      [done|done|repeat (constructor; try done)|done|vm_compute; reflexivity|].
    destruct H as (d & Hd & _); [vm_compute; lia|]. exists d. exact Hd.
  - destruct (blob_read_across_builds 64 (replicate 12 7) false (12 :: replicate 12 7 ++ [0])) as [_ H];
      [done|done|repeat (constructor; try done)|done|vm_compute; reflexivity|].
    apply H. vm_compute. lia.
Defined.

Lemma ownership_boundary_stored_witness :
  @dtake _ CodexOwnershipBoundary_durable (dec_new [4; 172; 2; 9]) = Some (Ordinal 300, mkDec [4; 172; 2; 9] 3) /\
  count_write 11 (@put _ CodexOwnershipBoundary_durable AwaitingParentPrefix) =
    Some (inl (NonEmpty "retired enum variant")).
Proof.
  destruct (ownership_boundary_stored (Ordinal 300) [9] 7) as (H1 & _ & _);
    [by intros ? [= <-]|repeat (constructor; try done)|done|done|].
  destruct (ownership_boundary_stored AwaitingParentPrefix [] 7) as (_ & H2 & _); [done|done|done|done|].
  split; [exact H1|exact H2].
Defined.

Lemma index_reads_any_order_witness :
  (exists d, @dtake _ index_durable (dec_new [2; 1; 98; 5; 1; 97; 6]) = Some ([("a"%string, 6); ("b"%string, 5)], d)) /\
  @dtake _ index_durable (dec_new [2; 1; 97; 5; 1; 97; 6]) = None.
Proof.
  split.
  - destruct (index_reads_any_order 64 [("b"%string, 5); ("a"%string, 6)] [("a"%string, 6); ("b"%string, 5)]
      [2; 1; 98; 5; 1; 97; 6]) as [H _];
      [done|done|repeat (constructor; try done)|done|vm_compute; reflexivity|].
    destruct H as (d & Hd & _); [by apply ascending_ksorted|apply perm_swap|]. exists d. exact Hd.
  - destruct (index_reads_any_order 64 [("a"%string, 5); ("a"%string, 6)] [] [2; 1; 97; 5; 1; 97; 6]) as [_ H];
      [done|done|repeat (constructor; try done)|done|vm_compute; reflexivity|].
    apply H. intros [Hn _]%NoDup_cons. apply Hn. cbn. by apply elem_of_cons; left.
Defined.

Lemma digest_text_stored_witness :
  take_h (HDigest := hex64) (dec_new sample_digest) = Some (of_bytes (hex_encode sample_digest), mkDec sample_digest 32) /\
  count_write 32 (put_h (HDigest := hex64) (of_bytes (hex_encode sample_digest)) "OrgMarkers.context_digest") =
    Some (inr sample_digest).
Proof.
  destruct (digest_text_stored "OrgMarkers.context_digest" "" sample_digest) as [H _].
  destruct H as [H1 H2]; [done|repeat (constructor; try done)|]. split; [exact H2|exact H1].
Defined.

Lemma signed_stored_witness : exists bytes,
  count_write 10 (put_signed (- 2 ^ 63)) = Some (inr bytes) /\
  i32_take (dec_new (bytes ++ [1])) = None.
Proof.
  destruct (signed_stored (- 2 ^ 63) [1]) as (bytes & H1 & _ & H2 & _); [done|repeat (constructor; try done)|done|].
  exists bytes. split; [exact H1|exact H2].
Defined.
