(* ===== verification/ClaudeRecords.v ===== *)
(** Retained Claude response records
    (crates/ottto-service/src/snapshots/claude_response_records.rs, with the
    selector captures and the observing step of snapshots/scan/accumulator.rs
    and the request slot of snapshots/cache_observations.rs).

    A file's responses are kept until it is fully read, in a compact form:
    selectors are interned, texts equal to the response's first record are
    back-references, and a request slot that repeats its record keeps only its
    counts.  Resolution decodes a response's records, orders them by provider
    time and merges them. *)
From S2P Require Import Prelude OrdMap Std DurableCodec DurableTypes DurableEntries DurableContainers.
From S2P Require Import DurableDigest DurableStruct DurableSchemas UsageTotals.
Local Open Scope Z_scope.

(** [BTreeMap<String, String>]: sorted entries. *)
Abbreviation StringMap := (list (string * string)).

#[export] Instance UsageCosts_eq_dec : EqDecision UsageCosts.
Proof. solve_decision. Defined.

(** ** Data *)
Record RequestSlot := mkRequestSlot {
  rs_request_ref : string;
  rs_occurred_at : string;
  rs_model : option string;
  rs_effort : option string;
  rs_prompt_tokens : option Z;
  rs_cache_read_tokens : option Z;
  rs_cache_creation_tokens : option Z;
  rs_uncached_tokens : option Z;
  rs_output_tokens : option Z;
}.
Record SelectorCapture := mkSelector { sel_context : StringMap; sel_sources : StringMap }.
#[export] Instance SelectorCapture_eq_dec : EqDecision SelectorCapture.
Proof. solve_decision. Defined.

Record ClaudeSelectorTable := mkSelectorTable { selectors_of : list SelectorCapture }.
Inductive CompactClaudeSelector :=
| Interned (index : Z)
| Inline (selector : SelectorCapture).
Inductive ClaudeRecordText :=
| SameAsFirstRecord
| Own (value : option string).
Record CompactClaudeUsage := mkCompactUsage {
  cu_input_tokens : Z;
  cu_output_tokens : Z;
  cu_cache_read_tokens : Z;
  cu_cache_creation_5m_tokens : Z;
  cu_cache_creation_1h_tokens : Z;
  cu_reasoning_output_tokens : Z;
  cu_unattributed_total_tokens : Z;
  cu_request_count : Z;
  cu_costs : option UsageCosts;
}.
Record ClaudeSlotTokens := mkSlotTokens {
  st_prompt_tokens : option Z;
  st_cache_read_tokens : option Z;
  st_cache_creation_tokens : option Z;
  st_uncached_tokens : option Z;
  st_output_tokens : option Z;
}.
Inductive ClaudeSlot :=
| Derived (tokens : ClaudeSlotTokens)
| Explicit (slot : RequestSlot).
Record ClaudeToolUse := mkToolUse { tu_id : string; tu_name : string }.
Record CompactClaudeResponseRecord := mkCompactRecord {
  cr_usage : CompactClaudeUsage;
  cr_slot : ClaudeSlot;
  cr_physical_sequence : Z;
  cr_model : ClaudeRecordText;
  cr_reasoning_effort : ClaudeRecordText;
  cr_request_id : ClaudeRecordText;
  cr_timestamp : option string;
  cr_computed_effective_input_context : option Z;
  cr_selector : CompactClaudeSelector;
  cr_tool_uses : list ClaudeToolUse;
}.
Record ClaudeResponseRecord := mkResponseRecord {
  cache_slot : RequestSlot;
  physical_sequence : Z;
  usage : UsageTotals;
  model : option string;
  selector : SelectorCapture;
  reasoning_effort : option string;
  request_id : option string;
  timestamp : option string;
  computed_effective_input_context : option Z;
  tool_uses : StringMap;
}.
Record ClaudeResponseObservation := mkResponseObservation {
  o_sequence : Z;
  o_preceding_user_timestamp : option string;
  o_records : list CompactClaudeResponseRecord;
  o_record_limit_exceeded : bool;
  o_desktop_request : bool;
  o_rule_epoch : Z;
}.
Record ResolvedClaudeResponse := mkResolved {
  r_cache_slot : RequestSlot;
  r_sequence : Z;
  r_usage : UsageTotals;
  r_model : option string;
  r_selector : SelectorCapture;
  r_reasoning_effort : option string;
  r_request_id : option string;
  r_first_timestamp : option string;
  r_terminal_timestamp : option string;
  r_event_clock_complete : bool;
  r_desktop_request : bool;
  r_preceding_user_timestamp : option string;
  r_computed_effective_input_context : option Z;
  r_tool_uses : StringMap;
}.
Inductive ClaudeResolveFailure := ResolveDecode | ResolveConflict.
Record ClaudeResponseBook := mkBook {
  b_index : list (string * Z);
  b_responses : list ClaudeResponseObservation;
  b_selectors : ClaudeSelectorTable;
}.

Definition MAX_INTERNED_SELECTORS : nat := 64.
(** [claude_request_money::e2::RULE_EPOCH]. *)
Definition RULE_EPOCH : Z := 2.

(** ** Selectors *)
(** [SelectorCapture::merge]: the other's entries overwrite. *)
Definition extend_map (into from : StringMap) : StringMap :=
  fold_left (fun m kv => (bt_insert kv.1 kv.2 m).1) from into.
Definition selector_merge (self other : SelectorCapture) : SelectorCapture :=
  mkSelector (extend_map (sel_context self) (sel_context other))
             (extend_map (sel_sources self) (sel_sources other)).

(** [iter().rposition(|known| *known == selector)]. *)
Fixpoint rposition (s : SelectorCapture) (known : list SelectorCapture) : option nat :=
  match known with
  | [] => None
  | k :: known =>
      match rposition s known with
      | Some i => Some (S i)
      | None => if decide (k = s) then Some 0%nat else None
      end
  end.
Definition intern (self : ClaudeSelectorTable) (s : SelectorCapture)
    : ClaudeSelectorTable * CompactClaudeSelector :=
  match rposition s (selectors_of self) with
  | Some index => (self, Interned (wrap_u 32 (Z.of_nat index)))
  | None =>
      if decide (MAX_INTERNED_SELECTORS <= length (selectors_of self))%nat then (self, Inline s)
      else
        let table := selectors_of self ++ [s] in
        (mkSelectorTable table, Interned (wrap_u 32 (Z.of_nat (length table - 1))))
  end.
Definition decode_selector (self : ClaudeSelectorTable) (s : CompactClaudeSelector) : option SelectorCapture :=
  match s with
  | Interned index => selectors_of self !! Z.to_nat index
  | Inline selector => Some selector
  end.

(** ** Texts *)
Definition text_encode (value : option string) (first : option ClaudeRecordText) : ClaudeRecordText :=
  match first with
  | Some (Own first) => if decide (first = value) then SameAsFirstRecord else Own value
  | _ => Own value
  end.
Definition text_get (self : ClaudeRecordText) (first : option ClaudeRecordText) : option (option string) :=
  match self with
  | Own value => Some value
  | SameAsFirstRecord =>
      try? first := first in
      match first with Own value => Some value | SameAsFirstRecord => None end
  end.
Definition text_decode (self : ClaudeRecordText) (first : option (option string)) : option (option string) :=
  match self with SameAsFirstRecord => first | Own value => Some value end.

(** ** Usage *)
Definition usage_encode (u : UsageTotals) : CompactClaudeUsage :=
  mkCompactUsage (input_tokens u) (output_tokens u) (cache_read_tokens u) (cache_creation_5m_tokens u)
    (cache_creation_1h_tokens u) (reasoning_output_tokens u) (unattributed_total_tokens u) (request_count u)
    (if decide (costs u = costs_default) then None else Some (costs u)).
Definition usage_decode (u : CompactClaudeUsage) : UsageTotals :=
  mkTotals (cu_input_tokens u) (cu_output_tokens u) (cu_cache_read_tokens u) (cu_cache_creation_5m_tokens u)
    (cu_cache_creation_1h_tokens u) (cu_reasoning_output_tokens u) (cu_unattributed_total_tokens u)
    (cu_request_count u) (default costs_default (cu_costs u)).

(** ** Request slots *)
(** [as_deref().unwrap_or_default()]. *)
Definition or_empty (s : option string) : string := default ""%string s.
Definition slot_encode (slot : RequestSlot) (request_id timestamp model effort : option string) : ClaudeSlot :=
  let derived :=
    bool_decide (rs_request_ref slot = or_empty request_id)
    && bool_decide (rs_occurred_at slot = or_empty timestamp)
    && bool_decide (rs_model slot = model)
    && bool_decide (rs_effort slot = effort) in
  if negb derived then Explicit slot
  else Derived (mkSlotTokens (rs_prompt_tokens slot) (rs_cache_read_tokens slot)
    (rs_cache_creation_tokens slot) (rs_uncached_tokens slot) (rs_output_tokens slot)).
Definition slot_decode (self : ClaudeSlot) (request_id timestamp model effort : option string) : RequestSlot :=
  match self with
  | Explicit slot => slot
  | Derived t =>
      mkRequestSlot (or_empty request_id) (or_empty timestamp) model effort (st_prompt_tokens t)
        (st_cache_read_tokens t) (st_cache_creation_tokens t) (st_uncached_tokens t) (st_output_tokens t)
  end.

(** ** Records *)
(** The arguments of one observed record. *)
Record RawRecord := mkRaw {
  raw_usage : UsageTotals;
  raw_model : option string;
  raw_reasoning_effort : option string;
  raw_request_id : option string;
  raw_timestamp : option string;
  raw_context : option Z;
  raw_tool_uses : StringMap;
  raw_cache_slot : RequestSlot;
}.
Definition record_encode (first : option CompactClaudeResponseRecord) (position : Z)
    (raw : RawRecord) (selector : CompactClaudeSelector) : CompactClaudeResponseRecord :=
  let slot := slot_encode (raw_cache_slot raw) (raw_request_id raw) (raw_timestamp raw)
                (raw_model raw) (raw_reasoning_effort raw) in
  mkCompactRecord (usage_encode (raw_usage raw)) slot
    (default (umax 16) (try_uint 16 position))
    (text_encode (raw_model raw) (cr_model <$> first))
    (text_encode (raw_reasoning_effort raw) (cr_reasoning_effort <$> first))
    (text_encode (raw_request_id raw) (cr_request_id <$> first))
    (raw_timestamp raw) (raw_context raw) selector
    ((fun kv => mkToolUse kv.1 kv.2) <$> raw_tool_uses raw).
Definition record_request_id (self : CompactClaudeResponseRecord) (first : option CompactClaudeResponseRecord)
    : option string :=
  try? id := text_get (cr_request_id self) (cr_request_id <$> first) in id.
(** [collect()] into a [BTreeMap]. *)
Definition collect_map (entries : list (string * string)) : StringMap :=
  extend_map [] entries.
Definition record_decode (self : CompactClaudeResponseRecord) (position : Z)
    (first : option ClaudeResponseRecord) (selectors : ClaudeSelectorTable) : option ClaudeResponseRecord :=
  try? model := text_decode (cr_model self) (model <$> first) in
  try? reasoning_effort := text_decode (cr_reasoning_effort self) (reasoning_effort <$> first) in
  try? request_id := text_decode (cr_request_id self) (request_id <$> first) in
  let cache_slot := slot_decode (cr_slot self) request_id (cr_timestamp self) model reasoning_effort in
  try? selector := decode_selector selectors (cr_selector self) in
  Some (mkResponseRecord cache_slot (wrap_u 64 position) (usage_decode (cr_usage self)) model selector
    reasoning_effort request_id (cr_timestamp self) (cr_computed_effective_input_context self)
    (collect_map ((fun t => (tu_id t, tu_name t)) <$> cr_tool_uses self))).
Fixpoint decode_loop (position : nat) (records : list CompactClaudeResponseRecord)
    (selectors : ClaudeSelectorTable) (decoded : list ClaudeResponseRecord) : option (list ClaudeResponseRecord) :=
  match records with
  | [] => Some decoded
  | record :: records =>
      try? record := record_decode record (Z.of_nat position) (head decoded) selectors in
      decode_loop (S position) records selectors (decoded ++ [record])
  end.
Definition decode_records (records : list CompactClaudeResponseRecord) (selectors : ClaudeSelectorTable) :=
  decode_loop 0 records selectors [].

(** ** Observations *)
Definition observation_new (sequence : Z) (raw : RawRecord) (selector : CompactClaudeSelector)
    (preceding_user_timestamp : option string) : ClaudeResponseObservation :=
  mkResponseObservation sequence preceding_user_timestamp [record_encode None 0 raw selector] false false RULE_EPOCH.
Definition observation_push (self : ClaudeResponseObservation) (raw : RawRecord)
    (selector : CompactClaudeSelector) : ClaudeResponseObservation :=
  let record := record_encode (head (o_records self)) (Z.of_nat (length (o_records self))) raw selector in
  mkResponseObservation (o_sequence self) (o_preceding_user_timestamp self) (o_records self ++ [record])
    (o_record_limit_exceeded self) (o_desktop_request self) (o_rule_epoch self).

(** ** Merging *)
(** The mutated receiver and the returned flag. *)
Definition merge_optional_claude_field (current next : option string) : option string * bool :=
  match current, next with
  | Some c, Some n => (current, bool_decide (c = n))
  | None, Some n => (Some n, true)
  | _, None => (current, true)
  end.
Fixpoint merge_claude_response_tool_uses (current next : StringMap) : StringMap * bool :=
  match next with
  | [] => (current, true)
  | (tool_use_id, name) :: next =>
      if (match bt_get tool_use_id current with Some existing => negb (bool_decide (existing = name)) | None => false end)
      then (current, false)
      else merge_claude_response_tool_uses (bt_insert tool_use_id name current).1 next
  end.
Definition merge_claude_response_selector (current next : SelectorCapture) : SelectorCapture * bool :=
  if existsb (fun kv => match bt_get kv.1 (sel_context current) with
                        | Some existing => negb (bool_decide (existing = kv.2)) | None => false end)
             (sel_context next)
  then (current, false)
  else (selector_merge current next, true).
Definition claude_usage_is_progressive_after (current previous : UsageTotals) : bool :=
  (input_tokens previous <=? input_tokens current)
  && (output_tokens previous <=? output_tokens current)
  && (cache_read_tokens previous <=? cache_read_tokens current)
  && (cache_creation_5m_tokens previous <=? cache_creation_5m_tokens current)
  && (cache_creation_1h_tokens previous <=? cache_creation_1h_tokens current)
  && (reasoning_output_tokens previous <=? reasoning_output_tokens current)
  && (unattributed_total_tokens previous <=? unattributed_total_tokens current)
  && (request_count previous <=? request_count current)
  && costs_monotonic_after (costs current) (costs previous).

(** The receiver after the call, and the returned flag; a refused merge leaves
    the fields merged so far. *)
Definition merge_claude_response_record (current next : ClaudeResponseRecord) : ClaudeResponseRecord * bool :=
  if negb (claude_usage_is_progressive_after (usage next) (usage current)) then (current, false) else
  let with_texts m e i s t :=
    mkResponseRecord (cache_slot current) (physical_sequence current) (usage current) m s e i
      (timestamp current) (computed_effective_input_context current) t in
  let '(m, ok) := merge_optional_claude_field (model current) (model next) in
  if negb ok then (with_texts m (reasoning_effort current) (request_id current) (selector current) (tool_uses current), false) else
  let '(e, ok) := merge_optional_claude_field (reasoning_effort current) (reasoning_effort next) in
  if negb ok then (with_texts m e (request_id current) (selector current) (tool_uses current), false) else
  let '(i, ok) := merge_optional_claude_field (request_id current) (request_id next) in
  if negb ok then (with_texts m e i (selector current) (tool_uses current), false) else
  let '(s, ok) := merge_claude_response_selector (selector current) (selector next) in
  if negb ok then (with_texts m e i s (tool_uses current), false) else
  let '(t, ok) := merge_claude_response_tool_uses (tool_uses current) (tool_uses next) in
  if negb ok then (with_texts m e i s t, false) else
  (mkResponseRecord (cache_slot next) (physical_sequence current) (usage next) m s e i
     (match timestamp next with Some _ => timestamp next | None => timestamp current end)
     (match computed_effective_input_context next with
      | Some next_context =>
          Some (match computed_effective_input_context current with
                | Some value => Z.max value next_context | None => next_context end)
      | None => computed_effective_input_context current
      end) t, true).

(** ** Order *)
(** [Ordering::then_with]. *)
Definition then_with (a b : comparison) : comparison := match a with Eq => b | _ => a end.
Definition claude_usage_deterministic_order (left right : UsageTotals) : comparison :=
  then_with (rcmp (input_tokens left) (input_tokens right))
  (then_with (rcmp (output_tokens left) (output_tokens right))
  (then_with (rcmp (cache_read_tokens left) (cache_read_tokens right))
  (then_with (rcmp (cache_creation_5m_tokens left) (cache_creation_5m_tokens right))
  (then_with (rcmp (cache_creation_1h_tokens left) (cache_creation_1h_tokens right))
  (then_with (rcmp (reasoning_output_tokens left) (reasoning_output_tokens right))
  (then_with (rcmp (unattributed_total_tokens left) (unattributed_total_tokens right))
  (then_with (rcmp (request_count left) (request_count right))
  (then_with (rcmp (observed (costs left)) (observed (costs right)))
  (then_with (rcmp (reported (costs left)) (reported (costs right)))
  (then_with (rcmp (cost_total (costs left)) (cost_total (costs right)))
  (then_with (rcmp (cost_input (costs left)) (cost_input (costs right)))
  (then_with (rcmp (cost_output (costs left)) (cost_output (costs right)))
  (then_with (rcmp (cost_cache_read (costs left)) (cost_cache_read (costs right)))
             (rcmp (cost_cache_creation (costs left)) (cost_cache_creation (costs right)))))))))))))))).

Section Resolve.
(** [OffsetDateTime::parse(_, Rfc3339)] as an instant; [OffsetDateTime]
    compares and equates by instant. *)
Context (parse_rfc3339 : string -> option Z).

Definition claude_response_provider_time (record : ClaudeResponseRecord) : option Z :=
  try? value := timestamp record in parse_rfc3339 value.
Definition claude_response_record_order (left right : ClaudeResponseRecord) : comparison :=
  match claude_response_provider_time left, claude_response_provider_time right with
  | Some left_time, Some right_time =>
      then_with (rcmp left_time right_time)
      (then_with (claude_usage_deterministic_order (usage left) (usage right))
                 (rcmp (physical_sequence left) (physical_sequence right)))
  | Some _, None => Lt
  | None, Some _ => Gt
  | None, None => rcmp (physical_sequence left) (physical_sequence right)
  end.
Definition claude_response_records_share_provider_time (left right : ClaudeResponseRecord) : bool :=
  match claude_response_provider_time left, claude_response_provider_time right with
    | Some left_time, Some right_time => left_time =? right_time
  | _, _ => false
  end.

(** [canonical_records], built in order; [None] is [Err(Conflict)]. *)
Fixpoint canonical_loop (records canonical : list ClaudeResponseRecord) : option (list ClaudeResponseRecord) :=
  match records with
  | [] => Some canonical
  | record :: records =>
      match last canonical with
      | Some previous =>
          if claude_response_records_share_provider_time previous record then
            let '(merged, ok) := merge_claude_response_record previous record in
            if ok then canonical_loop records (removelast canonical ++ [merged]) else None
          else canonical_loop records (canonical ++ [record])
      | None => canonical_loop records (canonical ++ [record])
      end
  end.
Fixpoint aggregate_loop (aggregate : ClaudeResponseRecord) (records : list ClaudeResponseRecord)
    : option ClaudeResponseRecord :=
  match records with
  | [] => Some aggregate
  | record :: records =>
      let '(aggregate, ok) := merge_claude_response_record aggregate record in
      if ok then aggregate_loop aggregate records else None
  end.

Definition order_records (records : list ClaudeResponseRecord) : bool * list ClaudeResponseRecord :=
  let event_clock_complete :=
    forallb (fun r => match claude_response_provider_time r with Some _ => true | None => false end) records in
  (event_clock_complete,
   if event_clock_complete then sort_by claude_response_record_order records
   else sort_by (fun a b => rcmp (physical_sequence a) (physical_sequence b)) records).

Definition resolve_classified (self : ClaudeResponseObservation) (selectors : ClaudeSelectorTable)
    : ClaudeResolveFailure + ResolvedClaudeResponse :=
  if o_record_limit_exceeded self then inl ResolveDecode else
  match decode_records (o_records self) selectors with
  | None => inl ResolveDecode
  | Some records =>
      let '(event_clock_complete, records) := order_records records in
      match canonical_loop records [] with
      | None | Some [] => inl ResolveConflict
      | Some (aggregate :: records) =>
          let first_timestamp := timestamp aggregate in
          match aggregate_loop aggregate records with
          | None => inl ResolveConflict
          | Some aggregate =>
              inr (mkResolved (cache_slot aggregate) (o_sequence self) (usage aggregate) (model aggregate)
                (selector aggregate) (reasoning_effort aggregate) (request_id aggregate) first_timestamp
                (timestamp aggregate) event_clock_complete (o_desktop_request self)
                (o_preceding_user_timestamp self) (computed_effective_input_context aggregate)
                (tool_uses aggregate))
          end
      end
  end.
End Resolve.

(** ** The book *)
(** Writes an element through a guard; [None] is an absent slot. *)
Definition book_get (self : ClaudeResponseBook) (key : string) : option ClaudeResponseObservation :=
  try? slot := bt_get key (b_index self) in b_responses self !! Z.to_nat slot.
(** [get_mut]: the book after [f] ran on the response under [key]. *)
Definition book_get_mut (self : ClaudeResponseBook) (key : string)
    (f : ClaudeResponseObservation -> ClaudeResponseObservation) : option ClaudeResponseBook :=
  try? slot := bt_get key (b_index self) in
  try? response := b_responses self !! Z.to_nat slot in
  Some (mkBook (b_index self) (<[Z.to_nat slot := f response]> (b_responses self)) (b_selectors self)).
Definition book_insert (self : ClaudeResponseBook) (key : string) (response : ClaudeResponseObservation)
    : ClaudeResponseBook * bool :=
  match try_uint 32 (Z.of_nat (length (b_responses self))) with
  | None => (self, false)
  | Some slot =>
      (mkBook (bt_insert key slot (b_index self)).1 (b_responses self ++ [response]) (b_selectors self), true)
  end.
(** [keys.get_mut(slot)]: a slot past the end is skipped. *)
Definition slot_keys (self : ClaudeResponseBook) : list string :=
  fold_left (fun keys '(key, slot) => <[Z.to_nat slot := key]> keys) (b_index self)
    (replicate (length (b_responses self)) ""%string).
Definition book_empty : ClaudeResponseBook := mkBook [] [] (mkSelectorTable []).

(** ** Observing a record *)
(** The accumulator's fields [observe_claude_response] touches. *)
Record ResponseState := mkResponseState {
  claude_responses : ClaudeResponseBook;
  claude_response_sequence : Z;
  claude_response_record_count : Z;
  claude_last_user_ts : option string;
  dropped_usage : Z;
}.
(** What the JSON line yields: [claude_response_key] (which may use the
    sequence when the line names no response), the record's fields and whether
    its entrypoint is the desktop client. *)
Record ObservedLine := mkObserved {
  line_key : Z -> string;
  line_raw : RawRecord;
  line_selector : SelectorCapture;
  line_desktop : bool;
}.
Definition with_desktop (o : ClaudeResponseObservation) (b : bool) : ClaudeResponseObservation :=
  mkResponseObservation (o_sequence o) (o_preceding_user_timestamp o) (o_records o)
    (o_record_limit_exceeded o) b (o_rule_epoch o).
(** [note_dropped_usage] counts, saturating. *)
Definition observe_claude_response (st : ResponseState) (line : ObservedLine) : ResponseState :=
  let key := line_key line (claude_response_sequence st) in
  let count := saturating_add 64 (claude_response_record_count st) 1 in
  let '(table, selector) := intern (b_selectors (claude_responses st)) (line_selector line) in
  let book := mkBook (b_index (claude_responses st)) (b_responses (claude_responses st)) table in
  match book_get_mut book key (fun existing =>
    observation_push (with_desktop existing (o_desktop_request existing && line_desktop line)) (line_raw line) selector) with
  | Some book =>
      mkResponseState book (claude_response_sequence st) count (claude_last_user_ts st) (dropped_usage st)
  | None =>
      let sequence := claude_response_sequence st in
      let response := with_desktop (observation_new sequence (line_raw line) selector (claude_last_user_ts st))
                        (line_desktop line) in
      let '(book, inserted) := book_insert book key response in
      mkResponseState book (saturating_add 64 sequence 1) count (claude_last_user_ts st)
        (if inserted then dropped_usage st else saturating_add 64 (dropped_usage st) 1)
  end.

(** ** Stored form *)
Definition string_map_durable : Durable StringMap := map_durable string_key string_durable.

Definition CLAUDE_ATTRIBUTION_SELECTOR_KEYS : list string := [
  "attribution_subagent"; "attribution_skill"; "attribution_plugin"; "attribution_mcp_server";
  "attribution_mcp_tool" ]%string.
Definition has_attribution (context : StringMap) : bool :=
  existsb (fun kv => bool_decide (kv.1 ∈ CLAUDE_ATTRIBUTION_SELECTOR_KEYS)) context.
(** The hand-written implementation: a context with an attribution key is
    refused. *)
Definition SelectorCapture_durable : Durable SelectorCapture := {|
  put s :=
    if has_attribution (sel_context s) then enc_refuse (NonEmpty "SelectorCapture.context.attribution")
    else @put _ string_map_durable (sel_context s) ;;; @put _ string_map_durable (sel_sources s);
  dtake d :=
    try? (context, d) := @dtake _ string_map_durable d in
    try? (sources, d) := @dtake _ string_map_durable d in Some (mkSelector context sources, d);
  verify d :=
    try? d := @verify _ string_map_durable d in @verify _ string_map_durable d |}.

Definition RequestSlot_fields :=
  "request_ref" =: FL string_durable ;> "occurred_at" =: FN string_durable ;>
  "model" =: FU (opt string_durable) ;> "effort" =: FU (opt string_durable) ;>
  "prompt_tokens" =: FN (opt u64_durable) ;> "cache_read_tokens" =: FN (opt u64_durable) ;>
  "cache_creation_tokens" =: FN (opt u64_durable) ;> "uncached_tokens" =: FN (opt u64_durable) ;>
  "output_tokens" =: FN (opt u64_durable) ;> FNil.
Definition RequestSlot_durable : Durable RequestSlot := durable_struct "RequestSlot" RequestSlot_fields
  (fun '(a, (b, (c, (d, (e, (f, (g, (h, (i, _))))))))) => mkRequestSlot a b c d e f g h i)
  (fun s => (rs_request_ref s, (rs_occurred_at s, (rs_model s, (rs_effort s, (rs_prompt_tokens s,
    (rs_cache_read_tokens s, (rs_cache_creation_tokens s, (rs_uncached_tokens s, (rs_output_tokens s, tt)))))))))).

Definition CompactClaudeSelector_variants :=
  VCons 0 "Interned" false ("x0" =: FN u32_durable ;> FNil)
  (VCons 1 "Inline" false ("x0" =: FD (box_durable SelectorCapture_durable) ;> FNil) VNil).
Definition CompactClaudeSelector_durable : Durable CompactClaudeSelector :=
  durable_enum "CompactClaudeSelector" CompactClaudeSelector_variants
    (fun v => match v with
      | inl (index, _) => Interned index | inr (inl (s, _)) => Inline s
      | inr (inr e) => match e with end end)
    (fun s => match s with Interned index => inl (index, tt) | Inline s => inr (inl (s, tt)) end).

Definition ClaudeRecordText_variants :=
  VCons 0 "SameAsFirstRecord" false FNil
  (VCons 1 "Own" false ("x0" =: FP (opt string_durable) ;> FNil) VNil).
Definition ClaudeRecordText_durable : Durable ClaudeRecordText :=
  durable_enum "ClaudeRecordText" ClaudeRecordText_variants
    (fun v => match v with
      | inl _ => SameAsFirstRecord | inr (inl (s, _)) => Own s | inr (inr e) => match e with end end)
    (fun t => match t with SameAsFirstRecord => inl tt | Own s => inr (inl (s, tt)) end).

Definition CompactClaudeUsage_fields :=
  "input_tokens" =: FN u64_durable ;> "output_tokens" =: FN u64_durable ;>
  "cache_read_tokens" =: FN u64_durable ;> "cache_creation_5m_tokens" =: FN u64_durable ;>
  "cache_creation_1h_tokens" =: FN u64_durable ;> "reasoning_output_tokens" =: FN u64_durable ;>
  "unattributed_total_tokens" =: FN u64_durable ;> "request_count" =: FN u64_durable ;>
  "costs" =: FN (opt (box_durable UsageCosts_durable)) ;> FNil.
Definition CompactClaudeUsage_durable : Durable CompactClaudeUsage :=
  durable_struct "CompactClaudeUsage" CompactClaudeUsage_fields
    (fun '(a, (b, (c, (d, (e, (f, (g, (h, (i, _))))))))) => mkCompactUsage a b c d e f g h i)
    (fun u => (cu_input_tokens u, (cu_output_tokens u, (cu_cache_read_tokens u, (cu_cache_creation_5m_tokens u,
      (cu_cache_creation_1h_tokens u, (cu_reasoning_output_tokens u, (cu_unattributed_total_tokens u,
      (cu_request_count u, (cu_costs u, tt)))))))))).

Definition ClaudeSlotTokens_fields :=
  "prompt_tokens" =: FN (opt u64_durable) ;> "cache_read_tokens" =: FN (opt u64_durable) ;>
  "cache_creation_tokens" =: FN (opt u64_durable) ;> "uncached_tokens" =: FN (opt u64_durable) ;>
  "output_tokens" =: FN (opt u64_durable) ;> FNil.
Definition ClaudeSlotTokens_durable : Durable ClaudeSlotTokens :=
  durable_struct "ClaudeSlotTokens" ClaudeSlotTokens_fields
    (fun '(a, (b, (c, (d, (e, _))))) => mkSlotTokens a b c d e)
    (fun t => (st_prompt_tokens t, (st_cache_read_tokens t, (st_cache_creation_tokens t,
      (st_uncached_tokens t, (st_output_tokens t, tt)))))).
Definition ClaudeSlot_variants :=
  VCons 0 "Derived" false ("x0" =: FN ClaudeSlotTokens_durable ;> FNil)
  (VCons 1 "Explicit" false ("x0" =: FD (box_durable RequestSlot_durable) ;> FNil) VNil).
Definition ClaudeSlot_durable : Durable ClaudeSlot :=
  durable_enum "ClaudeSlot" ClaudeSlot_variants
    (fun v => match v with
      | inl (t, _) => Derived t | inr (inl (s, _)) => Explicit s | inr (inr e) => match e with end end)
    (fun s => match s with Derived t => inl (t, tt) | Explicit s => inr (inl (s, tt)) end).

Definition ClaudeToolUse_fields := "id" =: FL string_durable ;> "name" =: FU string_durable ;> FNil.
Definition ClaudeToolUse_durable : Durable ClaudeToolUse := durable_struct "ClaudeToolUse" ClaudeToolUse_fields
  (fun '(i, (n, _)) => mkToolUse i n) (fun t => (tu_id t, (tu_name t, tt))).

Definition CompactClaudeResponseRecord_fields :=
  "usage" =: FN CompactClaudeUsage_durable ;> "slot" =: FD ClaudeSlot_durable ;>
  "physical_sequence" =: FN u16_durable ;> "model" =: FU ClaudeRecordText_durable ;>
  "reasoning_effort" =: FU ClaudeRecordText_durable ;> "request_id" =: FL ClaudeRecordText_durable ;>
  "timestamp" =: FN (opt string_durable) ;> "computed_effective_input_context" =: FN (opt u64_durable) ;>
  "selector" =: FD CompactClaudeSelector_durable ;> "tool_uses" =: FD (vec_durable ClaudeToolUse_durable) ;> FNil.
Definition CompactClaudeResponseRecord_durable : Durable CompactClaudeResponseRecord :=
  durable_struct "CompactClaudeResponseRecord" CompactClaudeResponseRecord_fields
    (fun '(u, (s, (p, (m, (e, (r, (t, (c, (l, (tu, _)))))))))) => mkCompactRecord u s p m e r t c l tu)
    (fun r => (cr_usage r, (cr_slot r, (cr_physical_sequence r, (cr_model r, (cr_reasoning_effort r,
      (cr_request_id r, (cr_timestamp r, (cr_computed_effective_input_context r, (cr_selector r,
      (cr_tool_uses r, tt))))))))))).

Definition ClaudeResponseObservation_fields :=
  "sequence" =: FN u64_durable ;> "preceding_user_timestamp" =: FN (opt string_durable) ;>
  "records" =: FD (owned_vec_durable CompactClaudeResponseRecord_durable) ;>
  "record_limit_exceeded" =: FN bool_durable ;> "desktop_request" =: FN bool_durable ;>
  "rule_epoch" =: FN u8_durable ;> FNil.
Definition ClaudeResponseObservation_durable : Durable ClaudeResponseObservation :=
  durable_struct "ClaudeResponseObservation" ClaudeResponseObservation_fields
    (fun '(s, (p, (r, (l, (d, (e, _)))))) => mkResponseObservation s p r l d e)
    (fun o => (o_sequence o, (o_preceding_user_timestamp o, (o_records o, (o_record_limit_exceeded o,
      (o_desktop_request o, (o_rule_epoch o, tt))))))).

Definition ClaudeSelectorTable_fields :=
  "selectors" =: FD (owned_vec_durable SelectorCapture_durable) ;> FNil.
Definition ClaudeSelectorTable_durable : Durable ClaudeSelectorTable :=
  durable_struct "ClaudeSelectorTable" ClaudeSelectorTable_fields
    (fun '(s, _) => mkSelectorTable s) (fun t => (selectors_of t, tt)).
Definition ClaudeResponseBook_fields :=
  "index" =: FL (map_durable string_key u32_durable) ;>
  "responses" =: FD (owned_vec_durable ClaudeResponseObservation_durable) ;>
  "selectors" =: FD ClaudeSelectorTable_durable ;> FNil.
Definition ClaudeResponseBook_durable : Durable ClaudeResponseBook :=
  durable_struct "ClaudeResponseBook" ClaudeResponseBook_fields
    (fun '(i, (r, (s, _))) => mkBook i r s)
    (fun b => (b_index b, (b_responses b, (b_selectors b, tt)))).
