(* ===== verification/ClaudeRecordCodec.v ===== *)
(** The stored form of a Claude response book: the laws of its dictionaries,
    the values it can hold, and that a stored book reads back exactly. *)
From S2P Require Import Prelude OrdMap DurableCodec DurableTypes DurableEntries DurableContainers.
From S2P Require Import DurableDigest DurableStruct DurableSchemas UsageTotals ClaudeRecords.
Local Open Scope Z_scope.

#[export] Hint Opaque string_map_durable SelectorCapture_durable RequestSlot_durable
  CompactClaudeSelector_durable ClaudeRecordText_durable CompactClaudeUsage_durable UsageCosts_durable
  ClaudeSlotTokens_durable ClaudeSlot_durable ClaudeToolUse_durable CompactClaudeResponseRecord_durable
  ClaudeResponseObservation_durable ClaudeSelectorTable_durable ClaudeResponseBook_durable
  : typeclass_instances.

(** ** Sizes: a struct takes at least a byte when its first field does *)
Section Sized.
Context {T R S : Type} {t name : string} {c : FieldCodec T} {fs : Fields R}.
Context {Oc : DurableOk (field_durable c (field_path (t ++ ".") name))}.
Context {Ofs : DurableOk (fields_durable (t ++ ".") fs)}.
Context (of_fields : T * R -> S) (to_fields : S -> T * R) (to_of : forall r, to_fields (of_fields r) = r).
Lemma struct_sized (Hc : DurableSized (field_durable c (field_path (t ++ ".") name))) :
  DurableSized (DurableOk0 := struct_ok t (FCons name c fs) of_fields to_fields to_of)
    (durable_struct t (FCons name c fs) of_fields to_fields).
Proof.
  intros s mf bs [Hv _] Hb. cbn in Hb. unfold pair_trace in Hb.
  apply trace_bytes_seq_Some in Hb as (b1 & b2 & H1 & H2 & ->). intros [-> _]%app_eq_nil.
  exact (Hc _ _ [] Hv H1 eq_refl).
Qed.
End Sized.
Section StoredSized.
Context {T : Type} {D : Durable T} {Dok : DurableOk D} {Dsz : DurableSized D} (path : string).
Lemma FN_sized : DurableSized (field_durable (FN D) path).
Proof. intros x mf bs Hv Hb. exact (sized (D := D) x mf bs Hv Hb). Qed.
Lemma FL_sized : DurableSized (field_durable (FL D) path).
Proof. intros x mf bs Hv Hb. exact (sized (D := D) x mf bs Hv Hb). Qed.
End StoredSized.

(** ** Laws *)
#[export] Instance string_map_ok : DurableOk string_map_durable := map_ok string_key string_durable.
#[export] Instance string_map_sized : DurableSized string_map_durable := map_sized string_key string_durable.
Lemma string_map_retained m : retained (D := string_map_durable) m = m.
Proof. cbn. unfold retained_map. induction m as [|[k v] m IH]; [done|]. by rewrite fmap_cons, IH. Qed.

Definition selector_trace (mf : option string) (s : SelectorCapture) : Trace :=
  if has_attribution (sel_context s) then tr_refuse (NonEmpty "SelectorCapture.context.attribution")
  else tr_seq (trace (D := string_map_durable) mf (sel_context s)) (trace (D := string_map_durable) mf (sel_sources s)).
#[export] Instance SelectorCapture_ok : DurableOk SelectorCapture_durable.
Proof.
  pose (DP := pair_durable string_map_durable string_map_durable).
  refine (mkDurableOk _ SelectorCapture_durable
    (fun s => dval (D := string_map_durable) (sel_context s) /\ dval (D := string_map_durable) (sel_sources s))
    id selector_trace _ _ _ _ _).
  - intros s mf [Hc Hs]. cbn [put SelectorCapture_durable]. unfold selector_trace.
    destruct (has_attribution _); [apply traced_refuse|]. apply traced_seq; by apply put_traced.
  - intros s mf bs Hv Hb. unfold selector_trace in Hb. destruct (has_attribution _); [done|].
    exact (put_u8 (D := DP) (sel_context s, sel_sources s) mf bs Hv Hb).
  - intros s mf bs d r Hv Hb Hd E. unfold selector_trace in Hb. destruct (has_attribution _); [done|].
    pose proof (take_put (D := DP) (sel_context s, sel_sources s) mf bs d r Hv Hb Hd E) as Ht.
    unfold DP in Ht. cbn [dtake pair_durable] in Ht. unfold pair_take in Ht.
    cbn [dtake SelectorCapture_durable].
    destruct (@dtake _ string_map_durable d) as [[c d1]|]; [|done].
    destruct (@dtake _ string_map_durable d1) as [[o d2]|]; [|done].
    assert (retained (D := DP) (sel_context s, sel_sources s) = (sel_context s, sel_sources s)) as Hr.
    { change (retained (D := DP) (sel_context s, sel_sources s)) with
        (retained (D := string_map_durable) (sel_context s), retained (D := string_map_durable) (sel_sources s)).
      by rewrite !string_map_retained. }
    fold DP in Ht. rewrite Hr in Ht. injection Ht as -> -> ->. by destruct s.
  - intros d s d' Hd. cbn [dtake SelectorCapture_durable].
    destruct (@dtake _ string_map_durable d) as [[c d1]|] eqn:E1; [|done].
    destruct (take_val (D := string_map_durable) _ _ _ Hd E1) as [Hc Hs1].
    destruct (@dtake _ string_map_durable d1) as [[o d2]|] eqn:E2; [|done].
    destruct (take_val (D := string_map_durable) _ _ _ (dec_step_wf _ _ Hs1 Hd) E2) as [Ho Hs2].
    intros [= <- <-]. split; [done|by eapply dec_step_trans].
  - intros d Hd. change (@verify _ SelectorCapture_durable d) with (@verify _ DP d).
    rewrite (verify_take (D := DP)) by done. unfold DP. cbn [dtake pair_durable SelectorCapture_durable].
    unfold pair_take. destruct (@dtake _ string_map_durable d) as [[c' d1]|]; [|done].
    by destruct (@dtake _ string_map_durable d1) as [[o' d2]|].
Defined.
#[export] Instance SelectorCapture_sized : DurableSized SelectorCapture_durable.
Proof.
  intros s mf bs [Hv _] Hb. cbn in Hb. unfold selector_trace in Hb. destruct (has_attribution _); [done|].
  apply trace_bytes_seq_Some in Hb as (b1 & b2 & H1 & H2 & ->). intros [-> _]%app_eq_nil.
  exact (string_map_sized _ _ [] Hv H1 eq_refl).
Qed.
#[export] Instance RequestSlot_ok : DurableOk RequestSlot_durable.
Proof. refine (struct_ok "RequestSlot" RequestSlot_fields _ _ _). by intros (?&?&?&?&?&?&?&?&?&[]). Defined.
#[export] Instance CompactClaudeSelector_ok : DurableOk CompactClaudeSelector_durable.
Proof.
  refine (enum_ok "CompactClaudeSelector" CompactClaudeSelector_variants _ _ _ _ _).
  - by intros [[? []]|[[? []]|[]]].
  - cbn. repeat constructor; set_solver.
  - repeat (apply Forall_cons; split; [done|]). apply Forall_nil_2.
Defined.
#[export] Instance ClaudeRecordText_ok : DurableOk ClaudeRecordText_durable.
Proof.
  refine (enum_ok "ClaudeRecordText" ClaudeRecordText_variants _ _ _ _ _).
  - by intros [[]|[[? []]|[]]].
  - cbn. repeat constructor; set_solver.
  - repeat (apply Forall_cons; split; [done|]). apply Forall_nil_2.
Defined.
#[export] Instance CompactClaudeUsage_ok : DurableOk CompactClaudeUsage_durable.
Proof. refine (struct_ok "CompactClaudeUsage" CompactClaudeUsage_fields _ _ _). by intros (?&?&?&?&?&?&?&?&?&[]). Defined.
#[export] Instance CompactClaudeUsage_sized : DurableSized CompactClaudeUsage_durable.
Proof. apply struct_sized, FN_sized. Qed.
#[export] Instance ClaudeSlotTokens_ok : DurableOk ClaudeSlotTokens_durable.
Proof. refine (struct_ok "ClaudeSlotTokens" ClaudeSlotTokens_fields _ _ _). by intros (?&?&?&?&?&[]). Defined.
#[export] Instance ClaudeSlot_ok : DurableOk ClaudeSlot_durable.
Proof.
  refine (enum_ok "ClaudeSlot" ClaudeSlot_variants _ _ _ _ _).
  - by intros [[? []]|[[? []]|[]]].
  - cbn. repeat constructor; set_solver.
  - repeat (apply Forall_cons; split; [done|]). apply Forall_nil_2.
Defined.
#[export] Instance ClaudeToolUse_ok : DurableOk ClaudeToolUse_durable.
Proof. refine (struct_ok "ClaudeToolUse" ClaudeToolUse_fields _ _ _). by intros (?&?&[]). Defined.
#[export] Instance ClaudeToolUse_sized : DurableSized ClaudeToolUse_durable.
Proof. apply struct_sized. exact (FL_sized (D := string_durable) _). Qed.
#[export] Instance CompactClaudeResponseRecord_ok : DurableOk CompactClaudeResponseRecord_durable.
Proof.
  refine (struct_ok "CompactClaudeResponseRecord" CompactClaudeResponseRecord_fields _ _ _).
  by intros (?&?&?&?&?&?&?&?&?&?&[]).
Defined.
#[export] Instance CompactClaudeResponseRecord_sized : DurableSized CompactClaudeResponseRecord_durable.
Proof. apply struct_sized, FN_sized. Qed.
#[export] Instance ClaudeResponseObservation_ok : DurableOk ClaudeResponseObservation_durable.
Proof.
  refine (struct_ok "ClaudeResponseObservation" ClaudeResponseObservation_fields _ _ _).
  by intros (?&?&?&?&?&?&[]).
Defined.
#[export] Instance ClaudeResponseObservation_sized : DurableSized ClaudeResponseObservation_durable.
Proof. apply struct_sized, FN_sized. Qed.
#[export] Instance ClaudeSelectorTable_ok : DurableOk ClaudeSelectorTable_durable.
Proof. refine (struct_ok "ClaudeSelectorTable" ClaudeSelectorTable_fields _ _ _). by intros (?&[]). Defined.
#[export] Instance ClaudeResponseBook_ok : DurableOk ClaudeResponseBook_durable.
Proof. refine (struct_ok "ClaudeResponseBook" ClaudeResponseBook_fields _ _ _). by intros (?&?&?&[]). Defined.

(** ** The values the Rust types hold *)
Definition text_wf (s : option string) : Prop := match s with Some s => rust_string s | None => True end.
Definition count_wf (n : option Z) : Prop := match n with Some n => u64 n | None => True end.
Definition string_map_wf (m : StringMap) : Prop :=
  ksorted fst m /\ Forall (fun kv => rust_string kv.1 /\ rust_string kv.2) m /\ slice_sized m.
Definition selector_wf (s : SelectorCapture) : Prop :=
  string_map_wf (sel_context s) /\ string_map_wf (sel_sources s).
Definition slot_wf (s : RequestSlot) : Prop :=
  rust_string (rs_request_ref s) /\ rust_string (rs_occurred_at s) /\ text_wf (rs_model s) /\
  text_wf (rs_effort s) /\ Forall count_wf [rs_prompt_tokens s; rs_cache_read_tokens s;
    rs_cache_creation_tokens s; rs_uncached_tokens s; rs_output_tokens s].
Definition compact_selector_wf (s : CompactClaudeSelector) : Prop :=
  match s with Interned i => u32 i | Inline s => selector_wf s end.
Definition record_text_wf (t : ClaudeRecordText) : Prop :=
  match t with SameAsFirstRecord => True | Own s => text_wf s end.
Definition compact_costs_wf (c : UsageCosts) : Prop :=
  Forall cost_ok [cost_total c; cost_input c; cost_output c; cost_cache_read c; cost_cache_creation c].
Definition compact_usage_wf (u : CompactClaudeUsage) : Prop :=
  Forall u64 [cu_input_tokens u; cu_output_tokens u; cu_cache_read_tokens u; cu_cache_creation_5m_tokens u;
    cu_cache_creation_1h_tokens u; cu_reasoning_output_tokens u; cu_unattributed_total_tokens u; cu_request_count u] /\
  match cu_costs u with Some c => compact_costs_wf c | None => True end.
Definition compact_slot_wf (s : ClaudeSlot) : Prop :=
  match s with
  | Derived t => Forall count_wf [st_prompt_tokens t; st_cache_read_tokens t; st_cache_creation_tokens t;
      st_uncached_tokens t; st_output_tokens t]
  | Explicit s => slot_wf s
  end.
Definition tool_use_wf (t : ClaudeToolUse) : Prop := rust_string (tu_id t) /\ rust_string (tu_name t).
Definition compact_record_wf (r : CompactClaudeResponseRecord) : Prop :=
  compact_usage_wf (cr_usage r) /\ compact_slot_wf (cr_slot r) /\ u16 (cr_physical_sequence r) /\
  record_text_wf (cr_model r) /\ record_text_wf (cr_reasoning_effort r) /\ record_text_wf (cr_request_id r) /\
  text_wf (cr_timestamp r) /\ count_wf (cr_computed_effective_input_context r) /\
  compact_selector_wf (cr_selector r) /\ Forall tool_use_wf (cr_tool_uses r) /\ slice_sized (cr_tool_uses r).
Definition observation_wf (o : ClaudeResponseObservation) : Prop :=
  u64 (o_sequence o) /\ text_wf (o_preceding_user_timestamp o) /\
  Forall compact_record_wf (o_records o) /\ slice_sized (o_records o) /\ u8 (o_rule_epoch o).
Definition book_wf (b : ClaudeResponseBook) : Prop :=
  (ksorted fst (b_index b) /\ Forall (fun kv => rust_string kv.1 /\ u32 kv.2) (b_index b) /\ slice_sized (b_index b)) /\
  Forall observation_wf (b_responses b) /\ slice_sized (b_responses b) /\
  Forall selector_wf (selectors_of (b_selectors b)) /\ slice_sized (selectors_of (b_selectors b)).

Lemma costs_dval c : compact_costs_wf c -> dval (D := UsageCosts_durable) c.
Proof.
  intros Hc. unfold compact_costs_wf in Hc. rewrite !Forall_cons in Hc. cbn -[uint]. destruct_and!.
  split_and!; try done; by match goal with |- match ?c with Some _ => _ | None => _ end => destruct c end.
Qed.
Lemma usage_dval u : compact_usage_wf u -> dval (D := CompactClaudeUsage_durable) u.
Proof.
  intros [Hu Hc]. rewrite !Forall_cons in Hu. cbn -[uint].
  destruct_and!. split_and!; try done. destruct (cu_costs u) as [c|]; [|done].
  by apply costs_dval.
Qed.
Lemma count_dval n : count_wf n -> dval (D := opt u64_durable) n.
Proof. by destruct n. Qed.
Lemma text_dval s : text_wf s -> dval (D := opt string_durable) s.
Proof. by destruct s. Qed.
Lemma request_slot_dval s : slot_wf s -> dval (D := RequestSlot_durable) s.
Proof.
  intros (? & ? & ? & ? & Hc). rewrite !Forall_cons in Hc. destruct_and!.
  cbn -[uint]. split_and!; try done; by (apply count_dval || apply text_dval).
Qed.
Lemma slot_dval s : compact_slot_wf s -> dval (D := ClaudeSlot_durable) s.
Proof.
  destruct s as [t|s]; intros Hs.
  - cbn in Hs. rewrite !Forall_cons in Hs. destruct_and!. cbn -[uint].
    split_and!; try done; by apply count_dval.
  - cbn -[uint]. split; [by apply request_slot_dval|done].
Qed.
Lemma record_text_dval t : record_text_wf t -> dval (D := ClaudeRecordText_durable) t.
Proof. by destruct t as [|[]]. Qed.
Lemma compact_selector_dval s : compact_selector_wf s -> dval (D := CompactClaudeSelector_durable) s.
Proof. by destruct s. Qed.
Lemma record_dval r : compact_record_wf r -> dval (D := CompactClaudeResponseRecord_durable) r.
Proof.
  intros (? & ? & ? & ? & ? & ? & ? & ? & ? & Ht & ?).
  refine (conj (usage_dval _ _) (conj (slot_dval _ _) (conj _ (conj (record_text_dval _ _) (conj (record_text_dval _ _)
    (conj (record_text_dval _ _) (conj (text_dval _ _) (conj (count_dval _ _) (conj (compact_selector_dval _ _)
    (conj (conj _ _) I)))))))))); try done.
  eapply Forall_impl; [exact Ht|]. by intros t [? ?].
Qed.
Lemma observation_dval o : observation_wf o -> dval (D := ClaudeResponseObservation_durable) o.
Proof.
  intros (? & ? & Hr & ? & ?).
  refine (conj _ (conj (text_dval _ _) (conj (conj _ _) (conj _ (conj _ (conj _ I)))))); try done.
  eapply Forall_impl; [exact Hr|]. apply record_dval.
Qed.
Lemma book_dval b : book_wf b -> dval (D := ClaudeResponseBook_durable) b.
Proof.
  intros ((? & Hi & ?) & Hr & ? & Hs & ?).
  refine (conj (conj _ (conj _ _)) (conj (conj _ _) (conj (conj (conj _ _) I) I))); try done.
  eapply Forall_impl; [exact Hr|]. apply observation_dval.
Qed.

(** ** A decoded copy keeps every field *)
Lemma list_same {A} (f : A -> A) (xs : list A) : (forall v, f v = v) -> f <$> xs = xs.
Proof. intros Hf. induction xs; [done|]. by rewrite fmap_cons, Hf, IHxs. Qed.
Lemma slot_retained s : retained (D := ClaudeSlot_durable) s = s.
Proof. destruct s as [[[] [] [] [] []]|[? ? [] [] [] [] [] [] []]]; done. Qed.
Lemma record_text_retained t : retained (D := ClaudeRecordText_durable) t = t.
Proof. by destruct t as [|[]]. Qed.
Lemma compact_selector_retained s : retained (D := CompactClaudeSelector_durable) s = s.
Proof. by destruct s as [|[]]. Qed.
Lemma compact_usage_retained u : retained (D := CompactClaudeUsage_durable) u = u.
Proof. destruct u as [? ? ? ? ? ? ? ? [[? ? [] [] [] [] []]|]]; done. Qed.
Lemma record_retained r : retained (D := CompactClaudeResponseRecord_durable) r = r.
Proof.
  destruct r as [u s p m e i t c l tu].
  change (retained (D := CompactClaudeResponseRecord_durable) (mkCompactRecord u s p m e i t c l tu)) with
    (mkCompactRecord (retained (D := CompactClaudeUsage_durable) u) (retained (D := ClaudeSlot_durable) s) p
      (retained (D := ClaudeRecordText_durable) m) (retained (D := ClaudeRecordText_durable) e)
      (retained (D := ClaudeRecordText_durable) i) (option_map id t) (option_map id c)
      (retained (D := CompactClaudeSelector_durable) l) (retained (D := ClaudeToolUse_durable) <$> tu)).
  rewrite compact_usage_retained, slot_retained, !record_text_retained, compact_selector_retained.
  rewrite list_same by (by intros []). by destruct t, c.
Qed.
Lemma observation_retained o : retained (D := ClaudeResponseObservation_durable) o = o.
Proof.
  destruct o as [s p r l d e].
  change (mkResponseObservation s (option_map id p) (retained (D := CompactClaudeResponseRecord_durable) <$> r) l d e =
    mkResponseObservation s p r l d e).
  rewrite (list_same _ r record_retained). by destruct p.
Qed.
Lemma book_retained b : retained (D := ClaudeResponseBook_durable) b = b.
Proof.
  destruct b as [i r [t]].
  change (mkBook (retained (D := map_durable string_key u32_durable) i)
    (retained (D := ClaudeResponseObservation_durable) <$> r)
    (mkSelectorTable (retained (D := SelectorCapture_durable) <$> t)) = mkBook i r (mkSelectorTable t)).
  rewrite (list_same _ r observation_retained), (list_same _ t) by done. f_equal.
  cbn. unfold retained_map. apply list_same. by intros [].
Qed.

Lemma each_bytes {T} {D : Durable T} {Dok : DurableOk D} mf (xs : list T) bs :
  trace_bytes (tr_each (trace mf) xs) = Some bs -> Forall (fun x => is_Some (trace_bytes (trace mf x))) xs.
Proof.
  revert bs. induction xs as [|x xs IH]; intros bs Hb; [done|].
  apply trace_bytes_seq_Some in Hb as (b1 & b2 & H1 & H2 & ->). constructor; eauto.
Qed.

(** A response book that the writer accepts reads back as exactly the same
    book, every byte used, with the verifying walk in agreement; and none of
    the selectors it keeps in its table names a skill, plugin, MCP server or
    subagent. *)
Theorem response_book_stored limit b bytes :
  limit < 2 ^ 63 -> usize limit -> book_wf b ->
  count_write limit (@put _ ClaudeResponseBook_durable b) = Some (inr bytes) ->
  (exists d, @dtake _ ClaudeResponseBook_durable (dec_new bytes) = Some (b, d) /\ dec_finish d = true /\
     @verify _ ClaudeResponseBook_durable (dec_new bytes) = Some d) /\
  Forall (fun s => has_attribution (sel_context s) = false) (selectors_of (b_selectors b)).
Proof.
  intros Hlim Hl Hb Hw. pose proof (book_dval b Hb) as Hv.
  destruct (record_written (D := ClaudeResponseBook_durable) limit b bytes Hl Hv Hw) as [Ht Hle]. split.
  - destruct (record_read (D := ClaudeResponseBook_durable) b bytes Hv Ht ltac:(lia)) as (d & Hd & Hf & Hver).
    exists d. rewrite Hd, book_retained. done.
  - destruct b as [i r [t]].
    change (trace None _) with (tr_seq (trace (D := map_durable string_key u32_durable) None i)
      (tr_seq (trace (D := owned_vec_durable ClaudeResponseObservation_durable) None r)
      (tr_seq (tr_seq (seq_trace (selector_trace None) t) tr_ok) tr_ok))) in Ht.
    unfold seq_trace in Ht. tr_inv.
    match goal with H : trace_bytes (tr_each _ t) = Some _ |- _ =>
      pose proof (each_bytes (D := SelectorCapture_durable) None t _ H) as Hall end.
    eapply Forall_impl; [exact Hall|]. intros s [bs Hs]. cbn in Hs. unfold selector_trace in Hs. cbn.
    by destruct (has_attribution (sel_context s)).
Qed.

(** ** A response book on disk *)
Definition sample_book : ClaudeResponseBook :=
  mkBook [("msg_1"%string, 0)]
    [mkResponseObservation 0 None
       [mkCompactRecord (mkCompactUsage 10 3 0 0 0 0 0 1 None) (Derived (mkSlotTokens (Some 10) None None (Some 10) (Some 3)))
          0 (Own (Some "claude"%string)) (Own None) (Own (Some "req_1"%string)) (Some "2026-01-01T00:00:00Z"%string)
          (Some 10) (Interned 0) [mkToolUse "t1" "Read"]]
       false true RULE_EPOCH]
    (mkSelectorTable [mkSelector [("entrypoint", "cli")]%string []]).
Definition sample_book_bytes : list Z := [
  1; 5; 109; 115; 103; 95; 49; 0; 1; 0; 0; 1; 10; 3; 0; 0; 0; 0; 0; 1; 0; 0; 1; 10; 0; 0; 1; 10; 1; 3; 0; 1; 1; 6;
  99; 108; 97; 117; 100; 101; 1; 0; 1; 1; 5; 114; 101; 113; 95; 49; 1; 20; 50; 48; 50; 54; 45; 48; 49; 45; 48; 49;
  84; 48; 48; 58; 48; 48; 58; 48; 48; 90; 1; 10; 0; 0; 1; 2; 116; 49; 4; 82; 101; 97; 100; 0; 1; 2; 1; 1; 10; 101;
  110; 116; 114; 121; 112; 111; 105; 110; 116; 3; 99; 108; 105; 0].
Ltac sample_wf :=
  repeat match goal with
  | |- _ /\ _ => split
  | |- Forall _ [] => apply Forall_nil_2
  | |- Forall _ (_ :: _) => apply Forall_cons
  | |- ksorted fst _ => by apply ascending_ksorted
  | |- uint _ _ => by vm_compute
  | |- rust_string _ => by vm_compute
  | |- _ < _ => by vm_compute
  | |- True => exact I
  | |- count_wf _ => cbn -[uint]
  | |- text_wf _ => cbn -[rust_string]
  end.
Lemma sample_book_wf : book_wf sample_book.
Proof.
  unfold book_wf, slice_sized. cbn -[uint Z.of_nat rust_string]. sample_wf.
  - unfold observation_wf, slice_sized. cbn -[uint rust_string]. sample_wf.
    unfold compact_record_wf, slice_sized. cbn -[uint rust_string]. sample_wf.
    + unfold compact_usage_wf. cbn -[uint]. sample_wf.
    + unfold tool_use_wf. cbn -[rust_string]. sample_wf.
  - unfold selector_wf, string_map_wf, slice_sized. cbn -[rust_string]. sample_wf.
Qed.
Lemma response_book_stored_witness : exists d,
  @dtake _ ClaudeResponseBook_durable (dec_new sample_book_bytes) = Some (sample_book, d) /\ dec_finish d = true.
Proof.
  destruct (response_book_stored 4096 sample_book sample_book_bytes) as [(d & Hd & Hf & _) _].
  - lia.
  - by vm_compute.
  - exact sample_book_wf.
  - vm_compute. reflexivity.
  - exists d. split; [exact Hd|exact Hf].
Defined.
