(* ===== verification/ClaudeRecordLaws.v ===== *)
(** Claude response records: what observing a file's records keeps, and what
    resolving a response makes of them
    (crates/ottto-service/src/snapshots/claude_response_records.rs).

    The compact form is exact: after any sequence of observed lines, each
    response decodes to the lines observed under its key, in order.  A
    resolution absorbs every record it merges and does not depend on the order
    in which distinctly timed records arrived. *)
From S2P Require Import Prelude OrdMap DurableContainers UsageTotals ClaudeRecords.
Local Open Scope Z_scope.

(** ** Interning *)
Definition extends (t t' : ClaudeSelectorTable) : Prop := selectors_of t `prefix_of` selectors_of t'.
Definition table_sized (t : ClaudeSelectorTable) : Prop := (length (selectors_of t) <= MAX_INTERNED_SELECTORS)%nat.
(** [c] stands for [s] in the table and whatever it grows into. *)
Definition stands_for (t : ClaudeSelectorTable) (c : CompactClaudeSelector) (s : SelectorCapture) : Prop :=
  forall t', extends t t' -> decode_selector t' c = Some s.

#[export] Instance extends_preorder : PreOrder extends.
Proof. split; unfold extends; [by intros t|intros a b c; apply transitivity]. Qed.
Lemma stands_for_extends t t' c s : extends t t' -> stands_for t c s -> stands_for t' c s.
Proof. intros He Hs t'' Ht. apply Hs. by transitivity t'. Qed.

Lemma rposition_Some s known i : rposition s known = Some i -> known !! i = Some s.
Proof.
  revert i. induction known as [|k known IH]; intros i; cbn; [done|].
  destruct (rposition s known) as [j|]; [intros [= <-]; by apply IH|].
  case_decide; [|done]. intros [= <-]. by subst.
Qed.
Lemma interned_stands_for t i s :
  table_sized t -> selectors_of t !! i = Some s -> stands_for t (Interned (wrap_u 32 (Z.of_nat i))) s.
Proof.
  intros Ht Hi t' He. cbn. pose proof (lookup_lt_Some _ _ _ Hi) as Hlt.
  unfold table_sized, MAX_INTERNED_SELECTORS in Ht.
  rewrite wrap_u_small by (unfold uint; lia). rewrite Nat2Z.id. by eapply prefix_lookup_Some.
Qed.
Lemma intern_spec t s t' c :
  table_sized t -> intern t s = (t', c) -> extends t t' /\ table_sized t' /\ stands_for t' c s.
Proof.
  intros Ht. unfold intern. destruct (rposition s (selectors_of t)) as [i|] eqn:E.
  { intros [= <- <-]. split_and!; [done|done|]. apply interned_stands_for; [done|by apply rposition_Some]. }
  case_decide as Hfull; intros [= <- <-].
  { by split_and!. }
  unfold table_sized, MAX_INTERNED_SELECTORS in *. cbn [selectors_of]. rewrite length_app. cbn [length].
  split_and!; [by apply prefix_app_r|lia|]. apply interned_stands_for.
  - unfold table_sized, MAX_INTERNED_SELECTORS. cbn [selectors_of]. rewrite length_app. cbn [length]. lia.
  - cbn [selectors_of]. rewrite lookup_app_r by lia.
    by replace (length (selectors_of t) + 1 - 1 - length (selectors_of t))%nat with 0%nat by lia.
Qed.

(** ** Compact records are exact *)
Lemma extend_map_sorted out xs : ksorted fst (out ++ xs) -> extend_map out xs = out ++ xs.
Proof.
  revert out. induction xs as [|[k v] xs IH]; intros out Ho; cbn; [by rewrite app_nil_r|].
  rewrite (cons_middle (k, v) out xs), app_assoc in Ho |- *.
  assert (Hl : ksorted fst (out ++ [(k, v)])) by by apply ksorted_app in Ho as [? _].
  pose proof (bsearch_last fst out (k, v) Hl) as Hb. cbn in Hb. unfold bt_insert. rewrite Hb.
  unfold insert_at. rewrite take_ge, drop_ge by lia. by apply IH.
Qed.
Lemma collect_tool_uses (m : StringMap) :
  ksorted fst m -> collect_map ((fun t => (tu_id t, tu_name t)) <$> ((fun kv => mkToolUse kv.1 kv.2) <$> m)) = m.
Proof.
  intros Hm. rewrite <-list_fmap_compose.
  assert (((fun t => (tu_id t, tu_name t)) ∘ (fun kv => mkToolUse kv.1 kv.2)) <$> m = m) as ->.
  { clear. induction m as [|[k v] m IH]; [done|]. by rewrite fmap_cons, IH. }
  by apply (extend_map_sorted []).
Qed.
Lemma usage_exact u : usage_decode (usage_encode u) = u.
Proof.
  destruct u as [? ? ? ? ? ? ? ? c]. unfold usage_decode, usage_encode. cbn.
  case_decide as H; cbn in *; [by subst|done].
Qed.
Lemma slot_exact slot i t m e : slot_decode (slot_encode slot i t m e) i t m e = slot.
Proof.
  unfold slot_encode. repeat case_bool_decide; cbn; try done. by destruct slot; cbn in *; subst.
Qed.
(** A text decodes against the decoded first record's text. *)
Lemma text_exact value first :
  text_decode (text_encode value (Own <$> first)) first = Some value.
Proof. destruct first as [f|]; cbn; [|done]. case_decide; cbn; [by subst|done]. Qed.

(** The record a line observed. *)
Definition exact_record (position : Z) (raw : RawRecord) (s : SelectorCapture) : ClaudeResponseRecord :=
  mkResponseRecord (raw_cache_slot raw) position (raw_usage raw) (raw_model raw) s (raw_reasoning_effort raw)
    (raw_request_id raw) (raw_timestamp raw) (raw_context raw) (raw_tool_uses raw).
Definition raw_wf (raw : RawRecord) : Prop := ksorted fst (raw_tool_uses raw).

Lemma record_exact t position raw c s (first : option (RawRecord * CompactClaudeSelector * SelectorCapture)) :
  stands_for t c s -> raw_wf raw -> u64 position ->
  record_decode (record_encode ((fun f => record_encode None 0 f.1.1 f.1.2) <$> first) position raw c) position
    ((fun f => exact_record 0 f.1.1 f.2) <$> first) t = Some (exact_record position raw s).
Proof.
  intros Hc Hr Hp.
  assert (Hm : forall (get : RawRecord -> option string) (f : ClaudeResponseRecord -> option string)
      (g : CompactClaudeResponseRecord -> ClaudeRecordText),
    (forall r c, g (record_encode None 0 r c) = Own (get r)) -> (forall r s, f (exact_record 0 r s) = get r) ->
    text_decode (text_encode (get raw) (g <$> ((fun f => record_encode None 0 f.1.1 f.1.2) <$> first)))
      (f <$> ((fun f => exact_record 0 f.1.1 f.2) <$> first)) = Some (get raw)).
  { intros get f g Hg Hf. destruct first as [[[r1 c1] s1]|]; cbn -[record_encode]; [|done].
    rewrite Hg, Hf. apply (text_exact (get raw) (Some (get r1))). }
  set (fc := _ <$> first) in *. set (fd := _ <$> first) in *.
  unfold record_decode, record_encode. cbn [cr_model cr_reasoning_effort cr_request_id cr_slot
    cr_timestamp cr_selector cr_usage cr_computed_effective_input_context cr_tool_uses].
  rewrite (Hm raw_model model cr_model), (Hm raw_reasoning_effort reasoning_effort cr_reasoning_effort),
    (Hm raw_request_id request_id cr_request_id) by done.
  rewrite (Hc t), slot_exact, usage_exact, collect_tool_uses, wrap_u_small by done. done.
Qed.

(** ** Whole responses *)
(** The compact records of a response, from its lines and their selectors. *)
Definition encode_all (lines : list (RawRecord * CompactClaudeSelector)) : list CompactClaudeResponseRecord :=
  match lines with
  | [] => []
  | l :: rest =>
      record_encode None 0 l.1 l.2 ::
      imap (fun i r => record_encode (Some (record_encode None 0 l.1 l.2)) (Z.of_nat (S i)) r.1 r.2) rest
  end.
Definition exact_records (lines : list (RawRecord * SelectorCapture)) : list ClaudeResponseRecord :=
  imap (fun i l => exact_record (Z.of_nat i) l.1 l.2) lines.

Lemma length_encode_all lines : length (encode_all lines) = length lines.
Proof. destruct lines; [done|]. cbn [encode_all length]. f_equal. apply length_imap. Qed.
Lemma encode_all_snoc lines l :
  lines <> [] ->
  encode_all (lines ++ [l]) =
    encode_all lines ++ [record_encode (head (encode_all lines)) (Z.of_nat (length (encode_all lines))) l.1 l.2].
Proof.
  intros Hne. rewrite length_encode_all. destruct lines as [|l0 rest]; [done|].
  cbn [app encode_all head length]. rewrite imap_app. cbn [imap]. by rewrite Nat.add_0_r.
Qed.

(** [o] keeps exactly [lines], whatever the table grows into. *)
Definition keeps (t : ClaudeSelectorTable) (lines : list (RawRecord * SelectorCapture))
    (o : ClaudeResponseObservation) : Prop :=
  exists cs, Forall2 (stands_for t) cs lines.*2 /\ o_records o = encode_all (zip lines.*1 cs).

Lemma keeps_extends t t' lines o : extends t t' -> keeps t lines o -> keeps t' lines o.
Proof.
  intros He (cs & Hcs & Ho). exists cs. split; [|done].
  eapply Forall2_impl; [exact Hcs|]. intros c s. by apply stands_for_extends.
Qed.
Lemma keeps_new t raw c s n p :
  stands_for t c s -> keeps t [(raw, s)] (observation_new n raw c p).
Proof. intros Hc. exists [c]. split; [by repeat constructor|done]. Qed.
Lemma keeps_desktop t lines o b : keeps t lines o -> keeps t lines (with_desktop o b).
Proof. done. Qed.
Lemma keeps_push t lines o raw c s :
  lines <> [] -> keeps t lines o -> stands_for t c s -> keeps t (lines ++ [(raw, s)]) (observation_push o raw c).
Proof.
  intros Hne (cs & Hcs & Ho) Hc. exists (cs ++ [c]). rewrite !fmap_app. split.
  - by apply Forall2_app; [|repeat constructor].
  - cbn. rewrite Ho. pose proof (Forall2_length _ _ _ Hcs) as Hl. rewrite length_fmap in Hl.
    rewrite zip_with_app by (rewrite length_fmap; lia). cbn.
    assert (Hz : zip lines.*1 cs <> []) by (destruct lines, cs; done).
    by rewrite (encode_all_snoc _ (raw, c) Hz).
Qed.

Lemma decode_loop_exact t (first : RawRecord * CompactClaudeSelector * SelectorCapture)
    (rest : list (RawRecord * CompactClaudeSelector * SelectorCapture)) k acc :
  Forall (fun l => stands_for t l.1.2 l.2 /\ raw_wf l.1.1) rest ->
  Z.of_nat (S k + length rest) < 2 ^ 64 ->
  head acc = Some (exact_record 0 first.1.1 first.2) ->
  decode_loop (S k)
    (imap (fun i l => record_encode (Some (record_encode None 0 first.1.1 first.1.2)) (Z.of_nat (S (k + i))) l.1.1 l.1.2) rest)
    t acc =
  Some (acc ++ imap (fun i l => exact_record (Z.of_nat (S (k + i))) l.1.1 l.2) rest).
Proof.
  intros Hr. revert k acc. induction Hr as [|l rest [Hs Hw] _ IH]; intros k acc Hk Ha.
  { cbn. by rewrite app_nil_r. }
  rewrite !imap_cons. cbn [decode_loop]. rewrite Nat.add_0_r, Ha. cbn [length] in Hk.
  rewrite (record_exact t _ _ _ l.2 (Some first)) by (done || (unfold uint; lia)).
  assert (Hext : forall A (f : nat -> RawRecord * CompactClaudeSelector * SelectorCapture -> A) xs,
    imap ((fun i => f (S (k + i))) ∘ S) xs = imap (fun i => f (S (S k + i))) xs).
  { intros A f xs. apply imap_ext. intros i x _. cbn. by rewrite Nat.add_succ_r. }
  rewrite (Hext _ (fun n l => record_encode _ (Z.of_nat n) l.1.1 l.1.2)),
    (Hext _ (fun n l => exact_record (Z.of_nat n) l.1.1 l.2)).
  rewrite IH; [by rewrite <-app_assoc|lia|]. by destruct acc.
Qed.

Lemma zip_lines {A B C} (lines : list (A * B)) (cs : list C) :
  length cs = length lines ->
  let ls := zip_with (fun l c => (l.1, c, l.2)) lines cs in
  zip lines.*1 cs = (fun l => (l.1.1, l.1.2)) <$> ls /\ lines = (fun l => (l.1.1, l.2)) <$> ls.
Proof.
  revert cs. induction lines as [|[a b] lines IH]; intros [|c cs] Hl; try done.
  injection Hl as Hl. destruct (IH cs Hl) as [H1 H2]. cbn in *. by rewrite H1, <-H2.
Qed.

Lemma keeps_decodes t lines o :
  keeps t lines o -> Forall (fun l => raw_wf l.1) lines -> Z.of_nat (length lines) < 2 ^ 63 ->
  decode_records (o_records o) t = Some (exact_records lines).
Proof.
  intros (cs & Hcs & ->) Hw Hl. destruct lines as [|[r0 s0] lines]; [done|].
  destruct cs as [|c0 cs]; [by inversion Hcs|]. cbn in Hcs. apply Forall2_cons in Hcs as [Hc0 Hcs].
  apply Forall_cons in Hw as [Hw0 Hw]. unfold decode_records. cbn [fmap list_fmap zip_with encode_all fst snd].
  cbn [decode_loop head]. pose proof (record_exact t 0 r0 c0 s0 None Hc0 Hw0 ltac:(done)) as Hfirst.
  cbn [fmap option_fmap option_map] in Hfirst. change (Z.of_nat 0) with 0. rewrite Hfirst. cbn [app].
  pose proof (Forall2_length _ _ _ Hcs) as Hlen. rewrite length_fmap in Hlen.
  destruct (zip_lines lines cs Hlen) as [Hz He]. set (ls := zip_with _ lines cs) in *.
  assert (Hll : length ls = length lines) by by rewrite He at 1; rewrite length_fmap.
  rewrite Hz, imap_fmap. pose proof (decode_loop_exact t (r0, c0, s0) ls 0 [exact_record 0 r0 s0]) as Hd.
  cbn [fst snd] in Hd. etransitivity; [|etransitivity; [apply Hd|]].
  - done.
  - unfold ls. clear -Hcs Hw. revert cs Hcs. induction Hw as [|[r s] lines Hr _ IH]; intros cs Hcs.
    + by destruct cs.
    + destruct cs as [|c cs]; [by inversion Hcs|]. apply Forall2_cons in Hcs as [? ?].
      cbn. constructor; [done|]. by apply IH.
  - cbn [length] in Hl. lia.
  - done.
  - unfold exact_records. cbn. f_equal. f_equal. rewrite He at 1. by rewrite imap_fmap.
Qed.

(** ** The book after any observed lines *)
Definition start_state (user_ts : option string) : ResponseState := mkResponseState book_empty 0 0 user_ts 0.
Definition observe_all (st : ResponseState) (lines : list ObservedLine) : ResponseState :=
  fold_left observe_claude_response lines st.
(** The key each line was observed under. *)
Fixpoint history (st : ResponseState) (lines : list ObservedLine) : list (string * ObservedLine) :=
  match lines with
  | [] => []
  | l :: lines => (line_key l (claude_response_sequence st), l) :: history (observe_claude_response st l) lines
  end.
Definition of_key (k : string) (h : list (string * ObservedLine)) : list ObservedLine :=
  (filter (fun e => e.1 = k) h).*2.
Definition line_record (l : ObservedLine) : RawRecord * SelectorCapture := (line_raw l, line_selector l).

Lemma of_key_app k h h' : of_key k (h ++ h') = of_key k h ++ of_key k h'.
Proof. unfold of_key. by rewrite filter_app, fmap_app. Qed.
Lemma of_key_same k l : of_key k [(k, l)] = [l].
Proof. unfold of_key. by rewrite filter_cons_True. Qed.
Lemma of_key_other k k' l : k' <> k -> of_key k [(k', l)] = [].
Proof. intros Hk. unfold of_key. by rewrite filter_cons_False. Qed.

Definition index_of (b : ClaudeResponseBook) (k : string) : option Z := bt_get k (b_index b).
(** Each key's response keeps that key's lines; keys and slots correspond. *)
Record book_inv (b : ClaudeResponseBook) (h : list (string * ObservedLine)) : Prop := {
  inv_sorted : ksorted fst (b_index b);
  inv_table : table_sized (b_selectors b);
  inv_present : forall k i, index_of b k = Some i -> 0 <= i /\ of_key k h <> [] /\
    exists o, b_responses b !! Z.to_nat i = Some o /\
      keeps (b_selectors b) (line_record <$> of_key k h) o /\
      o_desktop_request o = forallb line_desktop (of_key k h) /\ o_record_limit_exceeded o = false;
  inv_absent : forall k, index_of b k = None -> of_key k h = [];
  inv_slots : forall k k' i, index_of b k = Some i -> index_of b k' = Some i -> k = k';
  inv_length : (length (b_responses b) <= length h)%nat;
  inv_cover : forall i, (i < length (b_responses b))%nat -> exists k, index_of b k = Some (Z.of_nat i);
}.

(** Interning first changes the table only. *)
Lemma book_inv_table b h t :
  book_inv b h -> extends (b_selectors b) t -> table_sized t ->
  book_inv (mkBook (b_index b) (b_responses b) t) h.
Proof.
  intros [H1 H2 H3 H4 H5 H6 H7] He Ht. split; try done.
  intros k i Hi. destruct (H3 k i Hi) as (H0 & Hne & o & Ho & Hk & Hd). split_and!; [done|done|].
  exists o. split_and!; [done|by eapply keeps_extends|apply Hd..].
Qed.

Lemma book_inv_push b h k l c b' :
  book_inv b h -> stands_for (b_selectors b) c (line_selector l) ->
  book_get_mut b k (fun o => observation_push (with_desktop o (o_desktop_request o && line_desktop l)) (line_raw l) c) = Some b' ->
  book_inv b' (h ++ [(k, l)]).
Proof.
  intros [H1 H2 H3 H4 H5 H6 H7] Hc Hb. unfold book_get_mut in Hb.
  destruct (bt_get k (b_index b)) as [i|] eqn:Ei; [|done].
  destruct (H3 k i Ei) as (H0 & Hne & o & Ho & Hk & Hd & Hlim). rewrite Ho in Hb. injection Hb as <-.
  pose proof (lookup_lt_Some _ _ _ Ho) as Hlt.
  split; cbn [b_index b_selectors b_responses]; [done|done| | |done|rewrite length_insert, length_app; cbn; lia|
    intros j Hj; rewrite length_insert in Hj; by apply H7].
  - intros k' j Ej. change (index_of b k' = Some j) in Ej. destruct (H3 k' j Ej) as (Hj0 & Hne' & o' & Ho' & Hk' & Hd' & Hlim').
    rewrite of_key_app. destruct (decide (k' = k)) as [->|Hkk].
    + assert (j = i) as -> by (unfold index_of in Ej; congruence). rewrite of_key_same.
      split_and!; [done|by destruct (of_key k h)|]. eexists. rewrite list_lookup_insert_eq by done.
      split_and!; [done| | |done].
      * rewrite fmap_app. apply keeps_push; [|by apply keeps_desktop|done]. by destruct (of_key k h).
      * cbn. rewrite forallb_app, Hd. cbn. by rewrite andb_true_r.
    + rewrite of_key_other, app_nil_r by done. split_and!; [done|done|]. exists o'.
      rewrite list_lookup_insert_ne; [done|]. intros Hij. apply Hkk, (H5 k' k j); [done|].
      unfold index_of. rewrite Ei. f_equal. lia.
  - intros k' Ek. rewrite of_key_app, of_key_other, app_nil_r; [by apply H4|].
    intros ->. unfold index_of in Ek. cbn in Ek. congruence.
Qed.

Lemma book_inv_insert b h k l c n ts :
  book_inv b h -> stands_for (b_selectors b) c (line_selector l) -> index_of b k = None ->
  Z.of_nat (length h) < 2 ^ 32 ->
  let r := book_insert b k (with_desktop (observation_new n (line_raw l) c ts) (line_desktop l)) in
  r.2 = true /\ book_inv r.1 (h ++ [(k, l)]).
Proof.
  intros [H1 H2 H3 H4 H5 H6 H7] Hc Hk Hlen. unfold book_insert.
  rewrite try_uint_ok by (unfold uint; lia). cbn [fst snd]. split; [done|].
  assert (Hget : forall k', bt_get k' (bt_insert k (Z.of_nat (length (b_responses b))) (b_index b)).1 =
    if decide (k' = k) then Some (Z.of_nat (length (b_responses b))) else bt_get k' (b_index b)).
  { intros k'. rewrite bt_get_insert by done. by repeat case_decide. }
  assert (Hslot : forall k' i, index_of b k' = Some i -> 0 <= i < Z.of_nat (length (b_responses b))).
  { intros k' i Hi. destruct (H3 k' i Hi) as (H0 & _ & o & Ho & _). apply lookup_lt_Some in Ho. lia. }
  split; unfold index_of; cbn [b_index b_selectors b_responses].
  - by apply bt_insert_sorted.
  - done.
  - intros k' i. rewrite Hget, of_key_app. case_decide as Hkk.
    + subst k'. intros [= <-]. rewrite (H4 k Hk), of_key_same. split_and!; [lia|done|].
      eexists. rewrite Nat2Z.id, lookup_app_r, Nat.sub_diag by lia. split_and!; [done| | |done].
      * apply keeps_desktop. by apply keeps_new.
      * cbn. by rewrite andb_true_r.
    + intros Hi. destruct (H3 k' i Hi) as (H0 & Hne & o & Ho & Ht). rewrite of_key_other, app_nil_r by done.
      split_and!; [done|done|]. exists o. split; [|done]. by apply lookup_app_l_Some.
  - intros k'. rewrite Hget. case_decide; [done|]. intros Hn. rewrite of_key_app, of_key_other, app_nil_r by done.
    by apply H4.
  - intros k1 k2 i. rewrite !Hget. repeat case_decide; subst; try done.
    + intros [= <-] Hi. apply Hslot in Hi. lia.
    + intros Hi [= <-]. apply Hslot in Hi. lia.
    + apply H5.
  - rewrite !length_app. cbn. lia.
  - intros i. rewrite length_app. cbn. intros Hi. destruct (decide (i = length (b_responses b))) as [->|].
    + exists k. by rewrite Hget, decide_True.
    + destruct (H7 i) as [k' Hk']; [lia|]. exists k'. rewrite Hget, decide_False; [done|].
      intros ->. unfold index_of in *. congruence.
Qed.

Lemma book_inv_empty : book_inv book_empty [].
Proof.
  split; cbn; try done; [constructor|unfold table_sized, MAX_INTERNED_SELECTORS; cbn; lia|lia].
Qed.

Lemma observe_inv st h l :
  book_inv (claude_responses st) h -> Z.of_nat (length h) < 2 ^ 32 ->
  book_inv (claude_responses (observe_claude_response st l)) (h ++ [(line_key l (claude_response_sequence st), l)]) /\
  dropped_usage (observe_claude_response st l) = dropped_usage st.
Proof.
  intros Hi Hl. unfold observe_claude_response.
  destruct (intern (b_selectors (claude_responses st)) (line_selector l)) as [t c] eqn:Et.
  destruct (intern_spec _ _ _ _ (inv_table _ _ Hi) Et) as (He & Ht & Hc).
  pose proof (book_inv_table _ _ _ Hi He Ht) as Hi'. set (b := mkBook _ _ t) in *.
  set (k := line_key l _).
  destruct (book_get_mut b k _) as [b'|] eqn:Eb.
  { split; [|done]. by eapply book_inv_push. }
  assert (Hk : index_of b k = None).
  { unfold book_get_mut in Eb. unfold index_of. destruct (bt_get k (b_index b)) as [i|] eqn:E; [|done].
    destruct (inv_present _ _ Hi' k i E) as (_ & _ & o & Ho & _). by rewrite Ho in Eb. }
  destruct (book_inv_insert b h k l c (claude_response_sequence st) (claude_last_user_ts st) Hi' Hc Hk Hl) as [Hr Hinv].
  destruct (book_insert b k _) as [b' ok]. cbn in *. by subst ok.
Qed.

Lemma observe_all_inv st h lines :
  book_inv (claude_responses st) h -> Z.of_nat (length h + length lines) < 2 ^ 32 ->
  book_inv (claude_responses (observe_all st lines)) (h ++ history st lines) /\
  dropped_usage (observe_all st lines) = dropped_usage st.
Proof.
  revert st h. induction lines as [|l lines IH]; intros st h Hi Hl; cbn.
  { by rewrite app_nil_r. }
  cbn in Hl. destruct (observe_inv st h l Hi ltac:(lia)) as [Hi' Hd].
  destruct (IH _ _ Hi') as [H1 H2]; [rewrite length_app; cbn; lia|].
  rewrite <-app_assoc in H1. split; [exact H1|]. unfold observe_all in H2. by rewrite H2.
Qed.

Lemma of_key_lines k st lines : of_key k (history st lines) `sublist_of` lines.
Proof.
  unfold of_key. revert st. induction lines as [|l lines IH]; intros st; cbn [history]; [done|].
  rewrite filter_cons. case_decide; cbn; [by apply sublist_skip|by apply sublist_cons].
Qed.

(** [slot_keys] writes each key at its slot. *)
Lemma slot_keys_fold (m : list (string * Z)) keys k (i : Z) :
  (forall k1 k2 j1 j2, (k1, j1) ∈ m -> (k2, j2) ∈ m -> Z.to_nat j1 = Z.to_nat j2 -> k1 = k2) ->
  (k, i) ∈ m \/ keys !! Z.to_nat i = Some k /\ (forall k' j, (k', j) ∈ m -> Z.to_nat j = Z.to_nat i -> k' = k) ->
  (Z.to_nat i < length keys)%nat ->
  fold_left (fun keys '(key, slot) => <[Z.to_nat slot := key]> keys) m keys !! Z.to_nat i = Some k.
Proof.
  revert keys. induction m as [|[k1 j1] m IH]; intros keys Hinj Hk Hlt; cbn.
  { destruct Hk as [Hk|[Hk _]]; [by apply not_elem_of_nil in Hk|done]. }
  apply IH; [intros k2 k3 j2 j3 H2 H3; apply (Hinj _ _ j2 j3); by apply elem_of_cons; right| |by rewrite length_insert].
  destruct Hk as [[[= <- <-]|Hin]%elem_of_cons|[Hk Hall]]; [right|by left|].
  - rewrite list_lookup_insert_eq by done. split; [done|]. intros k' j Hin Hj.
    apply (Hinj k' k j i); [by apply elem_of_cons; right|by apply elem_of_cons; left|done].
  - right. destruct (decide (Z.to_nat j1 = Z.to_nat i)) as [Hj|Hj].
    + assert (k1 = k) as -> by (apply (Hall k1 j1); [by apply elem_of_cons; left|done]).
      rewrite Hj, list_lookup_insert_eq by done. split; [done|].
      intros k' j Hin. apply Hall. by apply elem_of_cons; right.
    + rewrite list_lookup_insert_ne by done. split; [done|].
      intros k' j Hin. apply Hall. by apply elem_of_cons; right.
Qed.

(** C34: Observing a file's usage lines loses nothing: after any sequence of
    lines, the response kept under a key decodes against the file's selector
    table to exactly the records observed under that key, in order, and is a
    desktop response exactly when all of them were; a key no line named has no
    response, and no line is counted as dropped. *)
Theorem observed_lines_kept user_ts lines k :
  Forall (fun l => raw_wf (line_raw l)) lines -> Z.of_nat (length lines) < 2 ^ 32 ->
  let st := observe_all (start_state user_ts) lines in
  let mine := of_key k (history (start_state user_ts) lines) in
  match book_get (claude_responses st) k with
  | Some o =>
      mine <> [] /\
      decode_records (o_records o) (b_selectors (claude_responses st)) = Some (exact_records (line_record <$> mine)) /\
      o_desktop_request o = forallb line_desktop mine /\ o_record_limit_exceeded o = false
  | None => mine = []
  end /\ dropped_usage st = 0.
Proof.
  intros Hw Hl. cbv zeta.
  destruct (observe_all_inv (start_state user_ts) [] lines book_inv_empty Hl) as [Hi Hd].
  split; [|exact Hd]. cbn [app] in Hi. unfold book_get.
  pose proof (of_key_lines k (start_state user_ts) lines) as Hsub.
  destruct (bt_get k _) as [i|] eqn:E; [|by apply (inv_absent _ _ Hi)].
  destruct (inv_present _ _ Hi k i E) as (H0 & Hne & o & Ho & Hk & Hdesk & Hlim). rewrite Ho.
  split_and!; [done| |done|done]. apply keeps_decodes; [done| |].
  - rewrite Forall_fmap, !Forall_forall in *. intros l Hin. apply Hw. by eapply elem_of_sublist.
  - rewrite length_fmap. apply sublist_length in Hsub. lia.
Qed.

(** The keys by slot are the index inverted: after any sequence of
    observed lines every slot has a key, and the key at a response's slot is
    the key the index finds that response under. *)
Theorem slot_keys_invert user_ts lines :
  Z.of_nat (length lines) < 2 ^ 32 ->
  let b := claude_responses (observe_all (start_state user_ts) lines) in
  length (slot_keys b) = length (b_responses b) /\
  (forall k i, bt_get k (b_index b) = Some i -> slot_keys b !! Z.to_nat i = Some k) /\
  (forall i k, slot_keys b !! i = Some k -> bt_get k (b_index b) = Some (Z.of_nat i)).
Proof.
  intros Hl. cbv zeta.
  destruct (observe_all_inv (start_state user_ts) [] lines book_inv_empty Hl) as [Hi _].
  set (b := claude_responses _) in *.
  assert (Hlen : length (slot_keys b) = length (b_responses b)).
  { unfold slot_keys. transitivity (length (replicate (length (b_responses b)) ""%string)); [|apply length_replicate].
    generalize (replicate (length (b_responses b)) ""%string). induction (b_index b) as [|[k i] m IH]; intros keys; cbn; [done|].
    by rewrite IH, length_insert. }
  assert (Hfw : forall k i, bt_get k (b_index b) = Some i -> slot_keys b !! Z.to_nat i = Some k).
  { intros k i Ek. destruct (inv_present _ _ Hi k i Ek) as (H0 & _ & o & Ho & _). apply lookup_lt_Some in Ho.
    pose proof (inv_sorted _ _ Hi) as Hs. unfold slot_keys. apply slot_keys_fold.
    - intros k1 k2 j1 j2 Hin1%bt_get_elem Hin2%bt_get_elem Hj; [|done..].
      destruct (inv_present _ _ Hi k1 j1 Hin1) as [? _], (inv_present _ _ Hi k2 j2 Hin2) as [? _].
      apply (inv_slots _ _ Hi k1 k2 j1 Hin1). unfold index_of. rewrite Hin2. f_equal. lia.
    - left. by apply bt_get_elem.
    - by rewrite length_replicate. }
  split_and!; [done|done|]. intros i k Hk. pose proof (lookup_lt_Some _ _ _ Hk) as Hlt. rewrite Hlen in Hlt.
  destruct (inv_cover _ _ Hi i Hlt) as [k' Hk']. pose proof (Hfw k' (Z.of_nat i) Hk') as H. rewrite Nat2Z.id in H.
  unfold index_of in Hk'. congruence.
Qed.

(** ** Two streamed lines of one response *)
Definition sample_raw (output : Z) (at_ : string) (tools : StringMap) : RawRecord :=
  mkRaw (mkTotals 10 output 0 0 0 0 0 1 costs_default) (Some "claude"%string) None (Some "req_1"%string) (Some at_)
    (Some 10) tools
    (mkRequestSlot "req_1" at_ (Some "claude"%string) None (Some 10) None None (Some 10) (Some output)).
Definition sample_line (output : Z) (at_ : string) (tools : StringMap) : ObservedLine :=
  mkObserved (fun _ => "msg_1"%string) (sample_raw output at_ tools) (mkSelector [("entrypoint", "cli")]%string []) false.
Definition sample_lines : list ObservedLine := [
  sample_line 3 "2026-01-01T00:00:00Z" [("t1", "Read")]%string;
  sample_line 8 "2026-01-01T00:00:05Z" [("t2", "Bash")]%string].
Lemma observed_lines_kept_witness :
  let st := observe_all (start_state None) sample_lines in
  exists o, book_get (claude_responses st) "msg_1" = Some o /\
    decode_records (o_records o) (b_selectors (claude_responses st)) =
      Some (exact_records (line_record <$> sample_lines)).
Proof.
  cbv zeta. destruct (observed_lines_kept None sample_lines "msg_1") as [H _]; [|by vm_compute|].
  - repeat (apply Forall_cons; split; [by apply ascending_ksorted|]). apply Forall_nil_2.
  - eexists. split; [vm_compute; reflexivity|]. exact (proj1 (proj2 H)).
Defined.
Lemma slot_keys_invert_witness :
  slot_keys (claude_responses (observe_all (start_state None) sample_lines)) = ["msg_1"%string].
Proof.
  destruct (slot_keys_invert None sample_lines) as (H1 & H2 & _); [by vm_compute|].
  pose proof (H2 "msg_1"%string 0 ltac:(vm_compute; reflexivity)) as H3.
  assert (Hl : length (slot_keys (claude_responses (observe_all (start_state None) sample_lines))) = 1%nat)
    by (rewrite H1; vm_compute; reflexivity).
  revert H3 Hl. generalize (slot_keys (claude_responses (observe_all (start_state None) sample_lines))).
  intros [|k [|]] H3 Hl; [done| |done]. by injection H3 as ->.
Defined.
