(* ===== verification/ClaudeResolve.v ===== *)
(** Resolving a Claude response: the merge of its records
    (crates/ottto-service/src/snapshots/claude_response_records.rs,
    [resolve_classified] and what it calls).

    A resolution absorbs every record of the response and invents nothing;
    records that disagree have none; and when provider time orders the records
    completely, the order they were appended in does not matter. *)
From S2P Require Import Prelude OrdMap Std DurableContainers UsageTotals ClaudeRecords ClaudeRecordLaws.
Local Open Scope Z_scope.

(** ** What a merged record keeps of each record *)
(** The maps are [BTreeMap]s. *)
Definition record_sorted (r : ClaudeResponseRecord) : Prop :=
  ksorted fst (tool_uses r) /\ ksorted fst (sel_context (selector r)) /\ ksorted fst (sel_sources (selector r)).
Record absorbs (m r : ClaudeResponseRecord) : Prop := {
  absorbs_usage : totals_monotonic_after (usage m) (usage r) = true;
  absorbs_model : forall x, model r = Some x -> model m = Some x;
  absorbs_effort : forall x, reasoning_effort r = Some x -> reasoning_effort m = Some x;
  absorbs_request : forall x, request_id r = Some x -> request_id m = Some x;
  absorbs_tools : forall id name, bt_get id (tool_uses r) = Some name -> bt_get id (tool_uses m) = Some name;
  absorbs_selector : forall f v,
    bt_get f (sel_context (selector r)) = Some v -> bt_get f (sel_context (selector m)) = Some v;
  absorbs_context : forall n, computed_effective_input_context r = Some n ->
    exists n', computed_effective_input_context m = Some n' /\ n <= n';
}.
#[export] Instance absorbs_preorder : PreOrder absorbs.
Proof.
  split.
  - intros r. split; eauto using totals_monotonic_refl. intros n ->. eexists. split; [done|lia].
  - intros a b c [] []. split; eauto using totals_monotonic_trans.
    intros n Hn. destruct (absorbs_context1 n Hn) as (n1 & H1 & ?).
    destruct (absorbs_context0 n1 H1) as (n2 & ? & ?). exists n2. split; [done|lia].
Qed.
(** A value of [m] is the value of one of the records [rs]. *)
Definition named_by {A} (field : ClaudeResponseRecord -> option A) (m : ClaudeResponseRecord) (rs : list ClaudeResponseRecord) : Prop :=
  forall x, field m = Some x -> exists r, r ∈ rs /\ field r = Some x.
(** [m] holds nothing that is not in the records [rs]. *)
Record drawn_from (m : ClaudeResponseRecord) (rs : list ClaudeResponseRecord) : Prop := {
  drawn_usage : exists r, r ∈ rs /\ usage m = usage r /\ cache_slot m = cache_slot r;
  drawn_model : named_by model m rs;
  drawn_effort : named_by reasoning_effort m rs;
  drawn_request : named_by request_id m rs;
  drawn_time : named_by timestamp m rs;
  drawn_context : named_by computed_effective_input_context m rs;
  drawn_tools : forall id, named_by (fun r => bt_get id (tool_uses r)) m rs;
  drawn_facets : forall facet, named_by (fun r => bt_get facet (sel_context (selector r))) m rs;
  drawn_sources : forall facet, named_by (fun r => bt_get facet (sel_sources (selector r))) m rs;
}.
Lemma drawn_one r : drawn_from r [r].
Proof.
  assert (r ∈ [r]) by (by apply list_elem_of_singleton). split; try (intros ? ? ?; by exists r); try (intros ? ?; by exists r).
  by exists r.
Qed.
(** [m] merges exactly the records [rs]. *)
Record summary (m : ClaudeResponseRecord) (rs : list ClaudeResponseRecord) : Prop := {
  summary_absorbs : forall r, r ∈ rs -> absorbs m r;
  summary_drawn : drawn_from m rs;
  summary_sorted : record_sorted m;
}.
Lemma summary_one r : record_sorted r -> summary r [r].
Proof.
  intros Hr. split; [by intros ? ->%list_elem_of_singleton|apply drawn_one|done].
Qed.
Lemma named_trans {A} (field : ClaudeResponseRecord -> option A) m c n rs1 rs2 :
  named_by field m [c; n] -> named_by field c rs1 -> named_by field n rs2 -> named_by field m (rs1 ++ rs2).
Proof.
  intros Hm Hc Hn x (r & [->| ->%list_elem_of_singleton]%elem_of_cons & Hx)%Hm;
    [destruct (Hc x Hx) as (r & ? & ?)|destruct (Hn x Hx) as (r & ? & ?)]; exists r; rewrite elem_of_app; auto.
Qed.
Lemma drawn_trans m c n rs1 rs2 : drawn_from m [c; n] -> drawn_from c rs1 -> drawn_from n rs2 -> drawn_from m (rs1 ++ rs2).
Proof.
  intros [(r & Hr & Hu & Hs)] [(rc & Hrc & Huc & Hsc)] [(rn & Hrn & Hun & Hsn)].
  split; [|by eapply named_trans..|intros ?; by eapply named_trans|intros ?; by eapply named_trans|intros ?; by eapply named_trans].
  apply elem_of_cons in Hr as [->| ->%list_elem_of_singleton]; [exists rc|exists rn]; rewrite elem_of_app; split_and!; auto; congruence.
Qed.
(** A merged value is the value of one side. *)
Lemma named_pair {A} (field : ClaudeResponseRecord -> option A) m c n :
  (forall x, field m = Some x -> field c = Some x \/ field n = Some x) -> named_by field m [c; n].
Proof. intros H x [Hx|Hx]%H; [exists c|exists n]; by rewrite !elem_of_cons; auto. Qed.

(** ** The field merges *)
Lemma merge_optional_ok c n m :
  merge_optional_claude_field c n = (m, true) ->
  (forall x, c = Some x -> m = Some x) /\ (forall x, n = Some x -> m = Some x) /\
  (forall x, m = Some x -> c = Some x \/ n = Some x).
Proof.
  destruct c as [c|], n as [n|]; cbn; intros Hm; injection Hm; intros; subst; try (split_and!; intros; simplify_eq; auto; fail).
  match goal with H : bool_decide _ = true |- _ => apply bool_decide_eq_true in H as -> end. by split_and!; auto.
Qed.
Lemma merge_tools_ok c n m :
  ksorted fst c -> ksorted fst n -> merge_claude_response_tool_uses c n = (m, true) ->
  ksorted fst m /\ (forall id name, bt_get id c = Some name -> bt_get id m = Some name) /\
  (forall id name, bt_get id n = Some name -> bt_get id m = Some name) /\
  (forall id name, bt_get id m = Some name -> bt_get id c = Some name \/ bt_get id n = Some name).
Proof.
  intros Hc Hn. revert c Hc. induction n as [|[k v] n IH]; intros c Hc; cbn -[bt_get bt_insert].
  { intros [= <-]. split_and!; [done|done|done|auto]. }
  destruct (match bt_get k c with Some existing => negb (bool_decide (existing = v)) | None => false end) eqn:E; [done|].
  intros Hm. pose proof (bt_insert_sorted k v c Hc) as Hs.
  assert (Hck : forall x, bt_get k c = Some x -> x = v).
  { intros x Hx. rewrite Hx in E. apply negb_false_iff, bool_decide_eq_true in E. done. }
  destruct (IH (proj1 (ksorted_cons_inv fst _ _ Hn)) _ Hs Hm) as (H1 & H2 & H3 & H4).
  assert (Hget : forall id, bt_get id (bt_insert k v c).1 = if decide (id = k) then Some v else bt_get id c).
  { intros id. rewrite bt_get_insert by done. by repeat case_decide. }
  split_and!; [done| | |].
  - intros id name Hg. apply H2. rewrite Hget. case_decide; [|done]. subst. f_equal. symmetry. by apply Hck.
  - intros id name Hg. apply bt_get_elem in Hg; [|done]. apply elem_of_cons in Hg as [[= -> ->]|Hg].
    + apply H2. by rewrite Hget, decide_True.
    + apply H3. apply bt_get_elem; [|done]. by apply ksorted_cons_inv in Hn as [? _].
  - intros id name Hg. destruct (H4 id name Hg) as [Hi|Hi].
    + rewrite Hget in Hi. case_decide; [|by left]. subst. injection Hi as <-. right.
      apply bt_get_elem; [done|]. by apply elem_of_cons; left.
    + right. apply bt_get_elem in Hi; [|by apply ksorted_cons_inv in Hn as [? _]].
      apply bt_get_elem; [done|]. by apply elem_of_cons; right.
Qed.
Lemma extend_map_get (c n : StringMap) :
  ksorted fst c -> ksorted fst n ->
  ksorted fst (extend_map c n) /\
  forall k, bt_get k (extend_map c n) = match bt_get k n with Some v => Some v | None => bt_get k c end.
Proof.
  intros Hc Hn. revert c Hc. induction n as [|[k1 v1] n IH]; intros c Hc; [done|].
  apply ksorted_cons_inv in Hn as Hn'. destruct Hn' as [Hn' Hk1].
  destruct (IH Hn' _ (bt_insert_sorted k1 v1 c Hc)) as [H1 H2]. split; [exact H1|]. intros k.
  change (extend_map c ((k1, v1) :: n)) with (extend_map (bt_insert k1 v1 c).1 n). rewrite H2.
  rewrite bt_get_insert by done.
  destruct (bt_get k n) as [v|] eqn:E.
  - assert ((k, v) ∈ (k1, v1) :: n) as Hin by (apply elem_of_cons; right; by apply bt_get_elem).
    by rewrite (proj2 (bt_get_elem k v _ Hn) Hin).
  - case_decide as Hk.
    + subst. by rewrite (proj2 (bt_get_elem k1 v1 _ Hn) ltac:(by apply elem_of_cons; left)).
    + destruct (bt_get k ((k1, v1) :: n)) as [v|] eqn:E'; [|done].
      apply bt_get_elem in E'; [|done]. apply elem_of_cons in E' as [[= -> ->]|Hin]; [done|].
      apply bt_get_elem in Hin; [|done]. congruence.
Qed.
Lemma merge_selector_ok c n m :
  ksorted fst (sel_context c) -> ksorted fst (sel_context n) -> ksorted fst (sel_sources c) -> ksorted fst (sel_sources n) ->
  merge_claude_response_selector c n = (m, true) ->
  (ksorted fst (sel_context m) /\ ksorted fst (sel_sources m)) /\
  (forall f v, bt_get f (sel_context c) = Some v -> bt_get f (sel_context m) = Some v) /\
  (forall f v, bt_get f (sel_context n) = Some v -> bt_get f (sel_context m) = Some v) /\
  (forall f v, bt_get f (sel_context m) = Some v -> bt_get f (sel_context c) = Some v \/ bt_get f (sel_context n) = Some v) /\
  (forall f v, bt_get f (sel_sources m) = Some v -> bt_get f (sel_sources c) = Some v \/ bt_get f (sel_sources n) = Some v).
Proof.
  intros Hc Hn Hcs Hns. unfold merge_claude_response_selector. destruct (existsb _ _) eqn:E; [done|]. intros [= <-].
  destruct (extend_map_get _ _ Hc Hn) as [Hs Hg]. cbn [sel_context selector_merge].
  destruct (extend_map_get _ _ Hcs Hns) as [Hss Hgs]. cbn [sel_sources].
  split_and!; [done|done| | |intros f v; rewrite Hg; destruct (bt_get f (sel_context n)); auto
    |intros f v; rewrite Hgs; destruct (bt_get f (sel_sources n)); auto]; intros f v Hf; rewrite Hg; [|by rewrite Hf].
  destruct (bt_get f (sel_context n)) as [v'|] eqn:En; [|done].
  apply bt_get_elem in En; [|done]. rewrite <-not_true_iff_false, existsb_exists in E.
  destruct (decide (v = v')) as [->|Hne]; [done|]. destruct E. exists (f, v').
  split; [by apply list_elem_of_In|]. cbn. rewrite Hf. by rewrite bool_decide_eq_false_2.
Qed.

(** ** Merging summaries *)
Lemma merge_record_ok c n m :
  record_sorted c -> record_sorted n -> merge_claude_response_record c n = (m, true) ->
  (absorbs m c /\ absorbs m n /\ record_sorted m) /\ drawn_from m [c; n].
Proof.
  intros (Hct & Hcs & Hcr) (Hnt & Hns & Hnr). unfold merge_claude_response_record.
  destruct (claude_usage_is_progressive_after _ _) eqn:Eu; cbn [negb]; [|done].
  destruct (merge_optional_claude_field (model c) _) as [mo []] eqn:Em; cbn [negb]; [|done].
  destruct (merge_optional_claude_field (reasoning_effort c) _) as [ef []] eqn:Ee; cbn [negb]; [|done].
  destruct (merge_optional_claude_field (request_id c) _) as [id []] eqn:Ei; cbn [negb]; [|done].
  destruct (merge_claude_response_selector _ _) as [se []] eqn:Es; cbn [negb]; [|done].
  destruct (merge_claude_response_tool_uses _ _) as [to []] eqn:Et; cbn [negb]; [|done].
  apply merge_optional_ok in Em as (Hm1 & Hm2 & Hm3), Ee as (He1 & He2 & He3), Ei as (Hi1 & Hi2 & Hi3).
  apply merge_selector_ok in Es as ([Hs Hr] & Hs1 & Hs2 & Hs3 & Hs4); [|done..].
  apply merge_tools_ok in Et as (Ht & Ht1 & Ht2 & Ht3); [|done..].
  intros [= <-]. split; [split_and!|].
  - split; [exact Eu|done..|]. cbn. intros x Hx. rewrite Hx.
    destruct (computed_effective_input_context n); eexists; (split; [done|lia]).
  - split; [apply totals_monotonic_refl|done..|]. cbn. intros x Hx. rewrite Hx.
    eexists. split; [done|]. destruct (computed_effective_input_context c); lia.
  - done.
  - split; cbn; [exists n; by rewrite !elem_of_cons; auto|by apply named_pair..| | |intros k; by apply named_pair, Ht3
      |intros k; by apply named_pair, Hs3|intros k; by apply named_pair, Hs4].
    + apply named_pair. cbn. intros x. destruct (timestamp n); auto.
    + apply named_pair. cbn. intros x. destruct (computed_effective_input_context n) as [b|]; [|auto].
      destruct (computed_effective_input_context c) as [a|]; [|auto].
      destruct (Z.max_spec a b) as [[_ ->]|[_ ->]]; auto.
Qed.
Lemma summary_merge c n m rs1 rs2 :
  summary c rs1 -> summary n rs2 -> merge_claude_response_record c n = (m, true) -> summary m (rs1 ++ rs2).
Proof.
  intros Hc Hn Hm.
  destruct (merge_record_ok c n m (summary_sorted _ _ Hc) (summary_sorted _ _ Hn) Hm)
    as ((Hmc & Hmn & Hs) & Hd).
  split; [|eapply drawn_trans; [done|apply Hc|apply Hn]|done].
  - intros r [Hr|Hr]%elem_of_app; [transitivity c|transitivity n]; auto; by eapply summary_absorbs.
Qed.
Lemma last_removelast {A} (xs : list A) x : last xs = Some x -> xs = removelast xs ++ [x].
Proof.
  induction xs as [|a xs IH]; [done|]. destruct xs; [by intros [= ->]|]. intros H.
  change (a :: a0 :: xs = (a :: removelast (a0 :: xs)) ++ [x]). cbn [app]. f_equal. by apply IH.
Qed.
Section Absorption.
Context (parse : string -> option Z).
Lemma canonical_summary records canonical groups out :
  Forall record_sorted records -> Forall2 summary canonical groups ->
  canonical_loop parse records canonical = Some out ->
  exists groups', Forall2 summary out groups' /\ concat groups' = concat groups ++ records.
Proof.
  revert canonical groups. induction records as [|r records IH]; intros canonical groups Hs Hc; cbn.
  { intros [= <-]. exists groups. by rewrite app_nil_r. }
  apply Forall_cons in Hs as [Hr Hs].
  assert (Hnew : canonical_loop parse records (canonical ++ [r]) = Some out ->
    exists groups', Forall2 summary out groups' /\ concat groups' = concat groups ++ r :: records).
  { intros H. destruct (IH _ (groups ++ [[r]]) Hs ltac:(apply Forall2_app; [done|]; repeat constructor; by apply summary_one) H)
      as (g & ? & Hg). exists g. split; [done|]. rewrite Hg, concat_app. cbn. by rewrite <-app_assoc. }
  destruct (last canonical) as [previous|] eqn:El; [|done].
  destruct (claude_response_records_share_provider_time _ _ _); [|done].
  destruct (merge_claude_response_record previous r) as [merged []] eqn:Em; [|done]. intros H.
  apply last_removelast in El. rewrite El in Hc. apply Forall2_app_inv_l in Hc as (g1 & g2 & H1 & H2 & ->).
  apply Forall2_cons_inv_l in H2 as (rs & g3 & H2 & H3%Forall2_nil_inv_l & ->). subst g3.
  destruct (fun H0 => IH _ (g1 ++ [rs ++ [r]]) Hs H0 H) as (g & ? & Hg).
  { apply Forall2_app; [done|]. constructor; [|constructor]. eapply summary_merge; [done| |done]. by apply summary_one. }
  exists g. split; [done|]. rewrite Hg, !concat_app. cbn. by rewrite !app_nil_r, <-!app_assoc.
Qed.
Lemma aggregate_summary aggregate rs records groups out :
  summary aggregate rs -> Forall2 summary records groups -> aggregate_loop aggregate records = Some out ->
  summary out (rs ++ concat groups).
Proof.
  intros Ha Hr. revert aggregate rs Ha. induction Hr as [|r g records groups Hg _ IH]; intros aggregate rs Ha; cbn.
  { intros [= <-]. by rewrite app_nil_r. }
  destruct (merge_claude_response_record aggregate r) as [merged []] eqn:Em; [|done]. intros H.
  rewrite app_assoc. eapply IH; [|done]. by eapply summary_merge.
Qed.
End Absorption.
Lemma order_records_perm parse records : (order_records parse records).2 ≡ₚ records.
Proof. unfold order_records. cbn [snd]. case_match; apply sort_by_perm. Qed.

(** ** Provider order *)
(** The counters and costs the deterministic order compares, most significant
    first. *)
Definition usage_key (u : UsageTotals) :=
  (input_tokens u, (output_tokens u, (cache_read_tokens u, (cache_creation_5m_tokens u,
  (cache_creation_1h_tokens u, (reasoning_output_tokens u, (unattributed_total_tokens u, (request_count u,
  (observed (costs u), (reported (costs u), (cost_total (costs u), (cost_input (costs u),
  (cost_output (costs u), (cost_cache_read (costs u), cost_cache_creation (costs u))))))))))))))).
Lemma then_with_pair `{RustOrd A, RustOrd B} (a b : A) (x y : B) :
  then_with (rcmp a b) (rcmp x y) = rcmp (a, x) (b, y).
Proof. rewrite rcmp_pair. by destruct (rcmp a b). Qed.
Lemma deterministic_order_key a b :
  claude_usage_deterministic_order a b = rcmp (usage_key a) (usage_key b).
Proof. unfold claude_usage_deterministic_order. by rewrite !then_with_pair. Qed.
Lemma usage_key_inj a b : usage_key a = usage_key b -> a = b.
Proof.
  destruct a as [????????[]], b as [????????[]]. unfold usage_key. cbn. intros H. by simplify_eq.
Qed.
(** A record without its arrival position. *)
Definition forget (r : ClaudeResponseRecord) : ClaudeResponseRecord :=
  mkResponseRecord (cache_slot r) 0 (usage r) (model r) (selector r) (reasoning_effort r) (request_id r)
    (timestamp r) (computed_effective_input_context r) (tool_uses r).
Section Order.
Context (parse : string -> option Z).
Definition order_key (r : ClaudeResponseRecord) := (claude_response_provider_time parse r, usage_key (usage r)).
Definition timed (r : ClaudeResponseRecord) : Prop := is_Some (claude_response_provider_time parse r).
Lemma record_order_key a b :
  timed a -> timed b ->
  claude_response_record_order parse a b =
  rcmp (order_key a, physical_sequence a) (order_key b, physical_sequence b).
Proof.
  intros [ta Ha] [tb Hb]. unfold claude_response_record_order, order_key. rewrite !rcmp_pair, Ha, Hb.
  rewrite deterministic_order_key. change (rcmp (Some ta) (Some tb)) with (rcmp ta tb).
  unfold then_with. destruct (rcmp ta tb); [|done..]. by destruct (rcmp (usage_key _) _).
Qed.
Definition key_le (a b : ClaudeResponseRecord) : Prop := rcmp (order_key a) (order_key b) <> Gt.
Lemma key_le_forget a b : key_le (forget a) (forget b) <-> key_le a b.
Proof. done. Qed.
Lemma key_le_cases a b : key_le a b <-> rlt (order_key a) (order_key b) \/ order_key a = order_key b.
Proof.
  unfold key_le, rlt. rewrite <-(rcmp_eq (order_key a)). destruct (rcmp _ _); naive_solver.
Qed.
#[local] Instance key_le_trans : Transitive key_le.
Proof.
  intros a b c. rewrite !key_le_cases. intros [H1|H1] [H2|H2].
  - left. by transitivity (order_key b).
  - left. by rewrite <-H2.
  - left. by rewrite H1.
  - right. congruence.
Qed.
Lemma timed_insert_sorted x l :
  timed x -> Forall timed l -> StronglySorted key_le l ->
  StronglySorted key_le (insert_by (claude_response_record_order parse) x l).
Proof.
  intros Hx Hl Hs. induction Hs as [|y l Hs IH Hy]; cbn; [repeat constructor|].
  apply Forall_cons in Hl as [Hty Hl].
  pose proof (record_order_key x y Hx Hty) as He. rewrite rcmp_pair in He.
  assert (Hlow : key_le x y -> StronglySorted key_le (x :: y :: l)).
  { intros Hxy. constructor; [by constructor|]. constructor; [done|].
    eapply Forall_impl; [exact Hy|]. intros z Hz. by transitivity y. }
  destruct (claude_response_record_order parse x y) eqn:Ec.
  1,2: apply Hlow; unfold key_le; intros Hg; rewrite Hg in He; done.
  constructor; [by apply IH|]. rewrite insert_by_perm. constructor; [|done].
  apply key_le_cases. destruct (rcmp (order_key x) (order_key y)) eqn:Ek; [|done|].
  + right. symmetry. by apply rcmp_eq in Ek.
  + left. by apply rcmp_gt.
Qed.
Lemma timed_sort_sorted l :
  Forall timed l -> StronglySorted key_le (sort_by (claude_response_record_order parse) l).
Proof.
  induction 1 as [|x l Hx Hl IH]; cbn; [constructor|]. apply timed_insert_sorted; [done| |done].
  fold (sort_by (claude_response_record_order parse) l). by rewrite sort_by_perm.
Qed.
End Order.

(** ** Merging does not look at arrival positions *)
Lemma merge_forget c n :
  merge_claude_response_record (forget c) (forget n) =
  (forget (merge_claude_response_record c n).1, (merge_claude_response_record c n).2).
Proof.
  unfold merge_claude_response_record. cbn [forget usage model reasoning_effort request_id selector tool_uses
    cache_slot timestamp computed_effective_input_context physical_sequence].
  destruct (negb _); [done|].
  destruct (merge_optional_claude_field (model c) _) as [mo []]; cbn [negb]; [|done].
  destruct (merge_optional_claude_field (reasoning_effort c) _) as [ef []]; cbn [negb]; [|done].
  destruct (merge_optional_claude_field (request_id c) _) as [id []]; cbn [negb]; [|done].
  destruct (merge_claude_response_selector _ _) as [se []]; cbn [negb]; [|done].
  by destruct (merge_claude_response_tool_uses _ _) as [to []].
Qed.
Lemma removelast_fmap {A B} (f : A -> B) (xs : list A) : removelast (f <$> xs) = f <$> removelast xs.
Proof. induction xs as [|x [|y xs] IH]; [done..|]. cbn. f_equal. exact IH. Qed.
Section Forget.
Context (parse : string -> option Z).
Lemma canonical_forget (records canonical : list ClaudeResponseRecord) :
  canonical_loop parse (forget <$> records) (forget <$> canonical) =
  (fun l : list ClaudeResponseRecord => forget <$> l) <$> canonical_loop parse records canonical.
Proof.
  revert canonical. induction records as [|r records IH]; intros canonical; [done|]. cbn.
  pose proof (IH (canonical ++ [r])) as Hnew. rewrite fmap_app in Hnew. cbn in Hnew.
  rewrite fmap_last. destruct (last canonical) as [previous|]; cbn; [|done].
  change (claude_response_records_share_provider_time parse (forget previous) (forget r))
    with (claude_response_records_share_provider_time parse previous r).
  destruct (claude_response_records_share_provider_time _ _ _); [|done].
  rewrite merge_forget. destruct (merge_claude_response_record previous r) as [merged []]; cbn; [|done].
  rewrite removelast_fmap, <-IH, fmap_app. done.
Qed.
Lemma aggregate_forget aggregate (records : list ClaudeResponseRecord) :
  aggregate_loop (forget aggregate) (forget <$> records) = forget <$> aggregate_loop aggregate records.
Proof.
  revert aggregate. induction records as [|r records IH]; intros aggregate; [done|]. cbn.
  rewrite merge_forget. destruct (merge_claude_response_record aggregate r) as [merged []]; cbn; [apply IH|done].
Qed.
(** What [resolve_classified] does with its ordered records. *)
Definition merge_ordered (records : list ClaudeResponseRecord) :=
  try? canonical := canonical_loop parse records [] in
  match canonical with
  | [] => None
  | aggregate :: records =>
      try? merged := aggregate_loop aggregate records in Some (timestamp aggregate, merged)
  end.
Lemma resolve_merge_ordered o t records :
  o_record_limit_exceeded o = false -> decode_records (o_records o) t = Some records ->
  resolve_classified parse o t =
  match merge_ordered (order_records parse records).2 with
  | None => inl ResolveConflict
  | Some (first, a) =>
      inr (mkResolved (cache_slot a) (o_sequence o) (usage a) (model a) (selector a) (reasoning_effort a)
        (request_id a) first (timestamp a) (order_records parse records).1 (o_desktop_request o)
        (o_preceding_user_timestamp o) (computed_effective_input_context a) (tool_uses a))
  end.
Proof.
  intros Hl Hd. unfold resolve_classified, merge_ordered. rewrite Hl, Hd.
  destruct (order_records parse records) as [complete ordered]. cbn [fst snd].
  destruct (canonical_loop _ _ _) as [[|a l]|]; cbn; [done| |done].
  by destruct (aggregate_loop a l).
Qed.
Lemma merge_ordered_forget (records : list ClaudeResponseRecord) :
  merge_ordered (forget <$> records) = (fun '(first, a) => (first, forget a)) <$> merge_ordered records.
Proof.
  unfold merge_ordered. pose proof (canonical_forget records []) as Hc. cbn in Hc. rewrite Hc. clear Hc.
  destruct (canonical_loop parse records []) as [[|a l]|]; cbn; [done| |done].
  rewrite aggregate_forget. by destruct (aggregate_loop a l).
Qed.
Lemma merge_ordered_summary records first merged :
  Forall record_sorted records -> merge_ordered records = Some (first, merged) ->
  summary merged records /\ forall x, first = Some x -> exists r, r ∈ records /\ timestamp r = Some x.
Proof.
  intros Hs. unfold merge_ordered. destruct (canonical_loop _ _ _) as [[|a l]|] eqn:Ec; cbn; [done| |done].
  destruct (canonical_summary parse records [] [] _ Hs ltac:(constructor) Ec) as (groups & Hg & Hcat).
  apply Forall2_cons_inv_l in Hg as (g & groups' & Hg & Hl & ->).
  destruct (aggregate_loop a l) as [m|] eqn:Ea; cbn; [|done]. intros [= <- <-].
  cbn in Hcat. rewrite <-Hcat. split; [by eapply aggregate_summary|].
  intros x (r & Hr & ?)%(drawn_time _ _ (summary_drawn _ _ Hg)). exists r. by rewrite elem_of_app; auto.
Qed.
Lemma order_records_timed records :
  Forall (timed parse) records ->
  (order_records parse records).1 = true /\ StronglySorted (key_le parse) (order_records parse records).2.
Proof.
  intros Ht. unfold order_records. cbn [fst snd].
  assert (forallb (fun r => match claude_response_provider_time parse r with Some _ => true | None => false end)
    records = true) as ->.
  { apply forallb_forall. intros r Hr%list_elem_of_In. rewrite Forall_forall in Ht. by destruct (Ht r Hr) as [? ->]. }
  split; [done|]. by apply timed_sort_sorted.
Qed.
End Forget.

(** ** First and terminal times *)
Section Clock.
Context (parse : string -> option Z).
#[local] Abbreviation time := (claude_response_provider_time parse).
Lemma merge_time c n m : timed parse n -> merge_claude_response_record c n = (m, true) -> time m = time n.
Proof.
  intros [t Ht]. unfold merge_claude_response_record.
  destruct (negb _); [done|].
  destruct (merge_optional_claude_field (model c) _) as [mo []]; cbn [negb]; [|done].
  destruct (merge_optional_claude_field (reasoning_effort c) _) as [ef []]; cbn [negb]; [|done].
  destruct (merge_optional_claude_field (request_id c) _) as [id []]; cbn [negb]; [|done].
  destruct (merge_claude_response_selector _ _) as [se []]; cbn [negb]; [|done].
  destruct (merge_claude_response_tool_uses _ _) as [to []]; cbn [negb]; [|done].
  intros [= <-]. unfold claude_response_provider_time in *. cbn. by destruct (timestamp n).
Qed.
Lemma head_app_time (xs ys ys' : list ClaudeResponseRecord) :
  time <$> head ys = time <$> head ys' -> time <$> head (xs ++ ys) = time <$> head (xs ++ ys').
Proof. by destruct xs. Qed.
Lemma canonical_ends records canonical out :
  Forall (timed parse) (canonical ++ records) -> canonical_loop parse records canonical = Some out ->
  Forall (timed parse) out /\ time <$> head out = time <$> head (canonical ++ records) /\
  time <$> last out = time <$> last (canonical ++ records).
Proof.
  revert canonical. induction records as [|r records IH]; intros canonical Ht; cbn.
  { intros [= <-]. by rewrite app_nil_r in *. }
  assert (Hnew : canonical_loop parse records (canonical ++ [r]) = Some out -> Forall (timed parse) out /\
    time <$> head out = time <$> head (canonical ++ r :: records) /\
    time <$> last out = time <$> last (canonical ++ r :: records)).
  { rewrite (cons_middle r canonical records) in *. rewrite app_assoc in *. by apply IH. }
  destruct (last canonical) as [previous|] eqn:El; [|exact Hnew].
  destruct (claude_response_records_share_provider_time _ _ _) eqn:Es; [|exact Hnew].
  destruct (merge_claude_response_record previous r) as [merged []] eqn:Em; [|done]. intros H.
  apply Forall_app in Ht as [Htc [Htr Hts]%Forall_cons]. apply merge_time in Em; [|done].
  apply last_removelast in El. rewrite El in Htc |- *. apply Forall_app in Htc as [Htc [[tp Hp] _]%Forall_cons].
  destruct Htr as [tr Hr]. unfold claude_response_records_share_provider_time in Es. rewrite Hp, Hr in Es.
  apply Z.eqb_eq in Es as ->.
  destruct (IH (removelast canonical ++ [merged])) as (H1 & H2 & H3); [|done|].
  { rewrite <-app_assoc. apply Forall_app. split; [done|]. constructor; [|done]. exists tr. congruence. }
  split; [done|]. rewrite H2, H3, <-!app_assoc. split.
  - apply head_app_time. cbn. congruence.
  - cbn [app]. rewrite !last_app_cons. destruct records as [|r' records]; [cbn; congruence|done].
Qed.
Lemma aggregate_end aggregate records out :
  Forall (timed parse) (aggregate :: records) -> aggregate_loop aggregate records = Some out ->
  timed parse out /\ Some (time out) = time <$> last (aggregate :: records).
Proof.
  revert aggregate. induction records as [|r records IH]; intros aggregate Ht; cbn.
  { intros [= <-]. by apply Forall_cons in Ht as [? _]. }
  destruct (merge_claude_response_record aggregate r) as [merged []] eqn:Em; [|done]. intros H.
  apply Forall_cons in Ht as [_ Ht]. pose proof Ht as [Hr Hs]%Forall_cons. apply merge_time in Em; [|done].
  destruct (IH merged) as [H1 H2]; [|done|].
  { constructor; [|done]. destruct Hr as [t Hr]. exists t. congruence. }
  split; [done|]. rewrite H2. destruct records; cbn; [congruence|]. done.
Qed.
Lemma merge_ordered_times records first merged :
  Forall (timed parse) records -> merge_ordered parse records = Some (first, merged) ->
  exists lo hi, head records = Some lo /\ last records = Some hi /\
    (try? value := first in parse value) = time lo /\ time merged = time hi.
Proof.
  intros Ht. unfold merge_ordered. destruct (canonical_loop _ _ _) as [[|a l]|] eqn:Ec; cbn; [done| |done].
  destruct (canonical_ends records [] _ Ht Ec) as (Hc & Hh & Hl). cbn [app] in *.
  destruct (aggregate_loop a l) as [m|] eqn:Ea; cbn; [|done]. intros [= <- <-].
  apply aggregate_end in Ea as [_ Ea]; [|done]. rewrite Hl in Ea.
  destruct (head records) as [lo|] eqn:Elo; [|done]. destruct (last records) as [hi|] eqn:Ehi; [|done].
  exists lo, hi. cbn in Hh, Ea. injection Hh as Hh. injection Ea as Ea. done.
Qed.
Lemma sorted_between lo hi (l : list ClaudeResponseRecord) r :
  StronglySorted (key_le parse) l -> head l = Some lo -> last l = Some hi -> r ∈ l ->
  (key_le parse lo r \/ r = lo) /\ (key_le parse r hi \/ r = hi).
Proof.
  intros Hs Hlo Hhi Hr. split.
  - destruct l as [|x l]; [done|]. injection Hlo as ->. apply StronglySorted_inv in Hs as [_ Hs].
    apply elem_of_cons in Hr as [->|Hr]; [by right|]. left. by eapply Forall_forall in Hs.
  - apply last_removelast in Hhi. rewrite Hhi in Hs, Hr. apply elem_of_app in Hr as [Hr|Hr%list_elem_of_singleton];
      [|by right]. left. clear Hlo Hhi.
    induction (removelast l) as [|x xs IH]; [by apply elem_of_nil in Hr|].
    apply StronglySorted_inv in Hs as [Hs Hx]. apply elem_of_cons in Hr as [->|Hr]; [|auto].
    rewrite Forall_forall in Hx. apply Hx. apply elem_of_app. right. by apply list_elem_of_singleton.
Qed.
Lemma key_le_time a b s t : key_le parse a b -> time a = Some s -> time b = Some t -> s <= t.
Proof.
  unfold key_le, order_key. rewrite rcmp_pair. intros Hk Ha Hb. rewrite Ha, Hb in Hk.
  change (rcmp (Some s) (Some t)) with (s ?= t) in Hk. destruct (Z.compare_spec s t); [lia..|done].
Qed.
End Clock.

(** ** The resolution theorems *)
(** A resolved response as the record it stands for. *)
Definition record_of (r : ResolvedClaudeResponse) : ClaudeResponseRecord :=
  mkResponseRecord (r_cache_slot r) 0 (r_usage r) (r_model r) (r_selector r) (r_reasoning_effort r) (r_request_id r)
    (r_terminal_timestamp r) (r_computed_effective_input_context r) (r_tool_uses r).
Lemma summary_forget m rs : summary m rs -> summary (forget m) rs.
Proof.
  intros [Ha Hd Hs]. split; [|by destruct Hd|done]. intros r Hr. by destruct (Ha r Hr).
Qed.
Lemma summary_perm m rs rs' : rs ≡ₚ rs' -> summary m rs -> summary m rs'.
Proof.
  intros Hp [Ha Hd Hs]. split; [by setoid_rewrite <-Hp| |done].
  destruct Hd. split; unfold named_by in *; by setoid_rewrite <-Hp.
Qed.
Lemma resolved_summary parse o t records r :
  decode_records (o_records o) t = Some records -> Forall record_sorted records ->
  resolve_classified parse o t = inr r ->
  summary (record_of r) records /\ forall x, r_first_timestamp r = Some x -> exists r', r' ∈ records /\ timestamp r' = Some x.
Proof.
  intros Hd Hs. destruct (o_record_limit_exceeded o) eqn:El; [unfold resolve_classified; by rewrite El|].
  rewrite (resolve_merge_ordered parse o t records El Hd).
  destruct (merge_ordered parse _) as [[first m]|] eqn:Em; [|done]. intros [= <-].
  apply merge_ordered_summary in Em as [Em Hf]; [|by rewrite order_records_perm].
  split; [eapply summary_perm; [apply (order_records_perm parse)|]; by apply summary_forget in Em|].
  intros x (r' & Hr' & ?)%Hf. exists r'. by rewrite order_records_perm in Hr'.
Qed.

(** Two records name different values for the same text, tool use or facet. *)
Definition disagree (a b : ClaudeResponseRecord) : Prop :=
  (exists x y, model a = Some x /\ model b = Some y /\ x <> y) \/
  (exists x y, reasoning_effort a = Some x /\ reasoning_effort b = Some y /\ x <> y) \/
  (exists x y, request_id a = Some x /\ request_id b = Some y /\ x <> y) \/
  (exists id x y, bt_get id (tool_uses a) = Some x /\ bt_get id (tool_uses b) = Some y /\ x <> y) \/
  (exists f x y, bt_get f (sel_context (selector a)) = Some x /\ bt_get f (sel_context (selector b)) = Some y /\ x <> y).
Lemma absorbs_agree m a b : absorbs m a -> absorbs m b -> ~ disagree a b.
Proof.
  intros [_ m1 e1 i1 t1 s1 _] [_ m2 e2 i2 t2 s2 _].
  intros [(x & y & H1 & H2 & Hne)|[(x & y & H1 & H2 & Hne)|[(x & y & H1 & H2 & Hne)
    |[(k & x & y & H1 & H2 & Hne)|(k & x & y & H1 & H2 & Hne)]]]]; apply Hne.
  - apply m1 in H1. apply m2 in H2. congruence.
  - apply e1 in H1. apply e2 in H2. congruence.
  - apply i1 in H1. apply i2 in H2. congruence.
  - apply t1 in H1. apply t2 in H2. congruence.
  - apply s1 in H1. apply s2 in H2. congruence.
Qed.

(** Sorted by time and usage, with ties only between equal records, the
    records without positions are determined by the records as a multiset. *)
Lemma forgotten_unique parse (records1 records2 l1 l2 : list ClaudeResponseRecord) :
  l1 ≡ₚ records1 -> l2 ≡ₚ records2 -> forget <$> records1 ≡ₚ forget <$> records2 ->
  StronglySorted (key_le parse) l1 -> StronglySorted (key_le parse) l2 ->
  (forall a b, a ∈ records1 -> b ∈ records1 -> order_key parse a = order_key parse b -> forget a = forget b) ->
  forget <$> l1 = forget <$> l2.
Proof.
  intros Hp1 Hp2 Hp Hs1 Hs2 Hsame.
  assert (Hsorted : forall l, StronglySorted (key_le parse) l -> StronglySorted (key_le parse) (forget <$> l)).
  { induction 1 as [|a l _ IH Ha]; constructor; [exact IH|]. apply Forall_fmap. exact Ha. }
  apply (StronglySorted_unique_strong (key_le parse)); [|by apply Hsorted..|by rewrite Hp1, Hp2].
  intros x y Hx Hy Hxy Hyx. rewrite Hp1 in Hx. rewrite Hp2, <-Hp in Hy.
  apply list_elem_of_fmap in Hx as (a & -> & Ha), Hy as (b & -> & Hb). apply Hsame; [done..|].
  apply key_le_cases in Hxy as [Hlt|He]; [|exact He]. unfold key_le in Hyx. apply rcmp_gt in Hlt. by destruct Hyx.
Qed.

(** C28: A resolved response absorbs every one of its records: no record has a
    counter or cost above the resolved usage, every model, effort, request id,
    tool use and selector facet a record names is the resolved one, the widest
    computed context is kept; and it invents nothing: usage and request slot
    are those of one record, and each of its values, if it has one, is some
    record's: model, effort, request id, first and last time, computed context,
    every tool use, every selector facet and every facet's source. *)
Theorem resolution_absorbs_every_record parse o t records r :
  decode_records (o_records o) t = Some records -> Forall record_sorted records ->
  resolve_classified parse o t = inr r ->
  (forall r', r' ∈ records -> absorbs (record_of r) r') /\ drawn_from (record_of r) records /\
  (forall x, r_first_timestamp r = Some x -> exists r', r' ∈ records /\ timestamp r' = Some x).
Proof. intros Hd Hs Hr. by destruct (resolved_summary parse o t records r Hd Hs Hr) as [[] ?]. Qed.

(** Records that contradict each other are never merged: when two records
    of a response name different models, efforts, request ids, names for one
    tool use or values for one selector facet, resolving is a conflict; a
    response over its record limit, or one that does not decode, is a decode
    failure and nothing else is. *)
Theorem disagreement_is_conflict parse o t :
  (resolve_classified parse o t = inl ResolveDecode <->
     o_record_limit_exceeded o = true \/ decode_records (o_records o) t = None) /\
  (forall records a b, o_record_limit_exceeded o = false -> decode_records (o_records o) t = Some records ->
     Forall record_sorted records -> a ∈ records -> b ∈ records -> disagree a b ->
     resolve_classified parse o t = inl ResolveConflict).
Proof.
  split.
  - destruct (o_record_limit_exceeded o) eqn:El; [unfold resolve_classified; rewrite El; naive_solver|].
    destruct (decode_records (o_records o) t) as [records|] eqn:Ed;
      [|unfold resolve_classified; rewrite El, Ed; naive_solver].
    rewrite (resolve_merge_ordered parse o t records El Ed). destruct (merge_ordered _ _) as [[]|]; naive_solver.
  - intros records a b El Ed Hs Ha Hb Hdis.
    assert (Hno : forall r, resolve_classified parse o t = inr r -> False).
    { intros r Hr. destruct (resolved_summary parse o t records r Ed Hs Hr) as [[Habs _ _] _].
      exact (absorbs_agree _ _ _ (Habs a Ha) (Habs b Hb) Hdis). }
    rewrite (resolve_merge_ordered parse o t records El Ed) in *.
    destruct (merge_ordered _ _) as [[]|]; [|done]. exfalso. by eapply Hno.
Qed.

(** When every record of a response carries a provider time, a resolved
    response's clock is complete and runs from the earliest to the latest of
    its records' times, whatever order they were appended in. *)
Theorem resolution_clock parse o t records r :
  decode_records (o_records o) t = Some records -> Forall (timed parse) records ->
  resolve_classified parse o t = inr r ->
  r_event_clock_complete r = true /\
  exists lo hi, lo ∈ records /\ hi ∈ records /\
    (try? value := r_first_timestamp r in parse value) = claude_response_provider_time parse lo /\
    (try? value := r_terminal_timestamp r in parse value) = claude_response_provider_time parse hi /\
    forall r' s, r' ∈ records -> claude_response_provider_time parse r' = Some s ->
      exists a b, claude_response_provider_time parse lo = Some a /\
        claude_response_provider_time parse hi = Some b /\ a <= s <= b.
Proof.
  intros Hd Ht. destruct (o_record_limit_exceeded o) eqn:El; [unfold resolve_classified; by rewrite El|].
  rewrite (resolve_merge_ordered parse o t records El Hd).
  destruct (order_records_timed parse records Ht) as [Hc Hs]. pose proof (order_records_perm parse records) as Hp.
  destruct (order_records parse records) as [complete ordered]. cbn [fst snd] in *. subst complete.
  destruct (merge_ordered parse ordered) as [[first m]|] eqn:Em; [|done]. intros [= <-]. split; [done|].
  destruct (merge_ordered_times parse ordered first m ltac:(by rewrite Hp) Em) as (lo & hi & Hlo & Hhi & Hf & Hm).
  exists lo, hi. split_and!; [| |exact Hf|exact Hm|].
  - rewrite <-Hp. by apply head_Some_elem_of.
  - rewrite <-Hp. by apply last_Some_elem_of.
  - intros r' s Hr' Hs'. rewrite Forall_forall in Ht.
    assert (lo ∈ records) as [a Ha]%Ht by (rewrite <-Hp; by apply head_Some_elem_of).
    assert (hi ∈ records) as [b Hb]%Ht by (rewrite <-Hp; by apply last_Some_elem_of).
    exists a, b. split; [done|]. split; [done|]. rewrite <-Hp in Hr'.
    destruct (sorted_between parse lo hi ordered r' Hs Hlo Hhi Hr') as [H1 H2].
    split; [destruct H1 as [H1| ->]|destruct H2 as [H2| ->]]; try (by eapply key_le_time; eauto); simplify_eq; lia.
Qed.

(** C16: Append order does not matter once provider time is known: two
    observations of the same response whose decoded records are the same up to
    order and arrival position, all with a provider time and any two records
    of equal time and equal usage identical, resolve alike, failures included. *)
Theorem resolve_order_independent parse o1 o2 t records1 records2 :
  o_sequence o1 = o_sequence o2 -> o_preceding_user_timestamp o1 = o_preceding_user_timestamp o2 ->
  o_desktop_request o1 = o_desktop_request o2 -> o_record_limit_exceeded o1 = o_record_limit_exceeded o2 ->
  decode_records (o_records o1) t = Some records1 -> decode_records (o_records o2) t = Some records2 ->
  forget <$> records1 ≡ₚ forget <$> records2 -> Forall (timed parse) records1 ->
  (forall a b, a ∈ records1 -> b ∈ records1 -> order_key parse a = order_key parse b -> forget a = forget b) ->
  resolve_classified parse o1 t = resolve_classified parse o2 t.
Proof.
  intros Hq Hu Hdk Hlim Hd1 Hd2 Hp Ht1 Hsame.
  destruct (o_record_limit_exceeded o1) eqn:El; [unfold resolve_classified; by rewrite El, <-Hlim|].
  symmetry in Hlim. rewrite (resolve_merge_ordered parse o1 t records1 El Hd1), (resolve_merge_ordered parse o2 t records2 Hlim Hd2).
  assert (Ht2 : Forall (timed parse) records2).
  { assert (Forall (timed parse) (forget <$> records1)) as H by (by rewrite Forall_fmap).
    rewrite Hp, Forall_fmap in H. exact H. }
  destruct (order_records_timed parse _ Ht1) as [Hc1 Hs1], (order_records_timed parse _ Ht2) as [Hc2 Hs2].
  pose proof (order_records_perm parse records1) as Hp1. pose proof (order_records_perm parse records2) as Hp2.
  destruct (order_records parse records1) as [c1 l1], (order_records parse records2) as [c2 l2]. cbn [fst snd] in *.
  assert (Hl : forget <$> l1 = forget <$> l2) by (eapply forgotten_unique; eauto).
  pose proof (merge_ordered_forget parse l1) as H1. rewrite Hl, merge_ordered_forget in H1. subst c1 c2.
  destruct (merge_ordered parse l1) as [[f1 m1]|], (merge_ordered parse l2) as [[f2 m2]|]; try done.
  cbn in H1. injection H1. intros. f_equal. rewrite Hq, Hu, Hdk. by f_equal.
Qed.

(** ** The two sample lines resolved *)
Definition sample_parse (s : string) : option Z :=
  if decide (s = "2026-01-01T00:00:00Z"%string) then Some 1767225600
  else if decide (s = "2026-01-01T00:00:05Z"%string) then Some 1767225605 else None.
Definition sample_table : ClaudeSelectorTable := mkSelectorTable [mkSelector [("entrypoint", "cli")]%string []].
Definition sample_observation (raws : list RawRecord) : ClaudeResponseObservation :=
  mkResponseObservation 0 None (encode_all ((fun raw => (raw, Interned 0)) <$> raws)) false false RULE_EPOCH.
Definition sample_records (raws : list RawRecord) : list ClaudeResponseRecord :=
  exact_records ((fun raw => (raw, mkSelector [("entrypoint", "cli")]%string [])) <$> raws).
Definition sample_raws : list RawRecord := line_raw <$> sample_lines.
Definition renamed_raws : list RawRecord := [
  sample_raw 3 "2026-01-01T00:00:00Z" [("t1", "Read")]%string;
  sample_raw 8 "2026-01-01T00:00:05Z" [("t1", "Bash")]%string].
Ltac sample_records_wf :=
  repeat (apply Forall_cons; split; [split_and!; by apply ascending_ksorted|]); apply Forall_nil_2.
Ltac sample_timed := repeat (apply Forall_cons; split; [eexists; vm_compute; reflexivity|]); apply Forall_nil_2.

Lemma resolution_absorbs_every_record_witness : exists r,
  resolve_classified sample_parse (sample_observation sample_raws) sample_table = inr r /\
  r_tool_uses r = [("t1", "Read"); ("t2", "Bash")]%string /\
  forall r', r' ∈ sample_records sample_raws -> absorbs (record_of r) r'.
Proof.
  eexists. split; [vm_compute; reflexivity|]. split; [reflexivity|].
  eapply (proj1 (resolution_absorbs_every_record sample_parse (sample_observation sample_raws) sample_table
    (sample_records sample_raws) _ ltac:(vm_compute; reflexivity) ltac:(sample_records_wf) ltac:(vm_compute; reflexivity))).
Defined.
Lemma disagreement_is_conflict_witness :
  resolve_classified sample_parse (sample_observation renamed_raws) sample_table = inl ResolveConflict.
Proof.
  destruct (disagreement_is_conflict sample_parse (sample_observation renamed_raws) sample_table) as [_ H].
  eapply (H (sample_records renamed_raws)).
  - reflexivity.
  - vm_compute. reflexivity.
  - sample_records_wf.
  - by apply elem_of_cons; left.
  - apply elem_of_cons; right. by apply elem_of_cons; left.
  - right. right. right. left. exists "t1"%string, "Read"%string, "Bash"%string. by split_and!.
Defined.
Lemma resolution_clock_witness : exists r,
  resolve_classified sample_parse (sample_observation (reverse sample_raws)) sample_table = inr r /\
  r_event_clock_complete r = true /\ r_first_timestamp r = Some "2026-01-01T00:00:00Z"%string.
Proof.
  eexists. split; [vm_compute; reflexivity|]. split; [|reflexivity].
  eapply (proj1 (resolution_clock sample_parse (sample_observation (reverse sample_raws)) sample_table
    (sample_records (reverse sample_raws)) _ ltac:(vm_compute; reflexivity) ltac:(sample_timed)
    ltac:(vm_compute; reflexivity))).
Defined.
Lemma resolve_order_independent_witness :
  resolve_classified sample_parse (sample_observation sample_raws) sample_table =
  resolve_classified sample_parse (sample_observation (reverse sample_raws)) sample_table.
Proof.
  apply (resolve_order_independent sample_parse _ _ sample_table (sample_records sample_raws)
    (sample_records (reverse sample_raws))); [reflexivity..| | | | |].
  - vm_compute. reflexivity.
  - vm_compute. reflexivity.
  - apply perm_swap.
  - sample_timed.
  - intros a b Ha Hb He. cbn in Ha, Hb. rewrite !elem_of_cons in Ha, Hb.
    destruct Ha as [->|[->|Ha%elem_of_nil]], Hb as [->|[->|Hb%elem_of_nil]]; done.
Defined.
