(* ===== verification/Chars.v ===== *)
(** Rust text as the list of its characters.

    The composition classifier walks text by [char] and never by byte, so
    there a [str] is the list of its scalar values; [len] is the length of its
    UTF-8 encoding and a slice between character boundaries is a sublist.
    String literals coerce to their characters: the source's are ASCII. *)
From S2P Require Import Prelude.
From S2P Require Import Text.
Local Open Scope Z_scope.

Abbreviation str := (list Z).
Definition lit (s : string) : str := as_bytes s.
Coercion lit : string >-> list.
#[global] Arguments lit : simpl never.

Definition str_eqb (a b : str) : bool := bool_decide (a = b).
(** [matches!(s, "a" | "b" | ..)] and [LIST.contains(&s)]. *)
Definition one_of (names : list string) (s : str) : bool := existsb (fun name : string => str_eqb name s) names.

(** [str::len]: UTF-8 bytes. *)
Definition len (s : str) : Z := foldr (fun ch n => len_utf8 ch + n) 0 s.
Definition is_empty (s : str) : bool := match s with [] => true | _ => false end.

(** The characters of a literal, as a set: [".."].contains(ch)]. *)
Definition among (set : str) (ch : Z) : bool := existsb (Z.eqb ch) set.
Definition is_ascii_alphabetic (ch : Z) : bool := is_ascii_lowercase ch || is_ascii_uppercase ch.
(** [ch.is_ascii_alphanumeric() || ch == '_']. *)
Definition is_ident (ch : Z) : bool := is_ascii_alphanumeric ch || (ch =? 95).

Definition starts_with_char (m : Z -> bool) (s : str) : bool := match s with ch :: _ => m ch | [] => false end.
Definition ends_with (suffix s : str) : bool := if strip_suffix suffix s is Some _ then true else false.
Definition ends_with_char (m : Z -> bool) (s : str) : bool := starts_with_char m (reverse s).
Definition trim_end_matches (m : Z -> bool) (s : str) : str := reverse (trim_start_matches m (reverse s)).
(** [str::trim], [trim_start], [trim_end]. *)
Definition trim_ws (s : str) : str := trim_matches is_whitespace s.
Definition trim_start (s : str) : str := trim_start_matches is_whitespace s.
Definition trim_end (s : str) : str := trim_end_matches is_whitespace s.

(** [s.split(pred)], [s.rsplit(pred).next()], [s.split_once(c)],
    [s.rsplit_once(c)]. *)
Definition split (m : Z -> bool) (s : str) : list str := split_chars m s.
Definition last_piece (m : Z -> bool) (s : str) : str := default [] (last (split_chars m s)).
Definition split_once (sep s : str) : option (str * str) := split_at_first sep s.
Definition rsplit_once (sep s : str) : option (str * str) := split_at_last sep s.

(** The longest prefix of characters in a class, and the rest: the text before
    and from [s.find(|ch| !m(ch)).unwrap_or(s.len())]. *)
Fixpoint span (m : Z -> bool) (s : str) : str * str :=
  match s with
  | ch :: rest => if m ch then let '(taken, rest) := span m rest in (ch :: taken, rest) else ([], s)
  | [] => ([], [])
  end.
(** [pieces.join(sep)]. *)
Fixpoint join_with (sep : str) (pieces : list str) : str :=
  match pieces with
  | [] => []
  | [piece] => piece
  | piece :: pieces => piece ++ sep ++ join_with sep pieces
  end.

(** A [std::path::Path]: UTF-8 text, or other bytes, of which the code reads
    only the text [to_string_lossy] gives. *)
Inductive Path := Utf8Path (text : str) | OtherPath (lossy : str).
Definition to_str (p : Path) : option str := match p with Utf8Path text => Some text | OtherPath _ => None end.
Definition to_string_lossy (p : Path) : str := match p with Utf8Path text => text | OtherPath lossy => lossy end.

(** ** Laws *)
Lemma str_eqb_eq a b : str_eqb a b = true <-> a = b.
Proof. apply bool_decide_eq_true. Qed.
Lemma str_eqb_refl a : str_eqb a a = true.
Proof. by apply str_eqb_eq. Qed.
Lemma str_eqb_neq a b : str_eqb a b = false <-> a <> b.
Proof. apply bool_decide_eq_false. Qed.
Lemma one_of_spec names s : one_of names s = true <-> exists name, name ∈ names /\ lit name = s.
Proof.
  unfold one_of. rewrite existsb_exists. setoid_rewrite <-list_elem_of_In.
  by setoid_rewrite str_eqb_eq.
Qed.
Lemma among_spec set ch : among set ch = true <-> ch ∈ set.
Proof.
  unfold among. rewrite existsb_exists. setoid_rewrite <-list_elem_of_In. setoid_rewrite Z.eqb_eq. naive_solver.
Qed.
Lemma len_app a b : len (a ++ b) = len a + len b.
Proof. induction a; cbn; [done|]. unfold len in *. cbn. lia. Qed.
Lemma len_nonneg s : 0 <= len s.
Proof. unfold len. induction s as [|ch s IH]; cbn; [lia|]. pose proof (len_utf8_bound ch). lia. Qed.
Lemma length_le_len s : Z.of_nat (length s) <= len s.
Proof. unfold len. induction s as [|ch s IH]; cbn; [lia|]. pose proof (len_utf8_bound ch). lia. Qed.
Lemma span_app m s : (span m s).1 ++ (span m s).2 = s.
Proof. induction s as [|ch s IH]; cbn; [done|]. destruct (m ch); [|done]. destruct (span m s). cbn in *. by rewrite IH. Qed.
Lemma span_all m s : Forall (fun ch => m ch = true) (span m s).1.
Proof. induction s as [|ch s IH]; cbn; [done|]. destruct (m ch) eqn:E; [|done]. destruct (span m s). by constructor. Qed.
Lemma trim_start_suffix m s : exists pre, s = pre ++ trim_start_matches m s.
Proof.
  induction s as [|ch s [pre IH]]; cbn; [by exists []|].
  destruct (m ch); [exists (ch :: pre); cbn; by f_equal|by exists []].
Qed.
Lemma trim_end_prefix m s : exists post, s = trim_end_matches m s ++ post.
Proof.
  destruct (trim_start_suffix m (reverse s)) as [pre E]. exists (reverse pre).
  unfold trim_end_matches. by rewrite <-reverse_app, <-E, reverse_involutive.
Qed.
Lemma trim_matches_sub m s : exists pre post, s = pre ++ trim_matches m s ++ post.
Proof.
  destruct (trim_start_suffix m s) as [pre Hs]. destruct (trim_end_prefix m (trim_start_matches m s)) as [post He].
  exists pre, post. unfold trim_matches. rewrite Hs at 1. f_equal. exact He.
Qed.

Lemma split_chars_ne m s : split_chars m s <> [].
Proof. destruct s as [|ch s]; cbn; [done|]. destruct (m ch); [done|]. by destruct (split_chars m s). Qed.
(** The pieces, joined by their separators, are the text. *)
Lemma join_split c s : join_with [c] (split (Z.eqb c) s) = s.
Proof.
  unfold split. induction s as [|ch s IH]; [done|]. cbn [split_chars].
  pose proof (split_chars_ne (Z.eqb c) s). destruct (c =? ch) eqn:E; zbool; subst.
  - destruct (split_chars _ s) as [|p ps] eqn:Es; [done|]. cbn [join_with]. cbn [app]. f_equal. by rewrite <-IH.
  - destruct (split_chars _ s) as [|p ps]; [done|]. rewrite <-IH. by destruct ps.
Qed.
(** No piece holds a separator. *)
Lemma split_pieces m s : Forall (Forall (fun ch => m ch = false)) (split m s).
Proof.
  unfold split. induction s as [|ch s IH]; cbn; [by repeat constructor|].
  destruct (m ch) eqn:E; [by constructor|]. destruct (split_chars m s) as [|p ps]; [by repeat constructor|].
  inversion IH. by repeat constructor.
Qed.
(** Splitting a text of separator-free pieces gives the pieces back. *)
Lemma split_join c pieces :
  pieces <> [] -> Forall (Forall (fun ch => (c =? ch) = false)) pieces ->
  split (Z.eqb c) (join_with [c] pieces) = pieces.
Proof.
  assert (forall p s, Forall (fun ch => (c =? ch) = false) p ->
    split_chars (Z.eqb c) (p ++ s) =
      match split_chars (Z.eqb c) s with q :: qs => (p ++ q) :: qs | [] => [p] end) as Hone.
  { intros p s. induction 1 as [|ch p Hc _ IH]; cbn.
    - pose proof (split_chars_ne (Z.eqb c) s). by destruct (split_chars _ s).
    - rewrite Hc, IH. by destruct (split_chars _ s). }
  intros Hne Hp. unfold split. induction Hp as [|p ps Hp1 Hps IH]; [done|].
  destruct ps as [|q qs]; cbn [join_with].
  - rewrite <-(app_nil_r p) at 1. rewrite Hone by done. cbn. by rewrite app_nil_r.
  - rewrite Hone by done. cbn [app split_chars]. rewrite Z.eqb_refl, app_nil_r. f_equal. by apply IH.
Qed.
Lemma split_app c a b : split (Z.eqb c) (a ++ c :: b) = split (Z.eqb c) a ++ split (Z.eqb c) b.
Proof.
  unfold split. induction a as [|ch a IH]; cbn [app split_chars].
  - by rewrite Z.eqb_refl.
  - rewrite IH. destruct (c =? ch); [done|].
    pose proof (split_chars_ne (Z.eqb c) a). by destruct (split_chars _ a).
Qed.
