(* ===== verification/ShellPaths.v ===== *)
(** Paths of a shell command, taken lexically
    (crates/ottto-service/src/composition_kinds/shell.rs, first part and the
    path functions at its end).

    [normalize_path] decides which transcript path may travel as plain text;
    [join] and [normalize_lexically] resolve a path against the folder a
    command runs in.  [str::to_lowercase] is a parameter ([LowersAscii] states
    the part of its documentation the guard relies on). *)
From S2P Require Import Prelude.
From S2P Require Import Text.
From S2P Require Import Chars.
Local Open Scope Z_scope.

Definition MAX_SHELL_PATH_TOKENS : nat := 16.
Definition MAX_PATH_BYTES : Z := 512.

Definition slash (ch : Z) : bool := 47 =? ch.

Definition extension (path : str) : option str :=
  let name := last_piece slash path in
  try? (_, ext) := rsplit_once "." name in
  if (1 <=? len ext) && (len ext <=? 8) && forallb is_ascii_alphanumeric ext then Some ext else None.

Definition token_end (ch : Z) : bool := is_whitespace ch || among ";|&()<>`" ch.
(** A double quote, a quote or a comma around a token. *)
Definition token_wrap (ch : Z) : bool := among [34; 39; 44] ch.
Definition is_path_token (token : str) : bool :=
  negb (is_empty token) && negb (starts_with "-" token) && negb (contains "://" token)
  && negb (existsb (among "*?${}=[]") token)
  && (contains "/" token || if extension token is Some _ then true else false).
Definition shell_path_tokens (command : str) : list str :=
  take MAX_SHELL_PATH_TOKENS
    (filter (fun token => is_path_token token = true) (trim_matches token_wrap <$> split token_end command)).

Definition is_script_flag (word : str) : bool :=
  (1 <? len word) && starts_with "-" word && forallb is_ascii_alphabetic (drop 1 word) && contains "c" word.

(** Quotes and braces split too. *)
Definition command_end (ch : Z) : bool := is_whitespace ch || among ([34] ++ lit ";|&()`'{}") ch.
Definition directory_flags : list string :=
  ["--chdir"; "--directory"; "--git-dir"; "--work-tree"; "-chdir"; "--cwd"; "--prefix"].
Definition shell_changes_directory (command : str) : bool :=
  existsb (fun word =>
      one_of ["cd"; "pushd"; "popd"; "chdir"] word || starts_with "-C" word
      || existsb (fun flag : string => starts_with flag word) directory_flags)
    (split command_end command).

Definition is_repo_relative (path : str) : bool :=
  negb (is_empty path) && negb (starts_with "/" path) && negb (starts_with "~" path)
  && negb (existsb (str_eqb "..") (split slash path)).

Definition PLAIN_PATH_FORBIDDEN_FRAGMENTS : list string :=
  ["/users/"; "\users\"; "/home/"; "\home\"; "file://"; "transcript_path"; "workspace_path";
   "full_transcript_path"; "authorization:"; "bearer "; "otdev_"; "otsi_"; "otsr_"; "otel_"; "otrelay_"].

Section Guard.
Context (to_lowercase : str -> str).

Definition is_plain_path (path : str) : bool :=
  let lowered := to_lowercase path in
  is_repo_relative path && (Z.of_nat (length path) <=? MAX_PATH_BYTES)
  && negb (contains "\" path) && negb (contains ":/" path)
  && negb (starts_with " " path) && negb (ends_with " " path) && negb (contains "  " path)
  && negb (existsb (fun ch => negb (ch =? 32) && (is_whitespace ch || is_control ch)) path)
  && negb (existsb (fun fragment : string => contains fragment lowered) PLAIN_PATH_FORBIDDEN_FRAGMENTS).

(** The repo-relative part of an absolute path under the session's folder. *)
Definition inside_cwd (raw : str) (cwd : option Path) : option str :=
  try? path := cwd in
  try? text := to_str path in
  try? rest := strip_prefix (trim_end_matches slash text) raw in
  try? rest := strip_prefix "/" rest in
  if is_repo_relative rest then Some rest else None.

Definition normalize_path (raw : str) (cwd : option Path) (trust_relative : bool) : option (str * option str) :=
  let raw := trim_ws raw in
  let raw := default raw (strip_prefix "./" raw) in
  if is_empty raw || (MAX_PATH_BYTES <? len raw) then None else
  if starts_with "/" raw then
    Some (match inside_cwd raw cwd with
          | Some rest => (rest, if is_plain_path rest then Some rest else None)
          | None => (raw, None)
          end)
  else
    let plain := trust_relative && (if cwd is Some _ then true else false) && is_plain_path raw in
    Some (raw, if plain then Some raw else None).
End Guard.

(** ** Lexical resolution *)
(** One component of an absolute path, on the components so far. *)
Definition push_part (parts : list str) (part : str) : list str :=
  if one_of [""; "."]%string part then parts
  else if str_eqb ".." part then removelast parts
  else parts ++ [part].
Definition normalize_lexically (path : str) : str :=
  if negb (starts_with "/" path) then path
  else lit "/" ++ join_with "/" (foldl push_part [] (split slash path)).

Definition join (base : option str) (raw : str) : option str :=
  let raw := trim_ws raw in
  if is_empty raw || (MAX_PATH_BYTES <? len raw) then None else
  if starts_with "/" raw then Some (normalize_lexically raw) else
  if starts_with "~" raw then Some raw else
  Some (match base with
        | Some base => normalize_lexically (trim_end_matches slash base ++ lit "/" ++ raw)
        | None => default raw (strip_prefix "./" raw)
        end).
Definition join_to (base : option Path) (raw : str) : option str :=
  join ((fun base => normalize_lexically (to_string_lossy base)) <$> base) raw.

(** ** What a plain path is *)
(** [str::to_lowercase] maps a run of ASCII to its lower case, whatever stands
    around it. *)
Definition LowersAscii (to_lowercase : str -> str) : Prop :=
  forall pre mid post, Forall (fun ch => 0 <= ch < 128) mid ->
    exists pre' post', to_lowercase (pre ++ mid ++ post) = pre' ++ to_ascii_lowercase mid ++ post'.

(** A path the server's admission takes unchanged. *)
Record PlainPath (path : str) : Prop := {
  plain_nonempty : path <> [];
  plain_relative : ~ starts_with "/" path = true /\ ~ starts_with "~" path = true;
  plain_inside : lit ".." ∉ split slash path;
  plain_short : (length path <= 512)%nat;
  plain_no_drive_or_url : forall pre post, path <> pre ++ 58 :: 47 :: post;
  plain_chars : forall ch, ch ∈ path -> ch <> 92 /\ (ch = 32 \/ is_whitespace ch = false /\ is_control ch = false);
  plain_spaces : ~ starts_with " " path = true /\ ~ ends_with " " path = true /\ contains "  " path = false;
  plain_no_fragment : forall fragment mid pre post,
    fragment ∈ PLAIN_PATH_FORBIDDEN_FRAGMENTS -> path = pre ++ mid ++ post -> to_ascii_lowercase mid <> lit fragment;
}.

(** ** Laws of the guard *)
Lemma not_true b : negb b = true -> ~ b = true.
Proof. by destruct b. Qed.
Lemma existsb_false {A} (p : A -> bool) l : existsb p l = false <-> Forall (fun x => p x = false) l.
Proof.
  rewrite Forall_forall. split.
  - intros H x Hx. destruct (p x) eqn:E; [|done]. rewrite <-H. symmetry. apply existsb_exists. exists x.
    by rewrite <-list_elem_of_In.
  - intros H. apply not_true_iff_false. rewrite existsb_exists. intros (x & Hx & E).
    rewrite (H x) in E; [done|by apply list_elem_of_In].
Qed.

Lemma repo_relative_spec path :
  is_repo_relative path = true ->
  path <> [] /\ (~ starts_with "/" path = true /\ ~ starts_with "~" path = true) /\ lit ".." ∉ split slash path.
Proof.
  unfold is_repo_relative. rewrite !andb_true_iff. intros (((He & Hs) & Ht) & Hp).
  split_and!; [by destruct path|by apply not_true..|]. apply negb_true_iff, existsb_false in Hp.
  intros Hin. pose proof (proj1 (Forall_forall _ _) Hp _ Hin) as H. cbn beta in H. by rewrite str_eqb_refl in H.
Qed.

Lemma forbidden_ascii fragment :
  fragment ∈ PLAIN_PATH_FORBIDDEN_FRAGMENTS -> Forall (fun ch => 0 <= ch < 128) (lit fragment).
Proof.
  revert fragment. apply Forall_forall. unfold PLAIN_PATH_FORBIDDEN_FRAGMENTS.
  repeat (constructor; [vm_compute; repeat (constructor; [split; discriminate || reflexivity|]); constructor|]). constructor.
Qed.

Lemma lower_ascii_inv mid fragment :
  Forall (fun ch => 0 <= ch < 128) fragment -> to_ascii_lowercase mid = fragment -> Forall (fun ch => 0 <= ch < 128) mid.
Proof.
  intros Hf <-. unfold to_ascii_lowercase in Hf. rewrite Forall_fmap in Hf. eapply Forall_impl; [exact Hf|].
  intros ch. cbn. unfold ascii_lower. destruct (_ && _) eqn:E; [|done]. zbool. lia.
Qed.

Section GuardLaws.
Context (to_lowercase : str -> str) (Hlower : LowersAscii to_lowercase).

Lemma plain_path_spec path : is_plain_path to_lowercase path = true -> PlainPath path.
Proof.
  unfold is_plain_path. rewrite !andb_true_iff. intros ((((((((Hr & Hn) & Hb) & Hc) & Hs) & He) & Hd) & Hw) & Hf).
  apply repo_relative_spec in Hr as (Hne & Hrel & Hin). zbool. unfold MAX_PATH_BYTES in *.
  apply existsb_false in Hf, Hw. split; try done.
  - lia.
  - intros pre post ->. change (58 :: 47 :: post) with (lit ":/" ++ post) in Hc. by rewrite contains_middle in Hc.
  - intros ch Hch. pose proof (proj1 (Forall_forall _ _) Hw _ Hch) as H. cbn in H. split.
    + intros ->. apply list_elem_of_split in Hch as (pre & post & ->).
      change (92 :: post) with (lit "\" ++ post) in Hb. by rewrite contains_middle in Hb.
    + destruct (ch =? 32) eqn:E; zbool; [by left|right]. cbn in H. by apply orb_false_elim in H.
  - by rewrite Hs, He.
  - intros fragment mid pre post Hfr -> Hm. pose proof (proj1 (Forall_forall _ _) Hf _ Hfr) as H. cbn in H.
    destruct (Hlower pre mid post) as (pre' & post' & E).
    { eapply lower_ascii_inv; [exact (forbidden_ascii _ Hfr)|done]. }
    by rewrite E, Hm, contains_middle in H.
Qed.
End GuardLaws.

(** C18: A path travels as plain text only when its base is proven and
    admission takes it unchanged: it is the part of an absolute path below the
    session's folder, or a relative path the caller trusts in a known folder;
    it leaves that folder through no [..], is at most 512 characters, and holds
    no drive or URL ([:/]), backslash, control character, doubled or outer space, home folder or credential, in
    any case of letters. *)
Theorem plain_paths_safe to_lowercase raw cwd trust_relative key path :
  LowersAscii to_lowercase ->
  normalize_path to_lowercase raw cwd trust_relative = Some (key, Some path) ->
  let written := default (trim_ws raw) (strip_prefix "./" (trim_ws raw)) in
  key = path /\ PlainPath path /\
  ((exists folder, cwd = Some (Utf8Path folder) /\ written = trim_end_matches slash folder ++ "/" ++ path) \/
   (trust_relative = true /\ cwd <> None /\ written = path)).
Proof.
  intros Hl. unfold normalize_path. cbn zeta. set (written := default _ _).
  destruct (is_empty written || _); [done|]. destruct (starts_with "/" written) eqn:Eabs.
  - destruct (inside_cwd written cwd) as [rest|] eqn:Ei; [|done].
    destruct (is_plain_path _ rest) eqn:Ep; [|done]. intros [= <- <-].
    split_and!; [done|by eapply plain_path_spec|]. left. unfold inside_cwd in Ei. destruct cwd as [p|]; [|done]. destruct p as [folder|]; [|done]. cbn [to_str] in Ei.
    destruct (strip_prefix (trim_end_matches _ _) _) as [below|] eqn:E1; [|done].
    destruct (strip_prefix (lit "/") _) eqn:E2; [|done]. apply strip_prefix_Some in E1, E2.
    destruct (is_repo_relative _); [|done]. injection Ei as ->. exists folder. by rewrite E1, E2.
  - destruct (trust_relative && _ && _) eqn:E; [|done]. intros [= <- <-]. rewrite !andb_true_iff in E.
    destruct E as ((-> & Hc) & Hp). split_and!; [done|by eapply plain_path_spec|]. right.
    split_and!; [done|by destruct cwd|done].
Qed.

(** ** Lexical resolution *)
(** A component that names a folder or a file. *)
Definition named_part (part : str) : Prop :=
  part <> [] /\ part <> lit "." /\ part <> lit ".." /\ Forall (fun ch => slash ch = false) part.
Definition parts_of (path : str) : list str := foldl push_part [] (split slash path).

Lemma push_named parts part : named_part part -> push_part parts part = parts ++ [part].
Proof.
  intros (H1 & H2 & H3 & _). unfold push_part, one_of. cbn [existsb]. unfold str_eqb.
  change (lit "") with (@nil Z). by rewrite !bool_decide_eq_false_2 by congruence.
Qed.
Lemma push_keeps_named parts part :
  Forall named_part parts -> Forall (fun ch => slash ch = false) part -> Forall named_part (push_part parts part).
Proof.
  intros Hp Hs. unfold push_part. destruct (one_of _ _) eqn:E1; [done|]. destruct (str_eqb _ _) eqn:E2.
  - destruct parts as [|p ps _] using rev_ind; [done|]. rewrite removelast_last. by apply Forall_app in Hp as [].
  - apply Forall_app. split; [done|]. constructor; [|done]. unfold one_of in E1. cbn [existsb] in E1.
    apply str_eqb_neq in E2. rewrite !orb_false_iff in E1. destruct E1 as (E1 & E3 & _). apply str_eqb_neq in E1, E3.
    by split_and!.
Qed.
Lemma parts_named path : Forall named_part (parts_of path).
Proof.
  unfold parts_of. pose proof (split_pieces slash path) as Hs. revert Hs. generalize (split slash path).
  assert (Forall named_part []) as Hn by constructor. revert Hn. generalize (@nil str).
  intros parts Hn l. revert parts Hn. induction l as [|p l IH]; intros parts Hn Hl; [done|].
  inversion Hl; subst. apply IH; [by apply push_keeps_named|done].
Qed.
Lemma foldl_named parts l : Forall named_part l -> foldl push_part parts l = parts ++ l.
Proof.
  intros Hl. revert parts. induction Hl as [|p l Hp _ IH]; intros parts; cbn; [by rewrite app_nil_r|].
  by rewrite IH, push_named, <-app_assoc.
Qed.
Lemma foldl_push_empty parts l : foldl push_part parts (lit "" :: l) = foldl push_part parts l.
Proof. done. Qed.
Lemma parts_of_absolute path : starts_with "/" path = true -> normalize_lexically path = lit "/" ++ join_with "/" (parts_of path).
Proof. unfold normalize_lexically. by intros ->. Qed.

Lemma parts_of_normalized parts : Forall named_part parts -> parts_of (lit "/" ++ join_with "/" parts) = parts.
Proof.
  intros Hp. unfold parts_of. change (lit "/" ++ join_with "/" parts) with ([] ++ 47 :: join_with [47] parts).
  unfold slash. rewrite split_app. cbn [split split_chars app]. change [] with (lit "") at 2. rewrite foldl_push_empty.
  destruct parts as [|p ps]; [done|]. rewrite split_join; [by rewrite foldl_named|done|].
  eapply Forall_impl; [exact Hp|]. by intros q (_ & _ & _ & H).
Qed.
Lemma parts_of_join a b : parts_of (a ++ lit "/" ++ b) = foldl push_part (parts_of a) (split slash b).
Proof. unfold parts_of, slash. change (lit "/" ++ b) with (47 :: b). by rewrite split_app, foldl_app. Qed.

Lemma normalize_absolute path : starts_with "/" path = true -> starts_with "/" (normalize_lexically path) = true.
Proof. intros H. by rewrite parts_of_absolute. Qed.
Lemma parts_of_normalize path : starts_with "/" path = true -> parts_of (normalize_lexically path) = parts_of path.
Proof. intros H. rewrite parts_of_absolute by done. apply parts_of_normalized, parts_named. Qed.

(** Resolving [.] and [..] is canonical.  An absolute path resolves to an
    absolute path whose components all name a folder or a file; resolving again
    changes nothing; and a path below a folder resolves the same whether the
    folder was resolved first or not, so the classifier may keep every folder
    it changes into resolved. *)
Theorem normalize_canonical folder path :
  starts_with "/" folder = true ->
  (exists parts, normalize_lexically folder = lit "/" ++ join_with "/" parts /\ Forall named_part parts) /\
  normalize_lexically (normalize_lexically folder) = normalize_lexically folder /\
  normalize_lexically (normalize_lexically folder ++ lit "/" ++ path) = normalize_lexically (folder ++ lit "/" ++ path).
Proof.
  intros H. pose proof (normalize_absolute _ H) as Hn.
  assert (forall f, starts_with "/" f = true -> starts_with "/" (f ++ lit "/" ++ path) = true) as Happ.
  { intros f Hf. apply starts_with_spec in Hf as [rest ->]. apply starts_with_spec. by eexists. }
  split_and!.
  - exists (parts_of folder). split; [by apply parts_of_absolute|apply parts_named].
  - rewrite (parts_of_absolute (normalize_lexically folder)) by done. by rewrite parts_of_normalize, <-parts_of_absolute.
  - rewrite (parts_of_absolute (normalize_lexically folder ++ _)) by auto.
    by rewrite parts_of_join, parts_of_normalize, <-parts_of_join, <-parts_of_absolute by auto.
Qed.

(** *** Witnesses *)
Lemma ascii_lowercase_lowers : LowersAscii to_ascii_lowercase.
Proof.
  intros pre mid post _. exists (to_ascii_lowercase pre), (to_ascii_lowercase post).
  unfold to_ascii_lowercase. by rewrite !fmap_app.
Qed.
Lemma plain_paths_safe_witness :
  let written := default (trim_ws " /w/repo/src/a.rs") (strip_prefix "./" (trim_ws " /w/repo/src/a.rs")) in
  lit "src/a.rs" = lit "src/a.rs" /\ PlainPath "src/a.rs" /\
  ((exists folder, Some (Utf8Path "/w/repo/") = Some (Utf8Path folder) /\
      written = trim_end_matches slash folder ++ "/" ++ "src/a.rs") \/
   (false = true /\ Some (Utf8Path "/w/repo/") <> None /\ written = "src/a.rs")).
Proof.
  apply (plain_paths_safe to_ascii_lowercase " /w/repo/src/a.rs" (Some (Utf8Path "/w/repo/")) false);
    [apply ascii_lowercase_lowers|by vm_compute].
Defined.
Lemma normalize_canonical_witness :
  (exists parts, normalize_lexically "/w/./repo/.." = lit "/" ++ join_with "/" parts /\ Forall named_part parts) /\
  normalize_lexically (normalize_lexically "/w/./repo/..") = normalize_lexically "/w/./repo/.." /\
  normalize_lexically (normalize_lexically "/w/./repo/.." ++ lit "/" ++ "a/../b.md")
    = normalize_lexically ("/w/./repo/.." ++ lit "/" ++ "a/../b.md").
Proof. apply normalize_canonical. by vm_compute. Defined.
