(* ===== verification/ShellLexer.v ===== *)
(** The lexer of the shell classifier
    (crates/ottto-service/src/composition_kinds/shell.rs, [Word], [Redir],
    [Tok], [Lexer]).

    A [Lexer] is the text still to read and the here-documents whose bodies
    have not started; [self.pos] is the length of what was read.  Every loop of
    the lexer has the length of the text it reads, and one, as fuel; [None] is
    the loop running out of it, which [tokens_total] excludes. *)
From S2P Require Import Prelude.
From S2P Require Import Text.
From S2P Require Import Chars.
Local Open Scope Z_scope.

Record Word := mkWord { word_text : str; word_dynamic : bool; word_glob : bool }.
Inductive Redir := StdoutToFile | OtherRedirect | Input | HereDoc.
Inductive Tok :=
  | TWord (word : Word)
  | TRedirect (kind : Redir) (target : option Word)
  | TPipe
  | TSeparator.
Record Lexer := mkLexer { rest : str; pending_heredocs : list (str * bool) }.

Definition push_str (word : Word) (text : str) : Word :=
  mkWord (word_text word ++ text) (word_dynamic word) (word_glob word).
Definition set_dynamic (word : Word) : Word := mkWord (word_text word) true (word_glob word).
Definition set_glob (word : Word) : Word := mkWord (word_text word) (word_dynamic word) true.

Definition NEWLINE : Z := 10.
Definition QUOTE : Z := 39.
Definition DOUBLE_QUOTE : Z := 34.
Definition BACKSLASH : Z := 92.
Definition DOLLAR : Z := 36.
Definition BACKTICK : Z := 96.

(** ** Quotes and expansions: what a construct adds to the word, and the text
    after it *)
Fixpoint single_quoted (s : str) : str * str :=
  match s with
  | [] => ([], [])
  | ch :: s =>
      if ch =? QUOTE then ([], s)
      else let '(text, s) := single_quoted s in (ch :: text, s)
  end.

(** A span up to a closing backtick, which belongs to it. *)
Fixpoint backtick_span (s : str) : str * str :=
  match s with
  | [] => ([], [])
  | ch :: s =>
      if ch =? BACKTICK then ([ch], s)
      else let '(taken, s) := backtick_span s in (ch :: taken, s)
  end.
(** ANSI-C quoting: an escaped character is dropped. *)
Fixpoint ansi_quoted (s : str) : str * str :=
  match s with
  | [] => ([], [])
  | ch :: s =>
      if ch =? QUOTE then ([], s)
      else if ch =? BACKSLASH then match s with [] => ([], []) | _ :: s => ansi_quoted s end
      else let '(text, s) := ansi_quoted s in (ch :: text, s)
  end.
(** A bracketed span up to the bracket that closes the first one. *)
Fixpoint bracket_span (opening closing : Z) (depth : nat) (s : str) : str * str :=
  match s with
  | [] => ([], [])
  | ch :: s =>
      if ch =? opening then
        let '(taken, s) := bracket_span opening closing (S depth) s in (ch :: taken, s)
      else if ch =? closing then
        match pred depth with
        | O => ([ch], s)
        | depth => let '(taken, s) := bracket_span opening closing depth s in (ch :: taken, s)
        end
      else let '(taken, s) := bracket_span opening closing depth s in (ch :: taken, s)
  end.

(** [s] starts at the [$] or the backtick. *)
Definition expansion (s : str) (word : Word) : Word * str :=
  match s with
  | [] => (push_str word [DOLLAR], [])
  | first :: s =>
      if first =? BACKTICK then
        let '(taken, s) := backtick_span s in (push_str (set_dynamic word) (first :: taken), s)
      else
        let kept '(taken, s) := (push_str (set_dynamic word) (first :: taken), s) in
        match s with
        | ch :: after =>
            if ch =? QUOTE then
              let '(text, s) := ansi_quoted after in (push_str word text, s)
            else if ch =? 40 then kept (bracket_span 40 41 0 s)
            else if ch =? 123 then kept (bracket_span 123 125 0 s)
            else if is_ident ch then kept (span is_ident s)
            else if among "@*#?$!-" ch then kept ([ch], after)
            else (push_str word [DOLLAR], s)
        | [] => (push_str word [DOLLAR], s)
        end
  end.

Fixpoint double_quoted (fuel : nat) (s : str) (word : Word) : option (Word * str) :=
  match fuel with
  | O => None
  | S fuel =>
      match s with
      | [] => Some (word, [])
      | ch :: after =>
          if ch =? DOUBLE_QUOTE then Some (word, after)
          else if ch =? BACKSLASH then
            match after with
            | [] => double_quoted fuel [] word
            | next :: after =>
                let word := if among [DOUBLE_QUOTE; BACKSLASH; DOLLAR; BACKTICK; NEWLINE] next then word
                            else push_str word [BACKSLASH] in
                double_quoted fuel after (if next =? NEWLINE then word else push_str word [next])
            end
          else if (ch =? DOLLAR) || (ch =? BACKTICK) then
            let '(word, s) := expansion s word in double_quoted fuel s word
          else double_quoted fuel after (push_str word [ch])
      end
  end.

Definition ends_word (ch : Z) : bool := among ([32; 9; 10; 13] ++ lit ";&|()<>") ch.
Fixpoint word_loop (fuel : nat) (s : str) (word : Word) (any : bool) : option (option Word * str) :=
  match fuel with
  | O => None
  | S fuel =>
      match s with
      | [] => Some (if any then Some word else None, [])
      | ch :: after =>
          if ends_word ch then Some (if any then Some word else None, s)
          else if ch =? QUOTE then
            let '(text, s) := single_quoted after in word_loop fuel s (push_str word text) true
          else if ch =? DOUBLE_QUOTE then
            try? (word, s) := double_quoted (S (length after)) after word in word_loop fuel s word true
          else if ch =? BACKSLASH then
            match after with
            | [] => word_loop fuel [] word true
            | next :: after => word_loop fuel after (if next =? NEWLINE then word else push_str word [next]) true
            end
          else if (ch =? DOLLAR) || (ch =? BACKTICK) then
            let '(word, s) := expansion s word in word_loop fuel s word true
          else if among "*?[" ch then word_loop fuel after (push_str (set_glob word) [ch]) true
          else word_loop fuel after (push_str word [ch]) true
      end
  end.
Definition word (s : str) : option (option Word * str) :=
  word_loop (S (length s)) s (mkWord [] false false) false.

(** ** Here-documents and redirections *)
Definition on_line (ch : Z) : bool := negb (ch =? NEWLINE).
(** Lines up to and including the delimiter's. *)
Fixpoint skip_body (fuel : nat) (delimiter : str) (strip_tabs : bool) (s : str) : option str :=
  match fuel with
  | O => None
  | S fuel =>
      match s with
      | [] => Some []
      | _ =>
          let '(line, s) := span on_line s in
          let line := trim_end_matches (among [10; 13]) line in
          let line := if strip_tabs then trim_start_matches (among [9]) line else line in
          if str_eqb (trim_end line) delimiter then Some (drop 1 s)
          else skip_body fuel delimiter strip_tabs (drop 1 s)
      end
  end.
Fixpoint skip_heredoc_bodies (pending : list (str * bool)) (s : str) : option str :=
  match pending with
  | [] => Some s
  | (delimiter, strip_tabs) :: pending =>
      try? s := skip_body (S (length s)) delimiter strip_tabs s in skip_heredoc_bodies pending s
  end.

Definition redirect_target (s : str) : option (option Word * str) := word ((span (among [32; 9]) s).2).

(** [text.parse::<u32>().is_ok()]: an optional plus and digits below 2^32. *)
Definition digits_value (digits : str) : Z := foldl (fun n ch => n * 10 + (ch - 48)) 0 digits.
Definition parses_u32 (text : str) : bool :=
  let digits := default text (strip_prefix "+" text) in
  all_digits digits && (digits_value digits <? 2 ^ 32).

(** [lx] stands at the [<] or the [>]. *)
Definition redirect (fd : option Z) (lx : Lexer) : option (Tok * Lexer) :=
  let s := rest lx in
  let pending := pending_heredocs lx in
  if starts_with "<<<" s then
    try? (_, s) := redirect_target (drop 3 s) in Some (TRedirect HereDoc None, mkLexer s pending)
  else if starts_with "<<" s then
    let s := drop 2 s in
    let strip_tabs := starts_with "-" s in
    try? (target, s) := redirect_target (if strip_tabs then drop 1 s else s) in
    let pending := match target with
                   | Some delimiter => pending ++ [(word_text delimiter, strip_tabs)]
                   | None => pending
                   end in
    Some (TRedirect HereDoc None, mkLexer s pending)
  else if starts_with "<>" s || starts_with "<&" s || starts_with ">&" s then
    let input := starts_with "<" s in
    try? (target, s) := redirect_target (drop 2 s) in
    let duplicate := match target with
                     | Some word => str_eqb "-" (word_text word) || parses_u32 (word_text word)
                     | None => false
                     end in
    let other_fd := match fd with Some fd => negb (fd =? 1) | None => false end in
    let kind := if input || duplicate || other_fd then OtherRedirect else StdoutToFile in
    Some (TRedirect kind target, mkLexer s pending)
  else if starts_with "<" s then
    try? (target, s) := redirect_target (drop 1 s) in
    let kind := match fd with Some fd => if fd =? 0 then Input else OtherRedirect | None => Input end in
    Some (TRedirect kind target, mkLexer s pending)
  else
    let s := drop 1 s in
    let s := if starts_with ">" s || starts_with "|" s then drop 1 s else s in
    try? (target, s) := redirect_target s in
    let kind := match fd with Some fd => if fd =? 1 then StdoutToFile else OtherRedirect | None => StdoutToFile end in
    Some (TRedirect kind target, mkLexer s pending).

(** ** The token loop *)
Definition MAX_TOKENS : Z := 8192.

Definition fd_redirect_ahead (s : str) : bool :=
  match s with _ :: ch :: _ => among "<>" ch | _ => false end.

(** One pass of the loop at [ch], the first character of [rest lx]: the token
    it pushes, if any. *)
Definition next_token (ch : Z) (lx : Lexer) : option (option Tok * Lexer) :=
  let after := drop 1 (rest lx) in
  let pending := pending_heredocs lx in
  if among [32; 9; 13] ch then Some (None, mkLexer after pending)
  else if ch =? NEWLINE then
    try? s := skip_heredoc_bodies pending after in Some (Some TSeparator, mkLexer s [])
  else if ch =? 35 then Some (None, mkLexer ((span on_line (rest lx)).2) pending)
  else if among ";()" ch then Some (Some TSeparator, mkLexer after pending)
  else if ch =? 38 then
    if starts_with ">" after then
      let s := drop 1 after in
      try? (target, s) := redirect_target (if starts_with ">" s then drop 1 s else s) in
      Some (Some (TRedirect StdoutToFile target), mkLexer s pending)
    else Some (Some TSeparator, mkLexer (if starts_with "&" after then drop 1 after else after) pending)
  else if ch =? 124 then
    if starts_with "|" after then Some (Some TSeparator, mkLexer (drop 1 after) pending)
    else if starts_with "&" after then Some (Some TPipe, mkLexer (drop 1 after) pending)
    else Some (Some TPipe, mkLexer after pending)
  else if among "<>" ch then
    try? (tok, lx) := redirect None lx in Some (Some tok, lx)
  else if is_ascii_digit ch && fd_redirect_ahead (rest lx) then
    try? (tok, lx) := redirect (Some (ch - 48)) (mkLexer after pending) in Some (Some tok, lx)
  else
    try? (found, s) := word (rest lx) in
    match found with
    | Some word => Some (Some (TWord word), mkLexer s pending)
    | None => Some (None, mkLexer after pending)
    end.

(** [count] is [tokens.len()] so far. *)
Fixpoint tokens_loop (fuel : nat) (count : Z) (lx : Lexer) : option (list Tok) :=
  match fuel with
  | O => None
  | S fuel =>
      if negb (count <? MAX_TOKENS) then Some [] else
      match rest lx with
      | [] => Some []
      | ch :: _ =>
          try? (pushed, lx) := next_token ch lx in
          match pushed with
          | Some tok => try? toks := tokens_loop fuel (count + 1) lx in Some (tok :: toks)
          | None => tokens_loop fuel count lx
          end
      end
  end.
Definition tokens (src : str) : option (list Tok) := tokens_loop (S (length src)) 0 (mkLexer src []).

(** ** Every construct reads forward *)
Lemma span_length m s : (length (span m s).2 <= length s)%nat.
Proof. rewrite <-(span_app m s) at 2. rewrite length_app. lia. Qed.
Lemma single_quoted_length s : (length (single_quoted s).2 <= length s)%nat.
Proof. induction s as [|ch s IH]; cbn; [done|]. destruct (_ =? _); [cbn; lia|]. destruct (single_quoted s). cbn in *. lia. Qed.
Lemma backtick_span_length s : (length (backtick_span s).2 <= length s)%nat.
Proof. induction s as [|ch s IH]; cbn; [done|]. destruct (_ =? _); [cbn; lia|]. destruct (backtick_span s). cbn in *. lia. Qed.
Lemma ansi_quoted_length s : (length (ansi_quoted s).2 <= length s)%nat.
Proof.
  enough (forall n s, (length s <= n)%nat -> (length (ansi_quoted s).2 <= length s)%nat) as H by by eapply H.
  clear s. induction n as [|n IH]; intros [|ch s] Hn; cbn in *; try lia.
  destruct (ch =? QUOTE); [cbn; lia|]. destruct (ch =? BACKSLASH).
  - destruct s as [|next s]; cbn in *; [lia|]. specialize (IH s). lia.
  - specialize (IH s). destruct (ansi_quoted s). cbn in *. lia.
Qed.
Lemma bracket_span_length opening closing depth s : (length (bracket_span opening closing depth s).2 <= length s)%nat.
Proof.
  revert depth. induction s as [|ch s IH]; intros depth; cbn; [done|].
  destruct (ch =? opening); [specialize (IH (S depth)); destruct (bracket_span _ _ _ s); cbn in *; lia|].
  destruct (ch =? closing); [destruct (pred depth) as [|d]; [cbn; lia|]|].
  - specialize (IH (S d)). destruct (bracket_span _ _ _ s). cbn in *. lia.
  - specialize (IH depth). destruct (bracket_span _ _ _ s). cbn in *. lia.
Qed.
Lemma expansion_length first s word : (length (expansion (first :: s) word).2 <= length s)%nat.
Proof.
  unfold expansion. destruct (first =? BACKTICK).
  { pose proof (backtick_span_length s). by destruct (backtick_span s). }
  destruct s as [|ch after]; [done|]. repeat destruct (_ =? _).
  - pose proof (ansi_quoted_length after). destruct (ansi_quoted after). cbn in *. lia.
  - pose proof (bracket_span_length 40 41 0 (ch :: after)). by destruct (bracket_span _ _ _ _).
  - pose proof (bracket_span_length 123 125 0 (ch :: after)). by destruct (bracket_span _ _ _ _).
  - destruct (is_ident ch); [|destruct (among _ ch); cbn; lia].
    pose proof (span_length is_ident (ch :: after)). by destruct (span _ _).
Qed.

Lemma double_quoted_total fuel s word :
  (length s < fuel)%nat -> exists word' s', double_quoted fuel s word = Some (word', s') /\ (length s' <= length s)%nat.
Proof.
  revert s word. induction fuel as [|fuel IH]; intros s word Hf; [lia|]. cbn [double_quoted].
  destruct s as [|ch after]; [by eexists _, _|]. cbn in Hf.
  destruct (ch =? DOUBLE_QUOTE); [eexists _, _; split; [done|cbn; lia]|].
  destruct (ch =? BACKSLASH).
  - destruct after as [|next after]; cbn [length] in *.
    + edestruct (IH [] word) as (w & r & -> & Hr); [cbn; lia|]. eexists _, _. split; [done|]. cbn in *. lia.
    + edestruct IH as (w & r & -> & Hr); [|eexists _, _; split; [done|lia]]. lia.
  - destruct ((ch =? DOLLAR) || (ch =? BACKTICK)).
    + pose proof (expansion_length ch after word). destruct (expansion _ _) as [w1 s1]. cbn in *.
      destruct (IH s1 w1) as (w & r & -> & Hr); [lia|]. eexists _, _. split; [done|]. lia.
    + destruct (IH after (push_str word [ch])) as (w & r & -> & Hr); [lia|]. eexists _, _. split; [done|]. cbn. lia.
Qed.

Lemma word_loop_total fuel s word any :
  (length s < fuel)%nat ->
  exists found s', word_loop fuel s word any = Some (found, s') /\ (length s' <= length s)%nat /\
    (any = false -> found <> None -> (length s' < length s)%nat).
Proof.
  revert s word any. induction fuel as [|fuel IH]; intros s word any Hf; [lia|]. cbn [word_loop].
  destruct s as [|ch after]; [eexists _, _; split_and!; [done..|]; by intros ->|]. cbn [length] in *.
  assert (forall s1 word1, (length s1 <= length after)%nat ->
    exists found s', word_loop fuel s1 word1 true = Some (found, s') /\ (length s' <= S (length after))%nat /\
      (any = false -> found <> None -> (length s' < S (length after))%nat)) as Hgo.
  { intros s1 word1 H1. destruct (IH s1 word1 true) as (f & r & -> & Hr & _); [lia|].
    eexists _, _. split_and!; [done|lia|intros; lia]. }
  destruct (ends_word ch); [eexists _, _; split_and!; [done|done|]; by intros ->|].
  destruct (ch =? QUOTE).
  { pose proof (single_quoted_length after). destruct (single_quoted after). by apply Hgo. }
  destruct (ch =? DOUBLE_QUOTE).
  { destruct (double_quoted_total (S (length after)) after word) as (w & r & -> & Hr); [lia|]. by apply Hgo. }
  destruct (ch =? BACKSLASH).
  { destruct after as [|next after]; [by apply Hgo|]. apply Hgo. cbn. lia. }
  destruct (_ || _).
  { pose proof (expansion_length ch after word). destruct (expansion _ _). by apply Hgo. }
  destruct (among _ _); by apply Hgo.
Qed.
Lemma word_total s :
  exists found s', word s = Some (found, s') /\ (length s' <= length s)%nat /\ (found <> None -> (length s' < length s)%nat).
Proof. destruct (word_loop_total (S (length s)) s (mkWord [] false false) false) as (f & r & H); [lia|]. exists f, r. naive_solver. Qed.

Lemma skip_body_total fuel delimiter strip_tabs s :
  (length s < fuel)%nat -> exists s', skip_body fuel delimiter strip_tabs s = Some s' /\ (length s' <= length s)%nat.
Proof.
  revert s. induction fuel as [|fuel IH]; intros s Hf; [lia|]. cbn [skip_body]. destruct s as [|ch s]; [by eexists|].
  pose proof (span_app on_line (ch :: s)) as Happ.
  assert (length (drop 1 (span on_line (ch :: s)).2) < length (ch :: s))%nat as Hd.
  { rewrite <-Happ at 2. rewrite length_app, length_drop.
    destruct (span _ _) as [[|c l] [|c' r]]; cbn in *; try lia. done. }
  destruct (span _ _) as [line r]. cbn [snd] in Hd. cbn zeta.
  destruct (str_eqb _ _); [eexists; split; [done|lia]|].
  destruct (IH (drop 1 r)) as (s' & -> & Hs'); [cbn in *; lia|]. eexists. split; [done|]. lia.
Qed.
Lemma skip_heredoc_total pending s :
  exists s', skip_heredoc_bodies pending s = Some s' /\ (length s' <= length s)%nat.
Proof.
  revert s. induction pending as [|[d b] pending IH]; intros s; cbn [skip_heredoc_bodies]; [by eexists|].
  destruct (skip_body_total (S (length s)) d b s) as (s1 & -> & H1); [lia|].
  destruct (IH s1) as (s2 & -> & H2). eexists. split; [done|]. lia.
Qed.
Lemma redirect_target_total s :
  exists target s', redirect_target s = Some (target, s') /\ (length s' <= length s)%nat.
Proof.
  unfold redirect_target. destruct (word_total (span (among [32; 9]) s).2) as (f & r & -> & H & _).
  pose proof (span_length (among [32; 9]) s). eexists _, _. split; [done|]. lia.
Qed.
(** Finishes a goal that reads a redirection target from a tail of the text. *)
Ltac read_target :=
  match goal with
  | |- context [redirect_target ?s] =>
      let H := fresh in destruct (redirect_target_total s) as (? & ? & -> & H);
      rewrite ?length_drop in H; cbn [length] in H; eexists _, _; split; [done|]; cbn [rest length]; lia
  end.
Lemma redirect_total fd lx :
  rest lx <> [] -> exists tok lx', redirect fd lx = Some (tok, lx') /\ (length (rest lx') < length (rest lx))%nat.
Proof.
  intros Hne. unfold redirect. destruct (rest lx) as [|ch s]; [done|]. cbn zeta.
  destruct (starts_with "<<<" (ch :: s)); [read_target|].
  destruct (starts_with "<<" (ch :: s)); [destruct (starts_with "-" (drop 2 (ch :: s))); rewrite ?drop_drop; read_target|].
  destruct (_ || _); [read_target|]. destruct (starts_with "<" (ch :: s)); [read_target|].
  destruct (starts_with ">" (drop 1 (ch :: s)) || _); rewrite ?drop_drop; read_target.
Qed.

(** Each pass of the token loop reads at least one character. *)
Lemma next_token_total ch lx after :
  rest lx = ch :: after ->
  exists pushed lx', next_token ch lx = Some (pushed, lx') /\ (length (rest lx') < length (rest lx))%nat.
Proof.
  intros E. unfold next_token. rewrite E. change (drop 1 (ch :: after)) with after. cbn zeta.
  assert (forall s p (t : option Tok), (length s <= length after)%nat -> exists pushed lx',
    Some (t, mkLexer s p) = Some (pushed, lx') /\ (length (rest lx') < length (ch :: after))%nat) as Hstep.
  { intros s p t H. eexists _, _. split; [done|]. cbn. lia. }
  destruct (among _ ch); [by apply Hstep|]. destruct (ch =? NEWLINE).
  { destruct (skip_heredoc_total (pending_heredocs lx) after) as (s & -> & H). by apply Hstep. }
  destruct (ch =? 35) eqn:Ec.
  { apply Z.eqb_eq in Ec as ->. apply Hstep. cbn [span]. change (on_line 35) with true. cbn iota.
    pose proof (span_length on_line after). by destruct (span _ after). }
  destruct (among _ ch); [by apply Hstep|]. destruct (ch =? 38).
  { destruct (starts_with ">" after).
    - match goal with |- context [redirect_target ?s] =>
        destruct (redirect_target_total s) as (t & r & -> & H) end.
      apply Hstep. destruct (starts_with ">" (drop 1 after)); rewrite ?length_drop in H; lia.
    - apply Hstep. destruct (starts_with "&" after); rewrite ?length_drop; lia. }
  destruct (ch =? 124); [repeat destruct (starts_with _ _); apply Hstep; rewrite ?length_drop; lia|].
  destruct (among _ ch).
  { destruct (redirect_total None lx) as (t & lx' & -> & H); [by rewrite E|]. rewrite E in H. by eexists _, _. }
  destruct (_ && _) eqn:Ed.
  { destruct (redirect_total (Some (ch - 48)) (mkLexer after (pending_heredocs lx))) as (t & lx' & -> & H).
    { cbn. apply andb_prop in Ed as [_ Ed]. by destruct after. }
    eexists _, _. split; [done|]. cbn in *. lia. }
  destruct (word_total (ch :: after)) as (found & s' & -> & H1 & H2).
  destruct found as [w|]; [|by apply Hstep]. apply Hstep. specialize (H2 ltac:(done)). cbn in H2. lia.
Qed.

Lemma tokens_loop_total fuel count lx :
  (length (rest lx) < fuel)%nat -> 0 <= count <= MAX_TOKENS ->
  exists toks, tokens_loop fuel count lx = Some toks /\ count + Z.of_nat (length toks) <= MAX_TOKENS.
Proof.
  revert count lx. induction fuel as [|fuel IH]; intros count lx Hf Hc; [lia|]. cbn [tokens_loop].
  destruct (count <? MAX_TOKENS) eqn:E; cbn [negb]; zbool; [|eexists; split; [done|cbn; lia]].
  destruct (rest lx) as [|ch after] eqn:Er; [eexists; split; [done|cbn; lia]|].
  destruct (next_token_total ch lx after Er) as (pushed & lx' & -> & Hl). rewrite Er in Hl.
  destruct pushed as [tok|].
  - destruct (IH (count + 1) lx') as (toks & -> & Ht); [lia..|]. eexists. split; [done|]. cbn [length]. lia.
  - apply IH; lia.
Qed.
(** The lexer reads every text to its end, and keeps at most 8,192 tokens. *)
Lemma tokens_total src : exists toks, tokens src = Some toks /\ Z.of_nat (length toks) <= MAX_TOKENS.
Proof. destruct (tokens_loop_total (S (length src)) 0 (mkLexer src [])) as (t & H & Hl); cbn; [lia|by split|]. by exists t. Qed.

(** More fuel changes nothing. *)
Lemma tokens_loop_more fuel fuel' count lx toks :
  tokens_loop fuel count lx = Some toks -> (fuel <= fuel')%nat -> tokens_loop fuel' count lx = Some toks.
Proof.
  revert fuel' count lx toks. induction fuel as [|fuel IH]; intros fuel' count lx toks; [done|].
  destruct fuel' as [|fuel']; [lia|]. cbn [tokens_loop]. intros H Hle. destruct (negb _); [done|].
  destruct (rest lx); [done|]. destruct (next_token z lx) as [[[tok|] lx']|]; [| |done].
  - destruct (tokens_loop fuel (count + 1) lx') as [ts|] eqn:E; [|done]. by rewrite (IH fuel' _ _ _ E) by lia.
  - apply IH; [done|lia].
Qed.
