(* ===== verification/ShellEval.v ===== *)
(** The evaluation of a shell command's tokens
    (crates/ottto-service/src/composition_kinds/shell.rs, [classify_shell] to
    [eval_reader]): variables, the folder relative paths join to, and the class
    and files of each pipeline whose output reaches the model.

    [None] is a loop out of fuel, which [classify_total] in ShellProps excludes:
    a wrapper's words get shorter, and a nested script is one level deeper, up
    to [MAX_NESTING]. *)
From S2P Require Import Prelude.
From S2P Require Import Text.
From S2P Require Import Chars.
From S2P Require Import ShellPaths.
From S2P Require Import ShellLexer.
Local Open Scope Z_scope.

Inductive ShellClass := ReadClass | GitClass | SearchClass | TestsBuildsClass | OtherClass.
#[export] Instance ShellClass_eq_dec : EqDecision ShellClass.
Proof. solve_decision. Defined.
Record ShellSegment := mkSegment { seg_class : ShellClass; seg_paths : list str }.

Definition MAX_SEGMENTS : nat := 64.
Definition MAX_NESTING : Z := 3.
Definition MAX_VARS : nat := 32.

Record EvalState := mkState { base : option str; vars : list (str * str) }.
Definition set_base (state : EvalState) (b : option str) : EvalState := mkState b (vars state).
Record SimpleCommand := mkCommand {
  words : list Word; stdout_to_file : bool; heredoc : bool; inputs : list Word }.
Definition default_command : SimpleCommand := mkCommand [] false false [].
Inductive Stage :=
  | Silent
  | Filter
  | OfClass (class : ShellClass) (paths : list str)
  | Nested (segments : list ShellSegment).

(** ** Variables *)
(** [state.vars.iter().rev().find(..)]. *)
Definition var_value (variables : list (str * str)) (name : str) : option str :=
  snd <$> find (fun known => str_eqb known.1 name) (reverse variables).
Fixpoint resolve_loop (fuel : nat) (variables : list (str * str)) (s resolved : str) : option str :=
  match fuel with
  | O => None
  | S fuel =>
      match split_at_first "$" s with
      | None => Some (resolved ++ s)
      | Some (before, after) =>
          try? (name, s) := match strip_prefix "{" after with
                            | Some inner => split_at_first "}" inner
                            | None => Some (span is_ident after)
                            end in
          try? value := var_value variables name in
          resolve_loop fuel variables s (resolved ++ before ++ value)
      end
  end.
Definition resolve (word : Word) (state : EvalState) : option str :=
  if negb (word_dynamic word) then Some (word_text word) else
  let text := word_text word in
  try? resolved := resolve_loop (S (length text)) (vars state) text [] in
  if contains "`" resolved then None else Some resolved.

Definition is_assignment (text : str) : option (str * str) :=
  try? (name, value) := split_once "=" text in
  if negb (is_empty name) && negb (starts_with_char is_ascii_digit name) && forallb is_ident name
  then Some (name, value) else None.
Definition set_var (state : EvalState) (name : str) (value : option str) : EvalState :=
  let kept := filter (fun known => known.1 <> name) (vars state) in
  mkState (base state)
    (match value with
     | Some value => if (length kept <? MAX_VARS)%nat then kept ++ [(name, value)] else kept
     | None => kept
     end).
(** [Word { text: value, ..word.clone() }]. *)
Definition with_text (word : Word) (text : str) : Word := mkWord text (word_dynamic word) (word_glob word).

(** ** Tables *)
Definition program_name (text : str) : str := last_piece slash text.
Definition SHELLS : list string := ["sh"; "bash"; "zsh"; "dash"; "ksh"; "fish"].
Definition SILENT : list string := [
  "cd"; "pushd"; "popd"; "export"; "set"; "unset"; "source"; "."; "alias"; "unalias"; "true";
  "false"; ":"; "shopt"; "trap"; "wait"; "sleep"; "exit"; "return"; "umask"; "ulimit"; "mkdir";
  "touch"; "rm"; "rmdir"; "mv"; "cp"; "ln"; "chmod"; "chown"; "kill"; "test"; "["; "[["; "read"].
Definition SEARCH : list string := [
  "grep"; "egrep"; "fgrep"; "rg"; "ag"; "ack"; "find"; "fd"; "fdfind"; "locate"; "mdfind"; "ls";
  "tree"; "exa"; "eza"; "lsd"].
Definition READERS : list string := [
  "cat"; "head"; "tail"; "nl"; "bat"; "batcat"; "less"; "more"; "tac"; "sed"; "awk"; "gawk";
  "jq"; "yq"; "cut"; "sort"; "uniq"; "column"; "xxd"; "od"; "hexdump"; "strings"].
Definition FILTERS : list string := ["wc"; "tr"; "fold"; "fmt"; "rev"; "paste"].
Definition BUILD_TOOLS : list string := [
  "cargo"; "rustc"; "make"; "gmake"; "cmake"; "ctest"; "ninja"; "meson"; "bazel"; "bazelisk";
  "buck"; "buck2"; "gradle"; "gradlew"; "mvn"; "mvnw"; "ant"; "sbt"; "xcodebuild"; "pytest";
  "py.test"; "tox"; "nox"; "jest"; "vitest"; "mocha"; "ava"; "tsc"; "eslint"; "prettier"; "ruff";
  "mypy"; "pyright"; "black"; "flake8"; "pylint"; "isort"; "swiftlint"; "swiftformat"; "ktlint";
  "rubocop"; "rspec"; "phpunit"; "clippy-driver"].
Definition PACKAGE_RUNNERS : list string := ["npm"; "pnpm"; "yarn"; "bun"; "deno"].
Definition PACKAGE_BUILD_SUBCOMMANDS : list string := [
  "test"; "t"; "run"; "run-script"; "build"; "lint"; "typecheck"; "check"; "ci"; "install"; "i";
  "add"; "compile"; "fmt"; "format"].
Definition PYTHON_BUILD_MODULES : list string := [
  "pytest"; "unittest"; "mypy"; "ruff"; "black"; "build"; "pip"; "tox"; "nox"; "compileall";
  "pyright"; "flake8"].

(** ** Classes by name *)
Definition class_by_name (program : str) : ShellClass :=
  if contains "test" program then TestsBuildsClass else OtherClass.

(** [args.windows(2).find(|pair| pair[0].text == "-m")]: the second word. *)
Fixpoint module_word (args : list Word) : option str :=
  match args with
  | first :: (second :: _) as rest =>
      if str_eqb "-m" (word_text first) then Some (word_text second) else module_word rest
  | _ => None
  end.
Definition is_flag (word : Word) : bool := starts_with "-" (word_text word).
Definition class_of_program (program : str) (args : list Word) : ShellClass :=
  let sub := word_text <$> find (fun word => negb (is_flag word)) args in
  let sub_in names := match sub with Some sub => one_of names sub | None => false end in
  let builds :=
    one_of BUILD_TOOLS program || starts_with "cargo-" program
    || (one_of PACKAGE_RUNNERS program && sub_in PACKAGE_BUILD_SUBCOMMANDS)
    || (one_of ["go"; "swift"; "dotnet"] program
        && sub_in ["build"; "test"; "vet"; "install"; "generate"; "package"])
    || (one_of ["pip"; "pip3"] program && sub_in ["install"])
    || (str_eqb "uv" program && sub_in ["sync"; "pip"; "lock"; "build"])
    || (str_eqb "poetry" program && sub_in ["install"; "build"; "lock"])
    || (starts_with "python" program
        && match module_word args with Some name => one_of PYTHON_BUILD_MODULES name | None => false end)
    || (str_eqb "playwright" program && sub_in ["test"]) in
  if builds then TestsBuildsClass else class_by_name program.

(** ** [git] *)
(** The words from the subcommand on, and the folder git runs in. *)
Fixpoint git_flags (args : list Word) (dir : option str) (state : EvalState) : list Word * option str :=
  match args with
  | [] => ([], dir)
  | word :: after =>
      let text := word_text word in
      if str_eqb "-C" text then
        match after with
        | [] => ([], None)
        | value :: after => git_flags after (try? path := resolve value state in join dir path) state
        end
      else if one_of ["-c"; "--git-dir"; "--work-tree"; "--namespace"] text then
        match after with [] => ([], dir) | _ :: after => git_flags after dir state end
      else if starts_with "-" text then git_flags after dir state
      else (args, dir)
  end.
(** The file [rev:path] names, as [git show] prints it. *)
Definition show_path (dir : option str) (text : str) : option str :=
  try? (_, path) := split_once ":" text in
  if is_empty path || starts_with "/" path then None
  else if starts_with "./" path || starts_with "../" path then join dir path
  else join None path.
Definition eval_git (args : list Word) (state : EvalState) : Stage :=
  let '(args, dir) := git_flags args (base state) state in
  match args with
  | [] => OfClass GitClass []
  | subcommand :: rest =>
      let subcommand := word_text subcommand in
      if one_of ["grep"; "ls-files"; "ls-tree"] subcommand then OfClass SearchClass []
      else if one_of ["show"; "cat-file"] subcommand then
        let texts := omap (fun word => resolve word state) (filter (fun word => is_flag word = false) rest) in
        let paths := take MAX_SHELL_PATH_TOKENS
                       (omap (show_path dir) (filter (fun text => contains "://" text = false) texts)) in
        match paths with [] => OfClass GitClass [] | _ => OfClass ReadClass paths end
      else OfClass GitClass []
  end.

(** ** Readers *)
Definition reader_flag_takes_value (program flag : str) : bool :=
  if one_of ["head"; "tail"] program then one_of ["-n"; "-c"; "--lines"; "--bytes"; "-s"] flag
  else if one_of ["sed"] program then one_of ["-e"; "-f"; "-l"; "--expression"; "--file"] flag
  else if one_of ["awk"; "gawk"] program then one_of ["-f"; "-F"; "-v"; "-i"; "--file"; "--assign"] flag
  else if one_of ["jq"; "yq"] program then one_of ["--indent"; "-L"; "--tab"; "-f"; "--from-file"] flag
  else if one_of ["cut"] program then one_of ["-d"; "-f"; "-c"; "-b"] flag
  else if one_of ["sort"] program then one_of ["-k"; "-t"; "-o"; "-S"; "-T"; "--key"] flag
  else if one_of ["uniq"] program then one_of ["-f"; "-s"; "-w"] flag
  else if one_of ["column"] program then one_of ["-s"; "-c"; "-o"] flag
  else if one_of ["xxd"; "od"; "hexdump"] program then one_of ["-l"; "-s"; "-c"; "-n"; "-g"; "-t"; "-j"; "-N"] flag
  else if one_of ["strings"] program then one_of ["-n"; "-t"] flag
  else if one_of ["nl"] program then one_of ["-w"; "-s"; "-v"; "-i"; "-b"; "-n"] flag
  else if one_of ["bat"; "batcat"] program then
    one_of ["-l"; "--language"; "-r"; "--line-range"; "--style"; "--theme"; "-H"; "--highlight-line"] flag
  else false.

(** The first operand is a script or a filter. *)
Definition takes_script (program : str) (args : list Word) : bool :=
  let any names := existsb (fun word => one_of names (word_text word)) args in
  if str_eqb "sed" program then
    negb (any ["-e"; "-f"; "--expression"; "--file"]
          || existsb (fun word => starts_with "--expression=" (word_text word)) args)
  else if one_of ["awk"; "gawk"] program then negb (any ["-f"; "--file"])
  else if one_of ["jq"; "yq"] program then negb (any ["-f"; "--from-file"])
  else false.

Fixpoint operands_loop (program : str) (args : list Word) (skip_next : nat) (script_pending : bool) : list Word :=
  match args with
  | [] => []
  | word :: args =>
      match skip_next with
      | S skip_next => operands_loop program args skip_next script_pending
      | O =>
          let text := word_text word in
          let jq := starts_with "jq" program || str_eqb "yq" program in
          if jq && one_of ["--arg"; "--argjson"; "--slurpfile"; "--rawfile"] text then
            operands_loop program args 2 script_pending
          else if jq && one_of ["--args"; "--jsonargs"] text then []
          else if str_eqb "--" text then operands_loop program args 0 script_pending
          else if starts_with "-" text && (1 <? len text) then
            operands_loop program args (if reader_flag_takes_value program text then 1 else 0)%nat script_pending
          else if one_of ["head"; "tail"] program && starts_with "+" text then
            operands_loop program args 0 script_pending
          else if script_pending then operands_loop program args 0 false
          else if one_of ["awk"; "gawk"] program && (if is_assignment text is Some _ then true else false) then
            operands_loop program args 0 script_pending
          else word :: operands_loop program args 0 script_pending
      end
  end.

(** A word a reader can show as a file, joined to its folder. *)
Definition file_shown (text : str) : bool :=
  negb (str_eqb "-" text) && negb (str_eqb "{}" text) && negb (contains "://" text).
Definition operand_path (state : EvalState) (word : Word) : option str :=
  if word_glob word then None else
  try? text := resolve word state in
  if file_shown text then join (base state) text else None.

Definition eval_reader (program : str) (args : list Word) (heredoc : bool) (inputs : list Word)
    (index : nat) (state : EvalState) : Stage :=
  if str_eqb "sed" program
     && existsb (fun word => starts_with "-i" (word_text word) || str_eqb "--in-place" (word_text word)) args
  then Silent
  else if heredoc then OfClass OtherClass []
  else
    let operands := operands_loop program args 0 (takes_script program args) ++ inputs in
    match operands with
    | [] => if (0 <? index)%nat then Filter else OfClass OtherClass []
    | _ => OfClass ReadClass (take MAX_SHELL_PATH_TOKENS (omap (operand_path state) operands))
    end.

(** ** Wrappers *)
Definition wrapper_flag_takes_value (program text : str) : bool :=
  (str_eqb "sudo" program && one_of ["-u"; "-g"; "-C"; "-D"; "-h"; "-p"] text)
  || (str_eqb "nice" program && one_of ["-n"] text)
  || (str_eqb "ionice" program && one_of ["-c"; "-n"] text)
  || (one_of ["timeout"; "gtimeout"] program && one_of ["-s"; "-k"; "--signal"; "--kill-after"] text)
  || (str_eqb "xargs" program && one_of ["-n"; "-I"; "-P"; "-L"; "-d"; "-s"; "-E"; "-a"] text)
  || (str_eqb "stdbuf" program && one_of ["-i"; "-o"; "-e"] text)
  || (str_eqb "env" program && one_of ["-u"; "-S"] text)
  || (str_eqb "caffeinate" program && one_of ["-t"; "-w"] text).
(** The words from the wrapped command on; [env -C dir] changes the folder. *)
Fixpoint skip_wrapper (program : str) (words : list Word) (state : EvalState) : list Word * EvalState :=
  match words with
  | [] => ([], state)
  | word :: after =>
      let text := word_text word in
      if str_eqb "env" program && (if is_assignment text is Some _ then true else false) then
        skip_wrapper program after state
      else if str_eqb "env" program && one_of ["-C"; "--chdir"] text then
        match after with
        | [] => ([], set_base state None)
        | value :: after =>
            skip_wrapper program after
              (set_base state (try? dir := resolve value state in join (base state) dir))
        end
      else if starts_with "-" text then
        if wrapper_flag_takes_value program text then
          match after with [] => ([], state) | _ :: after => skip_wrapper program after state end
        else skip_wrapper program after state
      else if one_of ["timeout"; "gtimeout"] program && starts_with_char is_ascii_digit text then (after, state)
      else (words, state)
  end.
(** [uv run --with x command]. *)
Fixpoint skip_runner (words : list Word) : list Word :=
  match words with
  | [] => []
  | word :: after =>
      let text := word_text word in
      if negb (starts_with "-" text) then words
      else if one_of ["--with"; "--project"; "--directory"; "--python"; "-p"; "--package"; "--group";
                      "--extra"; "--env-file"; "-e"; "--index"; "--from"] text
      then match after with [] => [] | _ :: after => skip_runner after end
      else skip_runner after
  end.
Fixpoint skip_flags (words : list Word) : list Word :=
  match words with word :: after => if is_flag word then skip_flags after else words | [] => [] end.

(** The words after the first [-c]-like flag. *)
Fixpoint after_script_flag (args : list Word) : option (list Word) :=
  match args with
  | [] => None
  | word :: args => if is_script_flag (word_text word) then Some args else after_script_flag args
  end.
(** The script a shell runs: one quoted word, or the words of an array. *)
Definition script_of (after : list Word) : option str :=
  match after with
  | [] => None
  | [script] => Some (word_text script)
  | script :: _ =>
      if contains " " (word_text script) then Some (word_text script)
      else Some (join_with " " (word_text <$> after))
  end.
Definition first_is (names : list string) (args : list Word) : bool :=
  match args with word :: _ => one_of names (word_text word) | [] => false end.

Definition WRAPPERS : list string := [
  "sudo"; "doas"; "nohup"; "command"; "builtin"; "exec"; "unbuffer"; "caffeinate"; "stdbuf"; "nice";
  "ionice"; "timeout"; "gtimeout"; "xargs"; "env"; "time"].
Definition RUNNERS : list string := ["uv"; "poetry"; "pipenv"; "pdm"; "rye"; "hatch"; "bundle"; "pixi"].

(** ** Commands *)
Definition cd_base (args : list Word) (state : EvalState) : option str :=
  let target := find (fun word => negb (is_flag word) || str_eqb "-" (word_text word)) args in
  match (try? word := target in resolve word state) with
  | Some dir => if negb (str_eqb "-" dir) && negb (starts_with "~" dir) then join (base state) dir else None
  | None => None
  end.
Definition export_vars (args : list Word) (state : EvalState) : EvalState :=
  foldl (fun state word =>
    match is_assignment (word_text word) with
    | Some (name, value) => set_var state name (resolve (with_text word value) state)
    | None => state
    end) state args.

Section Nesting.
(** [eval_script] on a nested script, in its own state at its own depth. *)
Context (run : str -> EvalState -> Z -> option (list ShellSegment)).

Definition eval_shell (program : str) (args : list Word) (state : EvalState) (depth : Z) : option Stage :=
  match after_script_flag args with
  | None => Some (OfClass (class_by_name program) [])
  | Some after =>
      if MAX_NESTING <=? depth then Some (OfClass OtherClass []) else
      match script_of after with
      | None => Some (OfClass OtherClass [])
      | Some script =>
          try? segments := run script (mkState (base state) (vars state)) (depth + 1) in
          Some (Nested segments)
      end
  end.

(** A program that is no shell and no wrapper. *)
Definition eval_program (program : str) (args : list Word) (heredoc : bool) (inputs : list Word)
    (index : nat) (state : EvalState) : Stage :=
  if one_of SILENT program then Silent
  else if str_eqb "git" program then eval_git args state
  else if str_eqb "gh" program then OfClass GitClass []
  else if one_of SEARCH program then
    if (0 <? index)%nat && one_of ["grep"; "egrep"; "fgrep"; "rg"; "ag"; "ack"] program then Filter
    else OfClass SearchClass []
  else if str_eqb "tee" program then OfClass OtherClass []
  else if one_of READERS program then eval_reader program args heredoc inputs index state
  else if one_of FILTERS program then if (0 <? index)%nat then Filter else OfClass OtherClass []
  else if str_eqb "perl" program
          && existsb (fun word => starts_with "-i" (word_text word) || starts_with "-pi" (word_text word)) args
  then Silent
  else OfClass (class_of_program program args) [].

Fixpoint eval_words (fuel : nat) (words : list Word) (heredoc : bool) (inputs : list Word)
    (index : nat) (state : EvalState) (depth : Z) : option (Stage * EvalState) :=
  match fuel with
  | O => None
  | S fuel =>
      match words with
      | [] => Some (Silent, state)
      | first :: args =>
          let program := program_name (word_text first) in
          if one_of ["cd"; "pushd"] program then Some (Silent, set_base state (cd_base args state))
          else if str_eqb "popd" program then Some (Silent, set_base state None)
          else if one_of ["export"; "declare"; "typeset"; "local"; "readonly"] program then
            Some (Silent, export_vars args state)
          else if one_of WRAPPERS program then
            let '(words, state) := skip_wrapper program args state in
            eval_words fuel words heredoc inputs index state depth
          else if one_of RUNNERS program && first_is ["run"; "exec"] args then
            match skip_runner (drop 1 args) with
            | [] => Some (OfClass TestsBuildsClass [], state)
            | words => eval_words fuel words heredoc inputs index state depth
            end
          else if one_of ["npx"; "bunx"; "pnpx"] program then
            eval_words fuel (skip_flags args) heredoc inputs index state depth
          else if one_of ["pnpm"; "yarn"] program && first_is ["exec"; "dlx"] args then
            eval_words fuel (drop 1 args) heredoc inputs index state depth
          else if one_of SHELLS program then
            try? stage := eval_shell program args state depth in Some (stage, state)
          else Some (eval_program program args heredoc inputs index state, state)
      end
  end.

(** Leading assignments, keywords and grouping words. *)
Definition KEYWORDS : list string := ["{"; "}"; "!"; "if"; "then"; "else"; "elif"; "do"; "while"; "until"; "time"].
Fixpoint leading (words : list Word) (state : EvalState) : list (str * option str) * list Word :=
  match words with
  | [] => ([], [])
  | word :: after =>
      match is_assignment (word_text word) with
      | Some (name, value) =>
          let '(assignments, words) := leading after state in
          ((name, resolve (with_text word value) state) :: assignments, words)
      | None =>
          if one_of KEYWORDS (word_text word) && negb (word_dynamic word) then leading after state else ([], words)
      end
  end.
Definition eval_command (command : SimpleCommand) (index : nat) (state : EvalState) (depth : Z)
    : option (Stage * EvalState) :=
  let '(assignments, ws) := leading (words command) state in
  match ws with
  | [] =>
      let state := foldl (fun state assignment => set_var state assignment.1 assignment.2) state assignments in
      Some (if heredoc command then OfClass OtherClass [] else Silent, state)
  | first :: _ =>
      if one_of ["fi"; "done"; "esac"; "for"; "case"; "in"] (word_text first) then Some (Silent, state)
      else eval_words (S (length ws)) ws (heredoc command) (inputs command) index state depth
  end.

(** ** Pipelines *)
(** What the stages of a pipeline add up to: [result], [extra_reads],
    [prints]. *)
Record Reading := mkReading {
  reading_result : option (ShellClass * list str); reading_extra : list str; reading_prints : bool }.
Definition add_class (r : Reading) (class : ShellClass) (paths : list str) : Reading :=
  match reading_result r with
  | None => mkReading (Some (class, paths)) (reading_extra r) true
  | Some (ReadClass, _) =>
      if decide (class = ReadClass) then mkReading (reading_result r) (reading_extra r ++ paths) true
      else mkReading (reading_result r) (reading_extra r) true
  | Some _ => mkReading (reading_result r) (reading_extra r) true
  end.
(** A nested script's first segment stands for the stage. *)
Definition add_nested (r : Reading) (segments : list ShellSegment) : Reading :=
  match reading_result r, segments with
  | None, segment :: _ => mkReading (Some (seg_class segment, seg_paths segment)) (reading_extra r) true
  | _, _ => mkReading (reading_result r) (reading_extra r) true
  end.

(** The stages in order: the segments of a nested script that is the whole
    pipeline, or the reading. *)
Fixpoint eval_stages (single : bool) (stages : list SimpleCommand) (index : nat) (r : Reading)
    (state : EvalState) (depth : Z) : option ((list ShellSegment + Reading) * EvalState) :=
  match stages with
  | [] => Some (inr r, state)
  | stage :: stages =>
      try? (stage, state) := eval_command stage index state depth in
      match stage with
      | Silent => eval_stages single stages (S index) r state depth
      | Filter =>
          eval_stages single stages (S index) (mkReading (reading_result r) (reading_extra r) true) state depth
      | Nested segments =>
          if single then Some (inl segments, state)
          else eval_stages single stages (S index) (add_nested r segments) state depth
      | OfClass class paths => eval_stages single stages (S index) (add_class r class paths) state depth
      end
  end.

(** [paths.retain(|path| seen.insert(path.clone()))]. *)
Fixpoint retain_unseen (seen paths : list str) : list str :=
  match paths with
  | [] => []
  | path :: paths => if decide (path ∈ seen) then retain_unseen seen paths else path :: retain_unseen (path :: seen) paths
  end.
Definition reading_segment (r : Reading) : ShellSegment :=
  let '(class, paths) := default (OtherClass, []) (reading_result r) in
  mkSegment class
    (if decide (class = ReadClass) then take MAX_SHELL_PATH_TOKENS (retain_unseen [] (paths ++ reading_extra r)) else []).

Definition stage_counts (stage : SimpleCommand) : bool :=
  negb (match words stage with [] => true | _ => false end) || heredoc stage
  || negb (match inputs stage with [] => true | _ => false end).
Definition eval_pipeline (stages : list SimpleCommand) (state : EvalState) (out : list ShellSegment) (depth : Z)
    : option (EvalState * list ShellSegment) :=
  let stages := filter (fun stage => stage_counts stage = true) stages in
  match last stages with
  | None => Some (state, out)
  | Some last_stage =>
      let reaches_model := negb (stdout_to_file last_stage) in
      try? (outcome, state) :=
        eval_stages (length stages =? 1)%nat stages 0 (mkReading None [] false) state depth in
      Some (state,
        match outcome with
        | inl segments => if reaches_model then out ++ segments else out
        | inr r => if negb reaches_model || negb (reading_prints r) then out else out ++ [reading_segment r]
        end)
  end.

(** ** Scripts *)
Definition push_word (command : SimpleCommand) (word : Word) : SimpleCommand :=
  mkCommand (words command ++ [word]) (stdout_to_file command) (heredoc command) (inputs command).
Definition push_redirect (command : SimpleCommand) (kind : Redir) (target : option Word) : SimpleCommand :=
  match kind with
  | StdoutToFile => mkCommand (words command) true (heredoc command) (inputs command)
  | HereDoc => mkCommand (words command) (stdout_to_file command) true (inputs command)
  | Input => mkCommand (words command) (stdout_to_file command) (heredoc command) (inputs command ++ option_list target)
  | OtherRedirect => command
  end.

(** The pipeline is never empty: its stages before the last, and the last. *)
Fixpoint eval_tokens (toks : list Tok) (earlier : list SimpleCommand) (current : SimpleCommand)
    (state : EvalState) (out : list ShellSegment) (depth : Z) : option (EvalState * list ShellSegment) :=
  match toks with
  | [] => Some (state, out)
  | tok :: toks =>
      try? (earlier, current, state, out) :=
        match tok with
        | TWord word => Some (earlier, push_word current word, state, out)
        | TRedirect kind target => Some (earlier, push_redirect current kind target, state, out)
        | TPipe => Some (earlier ++ [current], default_command, state, out)
        | TSeparator =>
            try? (state, out) := eval_pipeline (earlier ++ [current]) state out depth in
            Some ([], default_command, state, out)
        end in
      if (MAX_SEGMENTS <=? length out)%nat then Some (state, out)
      else eval_tokens toks earlier current state out depth
  end.
End Nesting.

Fixpoint eval_script (fuel : nat) (script : str) (state : EvalState) (out : list ShellSegment) (depth : Z)
    : option (EvalState * list ShellSegment) :=
  match fuel with
  | O => None
  | S fuel =>
      try? toks := tokens script in
      eval_tokens (fun script state depth => snd <$> eval_script fuel script state [] depth)
        (toks ++ [TSeparator]) [] default_command state out depth
  end.
Definition NESTING_FUEL : nat := 4.

Definition start_state (cwd : option Path) : EvalState :=
  mkState ((fun cwd => normalize_lexically (to_string_lossy cwd)) <$> cwd) [].
Definition classify_shell (script : str) (cwd : option Path) : option (list ShellSegment) :=
  snd <$> eval_script NESTING_FUEL script (start_state cwd) [] 0.
