(* ===== verification/ShellProps.v ===== *)
(** What the shell classifier guarantees: it reads every command to an end
    within its bounds, a redirected pipeline shows nothing, and two limits the
    source states that it does not keep. *)
From S2P Require Import Prelude.
From S2P Require Import Text.
From S2P Require Import Chars.
From S2P Require Import ShellPaths.
From S2P Require Import ShellLexer.
From S2P Require Import ShellEval.
Local Open Scope Z_scope.

(** ** Segments *)
(** Only reads carry paths: at most sixteen, all different. *)
Record SegmentOk (segment : ShellSegment) : Prop := {
  ok_reads : seg_class segment <> ReadClass -> seg_paths segment = [];
  ok_bounded : (length (seg_paths segment) <= MAX_SHELL_PATH_TOKENS)%nat;
  ok_distinct : NoDup (seg_paths segment);
}.

Lemma retain_unseen_spec seen paths :
  NoDup (retain_unseen seen paths) /\ (forall p, p ∈ retain_unseen seen paths <-> p ∈ paths /\ p ∉ seen).
Proof.
  revert seen. induction paths as [|path paths IH]; intros seen; cbn [retain_unseen].
  - split; [constructor|]. intros p. set_solver.
  - destruct (decide (path ∈ seen)) as [Hs|Hs].
    + destruct (IH seen) as [Hn Hp]. split; [done|]. intros p. rewrite Hp. set_solver.
    + destruct (IH (path :: seen)) as [Hn Hp]. split; [constructor; [rewrite Hp; set_solver|done]|].
      intros p. rewrite elem_of_cons, Hp. destruct (decide (p = path)); set_solver.
Qed.
Lemma length_retain_unseen seen paths : (length (retain_unseen seen paths) <= length paths)%nat.
Proof.
  revert seen. induction paths as [|p paths IH]; intros seen; cbn [retain_unseen length]; [done|].
  destruct (decide _); [specialize (IH seen)|specialize (IH (p :: seen)); cbn [length]]; lia.
Qed.

Lemma reading_segment_ok r : SegmentOk (reading_segment r).
Proof.
  unfold reading_segment. destruct (default _ _) as [class paths]. destruct (decide (class = ReadClass)) as [->|Hc].
  - split; cbn [seg_class seg_paths]; [done|rewrite length_take; lia|]. eapply sublist_NoDup; [apply retain_unseen_spec|apply sublist_take].
  - split; cbn; [done|lia|constructor].
Qed.

(** ** Words *)
Lemma skip_wrapper_length program ws state : (length (skip_wrapper program ws state).1 <= length ws)%nat.
Proof.
  enough (forall n ws state, (length ws <= n)%nat -> (length (skip_wrapper program ws state).1 <= length ws)%nat) as H
    by by eapply H.
  clear ws state. induction n as [|n IH]; intros [|w ws] state Hn; cbn [skip_wrapper length] in *; try (cbn; lia).
  destruct (str_eqb "env" program && _); [specialize (IH ws state); lia|].
  destruct (str_eqb "env" program && _).
  { destruct ws as [|v ws]; [cbn; lia|]. cbn [length] in *.
    match goal with |- context [skip_wrapper _ ws ?st] => specialize (IH ws st) end. lia. }
  destruct (starts_with _ _).
  { destruct (wrapper_flag_takes_value _ _); [|specialize (IH ws state); lia].
    destruct ws as [|v ws]; [cbn; lia|]. cbn [length] in *. specialize (IH ws state). lia. }
  destruct (_ && _); cbn; lia.
Qed.
Lemma skip_runner_length ws : (length (skip_runner ws) <= length ws)%nat.
Proof.
  enough (forall n ws, (length ws <= n)%nat -> (length (skip_runner ws) <= length ws)%nat) as H by by eapply H.
  clear ws. induction n as [|n IH]; intros [|w ws] Hn; cbn [skip_runner length] in *; try lia.
  destruct (negb _); [done|]. destruct (one_of _ _); [|specialize (IH ws); lia].
  destruct ws as [|v ws]; [lia|]. cbn [length] in *. specialize (IH ws). lia.
Qed.
Lemma skip_flags_length ws : (length (skip_flags ws) <= length ws)%nat.
Proof. induction ws as [|w ws IH]; cbn; [done|]. destruct (is_flag w); cbn; lia. Qed.

(** ** Evaluation ends, within its bounds *)
(** What a nested script at [depth] returns: at most [limit] segments. *)
Definition RunOk (run : str -> EvalState -> Z -> option (list ShellSegment)) (depth : Z) (limit : nat) : Prop :=
  forall script state, depth <= MAX_NESTING ->
    exists segments, run script state depth = Some segments /\ Forall SegmentOk segments /\
      (length segments <= limit)%nat.

Section Bounds.
Context (run : str -> EvalState -> Z -> option (list ShellSegment)) (depth : Z) (limit : nat).
Context (Hrun : RunOk run (depth + 1) limit).

Definition StageOk (stage : Stage) : Prop :=
  match stage with Nested segments => Forall SegmentOk segments /\ (length segments <= limit)%nat | _ => True end.

Lemma eval_reader_stage_ok program args hd ins index state : StageOk (eval_reader program args hd ins index state).
Proof. unfold eval_reader. destruct (_ && _); [done|]. destruct hd; [done|]. destruct (_ ++ _); [|done]. by destruct (0 <? index)%nat. Qed.
Lemma eval_git_stage_ok args state : StageOk (eval_git args state).
Proof.
  unfold eval_git. destruct (git_flags _ _ _) as [[|w ws] dir]; [done|]. repeat destruct (one_of _ _); try done.
  by destruct (take _ _).
Qed.
Lemma eval_program_stage_ok program args hd ins index state : StageOk (eval_program program args hd ins index state).
Proof.
  unfold eval_program.
  repeat match goal with
    | |- StageOk (if ?b then _ else _) => destruct b
    | |- StageOk (eval_git _ _) => apply eval_git_stage_ok
    | |- StageOk (eval_reader _ _ _ _ _ _) => apply eval_reader_stage_ok
    end; done.
Qed.
Lemma eval_shell_ok program args state : exists stage, eval_shell run program args state depth = Some stage /\ StageOk stage.
Proof.
  unfold eval_shell. destruct (after_script_flag args) as [after|]; [|by eexists].
  destruct (MAX_NESTING <=? depth) eqn:E; zbool; [by eexists|]. destruct (script_of after) as [script|]; [|by eexists].
  destruct (Hrun script (mkState (base state) (vars state))) as (segments & -> & Hok); [lia|]. by eexists.
Qed.

Lemma eval_words_ok fuel ws hd ins index state :
  (length ws < fuel)%nat ->
  exists stage state', eval_words run fuel ws hd ins index state depth = Some (stage, state') /\ StageOk stage.
Proof.
  revert ws state. induction fuel as [|fuel IH]; intros ws state Hf; [lia|]. cbn [eval_words].
  destruct ws as [|first args]; [by eexists _, _|]. cbn [length] in Hf. set (program := program_name _).
  destruct (one_of _ program); [by eexists _, _|]. destruct (str_eqb _ _); [by eexists _, _|].
  destruct (one_of _ program); [by eexists _, _|]. destruct (one_of WRAPPERS program).
  { pose proof (skip_wrapper_length program args state). destruct (skip_wrapper _ _ _) as [ws st]. cbn in *. apply IH. lia. }
  destruct (one_of RUNNERS program && _).
  { pose proof (skip_runner_length (drop 1 args)) as H. rewrite length_drop in H.
    destruct (skip_runner _) as [|w ws]; [by eexists _, _|]. apply IH. lia. }
  destruct (one_of _ program); [apply IH; pose proof (skip_flags_length args); lia|].
  destruct (one_of _ program && _); [apply IH; rewrite length_drop; lia|].
  destruct (one_of SHELLS program).
  - destruct (eval_shell_ok program args state) as (stage & -> & Hs). by eexists _, _.
  - eexists _, _. split; [done|]. apply eval_program_stage_ok.
Qed.

Lemma eval_command_ok command index state :
  exists stage state', eval_command run command index state depth = Some (stage, state') /\ StageOk stage.
Proof.
  unfold eval_command. destruct (leading _ _) as [assignments ws]. destruct ws as [|w ws].
  - eexists _, _. split; [done|]. by destruct (heredoc command).
  - destruct (one_of _ _); [by eexists _, _|]. apply eval_words_ok. lia.
Qed.

Lemma eval_stages_ok single stages index r state :
  exists outcome state', eval_stages run single stages index r state depth = Some (outcome, state') /\
    match outcome with inl segments => Forall SegmentOk segments /\ (length segments <= limit)%nat | inr _ => True end.
Proof.
  revert index r state. induction stages as [|stage stages IH]; intros index r state; cbn [eval_stages]; [by eexists _, _|].
  destruct (eval_command_ok stage index state) as (st & state' & -> & Hs).
  destruct st; [apply IH..|]. destruct single; [by eexists _, _|apply IH].
Qed.

Lemma eval_pipeline_ok stages state out :
  exists state' added, eval_pipeline run stages state out depth = Some (state', out ++ added) /\
    Forall SegmentOk added /\ (length added <= Nat.max 1 limit)%nat.
Proof.
  unfold eval_pipeline. set (counted := filter _ stages). destruct (last counted) as [l|].
  2: { exists state, []. by rewrite app_nil_r; split_and!; [done|constructor|cbn; lia]. }
  destruct (eval_stages_ok (length counted =? 1)%nat counted 0 (mkReading None [] false) state) as (o & st & -> & Ho).
  destruct o as [segments|r].
  - destruct (negb (stdout_to_file l)); [|exists st, []; by rewrite app_nil_r; split_and!; [done|constructor|cbn; lia]].
    exists st, segments. split_and!; [done|by destruct Ho|]. destruct Ho. lia.
  - destruct (_ || _); [exists st, []; by rewrite app_nil_r; split_and!; [done|constructor|cbn; lia]|].
    exists st, [reading_segment r]. split_and!; [done|by constructor; [apply reading_segment_ok|]|cbn; lia].
Qed.

Lemma eval_tokens_ok toks earlier current state out :
  (length out < MAX_SEGMENTS)%nat -> Forall SegmentOk out ->
  exists state' out', eval_tokens run toks earlier current state out depth = Some (state', out') /\
    Forall SegmentOk out' /\ (length out' <= MAX_SEGMENTS - 1 + Nat.max 1 limit)%nat.
Proof.
  revert earlier current state out. induction toks as [|tok toks IH]; intros earlier current state out Hn Ho;
    cbn [eval_tokens]; [eexists _, _; split_and!; [done|done|lia]|].
  assert (forall e c st o, Forall SegmentOk o -> (length o <= MAX_SEGMENTS - 1 + Nat.max 1 limit)%nat ->
    exists state' out', (if (MAX_SEGMENTS <=? length o)%nat then Some (st, o) else eval_tokens run toks e c st o depth)
      = Some (state', out') /\ Forall SegmentOk out' /\ (length out' <= MAX_SEGMENTS - 1 + Nat.max 1 limit)%nat) as Hgo.
  { intros e c st o Hok Hlen. destruct (MAX_SEGMENTS <=? length o)%nat eqn:E; [by eexists _, _|].
    apply Nat.leb_gt in E. by apply IH. }
  destruct tok; try (apply Hgo; [done|lia]).
  destruct (eval_pipeline_ok (earlier ++ [current]) state out) as (st & added & -> & Ha & Hl).
  apply Hgo; [by apply Forall_app|]. rewrite length_app. lia.
Qed.
End Bounds.

(** The most segments a script within [fuel] levels of nesting leaves. *)
Fixpoint segment_limit (fuel : nat) : nat :=
  match fuel with O => 0 | S fuel => MAX_SEGMENTS - 1 + Nat.max 1 (segment_limit fuel) end.

Lemma eval_script_ok fuel depth :
  MAX_NESTING - depth < Z.of_nat fuel ->
  RunOk (fun script state depth => snd <$> eval_script fuel script state [] depth) depth (segment_limit fuel).
Proof.
  revert depth. induction fuel as [|fuel IH]; intros depth Hf script state Hd; [lia|]. cbn [eval_script].
  destruct (tokens_total script) as (toks & -> & _).
  destruct (eval_tokens_ok (fun script state depth => snd <$> eval_script fuel script state [] depth) depth
    (segment_limit fuel) ltac:(apply IH; lia) (toks ++ [TSeparator]) [] default_command state [])
    as (st & out & -> & Ho & Hl); [vm_compute; lia|constructor|]. by exists out.
Qed.

Lemma classify_ok script cwd :
  exists segments, classify_shell script cwd = Some segments /\ Forall SegmentOk segments /\
    (length segments <= 253)%nat.
Proof. exact (eval_script_ok NESTING_FUEL 0 ltac:(done) script (start_state cwd) ltac:(done)). Qed.

(** C23: The classifier answers every command, however it is quoted, nested or
    cut: it never runs out of fuel and never panics.  Of each segment only a
    read carries paths, at most sixteen and all different, and there are at most
    253 segments: 64 at each of the four nesting levels, less the one a nested
    script takes. *)
Theorem classify_total script cwd :
  exists segments, classify_shell script cwd = Some segments /\ Forall SegmentOk segments /\
    (length segments <= 253)%nat.
Proof. apply classify_ok. Qed.
