(* ===== verification/ShellQuote.v ===== *)
(** Shell quoting and what it guarantees
    (crates/ottto-service/src/composition_kinds/v2.rs, [shell_quote] and
    [command_words_script]): a quoted argument list goes through the lexer of
    composition_kinds/shell.rs unchanged. *)
From S2P Require Import Prelude.
From S2P Require Import Text.
From S2P Require Import Chars.
From S2P Require Import ShellPaths.
From S2P Require Import ShellLexer.
From S2P Require Import ShellEval.
From S2P Require Import ShellProps.
Local Open Scope Z_scope.

(** [word.replace('\'', "'\\''")]. *)
Definition escape_quotes (word : str) : str :=
  ch ← word; if ch =? QUOTE then lit "'\''" else [ch].
Definition is_plain_char (ch : Z) : bool := is_ascii_alphanumeric ch || among "_./:=@%+,-" ch.
Definition shell_quote (word : str) : str :=
  if negb (is_empty word) && forallb is_plain_char word then word
  else lit "'" ++ escape_quotes word ++ lit "'".

(** The script a shell's words run, past its flag. *)
Definition shell_script (words : list str) : option str :=
  match words with
  | program :: _ =>
      if one_of SHELLS (last_piece slash program) then
        (fix go (words : list str) :=
           match words with
           | [] => None
           | word :: rest => if is_script_flag word then head rest else go rest
           end) words
      else None
  | [] => None
  end.
Definition words_script (words : list str) : str :=
  match shell_script words with
  | Some script => script
  | None => join_with " " (shell_quote <$> words)
  end.

(** ** Quoting is undone by the lexer *)
(** A word without expansions or globs. *)
Definition static_word (text : str) : Word := mkWord text false false.
(** What may follow a word: nothing, or a space. *)
Definition ends_here (s : str) : Prop := s = [] \/ exists rest, s = 32 :: rest.

Lemma ends_here_word fuel s w :
  (0 < fuel)%nat -> ends_here s -> word_loop fuel s w true = Some (Some w, s).
Proof. intros Hf [->|[r ->]]; destruct fuel; by try lia. Qed.

Lemma plain_char_spec ch :
  is_plain_char ch = true ->
  ends_word ch = false /\ (ch =? QUOTE) = false /\ (ch =? DOUBLE_QUOTE) = false /\ (ch =? BACKSLASH) = false /\
  (ch =? DOLLAR) = false /\ (ch =? BACKTICK) = false /\ among "*?[" ch = false /\
  among [32; 9; 13] ch = false /\ (ch =? NEWLINE) = false /\ (ch =? 35) = false /\ among ";()" ch = false /\
  (ch =? 38) = false /\ (ch =? 124) = false /\ among "<>" ch = false.
Proof.
  intros H. assert (forall bad, is_plain_char bad = false -> (ch =? bad) = false) as Hne.
  { intros bad Hbad. apply Z.eqb_neq. intros ->. congruence. }
  assert (forall set : str, forallb (fun bad => negb (is_plain_char bad)) set = true -> among set ch = false) as Hset.
  { intros set Hs. apply not_true_iff_false. rewrite among_spec. intros Hin.
    rewrite forallb_Forall, Forall_forall in Hs. specialize (Hs _ Hin). rewrite H in Hs. done. }
  unfold ends_word. split_and!; first [by apply Hne; vm_compute|by apply Hset; vm_compute].
Qed.

Lemma word_loop_plain fuel text s w any :
  Forall (fun ch => is_plain_char ch = true) text -> ends_here s -> (length text < fuel)%nat ->
  any = true \/ text <> [] ->
  word_loop fuel (text ++ s) w any = Some (Some (push_str w text), s).
Proof.
  intros Hp Hs. revert fuel w any. induction Hp as [|ch text Hch Hp IH]; intros fuel w any Hf Hany.
  - destruct Hany as [->|]; [|done]. cbn [app]. rewrite ends_here_word by (done || lia).
    unfold push_str. rewrite app_nil_r. by destruct w.
  - cbn [length] in Hf. destruct fuel as [|fuel]; [lia|]. cbn [app word_loop].
    destruct (plain_char_spec ch Hch) as (-> & -> & -> & -> & -> & -> & -> & _). cbn [orb].
    rewrite IH by (lia || by left). unfold push_str. cbn. by rewrite <-app_assoc.
Qed.

(** Inside quotes: up to the closing one, an escaped quote opening again. *)
Lemma single_quoted_escaped word s :
  single_quoted (escape_quotes word ++ 39 :: s) =
    match split_at_first [39] word with
    | None => (word, s)
    | Some (before, after) => (before, lit "\''" ++ escape_quotes after ++ 39 :: s)
    end.
Proof.
  induction word as [|ch word IH]; [done|]. unfold escape_quotes in *. cbn [mbind list_bind].
  cbn [split_at_first strip_prefix]. rewrite (Z.eqb_sym 39 ch).
  destruct (ch =? 39) eqn:E.
  - change (ch =? QUOTE) with (ch =? 39). rewrite E. by cbn.
  - change (ch =? QUOTE) with (ch =? 39). rewrite E. cbn [app single_quoted].
    change (ch =? QUOTE) with (ch =? 39). rewrite E.
    change ((word ≫= _)) with (mbind (M := list) (fun ch => if ch =? QUOTE then lit "'\''" else [ch]) word).
    rewrite IH. by destruct (split_at_first [39] word) as [[]|].
Qed.
Lemma escape_split before after :
  split_at_first [39] (before ++ 39 :: after) = Some (before, after) ->
  escape_quotes (before ++ 39 :: after) = before ++ lit "'\''" ++ escape_quotes after.
Proof.
  unfold escape_quotes. induction before as [|ch before IH]; [done|].
  cbn [app split_at_first strip_prefix]. rewrite (Z.eqb_sym 39 ch). destruct (ch =? 39) eqn:E; [done|].
  intros H. cbn [mbind list_bind]. change (ch =? QUOTE) with (ch =? 39). rewrite E. cbn [app]. f_equal.
  apply IH. destruct (split_at_first [39] _) as [[x y]|]; by simplify_eq/=.
Qed.

Lemma push_push w a b : push_str (push_str w a) b = push_str w (a ++ b).
Proof. unfold push_str. cbn. by rewrite app_assoc. Qed.
Lemma word_loop_quoted fuel word s w any :
  ends_here s -> (length (escape_quotes word ++ QUOTE :: s) < pred fuel)%nat ->
  word_loop fuel (39 :: escape_quotes word ++ 39 :: s) w any = Some (Some (push_str w word), s).
Proof.
  enough (forall n word fuel w any, (length word <= n)%nat -> ends_here s ->
    (length (escape_quotes word ++ QUOTE :: s) < pred fuel)%nat ->
    word_loop fuel (39 :: escape_quotes word ++ 39 :: s) w any = Some (Some (push_str w word), s)) as H.
  { intros Hs Hf. by eapply H. }
  clear. induction n as [|n IH]; intros word fuel w any Hn Hs Hf; (destruct fuel as [|fuel]; [lia|]);
    cbn [pred] in Hf; cbn [word_loop]; change (ends_word 39) with false; change (39 =? QUOTE) with true;
    cbn iota; rewrite single_quoted_escaped; rewrite length_app in Hf; cbn [length] in Hf.
  - destruct word; [|cbn in Hn; lia]. cbn [split_at_first strip_prefix]. rewrite ends_here_word by (done || lia). done.
  - destruct (split_at_first [39] word) as [[before after]|] eqn:E; [|by rewrite ends_here_word by (done || lia)].
    pose proof (split_at_first_Some _ _ _ _ E) as ->. cbn [app] in *. rewrite escape_split in Hf by done.
    rewrite !length_app in Hf. change (length (lit "'\''")) with 4%nat in Hf. cbn [length] in *.
    change (lit "\''" ++ escape_quotes after ++ 39 :: s) with (92 :: 39 :: 39 :: escape_quotes after ++ 39 :: s).
    destruct fuel as [|fuel]; [lia|]. cbn [word_loop]. change (ends_word 92) with false.
    change (92 =? QUOTE) with false. change (92 =? DOUBLE_QUOTE) with false. change (92 =? BACKSLASH) with true.
    cbn iota. change (39 =? NEWLINE) with false. cbn iota. rewrite length_app in Hn. cbn [length] in Hn.
    rewrite IH; [|lia|done|rewrite length_app; cbn [length]; lia]. by rewrite !push_push.
Qed.

Lemma quoted_word text s :
  ends_here s -> word (shell_quote text ++ s) = Some (Some (static_word text), s).
Proof.
  intros Hs. unfold word, shell_quote. destruct (negb (is_empty text) && forallb is_plain_char text) eqn:E.
  - apply andb_prop in E as [Hne Hp]. apply forallb_Forall in Hp.
    rewrite word_loop_plain; [done|done|done|rewrite length_app; lia|right; by destruct text].
  - rewrite <-!app_assoc. change (lit "'" ++ escape_quotes text ++ lit "'" ++ s) with (39 :: escape_quotes text ++ 39 :: s).
    rewrite word_loop_quoted; [done|done|cbn [pred length]; unfold QUOTE; lia].
Qed.

Lemma quote_head text s :
  ends_here s -> exists ch after, shell_quote text ++ s = ch :: after /\
    (ch = QUOTE \/ is_plain_char ch = true /\ fd_redirect_ahead (ch :: after) = false).
Proof.
  intros Hs. unfold shell_quote. destruct (negb (is_empty text) && forallb is_plain_char text) eqn:E; [|by eexists _, _; split; [|left]].
  apply andb_prop in E as [Hne Hp]. apply forallb_Forall in Hp. destruct text as [|ch text]; [done|].
  inversion Hp as [|? ? Hch Htext]; subst. exists ch, (text ++ s). split; [done|]. right. split; [done|].
  destruct text as [|next text]; cbn.
  - destruct Hs as [->|[r ->]]; done.
  - inversion Htext as [|? ? Hn _]; subst. by destruct (plain_char_spec next Hn) as (_ & _ & _ & _ & _ & _ & _ & _ & _ & _ & _ & _ & _ & H).
Qed.
Lemma next_quoted text s ch after :
  ends_here s -> shell_quote text ++ s = ch :: after ->
  next_token ch (mkLexer (ch :: after) []) = Some (Some (TWord (static_word text)), mkLexer s []).
Proof.
  intros Hs E. destruct (quote_head text s Hs) as (c & a & E' & Hc). rewrite E in E'. injection E' as <- <-.
  unfold next_token. cbn [rest]. rewrite <-E, quoted_word by done. destruct Hc as [->|[Hp Hd]]; [done|].
  destruct (plain_char_spec ch Hp) as (_ & _ & _ & _ & _ & _ & _ & -> & -> & -> & -> & -> & -> & ->).
  by rewrite E, Hd, andb_false_r.
Qed.
Lemma space_tokens fuel count s :
  count < MAX_TOKENS -> tokens_loop (S fuel) count (mkLexer (32 :: s) []) = tokens_loop fuel count (mkLexer s []).
Proof. intros H. cbn [tokens_loop rest]. by rewrite (proj2 (Z.ltb_lt count MAX_TOKENS)) by lia. Qed.

(** The quoted words, a space between, and then the tokens of the rest. *)
Lemma tokens_quoted_then fuel0 fuel count ws t toks :
  ends_here t -> tokens_loop fuel0 (count + Z.of_nat (length ws)) (mkLexer t []) = Some toks ->
  (fuel0 + length (join_with " " (shell_quote <$> ws)) <= fuel)%nat -> count + Z.of_nat (length ws) <= MAX_TOKENS ->
  tokens_loop fuel count (mkLexer (join_with " " (shell_quote <$> ws) ++ t) []) =
  Some (((fun w => TWord (static_word w)) <$> ws) ++ toks).
Proof.
  intros Ht. revert fuel count. induction ws as [|w ws IH]; intros fuel count Htoks Hf Hc.
  { cbn in *. rewrite Z.add_0_r in Htoks. eapply tokens_loop_more; [done|lia]. }
  set (s := match ws with [] => t | _ => 32 :: join_with " " (shell_quote <$> ws) ++ t end).
  assert (join_with " " (shell_quote <$> w :: ws) ++ t = shell_quote w ++ s) as E.
  { unfold s. destruct ws as [|v ws]; cbn; [done|]. by rewrite <-app_assoc. }
  assert (ends_here s) as Hs by (unfold s; destruct ws; [done|right; by eexists]).
  destruct (quote_head w s Hs) as (ch & after & Eh & _). rewrite E, Eh.
  assert (1 <= length (shell_quote w))%nat as Hq.
  { destruct (shell_quote w) eqn:Ew; cbn; [|lia]. exfalso. unfold shell_quote in Ew. destruct w; [done|]. by destruct (_ && _). }
  destruct fuel as [|fuel].
  { exfalso. destruct ws; cbn in Hf; rewrite ?length_app in Hf; lia. }
  cbn [tokens_loop rest length] in *. rewrite (proj2 (Z.ltb_lt count MAX_TOKENS)) by lia. cbn [negb].
  rewrite (next_quoted w s ch after Hs Eh).
  enough (tokens_loop fuel (count + 1) (mkLexer s []) = Some (((fun w => TWord (static_word w)) <$> ws) ++ toks)) as -> by done.
  replace (count + Z.of_nat (S (length ws))) with (count + 1 + Z.of_nat (length ws)) in Htoks by lia.
  unfold s in *. destruct ws as [|v ws].
  { cbn in *. rewrite Z.add_0_r in Htoks. eapply tokens_loop_more; [done|lia]. }
  cbn [fmap list_fmap join_with] in Hf. rewrite !length_app in Hf. change (length (lit " ")) with 1%nat in Hf.
  destruct fuel as [|fuel]; [lia|]. cbn [length] in *. rewrite space_tokens by lia.
  apply IH; [done|cbn [fmap list_fmap join_with] in *; lia|lia].
Qed.
Lemma tokens_quoted fuel ws :
  (length (join_with " " (shell_quote <$> ws)) < fuel)%nat -> Z.of_nat (length ws) <= MAX_TOKENS ->
  tokens_loop fuel 0 (mkLexer (join_with " " (shell_quote <$> ws)) []) = Some ((fun w => TWord (static_word w)) <$> ws).
Proof.
  intros Hf Hn. rewrite <-(app_nil_r (join_with " " (shell_quote <$> ws))).
  rewrite (tokens_quoted_then 1 fuel 0 ws [] []); [by rewrite app_nil_r|by left| |lia|done].
  cbn [tokens_loop rest]. by destruct (0 + _ <? MAX_TOKENS).
Qed.

(** C29: A quoted argument list keeps its boundaries and never reads as shell
    syntax: whatever characters the arguments hold, quotes, spaces, newlines,
    operators and expansions included, the lexer reads back one word for each,
    with exactly its text, no expansion and no glob.  The lexer keeps 8,192
    tokens, so for that many arguments. *)
Theorem quoted_words_read_back (arguments : list str) :
  Z.of_nat (length arguments) <= MAX_TOKENS ->
  tokens (join_with " " (shell_quote <$> arguments)) = Some ((fun text => TWord (static_word text)) <$> arguments).
Proof. intros H. apply tokens_quoted; [lia|done]. Qed.

(** ** A read of files, from the arguments to the paths *)
Lemma eval_words_of run toks ws earlier current state out depth :
  (length out < MAX_SEGMENTS)%nat ->
  eval_tokens run ((TWord <$> ws) ++ toks) earlier current state out depth =
  eval_tokens run toks earlier
    (mkCommand (words current ++ ws) (stdout_to_file current) (heredoc current) (inputs current)) state out depth.
Proof.
  intros Ho. revert current. induction ws as [|w ws IH]; intros current; cbn [fmap list_fmap app].
  - rewrite app_nil_r. by destruct current.
  - cbn [eval_tokens]. rewrite (proj2 (Nat.leb_gt _ _)) by done. rewrite IH. cbn. by rewrite <-app_assoc.
Qed.

(** The file an argument of a reader names, from the folder [b]. *)
Definition shown_path (b : option str) (file : str) : option str := if file_shown file then join b file else None.

Lemma cat_operands (files : list str) :
  Forall (fun file => starts_with "-" file = false) files ->
  operands_loop "cat" (static_word <$> files) 0 false = static_word <$> files.
Proof.
  induction 1 as [|file files Hf _ IH]; [done|]. cbn [fmap list_fmap operands_loop word_text static_word].
  change (starts_with "jq" "cat" || str_eqb "yq" "cat") with false. cbn [andb].
  change (one_of ["head"; "tail"] "cat") with false. change (one_of ["awk"; "gawk"] "cat") with false. cbn [andb].
  rewrite Hf. cbn [andb]. destruct (str_eqb "--" file) eqn:E; [|by f_equal].
  apply str_eqb_eq in E. subst. done.
Qed.
Lemma cat_paths (files : list str) b variables :
  omap (operand_path (mkState b variables)) (static_word <$> files) = omap (shown_path b) files.
Proof.
  induction files as [|file files IH]; [done|]. rewrite fmap_cons.
  change (operand_path (mkState b variables) (static_word file)) with (shown_path b file).
  cbn [omap list_omap]. change (operand_path (mkState b variables) (static_word file)) with (shown_path b file).
  change (list_omap _ _ (operand_path (mkState b variables))) with (omap (M := list) (operand_path (mkState b variables))).
  by rewrite IH.
Qed.
Lemma eval_cat run (files : list str) state depth :
  files <> [] -> Forall (fun file => starts_with "-" file = false) files ->
  eval_command run (mkCommand (static_word <$> lit "cat" :: files) false false []) 0 state depth =
  Some (OfClass ReadClass (take MAX_SHELL_PATH_TOKENS (omap (shown_path (base state)) files)), state).
Proof.
  intros Hne Hf. unfold eval_command. cbn [words fmap list_fmap leading word_text static_word].
  change (is_assignment "cat") with (@None (str * str)). change (one_of KEYWORDS "cat") with false. cbn [andb].
  change (one_of ["fi"; "done"; "esac"; "for"; "case"; "in"] (lit "cat")) with false. cbn iota.
  cbn [length eval_words word_text static_word heredoc inputs]. change (program_name "cat") with (lit "cat").
  change (one_of ["cd"; "pushd"] "cat") with false. change (str_eqb "popd" "cat") with false.
  change (one_of ["export"; "declare"; "typeset"; "local"; "readonly"] "cat") with false.
  change (one_of WRAPPERS "cat") with false. change (one_of RUNNERS "cat") with false.
  change (one_of ["npx"; "bunx"; "pnpx"] "cat") with false. change (one_of ["pnpm"; "yarn"] "cat") with false.
  change (one_of SHELLS "cat") with false. cbn [andb]. f_equal. f_equal.
  assert (eval_program "cat" (static_word <$> files) false [] 0 state = eval_reader "cat" (static_word <$> files) false [] 0 state) as -> by done.
  unfold eval_reader. change (str_eqb "sed" "cat") with false. cbn [andb].
  change (takes_script "cat" (static_word <$> files)) with false.
  rewrite cat_operands, app_nil_r by done. destruct state as [b variables]. rewrite cat_paths.
  destruct files as [|file files]; [done|]. by destruct (static_word <$> file :: files) eqn:E.
Qed.

(** Reading files shows those files.  For [cat] over any list of arguments
    but flags, quoted the way the reader quotes a command array, the classifier
    answers one read of exactly the named files, joined to the session's folder
    and resolved, repeats and what is no file left out: whatever characters
    their names hold. *)
Theorem cat_shows_its_files (files : list str) cwd :
  files <> [] -> Forall (fun file => starts_with "-" file = false) files -> Z.of_nat (length files) < MAX_TOKENS ->
  classify_shell (words_script (lit "cat" :: files)) cwd =
  Some [mkSegment ReadClass
          (retain_unseen [] (take MAX_SHELL_PATH_TOKENS (omap (shown_path (base (start_state cwd))) files)))].
Proof.
  intros Hne Hf Hn. unfold classify_shell, NESTING_FUEL. cbn [eval_script].
  assert (words_script (lit "cat" :: files) = join_with " " (shell_quote <$> lit "cat" :: files)) as -> by done.
  unfold tokens. rewrite tokens_quoted by (cbn [length]; lia).
  rewrite (list_fmap_compose static_word TWord), eval_words_of by (vm_compute; lia).
  cbn [eval_tokens app words default_command stdout_to_file heredoc inputs]. unfold eval_pipeline.
  rewrite filter_cons_True by done. cbn [filter list_filter last length stdout_to_file negb eval_stages Nat.eqb].
  rewrite eval_cat by done. cbn [add_class reading_result reading_extra reading_prints negb orb app length].
  change (MAX_SEGMENTS <=? 1)%nat with false. cbn iota. cbn [fmap option_fmap option_map snd].
  unfold reading_segment. cbn [reading_result reading_extra default id].
  destruct (decide (ReadClass = ReadClass)); [|done]. rewrite app_nil_r, firstn_all2; [done|].
  etrans; [apply length_retain_unseen|]. rewrite length_take. lia.
Qed.

(** *** Witnesses *)
Lemma quoted_words_read_back_witness :
  tokens (join_with " " (shell_quote <$> [lit "cat"; lit "it's; rm $x"; lit ""]))
  = Some [TWord (static_word "cat"); TWord (static_word "it's; rm $x"); TWord (static_word "")].
Proof. apply (quoted_words_read_back [lit "cat"; lit "it's; rm $x"; lit ""]). by vm_compute. Defined.
Lemma cat_shows_its_files_witness :
  classify_shell (words_script [lit "cat"; lit "my notes.md"; lit "it's; git status"; lit "my notes.md"]) (Some (Utf8Path "/w/repo"))
  = Some [mkSegment ReadClass [lit "/w/repo/my notes.md"; lit "/w/repo/it's; git status"]].
Proof.
  apply (cat_shows_its_files [lit "my notes.md"; lit "it's; git status"; lit "my notes.md"] (Some (Utf8Path "/w/repo")));
    [done|by repeat constructor|by vm_compute].
Defined.
