(* ===== verification/ShellLimits.v ===== *)
(** The shell classifier at its limits: output sent to a file shows nothing,
    and two bounds that hold of one level of a command and not of the whole:
    the segments of nested scripts, and the values of the command's variables
    (crates/ottto-service/src/composition_kinds/shell.rs). *)
From S2P Require Import Prelude.
From S2P Require Import Text.
From S2P Require Import Chars.
From S2P Require Import ShellPaths.
From S2P Require Import ShellLexer.
From S2P Require Import ShellEval.
From S2P Require Import ShellProps.
From S2P Require Import ShellQuote.
Local Open Scope Z_scope.

(** ** Redirected output *)
Lemma redirect_next s w :
  span (among [32; 9]) s = ([], s) -> word s = Some (Some w, []) ->
  next_token 62 (mkLexer (62 :: 32 :: s) []) = Some (Some (TRedirect StdoutToFile (Some w)), mkLexer [] []).
Proof.
  intros Hs Hw.
  assert (redirect_target (32 :: s) = Some (Some w, [])) as Ht.
  { unfold redirect_target. cbn [span]. change (among [32; 9] 32) with true. cbn iota. by rewrite Hs. }
  change (next_token 62 (mkLexer (62 :: 32 :: s) [])) with
    (try? (tok, lx) := (try? (target, s) := redirect_target (32 :: s) in
                        Some (TRedirect StdoutToFile target, mkLexer s [])) in Some (Some tok, lx)).
  by rewrite Ht.
Qed.
Lemma quote_no_space file : span (among [32; 9]) (shell_quote file) = ([], shell_quote file).
Proof.
  destruct (quote_head file [] ltac:(by left)) as (ch & after & Eh & Hch). rewrite app_nil_r in Eh. rewrite Eh. cbn [span].
  assert (among [32; 9] ch = false) as ->; [|done]. destruct Hch as [->|[Hp _]]; [done|].
  apply not_true_iff_false. rewrite among_spec. intros Hin.
  apply plain_char_spec in Hp as (_ & _ & _ & _ & _ & _ & _ & Hp & _).
  apply not_true_iff_false in Hp. apply Hp, among_spec. set_solver.
Qed.
Lemma redirect_tokens file fuel count :
  (1 < fuel)%nat -> count + 1 <= MAX_TOKENS ->
  tokens_loop fuel count (mkLexer (62 :: 32 :: shell_quote file) [])
  = Some [TRedirect StdoutToFile (Some (static_word file))].
Proof.
  intros Hf Hc. destruct fuel as [|[|fuel]]; [lia..|]. cbn [tokens_loop rest].
  rewrite (proj2 (Z.ltb_lt count MAX_TOKENS)) by lia. cbn [negb].
  rewrite (redirect_next _ (static_word file)); [|apply quote_no_space|].
  - cbn [rest]. by destruct (count + 1 <? MAX_TOKENS).
  - rewrite <-(app_nil_r (shell_quote file)). apply quoted_word. by left.
Qed.

(** Output sent to a file is never read.  Whatever command an argument list
    runs, a nested shell included, with its output redirected to a file the
    classifier answers no segment: nothing of it reaches the model. *)
Theorem redirected_output_unseen (arguments : list str) file cwd :
  Z.of_nat (length arguments) < MAX_TOKENS ->
  classify_shell (join_with " " (shell_quote <$> arguments) ++ lit " > " ++ shell_quote file) cwd = Some [].
Proof.
  intros Hn. unfold classify_shell, NESTING_FUEL. cbn [eval_script]. unfold tokens.
  rewrite (tokens_quoted_then (3 + length (shell_quote file)) _ 0 arguments (32 :: 62 :: 32 :: shell_quote file)
    [TRedirect StdoutToFile (Some (static_word file))]); [|right; by eexists| | |lia].
  2: { rewrite (space_tokens (2 + length (shell_quote file))) by lia. apply redirect_tokens; lia. }
  2: { rewrite length_app. change (length (lit " > " ++ shell_quote file)) with (3 + length (shell_quote file))%nat. lia. }
  rewrite (list_fmap_compose static_word TWord), <-!app_assoc, eval_words_of by (vm_compute; lia).
  cbn [app eval_tokens push_redirect length words default_command stdout_to_file heredoc inputs].
  change (MAX_SEGMENTS <=? 0)%nat with false. cbn iota.
  set (command := mkCommand _ _ _ _). unfold eval_pipeline. cbn [filter list_filter].
  destruct (decide (stage_counts command = true)); [|done]. cbn [last].
  destruct (eval_stages_ok _ 0 (segment_limit 3) (eval_script_ok 3 1 ltac:(done)) (length [command] =? 1)%nat [command] 0
    (mkReading None [] false) (start_state cwd)) as (outcome & state & E & _).
  match goal with |- context [eval_stages ?r ?s ?c ?i ?rd ?st ?d] =>
    change (eval_stages r s c i rd st d) with
      (eval_stages (fun script state depth => snd <$> eval_script 3 script state [] depth)
         (length [command] =? 1)%nat [command] 0 (mkReading None [] false) (start_state cwd) 0) end.
  rewrite E. by destruct outcome.
Qed.

(** ** Nested scripts *)
Definition listings (n : nat) : str := concat (replicate n (lit "ls;")).
(** A level of listings that ends in a nested shell. *)
Definition nest (script : str) : str := listings 63 ++ lit "bash -c " ++ shell_quote script.

(** The limit of segments holds of a level, not of a command: a script of
    253 listings, nested in three shells, leaves all 253 segments, about four
    times the 64 that [MAX_SEGMENTS] is said to keep for one command.  With
    [classify_total] that is the most there can be. *)
Theorem nested_segments_exceed :
  exists segments, classify_shell (nest (nest (nest (listings 64)))) None = Some segments /\
    length segments = 253%nat /\ (MAX_SEGMENTS < length segments)%nat.
Proof. eexists. split_and!; [by vm_compute|by vm_compute|vm_compute; lia]. Qed.

(** ** Variables *)
(** [a=x;a=$a$a;a=$a$a..]. *)
Definition doubling (n : nat) : str := lit "a=x" ++ concat (replicate n (lit ";a=$a$a")).
Definition first_word : Word := mkWord "a=x" false false.
Definition double_word : Word := mkWord "a=$a$a" true false.

(** What follows an assignment of the script: nothing, or the next one. *)
Definition ends_command (s : str) : Prop := s = [] \/ exists rest, s = 59 :: rest.
Lemma repeated_ends n : ends_command (concat (replicate n (lit ";a=$a$a"))).
Proof. destruct n; [by left|right; by eexists]. Qed.
Lemma ident_ends s : ends_command s -> span is_ident s = ([], s).
Proof. by intros [->|[r ->]]. Qed.
Lemma word_ends fuel s w : (0 < fuel)%nat -> ends_command s -> word_loop fuel s w true = Some (Some w, s).
Proof. intros Hf [->|[r ->]]; destruct fuel; by try lia. Qed.

Lemma word_first s : ends_command s -> word (lit "a=x" ++ s) = Some (Some first_word, s).
Proof. intros Hs. exact (word_ends (S (length s)) s first_word ltac:(lia) Hs). Qed.
Lemma expansion_a s w : ends_command s -> expansion (36 :: 97 :: s) w = (push_str (set_dynamic w) [36; 97], s).
Proof. intros Hs. unfold expansion. cbn -[span is_ident]. change (is_ident 97) with true. cbn. by rewrite ident_ends. Qed.
Lemma word_double s : ends_command s -> word (lit "a=$a$a" ++ s) = Some (Some double_word, s).
Proof.
  intros Hs.
  change (word (lit "a=$a$a" ++ s)) with
    (let '(w, s') := expansion (36 :: 97 :: s) (mkWord (lit "a=$a") true false) in word_loop (3 + length s) s' w true).
  rewrite expansion_a by done. by rewrite word_ends by (done || lia).
Qed.

Lemma doublings_tokens n fuel count :
  (7 * n < fuel)%nat -> count + 2 * Z.of_nat n <= MAX_TOKENS ->
  tokens_loop fuel count (mkLexer (concat (replicate n (lit ";a=$a$a"))) []) =
  Some (concat (replicate n [TSeparator; TWord double_word])).
Proof.
  revert fuel count. induction n as [|n IH]; intros fuel count Hf Hc.
  { destruct fuel; [lia|]. cbn. by destruct (count <? MAX_TOKENS). }
  destruct fuel as [|[|fuel]]; [lia..|]. cbn [replicate concat].
  set (s := concat (replicate n (lit ";a=$a$a"))) in *. pose proof (repeated_ends n : ends_command s) as Hs.
  change (lit ";a=$a$a" ++ s) with (59 :: lit "a=$a$a" ++ s). cbn [tokens_loop rest].
  rewrite (proj2 (Z.ltb_lt count MAX_TOKENS)) by lia. cbn [negb].
  change (next_token 59 (mkLexer (59 :: lit "a=$a$a" ++ s) [])) with
    (Some (Some TSeparator, mkLexer (lit "a=$a$a" ++ s) [])). cbn [rest].
  change (lit "a=$a$a" ++ s) with (97 :: lit "=$a$a" ++ s) at 1. rewrite (proj2 (Z.ltb_lt _ MAX_TOKENS)) by lia. cbn [negb].
  change (next_token 97 (mkLexer (lit "a=$a$a" ++ s) [])) with
    (try? (found, s') := word (lit "a=$a$a" ++ s) in
     match found with
     | Some word => Some (Some (TWord word), mkLexer s' [])
     | None => Some (None, mkLexer (drop 1 (lit "a=$a$a" ++ s)) [])
     end).
  rewrite word_double by done. rewrite IH by lia. done.
Qed.

(** The one variable, [a], holds [n] times the letter x. *)
Definition holds (b : option str) (n : nat) : EvalState := mkState b [(lit "a", replicate n 120)].
Lemma no_mark m n : m <> 120 -> split_at_first [m] (replicate n 120) = None /\ contains [m] (replicate n 120) = false.
Proof.
  intros Hm. induction n as [|n [IH1 IH2]]; [done|]. cbn [replicate split_at_first contains]. unfold starts_with. cbn [strip_prefix].
  rewrite (proj2 (Z.eqb_neq m 120)) by done. by rewrite IH1, IH2.
Qed.
Lemma double_value b n : resolve (with_text double_word "$a$a") (holds b n) = Some (replicate (n + n) 120).
Proof.
  unfold resolve. cbn [word_dynamic double_word with_text negb word_text vars holds].
  change (resolve_loop _ _ _ _) with (Some ((replicate n 120 ++ replicate n 120) ++ [])).
  rewrite app_nil_r, <-replicate_add. change (lit "`") with [96]. by rewrite (proj2 (no_mark 96 _ ltac:(done))).
Qed.
Section Doubling.
Context (run : str -> EvalState -> Z -> option (list ShellSegment)).

Lemma double_step b n :
  eval_pipeline run [mkCommand [double_word] false false []] (holds b n) [] 0 = Some (holds b (n + n), []).
Proof.
  unfold eval_pipeline. cbn [filter list_filter].
  destruct (decide _) as [_|E]; [|by destruct E]. cbn [last length Nat.eqb eval_stages].
  unfold eval_command. cbn [words leading]. change (is_assignment (word_text double_word)) with (Some (lit "a", lit "$a$a")).
  cbn iota. rewrite double_value. done.
Qed.
Lemma doublings_eval b k n :
  eval_tokens run (concat (replicate k [TSeparator; TWord double_word]) ++ [TSeparator]) [] (mkCommand [double_word] false false [])
    (holds b n) [] 0 = Some (holds b (n * 2 ^ S k), []).
Proof.
  revert n. induction k as [|k IH]; intros n; cbn [replicate concat app eval_tokens]; rewrite double_step; cbn [length].
  - change (MAX_SEGMENTS <=? 0)%nat with false. cbn iota. do 3 f_equal. cbn. lia.
  - change (MAX_SEGMENTS <=? 0)%nat with false. cbn iota.
    change (push_word default_command double_word) with (mkCommand [double_word] false false []).
    rewrite IH. do 3 f_equal. rewrite !Nat.pow_succ_r'. lia.
Qed.
End Doubling.

(** The number of variables a command sets is bounded, their size is not:
    [a=x;a=$a$a;a=$a$a;..] with [n] repetitions has 3 + 7n characters and
    leaves a value of 2^n characters in the classifier's state. *)
Theorem variable_doubles n cwd :
  2 * Z.of_nat n < MAX_TOKENS ->
  length (doubling n) = (3 + 7 * n)%nat /\
  exists state value, eval_script NESTING_FUEL (doubling n) (start_state cwd) [] 0 = Some (state, []) /\
    var_value (vars state) "a" = Some value /\ length value = (2 ^ n)%nat.
Proof.
  intros Hn. split.
  { unfold doubling. rewrite length_app. f_equal. induction n as [|n IH]; [done|].
    cbn [replicate concat]. rewrite length_app, IH by lia. change (length (lit ";a=$a$a")) with 7%nat. lia. }
  exists (holds (base (start_state cwd)) (2 ^ n)), (replicate (2 ^ n) 120). split_and!; [|done|by rewrite length_replicate].
  assert (tokens (doubling n) = Some (TWord first_word :: concat (replicate n [TSeparator; TWord double_word]))) as E.
  { unfold tokens. cbn [tokens_loop]. change (rest (mkLexer (doubling n) [])) with (97 :: drop 1 (doubling n)).
    change (negb (0 <? MAX_TOKENS)) with false. cbn iota.
    change (next_token 97 (mkLexer (doubling n) [])) with
      (try? (found, s') := word (doubling n) in
       match found with
       | Some word => Some (Some (TWord word), mkLexer s' [])
       | None => Some (None, mkLexer (drop 1 (doubling n)) [])
       end).
    unfold doubling at 1. rewrite word_first by apply repeated_ends. rewrite doublings_tokens; [done| |lia].
    unfold doubling. rewrite length_app. change (length (lit "a=x")) with 3%nat. clear Hn.
    induction n as [|n IH]; cbn [replicate concat]; [lia|]. rewrite length_app. change (length (lit ";a=$a$a")) with 7%nat. lia. }
  unfold NESTING_FUEL. cbn [eval_script]. rewrite E. cbn [app eval_tokens length].
  change (MAX_SEGMENTS <=? 0)%nat with false. cbn iota. destruct n as [|n].
  - done.
  - cbn [replicate concat app eval_tokens].
    change (eval_pipeline _ _ _ _ _) with (Some (holds (base (start_state cwd)) 1, @nil ShellSegment)) at 1. cbn [length].
    change (MAX_SEGMENTS <=? 0)%nat with false. cbn iota.
    change (push_word default_command double_word) with (mkCommand [double_word] false false []).
    rewrite doublings_eval. do 3 f_equal. lia.
Qed.

(** *** Witnesses *)
Lemma redirected_output_unseen_witness :
  classify_shell (join_with " " (shell_quote <$> [lit "bash"; lit "-c"; lit "cat a.md"]) ++ lit " > " ++ shell_quote "out file") None
  = Some [].
Proof. apply (redirected_output_unseen [lit "bash"; lit "-c"; lit "cat a.md"]). by vm_compute. Defined.
Lemma variable_doubles_witness :
  length (doubling 20) = 143%nat /\
  exists state value, eval_script NESTING_FUEL (doubling 20) (start_state None) [] 0 = Some (state, []) /\
    var_value (vars state) "a" = Some value /\ length value = (2 ^ 20)%nat.
Proof. apply (variable_doubles 20 None). by vm_compute. Defined.
