(* ===== verification/Kinds.v ===== *)
(** Composition kinds: the classes a transcript's content falls in, how a
    call's result is shared out among them, and the version 1 classifiers by
    name (crates/ottto-service/src/composition_kinds/mod.rs);
    [split_tokens] shares a total out exactly. *)
From S2P Require Import Prelude.
From S2P Require Import Text.
From S2P Require Import Std.
From S2P Require Import Chars.
Local Open Scope Z_scope.

(** ** Kinds and parts *)
Inductive Kind :=
  | HarnessAttachments | ShellOutput | CodeReads | DocReadsMd | DocReadsHtml | MemoryNotes
  | BrowserAndImages | WebFetchSearch | AgentResults | OtherTools | FilesRead | CommandOutput
  | ComputerUse | WebAndBrowser | AutomaticAdditions | YourPrompts.
#[export] Instance Kind_eq_dec : EqDecision Kind.
Proof. solve_decision. Defined.
Definition V2 : list Kind :=
  [FilesRead; CommandOutput; ComputerUse; WebAndBrowser; OtherTools; AutomaticAdditions; YourPrompts].
Definition kind_as_str (kind : Kind) : string :=
  match kind with
  | HarnessAttachments => "harness_attachments"
  | ShellOutput => "shell_output"
  | CodeReads => "code_reads"
  | DocReadsMd => "doc_reads_md"
  | DocReadsHtml => "doc_reads_html"
  | MemoryNotes => "memory_notes"
  | BrowserAndImages => "browser_and_images"
  | WebFetchSearch => "web_fetch_search"
  | AgentResults => "agent_results"
  | OtherTools => "other_tools"
  | FilesRead => "files_read"
  | CommandOutput => "command_output"
  | ComputerUse => "computer_use"
  | WebAndBrowser => "web_and_browser"
  | AutomaticAdditions => "automatic_additions"
  | YourPrompts => "your_prompts"
  end.

Inductive Part :=
  | Unsplit
  | ShellRead | FileTool | SkillFile | InstructionsLater | MemoryFile
  | Git | Search | TestsBuilds | OtherCommands
  | AppControl | Screenshots
  | Web | Browser
  | Addon | AgentReports | BackgroundReports | BuiltInOther
  | StartNotMeasured | ToolDescriptionsLater | ListsUpdated | InstructionsReloaded | MemoryReloaded
  | CompactionSummary | Reminders | Environment | HookOutput | FilesMentioned | FilesChanged | Other
  | ByYou | ByAgent.
#[export] Instance Part_eq_dec : EqDecision Part.
Proof. solve_decision. Defined.
Definition part_as_str (part : Part) : string :=
  match part with
  | Unsplit => "unsplit"
  | ShellRead => "shell_read"
  | FileTool => "file_tool"
  | SkillFile => "skill_file"
  | InstructionsLater => "instructions_later"
  | MemoryFile => "memory_file"
  | Git => "git"
  | Search => "search"
  | TestsBuilds => "tests_builds"
  | OtherCommands => "other_commands"
  | AppControl => "app_control"
  | Screenshots => "screenshots"
  | Web => "web"
  | Browser => "browser"
  | Addon => "addon"
  | AgentReports => "agent_reports"
  | BackgroundReports => "background_reports"
  | BuiltInOther => "built_in_other"
  | StartNotMeasured => "start_not_measured"
  | ToolDescriptionsLater => "tool_descriptions_later"
  | ListsUpdated => "lists_updated"
  | InstructionsReloaded => "instructions_reloaded"
  | MemoryReloaded => "memory_reloaded"
  | CompactionSummary => "compaction_summary"
  | Reminders => "reminders"
  | Environment => "environment"
  | HookOutput => "hook_output"
  | FilesMentioned => "files_mentioned"
  | FilesChanged => "files_changed"
  | Other => "other"
  | ByYou => "by_you"
  | ByAgent => "by_agent"
  end.
Definition part_kind (part : Part) : option Kind :=
  match part with
  | Unsplit => None
  | ShellRead | FileTool | SkillFile | InstructionsLater | MemoryFile => Some FilesRead
  | Git | Search | TestsBuilds | OtherCommands => Some CommandOutput
  | AppControl | Screenshots => Some ComputerUse
  | Web | Browser => Some WebAndBrowser
  | Addon | AgentReports | BackgroundReports | BuiltInOther => Some OtherTools
  | StartNotMeasured | ToolDescriptionsLater | ListsUpdated | InstructionsReloaded | MemoryReloaded
  | CompactionSummary | Reminders | Environment | HookOutput | FilesMentioned | FilesChanged | Other =>
      Some AutomaticAdditions
  | ByYou | ByAgent => Some YourPrompts
  end.

(** ** Line context and verdicts *)
Inductive Author := You | Agent.
#[export] Instance Author_eq_dec : EqDecision Author.
Proof. solve_decision. Defined.
Inductive Request1 := RequestNo | StartMeasured | StartUnmeasured.
#[export] Instance Request1_eq_dec : EqDecision Request1.
Proof. solve_decision. Defined.
Inductive KindsVersion := VersionOne | VersionTwo.
#[export] Instance KindsVersion_eq_dec : EqDecision KindsVersion.
Proof. solve_decision. Defined.
Record LineCtx := mkCtx {
  request_1 : Request1; ctx_cwd : option Path; file_has_rendered : bool; author : Author; kinds_version : KindsVersion }.
Definition ctx_v1 : LineCtx := mkCtx RequestNo None false You VersionOne.
Definition ctx_v2 (request : Request1) (cwd : option Path) (rendered : bool) (who : Author) : LineCtx :=
  mkCtx request cwd rendered who VersionTwo.
Definition is_v1 (ctx : LineCtx) : bool := bool_decide (kinds_version ctx = VersionOne).

Inductive SkipReason := NotMeasured | RequestOne | PromptSnapshot | DeferredToolsRecord | Unrendered.
Inductive Verdict := Skip (reason : SkipReason) | Count (kind : Kind) (part : Part).
Definition verdict_v1 (kind : Kind) : Verdict := Count kind Unsplit.

(** ** Calls and their shares *)
(** A [ToolKey] is its text. *)
Definition ToolKey := str.
Record CallShare := mkShare {
  share_kind : Kind; share_part : Part; weight : Z; share_file : option str; share_tool : option ToolKey }.
Record CallClass := mkCall {
  call_kind : Kind; call_part : Part; call_tool : ToolKey; call_file : option str; shares : list CallShare }.

Definition call_v1 (kind : Kind) (tool : ToolKey) (file : option str) : CallClass := mkCall kind Unsplit tool file [].
Definition unmatched : CallClass := call_v1 OtherTools [] None.

Definition share_key (s : CallShare) : Kind * Part * option str * option str :=
  (share_kind s, share_part s, share_file s, share_tool s).
(** One round of the merge: the weight joins the first equal share. *)
Fixpoint merge_share (merged : list CallShare) (share : CallShare) : list CallShare :=
  match merged with
  | [] => [share]
  | known :: merged =>
      if decide (share_key known = share_key share) then
        mkShare (share_kind known) (share_part known) (saturating_add 32 (weight known) (weight share))
          (share_file known) (share_tool known) :: merged
      else known :: merge_share merged share
  end.
Definition no_share : CallShare := mkShare OtherTools BuiltInOther 1 None None.
Definition larger (left right : Z * CallShare) : comparison :=
  match Z.compare (weight left.2) (weight right.2) with Eq => Z.compare right.1 left.1 | c => c end.
Definition enumerate {A} (l : list A) : list (Z * A) := imap (fun i x => (Z.of_nat i, x)) l.
Definition from_shares (tool : ToolKey) (given : list CallShare) : CallClass :=
  let merged := foldl merge_share [] given in
  let largest := default no_share (snd <$> max_by larger (enumerate merged)) in
  mkCall (share_kind largest) (share_part largest) tool (share_file largest)
    (if (1 <? length merged)%nat || (if share_tool largest is Some _ then true else false) then merged else []).
Definition share_list (call : CallClass) : list CallShare :=
  match shares call with
  | [] => [mkShare (call_kind call) (call_part call) 1 (call_file call) None]
  | given => given
  end.

(** ** Splitting tokens *)
Definition total_of (l : list Z) : Z := foldr Z.add 0 l.
(** [remainders.sort_by(..)]: largest first, then earliest. *)
Definition larger_remainder (left right : Z * nat) : comparison :=
  match Z.compare right.1 left.1 with Eq => Z.compare (Z.of_nat left.2) (Z.of_nat right.2) | c => c end.
Fixpoint hand_out (order : list (Z * nat)) (left : Z) (given : list Z) : list Z :=
  match order with
  | [] => given
  | (_, index) :: order =>
      if left =? 0 then given
      else hand_out order (wrap_u 64 (left - 1)) (alter (fun share => wrap_u 64 (share + 1)) index given)
  end.
Definition split_tokens (total : Z) (weights : list Z) : list Z :=
  let sum := total_of weights in
  if sum =? 0 then
    match weights with [] => [] | _ :: weights => total :: ((fun _ => 0) <$> weights) end
  else
    let given := (fun weight => wrap_u 64 (total * weight / sum)) <$> weights in
    let remainders := imap (fun index weight => (total * weight mod sum, index)) weights in
    hand_out (sort_by larger_remainder remainders) (wrap_u 64 (total - total_of given)) given.

(** ** Version 1 classifiers *)
Definition is_separator (ch : Z) : bool := among "/\" ch.
Definition is_memory_path (path : str) : bool :=
  if is_empty path then false
  else if str_eqb "MEMORY.md" (last_piece is_separator path) then true
  else contains "AutoMem/" path || contains "AutoMem\" path || contains "/memory/" path || contains "\memory\" path.
Definition classify_by_read_path (path : str) : Kind :=
  if is_memory_path path then MemoryNotes else
  let low := to_ascii_lowercase path in
  if ends_with ".md" low || ends_with ".markdown" low then DocReadsMd
  else if ends_with ".html" low || ends_with ".htm" low then DocReadsHtml
  else CodeReads.
Definition cc_tool_category (name file_path : str) : Kind :=
  if str_eqb "Bash" name then ShellOutput
  else if one_of ["Read"; "NotebookRead"] name then classify_by_read_path file_path
  else if one_of ["Task"; "Agent"] name then AgentResults
  else if one_of ["WebFetch"; "WebSearch"] name then WebFetchSearch
  else
    let low := to_ascii_lowercase name in
    if contains "browser" low || contains "chrome" low || contains "computer" low
       || starts_with "preview_" low || contains "screenshot" low
    then BrowserAndImages else OtherTools.
Definition codex_tool_category (name : str) : Kind :=
  let low := to_ascii_lowercase name in
  if one_of ["exec"; "shell"; "local_shell"; "bash"; "shell_command"; "container.exec"; "run_command"; "wait";
             "write_stdin"; "read_stdout"; "kill"; "kill_command"] low
     || contains "exec" low || contains "shell" low then ShellOutput
  else if contains "web" low || contains "search" low || contains "fetch" low then WebFetchSearch
  else if contains "browser" low || contains "computer" low || contains "screenshot" low then BrowserAndImages
  else if contains "agent" low || str_eqb "spawn_agent" low then AgentResults
  else if one_of ["read_file"; "view"; "read"] low then CodeReads
  else OtherTools.

(** ** Sums *)
#[export] Instance total_of_perm : Proper (Permutation ==> eq) total_of.
Proof. induction 1; unfold total_of in *; cbn; lia. Qed.
Lemma total_of_app a b : total_of (a ++ b) = total_of a + total_of b.
Proof. induction a; unfold total_of in *; cbn; lia. Qed.
Lemma total_of_nonneg l : Forall (fun x => 0 <= x) l -> 0 <= total_of l.
Proof. unfold total_of. induction 1; cbn; lia. Qed.
Lemma total_of_in x l : Forall (fun x => 0 <= x) l -> x ∈ l -> x <= total_of l.
Proof.
  induction 1 as [|y l Hy Hl IH]; [by intros ?%elem_of_nil|]. pose proof (total_of_nonneg l Hl). unfold total_of in *.
  intros [->|Hin]%elem_of_cons; cbn; [lia|]. specialize (IH Hin). lia.
Qed.
Lemma total_of_bound m l : Forall (fun x => x <= m) l -> total_of l <= m * Z.of_nat (length l).
Proof. unfold total_of. induction 1; cbn [foldr length]; lia. Qed.
Lemma total_of_mul {A} (f : A -> Z) (c : Z) l : total_of ((fun x => c * f x) <$> l) = c * total_of (f <$> l).
Proof. unfold total_of. induction l; cbn in *; lia. Qed.
Lemma total_of_alter l i : (i < length l)%nat -> total_of (alter (fun x => x + 1) i l) = total_of l + 1.
Proof.
  revert i. induction l as [|x l IH]; intros [|i] Hi; cbn [length] in Hi; try lia; unfold total_of in *; cbn; [lia|].
  change (list_alter (fun x => x + 1) i l) with (alter (fun x => x + 1) i l). rewrite IH by lia. lia.
Qed.

(** ** Handing out the remainder *)
Lemma hand_out_spec order left given :
  0 <= left <= Z.of_nat (length order) -> NoDup (order.*2) ->
  Forall (fun i => i < length given)%nat (order.*2) ->
  Forall (fun share => 0 <= share) given -> total_of given + left < 2 ^ 64 ->
  length (hand_out order left given) = length given /\
  total_of (hand_out order left given) = total_of given + left /\
  forall i, hand_out order left given !! i =
    (fun share => if decide (i ∈ (take (Z.to_nat left) order).*2) then share + 1 else share) <$> given !! i.
Proof.
  revert left given. induction order as [|[r k] order IH]; intros left given Hl Hn Hlt Hg Ht; cbn [hand_out].
  { cbn in Hl. assert (left = 0) as -> by lia. split_and!; [done|lia|]. intros i. rewrite take_nil. cbn.
    by destruct (given !! i). }
  destruct (left =? 0) eqn:E; zbool.
  { subst. split_and!; [done|lia|]. intros i. cbn. by destruct (given !! i). }
  cbn [fmap list_fmap length] in *. apply NoDup_cons in Hn as [Hk Hn]. apply Forall_cons in Hlt as [Hk' Hlt]. cbn [snd] in Hk, Hk'.
  destruct (lookup_lt_is_Some_2 given k Hk') as [share Hshare].
  pose proof (Forall_lookup_1 _ _ _ _ Hg Hshare) as Hs0. pose proof (total_of_in _ _ Hg (list_elem_of_lookup_2 _ _ _ Hshare)).
  cbn beta in Hs0.
  rewrite wrap_u_small by (unfold uint; pose proof (total_of_nonneg given Hg); lia).
  assert (alter (fun share => wrap_u 64 (share + 1)) k given = alter (fun x => x + 1) k given) as ->.
  { apply list_alter_ext; [|done]. intros x Hx. simplify_eq. by rewrite wrap_u_small by (unfold uint; lia). }
  destruct (IH (left - 1) (alter (fun x => x + 1) k given)) as (IH1 & IH2 & IH3).
  - lia.
  - done.
  - by rewrite length_alter.
  - apply Forall_alter; [done|]. intros x _ Hx. cbn in *. lia.
  - rewrite total_of_alter by done. lia.
  - rewrite IH1, IH2, length_alter, total_of_alter by done. split_and!; [done|lia|]. intros i. rewrite IH3.
    replace (Z.to_nat left) with (S (Z.to_nat (left - 1))) by lia. cbn [take fmap list_fmap snd].
    assert (k ∉ (take (Z.to_nat (left - 1)) order).*2) as Hk2.
    { rewrite fmap_take. intros Hin. apply Hk. rewrite <-(take_drop (Z.to_nat (left - 1)) order.*2). set_solver. }
    destruct (decide (i = k)) as [->|Hne].
    + rewrite list_lookup_alter_eq, Hshare. cbn. rewrite decide_False, decide_True; [done|set_solver|done].
    + rewrite list_lookup_alter_ne by done. destruct (given !! i); [|done]. cbn. f_equal.
      apply decide_ext. rewrite elem_of_cons. naive_solver.
Qed.

Lemma in_take {A} n (l : list A) x : x ∈ take n l -> x ∈ l.
Proof. intros H. rewrite <-(take_drop n l). set_solver. Qed.

(** ** The order of the remainders *)
Section Split.
Context (total : Z) (weights : list Z).
Context (Htotal : u64 total) (Hweights : Forall u64 weights).
Local Abbreviation sum := (total_of weights).
Context (Hsum : 0 < sum).

Definition share_of (w : Z) : Z := total * w / sum.
Definition remainder_of (w : Z) : Z := total * w mod sum.
Definition remainders : list (Z * nat) := imap (fun index w => (remainder_of w, index)) weights.
Definition order : list (Z * nat) := sort_by larger_remainder remainders.
Definition order_key (p : Z * nat) : Z * Z := (- p.1, Z.of_nat p.2).
Definition left_over : Z := total - total_of (share_of <$> weights).

Lemma weight_u64 w : w ∈ weights -> 0 <= w <= sum.
Proof.
  intros Hw. pose proof (proj1 (Forall_forall _ _) Hweights w Hw) as [Hw0 _]. split; [done|].
  apply total_of_in; [|done]. eapply Forall_impl; [exact Hweights|]. by intros x [].
Qed.
Lemma share_bounds w : w ∈ weights -> 0 <= share_of w <= total.
Proof.
  intros Hw. pose proof (weight_u64 w Hw). destruct Htotal. unfold share_of. split; [apply Z.div_pos; nia|].
  apply Z.div_le_upper_bound; nia.
Qed.
Lemma remainder_bounds w : 0 <= remainder_of w < sum.
Proof. apply Z.mod_pos_bound. done. Qed.

Lemma larger_remainder_key a b : larger_remainder a b = rcmp (order_key a) (order_key b).
Proof.
  unfold larger_remainder, order_key. rewrite rcmp_pair. unfold rcmp, Z_ord. by rewrite Z.compare_opp.
Qed.
Lemma remainders_indices : remainders.*2 = seq 0 (length weights).
Proof.
  unfold remainders. apply list_eq. intros i. rewrite list_lookup_fmap, list_lookup_imap.
  destruct (weights !! i) eqn:E; cbn.
  - apply lookup_lt_Some in E. by rewrite lookup_seq_lt.
  - apply lookup_ge_None in E. by rewrite lookup_seq_ge.
Qed.
Lemma order_indices : order.*2 ≡ₚ seq 0 (length weights).
Proof. unfold order. by rewrite (sort_by_perm larger_remainder), remainders_indices. Qed.
Lemma order_entry p : p ∈ order <-> exists w, weights !! p.2 = Some w /\ p.1 = remainder_of w.
Proof.
  unfold order. rewrite (sort_by_perm larger_remainder). unfold remainders. rewrite elem_of_lookup_imap.
  destruct p as [r i]. cbn. naive_solver.
Qed.
Lemma order_remainders : order.*1 ≡ₚ remainder_of <$> weights.
Proof.
  unfold order. rewrite (sort_by_perm larger_remainder). unfold remainders.
  rewrite fmap_imap. apply reflexive_eq. apply list_eq. intros i. rewrite list_lookup_imap, list_lookup_fmap.
  by destruct (weights !! i).
Qed.
Lemma order_sorted : StronglySorted (not_after order_key) order.
Proof. apply sort_by_sorted, larger_remainder_key. Qed.

(** The remainders add up to the tokens left, in units of [sum]. *)
Lemma remainders_sum : total_of (remainder_of <$> weights) = sum * left_over.
Proof.
  unfold left_over. enough (total * sum = sum * total_of (share_of <$> weights) + total_of (remainder_of <$> weights)) by lia.
  rewrite <-(list_fmap_id weights) at 1. change (id <$> weights) with ((fun w : Z => w) <$> weights).
  rewrite <-(total_of_mul (fun w => w)), <-(total_of_mul share_of). clear Hweights.
  assert (forall ws : list Z, total_of ((fun w => total * w) <$> ws) =
    total_of ((fun w => sum * share_of w) <$> ws) + total_of (remainder_of <$> ws)) as H; [|apply H].
  induction ws as [|w ws IH]; [done|]. unfold total_of in *. cbn. unfold total_of in *. cbn in IH.
  pose proof (Z.div_mod (total * w) (foldr Z.add 0 weights)) as Hd. unfold share_of, remainder_of, total_of in *. lia.
Qed.

Lemma left_over_bounds : 0 <= left_over <= Z.of_nat (length weights).
Proof.
  pose proof remainders_sum as H.
  assert (0 <= total_of (remainder_of <$> weights)).
  { apply total_of_nonneg, Forall_fmap, Forall_true. intros w. apply remainder_bounds. }
  assert (total_of (remainder_of <$> weights) <= sum * Z.of_nat (length (remainder_of <$> weights))).
  { apply total_of_bound, Forall_fmap, Forall_true. intros w. pose proof (remainder_bounds w). cbn. lia. }
  rewrite length_fmap in *. nia.
Qed.

Definition rounded_up : list nat := (take (Z.to_nat left_over) order).*2.
Lemma rounded_up_entry i : i ∈ rounded_up -> exists w, weights !! i = Some w /\ (remainder_of w, i) ∈ take (Z.to_nat left_over) order.
Proof.
  unfold rounded_up. intros ([r j] & -> & Hin)%list_elem_of_fmap.
  assert ((r, j) ∈ order) as Ho by (eapply in_take; exact Hin).
  apply order_entry in Ho as (w & Hw & Hr). cbn in *. exists w. by rewrite <-Hr.
Qed.
(** A share rounded up has the larger remainder, or the same and comes first. *)
Lemma rounded_up_first i j wi wj :
  i ∈ rounded_up -> j ∉ rounded_up -> weights !! i = Some wi -> weights !! j = Some wj ->
  remainder_of wj < remainder_of wi \/ remainder_of wj = remainder_of wi /\ (i < j)%nat.
Proof.
  intros Hi Hj Hwi Hwj. apply rounded_up_entry in Hi as Hi'. destruct Hi' as (w & Hw & Hi'). simplify_eq.
  assert ((remainder_of wj, j) ∈ order) as Ho by (apply order_entry; eauto).
  rewrite <-(take_drop (Z.to_nat left_over) order), elem_of_app in Ho. destruct Ho as [Ho|Ho].
  { exfalso. apply Hj. unfold rounded_up. apply list_elem_of_fmap. by exists (remainder_of wj, j). }
  pose proof order_sorted as Hs. rewrite <-(take_drop (Z.to_nat left_over) order) in Hs.
  pose proof (StronglySorted_app_1_elem_of _ _ _ _ _ Hs Hi' Ho) as Hle. unfold not_after, order_key in Hle. cbn in Hle.
  rewrite rcmp_pair in Hle. unfold rcmp, Z_ord in Hle. assert (i <> j) by (intros ->; done).
  destruct (Z.compare_spec (- remainder_of wi) (- remainder_of wj)); [|lia|done].
  destruct (Z.compare_spec (Z.of_nat i) (Z.of_nat j)); [lia|lia|done].
Qed.
Lemma rounded_up_positive i w : i ∈ rounded_up -> weights !! i = Some w -> 0 < remainder_of w.
Proof.
  intros Hi Hw. pose proof (remainder_bounds w) as Hr. destruct (decide (remainder_of w = 0)) as [E|]; [exfalso|lia].
  assert (Forall (fun p => p.1 = 0) (drop (Z.to_nat left_over) order)) as Hdrop.
  { apply Forall_forall. intros [r j] Hj. cbn. assert ((r, j) ∈ order) as Ho.
    { rewrite <-(take_drop (Z.to_nat left_over) order). apply elem_of_app. by right. }
    apply order_entry in Ho as (wj & Hwj & Hrj). cbn in *. subst r.
    destruct (rounded_up_first i j w wj Hi) as [|[]]; [|done|done|pose proof (remainder_bounds wj); lia|lia].
    intros Hjn. pose proof (NoDup_fmap_2 id _ (NoDup_seq 0 (length weights))) as Hnd. rewrite list_fmap_id, <-order_indices in Hnd.
    rewrite <-(take_drop (Z.to_nat left_over) order), fmap_app, NoDup_app in Hnd. destruct Hnd as (_ & Hnd & _).
    apply (Hnd j); [done|]. apply list_elem_of_fmap. by exists (remainder_of wj, j). }
  pose proof remainders_sum as Hs. rewrite <-order_remainders in Hs. pose proof left_over_bounds.
  rewrite <-(take_drop (Z.to_nat left_over) order), fmap_app, total_of_app in Hs.
  assert (total_of (drop (Z.to_nat left_over) order).*1 = 0) as Hd.
  { clear -Hdrop. induction Hdrop as [|p l Hp _ IH]; [done|]. unfold total_of in *. cbn. lia. }
  apply rounded_up_entry in Hi as (w' & Hw' & Hin). simplify_eq.
  apply list_elem_of_split in Hin as (pre & post & Hpp). rewrite Hpp, fmap_app, fmap_cons, total_of_app in Hs.
  assert (Forall (fun r => r <= sum - 1) (pre.*1 ++ post.*1)) as Hb.
  { rewrite <-fmap_app, Forall_fmap. apply Forall_forall. intros [r j] Hj. cbn.
    assert ((r, j) ∈ order) as Ho.
    { apply (in_take (Z.to_nat left_over)). rewrite Hpp. set_solver. }
    apply order_entry in Ho as (wj & _ & Hrj). cbn in Hrj. subst. pose proof (remainder_bounds wj). lia. }
  apply total_of_bound in Hb. rewrite total_of_app, length_app, !length_fmap in Hb.
  pose proof (f_equal length Hpp) as Hlen. rewrite length_take, length_app in Hlen. cbn [length] in Hlen.
  unfold total_of in *. cbn [foldr fst] in *. nia.
Qed.

Lemma split_tokens_shares :
  let given := split_tokens total weights in
  length given = length weights /\ total_of given = total /\
  forall i, given !! i = (fun w => if decide (i ∈ rounded_up) then share_of w + 1 else share_of w) <$> weights !! i.
Proof.
  cbn zeta. unfold split_tokens. rewrite (proj2 (Z.eqb_neq _ _)) by lia.
  assert ((fun weight => wrap_u 64 (total * weight / sum)) <$> weights = share_of <$> weights) as ->.
  { apply list_fmap_ext. intros i w Hw. apply wrap_u_small. pose proof (share_bounds w (list_elem_of_lookup_2 _ _ _ Hw)).
    destruct Htotal. unfold share_of, uint in *. lia. }
  pose proof left_over_bounds as Hl. change (total - total_of (share_of <$> weights)) with left_over.
  change (imap _ weights) with remainders. change (sort_by larger_remainder remainders) with order.
  assert (left_over <= total) as Hlt.
  { unfold left_over. enough (0 <= total_of (share_of <$> weights)) by lia. apply total_of_nonneg, Forall_fmap, Forall_forall.
    intros w Hw. cbn. apply share_bounds in Hw. lia. }
  rewrite wrap_u_small by (destruct Htotal; unfold uint; lia).
  destruct (hand_out_spec order left_over (share_of <$> weights)) as (H1 & H2 & H3).
  - rewrite <-(length_fmap snd order), order_indices, length_seq. lia.
  - rewrite order_indices. apply NoDup_seq.
  - rewrite order_indices, length_fmap. apply Forall_forall. intros i Hi. apply elem_of_seq in Hi. lia.
  - apply Forall_fmap, Forall_forall. intros w Hw. cbn. by apply share_bounds in Hw as [? _].
  - unfold left_over. destruct Htotal. unfold uint in *. lia.
  - rewrite H1, H2, length_fmap. split_and!; [done|unfold left_over; lia|]. intros i. rewrite H3, list_lookup_fmap.
    by destruct (weights !! i).
Qed.
End Split.

(** C33: A total is split exactly.  One share per weight, adding up to the
    total; each is the proportional share rounded down or, for as many as it
    takes, rounded up, the largest remainders first and the earlier on ties; a
    share that is exact, as for a weight of zero, is never rounded up.  Without
    any weight the first share takes everything. *)
Theorem split_tokens_exact total weights :
  u64 total -> Forall u64 weights -> weights <> [] ->
  let given := split_tokens total weights in
  length given = length weights /\ total_of given = total /\
  (total_of weights = 0 -> head given = Some total) /\
  (0 < total_of weights ->
    let rounded_up i w g := weights !! i = Some w /\ given !! i = Some g /\ g = total * w / total_of weights + 1 in
    let rounded_down i w g := weights !! i = Some w /\ given !! i = Some g /\ g = total * w / total_of weights in
    let remainder w := total * w mod total_of weights in
    (forall i w, weights !! i = Some w -> exists g, rounded_up i w g \/ rounded_down i w g) /\
    (forall i w g, rounded_up i w g -> 0 < remainder w) /\
    (forall i j w w' g g', rounded_up i w g -> rounded_down j w' g' ->
      remainder w' < remainder w \/ remainder w' = remainder w /\ (i < j)%nat)).
Proof.
  intros Ht Hw Hne. destruct (decide (total_of weights = 0)) as [E|E].
  - unfold split_tokens. rewrite E. destruct weights as [|w ws]; [done|]. cbn. split_and!; [by rewrite length_fmap| |done|lia].
    unfold total_of. cbn. clear. induction ws; cbn in *; lia.
  - assert (0 < total_of weights) as Hs.
    { assert (0 <= total_of weights); [|lia]. apply total_of_nonneg. eapply Forall_impl; [exact Hw|]. by intros x []. }
    destruct (split_tokens_shares total weights Ht Hw Hs) as (H1 & H2 & H3). split_and!; [done..|]. intros _.
    assert (forall i w g, weights !! i = Some w -> split_tokens total weights !! i = Some g ->
      g = if decide (i ∈ rounded_up total weights) then share_of total weights w + 1 else share_of total weights w) as Hg.
    { intros i w g Hi Hgi. rewrite H3, Hi in Hgi. by injection Hgi as <-. }
    assert (forall i w g, weights !! i = Some w -> split_tokens total weights !! i = Some g ->
      g = share_of total weights w + 1 -> i ∈ rounded_up total weights) as Hup.
    { intros i w g Hi Hgi Hgw. pose proof (Hg i w g Hi Hgi). destruct (decide _); [done|lia]. }
    split_and!.
    + intros i w Hi. pose proof (H3 i) as Hgi. rewrite Hi in Hgi. cbn [fmap option_fmap option_map] in Hgi.
      destruct (decide (i ∈ rounded_up total weights)); eexists; [left|right]; by split_and!; [done|exact Hgi|].
    + intros i w g (Hi & Hgi & Hgw). by eapply rounded_up_positive; [..|eapply Hup|].
    + intros i j w w' g g' (Hi & Hgi & Hgw) (Hj & Hgj & Hgw').
      eapply rounded_up_first; [done..|by eapply Hup| |done|done].
      intros Hjn. pose proof (Hg j w' g' Hj Hgj) as H. rewrite decide_True in H by done. unfold share_of in H. lia.
Qed.
Lemma split_tokens_exact_witness :
  total_of (split_tokens 100 [720720; 360360; 360360; 0; 1]) = 100 /\
  split_tokens 100 [720720; 360360; 360360; 0; 1] = [50; 25; 25; 0; 0].
Proof.
  split; [|by vm_compute].
  refine (proj1 (proj2 (split_tokens_exact 100 [720720; 360360; 360360; 0; 1] _ _ _))); [done|by repeat constructor|done].
Defined.
