(* ===== verification/KindsV2.v ===== *)
(** Version 2 classification: the seven kinds and their parts
    (crates/ottto-service/src/composition_kinds/v2.rs), and the split of a
    call's output among its shares (composition_kinds/mod.rs, [codex_cell]).

    [Value] is serde_json's value with the constructors the source matches on;
    its numbers, its object type and their lookup, [pointer] and the parser are
    parameters.  [None] is the shell classifier or a search out of fuel, which
    [KindsProps] excludes. *)
From S2P Require Import Prelude.
From S2P Require Import Text.
From S2P Require Import Chars.
From S2P Require Import ShellPaths.
From S2P Require Import ShellEval.
From S2P Require Import ShellQuote.
From S2P Require Import Kinds.
Local Open Scope Z_scope.
#[local] Set Warnings "-register-all".

Definition count (part : Part) : Verdict := Count (default AutomaticAdditions (part_kind part)) part.
Definition request_one (ctx : LineCtx) : option Verdict :=
  match request_1 ctx with
  | RequestNo => None
  | StartMeasured => Some (Skip RequestOne)
  | StartUnmeasured => Some (count StartNotMeasured)
  end.
Definition prompt (ctx : LineCtx) (agent_written : bool) : Verdict :=
  if agent_written || bool_decide (author ctx = Agent) then count ByAgent else count ByYou.

(** ** Files *)
Definition INSTRUCTION_FILES : list string :=
  ["AGENTS.md"; "AGENTS.override.md"; "CLAUDE.md"; "CLAUDE.local.md"; "GEMINI.md"].
Definition is_memory_file (path : str) : bool :=
  let markdown := ends_with ".md" (to_ascii_lowercase path) in
  is_memory_path path && (markdown || contains "AutoMem/" path || contains "AutoMem\" path).
Definition read_part (path : str) (default_part : Part) : Part :=
  let basename := last_piece is_separator path in
  if str_eqb "SKILL.md" basename then SkillFile
  else if is_memory_file path then MemoryFile
  else if one_of INSTRUCTION_FILES basename then InstructionsLater
  else default_part.
Definition read_share (path : option str) (default_part : Part) (w : Z) : CallShare :=
  mkShare FilesRead (match path with Some path => read_part path default_part | None => default_part end) w path None.
Definition share (part : Part) (w : Z) : CallShare := mkShare (default OtherTools (part_kind part)) part w None None.
Definition server_tool (server tool : str) : ToolKey := server ++ lit "/" ++ tool.
Definition server_share (server tool : str) (part : Part) : CallShare :=
  mkShare (share_kind (share part 1)) part 1 None (Some (server_tool server tool)).

Definition SEGMENT_WEIGHT : Z := 720720.
Definition class_part (class : ShellClass) : Part :=
  match class with
  | ReadClass => ShellRead
  | GitClass => Git
  | SearchClass => Search
  | TestsBuildsClass => TestsBuilds
  | OtherClass => OtherCommands
  end.
Definition segment_shares (segment : ShellSegment) : list CallShare :=
  match seg_class segment with
  | ReadClass =>
      let files := Z.max 1 (Z.min 16 (Z.of_nat (length (seg_paths segment)))) in
      let w := SEGMENT_WEIGHT / files in
      match seg_paths segment with
      | [] => [read_share None ShellRead w]
      | paths => (fun path => read_share (Some path) ShellRead w) <$> take 16 paths
      end
  | class => [share (class_part class) SEGMENT_WEIGHT]
  end.
Definition shell_shares (segments : list ShellSegment) : list CallShare :=
  match segments with
  | [] => [share OtherCommands 1]
  | _ => segments ≫= segment_shares
  end.

(** ** Add-on servers *)
Definition BROWSER_SERVERS : list string :=
  ["claude_browser"; "claude_in_chrome"; "control_chrome"; "claude_preview"; "puppeteer"; "browser_use"; "browsermcp"].
Definition BROWSER_SERVER_WORDS : list string := ["chrome_devtools"; "playwright"].
Definition COMPUTER_SERVERS : list string := ["computer_use"; "cua_repl"; "remote_devices"].
(** [server.to_ascii_lowercase().replace('-', "_")]. *)
Definition server_name (server : str) : str := (fun ch => if ch =? 45 then 95 else ch) <$> to_ascii_lowercase server.
Definition server_part (server tool : str) : Part :=
  let server := server_name server in
  if existsb (fun name : string => ends_with name server) COMPUTER_SERVERS then
    let tool := to_ascii_lowercase tool in
    if contains "screenshot" tool || contains "zoom" tool then Screenshots else AppControl
  else if existsb (fun name : string => ends_with name server) BROWSER_SERVERS
          || existsb (fun word : string => contains word server) BROWSER_SERVER_WORDS then Browser
  else if str_eqb "codex_app" server then AgentReports
  else Addon.
Definition server_call (server tool : str) : CallClass :=
  from_shares (server_tool server tool) [server_share server tool (server_part server tool)].
Definition split_mcp_name (name : str) : option (str * str) :=
  try? rest := strip_prefix "mcp__" name in Some (default (rest, []) (split_once "__" rest)).

(** ** Tables *)
Definition CLAUDE_ATTACHMENT_PARTS : list (string * Part) := [
  ("nested_memory", InstructionsLater); ("invoked_skills", InstructionsReloaded);
  ("deferred_tools_delta", ToolDescriptionsLater); ("skill_listing", ListsUpdated);
  ("agent_listing_delta", ListsUpdated); ("mcp_instructions_delta", ListsUpdated);
  ("skill_mention", ListsUpdated); ("total_tokens_reminder", Reminders);
  ("silent_turn_reminder", Reminders); ("task_reminder", Reminders); ("todo_reminder", Reminders);
  ("batching_reminder_sent", Reminders); ("critical_system_reminder", Reminders);
  ("auto_mode", Reminders); ("auto_mode_exit", Reminders); ("plan_mode", Reminders);
  ("plan_mode_exit", Reminders); ("plan_mode_reentry", Reminders); ("ultra_effort_enter", Reminders);
  ("ultra_effort_exit", Reminders); ("environment", Environment); ("session_context", Environment);
  ("model", Environment); ("date", Environment); ("date_change", Environment);
  ("remote_session_change", Environment); ("credential_org", Environment);
  ("command_permissions", Environment); ("hook_additional_context", HookOutput);
  ("hook_blocking_error", HookOutput); ("hook_non_blocking_error", HookOutput);
  ("hook_success", HookOutput); ("hook_cancelled", HookOutput); ("async_hook_response", HookOutput);
  ("file", FilesMentioned); ("compact_file_reference", FilesMentioned);
  ("already_read_file", FilesMentioned); ("directory", FilesMentioned); ("pdf_reference", FilesMentioned);
  ("selected_lines_in_ide", FilesMentioned); ("opened_file_in_ide", FilesMentioned);
  ("inlined_image_paths", FilesMentioned); ("edited_text_file", FilesChanged);
  ("edited_image_file", FilesChanged); ("task_status", BackgroundReports)].
Definition CODEX_INJECTED_PREFIXES : list (string * Part) := [
  ("# AGENTS.md instructions", InstructionsReloaded); ("<user_instructions>", InstructionsReloaded);
  ("<environment_context>", Environment); ("<skills_instructions>", ListsUpdated);
  ("<plugins_instructions>", ListsUpdated); ("<recommended_plugins>", ListsUpdated); ("<heartbeat", Other)].
Definition CLAUDE_SDK_ENTRYPOINTS : list string := ["sdk-cli"; "sdk-ts"; "sdk-py"].
Definition CODEX_AGENT_NAMESPACES : list string := ["collaboration"; "codex_app"].
Definition CODEX_AGENT_TOOLS : list string := [
  "spawn_agent"; "send_input"; "wait_agent"; "close_agent"; "list_agents"; "resume_agent";
  "followup_task"; "interrupt_agent"; "send_message"].
Definition CODEX_COMMAND_POLLS : list string := ["write_stdin"; "wait"; "read_stdout"; "kill"; "kill_command"].
Definition CODEX_SHELLS : list string :=
  ["shell"; "local_shell"; "shell_command"; "container.exec"; "run_command"; "bash"].
Definition CODEX_WEB_TOOLS : list string :=
  ["web_search"; "web.search"; "web.run"; "search_query"; "image_query"; "web_fetch"; "fetch"].
Definition CODEX_FILE_TOOLS : list string := ["view_image"; "read_file"; "view"; "read"].

(** ** Lines without JSON *)
Record ClaudeAttachment := mkAttachment {
  att_type : str; att_filename : option str; att_file_type : option str; att_has_rendered : bool }.
Definition attachment_v2 (ctx : LineCtx) (att : ClaudeAttachment) : Verdict :=
  if str_eqb "prompt_snapshot" (att_type att) then Skip PromptSnapshot
  else if str_eqb "deferred_tools_record" (att_type att) then Skip DeferredToolsRecord
  else if bool_decide (request_1 ctx = StartMeasured) then Skip RequestOne
  else if file_has_rendered ctx && negb (att_has_rendered att) then Skip Unrendered
  else match request_one ctx with
  | Some verdict => verdict
  | None =>
      if str_eqb "instructions" (att_type att) then
        match att_file_type att with
        | Some kind => if str_eqb "AutoMem" kind then count MemoryReloaded else count InstructionsReloaded
        | None => count InstructionsReloaded
        end
      else if str_eqb "queued_command" (att_type att) then
        match att_file_type att with
        | Some mode => if str_eqb "task-notification" mode then count BackgroundReports else prompt ctx false
        | None => prompt ctx false
        end
      else count (default Other (snd <$> find (fun known => str_eqb (lit known.1) (att_type att)) CLAUDE_ATTACHMENT_PARTS))
  end.
Definition image_v2 (ctx : LineCtx) (call : option CallClass) : Verdict :=
  match call with
  | Some call =>
      match call_kind call with
      | ComputerUse => count Screenshots
      | WebAndBrowser => count Browser
      | kind => Count kind (call_part call)
      end
  | None => default (prompt ctx false) (request_one ctx)
  end.
Definition codex_event_v2 (ctx : LineCtx) (event_type : str) : Verdict :=
  if str_eqb "web_search_end" event_type then count Web
  else if str_eqb "compacted" event_type then default (count CompactionSummary) (request_one ctx)
  else Skip NotMeasured.
Definition codex_label_part (ctx : LineCtx) (label : str) : Verdict :=
  let family := default label (head (split (Z.eqb 46) label)) in
  if str_eqb "user.heartbeat" label then count Other
  else if str_eqb "user" family then prompt ctx false
  else if str_eqb "tools" family then count ToolDescriptionsLater
  else if one_of ["host_skills"; "plugins"; "apps"] family then count ListsUpdated
  else if str_eqb "agents_md" family then count InstructionsReloaded
  else if str_eqb "hooks" family then count HookOutput
  else if contains "environment_context" label || contains "client_time_context" label then count Environment
  else count Other.
Inductive ContentLabel := Absent | Present (label : option str).
Definition codex_message_v2 (ctx : LineCtx) (role : str) (label : ContentLabel) (text : str) : Verdict :=
  if negb (one_of ["developer"; "user"] role) then Skip NotMeasured else
  match request_one ctx with
  | Some verdict => verdict
  | None =>
      match label with
      | Present (Some label) => codex_label_part ctx label
      | _ =>
          let head := trim_start text in
          match find (fun known => starts_with (lit known.1) head) CODEX_INJECTED_PREFIXES with
          | Some (_, part) => count part
          | None => if str_eqb "developer" role then count Other else prompt ctx false
          end
      end
  end.

(** ** Code cells *)
Definition MAX_FALLBACK_SCAN : Z := 65536.
(** The longest prefix of at most [limit] bytes that ends between characters. *)
Fixpoint byte_prefix (limit : Z) (s : str) : str :=
  match s with
  | [] => []
  | ch :: s => if len_utf8 ch <=? limit then ch :: byte_prefix (limit - len_utf8 ch) s else []
  end.

(** The first [tools.<name>(] not part of a longer path: its name and the text
    after the bracket. *)
Fixpoint first_tool_call_loop (fuel : nat) (rest : str) : option (option (str * str)) :=
  match fuel with
  | O => None
  | S fuel =>
      match split_at_first "tools." rest with
      | None => Some None
      | Some (before, after) =>
          let '(name, following) := span is_ident after in
          let preceded_by_ident := match last before with Some ch => is_ident ch || (ch =? 46) | None => false end in
          match (if negb (is_empty name) && negb preceded_by_ident then strip_prefix "(" (trim_start following) else None) with
          | Some args => Some (Some (name, args))
          | None => first_tool_call_loop fuel following
          end
      end
  end.
Definition first_tool_call (code : str) : option (option (str * str)) := first_tool_call_loop (S (length code)) code.

(** The text of a JavaScript string up to its closing quote. *)
Fixpoint js_text (quote : Z) (s : str) : option str :=
  match s with
  | [] => None
  | ch :: s =>
      if ch =? 92 then
        match s with
        | [] => None
        | next :: s =>
            let next := if next =? 110 then 10 else if next =? 116 then 9 else next in
            try? text := js_text quote s in Some (next :: text)
        end
      else if (ch =? 36) && (quote =? 96) && starts_with "{" s then None
      else if ch =? quote then Some []
      else try? text := js_text quote s in Some (ch :: text)
  end.
Fixpoint js_string_field_loop (fuel : nat) (key rest : str) : option (option str) :=
  match fuel with
  | O => None
  | S fuel =>
      match split_at_first key rest with
      | None => Some None
      | Some (before, rest) =>
          if (match last before with Some ch => is_ident ch | None => false end) then js_string_field_loop fuel key rest
          else match strip_prefix ":" (trim_start (trim_start_matches (among [34; 39]) rest)) with
          | None => js_string_field_loop fuel key rest
          | Some value =>
              match trim_start value with
              | quote :: value => Some (if among [34; 39; 96] quote then js_text quote value else None)
              | [] => Some None
              end
          end
      end
  end.
Definition js_string_field (args key : str) : option (option str) := js_string_field_loop (S (length args)) key args.

(** ** Calls *)
Definition shell_call (command : str) (cwd : option Path) : option (list CallShare) :=
  shell_shares <$> classify_shell command cwd.
(** [workdir.or(cwd)]. *)
Definition path_or (workdir : option str) (cwd : option Path) : option Path :=
  match workdir with Some workdir => Some (Utf8Path workdir) | None => cwd end.

Section Json.
Context {Number Object : Type}.
Inductive Value :=
  | VNull
  | VBool (b : bool)
  | VNumber (n : Number)
  | VString (s : str)
  | VArray (values : list Value)
  | VObject (o : Object).
Context (object_get : Object -> str -> option Value) (pointer : Value -> str -> option Value) (from_str : str -> option Value).

Definition get (v : Value) (key : str) : option Value := match v with VObject o => object_get o key | _ => None end.
Definition as_str (v : Value) : option str := match v with VString s => Some s | _ => None end.
Definition text_of (v : Value) (key : str) : option str := try? v := get v key in as_str v.

Definition command_words_script (words : list Value) : str := words_script (omap as_str words).

Definition truthy (line : Value) (key : str) : bool :=
  match get line key with
  | Some (VBool value) => value
  | Some VNull | None => false
  | Some (VString value) => negb (is_empty value)
  | Some _ => true
  end.
Definition user_text_head (line : Value) : option str :=
  match pointer line "/message/content" with
  | Some (VString text) => Some text
  | Some (VArray blocks) =>
      head (omap (fun block =>
        match text_of block "type" with
        | Some kind => if str_eqb "text" kind then text_of block "text" else None
        | None => None
        end) blocks)
  | _ => None
  end.
Definition user_text_v2 (ctx : LineCtx) (line : Value) : Verdict :=
  match user_text_head line with
  | None => Skip NotMeasured
  | Some text =>
      match request_one ctx with
      | Some verdict => verdict
      | None =>
          if truthy line "isCompactSummary" then count CompactionSummary else
          let text := trim_start text in
          if starts_with "<task-notification>" text then count BackgroundReports
          else if truthy line "isMeta" then
            if starts_with "Base directory for this skill:" text then count SkillFile else count Other
          else if starts_with "<system-reminder>" text then count Reminders
          else if starts_with "<local-command-stdout>" text || starts_with "<local-command-stderr>" text then count Other
          else
            let agent_written := truthy line "isSidechain"
              || match text_of line "entrypoint" with Some e => one_of CLAUDE_SDK_ENTRYPOINTS e | None => false end in
            prompt ctx agent_written
      end
  end.

Definition claude_tool_v2 (ctx : LineCtx) (name : str) (input : Value) : option CallClass :=
  match split_mcp_name name with
  | Some (server, tool) => Some (server_call server tool)
  | None =>
      try? given :=
        if str_eqb "Bash" name then shell_call (default [] (text_of input "command")) (ctx_cwd ctx)
        else if one_of ["Read"; "NotebookRead"] name then
          let path := try? path := text_of input "file_path" in join_to (ctx_cwd ctx) path in
          Some [read_share path FileTool 1]
        else Some [share
          (if str_eqb "Skill" name then SkillFile
           else if one_of ["Grep"; "Glob"; "LS"] name then Search
           else if str_eqb "BashOutput" name then OtherCommands
           else if one_of ["Task"; "Agent"; "SendMessage"; "ListAgents"; "SubagentHandback"] name then AgentReports
           else if str_eqb "TaskOutput" name then BackgroundReports
           else if one_of ["WebFetch"; "WebSearch"] name then Web
           else BuiltInOther) 1] in
      Some (from_shares name given)
  end.

Definition codex_shell_call (input : str) (cwd : option Path) : option (list CallShare) :=
  let arguments := from_str input in
  let workdir := try? arguments := arguments in text_of arguments "workdir" in
  let given := try? arguments := arguments in
               match get arguments "cmd" with Some v => Some v | None => get arguments "command" end in
  let command := match given with
                 | Some (VString command) => command
                 | Some (VArray words) => command_words_script words
                 | Some _ => []
                 | None => match arguments with Some _ => [] | None => input end
                 end in
  shell_call command (path_or workdir cwd).
Definition codex_file_call (input : str) (cwd : option Path) : list CallShare :=
  let arguments := from_str input in
  let workdir := try? arguments := arguments in text_of arguments "workdir" in
  let path := try? arguments := arguments in
              try? path := match get arguments "path" with Some v => Some v | None => get arguments "file_path" end in
              try? path := as_str path in
              join_to (path_or workdir cwd) path in
  [read_share path FileTool 1].

(** A code cell's first tool call decides; [function] is [codex_function]. *)
Definition codex_code_cell (function : str -> str -> option Path -> Z -> option (list CallShare))
    (input : str) (cwd : option Path) : option (list CallShare) :=
  try? found := first_tool_call (byte_prefix MAX_FALLBACK_SCAN input) in
  match found with
  | None => Some [share BuiltInOther 1]
  | Some (name, args) =>
      if str_eqb "exec_command" name then
        try? command := js_string_field args "cmd" in
        match command with
        | Some command => try? workdir := js_string_field args "workdir" in shell_call command (path_or workdir cwd)
        | None => Some [share OtherCommands 1]
        end
      else function name [] cwd 1
  end.
(** A function by name; at depth zero [exec] is a code cell. *)
Fixpoint codex_function (fuel : nat) (name input : str) (cwd : option Path) (depth : Z) : option (list CallShare) :=
  match fuel with
  | O => None
  | S fuel =>
      let '(namespace, base) := default ([], name) (split_once "/" name) in
      match strip_prefix "mcp__" namespace with
      | Some server => Some [server_share server base (server_part server base)]
      | None =>
      match split_mcp_name base with
      | Some (server, tool) => Some [server_share server tool (server_part server tool)]
      | None =>
      if one_of CODEX_AGENT_NAMESPACES namespace then Some [share AgentReports 1] else
      match split_once "__" base with
      | Some (server, tool) =>
          let part := if one_of CODEX_AGENT_NAMESPACES server then AgentReports
                      else if one_of ["clock"; "tool_search"] server then BuiltInOther
                      else server_part server tool in
          Some [server_share server tool part]
      | None =>
      if is_empty namespace && str_eqb "exec" base && (depth =? 0) then codex_code_cell (codex_function fuel) input cwd
      else if str_eqb "exec_command" base || one_of CODEX_SHELLS base then codex_shell_call input cwd
      else if one_of CODEX_COMMAND_POLLS base then Some [share OtherCommands 1]
      else if one_of CODEX_WEB_TOOLS base then Some [share Web 1]
      else if one_of CODEX_FILE_TOOLS base then Some (codex_file_call input cwd)
      else if one_of CODEX_AGENT_TOOLS base then Some [share AgentReports 1]
      else Some [share BuiltInOther 1]
      end end end
  end.
Definition CELL_FUEL : nat := 2.
Definition codex_call_v2 (ctx : LineCtx) (name : option str) (input : str) : option CallClass :=
  match name with
  | None => Some (from_shares [] [share BuiltInOther 1])
  | Some name => from_shares name <$> codex_function CELL_FUEL name input (ctx_cwd ctx) 0
  end.
Definition invocation_field (invocation : option Value) (key : str) : str :=
  default [] (try? invocation := invocation in text_of invocation key).
Definition codex_mcp_v2 (invocation : option Value) : CallClass :=
  server_call (invocation_field invocation "server") (invocation_field invocation "tool").

(** ** Inner items *)
Record ParsedCommand := mkParsed { parsed_kind : str; parsed_path : option str }.
Inductive InnerItem :=
  | Command (cwd : option str) (command : str) (parsed : list ParsedCommand) (output_chars : Z)
  | Mcp (server tool : str) (output_chars : Z)
  | Extension (name : str) (output_chars : Z)
  | WebSearch (output_chars : Z).
Definition output_chars (item : InnerItem) : Z :=
  match item with
  | Command _ _ _ chars | Mcp _ _ chars | Extension _ chars | WebSearch chars => chars
  end.
Definition item_shares (item : InnerItem) : option (list CallShare) :=
  match item with
  | Command cwd command parsed _ =>
      let cwd := (fun cwd => Utf8Path (default cwd (strip_prefix "file://" cwd))) <$> cwd in
      let known := negb (match parsed with [] => true | _ => false end)
                   && forallb (fun entry => one_of ["read"; "search"; "list_files"] (parsed_kind entry)) parsed in
      if negb known then shell_call command cwd
      else Some ((fun entry =>
        if str_eqb "read" (parsed_kind entry) then
          read_share (try? path := parsed_path entry in join_to cwd path) ShellRead 1
        else share Search 1) <$> parsed)
  | Mcp server tool _ => Some [server_share server tool (server_part server tool)]
  | Extension name _ => codex_function CELL_FUEL name [] None 1
  | WebSearch _ => Some [share Web 1]
  end.

(** ** The cells of a call's output *)
Record CellShare := mkCell { cell_kind : Kind; cell_part : Part; tokens : Z; cell_file : option str; cell_tool : option ToolKey }.
Definition cell_key (c : CellShare) : Kind * Part * option str * option str :=
  (cell_kind c, cell_part c, cell_file c, cell_tool c).
Fixpoint add_cell (cells : list CellShare) (s : CallShare) (amount : Z) : list CellShare :=
  match cells with
  | [] => [mkCell (share_kind s) (share_part s) amount (share_file s) (share_tool s)]
  | cell :: cells =>
      if decide (cell_key cell = share_key s) then
        mkCell (cell_kind cell) (cell_part cell) (wrap_u 64 (tokens cell + amount)) (cell_file cell) (cell_tool cell) :: cells
      else cell :: add_cell cells s amount
  end.
Definition add_shares (cells : list CellShare) (given : list CallShare) (amount : Z) : list CellShare :=
  foldl (fun cells '(s, amount) => add_cell cells s amount) cells
    (zip given (split_tokens amount (weight <$> given))).
Fixpoint add_items (cells : list CellShare) (items : list (InnerItem * Z)) : option (list CellShare) :=
  match items with
  | [] => Some cells
  | (item, amount) :: items => try? given := item_shares item in add_items (add_shares cells given amount) items
  end.
Definition codex_cell (call : CallClass) (items : list InnerItem) (output_tokens : Z) : option (list CellShare) :=
  if decide (call_part call = Unsplit) then
    Some [mkCell (call_kind call) (call_part call) output_tokens (call_file call) None]
  else
    try? cells :=
      match items with
      | [] => Some (add_shares [] (share_list call) output_tokens)
      | _ =>
          let lengths := output_chars <$> items in
          let weights := if forallb (Z.eqb 0) lengths then (fun _ => 1) <$> items else lengths in
          add_items [] (zip items (split_tokens output_tokens weights))
      end in
    Some (if existsb (fun cell => 0 <? tokens cell) cells then filter (fun cell => 0 < tokens cell) cells
          else take 1 cells).
End Json.
Arguments Value : clear implicits.
