(* ===== verification/KindsProps.v ===== *)
(** What the composition kinds guarantee: every call is classified, a shell
    command's output is shared out evenly, and the cells of an output add up to
    it exactly (crates/ottto-service/src/composition_kinds). *)
From S2P Require Import Prelude.
From S2P Require Import Text.
From S2P Require Import Chars.
From S2P Require Import Std.
From S2P Require Import ShellPaths.
From S2P Require Import ShellEval.
From S2P Require Import ShellProps.
From S2P Require Import Kinds.
From S2P Require Import KindsV2.
Local Open Scope Z_scope.

(** ** Well-formed shares *)
(** The kind of a share is its part's, and its weight a positive [u32]. *)
Record ShareOk (s : CallShare) : Prop := {
  share_kind_ok : part_kind (share_part s) = Some (share_kind s);
  share_weight_ok : 0 < weight s < 2 ^ 32;
}.
Definition SharesOk (given : list CallShare) : Prop := given <> [] /\ Forall ShareOk given.

Lemma share_ok part w : part <> Unsplit -> 0 < w < 2 ^ 32 -> ShareOk (share part w).
Proof. intros Hp Hw. split; [|done]. by destruct part. Qed.
Lemma server_share_ok server tool part : part <> Unsplit -> ShareOk (server_share server tool part).
Proof. intros Hp. split; [by destruct part|done]. Qed.
Lemma server_part_split server tool : server_part server tool <> Unsplit.
Proof. unfold server_part. by repeat (destruct (existsb _ _) || destruct (_ || _) || destruct (str_eqb _ _)). Qed.
Lemma read_part_kind path part : part_kind part = Some FilesRead -> part_kind (read_part path part) = Some FilesRead.
Proof. intros H. unfold read_part. repeat destruct (str_eqb _ _); repeat destruct (is_memory_file _); by repeat destruct (one_of _ _). Qed.
Lemma read_share_ok path part w : part_kind part = Some FilesRead -> 0 < w < 2 ^ 32 -> ShareOk (read_share path part w).
Proof. intros Hp Hw. split; [|done]. destruct path; cbn; [by apply read_part_kind|done]. Qed.
Lemma one_share_ok s : ShareOk s -> SharesOk [s].
Proof. intros H. split; [done|by constructor]. Qed.

(** *** A read's weight divides evenly among its files *)
Lemma segment_weight_divides n : (1 <= n <= 16)%nat -> SEGMENT_WEIGHT / Z.of_nat n * Z.of_nat n = SEGMENT_WEIGHT.
Proof. intros H. do 17 (destruct n as [|n]; [by (lia || vm_compute)|]). lia. Qed.
Lemma segment_weight_bounds n : (1 <= n <= 16)%nat -> 0 < SEGMENT_WEIGHT / Z.of_nat n < 2 ^ 32.
Proof. intros H. do 17 (destruct n as [|n]; [by (lia || vm_compute)|]). lia. Qed.

(** The weight every share of a segment has. *)
Definition file_weight (segment : ShellSegment) : Z :=
  SEGMENT_WEIGHT / Z.of_nat (Nat.max 1 (length (seg_paths segment))).
Lemma segment_shares_spec segment :
  SegmentOk segment ->
  Forall (fun s => ShareOk s /\ weight s = file_weight segment) (segment_shares segment) /\
  length (segment_shares segment) = Nat.max 1 (length (seg_paths segment)).
Proof.
  intros [Hreads Hb _]. unfold segment_shares, file_weight. unfold MAX_SHELL_PATH_TOKENS in Hb.
  assert (forall part, part <> Unsplit -> Forall (fun s => ShareOk s /\ weight s = SEGMENT_WEIGHT / Z.of_nat 1) [share part SEGMENT_WEIGHT]) as Hone.
  { intros part Hp. constructor; [|done]. split; [by apply share_ok|done]. }
  destruct (seg_class segment); [|rewrite Hreads by done; split; [by apply Hone|done]..].
  pose proof (segment_weight_bounds (Nat.max 1 (length (seg_paths segment))) ltac:(lia)) as Hw.
  replace (Z.max 1 (Z.min 16 (Z.of_nat (length (seg_paths segment))))) with
    (Z.of_nat (Nat.max 1 (length (seg_paths segment)))) by lia.
  destruct (seg_paths segment) as [|p ps] eqn:E.
  - split; [|done]. constructor; [|done]. split; [by apply read_share_ok|done].
  - rewrite firstn_all2 by lia. split; [|rewrite length_fmap; cbn; lia]. apply Forall_fmap, Forall_true. intros path. cbn beta.
    split; [by apply read_share_ok|done].
Qed.
Lemma segment_shares_ok segment : SegmentOk segment -> SharesOk (segment_shares segment).
Proof.
  intros H. destruct (segment_shares_spec segment H) as [Hf Hl]. split.
  - intros E. rewrite E in Hl. cbn in Hl. lia.
  - eapply Forall_impl; [exact Hf|]. naive_solver.
Qed.
Lemma shell_shares_ok segments : Forall SegmentOk segments -> SharesOk (shell_shares segments).
Proof.
  intros H. destruct H as [|s segments Hs Hss]; [by apply one_share_ok, share_ok|].
  unfold shell_shares. cbn [mbind list_bind]. destruct (segment_shares_ok s Hs) as [Hn Hf]. split.
  - by destruct (segment_shares s).
  - apply Forall_app. split; [done|]. induction Hss as [|t segments Ht _ IH]; cbn [mbind list_bind]; [done|].
    apply Forall_app. split; [by apply segment_shares_ok|done].
Qed.
Lemma shell_call_ok command cwd : exists given, shell_call command cwd = Some given /\ SharesOk given.
Proof.
  unfold shell_call. destruct (classify_ok command cwd) as (segments & -> & Hs & _). eexists. split; [done|].
  by apply shell_shares_ok.
Qed.

(** ** Every call is classified *)
Lemma span_rest_length (m : Z -> bool) s : (length (span m s).2 <= length s)%nat.
Proof. rewrite <-(span_app m s) at 2. rewrite length_app. lia. Qed.
Lemma first_tool_call_total code : exists found, first_tool_call code = Some found.
Proof.
  unfold first_tool_call. assert (forall fuel rest, (length rest < fuel)%nat -> exists found, first_tool_call_loop fuel rest = Some found) as H.
  { induction fuel as [|fuel IH]; intros rest Hf; [lia|]. cbn [first_tool_call_loop].
    destruct (split_at_first _ rest) as [[before after]|] eqn:E; [|by eexists].
    apply split_at_first_Some in E. pose proof (span_rest_length is_ident after). destruct (span is_ident after) as [name following].
    match goal with |- context [match ?m with Some args => _ | None => _ end] => destruct m end; [by eexists|].
    apply IH. subst. rewrite !length_app in Hf. change (length (lit "tools.")) with 6%nat in Hf. cbn in *. lia. }
  apply H. lia.
Qed.
Lemma js_string_field_total args key : key <> [] -> exists value, js_string_field args key = Some value.
Proof.
  intros Hk. unfold js_string_field.
  assert (forall fuel rest, (length rest < fuel)%nat -> exists value, js_string_field_loop fuel key rest = Some value) as H.
  { induction fuel as [|fuel IH]; intros rest Hf; [lia|]. cbn [js_string_field_loop].
    destruct (split_at_first key rest) as [[before after]|] eqn:E; [|by eexists]. apply split_at_first_Some in E.
    assert (length after < fuel)%nat as Hl.
    { subst. rewrite !length_app in Hf. destruct key; [done|]. cbn in Hf. lia. }
    destruct (match last before with Some ch => is_ident ch | None => false end); [by apply IH|].
    destruct (strip_prefix _ _) as [value|]; [|by apply IH]. destruct (trim_start value); by eexists. }
  apply H. lia.
Qed.

Section Calls.
Context {Number Object : Type}.
Abbreviation Json := (Value Number Object).
Context (object_get : Object -> str -> option Json) (pointer : Json -> str -> option Json) (from_str : str -> option Json).

Lemma codex_shell_call_ok input cwd :
  exists given, codex_shell_call object_get from_str input cwd = Some given /\ SharesOk given.
Proof. unfold codex_shell_call. apply shell_call_ok. Qed.
(** One level of fuel is enough below a code cell, two above it. *)
Lemma codex_function_ok fuel name input cwd depth :
  (0 < fuel)%nat -> (depth = 0 -> (1 < fuel)%nat) ->
  exists given, codex_function object_get from_str fuel name input cwd depth = Some given /\ SharesOk given.
Proof.
  revert name input cwd depth. induction fuel as [|fuel IH]; intros name input cwd depth Hf Hd; [lia|]. cbn [codex_function].
  assert (forall part, part <> Unsplit -> exists given, Some [share part 1] = Some given /\ SharesOk given) as Hone.
  { intros part Hp. eexists. split; [done|]. by apply one_share_ok, share_ok. }
  assert (forall server tool part, part <> Unsplit -> exists given, Some [server_share server tool part] = Some given /\ SharesOk given) as Hserver.
  { intros server tool part Hp. eexists. split; [done|]. by apply one_share_ok, server_share_ok. }
  destruct (default ([], name) (split_once "/" name)) as [namespace base].
  destruct (strip_prefix "mcp__" namespace); [apply Hserver, server_part_split|].
  destruct (split_mcp_name base) as [[server tool]|]; [apply Hserver, server_part_split|].
  destruct (one_of CODEX_AGENT_NAMESPACES namespace); [by apply Hone|].
  destruct (split_once "__" base) as [[server tool]|].
  { apply Hserver. destruct (one_of _ server); [done|]. destruct (one_of _ server); [done|]. apply server_part_split. }
  destruct (is_empty namespace && str_eqb "exec" base && (depth =? 0)) eqn:Ecell.
  { apply andb_prop in Ecell as [_ Hd0]. zbool. unfold codex_code_cell. destruct (first_tool_call_total (byte_prefix MAX_FALLBACK_SCAN input)) as [found ->].
    destruct found as [[tool args]|]; [|by apply Hone]. destruct (str_eqb "exec_command" tool).
    - destruct (js_string_field_total args "cmd") as [command ->]; [done|]. destruct command; [|by apply Hone].
      destruct (js_string_field_total args "workdir") as [workdir ->]; [done|]. apply shell_call_ok.
    - apply IH; [|done]. specialize (Hd Hd0). lia. }
  destruct (str_eqb "exec_command" base || one_of CODEX_SHELLS base); [apply codex_shell_call_ok|].
  destruct (one_of CODEX_COMMAND_POLLS base); [by apply Hone|]. destruct (one_of CODEX_WEB_TOOLS base); [by apply Hone|].
  destruct (one_of CODEX_FILE_TOOLS base).
  { eexists. split; [done|]. unfold codex_file_call. by apply one_share_ok, read_share_ok. }
  destruct (one_of CODEX_AGENT_TOOLS base); by apply Hone.
Qed.

Lemma item_shares_ok item : exists given, item_shares object_get from_str item = Some given /\ SharesOk given.
Proof.
  destruct item as [cwd command parsed chars|server tool chars|name chars|chars]; cbn [item_shares].
  - destruct (negb (negb _ && _)) eqn:E; [apply shell_call_ok|]. eexists. split; [done|].
    apply negb_false_iff, andb_prop in E as [Hne _]. split; [by destruct parsed|]. apply Forall_fmap, Forall_true. intros entry.
    unfold compose. cbn beta. destruct (str_eqb "read" (parsed_kind entry)); [by apply read_share_ok|by apply share_ok].
  - eexists. split; [done|]. apply one_share_ok, server_share_ok, server_part_split.
  - apply codex_function_ok; [by unfold CELL_FUEL; lia|done].
  - eexists. split; [done|]. by apply one_share_ok, share_ok.
Qed.
End Calls.

(** ** Merging shares *)
Definition total_weight (given : list CallShare) : Z := total_of (weight <$> given).
Definition weight_of (key : Kind * Part * option str * option str) (given : list CallShare) : Z :=
  total_of ((fun s => if decide (share_key s = key) then weight s else 0) <$> given).

Lemma total_weight_cons s given : total_weight (s :: given) = weight s + total_weight given.
Proof. done. Qed.
Lemma weight_of_cons key s given :
  weight_of key (s :: given) = (if decide (share_key s = key) then weight s else 0) + weight_of key given.
Proof. done. Qed.
Lemma merge_share_ok merged s : Forall ShareOk merged -> ShareOk s -> Forall ShareOk (merge_share merged s) /\ merge_share merged s <> [].
Proof.
  intros Hm Hs. induction Hm as [|known merged Hk Hm [IH _]]; cbn [merge_share]; [by split; [constructor|]|].
  destruct (decide _); [|by split; [constructor|]]. split; [|done]. constructor; [|done]. destruct Hk, Hs. split; [done|].
  cbn. unfold saturating_add, umax. lia.
Qed.
Lemma merged_ok given : SharesOk given -> SharesOk (foldl merge_share [] given).
Proof.
  intros [Hne Hg]. enough (forall merged, Forall ShareOk merged -> (given = [] -> merged <> []) -> SharesOk (foldl merge_share merged given)) as H.
  { by apply H. }
  clear Hne. induction Hg as [|s given Hs _ IH]; intros merged Hm Hne; cbn [foldl]; [split; [by apply Hne|done]|].
  destruct (merge_share_ok merged s Hm Hs). by apply IH.
Qed.
Lemma merge_share_keys merged s k :
  k ∈ share_key <$> merge_share merged s <-> k ∈ share_key <$> merged \/ k = share_key s.
Proof.
  induction merged as [|known merged IH]; cbn [merge_share fmap list_fmap]; [set_solver|].
  destruct (decide (share_key known = share_key s)) as [E|]; cbn [fmap list_fmap].
  - change (share_key (mkShare _ _ _ _ _)) with (share_key known). rewrite !elem_of_cons, <-E. tauto.
  - rewrite !elem_of_cons. unfold fmap in *. rewrite IH. tauto.
Qed.
Lemma merge_share_weights merged s :
  NoDup (share_key <$> merged) -> Forall (fun s => 0 <= weight s) merged -> 0 <= weight s ->
  total_weight merged + weight s < 2 ^ 32 ->
  NoDup (share_key <$> merge_share merged s) /\ Forall (fun s => 0 <= weight s) (merge_share merged s) /\
  total_weight (merge_share merged s) = total_weight merged + weight s /\
  forall key, weight_of key (merge_share merged s) =
    weight_of key merged + if decide (share_key s = key) then weight s else 0.
Proof.
  intros Hn Hm Hs. induction Hm as [|known merged Hk Hm IH]; cbn [merge_share]; intros Hw.
  { split_and!; [by apply NoDup_singleton|by repeat constructor|unfold total_weight; cbn; lia|]. intros key. rewrite weight_of_cons. cbn. lia. }
  rewrite fmap_cons, NoDup_cons in Hn. destruct Hn as [Hkn Hn]. rewrite total_weight_cons in Hw.
  assert (0 <= total_weight merged) as Hpos by (apply total_of_nonneg, Forall_fmap; exact Hm).
  destruct (decide (share_key known = share_key s)) as [E|E].
  - assert (saturating_add 32 (weight known) (weight s) = weight known + weight s) as -> by (unfold saturating_add, umax; lia).
    set (known' := mkShare _ _ _ _ _). assert (share_key known' = share_key known) as Ek by done.
    split_and!; [by rewrite fmap_cons, Ek; constructor|by constructor; [cbn; lia|]|rewrite !total_weight_cons; cbn; lia|].
    intros key. rewrite !weight_of_cons, Ek, E. cbn [weight known']. destruct (decide _); lia.
  - destruct (IH Hn) as (IH1 & IH2 & IH3 & IH4); [lia|]. split_and!.
    + rewrite fmap_cons. constructor; [|done]. rewrite merge_share_keys. naive_solver.
    + by constructor.
    + rewrite !total_weight_cons. lia.
    + intros key. rewrite !weight_of_cons, IH4. lia.
Qed.
Lemma merged_weights given :
  Forall (fun s => 0 <= weight s) given -> total_weight given < 2 ^ 32 ->
  NoDup (share_key <$> foldl merge_share [] given) /\
  forall key, weight_of key (foldl merge_share [] given) = weight_of key given.
Proof.
  enough (forall merged, NoDup (share_key <$> merged) -> Forall (fun s => 0 <= weight s) merged ->
    Forall (fun s => 0 <= weight s) given -> total_weight merged + total_weight given < 2 ^ 32 ->
    NoDup (share_key <$> foldl merge_share merged given) /\
    forall key, weight_of key (foldl merge_share merged given) = weight_of key merged + weight_of key given) as H.
  { intros Hg Hw. destruct (H []) as [H1 H2]; [constructor|constructor|done|done|]. split; [done|]. intros key. by rewrite H2. }
  induction given as [|s given IH]; intros merged Hn Hm Hg Hw; cbn [foldl].
  { split; [done|]. intros key. change (weight_of key []) with 0. lia. }
  apply Forall_cons in Hg as [Hs Hg]. rewrite total_weight_cons in Hw.
  assert (0 <= total_weight given) by (apply total_of_nonneg, Forall_fmap; exact Hg).
  destruct (merge_share_weights merged s Hn Hm Hs) as (H1 & H2 & H3 & H4); [lia|].
  destruct (IH (merge_share merged s)) as [IH1 IH2]; [done|done|done|lia|]. split; [done|].
  intros key. rewrite IH2, H4, weight_of_cons. lia.
Qed.

(** A class from shares: one of them, none heavier, and consistent. *)
Record CallOk (call : CallClass) : Prop := {
  call_kind_ok : part_kind (call_part call) = Some (call_kind call);
  call_shares_ok : Forall ShareOk (shares call);
  call_largest : shares call <> [] -> exists s, s ∈ shares call /\
    (share_kind s, share_part s, share_file s) = (call_kind call, call_part call, call_file call) /\
    forall t, t ∈ shares call -> weight t <= weight s;
}.
Definition larger_key (p : Z * CallShare) : Z * Z := (weight p.2, - p.1).
Lemma larger_key_spec a b : larger a b = rcmp (larger_key a) (larger_key b).
Proof.
  unfold larger, larger_key. rewrite rcmp_pair. unfold rcmp, Z_ord. destruct (Z.compare _ _); [|done..].
  symmetry. apply Z.compare_opp.
Qed.
Lemma elem_of_enumerate {A} (l : list A) x : (exists i, (i, x) ∈ enumerate l) <-> x ∈ l.
Proof.
  unfold enumerate. setoid_rewrite elem_of_lookup_imap. rewrite list_elem_of_lookup. naive_solver.
Qed.
Lemma from_shares_ok tool given : SharesOk given -> CallOk (from_shares tool given) /\ call_tool (from_shares tool given) = tool.
Proof.
  intros Hg. destruct (merged_ok given Hg) as [Hne Hm]. unfold from_shares. set (merged := foldl merge_share [] given) in *.
  pose proof (max_by_spec larger_key larger larger_key_spec (enumerate merged)) as Hmax.
  destruct (max_by larger (enumerate merged)) as [[i s]|].
  2: { exfalso. destruct merged; [done|]. by apply (f_equal length) in Hmax. }
  destruct Hmax as [Hin Hmax]. assert (s ∈ merged) as Hs by (apply elem_of_enumerate; eauto).
  split; [|done]. pose proof (proj1 (Forall_forall _ _) Hm s Hs) as [Hk Hw]. cbn [fmap option_fmap option_map snd default].
  split; cbn; [done|by destruct (_ || _)|]. destruct (_ || _); [|done]. intros _. exists s. split_and!; [done|done|].
  intros t Ht. apply elem_of_enumerate in Ht as [j Ht]. specialize (Hmax _ Ht). unfold not_after, larger_key in Hmax. cbn in Hmax.
  rewrite rcmp_pair in Hmax. unfold rcmp, Z_ord in Hmax. destruct (Z.compare_spec (weight t) (weight s)); [lia|lia|done].
Qed.

Lemma claude_tool_v2_ok {Number Object : Type} (object_get : Object -> str -> option (Value Number Object)) ctx tool input :
  exists call, claude_tool_v2 object_get ctx tool input = Some call /\ CallOk call.
Proof.
  unfold claude_tool_v2. destruct (split_mcp_name tool) as [[server mcp]|].
  { eexists. split; [done|]. apply from_shares_ok, one_share_ok, server_share_ok, server_part_split. }
  match goal with |- exists call, (try? given := ?m in _) = _ /\ _ => enough (exists given, m = Some given /\ SharesOk given) as (given & -> & Hg) end.
  { destruct (from_shares_ok tool given Hg). by eexists. }
  destruct (str_eqb "Bash" tool); [apply shell_call_ok|].
  destruct (one_of ["Read"; "NotebookRead"] tool); [eexists; split; [done|]; by apply one_share_ok, read_share_ok|].
  eexists. split; [done|]. apply one_share_ok, share_ok; [|done].
  by repeat match goal with |- (if ?b then _ else _) <> _ => destruct b end.
Qed.
Lemma codex_call_v2_ok {Number Object : Type} (object_get : Object -> str -> option (Value Number Object))
    (from_str : str -> option (Value Number Object)) ctx (name : option str) input :
  exists call, codex_call_v2 object_get from_str ctx name input = Some call /\ call_tool call = default [] name /\ CallOk call.
Proof.
  unfold codex_call_v2. destruct name as [name|].
  - destruct (codex_function_ok object_get from_str CELL_FUEL name input (ctx_cwd ctx) 0) as (given & -> & Hg); [unfold CELL_FUEL; lia..|].
    destruct (from_shares_ok name given Hg). by eexists.
  - destruct (from_shares_ok [] [share BuiltInOther 1]); [by apply one_share_ok, share_ok|]. by eexists.
Qed.

(** Version 2 classifies every call.  Whatever name a Claude or Codex call has and
    whatever its input holds, code cells and shell scripts included, the
    classification ends in a class: its kind is its part's, every share has a
    positive weight and the kind of its part, and the class is that of a share
    no other outweighs. *)
Theorem calls_classified {Number Object : Type} (object_get : Object -> str -> option (Value Number Object))
    (from_str : str -> option (Value Number Object)) ctx (name : option str) input tool json_input :
  (exists call, codex_call_v2 object_get from_str ctx name input = Some call /\ call_tool call = default [] name /\ CallOk call) /\
  (exists call, claude_tool_v2 object_get ctx tool json_input = Some call /\ CallOk call).
Proof. split; [apply codex_call_v2_ok|apply claude_tool_v2_ok]. Qed.

(** ** Even shares *)
Lemma total_weight_app a b : total_weight (a ++ b) = total_weight a + total_weight b.
Proof. unfold total_weight. by rewrite fmap_app, total_of_app. Qed.
Lemma constant_total (l : list CallShare) w :
  Forall (fun s => weight s = w) l -> total_weight l = w * Z.of_nat (length l).
Proof. induction 1 as [|s l Hs _ IH]; [cbn; lia|]. rewrite total_weight_cons, IH, Hs. cbn [length]. lia. Qed.
Lemma segment_total segment : SegmentOk segment -> total_weight (segment_shares segment) = SEGMENT_WEIGHT.
Proof.
  intros H. destruct (segment_shares_spec segment H) as [Hf Hl].
  rewrite (constant_total _ (file_weight segment)), Hl.
  - unfold file_weight. apply segment_weight_divides. destruct H as [_ Hb _]. unfold MAX_SHELL_PATH_TOKENS in Hb. lia.
  - eapply Forall_impl; [exact Hf|]. naive_solver.
Qed.

(** A shell command's output is shared evenly.  Every segment the
    classifier answers has the same weight, split into equal whole numbers among
    the files a read shows; merging equal shares loses nothing, since no sum of
    the at most 253 segments reaches the end of a [u32]. *)
Theorem segments_weigh_the_same command cwd :
  exists segments, classify_shell command cwd = Some segments /\
    Forall (fun segment =>
      total_weight (segment_shares segment) = SEGMENT_WEIGHT /\
      forall s t, s ∈ segment_shares segment -> t ∈ segment_shares segment -> weight s = weight t) segments /\
    let merged := foldl merge_share [] (shell_shares segments) in
    NoDup (share_key <$> merged) /\ forall key, weight_of key merged = weight_of key (shell_shares segments).
Proof.
  destruct (classify_ok command cwd) as (segments & -> & Hs & Hl). exists segments. split; [done|]. split.
  - eapply Forall_impl; [exact Hs|]. intros segment H. split; [by apply segment_total|].
    destruct (segment_shares_spec segment H) as [Hf _]. rewrite Forall_forall in Hf.
    intros s t Hin Ht. destruct (Hf s Hin) as [_ ->]. by destruct (Hf t Ht) as [_ ->].
  - apply merged_weights.
    + destruct (shell_shares_ok segments Hs) as [_ Hf]. eapply Forall_impl; [exact Hf|]. intros s []. lia.
    + destruct segments as [|first segments]; [done|]. unfold shell_shares.
      assert (forall l, Forall SegmentOk l -> total_weight (l ≫= segment_shares) = SEGMENT_WEIGHT * Z.of_nat (length l)) as Ht.
      { induction 1 as [|segment l H _ IH]; [done|]. cbn [mbind list_bind length]. rewrite total_weight_app, segment_total by done.
        change (list_bind _ _ segment_shares l) with (l ≫= segment_shares). rewrite IH. lia. }
      rewrite Ht by done. unfold SEGMENT_WEIGHT. lia.
Qed.

(** ** Cells *)
Definition total_tokens (cells : list CellShare) : Z := total_of (tokens <$> cells).
Lemma total_tokens_cons c cells : total_tokens (c :: cells) = tokens c + total_tokens cells.
Proof. done. Qed.

(** The cells so far: different keys, and tokens that add up to [n]. *)
Record CellsOk (cells : list CellShare) (n : Z) : Prop := {
  cells_keys : NoDup (cell_key <$> cells);
  cells_tokens : Forall (fun c => 0 <= tokens c) cells;
  cells_total : total_tokens cells = n;
}.
Lemma add_cell_keys cells s amount k :
  k ∈ cell_key <$> add_cell cells s amount <-> k ∈ cell_key <$> cells \/ k = share_key s.
Proof.
  induction cells as [|cell cells IH]; cbn [add_cell fmap list_fmap]; [rewrite list_elem_of_singleton; set_solver|].
  destruct (decide (cell_key cell = share_key s)) as [E|]; cbn [fmap list_fmap].
  - change (cell_key (mkCell _ _ _ _ _)) with (cell_key cell). rewrite !elem_of_cons, <-E. tauto.
  - rewrite !elem_of_cons. unfold fmap in *. rewrite IH. tauto.
Qed.
Lemma add_cell_ok cells s amount n :
  CellsOk cells n -> 0 <= amount -> n + amount < 2 ^ 64 ->
  CellsOk (add_cell cells s amount) (n + amount) /\ add_cell cells s amount <> [].
Proof.
  intros [Hn Hc Ht] Ha. revert n Hn Ht. induction Hc as [|cell cells Hcell Hc IH]; intros n Hn Ht Hw; cbn [add_cell].
  { split; [|done]. split; [apply NoDup_singleton|by repeat constructor|]. unfold total_tokens, total_of in *. cbn in *. lia. }
  rewrite fmap_cons, NoDup_cons in Hn. destruct Hn as [Hk Hn]. rewrite total_tokens_cons in Ht.
  assert (0 <= total_tokens cells) by (apply total_of_nonneg, Forall_fmap; exact Hc).
  destruct (decide (cell_key cell = share_key s)) as [E|E].
  - rewrite wrap_u_small by (unfold uint; lia). split; [|done]. split; [by rewrite fmap_cons; constructor| |].
    + constructor; [cbn; lia|done].
    + rewrite total_tokens_cons. cbn [tokens]. lia.
  - destruct (IH (total_tokens cells) Hn eq_refl) as [[IH1 IH2 IH3] _]; [lia|]. split; [|done]. split.
    + rewrite fmap_cons. constructor; [|done]. rewrite add_cell_keys. naive_solver.
    + by constructor.
    + rewrite total_tokens_cons. lia.
Qed.
(** One part for each share. *)
Lemma add_cells_ok (given : list CallShare) (parts : list Z) cells n :
  length parts = length given -> Forall (fun x => 0 <= x) parts -> CellsOk cells n -> (given = [] -> cells <> []) ->
  0 <= n -> n + total_of parts < 2 ^ 64 ->
  let result := foldl (fun cells '(s, amount) => add_cell cells s amount) cells (zip given parts) in
  CellsOk result (n + total_of parts) /\ result <> [].
Proof.
  cbn zeta. revert cells n parts. induction given as [|s given IH]; intros cells n [|a parts] Hl Hnn Hc Hne Hn Hw; try done.
  { cbn. rewrite Z.add_0_r. by split; [|apply Hne]. }
  apply Forall_cons in Hnn as [Ha Hnn]. cbn [zip zip_with foldl]. unfold total_of in *. cbn [foldr] in *.
  pose proof (total_of_nonneg parts Hnn) as Hp. unfold total_of in Hp.
  destruct (add_cell_ok cells s a n Hc Ha) as [Hok Hcne]; [lia|].
  replace (n + (a + foldr Z.add 0 parts)) with (n + a + foldr Z.add 0 parts) by lia.
  apply IH; [by injection Hl|done|done|done|lia|lia].
Qed.
(** The parts of a split are as many as the weights, and none is negative. *)
Lemma split_parts amount weights :
  u64 amount -> Forall u64 weights -> 0 < total_of weights ->
  length (split_tokens amount weights) = length weights /\ total_of (split_tokens amount weights) = amount /\
  Forall (fun x => 0 <= x) (split_tokens amount weights).
Proof.
  intros Ha Hw Hs. destruct (split_tokens_shares amount weights Ha Hw Hs) as (Hl & Ht & Hi). split_and!; [done..|].
  apply Forall_lookup. intros i x Hx. rewrite Hi in Hx. destruct (weights !! i) as [w|] eqn:Ew; [|done].
  apply list_elem_of_lookup_2 in Ew. pose proof (share_bounds amount weights Ha Hw Hs w Ew).
  cbn in Hx. destruct (decide _); simplify_eq; lia.
Qed.
Lemma positive_total l : l <> [] -> Forall (fun w => 0 < w) l -> 0 < total_of l.
Proof.
  intros Hne Hl. destruct Hl as [|w l Hw Hl]; [done|]. assert (0 <= total_of l).
  { apply total_of_nonneg. eapply Forall_impl; [exact Hl|]. cbn. lia. }
  unfold total_of in *. cbn. lia.
Qed.
Lemma add_shares_ok cells given amount n :
  CellsOk cells n -> SharesOk given -> 0 <= n -> 0 <= amount -> n + amount < 2 ^ 64 ->
  CellsOk (add_shares cells given amount) (n + amount) /\ add_shares cells given amount <> [].
Proof.
  intros Hc [Hne Hg] Hn Ha Hw. unfold add_shares.
  destruct (split_parts amount (weight <$> given)) as (Hl & Ht & Hp).
  - unfold uint. lia.
  - apply Forall_fmap. eapply Forall_impl; [exact Hg|]. intros s []. unfold uint. cbn. lia.
  - apply positive_total; [by destruct given|]. apply Forall_fmap. eapply Forall_impl; [exact Hg|]. intros s []. cbn. lia.
  - rewrite length_fmap in Hl. pose proof (add_cells_ok given _ cells n Hl Hp Hc) as H. rewrite Ht in H. by apply H.
Qed.

Section Items.
Context {Number Object : Type}.
Context (object_get : Object -> str -> option (Value Number Object)) (from_str : str -> option (Value Number Object)).

Lemma add_items_ok (items : list (InnerItem * Z)) cells n :
  CellsOk cells n -> (items = [] -> cells <> []) -> 0 <= n -> Forall (fun p => 0 <= p.2) items ->
  n + total_of (items.*2) < 2 ^ 64 ->
  exists cells', add_items object_get from_str cells items = Some cells' /\
    CellsOk cells' (n + total_of (items.*2)) /\ cells' <> [].
Proof.
  intros Hc Hne Hn Hi. revert cells n Hc Hne Hn. induction Hi as [|[item a] items Ha Hi IH]; intros cells n Hc Hne Hn Hw;
    cbn [add_items].
  { exists cells. cbn. rewrite Z.add_0_r. by split_and!; [| |apply Hne]. }
  destruct (item_shares_ok object_get from_str item) as (given & -> & Hg). cbn in Ha.
  assert (0 <= total_of items.*2) by (apply total_of_nonneg, Forall_fmap; exact Hi).
  unfold total_of in *. cbn [fmap list_fmap foldr snd] in *.
  destruct (add_shares_ok cells given a n Hc Hg Hn Ha) as [Hok Hcne]; [lia|].
  destruct (IH (add_shares cells given a) (n + a)) as (cells' & -> & Hok' & Hne'); [done|done|lia|lia|].
  exists cells'. split_and!; [done| |done]. by replace (n + (a + foldr Z.add 0 items.*2)) with (n + a + foldr Z.add 0 items.*2) by lia.
Qed.

(** Dropping the empty cells. *)
Definition shown_cells (cells : list CellShare) : list CellShare :=
  if existsb (fun cell => 0 <? tokens cell) cells then filter (fun cell => 0 < tokens cell) cells else take 1 cells.
Lemma shown_cells_ok cells n :
  CellsOk cells n -> cells <> [] ->
  shown_cells cells <> [] /\ CellsOk (shown_cells cells) n /\
  (Forall (fun c => 0 < tokens c) (shown_cells cells) \/ length (shown_cells cells) = 1%nat).
Proof.
  intros [Hn Hc Ht] Hne. unfold shown_cells. destruct (existsb _ cells) eqn:E.
  - assert (total_tokens (filter (fun cell => 0 < tokens cell) cells) = total_tokens cells) as Hf.
    { clear -Hc. induction Hc as [|c cells Hc _ IH]; [done|]. rewrite filter_cons.
      destruct (decide (0 < tokens c)); rewrite !total_tokens_cons, IH; lia. }
    split_and!; [|split|].
    + apply existsb_exists in E as (c & Hin%list_elem_of_In & Hpos). zbool. intros Hnil.
      assert (c ∈ filter (fun cell => 0 < tokens cell) cells) as Hcf by by apply list_elem_of_filter.
      rewrite Hnil in Hcf. by apply elem_of_nil in Hcf.
    + eapply sublist_NoDup; [exact Hn|]. apply fmap_sublist, sublist_filter.
    + by apply Forall_filter.
    + by rewrite Hf.
    + left. apply Forall_forall. intros c [Hp _]%list_elem_of_filter. done.
  - apply existsb_false in E. destruct cells as [|c cells]; [done|].
    apply Forall_cons in Hc as [Hc0 Hc]. apply Forall_cons in E as [E0 E]. cbn beta in E0. zbool.
    split_and!; [done|split|by right].
    + apply NoDup_singleton.
    + by repeat constructor.
    + rewrite total_tokens_cons in Ht. change (total_tokens (take 1 (c :: cells))) with (tokens c + 0).
      assert (total_tokens cells = 0); [|lia]. clear -E Hc. induction Hc as [|d cells Hd _ IH]; [done|].
      apply Forall_cons in E as [E0 E]. cbn beta in E0. zbool. rewrite total_tokens_cons, IH by done. lia.
Qed.

(** A call's output is split without losing or adding a token.  Over the
    inner items of a Codex call, in proportion to their lengths, or over the
    call's own shares, the cells' tokens add up to the output; no two cells
    agree in kind, part, file and tool, and none is empty unless it is the only
    one. *)
Theorem codex_cell_exact call (items : list InnerItem) output_tokens :
  u64 output_tokens -> (call_part call = Unsplit \/ CallOk call) -> Forall (fun item => u64 (output_chars item)) items ->
  exists cells, codex_cell object_get from_str call items output_tokens = Some cells /\ cells <> [] /\
    total_tokens cells = output_tokens /\ NoDup (cell_key <$> cells) /\
    (Forall (fun c => 0 < tokens c) cells \/ length cells = 1%nat).
Proof.
  intros Ho Hcall Hi. unfold codex_cell. destruct (decide (call_part call = Unsplit)) as [E|E].
  { eexists. split_and!; [done|done|unfold total_tokens, total_of; cbn; lia|apply NoDup_singleton|by right]. }
  destruct Hcall as [|Hcall]; [done|].
  assert (CellsOk [] 0) as Hnil by (split; [constructor|constructor|done]).
  match goal with |- exists c, (try? c' := ?m in Some _) = _ /\ _ =>
    enough (exists all, m = Some all /\ CellsOk all output_tokens /\ all <> []) as (cells & -> & Hok & Hne) end.
  { exists (shown_cells cells). destruct (shown_cells_ok cells output_tokens Hok Hne) as (H1 & [H2 H3 H4] & H5). by split_and!. }
  destruct items as [|item items].
  - eexists. split; [done|]. destruct Ho. apply (add_shares_ok [] _ _ 0); [done| |lia..].
    unfold share_list. destruct Hcall as [Hk Hs _]. destruct (shares call) eqn:Es; [by apply one_share_ok; split|by split].
  - set (all := item :: items) in *.
    set (weights := if forallb (Z.eqb 0) (output_chars <$> all) then (fun _ => 1) <$> all else output_chars <$> all).
    assert (Forall (fun w => 0 <= w) weights /\ Forall u64 weights /\ 0 < total_of weights /\ length weights = length all) as (Hw0 & Hw & Hpos & Hlen).
    { unfold weights. destruct (forallb (Z.eqb 0) (output_chars <$> all)) eqn:Ez.
      - split_and!; [by apply Forall_fmap, Forall_true|by apply Forall_fmap, Forall_true| |by rewrite length_fmap].
        apply positive_total; [done|]. by apply Forall_fmap, Forall_true.
      - assert (Forall (fun w => 0 <= w) (output_chars <$> all)) as Hnn.
        { apply Forall_fmap. eapply Forall_impl; [exact Hi|]. by intros i []. }
        split_and!; [done|by apply Forall_fmap| |by rewrite length_fmap].
        pose proof (total_of_nonneg _ Hnn). destruct (decide (total_of (output_chars <$> all) = 0)) as [Ht|]; [|lia].
        exfalso. apply not_true_iff_false in Ez. apply Ez. apply forallb_Forall, Forall_forall. intros w Hin. apply Z.eqb_eq.
        pose proof (total_of_in w _ Hnn Hin). rewrite Forall_forall in Hnn. specialize (Hnn w Hin). cbn in Hnn. lia. }
    destruct (split_parts output_tokens weights Ho Hw Hpos) as (Hl & Ht & Hp). rewrite Hlen in Hl.
    assert ((zip all (split_tokens output_tokens weights)).*2 = split_tokens output_tokens weights) as Hz by (apply snd_zip; lia).
    destruct (add_items_ok (zip all (split_tokens output_tokens weights)) [] 0 Hnil) as (cells & Ea & Hok & Hcne).
    + intros Hzn. rewrite Hzn in Hz. cbn in Hz. by rewrite <-Hz in Hl.
    + done.
    + apply Forall_forall. intros q Hq. apply (proj1 (Forall_forall _ _) Hp). rewrite <-Hz. apply list_elem_of_fmap. by exists q.
    + rewrite Hz, Ht. destruct Ho. lia.
    + exists cells. rewrite Hz, Ht in Hok. by split_and!.
Qed.
End Items.

(** *** Witness: a cell of two items, one a read of two files *)
Lemma codex_cell_exact_witness :
  exists cells, codex_cell (Number := unit) (Object := unit) (fun _ _ => None) (fun _ => None)
      (mkCall OtherTools BuiltInOther (lit "exec") None [])
      [Command (Some (lit "/w/repo")) (lit "cat a.md b.md") [] 30; WebSearch 10] 103 = Some cells /\ cells <> [] /\
    total_tokens cells = 103 /\ NoDup (cell_key <$> cells) /\
    (Forall (fun c => 0 < tokens c) cells \/ length cells = 1%nat).
Proof.
  apply (codex_cell_exact (Number := unit) (Object := unit)); [done| |by repeat constructor].
  right. by split; [|constructor|].
Defined.
