(* ===== verification/Composition.v ===== *)
(** The interface of the composition kinds: one function per kind of line, each
    answering for both versions, and the cache of checkout roots
    (crates/ottto-service/src/composition_kinds/mod.rs). *)
From S2P Require Import Prelude.
From S2P Require Import Text.
From S2P Require Import Chars.
From S2P Require Import Kinds.
From S2P Require Import KindsV2.
From S2P Require Import KindsProps.
From stdpp Require Import gmap.
Local Open Scope Z_scope.

Definition CODEX_INJECTED_USER_PREFIXES : list string :=
  ["# AGENTS.md instructions"; "<environment_context>"; "<user_instructions>"].

(** ** Dispatch by version *)
Section Dispatch.
Context {Number Object : Type}.
Context (object_get : Object -> str -> option (Value Number Object))
  (pointer : Value Number Object -> str -> option (Value Number Object))
  (from_str : str -> option (Value Number Object)).

Definition claude_attachment (ctx : LineCtx) (att : ClaudeAttachment) : Verdict :=
  if negb (is_v1 ctx) then attachment_v2 ctx att else
  match att_filename att with
  | Some filename => if is_memory_path filename then verdict_v1 MemoryNotes else verdict_v1 HarnessAttachments
  | None => verdict_v1 HarnessAttachments
  end.
Definition claude_tool (ctx : LineCtx) (name : str) (input : Value Number Object) : option CallClass :=
  if negb (is_v1 ctx) then claude_tool_v2 object_get ctx name input else
  let file := text_of object_get input "file_path" in
  Some (call_v1 (cc_tool_category name (default [] file)) name file).
Definition claude_user_text (ctx : LineCtx) (line : Value Number Object) : Verdict :=
  if negb (is_v1 ctx) then user_text_v2 object_get pointer ctx line else Skip NotMeasured.
Definition image (ctx : LineCtx) (call : option CallClass) : Verdict :=
  let split_call := match call with Some call => bool_decide (call_part call <> Unsplit) | None => true end in
  if negb (is_v1 ctx) && split_call then image_v2 ctx call else verdict_v1 BrowserAndImages.
Definition codex_call (ctx : LineCtx) (name : option str) (input : str) : option CallClass :=
  if negb (is_v1 ctx) then codex_call_v2 object_get from_str ctx name input else
  Some (match name with
        | Some name => call_v1 (codex_tool_category name) name None
        | None => unmatched
        end).
Definition codex_mcp_category (invocation : option (Value Number Object)) : Kind :=
  match invocation with
  | Some (VObject o) =>
      let field key := default [] (try? v := object_get o key in as_str v) in
      let ident := to_ascii_lowercase (field (lit "server") ++ lit " " ++ field (lit "tool")) in
      let any := existsb (fun key : string => contains key ident) in
      if any ["chrome"; "browser"; "playwright"; "screenshot"; "dom_snapshot"; "domsnapshot"] then BrowserAndImages
      else if any ["web"; "search"; "fetch"] then WebFetchSearch
      else if any ["repl"; "exec"; "shell"; "node"; "python"; "js"] then ShellOutput
      else if contains "agent" ident then AgentResults
      else OtherTools
  | _ => OtherTools
  end.
Definition codex_mcp (ctx : LineCtx) (invocation : option (Value Number Object)) : CallClass :=
  if negb (is_v1 ctx) then codex_mcp_v2 object_get invocation else
  call_v1 (codex_mcp_category invocation)
    (server_tool (invocation_field object_get invocation "server") (invocation_field object_get invocation "tool")) None.
Definition codex_event (ctx : LineCtx) (event_type : str) : Verdict :=
  if negb (is_v1 ctx) then codex_event_v2 ctx event_type
  else if str_eqb "web_search_end" event_type then verdict_v1 WebFetchSearch else Skip NotMeasured.
Definition codex_message (ctx : LineCtx) (role : str) (label : ContentLabel) (text : str) : Verdict :=
  if negb (is_v1 ctx) then codex_message_v2 ctx role label text else
  let injected :=
    if str_eqb "developer" role then true
    else if str_eqb "user" role then
      match label with
      | Present (Some kind) => negb (starts_with "user." kind)
      | Present None => false
      | Absent => existsb (fun prefix : string => starts_with prefix (trim_start text)) CODEX_INJECTED_USER_PREFIXES
      end
    else false in
  if injected then verdict_v1 HarnessAttachments else Skip NotMeasured.

(** ** The versions never mix *)
Definition v1_kinds : list Kind :=
  [HarnessAttachments; ShellOutput; CodeReads; DocReadsMd; DocReadsHtml; MemoryNotes; BrowserAndImages;
   WebFetchSearch; AgentResults; OtherTools].
(** Version 1 counts one of its ten kinds without a part, version 2 a part of
    one of its seven. *)
Definition versioned (ctx : LineCtx) (kind : Kind) (part : Part) : Prop :=
  if is_v1 ctx then kind ∈ v1_kinds /\ part = Unsplit else part_kind part = Some kind /\ kind ∈ V2.
Definition VerdictOk (ctx : LineCtx) (verdict : Verdict) : Prop :=
  match verdict with Skip _ => True | Count kind part => versioned ctx kind part end.
Definition ClassOk (ctx : LineCtx) (call : CallClass) : Prop := versioned ctx (call_kind call) (call_part call).

Lemma part_kind_v2 part kind : part_kind part = Some kind -> kind ∈ V2.
Proof. destruct part; intros [= <-]; unfold V2; set_solver. Qed.
Lemma call_ok_versioned ctx call : is_v1 ctx = false -> CallOk call -> ClassOk ctx call.
Proof. intros Hv [Hk _ _]. unfold ClassOk, versioned. rewrite Hv. split; [done|by eapply part_kind_v2]. Qed.
Lemma v1_versioned ctx kind : is_v1 ctx = true -> kind ∈ v1_kinds -> versioned ctx kind Unsplit.
Proof. intros Hv Hk. unfold versioned. by rewrite Hv. Qed.
Lemma count_ok ctx part : is_v1 ctx = false -> part <> Unsplit -> VerdictOk ctx (count part).
Proof.
  intros Hv Hp. cbn. unfold versioned. rewrite Hv. destruct (part_kind part) eqn:E; [|by destruct part].
  split; [done|by eapply part_kind_v2].
Qed.
Lemma prompt_ok ctx agent_written : is_v1 ctx = false -> VerdictOk ctx (prompt ctx agent_written).
Proof. intros Hv. unfold prompt. destruct (_ || _); by apply count_ok. Qed.
Lemma request_one_ok ctx verdict : is_v1 ctx = false -> request_one ctx = Some verdict -> VerdictOk ctx verdict.
Proof. intros Hv. unfold request_one. destruct (request_1 ctx); intros [= <-]; [done|by apply count_ok]. Qed.
Lemma default_request_ok ctx verdict :
  is_v1 ctx = false -> VerdictOk ctx verdict -> VerdictOk ctx (default verdict (request_one ctx)).
Proof. intros Hv H. destruct (request_one ctx) eqn:E; [by eapply request_one_ok|done]. Qed.

(** Decides which verdict a chain of tests counts. *)
Ltac verdicts :=
  repeat match goal with
    | |- VerdictOk _ (count _) => apply count_ok; [assumption|done]
    | |- VerdictOk _ (prompt _ _) => apply prompt_ok; assumption
    | |- VerdictOk _ (Skip _) => exact I
    | |- VerdictOk _ (default _ (request_one _)) => apply default_request_ok; [assumption|]
    | |- VerdictOk _ (match request_one ?c with Some _ => _ | None => _ end) =>
        let E := fresh in destruct (request_one c) eqn:E; [eapply request_one_ok; eassumption|]
    | |- VerdictOk _ (if ?b then _ else _) => destruct b
    | |- VerdictOk _ (match ?m with Some _ => _ | None => _ end) => destruct m as [?|]
    | |- VerdictOk _ (match ?m with (_, _) => _ end) => destruct m
    end.
Lemma table_part (table : list (string * Part)) (p : string * Part -> bool) :
  Forall (fun entry => entry.2 <> Unsplit) table -> default Other (snd <$> find p table) <> Unsplit.
Proof. intros Ht. destruct (find p table) as [[name part]|] eqn:E; [|done]. apply find_some in E as [Hin%list_elem_of_In _]. rewrite Forall_forall in Ht. exact (Ht _ Hin). Qed.
Lemma attachment_parts : Forall (fun entry => entry.2 <> Unsplit) CLAUDE_ATTACHMENT_PARTS.
Proof. apply (bool_decide_unpack _). by vm_compute. Qed.
Lemma injected_parts : Forall (fun entry => entry.2 <> Unsplit) CODEX_INJECTED_PREFIXES.
Proof. apply (bool_decide_unpack _). by vm_compute. Qed.

Lemma attachment_ok ctx att : VerdictOk ctx (claude_attachment ctx att).
Proof.
  unfold claude_attachment. destruct (is_v1 ctx) eqn:Hv; cbn [negb].
  - destruct (att_filename att); [destruct (is_memory_path _)|]; apply v1_versioned; unfold v1_kinds; set_solver.
  - unfold attachment_v2. verdicts. apply count_ok; [done|]. apply table_part, attachment_parts.
Qed.
Lemma user_text_ok ctx line : VerdictOk ctx (claude_user_text ctx line).
Proof. unfold claude_user_text. destruct (is_v1 ctx) eqn:Hv; cbn [negb]; [done|]. unfold user_text_v2. cbn zeta. verdicts. Qed.
Lemma event_ok ctx event_type : VerdictOk ctx (codex_event ctx event_type).
Proof.
  unfold codex_event. destruct (is_v1 ctx) eqn:Hv; cbn [negb]; [|unfold codex_event_v2; verdicts].
  destruct (str_eqb _ _); [|done]. apply v1_versioned; unfold v1_kinds; set_solver.
Qed.
Lemma message_ok ctx role label text : VerdictOk ctx (codex_message ctx role label text).
Proof.
  unfold codex_message. destruct (is_v1 ctx) eqn:Hv; cbn [negb].
  { match goal with |- VerdictOk _ (if ?b then _ else _) => destruct b end; [|done]. apply v1_versioned; unfold v1_kinds; set_solver. }
  assert (VerdictOk ctx (match find (fun known => starts_with (lit known.1) (trim_start text)) CODEX_INJECTED_PREFIXES with
    | Some (_, part) => count part
    | None => if str_eqb "developer" role then count Other else prompt ctx false end)) as Hhead.
  { destruct (find _ CODEX_INJECTED_PREFIXES) as [[name part]|] eqn:E; [|verdicts].
    apply find_some in E as [Hin%list_elem_of_In _]. apply count_ok; [done|].
    exact (proj1 (Forall_forall _ _) injected_parts _ Hin). }
  unfold codex_message_v2. verdicts. destruct label as [|[label|]]; [exact Hhead| |exact Hhead].
  unfold codex_label_part. cbn zeta. verdicts.
Qed.
Lemma image_ok ctx call :
  (is_v1 ctx = false -> forall c, call = Some c -> CallOk c) -> VerdictOk ctx (image ctx call).
Proof.
  intros Hc. unfold image. destruct (is_v1 ctx) eqn:Hv; cbn [negb andb].
  { apply v1_versioned; unfold v1_kinds; set_solver. }
  destruct call as [call|]; [|unfold image_v2; verdicts]. pose proof (Hc eq_refl call eq_refl) as [Hk _ _].
  rewrite bool_decide_eq_true_2 by (intros E; by rewrite E in Hk). unfold image_v2.
  assert (VerdictOk ctx (Count (call_kind call) (call_part call))) as Hcall.
  { cbn. unfold versioned. rewrite Hv. split; [done|by eapply part_kind_v2]. }
  destruct (call_kind call); verdicts; exact Hcall.
Qed.

Ltac v1_kind := repeat match goal with |- (if ?b then _ else _) ∈ _ => destruct b end; unfold v1_kinds; set_solver.
Lemma cc_category_v1 name file : cc_tool_category name file ∈ v1_kinds.
Proof. unfold cc_tool_category, classify_by_read_path. cbn zeta. v1_kind. Qed.
Lemma codex_category_v1 name : codex_tool_category name ∈ v1_kinds.
Proof. unfold codex_tool_category. cbn zeta. v1_kind. Qed.
Lemma mcp_category_v1 invocation : codex_mcp_category invocation ∈ v1_kinds.
Proof. unfold codex_mcp_category. destruct invocation as [[]|]; cbn zeta; v1_kind. Qed.

Lemma claude_tool_ok ctx name input : exists call, claude_tool ctx name input = Some call /\ ClassOk ctx call.
Proof.
  unfold claude_tool. destruct (is_v1 ctx) eqn:Hv; cbn [negb].
  - eexists. split; [done|]. apply v1_versioned; [done|apply cc_category_v1].
  - destruct (claude_tool_v2_ok object_get ctx name input) as (call & -> & Hc). eexists. split; [done|]. by apply call_ok_versioned.
Qed.
Lemma codex_call_ok ctx name input : exists call, codex_call ctx name input = Some call /\ ClassOk ctx call.
Proof.
  unfold codex_call. destruct (is_v1 ctx) eqn:Hv; cbn [negb].
  - eexists. split; [done|]. destruct name; apply v1_versioned; [done|apply codex_category_v1|done|unfold v1_kinds; set_solver].
  - destruct (codex_call_v2_ok object_get from_str ctx name input) as (call & -> & _ & Hc). eexists. split; [done|].
    by apply call_ok_versioned.
Qed.
Lemma codex_mcp_ok ctx invocation : ClassOk ctx (codex_mcp ctx invocation).
Proof.
  unfold codex_mcp. destruct (is_v1 ctx) eqn:Hv; cbn [negb].
  - apply v1_versioned; [done|apply mcp_category_v1].
  - apply call_ok_versioned; [done|]. apply from_shares_ok, one_share_ok, server_share_ok, server_part_split.
Qed.

(** The versions never mix.  Whatever line a reader hands in, under
    version 1 every count and every call is one of the ten version 1 kinds and
    has no part, and under version 2 it is a part of one of the seven version 2
    kinds, under that kind. *)
Theorem versions_never_mix ctx name input codex_name codex_input invocation att line event_type role label text call :
  (is_v1 ctx = false -> forall c, call = Some c -> CallOk c) ->
  (exists c, claude_tool ctx name input = Some c /\ ClassOk ctx c) /\
  (exists c, codex_call ctx codex_name codex_input = Some c /\ ClassOk ctx c) /\
  ClassOk ctx (codex_mcp ctx invocation) /\
  VerdictOk ctx (claude_attachment ctx att) /\ VerdictOk ctx (claude_user_text ctx line) /\
  VerdictOk ctx (codex_event ctx event_type) /\ VerdictOk ctx (codex_message ctx role label text) /\
  VerdictOk ctx (image ctx call).
Proof.
  intros Hc. split_and!; [apply claude_tool_ok|apply codex_call_ok|apply codex_mcp_ok|apply attachment_ok|apply user_text_ok
    |apply event_ok|apply message_ok|by apply image_ok].
Qed.
End Dispatch.

(** ** The cache of checkout roots *)
(** Folders and roots are absolute normalized paths, kept as their components;
    the empty list is the root folder. *)
Abbreviation Folder := (list str).
Definition MAX_CACHED_FOLDERS : nat := 4096.
Record GitRootCache := mkCache {
  lookup_enabled : bool;
  roots : gmap Folder (option Folder);
  hashes : gmap Folder (option str);
  skipped : Z;   (* counts lookups not made; a [u64] no run fills *)
}.
Definition cache_v1 : GitRootCache := mkCache false ∅ ∅ 0.
Definition cache_v2 : GitRootCache := mkCache true ∅ ∅ 0.

Section Roots.
(** [dir.join(".git").symlink_metadata().is_ok()] and the cache's
    [repository_hash] function, both reads of the file system. *)
Context (has_dot_git : Folder -> bool) (repository_hash : Folder -> option str).

(** One folder per step, from [dir] up; a folder has as many ancestors as
    components.  Returns what was found and the folders walked, or [None] when
    the cache is full. *)
Fixpoint walk_up (known : gmap Folder (option Folder)) (fuel : nat) (dir : Folder) (walked : list Folder)
    : option (option Folder * list Folder) :=
  match known !! dir with
  | Some cached => Some (cached, walked)
  | None =>
      if (MAX_CACHED_FOLDERS <=? size known + length walked)%nat then None else
      let walked := walked ++ [dir] in
      if has_dot_git dir then Some (Some dir, walked) else
      match fuel with
      | O => Some (None, walked)
      | S fuel => walk_up known fuel (removelast dir) walked
      end
  end.
Definition root_of (cache : GitRootCache) (folder : Folder) : option Folder * GitRootCache :=
  match walk_up (roots cache) (length folder) folder [] with
  | None => (None, mkCache (lookup_enabled cache) (roots cache) (hashes cache) (skipped cache + 1))
  | Some (found, walked) =>
      (found, mkCache (lookup_enabled cache) (foldl (fun roots dir => <[dir := found]> roots) (roots cache) walked)
                (hashes cache) (skipped cache))
  end.
Definition root_hash (cache : GitRootCache) (root : Folder) : option str * GitRootCache :=
  match hashes cache !! root with
  | Some hash => (hash, cache)
  | None =>
      if (MAX_CACHED_FOLDERS <=? size (hashes cache))%nat then
        (None, mkCache (lookup_enabled cache) (roots cache) (hashes cache) (skipped cache + 1))
      else
        let hash := repository_hash root in
        (hash, mkCache (lookup_enabled cache) (roots cache) (<[root := hash]> (hashes cache)) (skipped cache))
  end.
(** The components of a file below its checkout root, when that checkout is of
    the workspace's repository. *)
Definition in_repository (cache : GitRootCache) (raw : Folder) (ws_repo_hash : str) : option Folder * GitRootCache :=
  match raw with
  | [] => (None, cache)
  | _ =>
      let '(root, cache) := root_of cache (removelast raw) in
      match root with
      | None => (None, cache)
      | Some root =>
          let '(hash, cache) := root_hash cache root in
          (if decide (hash = Some ws_repo_hash) then
             if decide (take (length root) raw = root) then
               match drop (length root) raw with [] => None | rel => Some rel end
             else None
           else None, cache)
      end
  end.

(** ** The cache is transparent *)
(** The nearest folder at or above [dir] that holds [.git]. *)
Fixpoint nearest_within (fuel : nat) (dir : Folder) : option Folder :=
  if has_dot_git dir then Some dir else
  match fuel with O => None | S fuel => nearest_within fuel (removelast dir) end.
Definition nearest (dir : Folder) : option Folder := nearest_within (length dir) dir.
(** The answer without any cache. *)
Definition relative_in (raw : Folder) (ws_repo_hash : str) : option Folder :=
  match raw with
  | [] => None
  | _ =>
      try? root := nearest (removelast raw) in
      if decide (repository_hash root = Some ws_repo_hash) then
        if decide (take (length root) raw = root) then
          match drop (length root) raw with [] => None | rel => Some rel end
        else None
      else None
  end.
Record Coherent (cache : GitRootCache) : Prop := {
  roots_ok : forall dir found, roots cache !! dir = Some found -> found = nearest dir;
  hashes_ok : forall root hash, hashes cache !! root = Some hash -> hash = repository_hash root;
  roots_bounded : (size (roots cache) <= MAX_CACHED_FOLDERS)%nat;
  hashes_bounded : (size (hashes cache) <= MAX_CACHED_FOLDERS)%nat;
}.

Lemma length_removelast (dir : Folder) : length (removelast dir) = pred (length dir).
Proof. induction dir as [|x dir _] using rev_ind; [done|]. rewrite removelast_last, length_app. cbn. lia. Qed.
Lemma nearest_step dir : has_dot_git dir = false -> nearest dir = if decide (dir = []) then None else nearest (removelast dir).
Proof.
  intros H. unfold nearest. destruct dir as [|x dir]; cbn [length nearest_within]; rewrite H; [done|].
  rewrite decide_False by done. by rewrite length_removelast.
Qed.
Lemma walk_up_spec (known : gmap Folder (option Folder)) fuel dir walked :
  (forall d found, known !! d = Some found -> found = nearest d) -> fuel = length dir ->
  (size known + length walked <= MAX_CACHED_FOLDERS)%nat ->
  match walk_up known fuel dir walked with
  | Some (found, walked') => found = nearest dir /\ (size known + length walked' <= MAX_CACHED_FOLDERS)%nat /\
      exists more, walked' = walked ++ more /\ forall d, d ∈ more -> nearest d = found
  | None => (MAX_CACHED_FOLDERS <= size known + length walked + length dir)%nat
  end.
Proof.
  intros Hk. revert dir walked. induction fuel as [|fuel IH]; intros dir walked Hf Hs; cbn [walk_up];
    (destruct (known !! dir) as [cached|] eqn:Ed;
      [split; [by apply Hk|]; split; [done|]; exists []; rewrite app_nil_r; split; [done|by intros d ?%elem_of_nil]|]);
    (destruct (MAX_CACHED_FOLDERS <=? size known + length walked)%nat eqn:Em; [apply Nat.leb_le in Em; lia|apply Nat.leb_gt in Em]);
    (assert (size known + length (walked ++ [dir]) <= MAX_CACHED_FOLDERS)%nat as Hs' by (rewrite length_app; cbn; lia));
    (destruct (has_dot_git dir) eqn:Eg;
      [assert (nearest dir = Some dir) as En by (unfold nearest; destruct (length dir); cbn; by rewrite Eg);
       split; [done|]; split; [done|]; exists [dir]; split; [done|by intros d ->%list_elem_of_singleton]|]).
  - pose proof (nearest_step dir Eg) as En. destruct dir; [|done]. rewrite decide_True in En by done.
    cbn beta iota. split_and!; [done|done|]. exists [[]]. split; [done|by intros d ->%list_elem_of_singleton].
  - pose proof (nearest_step dir Eg) as En. rewrite decide_False in En by by intros ->.
    specialize (IH (removelast dir) (walked ++ [dir])). rewrite length_removelast in IH. specialize (IH ltac:(lia) Hs').
    destruct (walk_up _ _ _ _) as [[found walked']|]; [|rewrite length_app in IH; destruct dir; [done|cbn in *; lia]]. destruct IH as (-> & Hs2 & more & -> & Hm).
    split_and!; [done|done|]. exists (dir :: more). split; [by rewrite <-app_assoc|]. intros d [->|Hd]%elem_of_cons; [done|by apply Hm].
Qed.
Lemma insert_all_spec (walked : list Folder) (found : option Folder) (m : gmap Folder (option Folder)) :
  (size (foldl (fun roots dir => <[dir := found]> roots) m walked) <= size m + length walked)%nat /\
  forall dir v, foldl (fun roots dir => <[dir := found]> roots) m walked !! dir = Some v ->
    m !! dir = Some v \/ dir ∈ walked /\ v = found.
Proof.
  revert m. induction walked as [|d walked IH]; intros m; cbn [foldl length]; [split; [lia|by left]|].
  destruct (IH (<[d := found]> m)) as [IH1 IH2]. split.
  - etrans; [exact IH1|]. rewrite map_size_insert. destruct (m !! d); cbn; lia.
  - intros dir v Hv. destruct (IH2 dir v Hv) as [Hd|[Hd ->]]; [|right; set_solver].
    destruct (decide (d = dir)) as [->|]; [rewrite lookup_insert_eq in Hd|rewrite lookup_insert_ne in Hd by done; by left].
    right. simplify_eq. set_solver.
Qed.

(** A lookup answers as without a cache, or, when the cache is [full], does not
    answer and counts it. *)
Definition agrees {A} (full : Prop) (answer truth : option A) (before after : GitRootCache) : Prop :=
  answer = truth /\ skipped after = skipped before \/ full /\ answer = None /\ skipped after = skipped before + 1.

Lemma root_of_ok cache folder :
  Coherent cache -> let '(found, cache') := root_of cache folder in
  Coherent cache' /\ hashes cache' = hashes cache /\
  agrees (MAX_CACHED_FOLDERS <= size (roots cache) + length folder)%nat found (nearest folder) cache cache'.
Proof.
  intros [Hr Hh Hb Hhb]. unfold root_of. pose proof (walk_up_spec (roots cache) (length folder) folder [] Hr eq_refl) as Hw.
  cbn [length] in Hw. specialize (Hw ltac:(lia)). destruct (walk_up _ _ _ _) as [[found walked]|].
  - destruct Hw as (-> & Hs & more & -> & Hm). destruct (insert_all_spec ([] ++ more) (nearest folder) (roots cache)) as [H1 H2].
    split; [split; cbn; [|done| |done]|split; [done|by left]].
    + intros dir v Hv. destruct (H2 dir v Hv) as [Hd|[Hd ->]]; [by apply Hr|]. symmetry. by apply Hm.
    + etrans; [exact H1|exact Hs].
  - split; [by split|split; [done|right]]. split_and!; [cbn in Hw; lia|done..].
Qed.
Lemma root_hash_ok cache root :
  Coherent cache -> let '(hash, cache') := root_hash cache root in
  Coherent cache' /\ agrees (size (hashes cache) = MAX_CACHED_FOLDERS) hash (repository_hash root) cache cache'.
Proof.
  intros [Hr Hh Hb Hhb]. unfold root_hash. destruct (hashes cache !! root) as [hash|] eqn:E.
  { split; [done|]. left. split; [by apply Hh|done]. }
  destruct (_ <=? _)%nat eqn:Em.
  { split; [done|right]. apply Nat.leb_le in Em. split_and!; [lia|done..]. } apply Nat.leb_gt in Em. split; [split; cbn; [done| |done|]|by left].
  - intros r h Hv. destruct (decide (root = r)) as [->|]; [rewrite lookup_insert_eq in Hv|rewrite lookup_insert_ne in Hv by done; by apply Hh].
    by simplify_eq.
  - rewrite map_size_insert_None by done. lia.
Qed.
(** No room for the folders above [raw], or for another root. *)
Definition crowded (cache : GitRootCache) (raw : Folder) : Prop :=
  (MAX_CACHED_FOLDERS < size (roots cache) + length raw)%nat \/ size (hashes cache) = MAX_CACHED_FOLDERS.
Lemma in_repository_ok cache raw ws :
  Coherent cache -> let '(answer, cache') := in_repository cache raw ws in
  Coherent cache' /\
  (answer = relative_in raw ws /\ skipped cache' = skipped cache \/ answer = None /\ skipped cache < skipped cache' /\ crowded cache raw).
Proof.
  intros Hc. unfold in_repository, relative_in. destruct raw as [|x raw]; [by split; [|left]|].
  pose proof (root_of_ok cache (removelast (x :: raw)) Hc) as H1. destruct (root_of _ _) as [root cache1].
  destruct H1 as (Hc1 & Hh & H1). rewrite length_removelast in H1. cbn [length pred] in H1.
  destruct H1 as [[-> Hs1]|(Hfull & -> & Hs1)]; [|split; [done|right; split_and!; [done|lia|left; cbn [length]; lia]]].
  destruct (nearest _) as [root|]; [|by split; [|left]].
  pose proof (root_hash_ok cache1 root Hc1) as H2. destruct (root_hash _ _) as [hash cache2].
  destruct H2 as [Hc2 [[-> Hs2]|(Hfull & -> & Hs2)]]; split; [done| |done|].
  - left. by rewrite Hs2.
  - right. rewrite decide_False by done. split_and!; [done|lia|right; congruence].
Qed.

(** The cache after a run of lookups, each of a file and a workspace's hash. *)
Definition after_lookups (queries : list (list str * str)) : GitRootCache :=
  foldl (fun cache '(raw, ws) => (in_repository cache raw ws).2) cache_v2 queries.

(** C40: The cache of checkout roots is transparent and bounded.  After any
    lookups it holds at most 4,096 folders and 4,096 roots, and the next lookup
    gives exactly the path the file system gives, relative to the nearest folder
    with a [.git] whose repository is the workspace's.  Only a full cache gives
    none instead: one without room for the folders above the file, or with
    4,096 roots; and then the counter of skipped lookups goes up. *)
Theorem root_cache_transparent queries raw ws :
  let cache := after_lookups queries in
  let '(answer, cache') := in_repository cache raw ws in
  (size (roots cache') <= MAX_CACHED_FOLDERS)%nat /\ (size (hashes cache') <= MAX_CACHED_FOLDERS)%nat /\
  (answer = relative_in raw ws /\ skipped cache' = skipped cache \/
   answer = None /\ skipped cache < skipped cache' /\
   ((MAX_CACHED_FOLDERS < size (roots cache) + length raw)%nat \/ size (hashes cache) = MAX_CACHED_FOLDERS)).
Proof.
  cbn zeta. assert (Coherent (after_lookups queries)) as Hc.
  { unfold after_lookups. assert (Coherent cache_v2) as H by (split; cbn; [done|done|rewrite map_size_empty; lia..]).
    revert H. generalize cache_v2. induction queries as [|[r w] queries IH]; intros cache Hc; cbn [foldl]; [done|].
    apply IH. pose proof (in_repository_ok cache r w Hc) as Hok. destruct (in_repository _ _ _). by destruct Hok. }
  pose proof (in_repository_ok _ raw ws Hc) as Hok. destruct (in_repository _ _ _) as [answer cache'].
  destruct Hok as [[_ _ H1 H2] H]. by split_and!.
Qed.
End Roots.

(** *** Witness: a version 2 image line with a browser call *)
Lemma versions_never_mix_witness :
  let ctx := ctx_v2 RequestNo None false You in
  let call := Some (mkCall WebAndBrowser Browser (lit "take_screenshot") None []) in
  (exists c, claude_tool (Number := unit) (Object := unit) (fun _ _ => None) ctx (lit "Read") VNull = Some c /\ ClassOk ctx c) /\
  (exists c, codex_call (Number := unit) (Object := unit) (fun _ _ => None) (fun _ => None) ctx (Some (lit "exec")) (lit "x") = Some c /\ ClassOk ctx c) /\
  ClassOk ctx (codex_mcp (Number := unit) (Object := unit) (fun _ _ => None) ctx None) /\
  VerdictOk ctx (claude_attachment ctx (mkAttachment (lit "file") None None true)) /\
  VerdictOk ctx (claude_user_text (Number := unit) (Object := unit) (fun _ _ => None) (fun _ _ => None) ctx VNull) /\
  VerdictOk ctx (codex_event ctx (lit "compacted")) /\ VerdictOk ctx (codex_message ctx (lit "user") Absent (lit "hi")) /\
  VerdictOk ctx (image ctx call).
Proof.
  apply (versions_never_mix (Number := unit) (Object := unit)).
  intros _ c [= <-]. by split; [|constructor|].
Defined.
