(* ===== verification/NetState.v ===== *)
(** The daemon's process-wide network health
    (crates/ottto-service/src/net_resilience.rs): the outage streaks of name
    resolution and of uploads, the last good addresses, the sync watchdog, and
    the pure decisions over them.

    The code takes every [Instant] as an argument of these methods; a
    [&mut self] method returns its answer and the state after it. *)
From stdpp Require Import gmap.
From S2P Require Import Prelude Text Std.
Local Open Scope Z_scope.

Definition OUTAGE_MIN_CONSECUTIVE_FAILURES : Z := 3.
Definition REBUILD_MIN_OUTAGE : Duration := secs (10 * 60).
Definition REBUILD_MIN_INTERVAL : Duration := secs (10 * 60).
Definition DNS_PROBE_MIN_INTERVAL : Duration := secs 60.
Definition TCP_PROBE_MIN_INTERVAL : Duration := secs 60.
Definition DNS_FALLBACK_LOG_MIN_INTERVAL : Duration := secs (5 * 60).
Definition SYNC_STALL_THRESHOLD : Duration := secs (30 * 60).
Definition SYNC_STALL_RELOG_INTERVAL : Duration := secs (30 * 60).
Definition HEALTHY_PATH_FRESHNESS : Duration := secs (10 * 60).
Definition SELF_RESTART_MIN_OUTAGE : Duration := secs (60 * 60).
Definition SELF_RESTART_EVIDENCE_FRESHNESS : Duration := secs (15 * 60).
Definition DNS_PROBE_PROCESS_TIMEOUT : Duration := secs 5.

(** [last.map(|at| now.saturating_duration_since(at) >= interval).unwrap_or(true)]. *)
Definition due (last : option Instant) (interval : Duration) (now : Instant) : bool :=
  match last with Some at_ => interval <=? duration_since now at_ | None => true end.
(** [last.map(|at| now.saturating_duration_since(at) <= window).unwrap_or(false)]. *)
Definition fresh (last : option Instant) (window : Duration) (now : Instant) : bool :=
  match last with Some at_ => duration_since now at_ <=? window | None => false end.

(** ** Streaks of failures *)
Record OutageStreak := mkStreak {
  consecutive_failures : Z;
  first_failure_at : option Instant;
  last_rebuild_at : option Instant;
}.
Definition new_streak : OutageStreak := mkStreak 0 None None.

Definition note_failure (now : Instant) (s : OutageStreak) : OutageStreak :=
  mkStreak (saturating_add 32 (consecutive_failures s) 1) (Some (default now (first_failure_at s))) (last_rebuild_at s).
Definition note_success (s : OutageStreak) : OutageStreak := mkStreak 0 None (last_rebuild_at s).
Definition outage_duration (now : Instant) (s : OutageStreak) : option Duration :=
  if consecutive_failures s <? OUTAGE_MIN_CONSECUTIVE_FAILURES then None
  else duration_since now <$> first_failure_at s.
Definition should_rebuild (now : Instant) (s : OutageStreak) : bool * OutageStreak :=
  match outage_duration now s with
  | None => (false, s)
  | Some outage =>
      if outage <? REBUILD_MIN_OUTAGE then (false, s)
      else if negb (due (last_rebuild_at s) REBUILD_MIN_INTERVAL now) then (false, s)
      else (true, mkStreak (consecutive_failures s) (first_failure_at s) (Some now))
  end.

(** ** Name resolution *)
Inductive IpAddr := V4 (bits : Z) | V6 (bits : Z).
Record SocketAddr := mkSocketAddr { ip : IpAddr; port : Z }.

Record DnsState := mkDns {
  last_good : gmap string (list SocketAddr);
  dns_streak : OutageStreak;
  dns_last_probe_at : option Instant;
  dns_last_probe_success_at : option Instant;
  last_fallback_log_at : option Instant;
}.
Definition new_dns : DnsState := mkDns ∅ new_streak None None None.

Definition note_resolution_succeeded (netloc : string) (addrs : list SocketAddr) (s : DnsState) : DnsState :=
  mkDns (<[netloc := addrs]> (last_good s)) (note_success (dns_streak s)) (dns_last_probe_at s)
    (dns_last_probe_success_at s) (last_fallback_log_at s).
Definition note_resolution_failed (now : Instant) (s : DnsState) : DnsState :=
  mkDns (last_good s) (note_failure now (dns_streak s)) (dns_last_probe_at s)
    (dns_last_probe_success_at s) (last_fallback_log_at s).
Definition dns_should_attempt_probe (now : Instant) (s : DnsState) : bool * DnsState :=
  if due (dns_last_probe_at s) DNS_PROBE_MIN_INTERVAL now then
    (true, mkDns (last_good s) (dns_streak s) (Some now) (dns_last_probe_success_at s) (last_fallback_log_at s))
  else (false, s).
Definition dns_note_probe_succeeded (now : Instant) (s : DnsState) : DnsState :=
  mkDns (last_good s) (dns_streak s) (dns_last_probe_at s) (Some now) (last_fallback_log_at s).
Definition dns_probe_success_is_fresh (now : Instant) (s : DnsState) : bool :=
  fresh (dns_last_probe_success_at s) SELF_RESTART_EVIDENCE_FRESHNESS now.
Definition should_log_fallback (now : Instant) (s : DnsState) : bool * DnsState :=
  if due (last_fallback_log_at s) DNS_FALLBACK_LOG_MIN_INTERVAL now then
    (true, mkDns (last_good s) (dns_streak s) (dns_last_probe_at s) (dns_last_probe_success_at s) (Some now))
  else (false, s).
Definition should_rebuild_agents (now : Instant) (s : DnsState) : bool * DnsState :=
  let '(rebuild, streak) := should_rebuild now (dns_streak s) in
  (rebuild, mkDns (last_good s) streak (dns_last_probe_at s) (dns_last_probe_success_at s) (last_fallback_log_at s)).

(** [port.parse::<u16>()]: an optional plus and digits below 2^16. *)
Definition parse_u16 (bytes : list Z) : option Z :=
  let digits := default bytes (strip_prefix [43] bytes) in
  if all_digits digits then try_uint 16 (foldl (fun n b => n * 10 + (b - 48)) 0 digits) else None.
Definition split_netloc (netloc : string) : option (string * Z) :=
  try? (host, port) := split_at_last [58] (as_bytes netloc) in
  try? port := parse_u16 port in
  if decide (host = []) then None else Some (of_bytes host, port).

(** ** The resolver's process: [dscacheutil] in a child *)
(** [str::lines]: pieces at newlines, each less a final carriage return; an
    empty last piece is no line. *)
Fixpoint lines_from (line text : list Z) : list (list Z) :=
  match text with
  | [] => match line with [] => [] | _ => [line] end
  | 10 :: text => default line (strip_suffix [13] line) :: lines_from [] text
  | b :: text => lines_from (line ++ [b]) text
  end.
Definition lines (text : list Z) : list (list Z) := lines_from [] text.

Section Resolver.
(** [IpAddr::from_str] of std. *)
Context (parse_ip : list Z -> option IpAddr).
(** The addresses of one key, in order. *)
Definition addresses_of (key : string) (body : list Z) : list IpAddr :=
  omap (fun line =>
    try? (name, value) := split_at_first [58] line in
    if decide (trim name = as_bytes key) then parse_ip (trim value) else None) (lines body).
(** What [out_of_process_resolve] makes of the child's output; [None] is a
    child that could not be run, timed out or failed. *)
Definition addresses_of_output (output : option (list Z)) : option (list IpAddr) :=
  try? body := output in
  let addrs := addresses_of "ip_address" body ++ addresses_of "ipv6_address" body in
  if decide (addrs = []) then None else Some addrs.
End Resolver.

(** [(host, port)] of the configured API base URL. *)
Definition http_scheme (scheme : list Z) : bool := bool_decide (to_ascii_lowercase scheme = as_bytes "http").
Fixpoint until_path (rest : list Z) : list Z :=
  match rest with [] => [] | b :: rest => if (b =? 47) || (b =? 63) then [] else b :: until_path rest end.
Definition parse_probe_target (base : string) : option (string * Z) :=
  try? (scheme, rest) := split_at_first (as_bytes "://") (as_bytes base) in
  let netloc := until_path rest in
  let default_port := if http_scheme scheme then 80 else 443 in
  match split_at_last [58] netloc with
  | Some ((_ :: _) as host, port) =>
      match parse_u16 port with
      | Some port => Some (of_bytes host, port)
      | None => Some (of_bytes netloc, default_port)
      end
  | _ => if decide (netloc = []) then None else Some (of_bytes netloc, default_port)
  end.

(** ** Uploads *)
Inductive TransportSignal := BackendReached | TransportFailure | Neutral.
#[export] Instance TransportSignal_eq_dec : EqDecision TransportSignal.
Proof. solve_decision. Defined.

Record TransportState := mkTransport {
  transport_streak : OutageStreak;
  tcp_last_probe_at : option Instant;
  tcp_last_probe_success_at : option Instant;
}.
Definition new_transport : TransportState := mkTransport new_streak None None.

Definition apply_cycle_verdict (verdict : TransportSignal) (now : Instant) (s : TransportState) : TransportState :=
  let streak := match verdict with
                | BackendReached => note_success (transport_streak s)
                | TransportFailure => note_failure now (transport_streak s)
                | Neutral => transport_streak s
                end in
  mkTransport streak (tcp_last_probe_at s) (tcp_last_probe_success_at s).
Definition transport_should_attempt_probe (now : Instant) (s : TransportState) : bool * TransportState :=
  match outage_duration now (transport_streak s) with
  | None => (false, s)
  | Some _ =>
      if due (tcp_last_probe_at s) TCP_PROBE_MIN_INTERVAL now then
        (true, mkTransport (transport_streak s) (Some now) (tcp_last_probe_success_at s))
      else (false, s)
  end.
Definition transport_note_probe_succeeded (now : Instant) (s : TransportState) : TransportState :=
  mkTransport (transport_streak s) (tcp_last_probe_at s) (Some now).
Definition transport_probe_success_is_fresh (now : Instant) (s : TransportState) : bool :=
  fresh (tcp_last_probe_success_at s) SELF_RESTART_EVIDENCE_FRESHNESS now.

(** An upload error is the status family of its [UploadFailureDiagnostics], or
    [None] when it carries none. *)
Definition transport_signal_from_error (family : option string) : TransportSignal :=
  match family with
  | None => BackendReached
  | Some family =>
      if decide (family = "transport_dns"%string) then Neutral
      else if starts_with (as_bytes "transport_") (as_bytes family) then TransportFailure
      else BackendReached
  end.

Record TransportCycleOutcome := mkOutcome { reached : bool; transport_failure : bool }.
Definition new_outcome : TransportCycleOutcome := mkOutcome false false.
Definition outcome_success (o : TransportCycleOutcome) : TransportCycleOutcome :=
  mkOutcome true (transport_failure o).
Definition outcome_error (family : option string) (o : TransportCycleOutcome) : TransportCycleOutcome :=
  match transport_signal_from_error family with
  | BackendReached => mkOutcome true (transport_failure o)
  | TransportFailure => mkOutcome (reached o) true
  | Neutral => o
  end.
Definition verdict (o : TransportCycleOutcome) : TransportSignal :=
  if reached o then BackendReached else if transport_failure o then TransportFailure else Neutral.

(** ** The sync watchdog *)
Inductive SelfRestartReason := DnsOutage | TransportOutage.
Record SyncStallReport := mkReport {
  stalled_for : Duration;
  healthy_path : string;
  first_report : bool;
  transport_shaped : bool;
}.
Record SyncFailureDecision := mkDecision {
  stall : option SyncStallReport;
  self_restart : option SelfRestartReason;
}.
Record SyncWatchdogState := mkWatchdog {
  sync_failing_since : option Instant;
  last_other_upload_at : option Instant;
  last_other_upload_path : option string;
  stall_marked : bool;
  last_stall_log_at : option Instant;
}.
Definition new_watchdog : SyncWatchdogState := mkWatchdog None None None false None.

Definition note_other_upload (path : string) (now : Instant) (s : SyncWatchdogState) : SyncWatchdogState :=
  mkWatchdog (sync_failing_since s) (Some now) (Some path) (stall_marked s) (last_stall_log_at s).
Definition note_sync_success (s : SyncWatchdogState) : bool * SyncWatchdogState :=
  (stall_marked s, mkWatchdog None (last_other_upload_at s) (last_other_upload_path s) false None).
Definition other_upload_within (window : Duration) (now : Instant) (s : SyncWatchdogState) : bool :=
  fresh (last_other_upload_at s) window now.

(** What the watchdog is told of the two outage ladders. *)
Record Readings := mkReadings {
  dns_outage : option Duration;
  probe_success_fresh : bool;
  transport_outage : option Duration;
  tcp_probe_success_fresh : bool;
}.
Definition at_least (outage : option Duration) : bool :=
  match outage with Some outage => SELF_RESTART_MIN_OUTAGE <=? outage | None => false end.
Definition some_outage (r : Readings) : bool :=
  match dns_outage r, transport_outage r with None, None => false | _, _ => true end.

Definition stall_due (failing_for : Duration) (now : Instant) (s : SyncWatchdogState) : bool :=
  (SYNC_STALL_THRESHOLD <=? failing_for) && other_upload_within HEALTHY_PATH_FRESHNESS now s
  && due (last_stall_log_at s) SYNC_STALL_RELOG_INTERVAL now.
Definition restart_decision (r : Readings) (failing_for : Duration) (now : Instant) (s : SyncWatchdogState)
    : option SelfRestartReason :=
  let evidence probe := probe || other_upload_within SELF_RESTART_EVIDENCE_FRESHNESS now s in
  if (SELF_RESTART_MIN_OUTAGE <=? failing_for) && at_least (dns_outage r) && evidence (probe_success_fresh r) then
    Some DnsOutage
  else if (SELF_RESTART_MIN_OUTAGE <=? failing_for) && at_least (transport_outage r)
          && evidence (tcp_probe_success_fresh r) then
    Some TransportOutage
  else None.
Definition decide_sync_failure (r : Readings) (now : Instant) (s : SyncWatchdogState)
    : SyncFailureDecision * SyncWatchdogState :=
  let failing_since := default now (sync_failing_since s) in
  let failing_for := duration_since now failing_since in
  let reported := stall_due failing_for now s in
  let report := mkReport failing_for (default "unknown"%string (last_other_upload_path s))
                  (negb (stall_marked s)) (some_outage r) in
  (mkDecision (if reported then Some report else None) (restart_decision r failing_for now s),
   mkWatchdog (Some failing_since) (last_other_upload_at s) (last_other_upload_path s)
     (reported || stall_marked s) (if reported then Some now else last_stall_log_at s)).
