(* ===== verification/NetProcess.v ===== *)
(** The handlers of crates/ottto-service/src/net_resilience.rs as threads over
    the process-wide state.

    A handler is a program of atomic steps: a critical section of one of the
    process's locks (or one operation of an atomic flag), a question to the
    environment (the clock, the resolver, a child process), or the start of a
    worker thread.  Handlers run as threads of one pool in any interleaving;
    the state is what the critical sections of the history leave.  No critical
    section panics, so no lock is ever poisoned.  Log lines are left out; the
    rate limits that guard them are kept. *)
From S2P Require Import Prelude Text Std NetState.
Local Open Scope Z_scope.

(** ** The process-wide state *)
Inductive Gate := PrimaryGate | ProbeGate.
#[export] Instance Gate_eq_dec : EqDecision Gate.
Proof. solve_decision. Defined.

(** A pair of agents is known by its number: [build_shared_agents] makes a
    fresh one, [agents] is the pair in use, none before the first call. *)
Record Net := mkNet {
  dns : DnsState;
  transport : TransportState;
  watchdog : SyncWatchdogState;
  agents : option Z;
  built : Z;
  primary_active : bool;
  probe_active : bool;
}.
Definition new_net : Net := mkNet new_dns new_transport new_watchdog None 0 false false.

Definition with_dns (s : DnsState) (n : Net) : Net :=
  mkNet s (transport n) (watchdog n) (agents n) (built n) (primary_active n) (probe_active n).
Definition with_transport (s : TransportState) (n : Net) : Net :=
  mkNet (dns n) s (watchdog n) (agents n) (built n) (primary_active n) (probe_active n).
Definition with_watchdog (s : SyncWatchdogState) (n : Net) : Net :=
  mkNet (dns n) (transport n) s (agents n) (built n) (primary_active n) (probe_active n).
Definition build_shared_agents (n : Net) : Net :=
  mkNet (dns n) (transport n) (watchdog n) (Some (built n)) (built n + 1) (primary_active n) (probe_active n).
Definition flag (g : Gate) (n : Net) : bool :=
  match g with PrimaryGate => primary_active n | ProbeGate => probe_active n end.
Definition set_flag (g : Gate) (b : bool) (n : Net) : Net :=
  match g with
  | PrimaryGate => mkNet (dns n) (transport n) (watchdog n) (agents n) (built n) b (probe_active n)
  | ProbeGate => mkNet (dns n) (transport n) (watchdog n) (agents n) (built n) (primary_active n) b
  end.

(** ** Critical sections *)
Inductive Locked : Type -> Type :=
  | ResolutionSucceeded (netloc : string) (addrs : list SocketAddr) : Locked unit
  | ResolutionFailed (netloc : string) (now : Instant) : Locked (bool * option (list SocketAddr))
  | ProbeSucceeded (netloc : string) (addrs : list SocketAddr) (now : Instant) : Locked bool
  | FallbackLog (now : Instant) : Locked bool
  | DeadlineExpired (now : Instant) : Locked unit
  | DnsRebuild (now : Instant) : Locked bool
  | DnsReadings (now : Instant) : Locked (option Duration * bool)
  | CycleVerdict (signal : TransportSignal) (now : Instant) : Locked bool
  | TcpProbeSucceeded (now : Instant) : Locked unit
  | TransportRebuild (now : Instant) : Locked bool
  | TransportReadings (now : Instant) : Locked (option Duration * bool)
  | TakeAgents (rebuild : bool) : Locked Z
  | ForceRebuild : Locked unit
  | OtherUpload (path : string) (now : Instant) : Locked unit
  | SyncSuccess : Locked bool
  | SyncFailure (readings : Readings) (now : Instant) : Locked SyncFailureDecision
  | Acquire (g : Gate) : Locked bool
  | Release (g : Gate) : Locked unit.

(** [shared_agents]'s last section: the pair, built on first use and again when
    a rebuild is asked for. *)
Definition take_agents (rebuild : bool) (n : Net) : Z * Net :=
  let n := match agents n with None => build_shared_agents n | Some _ => n end in
  let n := if rebuild then build_shared_agents n else n in
  (default 0 (agents n), n).

(** A failure is counted; whether a child process is due, and the last good
    addresses. *)
Definition failed_section (netloc : string) (now : Instant) (s : DnsState) : (bool * option (list SocketAddr)) * DnsState :=
  let '(probe_due, s) := dns_should_attempt_probe now (note_resolution_failed now s) in
  ((probe_due, last_good s !! netloc), s).
Definition probed_section (netloc : string) (addrs : list SocketAddr) (now : Instant) (s : DnsState) : bool * DnsState :=
  let s := dns_note_probe_succeeded now s in
  should_log_fallback now
    (mkDns (<[netloc := addrs]> (last_good s)) (dns_streak s) (dns_last_probe_at s) (dns_last_probe_success_at s)
       (last_fallback_log_at s)).
Definition cycle_section (signal : TransportSignal) (now : Instant) (s : TransportState) : bool * TransportState :=
  let s := apply_cycle_verdict signal now s in
  if decide (signal = TransportFailure) then transport_should_attempt_probe now s else (false, s).
Definition transport_rebuild_section (now : Instant) (s : TransportState) : bool * TransportState :=
  let '(rebuild, streak) := should_rebuild now (transport_streak s) in
  (rebuild, mkTransport streak (tcp_last_probe_at s) (tcp_last_probe_success_at s)).
(** Only agents that are in use are replaced. *)
Definition force_section (n : Net) : Net := match agents n with Some _ => build_shared_agents n | None => n end.

Definition on_dns {A} (f : DnsState -> A * DnsState) (n : Net) : A * Net :=
  let '(a, s) := f (dns n) in (a, with_dns s n).
Definition on_transport {A} (f : TransportState -> A * TransportState) (n : Net) : A * Net :=
  let '(a, s) := f (transport n) in (a, with_transport s n).
Definition on_watchdog {A} (f : SyncWatchdogState -> A * SyncWatchdogState) (n : Net) : A * Net :=
  let '(a, s) := f (watchdog n) in (a, with_watchdog s n).
Definition perform {A} (c : Locked A) (n : Net) : A * Net :=
  match c with
  | ResolutionSucceeded netloc addrs => (tt, with_dns (note_resolution_succeeded netloc addrs (dns n)) n)
  | ResolutionFailed netloc now => on_dns (failed_section netloc now) n
  | ProbeSucceeded netloc addrs now => on_dns (probed_section netloc addrs now) n
  | FallbackLog now => on_dns (should_log_fallback now) n
  | DeadlineExpired now => (tt, with_dns (note_resolution_failed now (dns n)) n)
  | DnsRebuild now => on_dns (should_rebuild_agents now) n
  | DnsReadings now => ((outage_duration now (dns_streak (dns n)), dns_probe_success_is_fresh now (dns n)), n)
  | CycleVerdict signal now => on_transport (cycle_section signal now) n
  | TcpProbeSucceeded now => (tt, with_transport (transport_note_probe_succeeded now (transport n)) n)
  | TransportRebuild now => on_transport (transport_rebuild_section now) n
  | TransportReadings now =>
      ((outage_duration now (transport_streak (transport n)),
        transport_probe_success_is_fresh now (transport n)), n)
  | TakeAgents rebuild => take_agents rebuild n
  | ForceRebuild => (tt, force_section n)
  | OtherUpload path now => (tt, with_watchdog (note_other_upload path now (watchdog n)) n)
  | SyncSuccess => on_watchdog note_sync_success n
  | SyncFailure readings now => on_watchdog (decide_sync_failure readings now) n
  | Acquire g => (negb (flag g n), set_flag g true n)
  | Release g => (tt, set_flag g false n)
  end.

(** ** The environment *)
(** [io::ErrorKind]; messages are for the log. *)
Inductive ErrorKind := NotFound | TimedOut | OtherKind (code : Z).
(** [io::Result<Vec<SocketAddr>>]. *)
Abbreviation Resolution := (ErrorKind + list SocketAddr)%type.

Inductive Env : Type -> Type :=
  | Now : Env Instant
  | ResolvePrimary (netloc : string) : Env Resolution
  | Dscacheutil (host : string) (timeout : Duration) : Env (option (list Z))
  | SpawnWorker : Env bool
  | ReceivePrimary (netloc : string) (wait : Duration) : Env (option Resolution)
  | ReceiveProbe (host : string) (wait : Duration) : Env (option (option (list IpAddr)))
  | LockBy (deadline : Instant) : Env bool
  | ApiBaseUrl : Env (option string)
  | TcpConnect (host : string) (port : Z) : Env bool
  | SelfRestartVar : Env (option string)
  | RecordStalled (minutes : Z) (path : string) : Env unit
  | RecordRecovered : Env unit
  | Abort_ (reason : SelfRestartReason) : Env Empty_set.

Inductive Worker := PrimaryWorker (netloc : string) | ProbeWorker (host : string) (timeout : Duration).

(** ** Programs *)
Inductive Prog (R : Type) : Type :=
  | Ret (r : R)
  | Lock {A : Type} (c : Locked A) (k : A -> Prog R)
  | Ask {A : Type} (q : Env A) (k : A -> Prog R)
  | Fork (w : Worker) (k : Prog R).
Arguments Ret {_}. Arguments Lock {_ _}. Arguments Ask {_ _}. Arguments Fork {_}.

Fixpoint bind {R S} (p : Prog R) (f : R -> Prog S) : Prog S :=
  match p with
  | Ret r => f r
  | Lock c k => Lock c (fun a => bind (k a) f)
  | Ask q k => Ask q (fun a => bind (k a) f)
  | Fork w k => Fork w (bind k f)
  end.
Definition lock {A} (c : Locked A) : Prog A := Lock c Ret.
Definition ask {A} (q : Env A) : Prog A := Ask q Ret.
Notation "'let!' x ':=' p 'in' k" := (bind p (fun x => k))
  (at level 10, x pattern, p at level 100, k at level 200) : ottto_scope.

Section Handlers.
(** [SocketAddr::from_str] and [IpAddr::from_str] of std. *)
Context (parse_socket_addr : string -> option SocketAddr) (parse_ip : list Z -> option IpAddr).

(** *** Name resolution *)
Definition socket_addrs (port : Z) (ips : option (list IpAddr)) : option (list SocketAddr) :=
  match ips with
  | Some ((_ :: _) as ips) => Some ((fun ip => mkSocketAddr ip port) <$> ips)
  | _ => None
  end.
(** A failed resolution: a child process when one is due, else the last
    addresses known. *)
Definition fall_back (netloc : string) (now : Instant) (failure : ErrorKind) (timeout : Duration) : Prog Resolution :=
  let! (probe_due, stale) := lock (ResolutionFailed netloc now) in
  let! probed :=
    match probe_due, split_netloc netloc with
    | true, Some (host, port) =>
        let! output := ask (Dscacheutil host timeout) in
        Ret (socket_addrs port (addresses_of_output parse_ip output))
    | _, _ => Ret None
    end in
  match probed, stale with
  | Some addrs, _ => let! _ := lock (ProbeSucceeded netloc addrs now) in Ret (inr addrs)
  | None, Some stale => let! _ := lock (FallbackLog now) in Ret (inr stale)
  | None, None => Ret (inl failure)
  end.
Definition resolve_primary_result (netloc : string) (now : Instant) (primary : Resolution) (timeout : Duration)
    : Prog Resolution :=
  match primary with
  | inr ((_ :: _) as addrs) => let! _ := lock (ResolutionSucceeded netloc addrs) in Ret (inr addrs)
  | inr [] => fall_back netloc now NotFound timeout
  | inl kind => fall_back netloc now kind timeout
  end.
Definition resolve_at (netloc : string) (now : Instant) : Prog Resolution :=
  match parse_socket_addr netloc with
  | Some literal => Ret (inr [literal])
  | None =>
      let! primary := ask (ResolvePrimary netloc) in
      resolve_primary_result netloc now primary DNS_PROBE_PROCESS_TIMEOUT
  end.
Definition resolve (netloc : string) : Prog Resolution :=
  let! now := ask Now in resolve_at netloc now.

(** *** Name resolution by a deadline *)
Definition gate_of (w : Worker) : Gate := match w with PrimaryWorker _ => PrimaryGate | ProbeWorker _ _ => ProbeGate end.
(** A worker makes its call and opens its gate; what it sends arrives, or not,
    as the answer to the [ReceivePrimary] or [ReceiveProbe] for its call. *)
Definition worker_program (w : Worker) : Prog unit :=
  match w with
  | PrimaryWorker netloc => let! _ := ask (ResolvePrimary netloc) in lock (Release PrimaryGate)
  | ProbeWorker host timeout => let! _ := ask (Dscacheutil host timeout) in lock (Release ProbeGate)
  end.

Definition probe_until (host : string) (deadline : Instant) (probe_timeout : Duration) : Prog (option (list IpAddr)) :=
  let! now := ask Now in
  match checked_duration_since deadline now with
  | None => Ret None
  | Some remaining =>
      if remaining =? 0 then Ret None else
      let! acquired := lock (Acquire ProbeGate) in
      if negb acquired then Ret None else
      let! spawned := ask SpawnWorker in
      if spawned : bool then
        Fork (ProbeWorker host (Z.min remaining probe_timeout))
          (let! now := ask Now in
           match checked_duration_since deadline now with
           | None => Ret None
           | Some wait => let! received := ask (ReceiveProbe host wait) in Ret (default None received)
           end)
      else let! _ := lock (Release ProbeGate) in Ret None
  end.

(** [lock_state_until(deadline)?], then [k]. *)
Definition locked_by (deadline : Instant) (k : Prog Resolution) : Prog Resolution :=
  let! got := ask (LockBy deadline) in if got : bool then k else Ret (inl TimedOut).
Definition fall_back_bounded (netloc : string) (now : Instant) (failure : ErrorKind) (deadline : Instant)
    (timeout : Duration) : Prog Resolution :=
  locked_by deadline
    (let! (probe_due, stale) := lock (ResolutionFailed netloc now) in
     let! probed :=
       match probe_due, split_netloc netloc with
       | true, Some (host, port) =>
           let! ips := probe_until host deadline (Z.min timeout DNS_PROBE_PROCESS_TIMEOUT) in
           Ret (socket_addrs port ips)
       | _, _ => Ret None
       end in
     match probed, stale with
     | Some addrs, _ => locked_by deadline (let! _ := lock (ProbeSucceeded netloc addrs now) in Ret (inr addrs))
     | None, Some stale =>
         let! got := ask (LockBy deadline) in
         let! _ := (if got : bool then lock (FallbackLog now) else Ret false) in
         Ret (inr stale)
     | None, None => Ret (inl failure)
     end).
Definition resolve_primary_result_bounded (netloc : string) (now : Instant) (primary : Resolution)
    (deadline : Instant) (timeout : Duration) : Prog Resolution :=
  match primary with
  | inr ((_ :: _) as addrs) =>
      locked_by deadline (let! _ := lock (ResolutionSucceeded netloc addrs) in Ret (inr addrs))
  | inr [] => fall_back_bounded netloc now NotFound deadline timeout
  | inl kind => fall_back_bounded netloc now kind deadline timeout
  end.
(** Waits on the worker for half the time. *)
Definition resolve_by_at (timeout : Duration) (netloc : string) (now : Instant) : Prog Resolution :=
  match parse_socket_addr netloc with
  | Some literal => Ret (inr [literal])
  | None =>
      if timeout =? 0 then let! _ := lock (DeadlineExpired now) in Ret (inl TimedOut) else
      let! started := ask Now in
      let deadline := started + timeout in
      let bounded primary := resolve_primary_result_bounded netloc now primary deadline timeout in
      let! acquired := lock (Acquire PrimaryGate) in
      if negb acquired then bounded (inl TimedOut) else
      let! spawned := ask SpawnWorker in
      if spawned : bool then
        Fork (PrimaryWorker netloc)
          (let! received := ask (ReceivePrimary netloc (timeout / 2)) in bounded (default (inl TimedOut) received))
      else let! _ := lock (Release PrimaryGate) in bounded (inl (OtherKind 0))
  end.
Definition resolve_by (timeout : Duration) (netloc : string) : Prog Resolution :=
  let! now := ask Now in resolve_by_at timeout netloc now.

(** *** Agents and uploads *)
Definition shared_agents : Prog Z :=
  let! now := ask Now in
  let! dns_rebuild := lock (DnsRebuild now) in
  let! transport_rebuild := lock (TransportRebuild now) in
  lock (TakeAgents (dns_rebuild || transport_rebuild)).
Definition force_rebuild_upstream_agents : Prog unit := lock ForceRebuild.

Definition out_of_process_tcp_probe : Prog bool :=
  let! base := ask ApiBaseUrl in
  match (try? base := base in parse_probe_target base) with
  | Some (host, port) => ask (TcpConnect host port)
  | None => Ret false
  end.
Definition note_sync_cycle_transport (outcome : TransportCycleOutcome) : Prog unit :=
  let! now := ask Now in
  let! probe_due := lock (CycleVerdict (verdict outcome) now) in
  let! connected := (if probe_due : bool then out_of_process_tcp_probe else Ret false) in
  if connected : bool then let! now := ask Now in lock (TcpProbeSucceeded now) else Ret tt.

(** *** The watchdog *)
Definition note_upstream_upload_succeeded (path : string) : Prog unit :=
  let! now := ask Now in lock (OtherUpload path now).
Definition handle_sync_success : Prog unit :=
  let! recovered := lock SyncSuccess in if recovered : bool then ask RecordRecovered else Ret tt.

Definition self_restart_enabled (var : option string) : bool :=
  match var with
  | Some value =>
      negb (bool_decide (to_ascii_lowercase (trim (as_bytes value)) ∈
        (as_bytes <$> ["0"; "false"; "off"; "disabled"; "no"]%string)))
  | None => true
  end.
(** The posture and the last resort, once the watchdog has decided. *)
Definition act_on (decision : SyncFailureDecision) : Prog unit :=
  let! _ :=
    match stall decision with
    | Some stall =>
        if first_report stall then ask (RecordStalled (as_secs (stalled_for stall) / 60) (healthy_path stall)) else Ret tt
    | None => Ret tt
    end in
  match self_restart decision with
  | Some reason =>
      let! var := ask SelfRestartVar in
      if self_restart_enabled var then let! dead := ask (Abort_ reason) in match dead : Empty_set with end else Ret tt
  | None => Ret tt
  end.
Definition handle_sync_failure : Prog unit :=
  let! now := ask Now in
  let! (dns_outage, probe_fresh) := lock (DnsReadings now) in
  let! (transport_outage, tcp_fresh) := lock (TransportReadings now) in
  let! decision := lock (SyncFailure (mkReadings dns_outage probe_fresh transport_outage tcp_fresh) now) in
  act_on decision.

(** ** The process *)
Inductive Handler :=
  | HResolve (netloc : string)
  | HResolveBy (timeout : Duration) (netloc : string)
  | HSharedAgents
  | HForceRebuild
  | HSyncCycle (outcome : TransportCycleOutcome)
  | HOtherUpload (path : string)
  | HSyncSuccess
  | HSyncFailure.
Inductive Outcome := Resolved (netloc : string) (r : Resolution) | Agents (taken : Z) | Finished.
Definition finish {A} (p : Prog A) : Prog Outcome := let! _ := p in Ret Finished.
Definition program (handler : Handler) : Prog Outcome :=
  match handler with
  | HResolve netloc => let! r := resolve netloc in Ret (Resolved netloc r)
  | HResolveBy timeout netloc => let! r := resolve_by timeout netloc in Ret (Resolved netloc r)
  | HSharedAgents => let! taken := shared_agents in Ret (Agents taken)
  | HForceRebuild => finish force_rebuild_upstream_agents
  | HSyncCycle outcome => finish (note_sync_cycle_transport outcome)
  | HOtherUpload path => finish (note_upstream_upload_succeeded path)
  | HSyncSuccess => finish handle_sync_success
  | HSyncFailure => finish handle_sync_failure
  end.
End Handlers.

(** What happened, newest first; the state is what its sections leave. *)
Inductive Event :=
  | ELock {A : Type} (c : Locked A) (a : A)
  | EAsk {A : Type} (q : Env A) (a : A)
  | EFork (w : Worker).
Abbreviation History := (list Event) (only parsing).
Fixpoint replay (h : History) : Net :=
  match h with
  | [] => new_net
  | ELock c _ :: h => (perform c (replay h)).2
  | _ :: h => replay h
  end.

(** A thread is a handler's or a worker's. *)
Record Thread := mkThread { worker : option Worker; prog : Prog Outcome }.
Record Process := mkProcess { past : History; threads : list Thread }.
Definition start (handlers : list (Prog Outcome)) : Process := mkProcess [] (mkThread None <$> handlers).
Definition set_thread (i : nat) (w : option Worker) (p : Prog Outcome) (s : Process) (e : Event) : Process :=
  mkProcess (e :: past s) (<[i := mkThread w p]> (threads s)).
Inductive step : Process -> Process -> Prop :=
  | StepLock s i w A (c : Locked A) k :
      threads s !! i = Some (mkThread w (Lock c k)) ->
      let a := (perform c (replay (past s))).1 in step s (set_thread i w (k a) s (ELock c a))
  | StepAsk s i w A (q : Env A) a k :
      threads s !! i = Some (mkThread w (Ask q k)) -> step s (set_thread i w (k a) s (EAsk q a))
  | StepFork s i w v k :
      threads s !! i = Some (mkThread w (Fork v k)) ->
      step s (mkProcess (EFork v :: past s)
                (<[i := mkThread w k]> (threads s) ++ [mkThread (Some v) (finish (worker_program v))])).
Inductive reaches (s : Process) : Process -> Prop :=
  | ReachesRefl : reaches s s
  | ReachesStep s' s'' : reaches s s' -> step s' s'' -> reaches s s''.
