(* ===== verification/NetLaws.v ===== *)
(** What a history of the process leaves in its state
    (crates/ottto-service/src/net_resilience.rs): streaks are stretches of
    failures, evidence was seen, answers are rate limited, and stall reports
    and recoveries take turns. *)
From stdpp Require Import gmap.
From S2P Require Import Prelude Text Std NetState NetProcess.
Local Open Scope Z_scope.

(** ** Events of interest *)
(** The two ladders go by the restart they justify. *)
Definition ladder_failed (l : SelfRestartReason) (e : Event) : option Instant :=
  match e with
  | ELock c _ =>
      match l, c with
      | DnsOutage, ResolutionFailed _ now => Some now
      | DnsOutage, DeadlineExpired now => Some now
      | TransportOutage, CycleVerdict TransportFailure now => Some now
      | _, _ => None
      end
  | _ => None
  end.
Definition ladder_ok (l : SelfRestartReason) (e : Event) : bool :=
  match e with
  | ELock c _ =>
      match l, c with
      | DnsOutage, ResolutionSucceeded _ _ => true
      | TransportOutage, CycleVerdict BackendReached _ => true
      | _, _ => false
      end
  | _ => false
  end.
Definition probed (l : SelfRestartReason) (e : Event) : option Instant :=
  match e with
  | ELock c _ =>
      match l, c with
      | DnsOutage, ProbeSucceeded _ _ now => Some now
      | TransportOutage, TcpProbeSucceeded now => Some now
      | _, _ => None
      end
  | _ => None
  end.
Definition uploaded (e : Event) : option Instant :=
  match e with ELock (OtherUpload _ now) _ => Some now | _ => None end.
Definition sync_failed (e : Event) : option Instant :=
  match e with ELock (SyncFailure _ now) _ => Some now | _ => None end.
Definition sync_ok (e : Event) : bool := match e with ELock SyncSuccess _ => true | _ => false end.
(** A rebuild a ladder asked for. *)
Definition granted (l : SelfRestartReason) (e : Event) : option Instant :=
  match e with
  | @ELock A c a =>
      match c in Locked A return A -> option Instant with
      | DnsRebuild now => fun a => match l, a with DnsOutage, true => Some now | _, _ => None end
      | TransportRebuild now => fun a => match l, a with TransportOutage, true => Some now | _, _ => None end
      | _ => fun _ => None
      end a
  | _ => None
  end.
Definition streak_of (l : SelfRestartReason) (n : Net) : OutageStreak :=
  match l with DnsOutage => dns_streak (dns n) | TransportOutage => transport_streak (transport n) end.

(** [h] ends in a stretch of events, none of them a success, that starts with a
    failure at [t0] and holds [n] failures at least. *)
Definition stretch (failed : Event -> option Instant) (ok : Event -> bool) (h : History) (t0 : Instant) (n : Z) : Prop :=
  exists recent e before, h = recent ++ e :: before /\ failed e = Some t0 /\
    Forall (fun e => ok e = false) (recent ++ [e]) /\ n <= Z.of_nat (length (omap failed (recent ++ [e]))).

Lemma stretch_more failed ok h t0 n e :
  stretch failed ok h t0 n -> ok e = false ->
  stretch failed ok (e :: h) t0 (if failed e is Some _ then n + 1 else n).
Proof.
  intros (recent & e0 & before & -> & Ht & Hok & Hn) He. exists (e :: recent), e0, before.
  split_and!; [done|done|by constructor|]. cbn. destruct (failed e); cbn; lia.
Qed.
Lemma stretch_one (failed : Event -> option Instant) (ok : Event -> bool) h e t0 :
  failed e = Some t0 -> ok e = false -> stretch failed ok (e :: h) t0 1.
Proof.
  intros Hf Ho. exists [], e, h. split_and!; [done|done|by repeat constructor|]. cbn. rewrite Hf. cbn. lia.
Qed.
Lemma stretch_fewer failed ok h t0 n m : stretch failed ok h t0 n -> m <= n -> stretch failed ok h t0 m.
Proof. intros (r & e & b & ? & ? & ? & ?) ?. exists r, e, b. split_and!; [done..|lia]. Qed.

(** ** Streaks are stretches *)
Ltac by_section :=
  repeat match goal with
  | e : Event |- _ => destruct e as [? c ?|? q ?|w]
  | c : Locked _ |- _ => destruct c
  | g : Gate |- _ => destruct g
  | s : TransportSignal |- _ => destruct s
  | l : SelfRestartReason |- _ => destruct l
  end.

Ltac run_section :=
  cbn; unfold take_agents, force_section, on_dns, on_transport, on_watchdog, failed_section, probed_section,
    cycle_section, transport_rebuild_section, should_rebuild_agents, dns_should_attempt_probe, should_log_fallback,
    transport_should_attempt_probe, should_rebuild;
  repeat case_match; simplify_eq/=; try case_match; simplify_eq/=.

(** What one event does to a ladder's counter. *)
Lemma streak_step l e h :
  let s := streak_of l (replay h) in let s' := streak_of l (replay (e :: h)) in
  (ladder_failed l e <> None -> ladder_ok l e = false) /\
  consecutive_failures s' = (if ladder_ok l e then 0 else
    if ladder_failed l e is Some _ then saturating_add 32 (consecutive_failures s) 1 else consecutive_failures s) /\
  first_failure_at s' = (if ladder_ok l e then None else
    if ladder_failed l e is Some t then Some (default t (first_failure_at s)) else first_failure_at s).
Proof.
  by_section; run_section; done.
Qed.
Lemma streak_replay l h :
  let s := streak_of l (replay h) in
  match first_failure_at s with
  | Some t0 => stretch (ladder_failed l) (ladder_ok l) h t0 (consecutive_failures s)
  | None => consecutive_failures s = 0
  end.
Proof.
  induction h as [|e h IH]; cbv zeta; [by destruct l|]. cbv zeta in IH.
  destruct (streak_step l e h) as (Hno & Hc & Hf). rewrite Hc, Hf.
  destruct (ladder_ok l e) eqn:Eok; [done|].
  destruct (ladder_failed l e) as [t|] eqn:Ef; destruct (first_failure_at _) as [t0|] eqn:E0; cbn.
  - eapply stretch_fewer; [by apply stretch_more|]. rewrite Ef. unfold saturating_add. lia.
  - rewrite IH. by apply stretch_one.
  - apply (stretch_more _ _ _ _ _ e) in IH; [|done]. by rewrite Ef in IH.
  - done.
Qed.
(** An outage the streak reports began with a failure, had three at least and
    no success since. *)
Lemma outage_stretch l h now d :
  outage_duration now (streak_of l (replay h)) = Some d ->
  exists t0, stretch (ladder_failed l) (ladder_ok l) h t0 3 /\ d = duration_since now t0.
Proof.
  unfold outage_duration. intros H. pose proof (streak_replay l h) as Hs. cbv zeta in Hs.
  destruct (_ <? _) eqn:E; [done|]. zbool. unfold OUTAGE_MIN_CONSECUTIVE_FAILURES in E.
  destruct (first_failure_at _) as [t0|] eqn:E0; cbn in H; [|done]. exists t0. split; [|congruence].
  by eapply stretch_fewer.
Qed.

(** ** Evidence was seen *)
Definition last_probe (l : SelfRestartReason) (n : Net) : option Instant :=
  match l with DnsOutage => dns_last_probe_success_at (dns n) | TransportOutage => tcp_last_probe_success_at (transport n) end.
Lemma probe_step l e h :
  last_probe l (replay (e :: h)) = if probed l e is Some t then Some t else last_probe l (replay h).
Proof. by_section; run_section; done. Qed.
Lemma upload_step e h :
  last_other_upload_at (watchdog (replay (e :: h))) =
  if uploaded e is Some t then Some t else last_other_upload_at (watchdog (replay h)).
Proof. by_section; run_section; done. Qed.
Lemma sync_step e h :
  sync_failing_since (watchdog (replay (e :: h))) =
  if sync_ok e then None
  else if sync_failed e is Some t then Some (default t (sync_failing_since (watchdog (replay h))))
  else sync_failing_since (watchdog (replay h)).
Proof. by_section; run_section; done. Qed.

Lemma seen_replay (seen : Event -> option Instant) (last : Net -> option Instant) :
  last new_net = None ->
  (forall e h, last (replay (e :: h)) = if seen e is Some t then Some t else last (replay h)) ->
  forall h t, last (replay h) = Some t -> exists e, e ∈ h /\ seen e = Some t.
Proof.
  intros H0 Hs h. induction h as [|e h IH]; intros t; cbn [replay]; [by rewrite H0|].
  specialize (Hs e h). cbn [replay] in Hs. rewrite Hs. destruct (seen e) as [t'|] eqn:E.
  - intros [= <-]. exists e. split; [left|done].
  - intros (e' & ? & ?)%IH. exists e'. split; [by right|done].
Qed.
Lemma probe_seen l h t : last_probe l (replay h) = Some t -> exists e, e ∈ h /\ probed l e = Some t.
Proof. apply seen_replay; [by destruct l|apply probe_step]. Qed.
Lemma upload_seen h t :
  last_other_upload_at (watchdog (replay h)) = Some t -> exists e, e ∈ h /\ uploaded e = Some t.
Proof. apply (seen_replay _ (fun n => last_other_upload_at (watchdog n))); [done|apply upload_step]. Qed.
Lemma sync_failing_stretch h t0 :
  sync_failing_since (watchdog (replay h)) = Some t0 -> stretch sync_failed sync_ok h t0 1.
Proof.
  induction h as [|e h IH]; [done|]. rewrite sync_step. destruct (sync_ok e) eqn:Eok; [done|].
  destruct (sync_failed e) as [t|] eqn:Ef.
  - destruct (sync_failing_since _) as [t1|] eqn:E1; cbn; intros [= <-]; [|by apply stretch_one].
    eapply stretch_fewer; [apply stretch_more; [by apply IH|done]|]. rewrite Ef. lia.
  - intros H. apply IH in H. apply (stretch_more _ _ _ _ _ e) in H; [|done]. by rewrite Ef in H.
Qed.

(** ** Rebuilds are rate limited *)
(** Every answer in the history is the section's. *)
Fixpoint consistent (h : History) : Prop :=
  match h with
  | [] => True
  | e :: h => match e with ELock c a => a = (perform c (replay h)).1 | _ => True end /\ consistent h
  end.
Lemma should_rebuild_stamp now s :
  last_rebuild_at (should_rebuild now s).2 = if (should_rebuild now s).1 then Some now else last_rebuild_at s.
Proof. unfold should_rebuild. by repeat case_match. Qed.
Lemma rebuild_step l e h :
  consistent (e :: h) ->
  last_rebuild_at (streak_of l (replay (e :: h))) =
    (if granted l e is Some t then Some t else last_rebuild_at (streak_of l (replay h))) /\
  (forall t, granted l e = Some t -> (should_rebuild t (streak_of l (replay h))).1 = true).
Proof.
  intros [He _]. destruct e as [A c a| |]; [|split; [done|by intros t]..].
  destruct c; try (split; [by destruct l; by_section; run_section|by intros t]); subst a; destruct l; cbn;
    unfold on_dns, on_transport, transport_rebuild_section, should_rebuild_agents;
    match goal with
    | |- context [should_rebuild ?now ?s] =>
        pose proof (should_rebuild_stamp now s) as Hs; destruct (should_rebuild now s) as [[] s'] eqn:E; cbn in *
    end; (split; [done|]); intros t; first [done|intros [= <-]; by rewrite E].
Qed.

(** A ladder asks for a rebuild only in an outage of at least ten minutes, and
    at least ten minutes after the last one it asked for. *)
Lemma grant_spec l e h t :
  consistent (e :: h) -> granted l e = Some t ->
  (exists t0, stretch (ladder_failed l) (ladder_ok l) h t0 3 /\ REBUILD_MIN_OUTAGE <= duration_since t t0) /\
  match last_rebuild_at (streak_of l (replay h)) with
  | Some t' => REBUILD_MIN_INTERVAL <= duration_since t t'
  | None => True
  end.
Proof.
  intros Hc Hg. apply (rebuild_step l) in Hc as [_ Hc]. specialize (Hc t Hg). unfold should_rebuild in Hc.
  destruct (outage_duration _ _) as [d|] eqn:Ed; [|done]. apply outage_stretch in Ed as (t0 & Hs & ->).
  destruct (_ <? _) eqn:E1; [done|]. destruct (negb _) eqn:E2; [done|]. zbool. split; [by exists t0|].
  unfold due in E2. case_match; [by zbool|done].
Qed.
Lemma last_grant l h : consistent h ->
  forall pre e post t, h = pre ++ e :: post -> granted l e = Some t -> Forall (fun e => granted l e = None) pre ->
  last_rebuild_at (streak_of l (replay h)) = Some t.
Proof.
  induction h as [|e' h IH]; intros Hc pre e post t Hh Hg Hpre; [by destruct pre|].
  destruct (rebuild_step l e' h Hc) as [-> _]. destruct pre as [|e'' pre]; simplify_eq/=; [by rewrite Hg|].
  apply Forall_cons in Hpre as [-> Hpre]. by eapply (IH (proj2 Hc)).
Qed.

(** ** Stall reports and recoveries take turns *)
(** A stall the watchdog reports for the first time, and a success that ends a
    reported stall. *)
Definition stalled (e : Event) : bool :=
  match e with
  | @ELock A c a =>
      match c in Locked A return A -> bool with
      | SyncFailure _ _ => fun d => if stall d is Some r then first_report r else false
      | _ => fun _ => false
      end a
  | _ => false
  end.
Definition recovered (e : Event) : bool :=
  match e with
  | @ELock A c a => match c in Locked A return A -> bool with SyncSuccess => fun b => b | _ => fun _ => false end a
  | _ => false
  end.
Lemma stall_step e h :
  consistent (e :: h) ->
  let marked n := stall_marked (watchdog n) in
  (stalled e = true -> marked (replay h) = false /\ marked (replay (e :: h)) = true) /\
  (recovered e = true -> marked (replay h) = true /\ marked (replay (e :: h)) = false) /\
  (stalled e = false -> recovered e = false -> marked (replay (e :: h)) = marked (replay h)).
Proof.
  intros [He _]. destruct e as [A c a| |]; [|done..].
  destruct c; try (split_and!; [done..|]; intros _ _; by_section; run_section; done); subst a; cbn.
  - by destruct (stall_marked _) eqn:E.
  - destruct (stall_due _ _ _); cbn; destruct (stall_marked _) eqn:E; cbn; naive_solver.
Qed.
