(* ===== verification/NetThreads.v ===== *)
(** What the threads of crates/ottto-service/src/net_resilience.rs guarantee in
    any interleaving: a small program logic over [Prog], and the theorems about
    restarts, rebuilds, answers of the resolver and its workers. *)
From stdpp Require Import gmap.
From S2P Require Import Prelude Text Std NetState NetProcess NetLaws.
Local Open Scope Z_scope.

(** ** A program logic *)
(** What a thread does is safe when, whatever others did since it last ran, its
    next step keeps [Inv], its questions are allowed and its result is right.
    [h] is the history when the thread last ran. *)
Section Safe.
Context {R : Type} (Inv : History -> Prop) (allowed : forall A, Env A -> History -> Prop) (post : R -> History -> Prop).
Fixpoint safe (p : Prog R) (h : History) : Prop :=
  match p with
  | Ret r => post r h
  | Lock c k => forall h', h `suffix_of` h' -> Inv h' ->
      let a := (perform c (replay h')).1 in Inv (ELock c a :: h') /\ safe (k a) (ELock c a :: h')
  | Ask q k => allowed _ q h /\ forall a h', h `suffix_of` h' -> Inv h' ->
      Inv (EAsk q a :: h') /\ safe (k a) (EAsk q a :: h')
  | Fork w k => forall h', h `suffix_of` h' -> Inv h' -> Inv (EFork w :: h') /\ safe k (EFork w :: h')
  end.
End Safe.

Lemma safe_bind {R S} Inv allowed (post : S -> History -> Prop) (p : Prog R) (f : R -> Prog S) h :
  safe Inv allowed (fun r => safe Inv allowed post (f r)) p h -> safe Inv allowed post (bind p f) h.
Proof.
  revert h. induction p as [r|A c k IH|A q k IH|w k IH]; intros h; cbn.
  - done.
  - intros H h' Hh Hi. destruct (H h' Hh Hi) as [? ?]. split; [done|by apply IH].
  - intros [Hq H]. split; [done|]. intros a h' Hh Hi. destruct (H a h' Hh Hi) as [? ?]. split; [done|by apply IH].
  - intros H h' Hh Hi. destruct (H h' Hh Hi) as [? ?]. split; [done|by apply IH].
Qed.
Lemma safe_mono {R} Inv allowed (post post' : R -> History -> Prop) (p : Prog R) h :
  safe Inv allowed post p h -> (forall r h', h `suffix_of` h' -> post r h' -> post' r h') -> safe Inv allowed post' p h.
Proof.
  revert h. induction p as [r|A c k IH|A q k IH|w k IH]; intros h Hs Hp; cbn in *.
  - by apply Hp.
  - intros h' Hh Hi. destruct (Hs h' Hh Hi) as [? ?]. split; [done|]. apply IH; [done|].
    intros r h'' ?. apply Hp. etrans; [exact Hh|]. by eapply suffix_cons_l.
  - destruct Hs as [? Hs]. split; [done|]. intros a h' Hh Hi. destruct (Hs a h' Hh Hi) as [? ?]. split; [done|].
    apply IH; [done|]. intros r h'' ?. apply Hp. etrans; [exact Hh|]. by eapply suffix_cons_l.
  - intros h' Hh Hi. destruct (Hs h' Hh Hi) as [? ?]. split; [done|]. apply IH; [done|].
    intros r h'' ?. apply Hp. etrans; [exact Hh|]. by eapply suffix_cons_l.
Qed.

(** One step at a time, without unfolding the rest of the program. *)
Lemma safe_lock {A S} Inv allowed (post : S -> History -> Prop) (c : Locked A) (k : A -> Prog S) h :
  (forall h', h `suffix_of` h' -> Inv h' ->
     Inv (ELock c (perform c (replay h')).1 :: h') /\
     safe Inv allowed post (k (perform c (replay h')).1) (ELock c (perform c (replay h')).1 :: h')) ->
  safe Inv allowed post (bind (lock c) k) h.
Proof. done. Qed.
Lemma safe_ask {A S} Inv allowed (post : S -> History -> Prop) (q : Env A) (k : A -> Prog S) h :
  allowed _ q h ->
  (forall a h', h `suffix_of` h' -> Inv h' -> Inv (EAsk q a :: h') /\ safe Inv allowed post (k a) (EAsk q a :: h')) ->
  safe Inv allowed post (bind (ask q) k) h.
Proof. done. Qed.

Lemma suffix_tail (e : Event) h h' : e :: h `suffix_of` h' -> h `suffix_of` h'.
Proof. apply suffix_cons_l. Qed.
Lemma suffix_head (e : Event) h h' : e :: h `suffix_of` h' -> e ∈ h'.
Proof. intros [k ->]. apply elem_of_app. right. left. Qed.
#[local] Hint Resolve suffix_tail suffix_head : core.

(** *** Adequacy *)
Lemma step_past s s' : step s s' -> past s `suffix_of` past s'.
Proof. destruct 1; cbn; by eexists [_]. Qed.
Lemma reaches_past s s' : reaches s s' -> past s `suffix_of` past s'.
Proof. induction 1; [done|]. etrans; [done|by apply step_past]. Qed.
Lemma step_consistent s s' : consistent (past s) -> step s s' -> consistent (past s').
Proof. intros Hc. by destruct 1; cbn. Qed.
Lemma reaches_consistent s s' : consistent (past s) -> reaches s s' -> consistent (past s').
Proof. intros Hc. induction 1; [done|]. eapply step_consistent; [|done]. by apply IHreaches. Qed.

(** A thread that may take part: safe from some moment of the past on. *)
Definition thread_ok Inv allowed post (h : History) (t : Thread) : Prop :=
  exists h0, h0 `suffix_of` h /\ safe Inv allowed post (prog t) h0.
Lemma thread_ok_later Inv allowed post h h' t :
  h `suffix_of` h' -> thread_ok Inv allowed post h t -> thread_ok Inv allowed post h' t.
Proof. intros ? (h0 & ? & ?). exists h0. split; [by etrans|done]. Qed.

(** When every handler and every worker is safe, every reachable process
    satisfies the invariant and consists of safe threads. *)
Lemma adequacy Inv allowed (post : Outcome -> History -> Prop) s s' :
  (forall w h, safe Inv allowed post (finish (worker_program w)) h) ->
  Inv (past s) -> Forall (thread_ok Inv allowed post (past s)) (threads s) -> reaches s s' ->
  Inv (past s') /\ Forall (thread_ok Inv allowed post (past s')) (threads s').
Proof.
  intros Hw Hi Hok. induction 1 as [|s1 s2 _ [Hi1 Hok1] Hstep]; [done|]. clear Hi Hok.
  assert (Hlater : forall e, Forall (thread_ok Inv allowed post (e :: past s1)) (threads s1)).
  { intros e. eapply Forall_impl; [exact Hok1|]. intros t. apply thread_ok_later. by eexists [_]. }
  destruct Hstep as [s1 i w A c k Hi'|s1 i w A q a k Hi'|s1 i w v k Hi']; cbn;
    pose proof (Forall_lookup_1 _ _ _ _ Hok1 Hi') as (h0 & Hh & Hs); cbn in Hs.
  - destruct (Hs _ Hh Hi1) as [Hi2 Hs2]. split; [done|]. apply Forall_insert; [done|]. by eexists.
  - destruct Hs as [_ Hs]. destruct (Hs a _ Hh Hi1) as [Hi2 Hs2]. split; [done|]. apply Forall_insert; [done|]. by eexists.
  - destruct (Hs _ Hh Hi1) as [Hi2 Hs2]. split; [done|]. apply Forall_app. split.
    + apply Forall_insert; [done|]. by eexists.
    + repeat constructor. eexists. split; [done|apply Hw].
Qed.
(** One thread on its own, whatever the others are. *)
Lemma adequacy_one allowed (post : Outcome -> History -> Prop) s s' i t :
  threads s !! i = Some t -> safe (fun _ => True) allowed post (prog t) (past s) -> reaches s s' ->
  exists t', threads s' !! i = Some t' /\ thread_ok (fun _ => True) allowed post (past s') t'.
Proof.
  intros Ht Hs. induction 1 as [|s1 s2 _ (t1 & Ht1 & h0 & Hh & Hs1) Hstep]; [exists t; split; [done|by eexists]|].
  clear Hs.
  assert (Hkeep : forall e t', t' = t1 -> thread_ok (fun _ => True) allowed post (e :: past s1) t').
  { intros e t' ->. exists h0. split; [|done]. etrans; [done|]. by eexists [_]. }
  destruct Hstep as [s1 j w A c k Hj|s1 j w A q a k Hj|s1 j w v k Hj]; cbn;
    (destruct (decide (i = j)) as [->|Hne];
      [rewrite Ht1 in Hj; injection Hj as ->; cbn in Hs1
      |exists t1; split; [|by apply Hkeep]]).
  - eexists. split; [by apply list_lookup_insert_eq, lookup_lt_is_Some; eauto|]. eexists. split; [done|].
    by apply (Hs1 _ Hh).
  - by rewrite list_lookup_insert_ne.
  - eexists. split; [by apply list_lookup_insert_eq, lookup_lt_is_Some; eauto|]. eexists. split; [done|].
    by apply (proj2 Hs1 a _ Hh).
  - by rewrite list_lookup_insert_ne.
  - eexists. split; [apply lookup_app_l_Some; by apply list_lookup_insert_eq, lookup_lt_is_Some; eauto|].
    eexists. split; [done|]. by apply (Hs1 _ Hh).
  - apply lookup_app_l_Some. by rewrite list_lookup_insert_ne.
Qed.

(** A thread whose questions can all be answered can be run to its end. *)
Definition answerable A (q : Env A) (h : History) : Prop := inhabited A.
Lemma reaches_trans s1 s2 s3 : reaches s1 s2 -> reaches s2 s3 -> reaches s1 s3.
Proof. intros H. induction 1; [done|]. by eapply ReachesStep. Qed.
Definition can_finish (post : Outcome -> History -> Prop) (i : nat) (w : option Worker) (s : Process) : Prop :=
  exists s' r h, reaches s s' /\ threads s' !! i = Some (mkThread w (Ret r)) /\ post r h.
Lemma can_finish_step post i w s s1 : step s s1 -> can_finish post i w s1 -> can_finish post i w s.
Proof.
  intros Hstep (s' & r & h & Hr & H). exists s', r, h. split; [|done].
  eapply reaches_trans; [eapply ReachesStep; [apply ReachesRefl|exact Hstep]|exact Hr].
Qed.
Lemma safe_finishes (post : Outcome -> History -> Prop) (p : Prog Outcome) s i w h :
  threads s !! i = Some (mkThread w p) -> h `suffix_of` past s -> safe (fun _ => True) answerable post p h ->
  can_finish post i w s.
Proof.
  revert s h. induction p as [r|A c k IH|A q k IH|v k IH]; intros s h Hi Hh Hs; cbn in Hs;
    pose proof (lookup_lt_Some _ _ _ Hi) as Hlt.
  - exists s, r, h. split_and!; [apply ReachesRefl|done..].
  - destruct (Hs _ Hh I) as [_ Hk]. eapply can_finish_step; [exact (StepLock _ _ _ _ _ _ Hi)|].
    eapply IH; [by apply list_lookup_insert_eq| |exact Hk]. done.
  - destruct Hs as [[a] Hs]. destruct (Hs a _ Hh I) as [_ Hk].
    eapply can_finish_step; [exact (StepAsk _ _ _ _ _ a _ Hi)|].
    eapply IH; [by apply list_lookup_insert_eq| |exact Hk]. done.
  - destruct (Hs _ Hh I) as [_ Hk]. eapply can_finish_step; [exact (StepFork _ _ _ _ _ Hi)|].
    eapply IH; [by apply lookup_app_l_Some, list_lookup_insert_eq| |exact Hk]. done.
Qed.

(** ** The last resort *)
Definition aborting (p : Prog Outcome) : option SelfRestartReason :=
  match p with Ask q _ => match q with Abort_ reason => Some reason | _ => None end | _ => None end.
(** Failed syncs and failures of one ladder, each over at least an hour without
    a success, fresh evidence that the network works, and no veto. *)
Definition restart_justified_by (reason : SelfRestartReason) (h : History) : Prop :=
  exists now watched read, read `suffix_of` watched /\ watched `suffix_of` h /\ EAsk Now now ∈ read /\
    (exists t0, stretch sync_failed sync_ok watched t0 1 /\ SELF_RESTART_MIN_OUTAGE <= duration_since now t0) /\
    (exists t0, stretch (ladder_failed reason) (ladder_ok reason) read t0 3 /\
                SELF_RESTART_MIN_OUTAGE <= duration_since now t0) /\
    (exists e t, e ∈ watched /\ (probed reason e = Some t \/ uploaded e = Some t) /\
                 duration_since now t <= SELF_RESTART_EVIDENCE_FRESHNESS) /\
    (exists var, EAsk SelfRestartVar var ∈ h /\ self_restart_enabled var = true).
Definition only_justified_aborts A (q : Env A) (h : History) : Prop :=
  match q with Abort_ reason => restart_justified_by reason h | _ => True end.
Abbreviation abort_safe p h := (safe (fun _ => True) only_justified_aborts (fun _ _ => True) p h).

(** What the decision rests on, read off the two reading sections. *)
Lemma decision_evidence reason r now since w :
  restart_decision r (duration_since now since) now w = Some reason ->
  SELF_RESTART_MIN_OUTAGE <= duration_since now since /\
  let outage := match reason with DnsOutage => dns_outage r | TransportOutage => transport_outage r end in
  let probe := match reason with DnsOutage => probe_success_fresh r | TransportOutage => tcp_probe_success_fresh r end in
  (exists d, outage = Some d /\ SELF_RESTART_MIN_OUTAGE <= d) /\
  (probe = true \/ other_upload_within SELF_RESTART_EVIDENCE_FRESHNESS now w = true).
Proof.
  intros H. unfold restart_decision in H. cbv zeta.
  assert (Hat : forall o, at_least o = true -> exists d, o = Some d /\ SELF_RESTART_MIN_OUTAGE <= d).
  { intros [d|]; [|done]. intros. exists d. split; [done|by apply Z.leb_le]. }
  repeat (case_match; simplify_eq); zbool; split_and!; try done; by (apply Hat || apply orb_true_iff).
Qed.
Lemma fresh_seen (seen : Event -> option Instant) last (h : History) now :
  (forall t, last = Some t -> exists e, e ∈ h /\ seen e = Some t) ->
  fresh last SELF_RESTART_EVIDENCE_FRESHNESS now = true ->
  exists e t, e ∈ h /\ seen e = Some t /\ duration_since now t <= SELF_RESTART_EVIDENCE_FRESHNESS.
Proof.
  unfold fresh. destruct last as [t|]; [|done]. intros Hs Hf. destruct (Hs t eq_refl) as (e & ? & ?).
  exists e, t. split_and!; [done..|by zbool].
Qed.

(** The readings of a failed sync are the ladder's: taken at [h1] for names,
    at [h2] for uploads. *)
Lemma justified_of_decision reason (h1 h2 h3 h : History) now dns_fresh tcp_fresh var :
  h1 `suffix_of` h2 -> h2 `suffix_of` h3 -> h3 `suffix_of` h -> EAsk Now now ∈ h1 ->
  dns_fresh = fresh (last_probe DnsOutage (replay h1)) SELF_RESTART_EVIDENCE_FRESHNESS now ->
  tcp_fresh = fresh (last_probe TransportOutage (replay h2)) SELF_RESTART_EVIDENCE_FRESHNESS now ->
  self_restart (decide_sync_failure
    (mkReadings (outage_duration now (streak_of DnsOutage (replay h1))) dns_fresh
       (outage_duration now (streak_of TransportOutage (replay h2))) tcp_fresh) now (watchdog (replay h3))).1 = Some reason ->
  EAsk SelfRestartVar var ∈ h -> self_restart_enabled var = true ->
  restart_justified_by reason h.
Proof.
  intros H12 H23 H3 Hnow -> -> Hd Hvar Hen. unfold decide_sync_failure in Hd. cbn [fst self_restart] in Hd.
  apply decision_evidence in Hd as (Hfail & (d & Hout & Hd) & Hev). cbn in Hout, Hev.
  set (read := match reason with DnsOutage => h1 | TransportOutage => h2 end).
  assert (Hread : read `suffix_of` h3 /\ h1 `suffix_of` read) by (destruct reason; split; [by etrans| |done..]; done).
  exists now, h3, read. split_and!; [apply Hread|done| | | | |by exists var].
  - destruct Hread as [_ [k ->]]. apply elem_of_app. by right.
  - destruct (sync_failing_since _) as [t0|] eqn:E; cbn in Hfail.
    + exists t0. split; [by apply sync_failing_stretch|done].
    + unfold duration_since, SELF_RESTART_MIN_OUTAGE, secs in Hfail. lia.
  - destruct reason; [apply (outage_stretch DnsOutage) in Hout|apply (outage_stretch TransportOutage) in Hout];
      destruct Hout as (t0 & Hs & ->); by exists t0.
  - destruct Hev as [Hev|Hev].
    + assert (exists e t, e ∈ read /\ probed reason e = Some t /\ duration_since now t <= SELF_RESTART_EVIDENCE_FRESHNESS)
        as (e & t & He & Hp & Ht)
        by (destruct reason; (eapply fresh_seen; [|exact Hev]); [apply (probe_seen DnsOutage)|apply (probe_seen TransportOutage)]).
      exists e, t. split_and!; [|by left|done]. destruct Hread as [[k ->] _]. apply elem_of_app. by right.
    + destruct (fresh_seen uploaded (last_other_upload_at (watchdog (replay h3))) h3 now) as (e & t & He & Hp & Ht);
        [apply upload_seen|done|]. exists e, t. split_and!; [done|by right|done].
Qed.

Section Threads.
Context (parse_socket_addr : string -> option SocketAddr) (parse_ip : list Z -> option IpAddr).
Abbreviation run := (program parse_socket_addr parse_ip).

(** Runs the logic through a program that asks nothing of it. *)
Ltac walk :=
  repeat first [done | progress cbn | progress intros | case_match; simplify_eq | split
    | progress unfold resolve_at, resolve_by_at, resolve_primary_result, resolve_primary_result_bounded,
        fall_back, fall_back_bounded, probe_until, locked_by, out_of_process_tcp_probe].
Lemma worker_abort_safe w h : abort_safe (finish (worker_program w)) h.
Proof. destruct w; walk. Qed.
Lemma act_on_abort_safe decision h :
  (forall reason var h', self_restart decision = Some reason -> h `suffix_of` h' -> EAsk SelfRestartVar var ∈ h' ->
     self_restart_enabled var = true -> restart_justified_by reason h') ->
  abort_safe (act_on decision) h.
Proof.
  intros Hj. unfold act_on. apply safe_bind.
  assert (Htail : forall h', h `suffix_of` h' -> abort_safe
    match self_restart decision with
    | Some reason => let! var := ask SelfRestartVar in
        if self_restart_enabled var then let! dead := ask (Abort_ reason) in match dead : Empty_set with end else Ret tt
    | None => Ret tt
    end h').
  { intros h' Hh. destruct (self_restart decision) as [reason|] eqn:E; [|done]. cbn. split; [done|].
    intros var h'' Hh' _. split; [done|]. destruct (self_restart_enabled var) eqn:Ev; [|done]. cbn. split; [|by intros dead; destruct dead].
    eapply Hj; [done|..|left|done]. etrans; [exact Hh|]. etrans; [exact Hh'|]. by eexists [_]. }
  destruct (stall decision) as [[? ? [] ?]|]; cbn; try (by apply Htail).
  split; [done|]. intros [] h' Hh _. split; [done|]. apply Htail. etrans; [exact Hh|]. by eexists [_].
Qed.
Lemma sync_failure_abort_safe h : abort_safe (run HSyncFailure) h.
Proof.
  cbn [program]. apply safe_bind. unfold handle_sync_failure.
  apply safe_ask; [done|]. intros now h0 _ _. split; [done|].
  apply safe_lock. intros h1 H1 _. split; [done|]. cbn [perform fst].
  apply safe_lock. intros h2 H2 _. split; [done|]. cbn [perform fst].
  apply safe_lock. intros h3 H3 _. split; [done|]. cbn [perform]. unfold on_watchdog.
  destruct (decide_sync_failure _ now (watchdog (replay h3))) as [decision w] eqn:E. cbn [fst].
  apply act_on_abort_safe. intros reason var h' Hr Hh Hvar Hen.
  eapply (justified_of_decision reason h1 h2 h3); [by eauto..|by eauto|done|done| |exact Hvar|exact Hen].
  transitivity (self_restart (decision, w).1); [by rewrite <-E|done].
Qed.
Lemma run_abort_safe handler h : abort_safe (run handler) h.
Proof. destruct handler; try apply sync_failure_abort_safe; walk. Qed.
End Threads.

(** C4: The process aborts itself only as a last resort.  In any interleaving of
    its handlers, a thread about to abort has seen syncs fail for an hour
    without a success, name resolution (or the uploads' connections) fail at
    least three times over an hour without a success, a child process or
    another upload get through within a quarter of an hour, and no veto of the
    operator. *)
Theorem restart_justified parse_socket_addr parse_ip handlers s t reason :
  reaches (start (program parse_socket_addr parse_ip <$> handlers)) s -> t ∈ threads s ->
  aborting (prog t) = Some reason -> restart_justified_by reason (past s).
Proof.
  intros Hr Ht Ha. destruct (adequacy (fun _ => True) only_justified_aborts (fun _ _ => True)
    (start (program parse_socket_addr parse_ip <$> handlers)) s) as [_ Hok];
    [intros w h; apply worker_abort_safe|done| |done|].
  - apply Forall_forall. intros t' (p & -> & (handler & -> & _)%list_elem_of_fmap)%list_elem_of_fmap.
    exists []. split; [done|apply run_abort_safe].
  - rewrite Forall_forall in Hok. destruct (Hok t Ht) as (h & Hh & Hs). destruct t as [w p]. cbn in *.
    destruct p as [| |A q k|]; try done. destruct q; try done. injection Ha as ->. destruct Hs as [Hj _].
    destruct Hj as (now & watched & read & ? & ? & ? & ? & ? & ? & var & ? & ?).
    exists now, watched, read. split_and!; try done; [by etrans|]. exists var. split; [|done].
    destruct Hh as [k' ->]. apply elem_of_app. by right.
Qed.
