(* ===== verification/NetResolver.v ===== *)
(** What the resolvers of crates/ottto-service/src/net_resilience.rs answer, in
    any interleaving with each other. *)
From stdpp Require Import gmap.
From S2P Require Import Prelude Text Std NetState NetProcess NetLaws NetThreads.
Local Open Scope Z_scope.

(** The addresses a section records, and for which [host:port]. *)
Definition recorded (e : Event) : option (string * list SocketAddr) :=
  match e with
  | ELock (ResolutionSucceeded netloc addrs) _ => Some (netloc, addrs)
  | ELock (ProbeSucceeded netloc addrs _) _ => Some (netloc, addrs)
  | _ => None
  end.
Lemma last_good_step e h :
  last_good (dns (replay (e :: h))) =
  if recorded e is Some (netloc, addrs) then <[netloc := addrs]> (last_good (dns (replay h)))
  else last_good (dns (replay h)).
Proof. by_section; run_section; done. Qed.
Lemma recorded_known h netloc :
  (exists e addrs, e ∈ h /\ recorded e = Some (netloc, addrs)) -> is_Some (last_good (dns (replay h)) !! netloc).
Proof.
  intros (e & addrs & He & Hr). induction h as [|e' h IH]; [by apply elem_of_nil in He|].
  rewrite last_good_step. apply elem_of_cons in He as [<-|He].
  - rewrite Hr. by rewrite lookup_insert_eq.
  - destruct (IH He) as [old Ho]. destruct (recorded e') as [[n a]|]; [|by exists old].
    destruct (decide (n = netloc)) as [->|?]; [by rewrite lookup_insert_eq|]. rewrite lookup_insert_ne by done. by exists old.
Qed.
Lemma known_later h h' netloc :
  h `suffix_of` h' -> is_Some (last_good (dns (replay h)) !! netloc) -> is_Some (last_good (dns (replay h')) !! netloc).
Proof.
  intros [k ->] Hk. induction k as [|e k IH]; [done|]. cbn [app]. rewrite last_good_step.
  destruct (recorded e) as [[n a]|]; [|done].
  destruct (decide (n = netloc)) as [->|?]; [by rewrite lookup_insert_eq|]. by rewrite lookup_insert_ne.
Qed.

Section Answers.
Context (parse_socket_addr : string -> option SocketAddr) (parse_ip : list Z -> option IpAddr).
Abbreviation run := (program parse_socket_addr parse_ip).

(** The addresses an answer of the environment gives for a [host:port]: the
    system's resolver, or a child process, in the thread or in its worker. *)
Definition answers_for (netloc : string) (e : Event) : option (list SocketAddr) :=
  let of_ips host ips :=
    try? (asked, port) := split_netloc netloc in if decide (asked = host) then socket_addrs port ips else None in
  match e with
  | @EAsk A q a =>
      match q in Env A return A -> option (list SocketAddr) with
      | ResolvePrimary asked => fun r => if decide (asked = netloc) then if r is inr addrs then Some addrs else None else None
      | ReceivePrimary asked _ =>
          fun r => if decide (asked = netloc) then if r is Some (inr addrs) then Some addrs else None else None
      | Dscacheutil host _ => fun output => of_ips host (addresses_of_output parse_ip output)
      | ReceiveProbe host _ => fun received => of_ips host (default None received)
      | _ => fun _ => None
      end a
  | _ => None
  end.
Definition real (netloc : string) (addrs : list SocketAddr) (h : History) : Prop :=
  addrs <> [] /\ exists e, e ∈ h /\ answers_for netloc e = Some addrs.
(** Only real addresses are remembered. *)
Definition remembers_real (h : History) : Prop :=
  forall netloc addrs, last_good (dns (replay h)) !! netloc = Some addrs -> real netloc addrs h.
Abbreviation real_safe post p h := (safe remembers_real (fun _ _ _ => True) post p h).

Lemma real_later netloc addrs h h' : h `suffix_of` h' -> real netloc addrs h -> real netloc addrs h'.
Proof. intros [k ->] (? & e & ? & ?). split; [done|]. exists e. split; [|done]. apply elem_of_app. by right. Qed.
Lemma real_step e h :
  remembers_real h -> (forall netloc addrs, recorded e = Some (netloc, addrs) -> real netloc addrs h) ->
  remembers_real (e :: h).
Proof.
  intros Hi He netloc addrs. rewrite last_good_step. intros Hl. apply (real_later _ _ h); [by eexists [_]|].
  destruct (recorded e) as [[n a]|]; [|by apply Hi].
  destruct (decide (n = netloc)) as [->|?].
  - rewrite lookup_insert_eq in Hl. injection Hl as ->. by apply He.
  - rewrite lookup_insert_ne in Hl by done. by apply Hi.
Qed.
Lemma real_quiet e h : recorded e = None -> remembers_real h -> remembers_real (e :: h).
Proof. intros He Hi. apply real_step; [done|]. by rewrite He. Qed.

(** Recording a real answer, then returning it. *)
Definition answer_real (netloc : string) (r : Resolution) (h : History) : Prop :=
  forall addrs, r = inr addrs -> real netloc addrs h.
Lemma record_real {A} netloc addrs (c : Locked A) h :
  (forall a, recorded (ELock c a) = Some (netloc, addrs)) -> real netloc addrs h ->
  real_safe (answer_real netloc) (let! _ := lock c in Ret (inr addrs)) h.
Proof.
  intros Hc Hr. apply safe_lock. intros h' Hh Hi. split.
  - apply real_step; [done|]. intros n a. rewrite Hc. intros [= <- <-]. by apply (real_later _ _ h).
  - intros a [= <-]. apply (real_later _ _ h'); [by eexists [_]|]. by apply (real_later _ _ h).
Qed.
Lemma fallback_real netloc stale now h :
  real netloc stale h -> real_safe (answer_real netloc) (let! _ := lock (FallbackLog now) in Ret (inr stale)) h.
Proof.
  intros Hr. apply safe_lock. intros h' Hh Hi. split; [by apply real_quiet|].
  intros a [= <-]. apply (real_later _ _ h'); [by eexists [_]|]. by apply (real_later _ _ h).
Qed.
Lemma failed_stale netloc now h :
  (perform (ResolutionFailed netloc now) (replay h)).1.2 = last_good (dns (replay h)) !! netloc.
Proof. cbn. unfold on_dns, failed_section, dns_should_attempt_probe. by destruct (due _ _ _). Qed.
Lemma socket_addrs_real netloc host port ips addrs h e :
  split_netloc netloc = Some (host, port) -> socket_addrs port ips = Some addrs ->
  answers_for netloc e = socket_addrs port ips -> e ∈ h -> real netloc addrs h.
Proof.
  intros Hs Ha He Hh. split; [|exists e; split; [done|congruence]].
  destruct ips as [[|i ips]|]; cbn in Ha; by simplify_eq.
Qed.

(** The probe of a fallback answers with real addresses, or with nothing. *)
Definition probe_real (netloc : string) (r : option (list SocketAddr)) (h : History) : Prop :=
  forall addrs, r = Some addrs -> real netloc addrs h.
Lemma fall_back_real netloc now failure timeout h :
  real_safe (answer_real netloc) (fall_back parse_ip netloc now failure timeout) h.
Proof.
  apply safe_lock. intros h1 H1 Hi1. split; [by apply real_quiet|].
  pose proof (failed_stale netloc now h1) as Hst.
  destruct (perform (ResolutionFailed netloc now) (replay h1)).1 as [probe_due stale]. cbn [snd] in Hst.
  set (h2 := _ :: h1). apply safe_bind.
  apply (safe_mono _ _ (probe_real netloc)).
  - destruct probe_due; [|done]. destruct (split_netloc netloc) as [[host port]|] eqn:Es; [|done].
    apply safe_ask; [done|]. intros output h3 H3 Hi3. split; [by apply real_quiet|]. intros addrs Ha.
    eapply socket_addrs_real; [done|exact Ha| |left]. cbn. rewrite Es. cbn. by rewrite decide_True.
  - intros probed h3 H3 Hp. destruct probed as [addrs|]; [apply record_real; [done|by apply Hp]|].
    destruct stale as [stale|]; [|by intros]. apply fallback_real. apply (real_later _ _ h1); [|by apply Hi1].
    etrans; [|exact H3]. by eexists [_].
Qed.
Lemma resolve_primary_result_real netloc now primary timeout h :
  (forall addrs, primary = inr addrs -> addrs <> [] -> real netloc addrs h) ->
  real_safe (answer_real netloc) (resolve_primary_result parse_ip netloc now primary timeout) h.
Proof.
  intros Hp. destruct primary as [kind|[|addr addrs]]; [apply fall_back_real..|]. apply record_real; [done|by apply Hp].
Qed.

Lemma locked_by_real netloc deadline k h :
  (forall h', h `suffix_of` h' -> real_safe (answer_real netloc) k h') -> real_safe (answer_real netloc) (locked_by deadline k) h.
Proof.
  intros Hk. apply safe_ask; [done|]. intros got h1 H1 Hi1. split; [by apply real_quiet|].
  destruct got; [|by intros]. apply Hk. etrans; [done|]. by eexists [_].
Qed.
(** What a probe by the deadline returns, its worker received. *)
Definition received (host : string) (r : option (list IpAddr)) (h : History) : Prop :=
  forall ips, r = Some ips -> exists wait a, EAsk (ReceiveProbe host wait) a ∈ h /\ default None a = Some ips.
Lemma probe_until_real host deadline timeout h : real_safe (received host) (probe_until host deadline timeout) h.
Proof.
  apply safe_ask; [done|]. intros now h1 _ Hi1. split; [by apply real_quiet|].
  destruct (checked_duration_since deadline now) as [left_|]; [|done]. destruct (left_ =? 0); [done|].
  apply safe_lock. intros h2 _ Hi2. split; [by apply real_quiet|].
  destruct (perform (Acquire ProbeGate) (replay h2)).1; [|done].
  apply safe_ask; [done|]. intros [] h3 _ Hi3; (split; [by apply real_quiet|]).
  - intros h4 _ Hi4. split; [by apply real_quiet|]. apply safe_ask; [done|]. intros now' h5 _ Hi5.
    split; [by apply real_quiet|]. destruct (checked_duration_since deadline now') as [wait|]; [|done].
    apply safe_ask; [done|]. intros a h6 _ Hi6. split; [by apply real_quiet|].
    intros ips Hips. exists wait, a. split; [left|done].
  - apply safe_lock. intros h4 _ Hi4. split; [by apply real_quiet|done].
Qed.
Lemma fall_back_bounded_real netloc now failure deadline timeout h :
  real_safe (answer_real netloc) (fall_back_bounded netloc now failure deadline timeout) h.
Proof.
  apply locked_by_real. intros h0 _. apply safe_lock. intros h1 H1 Hi1. split; [by apply real_quiet|].
  pose proof (failed_stale netloc now h1) as Hst.
  destruct (perform (ResolutionFailed netloc now) (replay h1)).1 as [probe_due stale]. cbn [snd] in Hst.
  set (h2 := _ :: h1). apply safe_bind.
  apply (safe_mono _ _ (probe_real netloc)).
  - destruct probe_due; [|done]. destruct (split_netloc netloc) as [[host port]|] eqn:Es; [|done].
    apply safe_bind. eapply safe_mono; [apply probe_until_real|]. intros ips h3 H3 Hr addrs Ha.
    destruct ips as [ips|]; [|done]. destruct (Hr ips eq_refl) as (wait & a & Hin & Hd).
    eapply socket_addrs_real; [done|exact Ha| |exact Hin]. cbn. rewrite Es. cbn. by rewrite decide_True, Hd.
  - intros probed h3 H3 Hp. destruct probed as [addrs|].
    { apply locked_by_real. intros h4 H4. apply record_real; [done|]. apply (real_later _ _ h3); [done|by apply Hp]. }
    destruct stale as [stale|]; [|by intros].
    assert (Hs : real netloc stale h3).
    { apply (real_later _ _ h1); [|by apply Hi1]. etrans; [|exact H3]. by eexists [_]. }
    apply safe_ask; [done|]. intros got h4 H4 Hi4. split; [by apply real_quiet|]. destruct got.
    + apply fallback_real. apply (real_later _ _ h3); [|done]. etrans; [done|]. by eexists [_].
    + intros addrs [= <-]. apply (real_later _ _ h3); [|done]. etrans; [done|]. by eexists [_].
Qed.
Lemma resolve_primary_result_bounded_real netloc now primary deadline timeout h :
  (forall addrs, primary = inr addrs -> addrs <> [] -> real netloc addrs h) ->
  real_safe (answer_real netloc) (resolve_primary_result_bounded netloc now primary deadline timeout) h.
Proof.
  intros Hp. destruct primary as [kind|[|addr addrs]]; [apply fall_back_bounded_real..|].
  apply locked_by_real. intros h' Hh. apply record_real; [done|]. apply (real_later _ _ h); [done|by apply Hp].
Qed.

(** *** The handlers *)
(** A literal is its own answer. *)
Definition outcome_real (o : Outcome) (h : History) : Prop :=
  match o with
  | Resolved netloc (inr addrs) =>
      (exists literal, parse_socket_addr netloc = Some literal /\ addrs = [literal]) \/ real netloc addrs h
  | _ => True
  end.
Lemma answer_outcome netloc (r : Resolution) h : answer_real netloc r h -> outcome_real (Resolved netloc r) h.
Proof. destruct r as [|addrs]; [done|]. intros Ha. right. by apply Ha. Qed.
Lemma resolve_outcome netloc h : real_safe outcome_real (run (HResolve netloc)) h.
Proof.
  cbn [program]. apply safe_bind, safe_ask; [done|]. intros now h1 _ Hi1. split; [by apply real_quiet|].
  unfold resolve_at. destruct (parse_socket_addr netloc) as [literal|] eqn:El; [left; by exists literal|].
  apply safe_ask; [done|]. intros primary h2 _ Hi2. split; [by apply real_quiet|].
  eapply safe_mono; [apply resolve_primary_result_real|].
  - intros addrs -> Hne. split; [done|]. eexists. split; [left|]. cbn. by rewrite decide_True.
  - intros r h3 _. apply answer_outcome.
Qed.
Lemma resolve_by_outcome timeout netloc h : real_safe outcome_real (run (HResolveBy timeout netloc)) h.
Proof.
  cbn [program]. apply safe_bind, safe_ask; [done|]. intros now h1 _ Hi1. split; [by apply real_quiet|].
  unfold resolve_by_at. destruct (parse_socket_addr netloc) as [literal|] eqn:El; [left; by exists literal|].
  destruct (timeout =? 0); [apply safe_lock; intros h2 _ Hi2; split; [by apply real_quiet|done]|].
  apply safe_ask; [done|]. intros started h2 _ Hi2. split; [by apply real_quiet|].
  assert (Hb : forall primary h', (forall addrs, primary = inr addrs -> addrs <> [] -> real netloc addrs h') ->
    real_safe (fun r h => real_safe outcome_real (Ret (Resolved netloc r)) h)
      (resolve_primary_result_bounded netloc now primary (started + timeout) timeout) h').
  { intros primary h' Hp. eapply safe_mono; [by apply resolve_primary_result_bounded_real|].
    intros r h3 _. apply answer_outcome. }
  apply safe_lock. intros h3 _ Hi3. split; [by apply real_quiet|].
  destruct (perform (Acquire PrimaryGate) (replay h3)).1; [|by apply Hb].
  apply safe_ask; [done|]. intros [] h4 _ Hi4; (split; [by apply real_quiet|]).
  - intros h5 _ Hi5. split; [by apply real_quiet|]. apply safe_ask; [done|]. intros a h6 _ Hi6.
    split; [by apply real_quiet|]. apply Hb. intros addrs Ha Hne. split; [done|].
    eexists. split; [left|]. cbn. rewrite decide_True by done. destruct a as [[|addrs']|]; cbn in Ha; congruence.
  - apply safe_lock. intros h5 _ Hi5. split; [by apply real_quiet|]. by apply Hb.
Qed.
(** The other handlers and the workers record nothing. *)
Fixpoint records_nothing (p : Prog Outcome) : Prop :=
  match p with
  | Ret o => match o with Resolved _ _ => False | _ => True end
  | Lock c k => (forall a, recorded (ELock c a) = None) /\ forall a, records_nothing (k a)
  | Ask q k => forall a, records_nothing (k a)
  | Fork w k => records_nothing k
  end.
Lemma quiet_safe p h : records_nothing p -> real_safe outcome_real p h.
Proof.
  revert h. induction p as [o|A c k IH|A q k IH|w k IH]; intros h Hq; cbn in Hq |- *.
  - by destruct o.
  - destruct Hq as [Hc Hk]. intros h' _ Hi.
    split; [apply real_quiet; [exact (Hc (perform c (replay h')).1)|done]|]. by apply IH.
  - split; [done|]. intros a h' _ Hi. split; [by apply real_quiet|]. by apply IH.
  - intros h' _ Hi. split; [by apply real_quiet|]. by apply IH.
Qed.
Lemma worker_records_nothing w : records_nothing (finish (worker_program w)).
Proof. by destruct w. Qed.
Lemma act_on_records_nothing decision : records_nothing (finish (act_on decision)).
Proof.
  destruct decision as [[[? ? [] ?]|] [reason|]]; cbn; intros;
    repeat (case_match || intro); done.
Qed.
Lemma run_outcome handler h : real_safe outcome_real (run handler) h.
Proof.
  destruct handler as [netloc|timeout netloc| | |outcome|path| |]; [apply resolve_outcome|apply resolve_by_outcome|..];
    apply quiet_safe; try done; cbn [program].
  - intros now. split; [done|]. intros []; [|done]. intros base. cbn.
    destruct (try? base := base in parse_probe_target base) as [[host port]|]; [|done]. intros []; by split.
  - split; [done|]. by intros [].
  - intros now. split; [done|]. intros [d f]. split; [done|]. intros [t tf]. split; [done|]. intros decision.
    apply act_on_records_nothing.
Qed.
End Answers.

(** A resolution of a host that is known can be run to its end, with addresses. *)
Definition with_addresses (r : Resolution) (_ : History) : Prop := exists addrs, r = inr addrs.
Abbreviation known_safe p h := (safe (fun _ => True) answerable with_addresses p h).
Lemma fall_back_known parse_ip netloc now failure timeout h :
  is_Some (last_good (dns (replay h)) !! netloc) -> known_safe (fall_back parse_ip netloc now failure timeout) h.
Proof.
  intros Hk. apply safe_lock. intros h1 H1 _. split; [done|]. pose proof (failed_stale netloc now h1) as Hst.
  destruct (perform (ResolutionFailed netloc now) (replay h1)).1 as [probe_due stale]. cbn [snd] in Hst.
  assert (is_Some stale) as [addrs ->] by (rewrite Hst; by apply (known_later h)).
  apply safe_bind, (safe_mono _ _ (fun _ _ => True)).
  - destruct probe_due; [|done]. destruct (split_netloc netloc) as [[host port]|]; [|done].
    split; [by repeat constructor|done].
  - intros [probed|] h2 _ _; cbn; intros; split; try done; by eexists.
Qed.
Lemma resolve_known parse_socket_addr parse_ip netloc h :
  is_Some (last_good (dns (replay h)) !! netloc) -> known_safe (resolve parse_socket_addr parse_ip netloc) h.
Proof.
  intros Hk. apply safe_ask; [by repeat constructor|]. intros now h1 H1 _. split; [done|]. unfold resolve_at.
  destruct (parse_socket_addr netloc); [by eexists|]. apply safe_ask; [by repeat constructor|].
  intros primary h2 H2 _. split; [done|].
  destruct primary as [kind|[|addr addrs]].
  1,2: apply fall_back_known, (known_later h); [etrans; [exact H1|]; etrans; by eapply suffix_tail|done].
  cbn. intros. split; [done|]. by eexists.
Qed.

(** C17: Whatever the threads do, an answer of the resolver is never empty and
    never made up: it is the literal that was asked for, or addresses that the
    system's resolver or a child process gave for this host and port, earlier
    or now.  In particular what one thread remembers is never handed out for
    another host. *)
Theorem resolved_addresses_real parse_socket_addr parse_ip handlers s t netloc addrs :
  reaches (start (program parse_socket_addr parse_ip <$> handlers)) s -> t ∈ threads s ->
  prog t = Ret (Resolved netloc (inr addrs)) ->
  (exists literal, parse_socket_addr netloc = Some literal /\ addrs = [literal]) \/ real parse_ip netloc addrs (past s).
Proof.
  intros Hr Ht Hp.
  edestruct (adequacy (remembers_real parse_ip) (fun _ _ _ => True) (outcome_real parse_socket_addr parse_ip))
    as [Hi Hok]; [| | |exact Hr|].
  4: { rewrite Forall_forall in Hok. destruct (Hok t Ht) as (h & Hh & Hs). rewrite Hp in Hs.
       destruct Hs as [Hl|Hreal]; [by left|right]. by apply (real_later _ _ _ h). }
  - intros w h. apply quiet_safe, worker_records_nothing.
  - intros n a. cbn. by rewrite lookup_empty.
  - apply Forall_forall. intros t' (p & -> & (handler & -> & _)%list_elem_of_fmap)%list_elem_of_fmap.
    exists []. split; [done|apply run_outcome].
Qed.

(** C35: A host that was ever resolved is never lost.  When addresses for a host
    and port have been recorded, every later [resolve] of it ends with addresses,
    however the system's resolver and the child processes fail and whatever
    other threads do in between: whenever it has ended it has answered with
    addresses, and from every point it can run to such an end. *)
Theorem known_host_resolves parse_socket_addr parse_ip s s' i netloc known :
  known ∈ past s -> (exists addrs, recorded known = Some (netloc, addrs)) ->
  threads s !! i = Some (mkThread None (program parse_socket_addr parse_ip (HResolve netloc))) ->
  reaches s s' ->
  (forall t o, threads s' !! i = Some t -> prog t = Ret o -> exists addrs, o = Resolved netloc (inr addrs)) /\
  (exists s'' t addrs, reaches s' s'' /\ threads s'' !! i = Some t /\ prog t = Ret (Resolved netloc (inr addrs))).
Proof.
  intros Hin [addrs Hk] Hi Hr.
  assert (Hs : safe (fun _ => True) answerable (fun o _ => exists addrs, o = Resolved netloc (inr addrs))
    (program parse_socket_addr parse_ip (HResolve netloc)) (past s)).
  { apply safe_bind, (safe_mono _ _ with_addresses); [apply resolve_known, recorded_known; eauto|].
    intros r h _ [a ->]. by exists a. }
  destruct (adequacy_one _ _ _ _ _ _ Hi Hs Hr) as (t' & Ht' & h0 & Hh0 & Hs'). split.
  - intros t o Ht Hp. rewrite Ht in Ht'. injection Ht' as <-. rewrite Hp in Hs'. exact Hs'.
  - destruct t' as [w p]. destruct (safe_finishes _ _ _ _ _ _ Ht' Hh0 Hs') as (s'' & r & h & ? & ? & a & ->).
    exists s'', (mkThread w (Ret (Resolved netloc (inr a)))), a. done.
Qed.
