(* ===== verification/NetWorkers.v ===== *)
(** The worker threads of deadline resolutions
    (crates/ottto-service/src/net_resilience.rs, [DeadlineFallbackDnsResolver]):
    the two gates admit one worker each, and neither is left closed. *)
From S2P Require Import Prelude Text Std NetState NetProcess NetLaws NetThreads.
Local Open Scope Z_scope.

(** [b]: the thread has to open gate [g], having closed it or been forked by a
    thread that had; [Q] holds of the duty left at the end. *)
Section Duty.
Context (g : Gate) {R : Type} (Q : bool -> R -> Prop).
Fixpoint owes (b : bool) (p : Prog R) : Prop :=
  match p with
  | Ret r => Q b r
  | @Lock _ A c k =>
      match c in Locked A return (A -> Prog R) -> Prop with
      | Acquire g' => fun k =>
          if decide (g' = g) then b = false /\ owes true (k true) /\ owes false (k false) else forall a, owes b (k a)
      | Release g' => fun k => if decide (g' = g) then b = true /\ owes false (k tt) else forall a, owes b (k a)
      | _ => fun k => forall a, owes b (k a)
      end k
  | Ask q k => forall a, owes b (k a)
  | Fork w k => if decide (gate_of w = g) then b = true /\ owes false k else owes b k
  end.
End Duty.
Lemma owes_bind {R S} g (Q : bool -> R -> Prop) (Q' : bool -> S -> Prop) (p : Prog R) (f : R -> Prog S) b :
  owes g Q b p -> (forall b r, Q b r -> owes g Q' b (f r)) -> owes g Q' b (bind p f).
Proof.
  intros Hp Hf. revert b Hp. induction p as [r|A c k IH|A q k IH|w k IH]; intros b; cbn.
  - apply Hf.
  - destruct c; intros Ho; try (by intros; apply IH); case_decide; try (by intros; apply IH).
    + destruct Ho as (-> & Ht & Hn). split_and!; [done|by apply IH..].
    + destruct Ho as (-> & Ho). split; [done|by apply IH].
  - intros Ho a. by apply IH.
  - case_decide; [intros [-> Ho]; split; [done|by apply IH]|apply IH].
Qed.
(** A thread that ends with no duty left. *)
Abbreviation owns g b p := (owes g (fun left_ _ => left_ = false) b p).
(** What a section does to a gate's flag. *)
Definition gate_after {A} (g : Gate) (c : Locked A) (closed : bool) : bool :=
  match c with
  | Acquire g' => if decide (g' = g) then true else closed
  | Release g' => if decide (g' = g) then false else closed
  | _ => closed
  end.
Lemma flag_step {A} g (c : Locked A) n : flag g (perform c n).2 = gate_after g c (flag g n).
Proof. destruct g; destruct c; try destruct g; run_section; done. Qed.

(** One lock step hands the duty on as the flag changes. *)
Lemma owns_lock {A} g b (c : Locked A) (k : A -> Prog Outcome) n :
  owns g b (Lock c k) -> (b = true -> flag g n = true) ->
  exists b', owns g b' (k (perform c n).1) /\
    ((b' = b /\ gate_after g c (flag g n) = flag g n) \/
     (b = false /\ b' = true /\ flag g n = false /\ gate_after g c (flag g n) = true) \/
     (b = true /\ b' = false /\ gate_after g c (flag g n) = false)).
Proof.
  intros Ho Hb. destruct c; try (exists b; split; [apply Ho|by left]); cbn in Ho |- *.
  - destruct (decide (g0 = g)) as [->|].
    + destruct Ho as (-> & Ht & Hf). destruct (flag g n) eqn:E; cbn; [exists false; by eauto|].
      exists true. split; [done|]. right. left. done.
    + exists b. split; [apply Ho|by left].
  - destruct (decide (g0 = g)) as [->|].
    + destruct Ho as [-> Ho]. exists false. split; [done|]. right. by right.
    + exists b. split; [apply Ho|by left].
Qed.

(** ** The pool's invariant *)
Fixpoint held (bs : list bool) : nat := match bs with [] => 0 | b :: bs => Nat.b2n b + held bs end%nat.
Lemma held_insert bs i b b' : bs !! i = Some b -> (held (<[i := b']> bs) + Nat.b2n b = held bs + Nat.b2n b')%nat.
Proof.
  revert i. induction bs as [|x bs IH]; intros [|i]; try done.
  - intros [= ->]. cbn. lia.
  - intros H%IH. change (<[S i := b']> (x :: bs)) with (x :: <[i := b']> bs). cbn [held]. lia.
Qed.
Lemma held_app bs bs' : held (bs ++ bs') = (held bs + held bs')%nat.
Proof. induction bs as [|[] bs IH]; cbn; [done|by rewrite IH..]. Qed.
Lemma held_lookup bs i : bs !! i = Some true -> (1 <= held bs)%nat.
Proof. intros H. apply (held_insert _ _ _ false) in H. cbn in H. lia. Qed.
Lemma held_two bs i j : i <> j -> bs !! i = Some true -> bs !! j = Some true -> (2 <= held bs)%nat.
Proof.
  intros Hij Hi Hj. pose proof (held_insert _ _ _ false Hi) as H. cbn in H.
  assert (<[i := false]> bs !! j = Some true) as H2%held_lookup by (by rewrite list_lookup_insert_ne). lia.
Qed.
(** Whose duty each gate is: a closed gate is one thread's, an open one none's. *)
Definition duties (g : Gate) (bs : list bool) (s : Process) : Prop :=
  Forall2 (fun b t => owns g b (prog t)) bs (threads s) /\ held bs = Nat.b2n (flag g (replay (past s))).

Lemma worker_owns (g : Gate) (w : Worker) : owns g (bool_decide (gate_of w = g)) (finish (worker_program w)).
Proof. destruct w, g; cbn; intros; by split. Qed.
Lemma duties_step g bs s s' : duties g bs s -> step s s' -> exists bs', duties g bs' s'.
Proof.
  intros [Hf Hh] Hstep. destruct Hstep as [s i w A c k Hi|s i w A q a k Hi|s i w v k Hi].
  - destruct (Forall2_lookup_r _ _ _ _ _ Hf Hi) as (b & Hb & Ho). cbn [prog] in Ho.
    destruct (owns_lock g b c k (replay (past s)) Ho) as (b' & Ho' & Hcases).
    { intros ->. apply held_lookup in Hb. destruct (flag g _); [done|]. cbn in *. lia. }
    exists (<[i := b']> bs). split; [by apply Forall2_insert|]. cbn [past set_thread replay]. rewrite flag_step.
    pose proof (held_insert _ _ _ b' Hb) as Hn.
    destruct Hcases as [[-> ->]|[(-> & -> & Hfl & ->)|(-> & -> & ->)]]; cbn in Hn |- *; [lia|rewrite Hfl in Hh; cbn in Hh; lia|].
    apply held_lookup in Hb. destruct (flag g _); cbn in Hh; lia.
  - destruct (Forall2_lookup_r _ _ _ _ _ Hf Hi) as (b & Hb & Ho). exists bs. split; [|done]. cbn [threads set_thread].
    rewrite <-(list_insert_id bs i b) by done. apply Forall2_insert; [done|]. apply Ho.
  - destruct (Forall2_lookup_r _ _ _ _ _ Hf Hi) as (b & Hb & Ho). cbn [prog owns] in Ho.
    pose proof (worker_owns g v) as Hv. exists (<[i := if decide (gate_of v = g) then false else b]> bs ++ [bool_decide (gate_of v = g)]).
    split.
    + apply Forall2_app; [apply Forall2_insert; [done|]|by repeat constructor]. cbn. by case_decide; [apply Ho|].
    + cbn [past replay]. rewrite held_app, <-Hh. cbn.
      pose proof (held_insert _ _ _ (if decide (gate_of v = g) then false else b) Hb) as Hn.
      case_decide as E; [destruct Ho as [-> _]; rewrite (bool_decide_eq_true_2 _ E)|rewrite (bool_decide_eq_false_2 _ E)];
        cbn in *; lia.
Qed.

(** ** The handlers end what they begin *)
Section Handlers.
Context (parse_socket_addr : string -> option SocketAddr) (parse_ip : list Z -> option IpAddr).
Abbreviation run := (program parse_socket_addr parse_ip).
(** Follows a program over every answer; [rest] closes what comes after it. *)
Ltac follow rest :=
  repeat first [rest | done | progress cbn | progress intros | split | case_match; simplify_eq].
Abbreviation clean g p := (owns g false p).
Lemma clean_bind {R S} g (p : Prog R) (f : R -> Prog S) :
  clean g p -> (forall r, clean g (f r)) -> clean g (bind p f).
Proof.
  intros Hp Hf. eapply owes_bind; [exact Hp|]. by intros b r ->.
Qed.
Lemma probe_until_clean g host deadline timeout : clean g (probe_until host deadline timeout).
Proof. unfold probe_until. destruct g; follow ltac:(done). Qed.
Lemma locked_by_clean g deadline k : clean g k -> clean g (locked_by deadline k).
Proof. by intros Hk []. Qed.
Lemma fall_back_bounded_clean g netloc now failure deadline timeout :
  clean g (fall_back_bounded netloc now failure deadline timeout).
Proof.
  apply locked_by_clean. intros [probe_due stale]. cbn [bind]. apply clean_bind.
  - destruct probe_due; [|done]. destruct (split_netloc netloc) as [[host port]|]; [|done].
    apply clean_bind; [apply probe_until_clean|done].
  - intros [addrs|]; [by apply locked_by_clean|]. destruct stale; [|done]. by intros [].
Qed.
Lemma resolve_primary_result_bounded_clean g netloc now primary deadline timeout :
  clean g (resolve_primary_result_bounded netloc now primary deadline timeout).
Proof.
  destruct primary as [|[|]]; [apply fall_back_bounded_clean..|by apply locked_by_clean].
Qed.
Lemma resolve_by_clean g timeout netloc : clean g (resolve_by parse_socket_addr timeout netloc).
Proof.
  intros now. unfold resolve_by_at. destruct (parse_socket_addr netloc); [done|]. destruct (timeout =? 0); [done|].
  intros started. destruct g; follow ltac:(apply resolve_primary_result_bounded_clean).
Qed.
Lemma fall_back_clean g netloc now failure timeout : clean g (fall_back parse_ip netloc now failure timeout).
Proof.
  intros [probe_due stale]. cbn [bind]. apply clean_bind.
  - destruct probe_due; [|done]. by destruct (split_netloc netloc) as [[host port]|].
  - intros [addrs|]; [done|]. by destruct stale.
Qed.
Lemma resolve_clean g netloc : clean g (resolve parse_socket_addr parse_ip netloc).
Proof.
  intros now. unfold resolve_at. destruct (parse_socket_addr netloc); [done|].
  intros [|[|]]; [apply fall_back_clean..|done].
Qed.
Lemma run_clean g handler : clean g (run handler).
Proof.
  destruct handler as [netloc|timeout netloc| | |outcome|path| |]; try done; cbn [program];
    (apply clean_bind; [|done]); [apply resolve_clean|apply resolve_by_clean|..].
  - intros now [] ; [|done]. intros base. cbn [bind]. apply clean_bind; [|by intros []].
    by destruct (try? base := base in parse_probe_target base) as [[host port]|].
  - by intros [].
  - intros now [d f] [t tf] decision. cbn [bind]. apply clean_bind.
    + by destruct (stall decision) as [[? ? [] ?]|].
    + intros _. destruct (self_restart decision); [|done]. intros var. cbn [bind].
      destruct (self_restart_enabled var); [by intros []|done].
Qed.
End Handlers.

(** ** Reachable pools *)
Lemma duties_reach g ps s :
  Forall (fun p => owns g false p) ps -> reaches (start ps) s -> exists bs, duties g bs s.
Proof.
  intros Hps. induction 1 as [|s s' _ [bs IH] Hstep]; [|by eapply duties_step].
  exists (replicate (length ps) false). split; cbn.
  - apply Forall2_replicate_l; [by rewrite length_fmap|by apply Forall_fmap].
  - clear. destruct g; induction (length ps); done.
Qed.

(** A worker's thread is in its call, about to open its gate, or done. *)
Definition releasing (g : Gate) (p : Prog Outcome) : Prop :=
  match p with
  | @Lock _ A c k =>
      match c in Locked A return (A -> Prog Outcome) -> Prop with
      | Release g' => fun k => g' = g /\ k tt = Ret Finished
      | _ => fun _ => False
      end k
  | _ => False
  end.
Definition in_call (g : Gate) (p : Prog Outcome) : Prop :=
  match p with @Ask _ A q k => (exists a : A, True) /\ forall a, releasing g (k a) | _ => False end.
Definition worker_shape (t : Thread) : Prop :=
  if worker t is Some w then in_call (gate_of w) (prog t) \/ releasing (gate_of w) (prog t) \/ prog t = Ret Finished
  else True.
Lemma releasing_owns g b p : releasing g p -> owns g b p -> b = true.
Proof.
  destruct p as [|A c k| |]; try done. destruct c; try done. cbn. intros [-> _]. rewrite decide_True by done. by intros [].
Qed.
Lemma in_call_owns g b p : in_call g p -> owns g b p -> b = true.
Proof. destruct p as [| |A q k|]; try done. cbn. intros [[a _] Hr] Ho. by apply (releasing_owns g b (k a)). Qed.
Lemma worker_shape_reach ps s : reaches (start ps) s -> Forall worker_shape (threads s).
Proof.
  induction 1 as [|s s' _ IH Hstep]; [by apply Forall_fmap, Forall_true|].
  destruct Hstep as [s i w A c k Hi|s i w A q a k Hi|s i w v k Hi]; cbn;
    pose proof (Forall_lookup_1 _ _ _ _ IH Hi) as Ht; destruct w as [w|]; cbn in Ht.
  - apply Forall_insert; [done|]. right. right. destruct Ht as [[]|[Ht|]]; [|done]. destruct c; try done. apply Ht.
  - by apply Forall_insert.
  - apply Forall_insert; [done|]. destruct Ht as [[_ Ht]|[[]|]]; [|done]. right. left. apply Ht.
  - by apply Forall_insert.
  - naive_solver.
  - apply Forall_app. split; [by apply Forall_insert|]. apply Forall_singleton. left.
    destruct v; cbn; split; try done; [by exists (inl NotFound)|by exists None].
Qed.

(** The thread's next step is a question: a worker's is its call. *)
Definition asking (p : Prog Outcome) : Prop := match p with Ask _ _ => True | _ => False end.

(** C32: At most one deadline worker of a kind runs at a time, however many
    resolutions with a deadline there are: no two threads are in the call of a
    primary worker, nor in that of a probe worker.  And no gate stays closed: when
    every thread is done, both are open. *)
Theorem one_worker_per_gate parse_socket_addr parse_ip handlers s g :
  reaches (start (program parse_socket_addr parse_ip <$> handlers)) s ->
  (forall i j t u v w, threads s !! i = Some t -> threads s !! j = Some u ->
     worker t = Some v -> worker u = Some w -> gate_of v = g -> gate_of w = g ->
     asking (prog t) -> asking (prog u) -> i = j) /\
  ((forall t, t ∈ threads s -> exists o, prog t = Ret o) -> flag g (replay (past s)) = false).
Proof.
  intros Hr. destruct (duties_reach g (program parse_socket_addr parse_ip <$> handlers) s) as (bs & Hf & Hh); [|done|].
  { apply Forall_fmap, Forall_true. intros handler. apply run_clean. }
  split.
  - intros i j t u v w Hi Hj Hwt Hwu Hv Hw Ht Hu. destruct (decide (i = j)) as [|Hne]; [done|].
    assert (Hcall : forall i t v, threads s !! i = Some t -> worker t = Some v -> gate_of v = g -> asking (prog t) ->
      in_call g (prog t)).
    { clear -Hr. intros i [w p] v Hi Hw <- Ha. apply worker_shape_reach in Hr. apply (Forall_lookup_1 _ _ _ _ Hr) in Hi.
      cbn in *. subst w. cbn in Hi. destruct p; try done. by destruct Hi as [|[[]|]]. }
    specialize (Hcall _ _ _ Hi Hwt Hv Ht) as Hct. specialize (Hcall _ _ _ Hj Hwu Hw Hu) as Hcu.
    destruct (Forall2_lookup_r _ _ _ _ _ Hf Hi) as (b & Hb & Hob).
    destruct (Forall2_lookup_r _ _ _ _ _ Hf Hj) as (b' & Hb' & Hob').
    apply in_call_owns in Hob as ->; [|exact Hct]. apply in_call_owns in Hob' as ->; [|exact Hcu].
    pose proof (held_two _ _ _ Hne Hb Hb'). destruct (flag g _); cbn in *; lia.
  - intros Hdone. destruct (flag g _) eqn:E; [|done]. cbn in Hh. exfalso.
    assert (held bs = 0%nat); [|lia]. clear -Hf Hdone. induction Hf as [|b t bs ts Hb _ IH]; [done|].
    destruct (Hdone t) as [o Ho]; [left|]. rewrite Ho in Hb. cbn in Hb. subst b. cbn. apply IH.
    intros t' Ht'. apply Hdone. by right.
Qed.
