(* ===== verification/NetRuns.v ===== *)
(** The network health process (crates/ottto-service/src/net_resilience.rs) in
    any interleaving: the rates of rebuilds and of stall reports; then concrete
    runs: an executable scheduler, sound for the interleavings, and instances of
    the theorems. *)
From stdpp Require Import gmap.
From S2P Require Import Prelude.
From S2P Require Import Text.
From S2P Require Import Std.
From S2P Require Import NetState.
From S2P Require Import NetProcess.
From S2P Require Import NetLaws.
From S2P Require Import NetThreads.
From S2P Require Import NetResolver.
From S2P Require Import NetWorkers.
Local Open Scope Z_scope.

(** ** Rebuilds *)
Lemma grants_ascend l h : consistent h ->
  forall e t, e ∈ h -> granted l e = Some t ->
  exists t', last_rebuild_at (streak_of l (replay h)) = Some t' /\ t <= t'.
Proof.
  induction h as [|e' h IH]; intros Hc e t He Hg; [by apply elem_of_nil in He|].
  destruct (rebuild_step l e' h Hc) as [-> _]. apply elem_of_cons in He as [<-|He].
  - rewrite Hg. by exists t.
  - destruct (IH (proj2 Hc) e t He Hg) as (t' & Ht' & Hle). destruct (granted l e') as [t''|] eqn:Hg'; [|by exists t'].
    exists t''. split; [done|]. destruct (grant_spec _ _ _ _ Hc Hg') as [_ Hgap]. rewrite Ht' in Hgap.
    unfold duration_since, REBUILD_MIN_INTERVAL, secs in Hgap. lia.
Qed.

(** C26: A ladder asks for new connections only in a real outage and at most
    every ten minutes.  Whatever the threads do: at each rebuild it asks for, its
    failures go back at least ten minutes without a success and are at least
    three, and any two rebuilds it asks for are ten minutes apart.  The counter
    of failures saturates and never wraps to zero. *)
Theorem rebuilds_spaced ps s l after e before t :
  reaches (start ps) s -> past s = after ++ e :: before -> granted l e = Some t ->
  (exists t0, stretch (ladder_failed l) (ladder_ok l) before t0 3 /\ REBUILD_MIN_OUTAGE <= t - t0) /\
  (forall e' t', e' ∈ before -> granted l e' = Some t' -> REBUILD_MIN_INTERVAL <= t - t').
Proof.
  intros Hr Hp Hg. assert (Hc : consistent (past s)) by (eapply reaches_consistent; [|exact Hr]; done).
  rewrite Hp in Hc. clear Hp Hr. induction after as [|x after IH]; [|apply IH, Hc]. cbn in Hc.
  destruct (grant_spec l e before t Hc Hg) as [(t0 & Hs & Ht0) Hgap]. split.
  - exists t0. split; [done|]. unfold duration_since, REBUILD_MIN_OUTAGE, secs in *. lia.
  - intros e' t' He' Hg'. destruct (grants_ascend l before (proj2 Hc) e' t' He' Hg') as (t1 & Ht1 & Hle).
    rewrite Ht1 in Hgap. unfold duration_since, REBUILD_MIN_INTERVAL, secs in *. lia.
Qed.

(** ** Stalls *)
Lemma marked_since h : consistent h ->
  forall after e before, h = after ++ e :: before ->
  Forall (fun e => stalled e = false /\ recovered e = false) after ->
  (stalled e = true -> stall_marked (watchdog (replay h)) = true) /\
  (recovered e = true -> stall_marked (watchdog (replay h)) = false).
Proof.
  induction h as [|e' h IH]; intros Hc after e before Hh Hq; [by destruct after|].
  destruct (stall_step e' h Hc) as (Hs & Hrec & Hkeep). destruct after as [|x after]; simplify_eq/=.
  - split; [apply Hs|apply Hrec].
  - apply Forall_cons in Hq as [[Hx1 Hx2] Hq]. rewrite Hkeep by done. by apply (IH (proj2 Hc) after e before).
Qed.
Lemma marked_was_stalled h : consistent h -> stall_marked (watchdog (replay h)) = true ->
  exists e, e ∈ h /\ stalled e = true.
Proof.
  induction h as [|e h IH]; intros Hc Hm; [done|]. destruct (stall_step e h Hc) as (Hs & Hrec & Hkeep).
  destruct (stalled e) eqn:E1; [exists e; split; [left|done]|]. destruct (recovered e) eqn:E2.
  - destruct (Hrec eq_refl). congruence.
  - rewrite Hkeep in Hm by done. destruct (IH (proj2 Hc) Hm) as (e' & ? & ?). exists e'. split; [by right|done].
Qed.

(** Stalls and recoveries take turns.  Whatever the threads do, between two
    decisions that report a stall for the first time a success has cleared the
    posture, between two clearings a stall was reported, and nothing is cleared
    before the first report: the posture follows each stall once. *)
Theorem stalls_take_turns ps s after e between e' before :
  reaches (start ps) s -> past s = after ++ e :: between ++ e' :: before ->
  Forall (fun e => stalled e = false /\ recovered e = false) between ->
  (stalled e = true -> stalled e' = false) /\ (recovered e = true -> recovered e' = false) /\
  (recovered e = true -> exists e0, e0 ∈ between ++ e' :: before /\ stalled e0 = true).
Proof.
  intros Hr Hp Hq. assert (Hc : consistent (past s)) by (eapply reaches_consistent; [|exact Hr]; done).
  rewrite Hp in Hc. clear Hp Hr. induction after as [|x after IH]; [|apply IH, Hc]. cbn in Hc.
  destruct (stall_step e _ Hc) as (Hs & Hrec & _).
  destruct (marked_since _ (proj2 Hc) between e' before eq_refl Hq) as [Hs' Hr'].
  split_and!.
  - intros H1. destruct (stalled e') eqn:E; [|done]. destruct (Hs H1). rewrite Hs' in *; done.
  - intros H1. destruct (recovered e') eqn:E; [|done]. destruct (Hrec H1). rewrite Hr' in *; done.
  - intros H1. apply (marked_was_stalled _ (proj2 Hc)). by apply Hrec.
Qed.

(** An answer of the environment, by its type. *)
Inductive Answer :=
  | AInstant (t : Instant)
  | AResolution (r : Resolution)
  | AOutput (o : option (list Z))
  | ABool (b : bool)
  | AReceived (r : option Resolution)
  | AProbed (r : option (option (list IpAddr)))
  | AText (t : option string)
  | AUnit.
Definition answer {A} (q : Env A) (x : Answer) : option A :=
  match q in Env A return option A with
  | Now => if x is AInstant t then Some t else None
  | ResolvePrimary _ => if x is AResolution r then Some r else None
  | Dscacheutil _ _ => if x is AOutput o then Some o else None
  | SpawnWorker | LockBy _ | TcpConnect _ _ => if x is ABool b then Some b else None
  | ReceivePrimary _ _ => if x is AReceived r then Some r else None
  | ReceiveProbe _ _ => if x is AProbed r then Some r else None
  | ApiBaseUrl | SelfRestartVar => if x is AText t then Some t else None
  | RecordStalled _ _ | RecordRecovered => if x is AUnit then Some tt else None
  | Abort_ _ => None
  end.
(** Thread [i] steps; the answer is used when it asks. *)
Definition exec_step (s : Process) (it : nat * Answer) : option Process :=
  let '(i, x) := it in
  try? t := threads s !! i in
  match prog t with
  | Ret _ => None
  | Lock c k => let a := (perform c (replay (past s))).1 in Some (set_thread i (worker t) (k a) s (ELock c a))
  | Ask q k => try? a := answer q x in Some (set_thread i (worker t) (k a) s (EAsk q a))
  | Fork v k =>
      Some (mkProcess (EFork v :: past s)
              (<[i := mkThread (worker t) k]> (threads s) ++ [mkThread (Some v) (finish (worker_program v))]))
  end.
Fixpoint exec (schedule : list (nat * Answer)) (s : Process) : option Process :=
  match schedule with [] => Some s | it :: schedule => try? s := exec_step s it in exec schedule s end.
Lemma exec_step_step s it s' : exec_step s it = Some s' -> step s s'.
Proof.
  destruct it as [i x]. unfold exec_step. destruct (threads s !! i) as [[w p]|] eqn:Ei; [|done].
  destruct p as [r|A c k|A q k|v k]; cbn; [done|..].
  - intros [= <-]. by apply StepLock.
  - destruct (answer q x) as [a|]; [|done]. intros [= <-]. by apply StepAsk.
  - intros [= <-]. by apply StepFork.
Qed.
Lemma exec_reaches schedule s0 s s' : reaches s0 s -> exec schedule s = Some s' -> reaches s0 s'.
Proof.
  revert s. induction schedule as [|it schedule IH]; intros s Hr; cbn; [by intros [= <-]|].
  destruct (exec_step s it) as [s1|] eqn:E; [|done]. apply IH. eapply ReachesStep; [done|]. by eapply exec_step_step.
Qed.

Lemma exec_other i schedule s s' :
  exec schedule s = Some s' -> Forall (fun it => it.1 <> i) schedule -> is_Some (threads s !! i) ->
  threads s' !! i = threads s !! i.
Proof.
  intros He Hi. revert s He. induction Hi as [|[j x] schedule Hj _ IH]; intros s; cbn [exec]; [by intros [= <-]|].
  destruct (exec_step s (j, x)) as [s1|] eqn:E; [|done]. intros He Hs. cbn in Hj.
  assert (threads s1 !! i = threads s !! i) as Hsame.
  { unfold exec_step in E. destruct (threads s !! j) as [[w p]|]; [|done]. cbn in E.
    destruct p as [r|A c k|A q k|v k]; [done|..].
    - injection E as <-. cbn. by rewrite list_lookup_insert_ne.
    - destruct (answer q x); [|done]. injection E as <-. cbn. by rewrite list_lookup_insert_ne.
    - injection E as <-. cbn. rewrite lookup_app_l; [by rewrite list_lookup_insert_ne|].
      rewrite length_insert. by apply lookup_lt_is_Some. }
  rewrite (IH _ He); [done|by rewrite Hsame].
Qed.

(** No literals, no addresses: what the runs below need of std's parsers. *)
Definition no_socket (text : string) : option SocketAddr := None.
Definition no_ip (text : list Z) : option IpAddr := Some (V4 2130706433).
Definition boot (handlers : list Handler) : Process := start (program no_socket no_ip <$> handlers).
Lemma runs_to {A} (f : Process -> A) schedule handlers y :
  f <$> exec schedule (boot handlers) = Some y -> exists s, reaches (boot handlers) s /\ f s = y.
Proof.
  intros (s & E & ->)%fmap_Some. exists s. split; [exact (exec_reaches _ _ _ _ (ReachesRefl _) E)|done].
Qed.
(** Thread [i] steps [n] times, answered by [x] whenever it asks. *)
Definition steps_of (i n : nat) (x : Answer) : list (nat * Answer) := replicate n (i, x).

(** A failed resolution at [t], a failed upload cycle at [t]. *)
Definition failed_resolve (i : nat) (t : Instant) : list (nat * Answer) :=
  [(i, AInstant t); (i, AResolution (inl TimedOut)); (i, AUnit)].
Definition taken (i : nat) (t : Instant) : list (nat * Answer) := (i, AInstant t) :: steps_of i 3 AUnit.
Definition failed_cycle (i : nat) (t : Instant) : list (nat * Answer) := [(i, AInstant t); (i, AUnit)].
Definition minutes (n : Z) : Instant := secs (n * 60).

(** Each ladder keeps its own ten minutes: the connections are dropped for name
    resolution and, a second later, again for the uploads. *)
Definition two_ladders : list Handler :=
  [HResolve "api"; HResolve "api"; HResolve "api";
   HSyncCycle (mkOutcome false true); HSyncCycle (mkOutcome false true); HSyncCycle (mkOutcome false true);
   HSharedAgents; HSharedAgents].
Definition two_ladders_schedule : list (nat * Answer) :=
  failed_resolve 0 (minutes 0) ++ failed_cycle 3 (minutes 0 + secs 1) ++
  failed_resolve 1 (minutes 5) ++ failed_cycle 4 (minutes 5) ++
  failed_resolve 2 (minutes 10) ++ failed_cycle 5 (minutes 10) ++
  taken 6 (minutes 10) ++ taken 7 (minutes 10 + secs 1).
Lemma ladders_rebuild_twice :
  exists s, reaches (boot two_ladders) s /\
    (prog <$> drop 6 (threads s)) = [Ret (Agents 1); Ret (Agents 2)] /\
    omap (granted DnsOutage) (past s) = [minutes 10] /\ omap (granted TransportOutage) (past s) = [minutes 10 + secs 1].
Proof.
  destruct (runs_to (fun s => (prog <$> drop 6 (threads s), (omap (granted DnsOutage) (past s), omap (granted TransportOutage) (past s))))
    two_ladders_schedule two_ladders ([Ret (Agents 1); Ret (Agents 2)], ([minutes 10], [minutes 10 + secs 1])))
    as (s & Hr & [= H1 H2 H3]); [vm_compute; reflexivity|]. by exists s.
Qed.

(** ** Instances of the theorems *)
Definition synced_badly (i : nat) (t : Instant) : list (nat * Answer) := (i, AInstant t) :: steps_of i 3 AUnit.
Definition last_resort : list Handler :=
  [HResolve "api"; HResolve "api"; HResolve "api"; HSyncFailure; HOtherUpload "agent_status"; HSyncFailure].
Definition last_resort_schedule : list (nat * Answer) :=
  failed_resolve 0 (minutes 0) ++ synced_badly 3 (minutes 0) ++ failed_resolve 1 (minutes 30) ++
  failed_resolve 2 (minutes 60) ++ [(4%nat, AInstant (minutes 62)); (4%nat, AUnit)] ++
  synced_badly 5 (minutes 66) ++ [(5%nat, AUnit); (5%nat, AText None)].
Lemma restart_justified_witness :
  exists s t, reaches (boot last_resort) s /\ t ∈ threads s /\ restart_justified_by DnsOutage (past s).
Proof.
  destruct (runs_to (fun s => t ← threads s !! 5%nat; aborting (prog t)) last_resort_schedule last_resort (Some DnsOutage))
    as (s & Hr & Ha); [vm_compute; reflexivity|].
  destruct (threads s !! 5%nat) as [t|] eqn:Et; [|discriminate Ha]. apply list_elem_of_lookup_2 in Et.
  exists s, t. split; [exact Hr|]. split; [exact Et|].
  exact (restart_justified no_socket no_ip last_resort s t DnsOutage Hr Et Ha).
Defined.
Definition localhost : list SocketAddr := [mkSocketAddr (V4 2130706433) 443].
Definition resolved_fine (i : nat) (t : Instant) : list (nat * Answer) :=
  [(i, AInstant t); (i, AResolution (inr localhost)); (i, AUnit)].
Definition result_of (s : Process) (i : nat) : option Outcome :=
  t ← threads s !! i; if prog t is Ret o then Some o else None.
Lemma result_at s i o : result_of s i = Some o -> exists t, threads s !! i = Some t /\ prog t = Ret o.
Proof.
  unfold result_of. destruct (threads s !! i) as [[w p]|]; [|done]. destruct p as [o'| | |]; try done.
  intros [= ->]. by eexists.
Qed.
Lemma resolved_addresses_real_witness :
  exists s, reaches (boot [HResolve "api"]) s /\
    ((exists literal, no_socket "api" = Some literal /\ localhost = [literal]) \/ real no_ip "api" localhost (past s)).
Proof.
  destruct (runs_to (fun s => result_of s 0) (resolved_fine 0 0) [HResolve "api"] (Some (Resolved "api" (inr localhost))))
    as (s & Hr & (t & Ht & Hp)%result_at); [vm_compute; reflexivity|]. apply list_elem_of_lookup_2 in Ht.
  exists s. split; [exact Hr|].
  exact (resolved_addresses_real no_socket no_ip [HResolve "api"] s t "api" localhost Hr Ht Hp).
Defined.

Definition two_resolves : list Handler := [HResolve "api"; HResolve "api"].
(** The second resolution fails, and still answers. *)
Lemma known_host_resolves_witness : exists addrs, @inr ErrorKind _ localhost = inr addrs.
Proof.
  destruct (exec (resolved_fine 0 0) (boot two_resolves)) as [s|] eqn:E1; [|vm_compute in E1; discriminate E1].
  assert (H2 : (fun s' => (result_of s' 1, omap recorded (past s))) <$>
    exec ((1%nat, AInstant 1) :: (1%nat, AResolution (inl TimedOut)) :: steps_of 1 2 AUnit) s =
    Some (Some (Resolved "api" (inr localhost)), [("api"%string, localhost)])).
  { apply (f_equal (fun o => s ← o; (fun s' => (result_of s' 1, omap recorded (past s))) <$>
      exec ((1%nat, AInstant 1) :: (1%nat, AResolution (inl TimedOut)) :: steps_of 1 2 AUnit) s)) in E1.
    cbn [mbind option_bind] in E1. rewrite <-E1. vm_compute. reflexivity. }
  apply fmap_Some in H2 as (s' & E2 & Hs'). injection Hs' as Hres Hrec. symmetry in Hres, Hrec.
  assert (Hin : ("api"%string, localhost) ∈ omap recorded (past s)) by (rewrite Hrec; left).
  apply list_elem_of_omap in Hin as (known & Hin & Hk).
  assert (H1 : threads s !! 1%nat = Some (mkThread None (program no_socket no_ip (HResolve "api")))).
  { rewrite (exec_other 1 _ _ _ E1); [reflexivity|by repeat constructor|by eexists]. }
  apply result_at in Hres as (t & Ht & Hp).
  destruct (known_host_resolves no_socket no_ip s s' 1 "api" known Hin (ex_intro _ localhost Hk) H1
    (exec_reaches _ _ _ _ (ReachesRefl s) E2)) as [Hends _].
  destruct (Hends t _ Ht Hp) as [a Ha]. exists a. injection Ha as ->. reflexivity.
Defined.

(** Two resolutions with a deadline: the first worker is in its call, the second
    resolution finds the gate closed. *)
Definition two_deadlines : list Handler := [HResolveBy (secs 1) "api"; HResolveBy (secs 1) "api"].
Definition two_deadlines_schedule : list (nat * Answer) :=
  [(0%nat, AInstant 0); (0%nat, AInstant 0); (0%nat, AUnit); (0%nat, ABool true); (0%nat, AUnit);
   (1%nat, AInstant 1); (1%nat, AInstant 1); (1%nat, AUnit)].
Lemma one_worker_per_gate_witness :
  exists s, reaches (boot two_deadlines) s /\ flag PrimaryGate (replay (past s)) = true /\
    (forall i j t u v w, threads s !! i = Some t -> threads s !! j = Some u ->
      worker t = Some v -> worker u = Some w -> gate_of v = PrimaryGate -> gate_of w = PrimaryGate ->
      asking (prog t) -> asking (prog u) -> i = j).
Proof.
  destruct (runs_to (fun s => flag PrimaryGate (replay (past s))) two_deadlines_schedule two_deadlines true)
    as (s & Hr & Hf); [vm_compute; reflexivity|].
  exists s. split; [exact Hr|]. split; [exact Hf|].
  exact (proj1 (one_worker_per_gate no_socket no_ip two_deadlines s PrimaryGate Hr)).
Defined.

Lemma rebuilds_spaced_witness :
  exists before t0, stretch (ladder_failed DnsOutage) (ladder_ok DnsOutage) before t0 3 /\
    REBUILD_MIN_OUTAGE <= minutes 10 - t0.
Proof.
  destruct (runs_to (fun s => omap (granted DnsOutage) (past s)) two_ladders_schedule two_ladders [minutes 10])
    as (s & Hr & Hg); [vm_compute; reflexivity|].
  assert (Hin : minutes 10 ∈ omap (granted DnsOutage) (past s)) by (rewrite Hg; left).
  apply list_elem_of_omap in Hin as (e & Hin & He). apply list_elem_of_split in Hin as (after & before & Hp).
  destruct (proj1 (rebuilds_spaced _ s DnsOutage after e before (minutes 10) Hr Hp He)) as (t0 & H1 & H2).
  exists before, t0. split; [exact H1|exact H2].
Defined.

(** A stall is reported at the half hour, and a success ends it. *)
Definition stalled_then_fine : list Handler := [HSyncFailure; HOtherUpload "agent_status"; HSyncFailure; HSyncSuccess].
Definition stalled_then_fine_schedule : list (nat * Answer) :=
  synced_badly 0 (minutes 0) ++ [(1%nat, AInstant (minutes 29)); (1%nat, AUnit)] ++
  synced_badly 2 (minutes 31) ++ [(3%nat, AUnit)].
Definition last_two (s : Process) : bool * bool :=
  match past s with e :: e' :: _ => (recovered e, stalled e') | _ => (false, false) end.
Lemma stalls_take_turns_witness :
  exists s e e', reaches (boot stalled_then_fine) s /\ recovered e = true /\ stalled e' = true /\ recovered e' = false.
Proof.
  destruct (runs_to last_two stalled_then_fine_schedule stalled_then_fine (true, true)) as (s & Hr & Hl);
    [vm_compute; reflexivity|].
  destruct (past s) as [|e [|e' before]] eqn:Hp; unfold last_two in Hl; rewrite Hp in Hl; [discriminate Hl..|].
  injection Hl as He He'. exists s, e, e'. split; [exact Hr|]. split; [exact He|]. split; [exact He'|].
  exact (proj1 (proj2 (stalls_take_turns _ s [] e [] e' before Hr Hp (List.Forall_nil _))) He).
Defined.
