(* ===== verification/NetTransition.v ===== *)
(** The proactive observer of network transitions
    (crates/ottto-service/src/net_transition.rs): one tick of its loop per
    routing message or read timeout.

    The numbers of the routing message types are libc's, parameters here. *)
From S2P Require Import Prelude Std.
Local Open Scope Z_scope.

Definition TRANSITION_QUIET_PERIOD : Duration := secs 3.
Definition TRANSITION_REBUILD_MIN_INTERVAL : Duration := secs 30.

Section Observer.
Context (RTM_NEWADDR RTM_DELADDR RTM_IFINFO : Z).
Definition is_transition_message (message : list Z) : bool :=
  match message !! 3%nat with
  | Some message_type =>
      (message_type =? RTM_NEWADDR) || (message_type =? RTM_DELADDR) || (message_type =? RTM_IFINFO)
  | None => false
  end.

Record Observer := mkObserver { pending_since : option Instant; observed_rebuild_at : option Instant }.
Definition new_observer : Observer := mkObserver None None.
(** A message, or [None] on the read timeout, and the time after the read. *)
Record Tick := mkTick { message : option (list Z); at_ : Instant }.

(** The state after a tick, and whether it rebuilt the pools. *)
Definition observe_tick (tick : Tick) (s : Observer) : bool * Observer :=
  let now := at_ tick in
  let pending :=
    match message tick with
    | Some bytes => if is_transition_message bytes then Some now else pending_since s
    | None => pending_since s
    end in
  match pending with
  | None => (false, s)
  | Some since =>
      if duration_since now since <? TRANSITION_QUIET_PERIOD then (false, mkObserver pending (observed_rebuild_at s))
      else
        let rebuilt_recently :=
          match observed_rebuild_at s with
          | Some at_ => duration_since now at_ <? TRANSITION_REBUILD_MIN_INTERVAL
          | None => false
          end in
        if rebuilt_recently then (false, mkObserver None (observed_rebuild_at s))
        else (true, mkObserver None (Some now))
  end.
(** [observe_route_socket] over the ticks up to a failed read: the times of the
    rebuilds, and the state. *)
Fixpoint observe_route_socket (ticks : list Tick) (s : Observer) : list Instant * Observer :=
  match ticks with
  | [] => ([], s)
  | tick :: ticks =>
      let '(rebuilt, s) := observe_tick tick s in
      let '(rebuilds, s) := observe_route_socket ticks s in
      ((if rebuilt : bool then [at_ tick] else []) ++ rebuilds, s)
  end.

(** ** Laws *)
Definition transition (tick : Tick) : bool :=
  match message tick with Some bytes => is_transition_message bytes | None => false end.
Lemma observe_app ticks ticks' s :
  observe_route_socket (ticks ++ ticks') s =
  let '(rebuilds, s) := observe_route_socket ticks s in
  let '(rebuilds', s) := observe_route_socket ticks' s in (rebuilds ++ rebuilds', s).
Proof.
  revert s. induction ticks as [|tick ticks IH]; intros s; cbn; [by destruct (observe_route_socket ticks' s)|].
  destruct (observe_tick tick s) as [rebuilt s1]. rewrite IH. destruct (observe_route_socket ticks s1) as [rebuilds s2].
  destruct (observe_route_socket ticks' s2). by rewrite app_assoc.
Qed.
Lemma quiet_tick tick s : transition tick = false ->
  observe_tick tick s =
  match pending_since s with
  | None => (false, s)
  | Some since =>
      if duration_since (at_ tick) since <? TRANSITION_QUIET_PERIOD then (false, s)
      else if match observed_rebuild_at s with
              | Some at_' => duration_since (at_ tick) at_' <? TRANSITION_REBUILD_MIN_INTERVAL | None => false end
      then (false, mkObserver None (observed_rebuild_at s)) else (true, mkObserver None (Some (at_ tick)))
  end.
Proof.
  unfold transition, observe_tick. intros Ht. destruct s as [[since|] last]; cbn.
  - destruct (message tick) as [bytes|]; [rewrite Ht|]; done.
  - destruct (message tick) as [bytes|]; [rewrite Ht|]; done.
Qed.
Lemma transition_tick tick s : transition tick = true ->
  observe_tick tick s = (false, mkObserver (Some (at_ tick)) (observed_rebuild_at s)).
Proof.
  unfold transition, observe_tick. intros Ht. destruct (message tick) as [bytes|]; [|done]. rewrite Ht.
  rewrite (proj2 (Z.ltb_lt _ _)); [done|]. unfold duration_since, TRANSITION_QUIET_PERIOD, secs. lia.
Qed.
Lemma nothing_pending ticks s :
  pending_since s = None -> Forall (fun tick => transition tick = false) ticks -> observe_route_socket ticks s = ([], s).
Proof.
  intros Hp. induction 1 as [|tick ticks Ht _ IH]; cbn; [done|]. rewrite quiet_tick, Hp by done. by rewrite IH.
Qed.
Lemma waiting ticks s since :
  pending_since s = Some since ->
  Forall (fun tick => transition tick = false /\ at_ tick - since < TRANSITION_QUIET_PERIOD) ticks ->
  observe_route_socket ticks s = ([], s).
Proof.
  intros Hp. induction 1 as [|tick ticks [Ht Hlt] _ IH]; cbn; [done|]. rewrite quiet_tick, Hp by done.
  rewrite (proj2 (Z.ltb_lt _ _)); [by rewrite IH|]. unfold duration_since, TRANSITION_QUIET_PERIOD, secs in *. lia.
Qed.

(** A transition settles once.  From any state, when a routing message of a
    transition arrives and none follows it, nothing is rebuilt for three
    seconds; at the first tick after them the pools are rebuilt exactly when the
    last rebuild is thirty seconds old or there was none; and from then on nothing
    is rebuilt until another message of a transition.  So a transition that
    settles within thirty seconds of a rebuild is dropped, not deferred. *)
Theorem transition_settles_once s first quiet settle later :
  transition first = true ->
  Forall (fun tick => transition tick = false /\ at_ tick - at_ first < TRANSITION_QUIET_PERIOD) quiet ->
  transition settle = false -> TRANSITION_QUIET_PERIOD <= at_ settle - at_ first ->
  Forall (fun tick => transition tick = false) later ->
  (observe_route_socket (first :: quiet ++ settle :: later) s).1 =
  match observed_rebuild_at s with
  | Some last => if duration_since (at_ settle) last <? TRANSITION_REBUILD_MIN_INTERVAL then [] else [at_ settle]
  | None => [at_ settle]
  end.
Proof.
  intros Hf Hq Hs Hsettle Hl. cbn. rewrite transition_tick by done.
  rewrite observe_app, (waiting quiet _ (at_ first)) by done. cbn.
  rewrite quiet_tick by done. cbn [pending_since observed_rebuild_at].
  assert ((duration_since (at_ settle) (at_ first) <? TRANSITION_QUIET_PERIOD) = false) as ->.
  { apply Z.ltb_ge. unfold duration_since, TRANSITION_QUIET_PERIOD, secs in *. lia. }
  destruct (observed_rebuild_at s) as [last|]; [destruct (_ <? _)|]; cbn; by rewrite nothing_pending.
Qed.

(** A rebuild comes thirty seconds after the last, whatever arrives and whenever. *)
Lemma rebuild_tick tick s s' :
  observe_tick tick s = (true, s') ->
  observed_rebuild_at s' = Some (at_ tick) /\
  (forall last, observed_rebuild_at s = Some last -> TRANSITION_REBUILD_MIN_INTERVAL <= at_ tick - last).
Proof.
  unfold observe_tick. generalize (match message tick with
    | Some bytes => if is_transition_message bytes then Some (at_ tick) else pending_since s
    | None => pending_since s end) as pending. intros pending H.
  destruct pending as [since|]; [|done]. destruct (_ <? _); [done|].
  destruct (observed_rebuild_at s) as [last|]; [destruct (_ <? _) eqn:E; [done|]|]; injection H as <-; (split; [done|]);
    intros last' [= <-]. zbool. unfold duration_since, TRANSITION_REBUILD_MIN_INTERVAL, secs in *. lia.
Qed.
End Observer.

(** The numbers of macOS. *)
Definition newaddr : list Z := [24; 0; 5; 12].
Lemma transition_settles_once_witness :
  (observe_route_socket 12 13 14
     [mkTick (Some newaddr) 0; mkTick None (secs 1); mkTick None (secs 3); mkTick None (secs 60)]
     (mkObserver None (Some (secs (-10))))).1 = [].
Proof.
  refine (transition_settles_once 12 13 14 (mkObserver None (Some (secs (-10)))) (mkTick (Some newaddr) 0)
    [mkTick None (secs 1)] (mkTick None (secs 3)) [mkTick None (secs 60)] eq_refl _ eq_refl _ _).
  - apply List.Forall_cons; [split; reflexivity|apply List.Forall_nil].
  - vm_compute. discriminate.
  - apply List.Forall_cons; [reflexivity|apply List.Forall_nil].
Defined.
