(* ===== verification/DetectedUses.v ===== *)
(** Detected uses: the billing destinations a source has routed to
    (crates/ottto-service/src/detected_uses.rs), the cache a sync cycle folds its
    delta into (snapshot_sync.rs) and the live quota overlaid on it for health
    (lib.rs).

    [uppercase] is [char::to_uppercase] and [parse_rfc3339] the time crate's
    [OffsetDateTime::parse(_, Rfc3339)] as an instant; [Duration]s count in the
    same unit.  A [u64] [+=] wraps, as in a release build.  Of a snapshot, a
    bucket and a row these records have the fields this module reads. *)
From stdpp Require Import gmap strings.
From S2P Require Import Prelude OrdMap Text Std StatusTypes.
Local Open Scope Z_scope.

(** ** Data *)
Record SnapshotModelUsage := mkRow {
  row_input_tokens : Z;
  row_output_tokens : Z;
  row_cache_read_tokens : Z;
  row_cache_creation_5m_tokens : Z;
  row_cache_creation_1h_tokens : Z;
  row_unattributed_total_tokens : Z;
  selector_context : gmap string string;
  gateway_of : option string;
  model_provider : option string;
  product_of : option string;
}.
Record SnapshotUsageBucket := mkBucket {
  bucket_start : string;
  model_usage : list SnapshotModelUsage;
  last_activity_at : option string;
}.
Record SnapshotItem := mkItem {
  usage_buckets : list SnapshotUsageBucket;
  source_last_activity_at : option string;
}.

Inductive DetectedUseQuotaWindowState :=
  | QuotaOk | QuotaNearLimit | QuotaExhausted | QuotaRateLimited | QuotaStale | QuotaError | QuotaUnsupported
  | QuotaUnknown.
Record DetectedUseTokenSample := mkSample { at_start : Rfc3339Timestamp; tokens : Z }.
Record DetectedUse := mkUse {
  gateway_provider : string;
  plan_fingerprint : option string;
  account_identifier_hash : option string;
  subscription_product : option string;
  account_label : option string;
  last_seen_at : Rfc3339Timestamp;
  token_volume_recent : list DetectedUseTokenSample;
  quota_window_state : DetectedUseQuotaWindowState;
  quota_used_percent : option Z;
  quota_resets_at : option Rfc3339Timestamp;
}.
#[export] Instance DetectedUseQuotaWindowState_eq_dec : EqDecision DetectedUseQuotaWindowState.
Proof. solve_decision. Defined.

Definition MAX_TOKEN_SAMPLES : nat := 24.
Definition DETECTED_USE_RETENTION_DAYS : Z := 90.

Abbreviation GroupKey := (string * string * string)%type.

(** ** Text *)
Definition non_empty (value : option string) : option string :=
  try? value := value in if bool_decide (value = ""%string) then None else Some value.
Definition ascii_lowercase (text : string) : string := of_bytes (to_ascii_lowercase (as_bytes text)).
Definition eq_ignore_ascii_case (a b : string) : bool :=
  bool_decide (to_ascii_lowercase (as_bytes a) = to_ascii_lowercase (as_bytes b)).
Definition split_whitespace (text : list Z) : list (list Z) :=
  filter (fun word => word <> []) (split_chars is_whitespace text).
Fixpoint join_words (words : list (list Z)) : list Z :=
  match words with [] => [] | [word] => word | word :: words => word ++ 32 :: join_words words end.

(** ** Rows *)
Definition row_gateway_provider (row : SnapshotModelUsage) : string :=
  match non_empty (gateway_of row) with
  | Some value => value
  | None => default "anthropic"%string (non_empty (model_provider row))
  end.
Definition row_subscription_product (row : SnapshotModelUsage) : option string :=
  match non_empty (product_of row) with
  | Some value => Some value
  | None => non_empty (selector_context row !! "subscription_product"%string)
  end.
Definition row_plan_fingerprint (row : SnapshotModelUsage) : option string :=
  match row_subscription_product row, non_empty (selector_context row !! "plan_window_bucket"%string) with
  | Some product, Some bucket => Some (product ++ "::" ++ bucket)%string
  | _, _ => None
  end.
Definition row_total_tokens (row : SnapshotModelUsage) : Z :=
  let add := saturating_add 64 in
  add (add (add (add (add (row_input_tokens row) (row_output_tokens row)) (row_cache_read_tokens row))
    (row_cache_creation_5m_tokens row)) (row_cache_creation_1h_tokens row)) (row_unattributed_total_tokens row).

(** ** Token samples *)
(** Keeps the newest samples, in order. *)
Definition recent_samples (bucket_tokens : list (string * Z)) : list DetectedUseTokenSample :=
  (fun '(at_, tokens) => mkSample at_ tokens)
    <$> drop (length bucket_tokens - MAX_TOKEN_SAMPLES) bucket_tokens.
Definition sample_entry (sample : DetectedUseTokenSample) : string * Z := (at_start sample, tokens sample).
(** [collect] into a [BTreeMap], and inserting into one. *)
Definition insert_samples (samples : list DetectedUseTokenSample) (m : list (string * Z)) : list (string * Z) :=
  foldl (fun m sample => (bt_insert (at_start sample) (tokens sample) m).1) m samples.

Section Uses.
Context (uppercase : Z -> list Z) (parse_rfc3339 : string -> option Z).

(** ** Labels *)
Definition title_case (value : string) : string :=
  of_chars (join_words ((fun word => match word with first :: rest => uppercase first ++ rest | [] => [] end)
                          <$> split_whitespace (chars value))).
Definition PLAN_LABELS : list (string * string) :=
  [("prolite", "Pro 100"); ("promax", "Pro 500"); ("max_5x", "Max"); ("max_20x", "Ultra"); ("max", "Max or Ultra");
   ("pro", "Pro"); ("team", "Team"); ("team_standard", "Team Standard"); ("team_premium", "Team Premium");
   ("plus", "Plus"); ("enterprise", "Enterprise"); ("business", "Business"); ("free", "Free")]%string.
Definition OPENAI_LABELS : list (string * string) := [("team", "Business"); ("pro", "Pro 200")]%string.
Definition label_of (labels : list (string * string)) (plan : list Z) : option string :=
  snd <$> find (fun '(slug, _) => bool_decide (as_bytes slug = plan)) labels.
Definition humanize_plan (product gateway : string) : string :=
  let product := as_bytes (str_trim product) in
  let lower := to_ascii_lowercase product in
  let chatgpt := starts_with (as_bytes "chatgpt_") lower in
  let prefix := if chatgpt then length (as_bytes "chatgpt_")
                else if starts_with (as_bytes "claude_") lower then length (as_bytes "claude_") else O in
  let openai := chatgpt || eq_ignore_ascii_case gateway "openai" in
  match (if openai then label_of OPENAI_LABELS (drop prefix lower) else None) with
  | Some label => label
  | None => default (title_case (of_bytes (drop prefix product))) (label_of PLAN_LABELS (drop prefix lower))
  end.

(** ** Aggregating one cycle's snapshots *)
Record GroupBuilder := mkBuilder {
  b_gateway_provider : string;
  b_plan_fingerprint : option string;
  b_subscription_product : option string;
  bucket_tokens : list (string * Z);
  b_last_seen_at : option string;
}.
Definition new_builder : GroupBuilder := mkBuilder "" None None [] None.
Definition or_else {A} (a b : option A) : option A := match a with Some _ => a | None => b end.

Definition row_key (row : SnapshotModelUsage) : GroupKey :=
  (row_gateway_provider row, default ""%string (row_plan_fingerprint row), ""%string).
(** One row of [aggregate_detected_uses]: the builder after it. *)
Definition build_row (snapshot : SnapshotItem) (bucket : SnapshotUsageBucket) (row : SnapshotModelUsage)
    (builder : GroupBuilder) : GroupBuilder :=
  let before := default 0 (bt_get (bucket_start bucket) (bucket_tokens builder)) in
  let candidate := default (bucket_start bucket)
    (or_else (last_activity_at bucket) (source_last_activity_at snapshot)) in
  mkBuilder (row_gateway_provider row)
    (or_else (b_plan_fingerprint builder) (row_plan_fingerprint row))
    (or_else (b_subscription_product builder) (row_subscription_product row))
    (bt_insert (bucket_start bucket) (wrap_u 64 (before + row_total_tokens row)) (bucket_tokens builder)).1
    (match b_last_seen_at builder with
     | Some current => if rltb current candidate then Some candidate else Some current
     | None => Some candidate
     end).
Definition add_row (snapshot : SnapshotItem) (bucket : SnapshotUsageBucket)
    (groups : list (GroupKey * GroupBuilder)) (row : SnapshotModelUsage) : list (GroupKey * GroupBuilder) :=
  let key := row_key row in
  (bt_insert key (build_row snapshot bucket row (default new_builder (bt_get key groups))) groups).1.
Definition into_detected_use (builder : GroupBuilder) : DetectedUse :=
  mkUse (b_gateway_provider builder) (b_plan_fingerprint builder) None (b_subscription_product builder)
    ((fun product => humanize_plan product (b_gateway_provider builder)) <$> b_subscription_product builder)
    (default ""%string (b_last_seen_at builder)) (recent_samples (bucket_tokens builder))
    QuotaUnknown None None.
Definition aggregate_groups (snapshots : list SnapshotItem) : list (GroupKey * GroupBuilder) :=
  foldl (fun groups snapshot =>
    foldl (fun groups bucket => foldl (add_row snapshot bucket) groups (model_usage bucket))
      groups (usage_buckets snapshot)) [] snapshots.
Definition aggregate_detected_uses (snapshots : list SnapshotItem) : list DetectedUse :=
  (fun '(_, builder) => into_detected_use builder) <$> aggregate_groups snapshots.

(** ** Folding a delta into the cache *)
Definition detected_use_key (entry : DetectedUse) : GroupKey :=
  (gateway_provider entry, default ""%string (plan_fingerprint entry),
   default ""%string (account_identifier_hash entry)).
Definition merge_pair (previous incoming : DetectedUse) : DetectedUse :=
  let samples := insert_samples (token_volume_recent incoming) (insert_samples (token_volume_recent previous) []) in
  mkUse (gateway_provider incoming)
    (or_else (plan_fingerprint incoming) (plan_fingerprint previous))
    (or_else (account_identifier_hash incoming) (account_identifier_hash previous))
    (or_else (subscription_product incoming) (subscription_product previous))
    (or_else (account_label incoming) (account_label previous))
    (if rltb (last_seen_at incoming) (last_seen_at previous) then last_seen_at previous else last_seen_at incoming)
    (recent_samples samples)
    (quota_window_state incoming) (quota_used_percent incoming) (quota_resets_at incoming).
Definition merge_entry (by_key : list (GroupKey * DetectedUse)) (entry : DetectedUse) : list (GroupKey * DetectedUse) :=
  let key := detected_use_key entry in
  match bt_remove key by_key with
  | (by_key, Some previous) => (bt_insert key (merge_pair previous entry) by_key).1
  | (by_key, None) => (bt_insert key entry by_key).1
  end.
(** Unless the last activity is strictly older than [cutoff]; a time that does
    not parse is kept. *)
Definition detected_use_is_fresh (cutoff : Z) (entry : DetectedUse) : bool :=
  match parse_rfc3339 (str_trim (last_seen_at entry)) with Some seen => cutoff <=? seen | None => true end.
Definition prune_stale_detected_uses (entries : list DetectedUse) (now retention : Z) : list DetectedUse :=
  filter (fun entry => detected_use_is_fresh (now - retention) entry = true) entries.
Definition merge_groups (existing fresh : list DetectedUse) : list (GroupKey * DetectedUse) :=
  foldl merge_entry [] (existing ++ fresh).
Definition merge_detected_uses (existing fresh : list DetectedUse) (now retention : Z) : list DetectedUse :=
  prune_stale_detected_uses (merge_groups existing fresh).*2 now retention.
(** The cache file after a sync cycle ([update_detected_uses_cache]): what was
    read from it, or nothing, with the cycle's delta folded in. *)
Definition update_detected_uses_cache (day : Z) (cache : option (list DetectedUse)) (snapshots : list SnapshotItem)
    (now : Z) : list DetectedUse :=
  merge_detected_uses (default [] cache) (aggregate_detected_uses snapshots) now (DETECTED_USE_RETENTION_DAYS * day).
End Uses.

(** ** The live quota of the current plan *)
Definition trimmed (value : option string) : option string := non_empty (str_trim <$> value).
Definition quota_window_matches_snapshot_account (snapshot : AgentStatusSnapshot) (window : AgentQuotaWindow) : bool :=
  let account_hash := trimmed (win_account_identifier_hash window) in
  let organization_hash := trimmed (win_organization_identifier_hash window) in
  match account_hash, organization_hash with
  | None, None =>
      match trimmed (win_account_label window) with
      | None => true
      | Some label =>
          match trimmed (snap_account snapshot ≫= acc_email) with
          | Some account_label => eq_ignore_ascii_case account_label label
          | None => false
          end
      end
  | _, _ =>
      match snap_account snapshot with
      | None => false
      | Some account =>
          match account_hash with
          | Some hash => bool_decide (str_trim <$> acc_account_identifier_hash account = Some hash)
          | None => true
          end
          && match organization_hash with
             | Some hash => bool_decide (str_trim <$> acc_organization_identifier_hash account = Some hash)
             | None => true
             end
      end
  end.
Definition window_rank (window : AgentQuotaWindow) : bool * Z :=
  (match win_status window with WindowRateLimited => true | _ => false end, default 0 (win_used_percent window)).
Definition pick_quota_window (windows : list AgentQuotaWindow) : option AgentQuotaWindow :=
  max_by (fun a b => rcmp (window_rank a) (window_rank b)) windows.
Definition window_is_stale (window : AgentQuotaWindow) : bool :=
  bool_decide (win_freshness window = Stale) || match win_status window with WindowStale => true | _ => false end.
Definition quota_state_from_window (window : AgentQuotaWindow)
    : DetectedUseQuotaWindowState * option Z * option Rfc3339Timestamp :=
  let state :=
    match win_status window with
    | WindowRateLimited => QuotaRateLimited
    | _ =>
        if window_is_stale window then QuotaStale
        else match win_used_percent window with
             | Some percent => if 100 <=? percent then QuotaExhausted else if 80 <=? percent then QuotaNearLimit else QuotaOk
             | None => QuotaUnknown
             end
    end in
  (state, win_used_percent window, win_resets_at window).
Definition plan_keys (account : AgentAccountStatus) : list string :=
  filter (fun value => value <> ""%string)
    ((fun value => ascii_lowercase (str_trim value))
       <$> omap id [acc_plan_type account; acc_subscription_product account]).
Definition overlay (keys : list string) (quota : DetectedUseQuotaWindowState * option Z * option Rfc3339Timestamp)
    (entry : DetectedUse) : DetectedUse :=
  let '(state, used_percent, resets_at) := quota in
  match subscription_product entry with
  | Some product =>
      if bool_decide (ascii_lowercase (str_trim product) ∈ keys) then
        mkUse (gateway_provider entry) (plan_fingerprint entry) (account_identifier_hash entry)
          (subscription_product entry) (account_label entry) (last_seen_at entry) (token_volume_recent entry)
          state used_percent resets_at
      else entry
  | None => entry
  end.
Definition merge_current_plan_quota (detected : list DetectedUse) (snapshot : AgentStatusSnapshot) : list DetectedUse :=
  match snap_account snapshot with
  | None => detected
  | Some account =>
      match plan_keys account with
      | [] => detected
      | keys =>
          match pick_quota_window (filter (fun w => quota_window_matches_snapshot_account snapshot w = true)
                                     (snap_quota_windows snapshot)) with
          | None => detected
          | Some window => overlay keys (quota_state_from_window window) <$> detected
          end
      end
  end.
(** [cache] is what the cache file holds, [None] when it cannot be read. *)
Definition detected_uses_for_health (parse_rfc3339 : string -> option Z) (day : Z) (cache : option (list DetectedUse))
    (agent_status : option AgentStatusSnapshot) (now : Z) : list DetectedUse :=
  let detected := prune_stale_detected_uses parse_rfc3339 (default [] cache) now (DETECTED_USE_RETENTION_DAYS * day) in
  match agent_status with Some snapshot => merge_current_plan_quota detected snapshot | None => detected end.
