(* ===== verification/DetectedUsesLaws.v ===== *)
(** Laws of the detected uses: the newest entries of a map kept in key order and
    what they are of a union of maps (what [recent_samples] keeps of merged
    samples), what a delta means, and what the cache keeps. *)
From stdpp Require Import gmap strings.
From S2P Require Import Prelude.
From S2P Require Import OrdMap.
From S2P Require Import Text.
From S2P Require Import Std.
From S2P Require Import StatusTypes.
From S2P Require Import DetectedUses.

Section NewestEntries.
Context {K V : Type} `{RustOrdLaws K}.
Implicit Types (m : list (K * V)) (k : K) (e : K * V).

Definition newest (n : nat) m : list (K * V) := drop (length m - n) m.
(** How many entries come after [k]. *)
Fixpoint after (k : K) m : nat :=
  match m with [] => 0 | e :: m => (if rltb k e.1 then 1 else 0) + after k m end.

Lemma after_all k m : Forall (fun e => rlt k e.1) m -> after k m = length m.
Proof. induction 1 as [|e m He _ IH]; cbn; [done|]. rewrite (proj2 (rltb_spec k e.1) He). lia. Qed.
Lemma after_le k m : (after k m <= length m)%nat.
Proof. induction m as [|e m IH]; cbn; [done|]. destruct (rltb k e.1); lia. Qed.
Lemma rltb_false (a b : K) : ~ rlt a b -> rltb a b = false.
Proof. rewrite <-rltb_spec. by destruct (rltb a b). Qed.
(** An entry is among the [n] newest when fewer than [n] come after it. *)
Lemma newest_spec n m e : ksorted fst m -> e ∈ newest n m <-> e ∈ m /\ (after e.1 m < n)%nat.
Proof.
  intros Hs. unfold newest. induction m as [|a m IH]; [cbn; set_solver|].
  apply ksorted_cons_inv in Hs as [Hs Ha]. specialize (IH Hs). rewrite Forall_forall in Ha.
  assert (Hlt : forall e, e ∈ a :: m -> (after e.1 (a :: m) <= length m)%nat).
  { intros e' He'. cbn. rewrite rltb_false; [apply after_le|]. apply elem_of_cons in He' as [->|Hin]; [apply rlt_irrefl|].
    by apply rlt_asym, Ha. }
  destruct (decide (length m < n)%nat).
  - replace (length (a :: m) - n)%nat with O by (cbn; lia). cbn [drop].
    split; [|by intros [? _]]. intros He. split; [done|]. apply Hlt in He. lia.
  - replace (length (a :: m) - n)%nat with (S (length m - n)) by (cbn; lia). cbn [drop]. rewrite IH.
    rewrite elem_of_cons. cbn [after]. split.
    + intros [He Hn]. rewrite rltb_false by (by apply rlt_asym, Ha). split; [by right|done].
    + intros [[->|He] Hn]; [|rewrite rltb_false in Hn by (by apply rlt_asym, Ha); done].
      rewrite rltb_false, after_all in Hn by (by apply rlt_irrefl || (by apply Forall_forall)). lia.
Qed.
Lemma newest_sorted n m : ksorted fst m -> ksorted fst (newest n m).
Proof. apply ksorted_sublist, sublist_drop. Qed.
Lemma newest_length n m : (length (newest n m) <= n)%nat.
Proof. unfold newest. rewrite length_drop. lia. Qed.

(** *** Of a union *)
Definition later (k : K) m : list K := filter (fun k' => rltb k k' = true) m.*1.
Lemma after_later k m : after k m = length (later k m).
Proof.
  unfold later. induction m as [|e m IH]; cbn [after]; [done|]. rewrite fmap_cons, filter_cons, IH.
  destruct (rltb k e.1); by case_decide.
Qed.
Lemma elem_of_keys k m : ksorted fst m -> k ∈ m.*1 <-> is_Some (bt_get k m).
Proof.
  intros Hs. rewrite list_elem_of_fmap. split.
  - intros ([k' v] & -> & Hin). exists v. by apply bt_get_elem.
  - intros [v Hv]. exists (k, v). split; [done|]. by apply bt_get_elem in Hv.
Qed.
(** Later keys of one map that another has too. *)
Lemma after_sub k m m' : ksorted fst m -> ksorted fst m' ->
  (forall k', rlt k k' -> is_Some (bt_get k' m) -> is_Some (bt_get k' m')) -> (after k m <= after k m')%nat.
Proof.
  intros Hs Hs' Hsub. rewrite !after_later. apply submseteq_length, NoDup_submseteq.
  - by apply NoDup_filter, (ksorted_NoDup fst).
  - unfold later. intros k'. rewrite !list_elem_of_filter, !elem_of_keys, rltb_spec by done. naive_solver.
Qed.
Lemma after_antitone k k' m : ~ rlt k' k -> (after k' m <= after k m)%nat.
Proof.
  intros Hk. induction m as [|e m IH]; cbn; [done|].
  destruct (rltb k' e.1) eqn:E1, (rltb k e.1) eqn:E2; try lia. apply rltb_spec in E1.
  exfalso. destruct (rcmp_total k k') as [?|[->|?]]; [|by apply rltb_spec in E1; congruence|done].
  assert (rltb k e.1 = true) by (apply rltb_spec; by etrans). congruence.
Qed.
Lemma newest_get n m k : ksorted fst m -> (after k m < n)%nat -> bt_get k (newest n m) = bt_get k m.
Proof.
  intros Hs Hn. apply option_eq. intros v.
  rewrite !bt_get_elem by auto using newest_sorted. rewrite newest_spec by done. naive_solver.
Qed.
Lemma after_newest n m k : ksorted fst m -> (n <= after k m)%nat -> (n <= after k (newest n m))%nat.
Proof.
  intros Hs Hn. rewrite after_all.
  - pose proof (after_le k m). unfold newest. rewrite length_drop. lia.
  - apply Forall_forall. intros e [_ He]%newest_spec; [|done].
    destruct (rcmp_total k e.1) as [?|[->|?]]; [done|lia|]. pose proof (after_antitone e.1 k m (rlt_asym _ _ H1)). lia.
Qed.

Definition right_union m1 m2 u : Prop :=
  ksorted fst m1 /\ ksorted fst m2 /\ ksorted fst u /\
  forall k, bt_get k u = match bt_get k m2 with Some v => Some v | None => bt_get k m1 end.
Lemma right_union_after m1 m2 u k :
  right_union m1 m2 u -> (after k m1 <= after k u)%nat /\ (after k m2 <= after k u)%nat.
Proof.
  intros (H1 & H2 & Hu & Hg). split; apply after_sub; try done; intros k' _ [v Hv]; rewrite Hg; rewrite Hv; [|done].
  by destruct (bt_get k' m2).
Qed.
(** Dropping old entries before or after a union leaves the same newest ones. *)
Lemma newest_union n m1 m2 u u' :
  right_union m1 m2 u -> right_union (newest n m1) (newest n m2) u' -> newest n u' = newest n u.
Proof.
  intros Hu Hu'. pose proof Hu as (H1 & H2 & Hsu & Hg). pose proof Hu' as (_ & _ & Hsu' & Hg').
  apply bt_ext; [by apply newest_sorted..|]. intros [k v]. rewrite !newest_spec by done. cbn.
  pose proof (right_union_after _ _ _ k Hu) as [A1 A2]. pose proof (right_union_after _ _ _ k Hu') as [A1' A2'].
  destruct (decide (n <= after k m1)%nat) as [B1|B1]; [pose proof (after_newest n m1 k H1 B1); lia|].
  destruct (decide (n <= after k m2)%nat) as [B2|B2]; [pose proof (after_newest n m2 k H2 B2); lia|].
  assert (Hsame : forall k', ~ rlt k' k -> bt_get k' u' = bt_get k' u).
  { intros k' Hk'. pose proof (after_antitone k k' m1 Hk'). pose proof (after_antitone k k' m2 Hk').
    by rewrite Hg, Hg', !newest_get by (done || lia). }
  assert (after k u' = after k u) as ->.
  { apply Nat.le_antisymm; (apply after_sub; [done..|]; intros k' Hk';
      rewrite Hsame by (by apply rlt_asym); done). }
  rewrite <-!bt_get_elem by done. by rewrite Hsame by apply rlt_irrefl.
Qed.
End NewestEntries.

Local Open Scope Z_scope.

(** ** Samples *)
Definition entries_of (samples : list DetectedUseTokenSample) : list (string * Z) := sample_entry <$> samples.
Lemma entries_recent m : entries_of (recent_samples m) = newest MAX_TOKEN_SAMPLES m.
Proof.
  unfold entries_of, recent_samples. rewrite <-list_fmap_compose.
  rewrite <-(list_fmap_id (newest MAX_TOKEN_SAMPLES m)). apply list_fmap_ext. by intros i [].
Qed.
Lemma insert_samples_entries samples m :
  insert_samples samples m = foldl (fun m e => (bt_insert e.1 e.2 m).1) m (entries_of samples).
Proof. unfold insert_samples, entries_of. by rewrite foldl_fmap. Qed.
Lemma insert_entries_sorted (l m : list (string * Z)) :
  ksorted fst m -> ksorted fst (foldl (fun m e => (bt_insert e.1 e.2 m).1) m l).
Proof. revert m. induction l as [|e l IH]; intros m Hm; [done|]. by apply IH, bt_insert_sorted. Qed.
Lemma insert_entries_get (l m : list (string * Z)) k :
  ksorted fst l -> ksorted fst m ->
  bt_get k (foldl (fun m e => (bt_insert e.1 e.2 m).1) m l) =
  match bt_get k l with Some v => Some v | None => bt_get k m end.
Proof.
  revert m. induction l as [|[k1 v1] l IH]; intros m Hl Hm; [done|]. pose proof Hl as [Hl' Hall]%ksorted_cons_inv.
  cbn [foldl]. rewrite IH, bt_get_insert by (done || by apply bt_insert_sorted). rewrite Forall_forall in Hall.
  cbn [fst snd]. case_decide as Hk.
  - subst k1. assert (bt_get k ((k, v1) :: l) = Some v1) as -> by (apply bt_get_elem; [done|by left]).
    destruct (bt_get k l) as [v|] eqn:E; [|done]. apply bt_get_elem in E; [|done]. apply Hall in E.
    by apply rlt_irrefl in E.
  - assert (bt_get k ((k1, v1) :: l) = bt_get k l) as ->; [|done].
    apply option_eq. intros v. rewrite !bt_get_elem by done. rewrite elem_of_cons. naive_solver.
Qed.
(** Merged samples are the newest of the union, the later samples first. *)
Lemma merged_union (previous incoming : list DetectedUseTokenSample) :
  ksorted fst (entries_of previous) -> ksorted fst (entries_of incoming) ->
  right_union (entries_of previous) (entries_of incoming) (insert_samples incoming (insert_samples previous [])).
Proof.
  intros Hp Hi. assert (Hn : ksorted fst ([] : list (string * Z))) by constructor.
  rewrite !insert_samples_entries.
  split_and!; [done..|by repeat apply insert_entries_sorted|]. intros k.
  rewrite !insert_entries_get by (done || by apply insert_entries_sorted). destruct (bt_get k (entries_of incoming)); [done|].
  by destruct (bt_get k (entries_of previous)).
Qed.
Lemma merged_recent m1 m2 u : right_union m1 m2 u ->
  recent_samples (insert_samples (recent_samples m2) (insert_samples (recent_samples m1) [])) = recent_samples u.
Proof.
  intros Hu. unfold recent_samples at 1 4.
  enough (newest MAX_TOKEN_SAMPLES (insert_samples (recent_samples m2) (insert_samples (recent_samples m1) []))
    = newest MAX_TOKEN_SAMPLES u) as E by (unfold newest in E; by rewrite E).
  apply (newest_union _ _ _ _ _ Hu). rewrite <-!entries_recent. destruct Hu as (H1 & H2 & _).
  apply merged_union; rewrite entries_recent; by apply newest_sorted.
Qed.

Section Laws.
Context (uppercase : Z -> list Z) (parse_rfc3339 : string -> option Z).
Abbreviation into := (into_detected_use uppercase).

(** ** Aggregation, row by row *)
Definition Observed : Type := SnapshotItem * SnapshotUsageBucket * SnapshotModelUsage.
Definition rows_of (snapshots : list SnapshotItem) : list Observed :=
  snapshots ≫= fun snapshot => usage_buckets snapshot ≫= fun bucket => (fun row => (snapshot, bucket, row)) <$> model_usage bucket.
Definition key_of (o : Observed) : GroupKey := row_key o.2.
Definition start_of (o : Observed) : string := bucket_start o.1.2.
Definition build (builder : GroupBuilder) (o : Observed) : GroupBuilder := build_row o.1.1 o.1.2 o.2 builder.
Definition add (groups : list (GroupKey * GroupBuilder)) (o : Observed) : list (GroupKey * GroupBuilder) :=
  add_row o.1.1 o.1.2 groups o.2.

Lemma foldl_bind {A B C} (f : C -> B -> C) (g : A -> list B) (l : list A) c :
  foldl f c (l ≫= g) = foldl (fun c a => foldl f c (g a)) c l.
Proof. revert c. induction l as [|a l IH]; intros c; cbn; [done|]. by rewrite foldl_app, IH. Qed.
Lemma foldl_ext {A C} (f g : C -> A -> C) (l : list A) c : (forall c a, f c a = g c a) -> foldl f c l = foldl g c l.
Proof. intros H. revert c. induction l as [|a l IH]; intros c; cbn; [done|]. by rewrite H, IH. Qed.
Lemma aggregate_rows snapshots : aggregate_groups snapshots = foldl add [] (rows_of snapshots).
Proof.
  unfold aggregate_groups, rows_of. rewrite foldl_bind. apply foldl_ext. intros c snapshot.
  rewrite foldl_bind. apply foldl_ext. intros c' bucket. by rewrite foldl_fmap.
Qed.
Lemma rows_app xs ys : rows_of (xs ++ ys) = rows_of xs ++ rows_of ys.
Proof. unfold rows_of. by rewrite bind_app. Qed.

Lemma groups_sorted l m : ksorted fst m -> ksorted fst (foldl add m l).
Proof. revert m. induction l as [|o l IH]; intros m Hm; [done|]. by apply IH, bt_insert_sorted. Qed.
Definition group_after (b : option GroupBuilder) (o : Observed) : option GroupBuilder :=
  Some (build (default new_builder b) o).
Lemma groups_get l m k : ksorted fst m ->
  bt_get k (foldl add m l) = foldl group_after (bt_get k m) (filter (fun o => key_of o = k) l).
Proof.
  revert m. induction l as [|o l IH]; intros m Hm; [done|]. cbn [foldl].
  rewrite IH by by apply bt_insert_sorted. unfold add, add_row. rewrite bt_get_insert by done.
  rewrite filter_cons. change (key_of o) with (row_key o.2).
  destruct (decide (k = row_key o.2)) as [->|Hk]; [by rewrite decide_True|by rewrite decide_False by congruence].
Qed.
Lemma group_after_build l b : foldl group_after (Some b) l = Some (foldl build b l).
Proof. revert b. induction l as [|o l IH]; intros b; [done|]. cbn. apply IH. Qed.
Definition group (l : list Observed) : option GroupBuilder :=
  match l with [] => None | _ => Some (foldl build new_builder l) end.
Lemma group_spec l : foldl group_after None l = group l.
Proof. destruct l as [|o l]; [done|]. apply group_after_build. Qed.

(** *** One group, field by field *)
Definition first_some {A} (f : Observed -> option A) (l : list Observed) : option A := head (omap f l).
Definition candidate (o : Observed) : string :=
  default (start_of o) (or_else (last_activity_at o.1.2) (source_last_activity_at o.1.1)).
Definition later_of (a b : string) : string := if rltb a b then b else a.
Definition seen_after (seen : option string) (o : Observed) : option string :=
  Some (match seen with Some current => later_of current (candidate o) | None => candidate o end).
Definition tokens_after (n : option Z) (o : Observed) : option Z := Some (wrap_u 64 (default 0 n + row_total_tokens o.2)).
Definition tokens_at (h : string) (n : option Z) (l : list Observed) : option Z :=
  foldl tokens_after n (filter (fun o => start_of o = h) l).

Lemma or_else_assoc {A} (a b c : option A) : or_else (or_else a b) c = or_else a (or_else b c).
Proof. by destruct a. Qed.
Lemma first_some_cons {A} (f : Observed -> option A) o l : first_some f (o :: l) = or_else (f o) (first_some f l).
Proof. unfold first_some. cbn. by destruct (f o). Qed.
Lemma first_some_app {A} (f : Observed -> option A) l l' :
  first_some f (l ++ l') = or_else (first_some f l) (first_some f l').
Proof. induction l as [|o l IH]; [done|]. cbn [app]. by rewrite !first_some_cons, IH, or_else_assoc. Qed.
Lemma build_fields b l :
  b_plan_fingerprint (foldl build b l) = or_else (b_plan_fingerprint b) (first_some (fun o => row_plan_fingerprint o.2) l) /\
  b_subscription_product (foldl build b l)
    = or_else (b_subscription_product b) (first_some (fun o => row_subscription_product o.2) l) /\
  b_last_seen_at (foldl build b l) = foldl seen_after (b_last_seen_at b) l.
Proof.
  revert b. induction l as [|o l IH]; intros b; [by destruct b as [? [] [] ? ?]|].
  destruct (IH (build b o)) as (H1 & H2 & H3). rewrite !first_some_cons. cbn [foldl]. rewrite H1, H2, H3. cbn.
  rewrite !or_else_assoc. split_and!; [done..|]. f_equal. unfold seen_after, later_of, candidate, start_of.
  by destruct (b_last_seen_at b); [case_match|].
Qed.
Lemma build_tokens b l : ksorted fst (bucket_tokens b) ->
  ksorted fst (bucket_tokens (foldl build b l)) /\
  forall h, bt_get h (bucket_tokens (foldl build b l)) = tokens_at h (bt_get h (bucket_tokens b)) l.
Proof.
  revert b. induction l as [|o l IH]; intros b Hb; [done|].
  destruct (IH (build b o)) as [Hs Hg]; [by apply bt_insert_sorted|]. split; [done|]. intros h.
  cbn [foldl]. rewrite Hg. unfold tokens_at. rewrite filter_cons. cbn [build build_row bucket_tokens].
  rewrite bt_get_insert by done. change (bucket_start o.1.2) with (start_of o).
  destruct (decide (h = start_of o)) as [->|Hh]; [by rewrite decide_True|by rewrite decide_False by congruence].
Qed.
Lemma build_gateway b l g : l <> [] -> Forall (fun o => row_gateway_provider o.2 = g) l ->
  b_gateway_provider (foldl build b l) = g.
Proof.
  revert b. induction l as [|o l IH]; intros b Hl Ha; [done|]. apply Forall_cons in Ha as [Ho Ha]. cbn [foldl].
  destruct (decide (l = [])) as [->|]; [done|by apply IH].
Qed.
Lemma row_plan_of_key row : row_plan_fingerprint row = non_empty (Some (default ""%string (row_plan_fingerprint row))).
Proof.
  unfold row_plan_fingerprint. destruct (row_subscription_product row) as [product|]; [|done].
  destruct (non_empty (_ !! _)) as [bucket|]; [|done]. unfold non_empty. by rewrite bool_decide_false by by destruct product.
Qed.
Definition of_key (k : GroupKey) (l : list Observed) : Prop := l <> [] /\ Forall (fun o => key_of o = k) l.
Lemma group_key k l : of_key k l ->
  b_gateway_provider (foldl build new_builder l) = k.1.1 /\
  b_plan_fingerprint (foldl build new_builder l) = non_empty (Some k.1.2) /\ k.2 = ""%string.
Proof.
  intros [Hl Ha]. split_and!.
  - apply build_gateway; [done|]. eapply Forall_impl; [exact Ha|]. by intros o <-.
  - rewrite (proj1 (build_fields _ _)). change (or_else _ ?x) with x. destruct l as [|o l]; [done|]. clear Hl.
    assert (Hp : Forall (fun o => row_plan_fingerprint o.2 = non_empty (Some k.1.2)) (o :: l)).
    { eapply Forall_impl; [exact Ha|]. intros o' <-. apply row_plan_of_key. }
    clear Ha. apply Forall_cons in Hp as [Ho Hp]. rewrite first_some_cons, Ho.
    destruct (non_empty (Some k.1.2)) as [p|]; [done|]. clear Ho. induction Hp as [|o' l' Ho' _ IH]; [done|].
    by rewrite first_some_cons, Ho'.
  - destruct l as [|o l]; [done|]. by apply Forall_cons in Ha as [<- _].
Qed.

(** ** Two deltas of one group *)
Lemma later_of_assoc a b c : later_of (later_of a b) c = later_of a (later_of b c).
Proof.
  unfold later_of. destruct (rltb a b) eqn:E1, (rltb b c) eqn:E2; rewrite ?E1, ?E2; try done.
  - apply rltb_spec in E1, E2. by rewrite (proj2 (rltb_spec a c)) by by etrans.
  - rewrite rltb_false; [done|]. intros Hac. destruct (rcmp_total a b) as [Hab|[->|Hba]].
    + apply rltb_spec in Hab. congruence.
    + apply rltb_spec in Hac. congruence.
    + assert (rlt b c) as Hbc%rltb_spec by (by etrans). congruence.
Qed.
Lemma seen_from a l : foldl seen_after (Some a) l
  = Some (match foldl seen_after None l with Some c => later_of a c | None => a end).
Proof.
  revert a. induction l as [|o l IH]; intros a; [done|]. cbn [foldl].
  change (seen_after (Some a) o) with (Some (later_of a (candidate o))).
  change (seen_after None o) with (Some (candidate o)). rewrite !IH.
  destruct (foldl seen_after None l); [by rewrite later_of_assoc|done].
Qed.
Lemma seen_some l : l <> [] -> is_Some (foldl seen_after None l).
Proof.
  destruct l as [|o l]; [done|]. intros _. cbn [foldl]. change (seen_after None o) with (Some (candidate o)).
  rewrite seen_from. by eexists.
Qed.
Lemma tokens_at_none h n l : (forall o, o ∈ l -> start_of o <> h) -> tokens_at h n l = n.
Proof.
  intros Hl. unfold tokens_at. assert (filter (fun o => start_of o = h) l = []) as ->; [|done].
  induction l as [|o l IH]; [done|]. rewrite filter_cons, decide_False by (apply Hl; left).
  apply IH. intros o' Ho'. apply Hl. by right.
Qed.
Lemma tokens_at_some h n l o : o ∈ l -> start_of o = h -> is_Some (tokens_at h n l).
Proof.
  intros Ho <-. unfold tokens_at. assert (Hf : o ∈ filter (fun o' => start_of o' = start_of o) l).
  { by apply list_elem_of_filter. }
  destruct (filter _ l) as [|o' l'] using rev_ind; [by apply not_elem_of_nil in Hf|]. rewrite foldl_app. by eexists.
Qed.
Lemma day_of_key_app k l l' : of_key k l -> of_key k l' -> of_key k (l ++ l').
Proof. intros [Hl Ha] [_ Ha']. split; [by destruct l|by apply Forall_app]. Qed.
Lemma tokens_union lx ly : (forall x y, x ∈ lx -> y ∈ ly -> start_of x <> start_of y) ->
  right_union (bucket_tokens (foldl build new_builder lx)) (bucket_tokens (foldl build new_builder ly))
    (bucket_tokens (foldl build new_builder (ly ++ lx))).
Proof.
  intros Hd. assert (Hn : ksorted fst (bucket_tokens new_builder)) by constructor.
  destruct (build_tokens _ lx Hn) as [Hsx Hx], (build_tokens _ ly Hn) as [Hsy Hy],
    (build_tokens _ (ly ++ lx) Hn) as [Hs Hg].
  split_and!; [done..|]. intros h. rewrite Hx, Hy, Hg. cbn [bucket_tokens new_builder]. rewrite bt_get_nil.
  unfold tokens_at at 1. rewrite filter_app, foldl_app.
  fold (tokens_at h None ly). fold (tokens_at h (tokens_at h None ly) lx).
  destruct (decide (Exists (fun y => start_of y = h) ly)) as [(y & Hyl & Hyh)%Exists_exists|Hno].
  - destruct (tokens_at_some h None ly y Hyl Hyh) as [n ->]. apply tokens_at_none. intros x Hx' Heq.
    destruct (Hd x y Hx' Hyl). congruence.
  - by rewrite (tokens_at_none h None ly) by (intros o Ho Heq; apply Hno, Exists_exists; eauto).
Qed.
(** A delta of one group merged into an earlier one is the delta of both. *)
Lemma merge_builders k lx ly : of_key k lx -> of_key k ly ->
  (forall x y, x ∈ lx -> y ∈ ly -> start_of x <> start_of y) ->
  merge_pair (into (foldl build new_builder lx)) (into (foldl build new_builder ly))
  = into (foldl build new_builder (ly ++ lx)).
Proof.
  intros Hkx Hky Hd.
  destruct (group_key k lx Hkx) as (Gx & Px & _), (group_key k ly Hky) as (Gy & Py & _),
    (group_key k (ly ++ lx) (day_of_key_app _ _ _ Hky Hkx)) as (G & P & _).
  destruct (build_fields new_builder lx) as (_ & Sx & Lx), (build_fields new_builder ly) as (_ & Sy & Ly),
    (build_fields new_builder (ly ++ lx)) as (_ & S & L).
  cbn [b_subscription_product b_last_seen_at new_builder or_else] in *.
  pose proof (tokens_union lx ly Hd) as Ht.
  unfold merge_pair, into_detected_use.
  cbn [gateway_provider plan_fingerprint account_identifier_hash subscription_product account_label last_seen_at
    token_volume_recent quota_window_state quota_used_percent quota_resets_at]. f_equal.
  - congruence.
  - rewrite Px, Py, P. by destruct (non_empty _).
  - by rewrite S, first_some_app, Sx, Sy.
  - rewrite Gx, Gy, G, S, first_some_app, Sx, Sy. by destruct (first_some _ ly).
  - rewrite Lx, Ly, L, foldl_app. destruct (seen_some lx (proj1 Hkx)) as [cx Ex], (seen_some ly (proj1 Hky)) as [cy Ey].
    by rewrite Ey, seen_from, Ex.
  - by apply merged_recent.
Qed.

(** *** Merging lists *)
Definition merged_after (seen : option DetectedUse) (entry : DetectedUse) : option DetectedUse :=
  Some (match seen with Some previous => merge_pair previous entry | None => entry end).
Lemma merge_entry_sorted m entry : ksorted fst m -> ksorted fst (merge_entry m entry).
Proof.
  intros Hm. unfold merge_entry. destruct (bt_remove _ m) as [m' [p|]] eqn:E;
    pose proof (bt_remove_sorted (detected_use_key entry) m Hm) as Hs; rewrite E in Hs; by apply bt_insert_sorted.
Qed.
Lemma merge_entry_get m entry k : ksorted fst m ->
  bt_get k (merge_entry m entry) =
  if decide (detected_use_key entry = k) then merged_after (bt_get k m) entry else bt_get k m.
Proof.
  intros Hm. unfold merge_entry. pose proof (bt_remove_sorted (detected_use_key entry) m Hm) as Hs.
  pose proof (bt_remove_old (detected_use_key entry) m) as Hold.
  pose proof (fun k' => bt_get_remove (detected_use_key entry) k' m Hm) as Hget.
  destruct (bt_remove _ m) as [m' old]. cbn in Hs, Hold, Hget. subst old.
  destruct (decide (detected_use_key entry = k)) as [<-|Hk]; destruct (bt_get (detected_use_key entry) m) as [p|] eqn:E;
    rewrite bt_get_insert by done; case_decide; try congruence; rewrite ?Hget, ?E; try done;
    by rewrite decide_False.
Qed.
Lemma merge_get l m k : ksorted fst m ->
  ksorted fst (foldl merge_entry m l) /\
  bt_get k (foldl merge_entry m l) = foldl merged_after (bt_get k m) (filter (fun e => detected_use_key e = k) l).
Proof.
  revert m. induction l as [|e l IH]; intros m Hm; [done|]. cbn [foldl].
  destruct (IH (merge_entry m e) (merge_entry_sorted _ _ Hm)) as [Hs Hg]. split; [done|].
  rewrite Hg, merge_entry_get, filter_cons by done. by destruct (decide _).
Qed.
End Laws.
