(* ===== verification/DetectedUsesCache.v ===== *)
(** What the cache of detected uses is worth: its invariant over sync cycles,
    what folding in a delta means, and the quota health shows. *)
From stdpp Require Import gmap strings.
From S2P Require Import Prelude.
From S2P Require Import OrdMap.
From S2P Require Import Text.
From S2P Require Import Std.
From S2P Require Import StatusTypes.
From S2P Require Import DetectedUsesLaws.
From S2P Require Import DetectedUses.
Local Open Scope Z_scope.

Section Cache.
Context (uppercase : Z -> list Z) (parse_rfc3339 : string -> option Z).
Abbreviation into := (into_detected_use uppercase).
Abbreviation groups xs := (foldl add [] (rows_of xs)).

Definition key_matches (e : GroupKey * GroupBuilder) : Prop := detected_use_key (into e.2) = e.1.
Lemma rows_of_key k l : filter (fun o => key_of o = k) l <> [] -> of_key k (filter (fun o => key_of o = k) l).
Proof. intros Hl. split; [done|]. apply Forall_forall. by intros o [? _]%list_elem_of_filter. Qed.
Lemma groups_sorted_nil l : ksorted fst (foldl add [] l).
Proof. apply groups_sorted. constructor. Qed.
Lemma groups_key l k : bt_get k (foldl add [] l) = group (filter (fun o => key_of o = k) l).
Proof. rewrite groups_get by constructor. apply group_spec. Qed.
Lemma group_some k l b : group (filter (fun o => key_of o = k) l) = Some b ->
  of_key k (filter (fun o => key_of o = k) l) /\ b = foldl build new_builder (filter (fun o => key_of o = k) l).
Proof.
  intros Hg. destruct (filter _ l) as [|o l'] eqn:E; [done|]. injection Hg as <-. split; [|done].
  rewrite <-E. apply rows_of_key. by rewrite E.
Qed.
Lemma built_key k l : of_key k l -> detected_use_key (into (foldl build new_builder l)) = k.
Proof.
  intros Hk. destruct (group_key k l Hk) as (Hg & Hp & He). destruct k as [[g p] h]. cbn in *.
  unfold detected_use_key. cbn [into_detected_use gateway_provider plan_fingerprint account_identifier_hash].
  rewrite Hg, Hp, He. f_equal. f_equal. unfold non_empty. by case_bool_decide.
Qed.
Lemma groups_keys l : Forall key_matches (foldl add [] l).
Proof.
  apply Forall_forall. intros [k b] Hin. apply bt_get_elem in Hin; [|apply groups_sorted_nil].
  rewrite groups_key in Hin. apply group_some in Hin as [Hk ->]. by apply built_key.
Qed.
Lemma aggregate_eq xs : aggregate_detected_uses uppercase xs = (fun e => into e.2) <$> groups xs.
Proof. unfold aggregate_detected_uses. rewrite aggregate_rows. apply list_fmap_ext. by intros i []. Qed.
Lemma aggregate_filter xs k :
  filter (fun e => detected_use_key e = k) (aggregate_detected_uses uppercase xs)
  = option_list (into <$> group (filter (fun o => key_of o = k) (rows_of xs))).
Proof.
  rewrite aggregate_eq, <-groups_key. pose proof (groups_keys (rows_of xs)) as Hk.
  assert (Hf : forall m, Forall key_matches m ->
    filter (fun e => detected_use_key e = k) ((fun e => into e.2) <$> m) = (fun e => into e.2) <$> filter (fun e => e.1 = k) m).
  { induction 1 as [|e m He _ IH]; [done|]. rewrite fmap_cons, !filter_cons, IH.
    rewrite He. by destruct (decide (e.1 = k)). }
  rewrite Hf, bt_filter_key by (done || apply groups_sorted_nil). by destruct (bt_get k _).
Qed.

(** C36: A cache that is kept up by deltas is the aggregate of everything.  When
    no hour of a destination is in both, folding one delta into the aggregate of
    what came before gives exactly the aggregate of both, the newer first:
    labels, sums, the newest samples and times included. *)
Theorem delta_completes_aggregate xs ys now retention :
  (forall x y, x ∈ rows_of xs -> y ∈ rows_of ys -> key_of x = key_of y -> start_of x <> start_of y) ->
  merge_detected_uses parse_rfc3339 (aggregate_detected_uses uppercase xs) (aggregate_detected_uses uppercase ys)
    now retention
  = prune_stale_detected_uses parse_rfc3339 (aggregate_detected_uses uppercase (ys ++ xs)) now retention.
Proof.
  intros Hd. unfold merge_detected_uses. f_equal.
  transitivity (map_values into (groups (ys ++ xs))).*2.
  2: { rewrite aggregate_eq. unfold map_values. by rewrite <-list_fmap_compose. }
  f_equal. unfold merge_groups.
  assert (Hn : ksorted fst ([] : list (GroupKey * DetectedUse))) by constructor.
  apply bt_ext_get.
  - by apply (merge_get _ [] ("", "", "")%string).
  - apply map_values_sorted, groups_sorted_nil.
  - intros k. rewrite (proj2 (merge_get _ [] k Hn)), bt_get_nil, map_values_get by apply groups_sorted_nil.
    rewrite filter_app, !aggregate_filter, groups_key, rows_app, filter_app.
    assert (Hd' : forall x y, x ∈ filter (fun o => key_of o = k) (rows_of xs) ->
      y ∈ filter (fun o => key_of o = k) (rows_of ys) -> start_of x <> start_of y).
    { intros x y [Hx ?]%list_elem_of_filter [Hy ?]%list_elem_of_filter. apply Hd; congruence || done. }
    destruct (decide (filter (fun o => key_of o = k) (rows_of xs) = [])) as [->|Hx].
    { rewrite app_nil_r. by destruct (filter _ (rows_of ys)). }
    destruct (decide (filter (fun o => key_of o = k) (rows_of ys) = [])) as [->|Hy].
    { cbn [app group option_list fmap option_fmap option_map]. rewrite app_nil_r. by destruct (filter _ (rows_of xs)). }
    apply rows_of_key in Hx, Hy. pose proof (day_of_key_app _ _ _ Hy Hx) as Hxy.
    assert (Hg : forall l, of_key k l -> group l = Some (foldl build new_builder l)) by by intros [|] [].
    rewrite !Hg by done. cbn. f_equal. symmetry. by rewrite <-(merge_builders _ k) by done.
Qed.

(** ** The invariant of the cache *)
Definition use_ok (e : DetectedUse) : Prop :=
  ksorted fst (entries_of (token_volume_recent e)) /\
  (length (token_volume_recent e) <= MAX_TOKEN_SAMPLES)%nat /\
  Forall (fun sample => u64 (tokens sample)) (token_volume_recent e) /\
  quota_window_state e = QuotaUnknown /\ quota_used_percent e = None /\ quota_resets_at e = None.
Definition values_ok (m : list (string * Z)) : Prop := ksorted fst m /\ Forall (fun e => u64 e.2) m.
Lemma recent_ok m : values_ok m ->
  ksorted fst (entries_of (recent_samples m)) /\ (length (recent_samples m) <= MAX_TOKEN_SAMPLES)%nat /\
  Forall (fun sample => u64 (tokens sample)) (recent_samples m).
Proof.
  intros [Hs Hv]. split_and!.
  - rewrite entries_recent. by apply newest_sorted.
  - unfold recent_samples. rewrite length_fmap. apply newest_length.
  - unfold recent_samples. apply Forall_fmap, Forall_drop. eapply Forall_impl; [exact Hv|]. by intros [].
Qed.
Lemma insert_ok h n m : values_ok m -> u64 n -> values_ok (bt_insert h n m).1.
Proof.
  intros [Hs Hv] Hn. split; [by apply bt_insert_sorted|]. rewrite Forall_forall in *. intros [h' n'] Hin.
  apply bt_get_elem in Hin; [|by apply bt_insert_sorted]. rewrite bt_get_insert in Hin by done.
  case_decide; [by injection Hin as <-|]. apply bt_get_elem in Hin; [|done]. by apply Hv in Hin.
Qed.
Lemma inserted_ok samples m : values_ok m -> Forall (fun sample => u64 (tokens sample)) samples ->
  values_ok (insert_samples samples m).
Proof.
  intros Hm Hs. revert m Hm. induction Hs as [|x samples Hx _ IH]; intros m Hm; [done|]. by apply IH, insert_ok.
Qed.
Lemma built_ok l b : values_ok (bucket_tokens b) -> values_ok (bucket_tokens (foldl build b l)).
Proof.
  revert b. induction l as [|o l IH]; intros b Hb; [done|]. by apply IH, insert_ok, wrap_u_uint.
Qed.
Lemma no_values : values_ok [].
Proof. split; constructor. Qed.
Lemma aggregate_ok xs e : e ∈ aggregate_detected_uses uppercase xs -> use_ok e.
Proof.
  rewrite aggregate_eq. intros ([k b] & -> & Hin)%list_elem_of_fmap. apply bt_get_elem in Hin; [|apply groups_sorted_nil].
  rewrite groups_key in Hin. apply group_some in Hin as [_ ->]. set (l := filter _ _).
  destruct (recent_ok _ (built_ok l new_builder no_values)) as (? & ? & ?). by split_and!.
Qed.
Lemma merge_pair_ok previous incoming : use_ok previous -> use_ok incoming ->
  detected_use_key previous = detected_use_key incoming ->
  use_ok (merge_pair previous incoming) /\ detected_use_key (merge_pair previous incoming) = detected_use_key incoming.
Proof.
  intros (_ & _ & Hp & _) (_ & _ & Hi & Hq) Hk. split.
  - destruct (recent_ok (insert_samples (token_volume_recent incoming) (insert_samples (token_volume_recent previous) [])))
      as (H1 & H2 & H3).
    { by apply inserted_ok; [apply inserted_ok; [apply no_values|]|]. }
    destruct Hq as (? & ? & ?). by split_and!.
  - unfold detected_use_key in *. cbn. injection Hk as Hg Hf Hh. by destruct (plan_fingerprint incoming), (account_identifier_hash incoming);
      cbn in *; rewrite ?Hf, ?Hh.
Qed.

Definition table_ok (m : list (GroupKey * DetectedUse)) : Prop :=
  ksorted fst m /\ forall k e, bt_get k m = Some e -> use_ok e /\ detected_use_key e = k.
Lemma merge_entry_ok m e : table_ok m -> use_ok e -> table_ok (merge_entry m e).
Proof.
  intros [Hs Hm] He. split; [by apply merge_entry_sorted|]. intros k e'. rewrite merge_entry_get by done.
  case_decide as Hk; [|apply Hm]. intros [= <-]. destruct (bt_get k m) as [p|] eqn:Ep; [|done].
  destruct (Hm _ _ Ep) as [Hp Hpk]. destruct (merge_pair_ok p e Hp He) as [? ?]; [congruence|]. split; [done|congruence].
Qed.
Lemma merge_groups_ok existing fresh : Forall use_ok existing -> Forall use_ok fresh ->
  table_ok (merge_groups existing fresh).
Proof.
  intros He Hf. unfold merge_groups. assert (Ha : Forall use_ok (existing ++ fresh)) by by apply Forall_app.
  assert (Hm : table_ok []) by (split; [constructor|done]). revert Hm. generalize ([] : list (GroupKey * DetectedUse)).
  induction Ha as [|e l He' _ IH]; intros m Hm; [done|]. by apply IH, merge_entry_ok.
Qed.
Lemma table_uses m : table_ok m -> ksorted detected_use_key m.*2 /\ Forall use_ok m.*2.
Proof.
  intros [Hs Hm]. assert (Hin : forall k e, (k, e) ∈ m -> use_ok e /\ detected_use_key e = k).
  { intros k e He. apply Hm. by apply bt_get_elem. }
  clear Hm. split.
  - induction Hs as [|[k e] m Hs IH Hall]; [constructor|]. cbn. constructor.
    + apply IH. intros k' e' He'. apply Hin. by right.
    + apply Forall_fmap, Forall_forall. intros [k' e'] He'. rewrite Forall_forall in Hall. specialize (Hall _ He'). cbn in *.
      destruct (Hin k e) as [_ ->]; [by left|]. by destruct (Hin k' e') as [_ ->]; [by right|].
  - apply Forall_fmap, Forall_forall. intros [k e] He. by destruct (Hin k e He).
Qed.

(** The cache after sync cycles, the latest first; before a cycle the file may
    have been lost or unreadable. *)
Fixpoint cache_after (day : Z) (cycles : list (bool * list SnapshotItem * Z)) : list DetectedUse :=
  match cycles with
  | [] => []
  | (lost, snapshots, now) :: earlier =>
      let cache := if lost : bool then None else Some (cache_after day earlier) in
      update_detected_uses_cache uppercase parse_rfc3339 day cache snapshots now
  end.
Lemma cache_uses_ok day cycles : Forall use_ok (cache_after day cycles).
Proof.
  induction cycles as [|[[lost snapshots] now] cycles IH]; [constructor|]. cbn. apply Forall_filter.
  apply table_uses, merge_groups_ok; [by destruct lost|]. apply Forall_forall. apply aggregate_ok.
Qed.

(** After any sync cycles, whatever was lost in between, the cache names
    each destination once, in order; each has at most 24 samples in ascending
    order of their hours, each a [u64], and no quota; and none was stale at the
    last cycle. *)
Theorem cache_stays_sound day lost snapshots now earlier :
  let cache := cache_after day ((lost, snapshots, now) :: earlier) in
  ksorted detected_use_key cache /\ Forall use_ok cache /\
  Forall (fun e => detected_use_is_fresh parse_rfc3339 (now - DETECTED_USE_RETENTION_DAYS * day) e = true) cache.
Proof.
  intros cache. split_and!; [|apply cache_uses_ok|].
  - apply ksorted_filter, table_uses, merge_groups_ok; [destruct lost; [constructor|apply cache_uses_ok]|].
    apply Forall_forall. apply aggregate_ok.
  - apply Forall_forall. by intros e [He _]%list_elem_of_filter.
Qed.
End Cache.

(** ** The quota of the current plan *)
(** [window] is about the account of the snapshot: what it names, the account
    has. *)
Definition of_account (account : AgentAccountStatus) (window : AgentQuotaWindow) : Prop :=
  (forall hash, trimmed (win_account_identifier_hash window) = Some hash ->
     str_trim <$> acc_account_identifier_hash account = Some hash) /\
  (forall hash, trimmed (win_organization_identifier_hash window) = Some hash ->
     str_trim <$> acc_organization_identifier_hash account = Some hash) /\
  (trimmed (win_account_identifier_hash window) = None -> trimmed (win_organization_identifier_hash window) = None ->
     forall label, trimmed (win_account_label window) = Some label ->
     exists email, trimmed (acc_email account) = Some email /\ eq_ignore_ascii_case email label = true).
Lemma matches_account snapshot account window : snap_account snapshot = Some account ->
  quota_window_matches_snapshot_account snapshot window = true <-> of_account account window.
Proof.
  intros Ha. unfold quota_window_matches_snapshot_account, of_account. rewrite Ha.
  destruct (trimmed (win_account_identifier_hash window)) as [h1|], (trimmed (win_organization_identifier_hash window)) as [h2|];
    rewrite ?andb_true_iff, ?andb_true_r, ?bool_decide_eq_true; [naive_solver..|].
  destruct (trimmed (win_account_label window)) as [label|]; [|naive_solver]. cbn [mbind option_bind].
  destruct (trimmed (acc_email account)) as [email|]; split; try done.
  - intros He. split_and!; [done..|]. intros _ _ ? [= <-]. by exists email.
  - intros (_ & _ & Hl). destruct (Hl eq_refl eq_refl _ eq_refl) as (? & [= <-] & ?). done.
  - intros (_ & _ & Hl). by destruct (Hl eq_refl eq_refl _ eq_refl) as (? & ? & ?).
Qed.

(** Health shows quota only where it belongs.  A destination shown is one of
    the cache, in its place; it carries live quota only when its product is the
    account's plan, and then that of a window of exactly this account, none of
    whose windows is more constraining. *)
Theorem health_quota_of_current_plan parse_rfc3339 day cache agent_status now :
  Forall2 (fun stored shown =>
    shown = stored \/
    exists snapshot account window product,
      agent_status = Some snapshot /\ snap_account snapshot = Some account /\
      subscription_product stored = Some product /\ ascii_lowercase (str_trim product) ∈ plan_keys account /\
      window ∈ snap_quota_windows snapshot /\ of_account account window /\
      (forall w, w ∈ snap_quota_windows snapshot -> of_account account w -> ~ rlt (window_rank window) (window_rank w)) /\
      (quota_window_state shown, quota_used_percent shown, quota_resets_at shown) = quota_state_from_window window /\
      subscription_product shown = Some product /\ detected_use_key shown = detected_use_key stored)
    (prune_stale_detected_uses parse_rfc3339 (default [] cache) now (DETECTED_USE_RETENTION_DAYS * day))
    (detected_uses_for_health parse_rfc3339 day cache agent_status now).
Proof.
  unfold detected_uses_for_health. generalize (prune_stale_detected_uses parse_rfc3339 (default [] cache) now
    (DETECTED_USE_RETENTION_DAYS * day)). intros kept.
  destruct agent_status as [snapshot|]; [|by apply Forall_Forall2_diag, Forall_true; left].
  unfold merge_current_plan_quota.
  destruct (snap_account snapshot) as [account|] eqn:Ea; [|by apply Forall_Forall2_diag, Forall_true; left].
  destruct (plan_keys account) as [|key keys] eqn:Ek; [by apply Forall_Forall2_diag, Forall_true; left|]. rewrite <-Ek. clear Ek.
  pose proof (max_by_spec window_rank (fun a b => rcmp (window_rank a) (window_rank b)) (fun _ _ => eq_refl)
    (filter (fun w => quota_window_matches_snapshot_account snapshot w = true) (snap_quota_windows snapshot))) as Hmax.
  fold (pick_quota_window (filter (fun w => quota_window_matches_snapshot_account snapshot w = true)
    (snap_quota_windows snapshot))) in Hmax.
  destruct (pick_quota_window _) as [window|]; [|by apply Forall_Forall2_diag, Forall_true; left].
  destruct Hmax as [[Hm Hin]%list_elem_of_filter Hmax]. apply Forall2_fmap_r, Forall_Forall2_diag, Forall_true. intros entry.
  unfold overlay. destruct (quota_state_from_window window) as [[state used] resets] eqn:Eq. unfold compose.
  destruct (subscription_product entry) as [product|] eqn:Ep; [|by left]. case_bool_decide as Hk; [|by left]. right.
  exists snapshot, account, window, product. rewrite <-(matches_account snapshot account window Ea), Eq.
  split_and!; try done.
  intros w Hw Hof Hlt. apply (matches_account snapshot account w Ea) in Hof.
  apply (Hmax w); [by apply list_elem_of_filter|by apply rcmp_gt].
Qed.

(** ** Concrete runs *)
Definition no_upper (c : Z) : list Z := [c].
Definition no_time (text : string) : option Z := None.
Definition spent (hour : string) (input : Z) : SnapshotItem :=
  mkItem [mkBucket hour [mkRow input 0 0 0 0 0 ∅ (Some "openai"%string) None (Some "chatgpt_pro"%string)] None] None.
Definition samples_of (uses : list DetectedUse) : list (list (string * Z)) := (fun e => entries_of (token_volume_recent e)) <$> uses.
(** Two sessions share an hour and only one of them changes: its delta replaces
    the hour's total, and the other session's tokens are gone. *)
Lemma shared_hour_loses_tokens :
  let before := aggregate_detected_uses no_upper [spent "07:00" 100; spent "07:00" 50] in
  let delta := aggregate_detected_uses no_upper [spent "07:00" 60] in
  samples_of (merge_detected_uses no_time before delta 0 0) = [[("07:00"%string, 60)]] /\
  samples_of (aggregate_detected_uses no_upper [spent "07:00" 100; spent "07:00" 60]) = [[("07:00"%string, 160)]].
Proof. by vm_compute. Qed.
Lemma delta_completes_aggregate_witness :
  let xs := [spent "07:00" 100] in let ys := [spent "08:00" 60] in
  (forall x y, x ∈ rows_of xs -> y ∈ rows_of ys -> key_of x = key_of y -> start_of x <> start_of y) /\
  merge_detected_uses no_time (aggregate_detected_uses no_upper xs) (aggregate_detected_uses no_upper ys) 0 0
  = prune_stale_detected_uses no_time (aggregate_detected_uses no_upper (ys ++ xs)) 0 0.
Proof.
  intros xs ys. assert (H : forall x y, x ∈ rows_of xs -> y ∈ rows_of ys -> key_of x = key_of y -> start_of x <> start_of y).
  { intros x y ->%list_elem_of_singleton ->%list_elem_of_singleton _. discriminate. }
  split; [exact H|]. exact (delta_completes_aggregate no_upper no_time xs ys 0 0 H).
Defined.
