(* ===== verification/UploadPolicy.v ===== *)
(** The privacy rules of an upload body and the settings they read
    (crates/ottto-service/src/upload_policy.rs), with the rules other modules
    keep: display labels (session_attribution.rs) and opening files
    (snapshots/session_start.rs).

    Records have the fields a rule reads or changes; [Others] are the rest, as
    they are sent.  [snapshot_fingerprint] hashes a body
    (snapshots/wire/content_hash.rs), [sha256_hex] a list of texts, [to_json] a
    serialized list: parameters here. *)
From stdpp Require Import gmap strings.
From S2P Require Import Prelude.
From S2P Require Import Text.
From S2P Require Import Std.
From coqutil Require Import Datatypes.RecordSetters.
Import DoubleBraceUpdate.
Local Open Scope Z_scope.

Abbreviation Others := (list (string * string)).

(** ** Settings *)
Record SnapshotUploadPolicy := mkPolicy {
  session_titles_enabled : bool;
  workspace_labels_enabled : bool;
  session_artifacts_enabled : bool;
  session_attribution_enabled : bool;
  session_attribution_labels_enabled : bool;
}.
#[export] Instance SnapshotUploadPolicy_eq_dec : EqDecision SnapshotUploadPolicy.
Proof. solve_decision. Defined.
Definition default_policy : SnapshotUploadPolicy := mkPolicy true true false false false.
Definition MOST_PRIVATE : SnapshotUploadPolicy := mkPolicy false false false false false.
(** The settings of [ActivityHintResponse] the rules read. *)
Record ActivityHintResponse := mkHint {
  hint_titles : bool;
  hint_workspace : bool;
  hint_artifacts : bool;
  hint_attribution : bool;
  hint_attribution_labels : bool;
  names_withheld_contract : option string;
}.
Definition from_hint (hint : ActivityHintResponse) : SnapshotUploadPolicy :=
  mkPolicy (hint_titles hint) (hint_workspace hint) (hint_artifacts hint) (hint_attribution hint)
    (hint_attribution hint && hint_titles hint && hint_attribution_labels hint).
Definition titles (p : SnapshotUploadPolicy) : bool := session_titles_enabled p.
Definition workspace (p : SnapshotUploadPolicy) : bool := workspace_labels_enabled p.
Definition names (p : SnapshotUploadPolicy) : bool := titles p && workspace p.
Definition private_labels (p : SnapshotUploadPolicy) : bool :=
  session_attribution_enabled p && titles p && session_attribution_labels_enabled p.
Definition links (p : SnapshotUploadPolicy) : bool := session_artifacts_enabled p.

Definition NAMES_WITHHELD_CONTRACT : string := "v1".
Definition names_withheld_accepted (hint : option ActivityHintResponse) : bool :=
  bool_decide (hint ≫= names_withheld_contract = Some NAMES_WITHHELD_CONTRACT).

(** ** Bodies *)
Definition HIDDEN_MCP_NAME : string := "mcp__names-hidden__names-hidden".
Definition CUSTOM : string := "custom".
Definition PROVIDER_AGENT_KINDS : list string :=
  ["general-purpose"; "Explore"; "Plan"; "statusline-setup"; "output-style-setup"; "claude-code-guide";
   "workflow-subagent"; "claude_desktop_session"; "codex_subagent"]%string.
Definition PROVIDER_AGENT_ROLES : list string := ["default"; "explorer"; "worker"]%string.
Definition MAX_SESSION_ARTIFACT_VALUE_CHARS : nat := 512.

Record SnapshotActivityCount := mkCount { ac_name : string; ac_count : Z }.
Record SnapshotActivitySummary := mkSummary {
  mcp_tool_counts : list SnapshotActivityCount;
  tool_counts : list SnapshotActivityCount;
  skills : list string;
  summary_others : Others;
}.
Record SessionFieldEvidence := mkEvidence {
  ev_kind : string; ev_strength : string; ev_observed_at : string; ev_source_version : string; ev_ref : string;
}.
Record SessionAttributionFact := mkFact {
  fact_field : string;
  fact_value : string;
  display_label : option string;
  display_label_source : option string;
  evidence : SessionFieldEvidence;
}.
Record SessionArtifact := mkArtifact { artifact_kind : string; artifact_value : string }.
Record SnapshotOrigin := mkOrigin { agent_role : option string; origin_others : Others }.
Record SnapshotOpeningFile := mkOpeningFile {
  of_repo_path : option string;
  of_path_hash : option string;
  of_ext : option string;
  of_others : Others;
}.
Record OpeningFileCandidate := mkCandidate {
  cand_row : SnapshotOpeningFile;
  cand_repo_path : option string;
  cand_path_hash : option string;
  cand_ext : option string;
}.
Record SnapshotSessionStart := mkStart {
  opening_request_count : option Z;
  opening_files : list SnapshotOpeningFile;
  opening_file_overflow : option Z;
  start_config_fingerprint : option string;
  file_candidates : list OpeningFileCandidate;
  files_over_guard : Z;
  policy_applied : bool;
  opening_files_unknown : bool;
  start_others : Others;
}.
Record SnapshotItem := mkSnapshotItem {
  snapshot_fingerprint_of : string;
  session_display_name : option string;
  session_display_name_source : option string;
  workspace_display_label : option string;
  workspace_label_source : option string;
  repository_label : option string;
  repository_label_source : option string;
  session_artifacts : list SessionArtifact;
  attribution_facts : list SessionAttributionFact;
  activity_summary : option SnapshotActivitySummary;
  tool_usage : option (list SnapshotActivityCount);
  origin : option SnapshotOrigin;
  session_start : option SnapshotSessionStart;
  item_others : Others;
}.

Definition is_some {A} (x : option A) : bool := if x is Some _ then true else false.
Definition nonempty {A} (l : list A) : bool := match l with [] => false | _ => true end.

(** ** Rules of a body *)
Definition strip_display_labels (facts : list SessionAttributionFact) : list SessionAttributionFact * bool :=
  ((fun fact => fact{{display_label := None; display_label_source := None}}) <$> facts,
   existsb (fun fact => is_some (display_label fact) || is_some (display_label_source fact)) facts).

(** [SnapshotSessionStart::apply_upload_policy]: picks each opening file's
    identity, or counts it as withheld. *)
Definition file_allowed (labels attribution : bool) (row : SnapshotOpeningFile) : bool :=
  (labels && is_some (of_repo_path row)) || (attribution && is_some (of_path_hash row)).
Definition pick_identity (labels attribution : bool) (c : OpeningFileCandidate) : option SnapshotOpeningFile :=
  if labels && is_some (cand_repo_path c) then Some ((cand_row c){{of_repo_path := cand_repo_path c}})
  else if attribution && is_some (cand_path_hash c) then
    Some ((cand_row c){{of_path_hash := cand_path_hash c; of_ext := cand_ext c}})
  else None.
Definition apply_start_policy (labels attribution : bool) (start : SnapshotSessionStart) : SnapshotSessionStart :=
  if negb (is_some (opening_request_count start)) || opening_files_unknown start then start else
  let withheld := if policy_applied start then default 0 (opening_file_overflow start) else files_over_guard start in
  let kept := filter (fun row => file_allowed labels attribution row = true) (opening_files start) in
  let withheld := wrap_u 64 (withheld + Z.of_nat (length (opening_files start) - length kept)) in
  if policy_applied start then start{{opening_files := kept; opening_file_overflow := Some withheld}}
  else
    let picked := omap (pick_identity labels attribution) (file_candidates start) in
    let withheld := wrap_u 64 (withheld + Z.of_nat (length (file_candidates start) - length picked)) in
    start{{policy_applied := true; file_candidates := nil; opening_files := (kept ++ picked);
           opening_file_overflow := Some withheld}}.

Definition clear_titles (p : SnapshotUploadPolicy) (item : SnapshotItem) : SnapshotItem * bool :=
  if negb (titles p) && (is_some (session_display_name item) || is_some (session_display_name_source item)) then
    (item{{session_display_name := None; session_display_name_source := None}}, true)
  else (item, false).
Definition clear_labels (p : SnapshotUploadPolicy) (item : SnapshotItem) : SnapshotItem * bool :=
  if negb (workspace p)
     && (is_some (workspace_display_label item) || is_some (workspace_label_source item)
         || is_some (repository_label item) || is_some (repository_label_source item)) then
    (item{{workspace_display_label := None; workspace_label_source := None; repository_label := None;
           repository_label_source := None}}, true)
  else (item, false).
Definition clear_links (p : SnapshotUploadPolicy) (item : SnapshotItem) : SnapshotItem * bool :=
  if negb (links p) && nonempty (session_artifacts item) then (item{{session_artifacts := nil}}, true)
  else (item, false).
Definition clear_facts (p : SnapshotUploadPolicy) (item : SnapshotItem) : SnapshotItem * bool :=
  if negb (session_attribution_enabled p) && nonempty (attribution_facts item) then
    (item{{attribution_facts := nil}}, true)
  else if negb (private_labels p) then
    let '(facts, changed) := strip_display_labels (attribution_facts item) in
    (item{{attribution_facts := facts}}, changed)
  else (item, false).
Definition clear_skills (p : SnapshotUploadPolicy) (item : SnapshotItem) : SnapshotItem * bool :=
  match activity_summary item with
  | Some summary =>
      if negb (private_labels p) && nonempty (skills summary) then
        (item{{activity_summary := Some (summary{{skills := nil}})}}, true)
      else (item, false)
  | None => (item, false)
  end.
Definition start_policy (p : SnapshotUploadPolicy) (item : SnapshotItem) : SnapshotItem :=
  item{{session_start ::= fmap (apply_start_policy (workspace p) (session_attribution_enabled p))}}.
(** One rule after another; whether any of them changed the body. *)
Definition then_rule (rule : SnapshotItem -> SnapshotItem * bool) (so_far : SnapshotItem * bool) : SnapshotItem * bool :=
  let '(item, changed) := so_far in let '(item, now) := rule item in (item, changed || now).
Definition apply_released_rules (p : SnapshotUploadPolicy) (item : SnapshotItem) : SnapshotItem * bool :=
  let '(item, changed) :=
    then_rule (clear_skills p) (then_rule (clear_facts p) (then_rule (clear_links p)
      (then_rule (clear_labels p) (clear_titles p item)))) in
  (start_policy p item, changed).

(** *** Hiding names *)
Definition is_mcp_tool_name (name : string) : bool := contains (as_bytes "mcp__") (as_bytes name).
Definition count_order (left right : SnapshotActivityCount) : comparison :=
  match rcmp (ac_count right) (ac_count left) with Eq => rcmp (ac_name left) (ac_name right) | c => c end.
Definition merge_mcp_rows (is_mcp : string -> bool) (rows : list SnapshotActivityCount)
    : list SnapshotActivityCount * bool :=
  if negb (existsb (fun row => is_mcp (ac_name row) && negb (bool_decide (ac_name row = HIDDEN_MCP_NAME))) rows) then
    (rows, false)
  else
    let total := foldl (fun total row => if is_mcp (ac_name row) then saturating_add 64 total (ac_count row) else total)
                   0 rows in
    let kept := filter (fun row => is_mcp (ac_name row) = false) rows in
    (sort_by count_order (kept ++ [mkCount HIDDEN_MCP_NAME total]), true).
Definition hide_summary (summary : SnapshotActivitySummary) : SnapshotActivitySummary * bool :=
  let '(mcp, changed1) := merge_mcp_rows (fun _ => true) (mcp_tool_counts summary) in
  let '(tools, changed2) := merge_mcp_rows is_mcp_tool_name (tool_counts summary) in
  (summary{{mcp_tool_counts := mcp; tool_counts := tools}}, changed1 || changed2).
Definition hide_kind (fact : SessionAttributionFact) : SessionAttributionFact * bool :=
  if bool_decide (fact_field fact = "agent_kind"%string)
     && negb (bool_decide (fact_value fact ∈ PROVIDER_AGENT_KINDS)) then
    (fact{{fact_value := CUSTOM}}, negb (bool_decide (fact_value fact = CUSTOM)))
  else (fact, false).
Definition hide_facts (facts : list SessionAttributionFact) : list SessionAttributionFact * bool :=
  let kept := filter (fun fact => fact_field fact <> "skill_id"%string) facts in
  ((fun fact => (hide_kind fact).1) <$> kept,
   negb (length kept =? length facts)%nat || existsb (fun fact => (hide_kind fact).2) kept).
Definition hide_role (origin : SnapshotOrigin) : SnapshotOrigin * bool :=
  match agent_role origin with
  | Some role =>
      if bool_decide (role ∈ PROVIDER_AGENT_ROLES) then (origin, false)
      else (origin{{agent_role := Some CUSTOM}}, negb (bool_decide (role = CUSTOM)))
  | None => (origin, false)
  end.
(** The change of an optional part. *)
Definition within {A} (f : A -> A * bool) (part : option A) : option A * bool :=
  match part with Some a => let '(a, changed) := f a in (Some a, changed) | None => (None, false) end.
Definition hide_names (item : SnapshotItem) : SnapshotItem * bool :=
  let '(summary, changed1) := within hide_summary (activity_summary item) in
  let '(usage, changed2) := within (merge_mcp_rows is_mcp_tool_name) (tool_usage item) in
  let '(facts, changed3) := hide_facts (attribution_facts item) in
  let '(from, changed4) := within hide_role (origin item) in
  (item{{activity_summary := summary; tool_usage := usage; attribution_facts := facts; origin := from;
         session_start ::= fmap (fun start => start{{start_config_fingerprint := None}})}},
   changed1 || changed2 || changed3 || changed4).

(** *** Whole bodies *)
Definition link_fits (link : SessionArtifact) : bool :=
  bool_decide (length (chars (artifact_value link)) <= MAX_SESSION_ARTIFACT_VALUE_CHARS)%nat.
Definition drop_long_links (item : SnapshotItem) : SnapshotItem * bool :=
  let kept := filter (fun link => link_fits link = true) (session_artifacts item) in
  (item{{session_artifacts := kept}}, negb (length kept =? length (session_artifacts item))%nat).

Section Upload.
Context {SnapshotSource : Type} (snapshot_fingerprint : SnapshotSource -> SnapshotItem -> string).

Definition refresh (source : SnapshotSource) (filtered : SnapshotItem * bool) : SnapshotItem :=
  let '(item, changed) := filtered in
  if changed then item{{snapshot_fingerprint_of := snapshot_fingerprint source item}} else item.
Definition filter_item (p : SnapshotUploadPolicy) (item : SnapshotItem) : SnapshotItem * bool :=
  let filtered := then_rule drop_long_links (apply_released_rules p item) in
  if names p then filtered else then_rule hide_names filtered.
Definition upload_item (source : SnapshotSource) (p : SnapshotUploadPolicy) (item : SnapshotItem) : SnapshotItem :=
  refresh source (filter_item p item).
(** The bodies to send. *)
Definition apply_upload_policy (source : SnapshotSource) (p : SnapshotUploadPolicy) (snapshots : list SnapshotItem)
    : list SnapshotItem := upload_item source p <$> snapshots.
Definition apply_upload_policy_v1 (source : SnapshotSource) (p : SnapshotUploadPolicy) (snapshots : list SnapshotItem)
    : list SnapshotItem := (fun item => refresh source (apply_released_rules p item)) <$> snapshots.
End Upload.

(** ** Footprints *)
Record ContextFootprintItemInput := mkFootprintItem {
  fp_name : string; fp_tokens : Z; fp_source : option string; fp_others : Others;
}.
Record ContextFootprintMcpToolInput := mkMcpTool { tool_name : string; tool_server : string; tool_tokens : Z }.
Record ItemsWithheld := mkItemsWithheld { iw_count : Z; iw_tokens : Z }.
Record MemoryWithheld := mkMemoryWithheld { mw_count : Z; mw_tokens : Z; auto_memory_count : Z }.
Record McpWithheld := mkMcpWithheld { mcp_servers : Z; mcp_tool_count : Z; mcp_tokens : Z }.
Record NamesWithheld := mkNamesWithheld {
  nw_skills : ItemsWithheld; nw_custom_agents : ItemsWithheld; nw_memory_files : MemoryWithheld; nw_mcp : McpWithheld;
}.
Record ContextFootprintIngestRequest := mkFootprint {
  config_hash : string;
  counter_source : string;
  categories : Others;
  memory_files : list ContextFootprintItemInput;
  fp_skills : list ContextFootprintItemInput;
  custom_agents : list ContextFootprintItemInput;
  mcp_tools : list ContextFootprintMcpToolInput;
  names_withheld : option NamesWithheld;
  footprint_others : Others;
}.
Record FootprintRules := mkRules { rules_policy : SnapshotUploadPolicy; rules_names_withheld : bool }.

(** [.sum()] of [u64]s. *)
Definition sum_wrapping (l : list Z) : Z := foldl (fun a b => wrap_u 64 (a + b)) 0 l.
Definition len {A} (l : list A) : Z := Z.of_nat (length l).
Definition items_withheld (rows : list ContextFootprintItemInput) : ItemsWithheld :=
  mkItemsWithheld (len rows) (sum_wrapping (fp_tokens <$> rows)).
Definition is_auto_memory (row : ContextFootprintItemInput) : bool :=
  match fp_source row with
  | Some source => bool_decide (to_ascii_lowercase (as_bytes source) = to_ascii_lowercase (as_bytes "AutoMem"))
  | None => false
  end.
Definition NamesWithheld_of (request : ContextFootprintIngestRequest) : NamesWithheld :=
  let memory := items_withheld (memory_files request) in
  mkNamesWithheld (items_withheld (fp_skills request)) (items_withheld (custom_agents request))
    (mkMemoryWithheld (iw_count memory) (iw_tokens memory)
       (len (filter (fun row => is_auto_memory row = true) (memory_files request))))
    (mkMcpWithheld (Z.of_nat (size (list_to_set (tool_server <$> mcp_tools request) : gset string)))
       (len (mcp_tools request)) (sum_wrapping (tool_tokens <$> mcp_tools request))).

(** The policy files by name, those that can be read. *)
Abbreviation PolicyFiles := (gmap string SnapshotUploadPolicy).

Section Footprints.
Context (sha256_hex : list string -> string) (categories_json : Others -> string)
        (withheld_json : option NamesWithheld -> string).
Definition filter_footprint (rules : FootprintRules) (request : ContextFootprintIngestRequest)
    : ContextFootprintIngestRequest :=
  if names (rules_policy rules) then request else
  let withheld := if rules_names_withheld rules then Some (NamesWithheld_of request) else names_withheld request in
  request{{names_withheld := withheld; memory_files := nil; fp_skills := nil; custom_agents := nil; mcp_tools := nil;
           config_hash := (sha256_hex [counter_source request; categories_json (categories request);
                                       withheld_json withheld])}}.

(** ** The remembered policy *)
(** [written] says whether the write went through. *)
Definition remembered_policy (files : PolicyFiles) (destination : string) (hint : option ActivityHintResponse)
    (written : bool) : SnapshotUploadPolicy * PolicyFiles :=
  let path := sha256_hex [destination] in
  match hint with
  | None => (default MOST_PRIVATE (files !! path), files)
  | Some hint =>
      let policy := from_hint hint in
      (policy, if bool_decide (files !! path = Some policy) then files
               else if written then <[path := policy]> files else files)
  end.
Definition for_pass (files : PolicyFiles) (destination : string) (hint : option ActivityHintResponse) (written : bool)
    : FootprintRules * PolicyFiles :=
  let '(policy, files) := remembered_policy files destination hint written in
  (mkRules policy (names_withheld_accepted hint), files).
End Footprints.
