(* ===== verification/UploadPolicyLaws.v ===== *)
(** What an upload body can still carry after the privacy rules, and what they
    leave alone. *)
From stdpp Require Import gmap strings.
From S2P Require Import Prelude.
From S2P Require Import Text.
From S2P Require Import Std.
From S2P Require Import UploadPolicy.
From coqutil Require Import Datatypes.RecordSetters.
Import DoubleBraceUpdate.
Local Open Scope Z_scope.

(** ** The rules as one function *)
Definition only {A} (b : bool) (x : option A) : option A := if b then x else None.
Definition only_list {A} (b : bool) (l : list A) : list A := if b then l else [].
Definition sent_facts (p : SnapshotUploadPolicy) (facts : list SessionAttributionFact) : list SessionAttributionFact :=
  let facts := if session_attribution_enabled p then (if private_labels p then facts else (strip_display_labels facts).1)
               else [] in
  if names p then facts else (hide_facts facts).1.
Definition sent_summary (p : SnapshotUploadPolicy) (summary : SnapshotActivitySummary) : SnapshotActivitySummary :=
  let summary := summary{{skills ::= only_list (private_labels p)}} in
  if names p then summary else (hide_summary summary).1.
Definition sent_start (p : SnapshotUploadPolicy) (start : SnapshotSessionStart) : SnapshotSessionStart :=
  let start := apply_start_policy (workspace p) (session_attribution_enabled p) start in
  if names p then start else start{{start_config_fingerprint := None}}.
Definition sent (p : SnapshotUploadPolicy) (item : SnapshotItem) : SnapshotItem :=
  item{{
    session_display_name ::= only (titles p); session_display_name_source ::= only (titles p);
    workspace_display_label ::= only (workspace p); workspace_label_source ::= only (workspace p);
    repository_label ::= only (workspace p); repository_label_source ::= only (workspace p);
    session_artifacts ::= (fun l => filter (fun link => link_fits link = true) (only_list (links p) l));
    attribution_facts ::= sent_facts p;
    activity_summary ::= fmap (sent_summary p);
    tool_usage ::= (fun rows => if names p then rows else (fun r => (merge_mcp_rows is_mcp_tool_name r).1) <$> rows);
    origin ::= (fun o => if names p then o else (fun r => (hide_role r).1) <$> o);
    session_start ::= fmap (sent_start p)}}.

Lemma clear_titles_sent p item :
  (clear_titles p item).1 = item{{session_display_name ::= only (titles p); session_display_name_source ::= only (titles p)}}.
Proof. unfold clear_titles. destruct item as [? [] [] ? ? ? ? ? ? ? ? ? ? ?]; cbn; by destruct (titles p). Qed.
Lemma clear_labels_sent p item :
  (clear_labels p item).1 = item{{workspace_display_label ::= only (workspace p); workspace_label_source ::= only (workspace p);
    repository_label ::= only (workspace p); repository_label_source ::= only (workspace p)}}.
Proof. unfold clear_labels. destruct item as [? ? ? [] [] [] [] ? ? ? ? ? ? ?]; cbn; by destruct (workspace p). Qed.
Lemma clear_links_sent p item : (clear_links p item).1 = item{{session_artifacts ::= only_list (links p)}}.
Proof. unfold clear_links. destruct item as [? ? ? ? ? ? ? [] ? ? ? ? ? ?]; cbn; by destruct (links p). Qed.
Lemma clear_facts_sent p item : (clear_facts p item).1
  = item{{attribution_facts ::= (fun facts => if session_attribution_enabled p then
      (if private_labels p then facts else (strip_display_labels facts).1) else nil)}}.
Proof.
  unfold clear_facts. destruct item as [? ? ? ? ? ? ? ? [] ? ? ? ? ?]; cbn; unfold private_labels;
    by destruct (session_attribution_enabled p); cbn; [destruct (_ && _)|].
Qed.
Lemma clear_skills_sent p item : (clear_skills p item).1
  = item{{activity_summary ::= fmap (fun s => s{{skills ::= only_list (private_labels p)}})}}.
Proof.
  unfold clear_skills. destruct item as [? ? ? ? ? ? ? ? ? [[? ? [] ?]|] ? ? ? ?]; cbn; by destruct (private_labels p).
Qed.
Lemma then_rule_sent rule x : (then_rule rule x).1 = (rule x.1).1.
Proof. destruct x as [item changed]. cbn. by destruct (rule item). Qed.
Lemma within_fst {A} (f : A -> A * bool) part : (within f part).1 = (fun a => (f a).1) <$> part.
Proof. destruct part as [a|]; [|done]. cbn. by destruct (f a). Qed.
Lemma hide_names_sent item : (hide_names item).1 = item{{
    activity_summary ::= fmap (fun s => (hide_summary s).1);
    tool_usage ::= fmap (fun r => (merge_mcp_rows is_mcp_tool_name r).1);
    attribution_facts ::= (fun facts => (hide_facts facts).1);
    origin ::= fmap (fun r => (hide_role r).1);
    session_start ::= fmap (fun start => start{{start_config_fingerprint := None}})}}.
Proof.
  pose proof (within_fst hide_summary (activity_summary item)) as E1.
  pose proof (within_fst (merge_mcp_rows is_mcp_tool_name) (tool_usage item)) as E2.
  pose proof (within_fst hide_role (origin item)) as E4.
  unfold hide_names. destruct (within hide_summary _) as [s c1], (within (merge_mcp_rows _) _) as [u c2],
    (hide_facts (attribution_facts item)) as [facts c3] eqn:E3, (within hide_role _) as [o c4].
  apply (f_equal fst) in E3. cbn [fst] in *. subst s u o facts. by destruct item.
Qed.
Lemma filter_item_sent p item : (filter_item p item).1 = sent p item.
Proof.
  unfold filter_item, sent, apply_released_rules.
  pose proof (then_rule_sent (clear_skills p) (then_rule (clear_facts p) (then_rule (clear_links p)
      (then_rule (clear_labels p) (clear_titles p item))))) as E.
  destruct (then_rule (clear_skills p) _) as [cleared changed]. cbn [fst] in E.
  rewrite !then_rule_sent, clear_titles_sent, clear_labels_sent, clear_links_sent, clear_facts_sent, clear_skills_sent in E.
  subst cleared. destruct (names p) eqn:En; rewrite ?then_rule_sent, ?hide_names_sent; cbn [fst snd then_rule drop_long_links];
    destruct item as [? ? ? ? ? ? ? links facts summary usage origin start ?]; cbn;
    unfold sent_facts, sent_summary, sent_start; rewrite En; f_equal.
  all: try by destruct summary. all: try by destruct start.
Qed.

(** ** What a body may carry under a policy *)
(** As the code's rules have it: [names] governs MCP rows, agent kinds and
    roles, [skill_id] facts and the configuration fingerprint; display labels
    and the skill names of the summary follow [private_labels] alone. *)
Definition unlabelled (fact : SessionAttributionFact) : Prop := display_label fact = None /\ display_label_source fact = None.
Definition anonymous_fact (fact : SessionAttributionFact) : Prop :=
  fact_field fact <> "skill_id"%string /\
  (fact_field fact = "agent_kind"%string -> fact_value fact ∈ PROVIDER_AGENT_KINDS \/ fact_value fact = CUSTOM).
Definition mcp_hidden (rows : list SnapshotActivityCount) : Prop :=
  Forall (fun row => is_mcp_tool_name (ac_name row) = true -> ac_name row = HIDDEN_MCP_NAME) rows.
Definition file_conforms (p : SnapshotUploadPolicy) (row : SnapshotOpeningFile) : Prop :=
  (is_Some (of_repo_path row) -> workspace p = true) /\ (is_Some (of_path_hash row) -> session_attribution_enabled p = true).
Definition labels_conform (p : SnapshotUploadPolicy) (item : SnapshotItem) : Prop :=
  (titles p = false -> session_display_name item = None /\ session_display_name_source item = None) /\
  (workspace p = false -> workspace_display_label item = None /\ workspace_label_source item = None /\
     repository_label item = None /\ repository_label_source item = None) /\
  (links p = false -> session_artifacts item = []) /\
  Forall (fun link => (length (chars (artifact_value link)) <= MAX_SESSION_ARTIFACT_VALUE_CHARS)%nat) (session_artifacts item).
Definition facts_conform (p : SnapshotUploadPolicy) (item : SnapshotItem) : Prop :=
  (session_attribution_enabled p = false -> attribution_facts item = []) /\
  (private_labels p = false -> Forall unlabelled (attribution_facts item)) /\
  (names p = false -> Forall anonymous_fact (attribution_facts item)).
Definition summary_conforms (p : SnapshotUploadPolicy) (s : SnapshotActivitySummary) : Prop :=
  (private_labels p = false -> skills s = []) /\
  (names p = false -> Forall (fun row => ac_name row = HIDDEN_MCP_NAME) (mcp_tool_counts s) /\ mcp_hidden (tool_counts s)).
Definition unmeasured (start : SnapshotSessionStart) : bool :=
  negb (is_some (opening_request_count start)) || opening_files_unknown start.
(** Nothing is left to release: no later policy can add an entry. *)
Definition settled (start : SnapshotSessionStart) : Prop := policy_applied start = true \/ unmeasured start = true.
Definition start_conforms (p : SnapshotUploadPolicy) (start : SnapshotSessionStart) : Prop :=
  Forall (file_conforms p) (opening_files start) /\ (names p = false -> start_config_fingerprint start = None) /\
  settled start.
Definition role_conforms (p : SnapshotUploadPolicy) (o : SnapshotOrigin) : Prop :=
  names p = false -> forall role, agent_role o = Some role -> role ∈ PROVIDER_AGENT_ROLES \/ role = CUSTOM.
Definition conforms (p : SnapshotUploadPolicy) (item : SnapshotItem) : Prop :=
  labels_conform p item /\ facts_conform p item /\
  (forall s, activity_summary item = Some s -> summary_conforms p s) /\
  (forall rows, tool_usage item = Some rows -> names p = false -> mcp_hidden rows) /\
  (forall o, origin item = Some o -> role_conforms p o) /\
  (forall start, session_start item = Some start -> start_conforms p start).

(** A session start as it is built: an entry carries at most one identity, a
    candidate none yet, and an unmeasured opening has no entries. *)
Definition start_ok (start : SnapshotSessionStart) : Prop :=
  Forall (fun row => of_repo_path row = None \/ of_path_hash row = None) (opening_files start) /\
  Forall (fun c => of_repo_path (cand_row c) = None /\ of_path_hash (cand_row c) = None) (file_candidates start) /\
  (opening_request_count start = None \/ opening_files_unknown start = true -> opening_files start = []).
Definition body_ok (item : SnapshotItem) : Prop := forall start, session_start item = Some start -> start_ok start.

(** *** Hidden MCP names *)
Lemma hidden_is_mcp : is_mcp_tool_name HIDDEN_MCP_NAME = true.
Proof. by vm_compute. Qed.
Lemma merge_unchanged is_mcp rows : (merge_mcp_rows is_mcp rows).2 = false ->
  (merge_mcp_rows is_mcp rows).1 = rows /\
  Forall (fun row => is_mcp (ac_name row) = true -> ac_name row = HIDDEN_MCP_NAME) rows.
Proof.
  unfold merge_mcp_rows. destruct (existsb _ rows) eqn:E; [done|]. intros _. split; [done|].
  apply Forall_forall. intros row Hrow Hm. destruct (decide (ac_name row = HIDDEN_MCP_NAME)) as [|Hn]; [done|].
  assert (existsb (fun row => is_mcp (ac_name row) && negb (bool_decide (ac_name row = HIDDEN_MCP_NAME))) rows = true) as Ht; [|congruence].
  apply existsb_exists. exists row. split; [by apply list_elem_of_In|]. by rewrite Hm, bool_decide_false.
Qed.
Definition merged_total (is_mcp : string -> bool) (rows : list SnapshotActivityCount) : Z :=
  foldl (fun total row => if is_mcp (ac_name row) then saturating_add 64 total (ac_count row) else total) 0 rows.
Lemma merge_changed is_mcp rows : (merge_mcp_rows is_mcp rows).2 = true ->
  (merge_mcp_rows is_mcp rows).1
    ≡ₚ filter (fun row => is_mcp (ac_name row) = false) rows ++ [mkCount HIDDEN_MCP_NAME (merged_total is_mcp rows)].
Proof. unfold merge_mcp_rows. destruct (existsb _ rows); [|done]. intros _. apply sort_by_perm. Qed.
Lemma merge_hidden is_mcp rows :
  Forall (fun row => is_mcp (ac_name row) = true -> ac_name row = HIDDEN_MCP_NAME) (merge_mcp_rows is_mcp rows).1.
Proof.
  destruct (merge_mcp_rows is_mcp rows).2 eqn:E.
  - rewrite merge_changed by done. apply Forall_app. split; [|by repeat constructor].
    apply Forall_forall. intros row [Hf _]%list_elem_of_filter. congruence.
  - by destruct (merge_unchanged _ _ E) as [-> ?].
Qed.
(** Rows that are hidden already are left alone. *)
Lemma merge_hidden_same is_mcp rows :
  Forall (fun row => is_mcp (ac_name row) = true -> ac_name row = HIDDEN_MCP_NAME) rows -> merge_mcp_rows is_mcp rows = (rows, false).
Proof.
  intros H. unfold merge_mcp_rows. destruct (existsb _ rows) eqn:E; [|done]. exfalso.
  apply existsb_exists in E as (row & Hin & [Hm Hn]%andb_prop). rewrite Forall_forall in H.
  apply list_elem_of_In, H in Hin; [|done]. by rewrite Hin, bool_decide_true in Hn.
Qed.
Lemma merge_subset is_mcp rows (P : SnapshotActivityCount -> Prop) :
  (forall n, P (mkCount HIDDEN_MCP_NAME n)) -> Forall P rows -> Forall P (merge_mcp_rows is_mcp rows).1.
Proof.
  intros Hh Hp. destruct (merge_mcp_rows is_mcp rows).2 eqn:E.
  - rewrite merge_changed by done. apply Forall_app. split; [by apply Forall_filter|by repeat constructor].
  - by destruct (merge_unchanged _ _ E) as [-> _].
Qed.

(** *** Facts *)
Lemma strip_unlabelled facts : Forall unlabelled (strip_display_labels facts).1.
Proof. apply Forall_fmap, Forall_true. by intros. Qed.
Lemma strip_anonymous facts : Forall anonymous_fact facts -> Forall anonymous_fact (strip_display_labels facts).1.
Proof. intros H. apply Forall_fmap. eapply Forall_impl; [exact H|]. by intros []. Qed.
Lemma hide_kind_anonymous fact : fact_field fact <> "skill_id"%string -> anonymous_fact (hide_kind fact).1.
Proof.
  intros Hf. unfold hide_kind. destruct (bool_decide (fact_field fact = _)) eqn:E1; cbn [andb].
  - destruct (bool_decide (fact_value fact ∈ _)) eqn:E2; cbn.
    + split; [done|]. intros _. left. by apply bool_decide_eq_true in E2.
    + split; [by destruct fact|]. intros _. by right.
  - split; [done|]. apply bool_decide_eq_false in E1. done.
Qed.
Lemma hide_kind_unlabelled fact : unlabelled fact -> unlabelled (hide_kind fact).1.
Proof. unfold hide_kind. destruct (_ && _); [by destruct fact|done]. Qed.
Lemma hide_facts_anonymous facts : Forall anonymous_fact (hide_facts facts).1.
Proof.
  apply Forall_fmap, Forall_forall. intros fact [Hf _]%list_elem_of_filter. by apply hide_kind_anonymous.
Qed.
Lemma hide_facts_unlabelled facts : Forall unlabelled facts -> Forall unlabelled (hide_facts facts).1.
Proof.
  intros H. apply Forall_fmap. eapply Forall_impl; [by apply Forall_filter|]. by intros fact Hf; apply hide_kind_unlabelled.
Qed.
Lemma hide_facts_nil facts : facts = [] -> (hide_facts facts).1 = [].
Proof. by intros ->. Qed.
Lemma facts_sent p item : facts_conform p (sent p item).
Proof.
  unfold facts_conform, sent. destruct item as [? ? ? ? ? ? ? ? facts ? ? ? ? ?]; cbn [attribution_facts]; cbn.
  unfold sent_facts. split_and!; intros H; rewrite ?H.
  - by destruct (names p).
  - destruct (session_attribution_enabled p), (names p); try apply hide_facts_unlabelled; try apply strip_unlabelled;
      constructor.
  - apply hide_facts_anonymous.
Qed.
Lemma facts_kept p q item : facts_conform q item -> facts_conform q (sent p item).
Proof.
  unfold facts_conform, sent. destruct item as [? ? ? ? ? ? ? ? facts ? ? ? ? ?]; cbn. unfold sent_facts.
  intros (H1 & H2 & H3). split_and!; intros H.
  - rewrite H1 by done. by destruct (session_attribution_enabled p), (private_labels p), (names p).
  - specialize (H2 H). destruct (session_attribution_enabled p), (private_labels p), (names p);
      try apply hide_facts_unlabelled; auto using strip_unlabelled; constructor.
  - specialize (H3 H). destruct (names p); [|apply hide_facts_anonymous].
    destruct (session_attribution_enabled p), (private_labels p); auto using strip_anonymous; constructor.
Qed.

(** *** The other parts *)
Lemma labels_sent p item : labels_conform p (sent p item).
Proof.
  unfold labels_conform, sent. destruct item; cbn. split_and!; [by intros ->..| |].
  - by intros ->.
  - apply Forall_forall. intros link [Hl _]%list_elem_of_filter. by apply bool_decide_eq_true in Hl.
Qed.
Lemma labels_kept p q item : labels_conform q item -> labels_conform q (sent p item).
Proof.
  unfold labels_conform, sent. destruct item as [? n s wl ws rl rs ls ? ? ? ? ? ?]; cbn. intros (H1 & H2 & H3 & H4). split_and!.
  - intros H. destruct (H1 H) as [-> ->]. by destruct (titles p).
  - intros H. destruct (H2 H) as (-> & -> & -> & ->). by destruct (workspace p).
  - intros H. rewrite H3 by done. by destruct (links p).
  - apply Forall_filter. destruct (links p); [done|constructor].
Qed.
Lemma merge_all_hidden rows :
  Forall (fun row => ac_name row = HIDDEN_MCP_NAME) rows -> merge_mcp_rows (fun _ => true) rows = (rows, false).
Proof. intros H. apply merge_hidden_same. eapply Forall_impl; [exact H|]. done. Qed.
Lemma hide_summary_fields s : (hide_summary s).1
  = s{{mcp_tool_counts ::= (fun r => (merge_mcp_rows (fun _ => true) r).1);
       tool_counts ::= (fun r => (merge_mcp_rows is_mcp_tool_name r).1)}}.
Proof.
  unfold hide_summary. destruct (merge_mcp_rows (fun _ => true) _) as [m c1] eqn:E1,
    (merge_mcp_rows is_mcp_tool_name (tool_counts s)) as [t c2] eqn:E2.
  apply (f_equal fst) in E1, E2. cbn [fst] in *. subst m t. by destruct s.
Qed.
Lemma summary_sent p s : summary_conforms p (sent_summary p s).
Proof.
  unfold summary_conforms, sent_summary. destruct (names p); rewrite ?hide_summary_fields; destruct s as [m t k o]; cbn;
    (split; [by intros ->|]); [done|]. intros _. split; [|apply merge_hidden].
  eapply Forall_impl; [apply merge_hidden|]. cbn. auto.
Qed.
Lemma summary_kept p q s : summary_conforms q s -> summary_conforms q (sent_summary p s).
Proof.
  unfold summary_conforms, sent_summary. intros [H1 H2].
  destruct (names p); rewrite ?hide_summary_fields; destruct s as [m t k o]; cbn in *;
    (split; [intros H; rewrite H1 by done; by destruct (private_labels p)|]); [done|].
  intros H. destruct (H2 H) as [Hm Ht]. split; [by apply merge_subset|]. by apply merge_subset.
Qed.
Lemma role_sent p o : role_conforms p (if names p then o else (hide_role o).1).
Proof.
  unfold role_conforms. intros ->. unfold hide_role. destruct (agent_role o) as [role|] eqn:E; [|cbn; by rewrite E].
  case_bool_decide; cbn; [rewrite E|destruct o; cbn]; intros r [= <-]; auto.
Qed.
Lemma role_kept p q o : role_conforms q o -> role_conforms q (if names p then o else (hide_role o).1).
Proof.
  unfold role_conforms. intros H Hq. destruct (names p); [by apply H|]. unfold hide_role.
  destruct (agent_role o) as [role|] eqn:E; [|cbn; by rewrite E].
  case_bool_decide; cbn; [rewrite E|destruct o; cbn]; intros r [= <-]; auto.
Qed.

(** *** Opening files *)
Definition one_identity (row : SnapshotOpeningFile) : Prop := of_repo_path row = None \/ of_path_hash row = None.
Lemma unmeasured_empty start : start_ok start -> unmeasured start = true -> opening_files start = [].
Proof.
  intros (_ & _ & H) [Hu|Hu]%orb_true_iff; apply H; [left|by right].
  by destruct (opening_request_count start).
Qed.
Lemma start_files labels attribution start :
  opening_files (apply_start_policy labels attribution start) =
  if unmeasured start then opening_files start
  else filter (fun row => file_allowed labels attribution row = true) (opening_files start)
       ++ (if policy_applied start then [] else omap (pick_identity labels attribution) (file_candidates start)).
Proof.
  unfold apply_start_policy, unmeasured. destruct (_ || _); [done|]. destruct (policy_applied start); destruct start; cbn;
    [by rewrite app_nil_r|done].
Qed.
Lemma start_rest labels attribution start : let start' := apply_start_policy labels attribution start in
  start_config_fingerprint start' = start_config_fingerprint start /\ unmeasured start' = unmeasured start /\
  file_candidates start' = (if unmeasured start || policy_applied start then file_candidates start else []) /\
  policy_applied start' = (policy_applied start || negb (unmeasured start)).
Proof.
  unfold apply_start_policy. fold (unmeasured start). destruct (unmeasured start) eqn:Eu.
  - by rewrite Eu, orb_false_r.
  - unfold unmeasured in *. destruct start as [? ? ? ? ? ? [] ? ?]; cbn in *; by rewrite Eu.
Qed.
Lemma allowed_conforms p row : one_identity row ->
  file_allowed (workspace p) (session_attribution_enabled p) row = true -> file_conforms p row.
Proof.
  unfold one_identity, file_allowed, file_conforms. intros Hone. destruct (of_repo_path row), (of_path_hash row);
    cbn; rewrite ?andb_false_r, ?andb_true_r, ?orb_false_r; intros H; split; intros [? ?]; try done; destruct Hone; done.
Qed.
Lemma picked_conforms p c row : of_repo_path (cand_row c) = None /\ of_path_hash (cand_row c) = None ->
  pick_identity (workspace p) (session_attribution_enabled p) c = Some row -> file_conforms p row /\ one_identity row.
Proof.
  intros [Hr Hh]. unfold pick_identity. destruct (workspace p && _) eqn:E1; [|destruct (session_attribution_enabled p && _) eqn:E2; [|done]].
  - intros [= <-]. apply andb_prop in E1 as [Ew _]. destruct c as [[r h e o] ? ? ?]; cbn in *. subst.
    split; [split; [done|by intros []]|by right].
  - intros [= <-]. apply andb_prop in E2 as [Ea _]. destruct c as [[r h e o] ? ? ?]; cbn in *. subst.
    split; [split; [by intros []|done]|by left].
Qed.
Lemma picked_all p start : start_ok start ->
  Forall (fun row => file_conforms p row /\ one_identity row)
    (omap (pick_identity (workspace p) (session_attribution_enabled p)) (file_candidates start)).
Proof.
  intros (_ & Hc & _). apply Forall_forall. intros row (c & Hin & Hp)%list_elem_of_omap.
  rewrite Forall_forall in Hc. by eapply picked_conforms; [apply Hc|].
Qed.
Lemma sent_start_files p start : opening_files (sent_start p start)
  = opening_files (apply_start_policy (workspace p) (session_attribution_enabled p) start).
Proof. unfold sent_start. destruct (names p); [done|]. by destruct (apply_start_policy _ _ start). Qed.
Lemma sent_start_rest p start : file_candidates (sent_start p start)
    = (if unmeasured start || policy_applied start then file_candidates start else []) /\
  unmeasured (sent_start p start) = unmeasured start /\
  policy_applied (sent_start p start) = (policy_applied start || negb (unmeasured start)).
Proof.
  pose proof (start_rest (workspace p) (session_attribution_enabled p) start) as (_ & Hu & Hc & Ha).
  unfold sent_start, unmeasured in *. destruct (names p); [done|]. by destruct (apply_start_policy _ _ start).
Qed.
Lemma start_sent p start : start_ok start -> start_conforms p (sent_start p start).
Proof.
  intros Hok. split_and!.
  - rewrite sent_start_files, start_files. destruct (unmeasured start) eqn:Eu; [by rewrite unmeasured_empty|].
    apply Forall_app. split.
    + apply Forall_forall. intros row [Ha Hin]%list_elem_of_filter. apply allowed_conforms; [|done].
      destruct Hok as (Hone & _). rewrite Forall_forall in Hone. by apply Hone.
    + destruct (policy_applied start); [constructor|]. eapply Forall_impl; [by apply picked_all|]. by intros row [].
  - unfold sent_start. intros ->. by destruct (apply_start_policy _ _ start).
  - destruct (sent_start_rest p start) as (_ & Hu & Ha). unfold settled. rewrite Hu, Ha.
    destruct (unmeasured start); [by right|left; apply orb_true_r].
Qed.
Lemma sent_start_ok p start : start_ok start -> start_ok (sent_start p start).
Proof.
  intros Hok. destruct (sent_start_rest p start) as (Hcand & Hun & _). split_and!.
  - rewrite sent_start_files, start_files. destruct (unmeasured start); [apply Hok|]. apply Forall_app. split.
    + apply Forall_filter, Hok.
    + destruct (policy_applied start); [constructor|]. eapply Forall_impl; [by apply picked_all|]. by intros row [].
  - rewrite Hcand. destruct (_ || _); [apply Hok|constructor].
  - intros H. assert (unmeasured start = true) as Hm.
    { rewrite <-Hun. unfold unmeasured. destruct H as [->| ->]; [done|]. apply orb_true_r. }
    rewrite sent_start_files, start_files, Hm. by apply unmeasured_empty.
Qed.
Lemma start_kept p q start : start_ok start -> start_conforms q start -> start_conforms q (sent_start p start).
Proof.
  intros Hok (Hf & Hn & Hs). destruct (sent_start_rest p start) as (_ & Hu & Ha). split_and!.
  - rewrite sent_start_files, start_files. destruct (unmeasured start) eqn:Eu; [done|].
    destruct Hs as [->|]; [|congruence]. rewrite app_nil_r. by apply Forall_filter.
  - intros H. unfold sent_start. destruct (names p); [|by destruct (apply_start_policy _ _ start)].
    by rewrite (proj1 (start_rest _ _ _)), Hn.
  - unfold settled. rewrite Hu, Ha. destruct Hs as [->| ->]; [by left|by right].
Qed.

(** ** Every policy a body went through *)
Lemma sent_ok p item : body_ok item -> body_ok (sent p item).
Proof.
  unfold body_ok, sent. destruct item as [? ? ? ? ? ? ? ? ? ? ? ? start ?]; cbn. intros H start' Hs.
  apply fmap_Some in Hs as (start0 & -> & ->). by apply sent_start_ok, H.
Qed.
Lemma sent_conforms p item : body_ok item -> conforms p (sent p item).
Proof.
  intros Hok. split_and!; [apply labels_sent|apply facts_sent|..]; unfold body_ok, sent in *;
    destruct item as [? ? ? ? ? ? ? ? ? summary usage from start ?]; cbn in *.
  - intros s Hs. apply fmap_Some in Hs as (s0 & _ & ->). apply summary_sent.
  - intros rows Hr Hn. rewrite Hn in Hr. apply fmap_Some in Hr as (r0 & _ & ->). apply merge_hidden.
  - intros o Ho. destruct (names p) eqn:Hn; [by intros; congruence|]. apply fmap_Some in Ho as (o0 & _ & ->).
    pose proof (role_sent p o0) as H. by rewrite Hn in H.
  - intros s Hs. apply fmap_Some in Hs as (s0 & -> & ->). by apply start_sent, Hok.
Qed.
Lemma sent_keeps p q item : body_ok item -> conforms q item -> conforms q (sent p item).
Proof.
  intros Hok (Hl & Hf & Hs & Hu & Ho & Ht). split_and!; [by apply labels_kept|by apply facts_kept|..];
    unfold body_ok, sent in *; destruct item as [? ? ? ? ? ? ? ? ? summary usage from start ?]; cbn in *.
  - intros s Hs'. apply fmap_Some in Hs' as (s0 & E & ->). by apply summary_kept, Hs.
  - intros rows Hr Hn. destruct (names p); [by apply Hu|]. apply fmap_Some in Hr as (r0 & E & ->). apply merge_hidden.
  - intros o Ho'. pose proof (role_kept p q) as Hk. destruct (names p); [by apply Ho|].
    apply fmap_Some in Ho' as (o0 & E & ->). by apply Hk, Ho.
  - intros s Hs'. apply fmap_Some in Hs' as (s0 & E & ->). apply start_kept; [by apply Hok|by apply Ht].
Qed.
