(* ===== verification/UploadPolicyTheorems.v ===== *)
(** The contract of the upload rules: every policy a body went through holds of
    it, rules applied again change nothing, totals survive, fingerprints and
    remembered settings stay true. *)
From stdpp Require Import gmap strings.
From S2P Require Import Prelude.
From S2P Require Import Text.
From S2P Require Import Std.
From S2P Require Import UploadPolicy.
From S2P Require Import UploadPolicyLaws.
From coqutil Require Import Datatypes.RecordSetters.
Import DoubleBraceUpdate.
Local Open Scope Z_scope.

(** ** When nothing changes *)
Lemma filter_full {A} (P : A -> Prop) `{forall x, Decision (P x)} l :
  length (filter P l) = length l -> filter P l = l /\ Forall P l.
Proof.
  induction l as [|x l IH]; [by split; [|constructor]|]. rewrite filter_cons. cbn. pose proof (length_filter P l).
  case_decide; cbn; intros E; [|lia]. destruct IH as [-> ?]; [lia|]. split; [done|by constructor].
Qed.
Lemma then_rule_quiet rule x : (then_rule rule x).2 = false -> x.2 = false /\ (rule x.1).2 = false.
Proof. destruct x as [item changed]. cbn. destruct (rule item). cbn. apply orb_false_elim. Qed.
Lemma then_rule_flag rule x : x.2 = false -> (rule x.1).2 = false -> (then_rule rule x).2 = false.
Proof. destruct x as [item changed]. cbn. intros ->. by destruct (rule item). Qed.

Lemma clear_titles_quiet p item : (clear_titles p item).2 = false -> (clear_titles p item).1 = item.
Proof. unfold clear_titles. by destruct (_ && _). Qed.
Lemma clear_labels_quiet p item : (clear_labels p item).2 = false -> (clear_labels p item).1 = item.
Proof. unfold clear_labels. by destruct (_ && _). Qed.
Lemma clear_links_quiet p item : (clear_links p item).2 = false -> (clear_links p item).1 = item.
Proof. unfold clear_links. by destruct (_ && _). Qed.
Lemma strip_quiet facts : (strip_display_labels facts).2 = false -> (strip_display_labels facts).1 = facts.
Proof.
  cbn. induction facts as [|fact facts IH]; [done|]. cbn. intros [[H1 H2]%orb_false_elim H3]%orb_false_elim.
  rewrite IH by done. by destruct fact as [? ? [] [] ?].
Qed.
Lemma clear_facts_quiet p item : (clear_facts p item).2 = false -> (clear_facts p item).1 = item.
Proof.
  unfold clear_facts. destruct (_ && _); [done|]. destruct (negb _); [|done]. pose proof (strip_quiet (attribution_facts item)) as H.
  destruct (strip_display_labels (attribution_facts item)) as [facts c]. cbn in *. intros ->. rewrite H by done. by destruct item.
Qed.
Lemma clear_skills_quiet p item : (clear_skills p item).2 = false -> (clear_skills p item).1 = item.
Proof. unfold clear_skills. destruct (activity_summary item); [|done]. by destruct (_ && _). Qed.
Lemma drop_long_links_quiet item : (drop_long_links item).2 = false -> (drop_long_links item).1 = item.
Proof.
  unfold drop_long_links. intros H%negb_false_iff%Nat.eqb_eq. apply filter_full in H as [E _]. destruct item; cbn in *.
  by rewrite E.
Qed.
Lemma hide_kind_quiet fact : (hide_kind fact).2 = false -> (hide_kind fact).1 = fact.
Proof.
  unfold hide_kind. destruct (_ && _); [|done]. cbn. intros H%negb_false_iff%bool_decide_eq_true.
  destruct fact; cbn in *. by rewrite H.
Qed.
Lemma hide_facts_quiet facts : (hide_facts facts).2 = false -> (hide_facts facts).1 = facts.
Proof.
  cbn. intros [H1%negb_false_iff%Nat.eqb_eq H2]%orb_false_elim. apply filter_full in H1 as [E _]. rewrite E in *.
  rewrite <-(list_fmap_id facts) at 2. apply list_fmap_ext. intros i fact Hf. apply hide_kind_quiet.
  apply not_true_is_false. intros Ht. assert (existsb (fun f => (hide_kind f).2) facts = true) as Hex; [|congruence].
  apply existsb_exists. exists fact. split; [|done]. by eapply list_elem_of_In, list_elem_of_lookup_2.
Qed.
Lemma hide_role_quiet o : (hide_role o).2 = false -> (hide_role o).1 = o.
Proof.
  unfold hide_role. destruct (agent_role o) as [role|] eqn:E; [|done]. case_bool_decide; [done|]. cbn.
  intros ->%negb_false_iff%bool_decide_eq_true. destruct o; cbn in *. by rewrite E.
Qed.
Lemma within_quiet {A} (f : A -> A * bool) part :
  (forall a, (f a).2 = false -> (f a).1 = a) -> (within f part).2 = false -> (within f part).1 = part.
Proof.
  intros Hf. destruct part as [a|]; [|done]. cbn. specialize (Hf a). destruct (f a) as [a' c]. cbn in *.
  intros ->. by rewrite Hf.
Qed.
Lemma hide_summary_quiet s : (hide_summary s).2 = false -> (hide_summary s).1 = s.
Proof.
  unfold hide_summary. pose proof (merge_unchanged (fun _ => true) (mcp_tool_counts s)) as H1.
  pose proof (merge_unchanged is_mcp_tool_name (tool_counts s)) as H2.
  destruct (merge_mcp_rows (fun _ => true) _) as [m c1], (merge_mcp_rows is_mcp_tool_name _) as [t c2]. cbn in *.
  intros [-> ->]%orb_false_elim. destruct (H1 eq_refl) as [-> _], (H2 eq_refl) as [-> _]. by destruct s.
Qed.
Lemma hide_names_quiet item : (hide_names item).2 = false ->
  (hide_names item).1 = item{{session_start ::= fmap (fun start => start{{start_config_fingerprint := None}})}}.
Proof.
  pose proof (within_quiet hide_summary (activity_summary item) hide_summary_quiet) as H1.
  pose proof (within_quiet (merge_mcp_rows is_mcp_tool_name) (tool_usage item)
    (fun rows H => proj1 (merge_unchanged is_mcp_tool_name rows H))) as H2.
  pose proof (hide_facts_quiet (attribution_facts item)) as H3. pose proof (within_quiet hide_role (origin item) hide_role_quiet) as H4.
  unfold hide_names. destruct (within hide_summary _) as [s c1], (within (merge_mcp_rows _) _) as [u c2],
    (hide_facts (attribution_facts item)) as [facts c3], (within hide_role _) as [o c4]. cbn [fst snd] in *.
  intros [[[-> ->]%orb_false_elim ->]%orb_false_elim ->]%orb_false_elim.
  rewrite H1, H2, H3, H4 by done. by destruct item.
Qed.

Lemma quiet_then rule x item : x = (item, false) -> (rule item).2 = false -> (rule item).1 = item ->
  then_rule rule x = (item, false).
Proof. intros ->. cbn. destruct (rule item). cbn. by intros -> ->. Qed.
Lemma pair_quiet {A} (x : A * bool) a : x.1 = a -> x.2 = false -> x = (a, false).
Proof. destruct x. cbn. by intros -> ->. Qed.
Lemma released_quiet p item : (apply_released_rules p item).2 = false -> apply_released_rules p item = (start_policy p item, false).
Proof.
  unfold apply_released_rules. destruct (then_rule (clear_skills p) _) as [cleared changed] eqn:E. cbn. intros ->.
  apply (f_equal snd) in E as E2. cbn in E2.
  apply then_rule_quiet in E2 as [E2 H5]. apply then_rule_quiet in E2 as [E2 H4]. apply then_rule_quiet in E2 as [E2 H3].
  apply then_rule_quiet in E2 as [H1 H2].
  pose proof (pair_quiet _ _ (clear_titles_quiet _ _ H1) H1) as T1. rewrite T1 in *. cbn [fst] in H2.
  pose proof (quiet_then _ _ _ eq_refl H2 (clear_labels_quiet _ _ H2)) as T2. rewrite T2 in *. cbn [fst] in H3.
  pose proof (quiet_then _ _ _ eq_refl H3 (clear_links_quiet _ _ H3)) as T3. rewrite T3 in *. cbn [fst] in H4.
  pose proof (quiet_then _ _ _ eq_refl H4 (clear_facts_quiet _ _ H4)) as T4. rewrite T4 in *. cbn [fst] in H5.
  pose proof (quiet_then _ _ _ eq_refl H5 (clear_skills_quiet _ _ H5)) as T5. rewrite T5 in E. by injection E as ->.
Qed.
Lemma sent_quiet p item : (filter_item p item).2 = false -> sent p item = item{{session_start ::= fmap (sent_start p)}}.
Proof.
  rewrite <-filter_item_sent. unfold filter_item. intros H.
  assert (Hf : (then_rule drop_long_links (apply_released_rules p item)).2 = false).
  { destruct (names p); [done|]. by apply then_rule_quiet in H as [? _]. }
  apply then_rule_quiet in Hf as [Hr Hd]. pose proof (released_quiet _ _ Hr) as Er. rewrite Er in *. cbn [fst] in Hd.
  pose proof (quiet_then _ _ _ eq_refl Hd (drop_long_links_quiet _ Hd)) as Ed. rewrite Ed in *.
  destruct (names p) eqn:En.
  - cbn. unfold start_policy, sent_start. rewrite En. by destruct item.
  - apply then_rule_quiet in H as [_ Hh]. rewrite then_rule_sent, hide_names_quiet by done. cbn.
    unfold start_policy, sent_start. rewrite En. destruct item as [? ? ? ? ? ? ? ? ? ? ? ? [start|] ?]; done.
Qed.

(** ** Rules applied again *)
Lemma Forall_existsb_false {A} (f : A -> bool) l : Forall (fun x => f x = false) l -> existsb f l = false.
Proof. induction 1 as [|x l Hx _ IH]; [done|]. cbn. by rewrite Hx. Qed.
Lemma filter_all_eq {A} (P : A -> Prop) `{forall x, Decision (P x)} l : Forall P l -> filter P l = l.
Proof. induction 1 as [|x l Hx _ IH]; [done|]. by rewrite filter_cons_True, IH. Qed.
Lemma strip_flag facts : Forall unlabelled facts -> (strip_display_labels facts).2 = false.
Proof. intros H. apply Forall_existsb_false. eapply Forall_impl; [exact H|]. by intros fact [-> ->]. Qed.
Lemma hide_kind_flag fact : anonymous_fact fact -> (hide_kind fact).2 = false.
Proof.
  intros [_ Hk]. unfold hide_kind. case_bool_decide as E1; [|done]. case_bool_decide as E2; [done|]. cbn.
  destruct (Hk E1) as [?| ->]; [done|]. by rewrite bool_decide_true.
Qed.
Lemma hide_facts_flag facts : Forall anonymous_fact facts -> (hide_facts facts).2 = false.
Proof.
  intros H. cbn. rewrite filter_all_eq by (eapply Forall_impl; [exact H|]; by intros fact []). rewrite Nat.eqb_refl. cbn.
  apply Forall_existsb_false. eapply Forall_impl; [exact H|]. apply hide_kind_flag.
Qed.
Lemma hide_names_flag p item : names p = false -> facts_conform p item ->
  (forall s, activity_summary item = Some s -> summary_conforms p s) ->
  (forall rows, tool_usage item = Some rows -> names p = false -> mcp_hidden rows) ->
  (forall o, origin item = Some o -> role_conforms p o) -> (hide_names item).2 = false.
Proof.
  intros Hn (_ & _ & Hf) Hs Hu Ho. pose proof (hide_facts_flag _ (Hf Hn)) as H3.
  assert (H1 : (within hide_summary (activity_summary item)).2 = false).
  { destruct (activity_summary item) as [s|]; [|done]. destruct (Hs s eq_refl) as [_ Hm]. destruct (Hm Hn) as [Hall Ht].
    cbn. unfold hide_summary. by rewrite merge_all_hidden, merge_hidden_same by done. }
  assert (H2 : (within (merge_mcp_rows is_mcp_tool_name) (tool_usage item)).2 = false).
  { destruct (tool_usage item) as [rows|]; [|done]. cbn. by rewrite merge_hidden_same by by apply Hu. }
  assert (H4 : (within hide_role (origin item)).2 = false).
  { destruct (origin item) as [o|]; [|done]. cbn. specialize (Ho o eq_refl Hn). unfold hide_role.
    destruct (agent_role o) as [role|]; [|done]. case_bool_decide; [done|]. destruct (Ho role eq_refl) as [?| ->]; done. }
  unfold hide_names. destruct (within hide_summary _), (within (merge_mcp_rows _) _), (hide_facts (attribution_facts item)), (within hide_role _).
  cbn in *. by subst.
Qed.
Lemma released_flag p item : conforms p item -> apply_released_rules p item = (start_policy p item, false).
Proof.
  intros ((Ht & Hw & Hl & _) & (Ha & Hp & _) & Hs & _).
  assert (H1 : clear_titles p item = (item, false)).
  { unfold clear_titles. destruct (titles p); [done|]. by destruct (Ht eq_refl) as [-> ->]. }
  assert (H2 : clear_labels p item = (item, false)).
  { unfold clear_labels. destruct (workspace p); [done|]. by destruct (Hw eq_refl) as (-> & -> & -> & ->). }
  assert (H3 : clear_links p item = (item, false)).
  { unfold clear_links. destruct (links p); [done|]. by rewrite Hl. }
  assert (H4 : clear_facts p item = (item, false)).
  { apply pair_quiet; [apply clear_facts_quiet|]; unfold clear_facts;
      (destruct (session_attribution_enabled p) eqn:Ea; cbn [negb andb]; [|rewrite Ha by done; cbn [nonempty]]);
      (destruct (private_labels p) eqn:Ep; cbn [negb]; [done|]);
      pose proof (strip_flag _ (Hp eq_refl)) as Hq; rewrite ?Ha in Hq by done; destruct (strip_display_labels _); done. }
  assert (H5 : clear_skills p item = (item, false)).
  { unfold clear_skills. destruct (activity_summary item) as [s|]; [|done]. destruct (private_labels p) eqn:Ep; [done|].
    by rewrite (proj1 (Hs s eq_refl) Ep). }
  unfold apply_released_rules. rewrite H1. unfold then_rule. by rewrite H2, H3, H4, H5.
Qed.
Lemma filter_flag p item : conforms p item -> (filter_item p item).2 = false.
Proof.
  intros Hc. unfold filter_item. rewrite (released_flag p item Hc).
  assert (Hd : drop_long_links (start_policy p item) = (start_policy p item, false)).
  { destruct Hc as ((_ & _ & _ & Hl) & _).
    assert ((drop_long_links (start_policy p item)).2 = false) as Hf.
    { unfold drop_long_links. destruct item as [? ? ? ? ? ? ? ls ? ? ? ? ? ?]; cbn in *.
      rewrite filter_all_eq by (eapply Forall_impl; [exact Hl|]; intros l H; by apply bool_decide_eq_true).
      by rewrite Nat.eqb_refl. }
    apply pair_quiet; [by apply drop_long_links_quiet|done]. }
  unfold then_rule at 1 3. rewrite Hd. destruct (names p) eqn:En; [done|]. apply then_rule_flag; [done|].
  destruct Hc as (_ & H2 & H3 & H4 & H5 & _). apply (hide_names_flag p); [done|..]; by destruct item.
Qed.
Lemma apply_settled labels attribution s :
  (unmeasured s = false -> policy_applied s = true /\
     Forall (fun row => file_allowed labels attribution row = true) (opening_files s) /\
     exists n, opening_file_overflow s = Some (wrap_u 64 n)) ->
  apply_start_policy labels attribution s = s.
Proof.
  intros H. unfold apply_start_policy. fold (unmeasured s). destruct (unmeasured s); [done|].
  destruct (H eq_refl) as (Ha & Hf & n & Hn). rewrite Ha, Hn, filter_all_eq by done. rewrite Nat.sub_diag. cbn [default from_option].
  assert (E : wrap_u 64 (id (wrap_u 64 n) + Z.of_nat 0) = wrap_u 64 n).
  { cbn. rewrite Z.add_0_r. apply wrap_u_small, wrap_u_uint. lia. }
  rewrite E. destruct s as [? ? o ? ? ? ? ? ?]. cbn in Hn. by subst o.
Qed.
Lemma apply_start_settles labels attribution start :
  unmeasured start = false -> let s := apply_start_policy labels attribution start in
  policy_applied s = true /\ Forall (fun row => file_allowed labels attribution row = true) (opening_files s) /\
  exists n, opening_file_overflow s = Some (wrap_u 64 n).
Proof.
  intros Hm s. split_and!.
  - unfold s. rewrite (proj2 (proj2 (proj2 (start_rest _ _ _)))), Hm. apply orb_true_r.
  - unfold s. rewrite start_files, Hm. apply Forall_app. split.
    + apply Forall_forall. by intros row [? _]%list_elem_of_filter.
    + destruct (policy_applied start); [constructor|]. apply Forall_forall. intros row (c & Hin & Hp)%list_elem_of_omap.
      unfold pick_identity in Hp. unfold file_allowed. destruct (labels && is_some (cand_repo_path c)) eqn:E1.
      * injection Hp as <-. destruct c as [[] ? ? ?]; cbn in *. by rewrite E1.
      * destruct (attribution && is_some (cand_path_hash c)) eqn:E2; [|done].
        injection Hp as <-. destruct c as [[] ? ? ?]; cbn in *. rewrite E2. apply orb_true_r.
  - unfold s, apply_start_policy. fold (unmeasured start). rewrite Hm.
    destruct (policy_applied start); destruct start; cbn; by eexists.
Qed.
Lemma sent_start_again p start : sent_start p (sent_start p start) = sent_start p start.
Proof.
  assert (H : apply_start_policy (workspace p) (session_attribution_enabled p) (sent_start p start) = sent_start p start).
  { apply apply_settled. destruct (sent_start_rest p start) as (_ & Hu & Ha). rewrite Hu. intros Hm.
    destruct (apply_start_settles (workspace p) (session_attribution_enabled p) start Hm) as (H1 & H2 & H3).
    unfold sent_start. destruct (names p); [done|]. by destruct (apply_start_policy _ _ start). }
  unfold sent_start at 1. rewrite H. unfold sent_start. destruct (names p); [done|]. by destruct (apply_start_policy _ _ start).
Qed.

Section Contract.
Context {SnapshotSource : Type} (snapshot_fingerprint : SnapshotSource -> SnapshotItem -> string).
Abbreviation upload := (upload_item snapshot_fingerprint).

Lemma upload_sent source p item : exists f, upload source p item = (sent p item){{snapshot_fingerprint_of := f}}.
Proof.
  unfold upload_item, refresh. rewrite <-filter_item_sent. destruct (filter_item p item) as [body changed]. cbn.
  destruct changed; [by eexists|]. exists (snapshot_fingerprint_of body). by destruct body.
Qed.
Lemma refingerprint_conforms p f item : conforms p (item{{snapshot_fingerprint_of := f}}) <-> conforms p item.
Proof. by destruct item. Qed.
Lemma refingerprint_ok f item : body_ok (item{{snapshot_fingerprint_of := f}}) <-> body_ok item.
Proof. by destruct item. Qed.
Lemma upload_conforms source p item : body_ok item -> conforms p (upload source p item).
Proof. intros H. destruct (upload_sent source p item) as [f ->]. by apply refingerprint_conforms, sent_conforms. Qed.
Lemma upload_keeps source p q item : body_ok item -> conforms q item -> conforms q (upload source p item).
Proof. intros H Hc. destruct (upload_sent source p item) as [f ->]. by apply refingerprint_conforms, sent_keeps. Qed.
Lemma upload_ok source p item : body_ok item -> body_ok (upload source p item).
Proof. intros H. destruct (upload_sent source p item) as [f ->]. by apply refingerprint_ok, sent_ok. Qed.

(** C6: Nothing a policy's rules withhold is ever sent.  Whatever policies a
    cycle applies to its bodies, in any order, no body is lost and each conforms
    to every one of them.  The settings for titles, workspace labels and links
    clear those fields, and no link is over the limit; without session
    attribution there is no fact; without private labels (attribution, titles
    and attribution labels together) the facts have no display label and the
    activity summary no skill name; no opening file travels under an identity
    its setting does not allow; and without names the MCP rows are merged under
    one name, agent kinds and roles are the providers' own, there is no
    skill_id fact and no configuration fingerprint.  Names do not govern the
    summary's skill names and the display labels: [skills_sent_without_names]. *)
Theorem every_policy_holds source policies snapshots :
  Forall body_ok snapshots ->
  let bodies := foldl (fun bodies p => apply_upload_policy snapshot_fingerprint source p bodies) snapshots policies in
  length bodies = length snapshots /\ forall p, p ∈ policies -> Forall (conforms p) bodies.
Proof.
  intros Hok. enough (H : let bodies := foldl (fun bodies p => apply_upload_policy snapshot_fingerprint source p bodies)
      snapshots policies in
    Forall body_ok bodies /\ length bodies = length snapshots /\ forall p, p ∈ policies -> Forall (conforms p) bodies)
    by apply H.
  induction policies as [|q policies IH] using rev_ind.
  - split_and!; [done..|]. by intros p Hp%not_elem_of_nil.
  - cbv zeta in *. rewrite foldl_app. cbn [foldl]. destruct IH as (Hb & Hl & Hc).
    set (bodies := foldl _ snapshots policies) in *. unfold apply_upload_policy. split_and!.
    + apply Forall_fmap. eapply Forall_impl; [exact Hb|]. intros item. apply upload_ok.
    + by rewrite length_fmap.
    + intros p [Hp| ->%list_elem_of_singleton]%elem_of_app; apply Forall_fmap.
      * specialize (Hc p Hp). rewrite Forall_forall in *. intros item Hi. apply upload_keeps; auto.
      * eapply Forall_impl; [exact Hb|]. intros item. apply upload_conforms.
Qed.

(** Applying a policy again changes nothing: not the body, not its
    fingerprint. *)
Theorem policy_applied_again source p snapshots : Forall body_ok snapshots ->
  let once := apply_upload_policy snapshot_fingerprint source p snapshots in
  apply_upload_policy snapshot_fingerprint source p once = once.
Proof.
  intros Hok. cbv zeta. unfold apply_upload_policy. rewrite <-list_fmap_compose. apply list_fmap_ext.
  intros i item Hi. cbn. rewrite Forall_forall in Hok. apply list_elem_of_lookup_2, Hok in Hi.
  pose proof (filter_flag p _ (upload_conforms source p item Hi)) as Hq. pose proof (sent_quiet p _ Hq) as Hs.
  rewrite <-filter_item_sent in Hs. unfold upload_item at 1, refresh.
  destruct (filter_item p (upload source p item)) as [body changed]. cbn in *. subst changed body.
  destruct (upload_sent source p item) as [f ->]. unfold sent. destruct item as [? ? ? ? ? ? ? ? ? ? ? ? [start|] ?]; [|done].
  cbn. by rewrite sent_start_again.
Qed.

(** The fingerprint describes the body sent.  When the fingerprint does not
    look at the session start or at itself, and the collected one was right, the
    uploaded one is the fingerprint of the filtered body. *)
Theorem fingerprint_of_sent_body source p item :
  (forall a b f start, b = a{{session_start := start; snapshot_fingerprint_of := f}} ->
     snapshot_fingerprint source a = snapshot_fingerprint source b) ->
  snapshot_fingerprint_of item = snapshot_fingerprint source item ->
  let body := upload source p item in snapshot_fingerprint_of body = snapshot_fingerprint source body.
Proof.
  intros Hfp Hitem. cbv zeta. unfold upload_item, refresh. pose proof (sent_quiet p item) as Hq.
  rewrite <-filter_item_sent in Hq. destruct (filter_item p item) as [body changed]. cbn in Hq. destruct changed.
  - transitivity (snapshot_fingerprint source body); [by destruct body|].
    apply (Hfp body _ (snapshot_fingerprint source body) (session_start body)). by destruct body.
  - rewrite Hq by done. transitivity (snapshot_fingerprint source item); [by destruct item|].
    apply (Hfp item _ (snapshot_fingerprint_of item) (sent_start p <$> session_start item)). by destruct item.
Qed.
End Contract.

(** ** Totals *)
Definition same_totals (is_mcp : string -> bool) (rows rows' : list SnapshotActivityCount) : Prop :=
  merged_total is_mcp rows' = merged_total is_mcp rows /\
  filter (fun row => is_mcp (ac_name row) = false) rows' ≡ₚ filter (fun row => is_mcp (ac_name row) = false) rows.
Definition counts_u64 (rows : list SnapshotActivityCount) : Prop := Forall (fun row => u64 (ac_count row)) rows.
Lemma merged_total_filter is_mcp rows : merged_total is_mcp rows
  = foldl (fun total row => saturating_add 64 total (ac_count row)) 0 (filter (fun row => is_mcp (ac_name row) = true) rows).
Proof.
  unfold merged_total. generalize 0. induction rows as [|row rows IH]; intros n; [done|]. cbn [foldl]. rewrite filter_cons, IH.
  by destruct (is_mcp (ac_name row)).
Qed.
Lemma merged_total_u64 is_mcp rows : counts_u64 rows -> u64 (merged_total is_mcp rows).
Proof.
  unfold merged_total. assert (H0 : u64 0) by (unfold uint; lia). revert H0. generalize 0. intros n Hn Hr. revert n Hn.
  induction Hr as [|row rows Hrow _ IH]; intros n Hn; [done|]. cbn. apply IH. destruct (is_mcp _); auto with ottto.
Qed.
Lemma merge_totals is_mcp rows : is_mcp HIDDEN_MCP_NAME = true -> counts_u64 rows ->
  same_totals is_mcp rows (merge_mcp_rows is_mcp rows).1.
Proof.
  intros Hh Hu. destruct (merge_mcp_rows is_mcp rows).2 eqn:E; [|by destruct (merge_unchanged _ _ E) as [-> _]].
  apply merge_changed in E. set (kept := filter (fun row => is_mcp (ac_name row) = false) rows) in *.
  set (total := merged_total is_mcp rows) in *.
  assert (Hk : Forall (fun row => is_mcp (ac_name row) = false) kept) by (apply Forall_forall; by intros row [? _]%list_elem_of_filter).
  split.
  - rewrite merged_total_filter.
    assert (Hone : filter (fun row => is_mcp (ac_name row) = true) (merge_mcp_rows is_mcp rows).1 = [mkCount HIDDEN_MCP_NAME total]).
    { apply Permutation_singleton_r. rewrite E, filter_app, filter_cons_True, filter_nil by done.
      assert (filter (fun row => is_mcp (ac_name row) = true) kept = []) as ->; [|done].
      clear E. induction Hk as [|row l Hr _ IH]; [done|]. by rewrite filter_cons_False by congruence. }
    rewrite Hone. cbn. pose proof (merged_total_u64 is_mcp rows Hu). fold total in H.
    unfold saturating_add, umax, uint in *. lia.
  - rewrite E, filter_app, filter_cons_False, filter_nil, app_nil_r by (cbn; congruence). by rewrite filter_all_eq.
Qed.
(** Hiding names loses no count.  Whatever the policy, the tool rows of a
    body keep every row that names no MCP tool and the (saturating) sum of those
    that do, in the usage rows and in both lists of the summary; and every other
    field, usage and cost among them, is sent as it was. *)
Theorem totals_survive {SnapshotSource : Type} (snapshot_fingerprint : SnapshotSource -> SnapshotItem -> string) source p item :
  let body := upload_item snapshot_fingerprint source p item in
  item_others body = item_others item /\
  (forall rows, tool_usage item = Some rows -> counts_u64 rows ->
     exists rows', tool_usage body = Some rows' /\ same_totals is_mcp_tool_name rows rows') /\
  (forall s, activity_summary item = Some s -> counts_u64 (mcp_tool_counts s) -> counts_u64 (tool_counts s) ->
     exists s', activity_summary body = Some s' /\ summary_others s' = summary_others s /\
       same_totals (fun _ => true) (mcp_tool_counts s) (mcp_tool_counts s') /\
       same_totals is_mcp_tool_name (tool_counts s) (tool_counts s')).
Proof.
  cbv zeta. destruct (upload_sent snapshot_fingerprint source p item) as [f ->]. unfold sent.
  destruct item as [? ? ? ? ? ? ? ? ? summary usage ? ? ?]; cbn. split_and!; [done|..].
  - intros rows -> Hu. destruct (names p); [by exists rows|]. eexists. split; [done|]. by apply merge_totals; [apply hidden_is_mcp|].
  - intros s -> Hm Ht. eexists. split; [done|]. unfold sent_summary.
    destruct (names p); rewrite ?hide_summary_fields; destruct s; cbn in *; [done|].
    split_and!; [done|by apply merge_totals|]. by apply merge_totals; [apply hidden_is_mcp|].
Qed.

(** ** Footprints *)
(** What the totals of a footprint are, read off its named rows: how many, of
    how many tokens (a sum of [u64]s, exact below 2^64), how many memory files
    are marked [AutoMem] in any case of letters, from how many servers. *)
Definition token_total (total : Z) (tokens : list Z) : Prop := total = foldr Z.add 0 tokens mod 2 ^ 64.
Definition marked_auto (row : ContextFootprintItemInput) : Prop :=
  exists source, fp_source row = Some source /\ to_ascii_lowercase (as_bytes source) = as_bytes "automem".
Record totals_exact (r : ContextFootprintIngestRequest) (t : NamesWithheld) : Prop := {
  skills_exact : iw_count (nw_skills t) = Z.of_nat (length (fp_skills r)) /\
    token_total (iw_tokens (nw_skills t)) (fp_tokens <$> fp_skills r);
  agents_exact : iw_count (nw_custom_agents t) = Z.of_nat (length (custom_agents r)) /\
    token_total (iw_tokens (nw_custom_agents t)) (fp_tokens <$> custom_agents r);
  memory_exact : mw_count (nw_memory_files t) = Z.of_nat (length (memory_files r)) /\
    token_total (mw_tokens (nw_memory_files t)) (fp_tokens <$> memory_files r);
  auto_exact : exists auto rest, memory_files r ≡ₚ auto ++ rest /\
    Forall marked_auto auto /\ Forall (fun row => ~ marked_auto row) rest /\
    auto_memory_count (nw_memory_files t) = Z.of_nat (length auto);
  tools_exact : mcp_tool_count (nw_mcp t) = Z.of_nat (length (mcp_tools r)) /\
    token_total (mcp_tokens (nw_mcp t)) (tool_tokens <$> mcp_tools r);
  servers_exact : exists servers, NoDup servers /\ (forall s, s ∈ servers <-> exists tool, tool ∈ mcp_tools r /\ tool_server tool = s) /\
    mcp_servers (nw_mcp t) = Z.of_nat (length servers);
}.

Lemma sum_wrapping_total l : token_total (sum_wrapping l) l.
Proof.
  unfold token_total, sum_wrapping. enough (H : forall a, foldl (fun a b => wrap_u 64 (a + b)) (a mod 2 ^ 64) l
    = (a + foldr Z.add 0 l) mod 2 ^ 64) by apply (H 0).
  induction l as [|x l IH]; intros a; cbn [foldl foldr]; [by rewrite Z.add_0_r|].
  unfold wrap_u in *. change (2 ^ Z.of_N 64) with (2 ^ 64) in *. rewrite Zplus_mod_idemp_l, IH. f_equal. lia.
Qed.
Lemma is_auto_memory_spec row : is_auto_memory row = true <-> marked_auto row.
Proof.
  unfold is_auto_memory, marked_auto. destruct (fp_source row) as [source|]; [|split; [done|by intros (? & ? & _)]].
  rewrite bool_decide_eq_true. change (to_ascii_lowercase (as_bytes "AutoMem")) with (as_bytes "automem").
  split; [by exists source|]. intros (other & E & H). by injection E as ->.
Qed.
Lemma auto_count auto rest l : l ≡ₚ auto ++ rest -> Forall marked_auto auto -> Forall (fun row => ~ marked_auto row) rest ->
  length (filter (fun row => is_auto_memory row = true) l) = length auto.
Proof.
  intros -> Ha Hr. rewrite filter_app, length_app. assert (filter (fun row => is_auto_memory row = true) rest = []) as ->.
  - induction Hr as [|row rest Hn _ IH]; [done|]. rewrite filter_cons, decide_False; [done|]. by rewrite is_auto_memory_spec.
  - rewrite Nat.add_0_r. induction Ha as [|row auto Hm _ IH]; [done|].
    rewrite filter_cons, decide_True by by apply is_auto_memory_spec. cbn. by rewrite IH.
Qed.
Lemma totals_of r : totals_exact r (NamesWithheld_of r).
Proof.
  split; cbn; try (split; [done|apply sum_wrapping_total]).
  - set (P := fun row => is_auto_memory row = true). exists (filter P (memory_files r)), (filter (fun row => ~ P row) (memory_files r)).
    split_and!; [by rewrite (filter_app_complement P)|..|done]; apply Forall_forall;
      intros row [Hr _]%list_elem_of_filter; by rewrite <-is_auto_memory_spec.
  - exists (elements (list_to_set (tool_server <$> mcp_tools r) : gset string)). split_and!; [apply NoDup_elements| |done].
    intros s. rewrite elem_of_elements, elem_of_list_to_set, list_elem_of_fmap. naive_solver.
Qed.
Lemma totals_unique r t1 t2 : totals_exact r t1 -> totals_exact r t2 -> t1 = t2.
Proof.
  unfold token_total.
  intros [[A1 A2] [B1 B2] [C1 C2] (a & b & Hp & Ha & Hb & D) [E1 E2] (s & Hs & Hin & F)]
    [[A1' A2'] [B1' B2'] [C1' C2'] (a' & b' & Hp' & Ha' & Hb' & D') [E1' E2'] (s' & Hs' & Hin' & F')].
  pose proof (auto_count _ _ _ Hp Ha Hb) as G. rewrite (auto_count _ _ _ Hp' Ha' Hb') in G.
  assert (s ≡ₚ s') as Hperm by (apply NoDup_Permutation; [done..|intros x; by rewrite Hin, Hin']).
  apply Permutation_length in Hperm.
  destruct t1 as [[] [] [] []], t2 as [[] [] [] []]; cbn in *. repeat f_equal; congruence.
Qed.

Section Footprint.
Context (sha256_hex : list string -> string) (categories_json : Others -> string)
        (withheld_json : option NamesWithheld -> string).
Abbreviation filtered := (filter_footprint sha256_hex categories_json withheld_json).
(** C25: A footprint without names says nothing but totals.  With names off, two
    footprints of the same totals (if the server takes totals) and the same
    unnamed fields are sent as the same request, configuration hash included;
    the named lists are empty; and the totals sent are those of the rows left
    out: how many skills, agents, memory files, automatic ones among them, MCP
    tools and distinct servers, and their tokens modulo 2^64. *)
Theorem footprint_hides_names rules r1 r2 :
  names (rules_policy rules) = false ->
  counter_source r1 = counter_source r2 -> categories r1 = categories r2 -> footprint_others r1 = footprint_others r2 ->
  names_withheld r1 = names_withheld r2 ->
  (rules_names_withheld rules = true -> exists t, totals_exact r1 t /\ totals_exact r2 t) ->
  filtered rules r1 = filtered rules r2 /\
  memory_files (filtered rules r1) = [] /\ fp_skills (filtered rules r1) = [] /\
  custom_agents (filtered rules r1) = [] /\ mcp_tools (filtered rules r1) = [] /\
  (rules_names_withheld rules = true -> exists t, names_withheld (filtered rules r1) = Some t /\ totals_exact r1 t) /\
  (rules_names_withheld rules = false -> names_withheld (filtered rules r1) = names_withheld r1).
Proof.
  intros Hn Hc Hg Ho Hw Ht. unfold filter_footprint. rewrite Hn. destruct (rules_names_withheld rules).
  - destruct (Ht eq_refl) as (t & T1 & T2). pose proof (totals_of r1) as X.
    rewrite <-(totals_unique _ _ _ T2 (totals_of r2)), <-(totals_unique _ _ _ T1 (totals_of r1)).
    destruct r1, r2; cbn in *; subst. split_and!; [done..|intros _; by eexists|done].
  - rewrite Hw, Hc, Hg. destruct r1, r2; cbn in *; subst. by split_and!.
Qed.
End Footprint.

(** ** The remembered policy *)
Section Remembered.
Context (sha256_hex : list string -> string).
(** A pass: its destination, the hint it fetched, whether a write would go
    through. *)
Abbreviation Pass := (string * option ActivityHintResponse * bool)%type.
Definition pass_files (files : PolicyFiles) (pass : Pass) : PolicyFiles :=
  (for_pass sha256_hex files pass.1.1 pass.1.2 pass.2).2.
Definition last_saved (destination : string) (saved : option SnapshotUploadPolicy) (pass : Pass) : option SnapshotUploadPolicy :=
  match pass with
  | (to, Some hint, true) => if decide (to = destination) then Some (from_hint hint) else saved
  | _ => saved
  end.
Lemma pass_files_lookup files destination pass :
  (forall a b, sha256_hex [a] = sha256_hex [b] -> a = b) ->
  pass_files files pass !! sha256_hex [destination] = last_saved destination (files !! sha256_hex [destination]) pass.
Proof.
  intros Hinj. destruct pass as [[to [hint|]] written]; cbn; [|done]. case_bool_decide as E.
  - destruct written; [|done]. case_decide as Hd; [by subst|done].
  - destruct written; [|done]. case_decide as Hd.
    + subst. by rewrite lookup_insert_eq.
    + rewrite lookup_insert_ne; [done|]. intros Heq. by apply Hd, Hinj.
Qed.
(** A failed fetch never grants more than was granted.  After any passes, a
    pass that fetches no hint runs under the policy of the last hint that was
    fetched and saved for its destination, or sends nothing optional; other
    destinations' hints play no part, and no totals are claimed. *)
Theorem failed_fetch_reuses passes destination written :
  (forall a b, sha256_hex [a] = sha256_hex [b] -> a = b) ->
  (for_pass sha256_hex (foldl pass_files ∅ passes) destination None written).1
  = mkRules (default MOST_PRIVATE (foldl (last_saved destination) None passes)) false.
Proof.
  intros Hinj. cbn. do 2 f_equal.
  assert (H : forall files, foldl pass_files files passes !! sha256_hex [destination]
    = foldl (last_saved destination) (files !! sha256_hex [destination]) passes); [|by rewrite H, lookup_empty].
  induction passes as [|pass passes IH]; intros files; [done|]. cbn. by rewrite IH, pass_files_lookup.
Qed.
End Remembered.

(** ** Concrete runs *)
Definition sample_start : SnapshotSessionStart :=
  mkStart (Some 3) [] (Some 1) (Some "config"%string)
    [mkCandidate (mkOpeningFile None None None []) (Some "src/lib.rs"%string) (Some "hash"%string) (Some "rs"%string)] 0 false false [].
Definition sample_item : SnapshotItem :=
  mkSnapshotItem "fp" (Some "Fix the bug"%string) None (Some "ottto"%string) None None None
    [mkArtifact "pr" "https://example.com/1"]
    [mkFact "skill_id" "secret" None None (mkEvidence "" "" "" "" "");
     mkFact "agent_kind" "reviewer" (Some "label"%string) None (mkEvidence "" "" "" "" "")]
    (Some (mkSummary [mkCount "github/issue" 2; mkCount "jira/get" 3] [mkCount "Bash" 4; mkCount "mcp__jira__get" 3] ["deploy"%string] []))
    (Some [mkCount "Bash" 4; mkCount "mcp__jira__get" 3; mkCount "tools.mcp__github__issue" 2])
    (Some (mkOrigin (Some "reviewer"%string) [])) (Some sample_start) [("input_tokens", "12")]%string.
Lemma sample_ok : body_ok sample_item.
Proof. intros start [= <-]. split_and!; [constructor|by repeat constructor|]. intros [?|?]; done. Qed.
(** Names are hidden and their counts merged. *)
Example sample_hidden :
  tool_usage (sent (mkPolicy true false true true true) sample_item)
  = Some [mkCount HIDDEN_MCP_NAME 5; mkCount "Bash" 4] /\
  fact_value <$> attribution_facts (sent (mkPolicy true false true true true) sample_item) = [CUSTOM].
Proof. by vm_compute. Qed.
(** The names setting does not govern every name: with workspace labels off and
    titles and attribution labels on, [names] is false, yet the summary's skill
    names and the display label of a fact are sent. *)
Example skills_sent_without_names :
  let policy := mkPolicy true false false true true in
  names policy = false /\
  skills <$> activity_summary (sent policy sample_item) = Some ["deploy"%string] /\
  display_label <$> attribution_facts (sent policy sample_item) = [Some "label"%string].
Proof. by vm_compute. Qed.
Definition label_fingerprint (source : unit) (item : SnapshotItem) : string :=
  default "none"%string (session_display_name item).
Definition named_item : SnapshotItem := sample_item{{snapshot_fingerprint_of := "Fix the bug"%string}}.

Lemma every_policy_holds_witness :
  Forall body_ok [sample_item] /\
  Forall (conforms MOST_PRIVATE)
    (foldl (fun bodies p => apply_upload_policy label_fingerprint tt p bodies) [sample_item] [default_policy; MOST_PRIVATE]).
Proof.
  assert (H : Forall body_ok [sample_item]) by (constructor; [apply sample_ok|constructor]). split; [exact H|].
  apply (every_policy_holds label_fingerprint tt [default_policy; MOST_PRIVATE] [sample_item] H). right. left.
Defined.
Lemma policy_applied_again_witness :
  let once := apply_upload_policy label_fingerprint tt MOST_PRIVATE [sample_item] in
  apply_upload_policy label_fingerprint tt MOST_PRIVATE once = once.
Proof.
  apply (policy_applied_again label_fingerprint tt MOST_PRIVATE [sample_item]). constructor; [apply sample_ok|constructor].
Defined.
Lemma fingerprint_of_sent_body_witness :
  snapshot_fingerprint_of named_item = label_fingerprint tt named_item /\
  snapshot_fingerprint_of (upload_item label_fingerprint tt MOST_PRIVATE named_item) = "none"%string.
Proof.
  assert (E : snapshot_fingerprint_of named_item = label_fingerprint tt named_item) by reflexivity. split; [exact E|].
  rewrite (fingerprint_of_sent_body label_fingerprint tt MOST_PRIVATE named_item); [reflexivity| |exact E].
  intros a b f start ->. by destruct a.
Defined.
Lemma totals_survive_witness :
  exists rows', tool_usage (upload_item label_fingerprint tt MOST_PRIVATE sample_item) = Some rows' /\
    merged_total is_mcp_tool_name rows' = 5.
Proof.
  destruct (totals_survive label_fingerprint tt MOST_PRIVATE sample_item) as (_ & H & _).
  destruct (H [mkCount "Bash" 4; mkCount "mcp__jira__get" 3; mkCount "tools.mcp__github__issue" 2] eq_refl) as (rows' & Hr & Ht & _).
  { repeat constructor; cbn; lia. }
  exists rows'. split; [exact Hr|]. by rewrite Ht.
Defined.
Definition join_texts (parts : list string) : string := String.concat "/" parts.
Lemma footprint_hides_names_witness :
  let rules := mkRules MOST_PRIVATE true in
  let named name := mkFootprint "hash" "context" [] [] [mkFootprintItem name 7 None []] [] [] None [] in
  filter_footprint join_texts (fun _ => ""%string) (fun _ => ""%string) rules (named "deploy"%string)
  = filter_footprint join_texts (fun _ => ""%string) (fun _ => ""%string) rules (named "release"%string).
Proof.
  intros rules named.
  apply (footprint_hides_names join_texts (fun _ => ""%string) (fun _ => ""%string) rules (named "deploy"%string) (named "release"%string));
    [done..|]. intros _. exists (NamesWithheld_of (named "deploy"%string)). split; [apply totals_of|].
  change (NamesWithheld_of (named "deploy"%string)) with (NamesWithheld_of (named "release"%string)). apply totals_of.
Defined.
Lemma failed_fetch_reuses_witness :
  (for_pass join_texts (foldl (pass_files join_texts) ∅
     [("api"%string, Some (mkHint true true false true true None), true); ("other"%string, Some (mkHint true true true true true None), true)])
     "api" None true).1 = mkRules (mkPolicy true true false true true) false.
Proof.
  rewrite (failed_fetch_reuses join_texts); [reflexivity|]. by intros a b.
Defined.
