(* ===== verification/RelayAuth.v ===== *)
(** Admission of relay token requests (crates/ottto-service/src/relay_auth.rs):
    the gate of rejected bindings, and the process of probes over it.

    The gate is behind one mutex, and every operation holds it once; the clock is
    read under it.  A process is the gate, the monotonic clock and the probes of
    its threads; a [RelayEvent] is one critical section (or one atomic add, or time
    passing), and a run is a list of them in any order.  Overflow of [Instant]
    and 2^64 probes in one process are not modelled.  [random] is the word of
    the system's random source; a [BTreeMap] is a [gmap], iterated in key order
    only by [oldest].

    The laws below say what one operation does to one binding, and what holds in
    every run of the process. *)
From stdpp Require Import gmap.
From S2P Require Import Prelude.
From S2P Require Import Text.
From S2P Require Import Std.
From S2P Require Import DurableTypes.
From S2P Require Import Chars.
From coqutil Require Import Datatypes.RecordSetters.
Import DoubleBraceUpdate.
Local Open Scope Z_scope.

Definition BASE : Duration := secs (5 * 60).
Definition CAP : Duration := secs (60 * 60).
Definition MAX_BINDINGS : nat := 128.
Abbreviation Key := (list Z).

(** ** The binding of a request *)
Section Binding.
Context (sha256 : list Z -> list Z).

Definition framed (part : list Z) : list Z := to_le_bytes 8 (Z.of_nat (length part)) ++ part.
Definition trim_slashes (base : string) : list Z := trim_end_matches (Z.eqb 47) (as_bytes base).
(** What is hashed: each part after its length. *)
Definition binding_bytes (api_base device : string) (generation : Z) (secret : string) (setup_run : option string) (source : string) : list Z :=
  as_bytes "ottto:relay-auth-gate:v1" ++
    ([trim_slashes api_base; as_bytes device; to_le_bytes 8 generation; sha256 (as_bytes secret);
      as_bytes (default EmptyString setup_run); as_bytes source] ≫= framed).
Definition key (api_base device : string) (generation : Z) (secret : string) (setup_run : option string) (source : string) : Key :=
  sha256 (binding_bytes api_base device generation secret setup_run source).

(** What the two stores hold: the device with its credential generation, the
    connection's API base with its setup run. *)
Definition binding_key (stored_device : option (string * Z)) (connection : option (string * string))
    (api_base device secret source : string) : Key :=
  let generation := match stored_device with
    | Some (id, generation) => if bool_decide (id = device) then generation else 0
    | None => 0
    end in
  let setup_run := match connection with
    | Some (base, run) => if bool_decide (trim_slashes base = trim_slashes api_base) then Some run else None
    | None => None
    end in
  key api_base device generation secret setup_run source.
End Binding.

(** ** The gate *)
Record Rejected := mkRejected {
  status : Z;
  failures : Z;
  until : Instant;
  probing : option Z;
  refresh_available : bool;
  retry_after_refresh : bool;
}.
Abbreviation Gate := (gmap Key Rejected).

(** [ceiling] and its half: the wait after [failures] rejections in a row. *)
Definition ceiling (failures : Z) : Duration :=
  Z.min (Z.min (BASE * 2 ^ Z.min (saturating_sub failures 1) 16) DURATION_MAX) CAP.
Definition half_ceiling (failures : Z) : Duration := ceiling failures / 2.
Definition wait (failures random : Z) : Duration :=
  half_ceiling failures + random mod (half_ceiling failures + 1).

(** [min_by_key(until)] in key order. *)
Definition sooner (a b : Key * Rejected) : bool :=
  (until a.2 <? until b.2) || ((until a.2 =? until b.2) && rltb a.1 b.1).
Definition oldest (g : Gate) : option Key :=
  fst <$> foldl (fun best e => match best with
    | None => Some e
    | Some b => Some (if sooner e b then e else b)
    end) None (map_to_list g).
Definition make_room (k : Key) (g : Gate) : Gate :=
  if bool_decide (MAX_BINDINGS <= size g)%nat && bool_decide (g !! k = None) then
    match oldest g with Some k' => delete k' g | None => g end
  else g.

(** The status the request is refused with, or whether it is an initial request
    and may refresh the setup run. *)
Definition admit_binding (k : Key) (now : Instant) (probe_id random : Z) (g : Gate) : (Z + bool * bool) * Gate :=
  match g !! k with
  | Some held =>
      if bool_decide (is_Some (probing held)) || (negb (retry_after_refresh held) && (now <? until held))
      then (inl (status held), g)
      else
        (inr (false, negb (retry_after_refresh held)),
         <[k := mkRejected (status held) (failures held) (now + wait (failures held) random) (Some probe_id) false false]> g)
  | None => (inr (true, true), g)
  end.

Definition reject_binding (k : Key) (status_ : Z) (now : Instant) (random : Z) (initial refresh_allowed : bool) (g : Gate) : Gate :=
  if initial && bool_decide (is_Some (g !! k)) then g
  else
    let failures_ := match g !! k with Some held => saturating_add 32 (failures held) 1 | None => 1 end in
    <[k := mkRejected status_ failures_ (now + wait failures_ random) None refresh_allowed false]> (make_room k g).

Definition release (k : Key) (id : Z) (g : Gate) : Gate :=
  match g !! k with
  | Some held => if bool_decide (probing held = Some id) then <[k := held {{ probing := None }}]> g else g
  | None => g
  end.

Definition take_setup_refresh (k : Key) (g : Gate) : bool * Gate :=
  match g !! k with
  | Some held => (refresh_available held, <[k := held {{ refresh_available := false }}]> g)
  | None => (true, g)
  end.

Definition retry_after_setup_refresh (previous_key refreshed_key : Key) (g : Gate) : Gate :=
  match g !! previous_key with
  | None => g
  | Some held =>
      let previous := held {{ refresh_available := false }} in
      let g := make_room refreshed_key (<[previous_key := previous]> g) in
      let refreshed := default (previous {{ probing := None }}) (g !! refreshed_key) in
      <[refreshed_key := mkRejected (status refreshed) (Z.max (failures refreshed) (failures previous))
          (Z.max (until refreshed) (until previous)) (probing refreshed) false true]> g
  end.

(** ** Probes over the gate *)
Record Probe := mkProbe { probe_key : Key; initial : bool; refresh_allowed : bool; finished : bool }.
Record RelayProcess := mkProcess {
  gate : Gate;
  clock : Instant;
  next_probe : Z;
  (** Ids taken by threads that have not reached the gate yet. *)
  starting : gset Z;
  probes : gmap Z Probe;
}.
Definition relay_start (now : Instant) : RelayProcess := mkProcess ∅ now 1 ∅ ∅.

Inductive RelayEvent :=
  | Pass (d : Duration)
  | Reserve
  | Begin (id : Z) (k : Key) (random : Z)
  | Reject (id status random : Z)
  | Succeed (id : Z)
  | DropProbe (id : Z)
  | TakeRefresh (k : Key)
  | AfterRefresh (previous refreshed : Key)
  | Reset_.

Definition relay_finish (id : Z) (pr : Probe) (p : RelayProcess) : RelayProcess :=
  p {{ probes := (<[id := pr {{ finished := true }}]> (probes p) : gmap Z Probe) }}.
(** [Probe::begin], once its id is taken. *)
Definition begin_ (id : Z) (k : Key) (random : Z) (p : RelayProcess) : RelayProcess :=
  let '(r, g) := admit_binding k (clock p) id random (gate p) in
  let p := p {{ gate := g }} {{ starting := (starting p ∖ {[id]} : gset Z) }} in
  match r with
  | inl _ => p
  | inr (initial, refresh_allowed) =>
      p {{ probes := (<[id := mkProbe k initial refresh_allowed false]> (probes p) : gmap Z Probe) }}
  end.
Definition drop_probe (id : Z) (pr : Probe) (p : RelayProcess) : RelayProcess :=
  p {{ gate := if finished pr then gate p else release (probe_key pr) id (gate p) }}
    {{ probes := (delete id (probes p) : gmap Z Probe) }}.

(** The process after an event, unless no thread can make it: a thread reports
    at most one outcome of its probe (snapshot_client.rs, control.rs). *)
Definition relay_step (e : RelayEvent) (p : RelayProcess) : option RelayProcess :=
  match e with
  | Pass d => if 0 <=? d then Some (p {{ clock := clock p + d }}) else None
  | Reserve =>
      if next_probe p <? umax 64
      then Some (p {{ next_probe := next_probe p + 1 }} {{ starting := ({[next_probe p]} ∪ starting p : gset Z) }}) else None
  | Begin id k random => if bool_decide (id ∈ starting p) then Some (begin_ id k random p) else None
  | Reject id status random =>
      try? pr := probes p !! id in
      if finished pr then None else
      Some (relay_finish id pr (p {{ gate := reject_binding (probe_key pr) status (clock p) random (initial pr) (refresh_allowed pr) (gate p) }}))
  | Succeed id =>
      try? pr := probes p !! id in
      if finished pr then None else
      Some (relay_finish id pr (p {{ gate := (delete (probe_key pr) (gate p) : Gate) }}))
  | DropProbe id => try? pr := probes p !! id in Some (drop_probe id pr p)
  | TakeRefresh k => Some (p {{ gate := (take_setup_refresh k (gate p)).2 }})
  | AfterRefresh previous refreshed => Some (p {{ gate := retry_after_setup_refresh previous refreshed (gate p) }})
  | Reset_ => Some (p {{ gate := (∅ : Gate) }})
  end.
Fixpoint relay_run (events : list RelayEvent) (p : RelayProcess) : option RelayProcess :=
  match events with [] => Some p | e :: events => try? p := relay_step e p in relay_run events p end.

(** ** The ladder of waits *)
Lemma ceiling_bounds n : secs 300 <= ceiling n <= secs 3600.
Proof.
  unfold ceiling, BASE, CAP, DURATION_MAX, secs, saturating_sub.
  assert (1 <= 2 ^ Z.min (Z.max 0 (n - 1)) 16) by (apply (Z.pow_le_mono_r 2 0); lia). lia.
Qed.
Lemma ceiling_monotone n m : n <= m -> ceiling n <= ceiling m.
Proof.
  intros Hn. unfold ceiling, BASE, CAP, DURATION_MAX, secs, saturating_sub.
  assert (2 ^ Z.min (Z.max 0 (n - 1)) 16 <= 2 ^ Z.min (Z.max 0 (m - 1)) 16) by (apply Z.pow_le_mono_r; lia). lia.
Qed.
Lemma ceiling_full n : 5 <= n -> ceiling n = secs 3600.
Proof.
  intros Hn. pose proof (ceiling_bounds n). pose proof (ceiling_monotone 5 n Hn) as Hm. change (ceiling 5) with (secs 3600) in Hm. lia.
Qed.
Lemma half_ceiling_bounds n : secs 150 <= half_ceiling n /\ 2 * half_ceiling n <= ceiling n.
Proof.
  unfold half_ceiling. pose proof (ceiling_bounds n). unfold secs in *.
  pose proof (Z.div_mod (ceiling n) 2 ltac:(lia)). pose proof (Z.mod_pos_bound (ceiling n) 2 ltac:(lia)). lia.
Qed.
Lemma half_ceiling_monotone n m : n <= m -> half_ceiling n <= half_ceiling m.
Proof. intros. apply Z.div_le_mono; [lia|by apply ceiling_monotone]. Qed.
Lemma wait_bounds n r : half_ceiling n <= wait n r <= CAP.
Proof.
  unfold wait. pose proof (half_ceiling_bounds n). pose proof (ceiling_bounds n). unfold CAP, secs in *.
  pose proof (Z.mod_pos_bound r (half_ceiling n + 1) ltac:(lia)). lia.
Qed.

(** ** Room *)
Lemma oldest_in g k : oldest g = Some k -> is_Some (g !! k).
Proof.
  unfold oldest. intros (e & He & ->)%fmap_Some.
  assert (Hin : forall (l : list (Key * Rejected)) (best : option (Key * Rejected)) e,
    foldl (fun best e => match best with None => Some e | Some b => Some (if sooner e b then e else b) end) best l = Some e ->
    e ∈ l \/ best = Some e).
  { clear. intros l. induction l as [|x l IH]; intros best e He; [by right|]. apply IH in He as [He|He]; [left; by right|].
    destruct best as [b|]; [|injection He as ->; left; by left].
    destruct (sooner x b); injection He as <-; [left; by left|by right]. }
  apply Hin in He as [He|He]; [|done]. destruct e as [k r]. apply elem_of_map_to_list in He. by exists r.
Qed.
Lemma make_room_spec k g k' : make_room k g !! k' = g !! k' \/ (make_room k g !! k' = None /\ k' <> k).
Proof.
  unfold make_room. destruct (_ && _) eqn:Eb; [apply andb_prop in Eb as [_ Eb%bool_decide_eq_true]|by left]. destruct (oldest g) as [o|] eqn:Eo; [|by left].
  destruct (decide (k' = o)) as [->|]; [|rewrite lookup_delete_ne by done; by left].
  rewrite lookup_delete_eq. right. split; [done|]. intros ->.
  apply oldest_in in Eo as [? Eo]. congruence.
Qed.
Lemma make_room_same k g : make_room k g !! k = g !! k.
Proof. by destruct (make_room_spec k g k) as [?|[_ ?]]. Qed.

Lemma oldest_some g : g <> ∅ -> is_Some (oldest g).
Proof.
  intros Hg. unfold oldest. apply fmap_is_Some. rewrite <-map_to_list_empty_iff in Hg.
  destruct (map_to_list g) as [|e l]; [done|]. cbn. generalize e. clear. induction l as [|x l IH]; intros e; [by eexists|]. cbn. apply IH.
Qed.
Lemma size_make_room k held g : (size g <= MAX_BINDINGS)%nat -> (size (<[k := held]> (make_room k g)) <= MAX_BINDINGS)%nat.
Proof.
  intros Hs. destruct (g !! k) as [old|] eqn:Ek.
  - rewrite map_size_insert_Some by (rewrite make_room_same, Ek; done).
    unfold make_room. rewrite Ek, (bool_decide_eq_false_2 (Some old = None)), andb_false_r by done. done.
  - rewrite map_size_insert_None by (by rewrite make_room_same). unfold make_room.
    rewrite Ek, (bool_decide_eq_true_2 (None = None)), andb_true_r by done. case_bool_decide as Hf; [|lia].
    assert (g <> ∅) as Hne by (intros ->; rewrite map_size_empty in Hf; unfold MAX_BINDINGS in Hf; lia).
    destruct (oldest_some g Hne) as [o Eo]. rewrite Eo. apply oldest_in in Eo.
    rewrite map_size_delete_Some by done. unfold MAX_BINDINGS in *. lia.
Qed.

(** ** The invariant of a process *)
Definition owner (ps : gmap Z Probe) (k : Key) (id : Z) : Prop :=
  exists pr, ps !! id = Some pr /\ probe_key pr = k /\ initial pr = false /\ finished pr = false.
Definition entry_ok (now : Instant) (own : Key -> Z -> Prop) (k : Key) (held : Rejected) : Prop :=
  until held <= now + CAP /\ forall id, probing held = Some id -> own k id.
Record sound (p : RelayProcess) : Prop := {
  entries_ok : map_Forall (entry_ok (clock p) (owner (probes p))) (gate p);
  ids_taken : forall id, id ∈ starting p \/ is_Some (probes p !! id) -> id < next_probe p;
  ids_apart : forall id, id ∈ starting p -> probes p !! id = None;
  room : (size (gate p) <= MAX_BINDINGS)%nat;
}.
Lemma entry_ok_weaken now now' (own own' : Key -> Z -> Prop) k held :
  entry_ok now own k held -> now <= now' -> (forall id, own k id -> own' k id) -> entry_ok now' own' k held.
Proof. intros [Hu Ho] Hn Hw. split; [lia|]. intros id Hid. by apply Hw, Ho. Qed.

Lemma make_room_Forall (P : Key -> Rejected -> Prop) k g : map_Forall P g -> map_Forall P (make_room k g).
Proof. intros Hg k' held Hk. destruct (make_room_spec k g k') as [E|[E _]]; rewrite E in Hk; [by apply Hg|done]. Qed.

Lemma start_sound now : sound (relay_start now).
Proof.
  split; cbn; [apply map_Forall_empty|intros id [?%not_elem_of_empty|[? ?]]; done|by intros id ?%not_elem_of_empty|].
  rewrite map_size_empty. unfold MAX_BINDINGS. lia.
Qed.

(** ** What each operation leaves in the gate *)
Lemma admit_entries now own k id r (own' : Key -> Z -> Prop) g answer g' :
  admit_binding k now id r g = (answer, g') -> map_Forall (entry_ok now own) g ->
  (forall k' id', own k' id' -> own' k' id') -> (forall rf, answer = inr (false, rf) -> own' k id) ->
  map_Forall (entry_ok now own') g'.
Proof.
  intros Ha Hg Hw Hid. assert (map_Forall (entry_ok now own') g) as Hg'.
  { eapply map_Forall_impl; [exact Hg|]. intros k' held Hk. eapply entry_ok_weaken; [done|lia|naive_solver]. }
  unfold admit_binding in Ha. destruct (g !! k) as [held|]; [|by injection Ha as _ <-].
  destruct (_ || _); injection Ha as <- <-; [done|]. apply map_Forall_insert_2; [|done]. split; cbn.
  - pose proof (wait_bounds (failures held) r). lia.
  - intros id' [= <-]. by eapply Hid.
Qed.
Lemma reject_entries now own k st r i rf (own' : Key -> Z -> Prop) g :
  map_Forall (entry_ok now own) g ->
  (forall k' id', own k' id' -> k' <> k \/ i = true -> own' k' id') ->
  map_Forall (entry_ok now own') (reject_binding k st now r i rf g).
Proof.
  intros Hg Hw. unfold reject_binding. destruct (i && _) eqn:Ei.
  - apply andb_prop in Ei as [-> _]. eapply map_Forall_impl; [exact Hg|]. intros k' held Hk.
    eapply entry_ok_weaken; [done|lia|]. intros id' Ho. apply Hw; [done|by right].
  - intros k' held Hk. apply lookup_insert_Some in Hk as [[<- <-]|[Hne Hk]].
    + split; cbn; [|done]. match goal with |- context [wait ?n r] => pose proof (wait_bounds n r) end. lia.
    + apply (make_room_Forall _ _ _ Hg) in Hk. eapply entry_ok_weaken; [done|lia|]. intros id' Ho. apply Hw; [done|by left].
Qed.
Lemma release_entries now own k id (own' : Key -> Z -> Prop) g :
  map_Forall (entry_ok now own) g ->
  (forall k' id', own k' id' -> k' <> k \/ id' <> id -> own' k' id') ->
  map_Forall (entry_ok now own') (release k id g).
Proof.
  intros Hg Hw k' held Hk. unfold release in Hk. destruct (g !! k) as [old|] eqn:Eo.
  - destruct (decide (probing old = Some id)) as [Ep|Ep]; [rewrite bool_decide_eq_true_2 in Hk by done|rewrite bool_decide_eq_false_2 in Hk by done].
    + apply lookup_insert_Some in Hk as [[<- <-]|[Hne Hk]].
      * destruct (Hg _ _ Eo). by destruct old.
      * eapply entry_ok_weaken; [by apply Hg|lia|]. intros id' Ho. apply Hw; [done|by left].
    + destruct (Hg _ _ Hk) as [Hu Ho]. split; [done|]. intros id' Hid. apply Hw; [by apply Ho|].
      destruct (decide (k' = k)) as [->|]; [right|by left]. intros ->. congruence.
  - destruct (Hg _ _ Hk) as [Hu Ho]. split; [done|]. intros id' Hid. apply Hw; [by apply Ho|left]. by intros ->; congruence.
Qed.
Lemma take_entries now own k g : map_Forall (entry_ok now own) g -> map_Forall (entry_ok now own) (take_setup_refresh k g).2.
Proof.
  intros Hg. unfold take_setup_refresh. destruct (g !! k) as [held|] eqn:Ek; [|done].
  apply map_Forall_insert_2; [|done]. destruct (Hg _ _ Ek). by destruct held.
Qed.
Lemma retry_entries now own k k' g : map_Forall (entry_ok now own) g -> map_Forall (entry_ok now own) (retry_after_setup_refresh k k' g).
Proof.
  intros Hg. unfold retry_after_setup_refresh. destruct (g !! k) as [held|] eqn:Ek; [|done].
  assert (entry_ok now own k (held {{ refresh_available := false }})) as Hheld by (destruct (Hg _ _ Ek); by destruct held).
  set (previous := held {{ refresh_available := false }}) in *. clearbody previous.
  assert (map_Forall (entry_ok now own) (make_room k' (<[k := previous]> g))) as Hroom
    by (by apply make_room_Forall, map_Forall_insert_2).
  apply map_Forall_insert_2; [|done].
  destruct (_ !! k') as [refreshed|] eqn:Er.
  - destruct (Hroom _ _ Er) as [Hu Ho], Hheld as [Hp _]. split; cbn; [lia|done].
  - destruct Hheld as [Hp _]. destruct previous. cbn in *. split; cbn; [lia|done].
Qed.

Lemma size_insert_held (k : Key) (held new : Rejected) (g : Gate) : g !! k = Some held -> size (<[k := new]> g) = size g.
Proof. intros Hk. apply map_size_insert_Some. by exists held. Qed.
Lemma admit_size k now id r g : size (admit_binding k now id r g).2 = size g.
Proof.
  unfold admit_binding. destruct (g !! k) as [held|] eqn:Ek; [|done]. destruct (_ || _); [done|]. by eapply size_insert_held.
Qed.
Lemma release_size k id g : size (release k id g) = size g.
Proof.
  unfold release. destruct (g !! k) as [held|] eqn:Ek; [|done]. case_bool_decide; [|done]. by eapply size_insert_held.
Qed.
Lemma take_size k g : size (take_setup_refresh k g).2 = size g.
Proof. unfold take_setup_refresh. destruct (g !! k) as [held|] eqn:Ek; [|done]. by eapply size_insert_held. Qed.
Lemma reject_size k st now r i rf g : (size g <= MAX_BINDINGS)%nat -> (size (reject_binding k st now r i rf g) <= MAX_BINDINGS)%nat.
Proof. intros Hg. unfold reject_binding. destruct (i && _); [done|]. by apply size_make_room. Qed.
Lemma retry_size k k' g : (size g <= MAX_BINDINGS)%nat -> (size (retry_after_setup_refresh k k' g) <= MAX_BINDINGS)%nat.
Proof.
  intros Hg. unfold retry_after_setup_refresh. destruct (g !! k) as [held|] eqn:Ek; [|done].
  apply size_make_room. by erewrite size_insert_held.
Qed.

(** Record updates of destructed records. *)
Ltac updated := cbn in *; unfold constant in *.

(** ** Every event keeps the invariant *)
Lemma owner_insert ps k id id' pr : owner ps k id -> id <> id' -> owner (<[id' := pr]> ps) k id.
Proof. intros (pr0 & Hp & ?) Hne. exists pr0. by rewrite lookup_insert_ne. Qed.
Lemma owner_delete ps k id id' : owner ps k id -> id <> id' -> owner (delete id' ps) k id.
Proof. intros (pr0 & Hp & ?) Hne. exists pr0. by rewrite lookup_delete_ne. Qed.
Lemma owner_other ps k id k' id' pr : owner ps k' id' -> ps !! id = Some pr -> probe_key pr = k ->
  k' <> k \/ initial pr = true \/ finished pr = true -> id' <> id.
Proof.
  intros (pr0 & Hp & Hk & Hi & Hf) Hpr Hpk Hne ->. rewrite Hpr in Hp. injection Hp as <-. destruct Hne as [?|[?|?]]; congruence.
Qed.

(** A probe that ends, finished or dropped: markers of other probes keep their owners. *)
Lemma finish_sound p id pr g : sound p -> probes p !! id = Some pr ->
  map_Forall (entry_ok (clock p) (owner (<[id := pr {{ finished := true }}]> (probes p)))) g -> (size g <= MAX_BINDINGS)%nat ->
  sound (relay_finish id pr (p {{ gate := g }})).
Proof.
  intros [He Ht Ha Hr] Hpr Hg Hs. destruct p as [g0 c n st ps]. destruct pr as [pk pi prf pf].
  unfold relay_finish. updated. split; [exact Hg| |  |exact Hs].
  - intros id' [Hid|[pr' Hid]]; cbn in Hid; apply Ht; [by left|right]. apply lookup_insert_Some in Hid as [[<- _]|[_ Hid]]; by eexists.
  - intros id' Hid. cbn. rewrite lookup_insert_ne; [by apply Ha|]. intros <-. by rewrite Ha in Hpr.
Qed.

Lemma begin_sound p id k r : sound p -> id ∈ starting p -> sound (begin_ id k r p).
Proof.
  intros [He Ht Ha Hr] Hid. destruct p as [g c n st ps]. unfold begin_. updated.
  destruct (admit_binding k c id r g) as [answer g'] eqn:Eg. pose proof (admit_size k c id r g) as Hs. rewrite Eg in Hs. cbn in Hs.
  assert (ps !! id = None) as Hnone by (by apply Ha).
  assert (forall k' id', owner ps k' id' -> id' <> id) as Hne by (intros k' id' (pr & Hp & _) ->; congruence).
  destruct answer as [refused|[i rf]]; updated.
  - split; cbn; [|set_solver|set_solver|lia]. by eapply admit_entries; [exact Eg|exact He|done|].
  - split; cbn; [| | |lia].
    + eapply admit_entries; [exact Eg|exact He|intros k' id' Ho; apply owner_insert; [done|by eapply Hne]|].
      intros rf' [= -> ->]. exists (mkProbe k false rf' false). by rewrite lookup_insert_eq.
    + intros id' [Hin|[pr Hin]]; [apply Ht; set_solver|]. apply lookup_insert_Some in Hin as [[<- _]|[_ Hin]]; apply Ht; [by left|right; by eexists].
    + intros id' [Hin Hne']%elem_of_difference. rewrite lookup_insert_ne by set_solver. by apply Ha.
Qed.
Lemma reserve_sound p : sound p -> sound (p {{ next_probe := next_probe p + 1 }} {{ starting := ({[next_probe p]} ∪ starting p : gset Z) }}).
Proof.
  intros [He Ht Ha Hr]. destruct p as [g c n st ps]. updated. split; cbn; [done| | |done].
  - intros id [[->%elem_of_singleton|Hin]%elem_of_union|Hin]; [lia|pose proof (Ht id (or_introl Hin)); lia|pose proof (Ht id (or_intror Hin)); lia].
  - intros id [->%elem_of_singleton|Hin]%elem_of_union; [|by apply Ha].
    destruct (ps !! n) as [pr|] eqn:Ep; [|done]. pose proof (Ht n (or_intror (ex_intro _ pr Ep))). lia.
Qed.
Lemma with_gate_sound p g : sound p -> map_Forall (entry_ok (clock p) (owner (probes p))) g -> (size g <= MAX_BINDINGS)%nat ->
  sound (p {{ gate := g }}).
Proof. intros [He Ht Ha Hr] Hg Hs. by destruct p. Qed.

Lemma drop_sound p id pr : sound p -> probes p !! id = Some pr -> sound (drop_probe id pr p).
Proof.
  intros [He Ht Ha Hr] Hpr. destruct p as [g c n st ps]. unfold drop_probe. updated. split; cbn.
  - destruct (finished pr) eqn:Ef; cbn.
    + eapply map_Forall_impl; [exact He|]. intros k held Hk. eapply entry_ok_weaken; [done|lia|].
      intros id' Ho. apply owner_delete; [done|]. eapply owner_other; [exact Ho|exact Hpr|done|auto].
    + eapply release_entries; [exact He|]. intros k' id' Ho Hne. apply owner_delete; [done|].
      destruct Hne as [Hne|Hne]; [|done]. eapply owner_other; [exact Ho|exact Hpr|done|by left].
  - intros id' [Hin|[pr' Hin]]; apply Ht; [by left|right]. apply lookup_delete_Some in Hin as [_ Hin]. by exists pr'.
  - intros id' Hin. rewrite lookup_delete_None. right. by apply Ha.
  - destruct (finished pr); [done|by rewrite release_size].
Qed.

Lemma step_sound e p p' : relay_step e p = Some p' -> sound p -> sound p'.
Proof.
  intros Hs Hp. destruct e as [d| |id k r|id st r|id|id|k|k k'|]; cbn in Hs.
  - destruct (Z.leb_spec 0 d) as [Hd|]; [|done]. injection Hs as <-. destruct Hp as [He Ht Ha Hr]. destruct p as [g c n st ps]. updated. split; cbn; [|done..].
    eapply map_Forall_impl; [exact He|]. intros k held Hk. by eapply entry_ok_weaken; [done|lia|].
  - destruct (_ <? _); [|done]. injection Hs as <-. by apply reserve_sound.
  - case_bool_decide; [|done]. injection Hs as <-. by apply begin_sound.
  - destruct (probes p !! id) as [pr|] eqn:Epr; [|done]. destruct (finished pr) eqn:Ef; [done|]. injection Hs as <-. apply finish_sound; [done..| |by apply reject_size, Hp].
    eapply reject_entries; [apply Hp|]. intros k' id' Ho Hne. apply owner_insert; [done|].
    eapply owner_other; [exact Ho|exact Epr|done|]. destruct Hne; auto.
  - destruct (probes p !! id) as [pr|] eqn:Epr; [|done]. destruct (finished pr) eqn:Ef; [done|]. injection Hs as <-. apply finish_sound; [done..| |].
    + intros k held [Hne Hk]%lookup_delete_Some. eapply entry_ok_weaken; [by apply Hp|lia|].
      intros id' Ho. apply owner_insert; [done|]. eapply owner_other; [exact Ho|exact Epr|done|by left].
    + pose proof (room _ Hp). destruct (gate p !! probe_key pr) eqn:Ek; [rewrite map_size_delete_Some by (by eexists)|rewrite map_size_delete_None by done]; lia.
  - destruct (probes p !! id) as [pr|] eqn:Epr; [|done]. injection Hs as <-. by apply drop_sound.
  - injection Hs as <-. apply with_gate_sound; [done|apply take_entries, Hp|rewrite take_size; apply Hp].
  - injection Hs as <-. apply with_gate_sound; [done|apply retry_entries, Hp|apply retry_size, Hp].
  - injection Hs as <-. apply with_gate_sound; [done|apply map_Forall_empty|rewrite map_size_empty; unfold MAX_BINDINGS; lia].
Qed.
Lemma run_sound es p p' : relay_run es p = Some p' -> sound p -> sound p'.
Proof.
  revert p. induction es as [|e es IH]; intros p; cbn; [by intros [= ->]|].
  destruct (relay_step e p) as [p1|] eqn:E; [|done]. intros Hr Hp. apply (IH p1 Hr). by eapply step_sound.
Qed.
