(* ===== verification/RelayTheorems.v ===== *)
(** The relay gate's contract, over every run of the process: suppression ends,
    probes are single and spaced, refreshes are paid for, bindings are apart.
    Two bindings share a key only when what they bind agrees, or SHA-256
    collides on what is hashed. *)
From stdpp Require Import gmap.
From S2P Require Import Prelude.
From S2P Require Import Text.
From S2P Require Import Std.
From S2P Require Import DurableTypes.
From S2P Require Import Chars.
From S2P Require Import RelayAuth.
From coqutil Require Import Datatypes.RecordSetters.
Import DoubleBraceUpdate.
Local Open Scope Z_scope.

(** ** Suppression ends *)
(** C10: No binding is wedged: once its probes have ended, an hour admits its
    next request, whatever was rejected, refreshed, reset or dropped before. *)
Theorem no_binding_wedged es now p k id r : relay_run es (relay_start now) = Some p ->
  (forall id pr, probes p !! id = Some pr -> probe_key pr = k -> finished pr = true) ->
  exists answer, (admit_binding k (clock p + CAP) id r (gate p)).1 = inr answer.
Proof.
  intros Hr Hended. apply run_sound in Hr; [|apply start_sound]. unfold admit_binding.
  destruct (gate p !! k) as [held|] eqn:Ek; [|by eexists]. destruct (entries_ok _ Hr _ _ Ek) as [Hu Ho].
  destruct (probing held) as [owner_id|]; [|rewrite (bool_decide_eq_false_2 (is_Some None)) by (by intros [])].
  - destruct (Ho _ eq_refl) as (pr & Hp & Hk & _ & Hf). by rewrite (Hended _ _ Hp Hk) in Hf.
  - rewrite (proj2 (Z.ltb_ge _ _) Hu), andb_false_r. by eexists.
Qed.

(** ** Single flight *)
Definition removed (k : Key) (p p' : RelayProcess) : nat :=
  if bool_decide (is_Some (gate p !! k)) && bool_decide (gate p' !! k = None) then 1%nat else 0%nat.
(** How often the entry of [k] left the gate in a run. *)
Fixpoint removals (k : Key) (es : list RelayEvent) (p : RelayProcess) : nat :=
  match es with
  | [] => 0%nat
  | e :: es => match relay_step e p with Some p' => (removed k p p' + removals k es p')%nat | None => 0%nat end
  end.
(** Requests in flight for [k] that were admitted as probes. *)
Definition flying (k : Key) (pr : Probe) : Prop := probe_key pr = k /\ initial pr = false /\ finished pr = false.
#[local] Instance flying_dec k pr : Decision (flying k pr) := _.
Definition strays (k : Key) (marker : option Z) (ps : gmap Z Probe) : gset Z :=
  dom (filter (fun e => flying k e.2 /\ marker <> Some e.1) ps).
Definition flights (k : Key) (p : RelayProcess) : nat := size (strays k None (probes p)).
Definition marker (k : Key) (p : RelayProcess) : option Z := gate p !! k ≫= probing.

Lemma elem_of_strays k m ps id : id ∈ strays k m ps <-> exists pr, ps !! id = Some pr /\ flying k pr /\ m <> Some id.
Proof.
  unfold strays. rewrite elem_of_dom. split.
  - intros [pr [Hp [Hf Hm]]%map_lookup_filter_Some]. by exists pr.
  - intros (pr & Hp & Hf & Hm). exists pr. by apply map_lookup_filter_Some.
Qed.
Lemma strays_empty k m : strays k m ∅ = ∅.
Proof. apply set_eq. intros id. split; [|by intros ?%not_elem_of_empty]. by intros (pr & Hp & _)%elem_of_strays. Qed.
Lemma strays_any k m ps : strays k m ps ⊆ strays k None ps.
Proof. intros id (pr & Hp & Hf & _)%elem_of_strays. by apply elem_of_strays; exists pr. Qed.
Lemma strays_finish k m ps id pr : strays k m (<[id := pr {{ finished := true }}]> ps) ⊆ strays k m ps ∖ {[id]}.
Proof.
  intros x (pr' & Hp & Hf & Hm)%elem_of_strays. apply lookup_insert_Some in Hp as [[<- <-]|[Hne Hp]].
  - destruct Hf as (_ & _ & Hf). by destruct pr.
  - apply elem_of_difference. split; [by apply elem_of_strays; exists pr'|set_solver].
Qed.
Lemma strays_delete k m ps id : strays k m (delete id ps) ⊆ strays k m ps ∖ {[id]}.
Proof.
  intros x (pr' & [Hne Hp]%lookup_delete_Some & Hf & Hm)%elem_of_strays.
  apply elem_of_difference. split; [by apply elem_of_strays; exists pr'|set_solver].
Qed.
Lemma strays_insert k m ps id pr : ~ flying k pr \/ m = Some id -> strays k m (<[id := pr]> ps) ⊆ strays k None ps.
Proof.
  intros Hpr x (pr' & Hp & Hf & Hm)%elem_of_strays. apply lookup_insert_Some in Hp as [[<- <-]|[Hne Hp]].
  - destruct Hpr as [?| ->]; by congruence || done.
  - by apply elem_of_strays; exists pr'.
Qed.
Lemma strays_unmark k m ps : (size (strays k None ps) <= 1 + size (strays k m ps))%nat.
Proof.
  destruct m as [id|]; [|lia]. assert (strays k None ps ⊆ {[id]} ∪ strays k (Some id) ps) as Hs.
  { intros x (pr & Hp & Hf & _)%elem_of_strays. destruct (decide (x = id)) as [->|]; [set_solver|].
    apply elem_of_union_r, elem_of_strays. exists pr. split_and!; [done..|congruence]. }
  apply subseteq_size in Hs. rewrite size_union_alt, size_singleton in Hs.
  pose proof (subseteq_size (strays k (Some id) ps ∖ {[id]}) (strays k (Some id) ps) ltac:(set_solver)). lia.
Qed.
(** What a step may do to the strays of [k]. *)
Definition strays_kept (k : Key) (p p' : RelayProcess) : Prop :=
  (size (strays k (marker k p') (probes p')) <= size (strays k (marker k p) (probes p)) + removed k p p')%nat.
Lemma marker_kept_same k p p' : gate p' !! k = gate p !! k -> strays k (marker k p') (probes p') ⊆ strays k (marker k p) (probes p) ->
  strays_kept k p p'.
Proof. intros Hg Hs%subseteq_size. unfold strays_kept. lia. Qed.
Lemma kept_subset k p p' : strays k (marker k p') (probes p') ⊆ strays k (marker k p) (probes p) -> strays_kept k p p'.
Proof. intros Hs%subseteq_size. unfold strays_kept. lia. Qed.
Lemma kept_absent k p p' : gate p !! k = None \/ gate p' !! k = None ->
  strays k None (probes p') ⊆ strays k None (probes p) -> strays_kept k p p'.
Proof.
  intros Hg Hs. unfold strays_kept, marker. destruct (gate p !! k) as [held|] eqn:Ek.
  - destruct Hg as [?|Hg]; [done|]. unfold removed. rewrite Ek, Hg, (bool_decide_eq_true_2 (is_Some (Some held))) by done.
    apply subseteq_size in Hs. pose proof (strays_unmark k (probing held) (probes p)). cbn in *. lia.
  - pose proof (subseteq_size _ _ (strays_any k (gate p' !! k ≫= probing) (probes p'))). apply subseteq_size in Hs. cbn in *. lia.
Qed.
Lemma flights_strays k p : (flights k p <= 1 + size (strays k (marker k p) (probes p)))%nat.
Proof. apply strays_unmark. Qed.

(** ** Each event keeps the tally *)
Lemma begin_kept k p id k2 r : sound p -> id ∈ starting p -> strays_kept k p (begin_ id k2 r p).
Proof.
  intros Hp Hid. pose proof (ids_apart _ Hp _ Hid) as Hfresh. destruct p as [g c n st ps]. cbn in *.
  unfold begin_, admit_binding. cbn. destruct (g !! k2) as [held|] eqn:Ek2.
  - destruct (bool_decide (is_Some (probing held)) || _) eqn:Eb; cbn; [by apply marker_kept_same|]. updated.
    apply orb_false_elim in Eb as [Eb%bool_decide_eq_false _].
    destruct (decide (k2 = k)) as [->|Hne].
    + apply kept_subset. unfold marker. cbn. rewrite lookup_insert_eq, Ek2. cbn.
      destruct (probing held) as [x|]; [by destruct Eb; eexists|]. apply strays_insert. by right.
    + apply marker_kept_same; cbn; [by rewrite lookup_insert_ne|]. unfold marker. cbn. rewrite lookup_insert_ne by done.
      intros x (pr & Hl & Hf & Hm)%elem_of_strays. apply lookup_insert_Some in Hl as [[<- <-]|[_ Hl]].
      * by destruct Hf as [? _].
      * apply elem_of_strays. by exists pr.
  - cbn. updated. apply marker_kept_same; cbn; [done|]. unfold marker. cbn.
    intros x (pr & Hl & Hf & Hm)%elem_of_strays. apply lookup_insert_Some in Hl as [[<- <-]|[_ Hl]].
    + by destruct Hf as (_ & ? & _).
    + apply elem_of_strays. by exists pr.
Qed.
Lemma reject_lookup_ne k k2 st now r i rf g : k2 <> k ->
  reject_binding k2 st now r i rf g !! k = g !! k \/ reject_binding k2 st now r i rf g !! k = None.
Proof.
  intros Hne. unfold reject_binding. destruct (i && _); [by left|]. rewrite lookup_insert_ne by done.
  destruct (make_room_spec k2 g k) as [?|[? _]]; [by left|by right].
Qed.
Lemma finish_none k ps id pr : strays k None (<[id := pr {{ finished := true }}]> ps) ⊆ strays k None ps.
Proof. by intros x [? _]%strays_finish%elem_of_difference. Qed.
(** A probe that finishes: its key's marker goes, and no other marker. *)
Lemma finish_kept k p id pr g : probes p !! id = Some pr -> finished pr = false ->
  (g !! k = gate p !! k \/ (gate p !! k = None \/ g !! k = None) \/
   probe_key pr = k /\ initial pr = false /\ exists held, g !! k = Some held /\ probing held = None) ->
  strays_kept k p (relay_finish id pr (p {{ gate := g }})).
Proof.
  intros Hp Hf Hg. unfold relay_finish. destruct p as [g0 c n st ps].
  pose proof (fun m => strays_finish k m ps id pr) as Hfin. pose proof (finish_none k ps id pr) as Hnone.
  destruct pr as [pk pi prf pf]. updated. set (ps' := <[id := mkProbe pk pi prf true]> ps) in *. clearbody ps'.
  destruct Hg as [Hg|[Hg|(Hk & Hi & held & Hg & Hm)]].
  - apply marker_kept_same; cbn; [done|]. unfold marker. cbn. rewrite Hg. by intros x [? _]%Hfin%elem_of_difference.
  - by apply kept_absent.
  - destruct (g0 !! k) as [held0|] eqn:Ek0; [|by apply kept_absent; [left|]].
    unfold strays_kept, marker. cbn. rewrite Hg, Ek0. cbn. rewrite Hm.
    pose proof (Hfin None) as Hs%subseteq_size.
    destruct (decide (probing held0 = Some id)) as [E|E].
    + assert (strays k None ps ∖ {[id]} ⊆ strays k (probing held0) ps) as Hs'%subseteq_size; [|lia].
      intros x [(pr' & ? & ? & _)%elem_of_strays ?]%elem_of_difference. apply elem_of_strays. exists pr'. set_solver.
    + assert (id ∈ strays k None ps) as Hin by (apply elem_of_strays; by exists (mkProbe pk pi prf pf)).
      rewrite size_difference in Hs by set_solver. rewrite size_singleton in Hs.
      pose proof (strays_unmark k (probing held0) ps). lia.
Qed.
Lemma reject_kept k p id pr st r : probes p !! id = Some pr -> finished pr = false ->
  strays_kept k p (relay_finish id pr (p {{ gate := reject_binding (probe_key pr) st (clock p) r (initial pr) (refresh_allowed pr) (gate p) }})).
Proof.
  intros Hp Hf. apply finish_kept; [done..|]. destruct (decide (probe_key pr = k)) as [Hk|Hne].
  - rewrite Hk. unfold reject_binding. destruct (initial pr) eqn:Ei; cbn.
    + case_bool_decide as Hc; [by left|]. right; left; left. by apply eq_None_not_Some.
    + right; right. split; [done|]. split; [done|]. eexists. by rewrite lookup_insert_eq.
  - destruct (reject_lookup_ne k (probe_key pr) st (clock p) r (initial pr) (refresh_allowed pr) (gate p) Hne); auto.
Qed.
Lemma succeed_kept k p id pr : probes p !! id = Some pr -> finished pr = false ->
  strays_kept k p (relay_finish id pr (p {{ gate := (delete (probe_key pr) (gate p) : Gate) }})).
Proof.
  intros Hp Hf. apply finish_kept; [done..|]. destruct (decide (probe_key pr = k)) as [->|Hne].
  - right; left; right. by rewrite lookup_delete_eq.
  - left. by rewrite lookup_delete_ne.
Qed.
Lemma drop_kept k p id pr : probes p !! id = Some pr -> strays_kept k p (drop_probe id pr p).
Proof.
  intros Hp. unfold drop_probe. destruct p as [g c n st ps]. updated.
  assert (forall m, strays k m (delete id ps) ⊆ strays k m ps) as Hd by (by intros m x [? _]%strays_delete%elem_of_difference).
  destruct (finished pr) eqn:Ef; [by apply marker_kept_same; [|apply Hd]|]. unfold release.
  destruct (g !! probe_key pr) as [held|] eqn:Eg; [|by apply marker_kept_same; [|apply Hd]].
  case_bool_decide as Hm; [|by apply marker_kept_same; [|apply Hd]].
  destruct (decide (probe_key pr = k)) as [<-|Hne].
  - apply kept_subset. unfold marker. cbn. rewrite lookup_insert_eq, Eg. cbn. rewrite Hm.
    destruct held. cbn. intros x [(pr' & Hl & Hf & _)%elem_of_strays Hne]%strays_delete%elem_of_difference.
    apply elem_of_strays. exists pr'. set_solver.
  - apply marker_kept_same; cbn; [by rewrite lookup_insert_ne|]. unfold marker. cbn. rewrite lookup_insert_ne by done. apply Hd.
Qed.
(** An operation that only leaves markers or removes entries. *)
Definition markers_left (k : Key) (g g' : Gate) : Prop := g' !! k = None \/ g' !! k ≫= probing = g !! k ≫= probing.
Lemma with_gate_kept k p g : markers_left k (gate p) g -> strays_kept k p (p {{ gate := g }}).
Proof.
  intros Hg. destruct p as [g0 c n st ps]. updated. destruct Hg as [Hg|Hg].
  - apply kept_absent; [by right|done].
  - apply kept_subset. unfold marker. cbn. by rewrite Hg.
Qed.
Lemma take_markers k k2 g : markers_left k g (take_setup_refresh k2 g).2.
Proof.
  right. unfold take_setup_refresh. destruct (g !! k2) as [held|] eqn:Ek; [|done]. cbn.
  destruct (decide (k2 = k)) as [->|]; [|by rewrite lookup_insert_ne]. rewrite lookup_insert_eq, Ek. by destruct held.
Qed.
Lemma retry_markers k prev k2 g : markers_left k g (retry_after_setup_refresh prev k2 g).
Proof.
  unfold retry_after_setup_refresh. destruct (g !! prev) as [held|] eqn:Ek; [|by right].
  set (g1 := <[prev := held {{ refresh_available := false }}]> g).
  assert (g1 !! k ≫= probing = g !! k ≫= probing) as H1.
  { subst g1. destruct (decide (prev = k)) as [->|]; [|by rewrite lookup_insert_ne]. rewrite lookup_insert_eq, Ek. by destruct held. }
  clearbody g1. destruct (decide (k2 = k)) as [->|Hne].
  - right. rewrite lookup_insert_eq, make_room_same. cbn. destruct (g1 !! k) as [r|]; [exact H1|]. rewrite <-H1. by destruct held.
  - unfold markers_left. rewrite lookup_insert_ne by done. destruct (make_room_spec k2 g1 k) as [->|[? _]]; [by right|by left].
Qed.
Lemma step_kept k e p p' : relay_step e p = Some p' -> sound p -> strays_kept k p p'.
Proof.
  intros Hs Hp. destruct e as [d| |id k2 r|id st r|id|id|k2|prev k2|]; cbn in Hs.
  - destruct (0 <=? d); [|done]. injection Hs as <-. by destruct p; apply marker_kept_same.
  - destruct (_ <? _); [|done]. injection Hs as <-. by destruct p; apply marker_kept_same.
  - case_bool_decide; [|done]. injection Hs as <-. by apply begin_kept.
  - destruct (probes p !! id) as [pr|] eqn:Epr; [|done]. destruct (finished pr) eqn:Ef; [done|]. injection Hs as <-. by apply reject_kept.
  - destruct (probes p !! id) as [pr|] eqn:Epr; [|done]. destruct (finished pr) eqn:Ef; [done|]. injection Hs as <-. by apply succeed_kept.
  - destruct (probes p !! id) as [pr|] eqn:Epr; [|done]. injection Hs as <-. by apply drop_kept.
  - injection Hs as <-. apply with_gate_kept, take_markers.
  - injection Hs as <-. apply with_gate_kept, retry_markers.
  - injection Hs as <-. apply with_gate_kept. by left.
Qed.

(** C27: Probes of a rejected binding are single: in any interleaving at most one
    is in flight, and one more for each time the binding left the gate. *)
Theorem single_flight es now p k : relay_run es (relay_start now) = Some p ->
  (flights k p <= 1 + removals k es (relay_start now))%nat.
Proof.
  intros Hr. assert (size (strays k (marker k p) (probes p)) <= removals k es (relay_start now))%nat; [|pose proof (flights_strays k p); lia].
  enough (forall q, sound q -> relay_run es q = Some p ->
    size (strays k (marker k p) (probes p)) <= size (strays k (marker k q) (probes q)) + removals k es q)%nat as Hall
    by (pose proof (Hall _ (start_sound now) Hr) as H0; change (probes (relay_start now)) with (∅ : gmap Z Probe) in H0;
        rewrite strays_empty, size_empty in H0; lia).
  clear Hr. induction es as [|e es IH]; intros q Hq Hr; cbn in *; [injection Hr as ->; lia|].
  destruct (relay_step e q) as [q1|] eqn:Es; [|done]. pose proof (step_kept k _ _ _ Es Hq) as Hk. unfold strays_kept in Hk.
  specialize (IH q1 (step_sound _ _ _ Es Hq) Hr). lia.
Qed.

(** ** Spacing *)
(** No recovery of [k] in a run: its entry stays, and no refresh of the setup run
    moves to it. *)
Definition undisturbed (k : Key) (es : list RelayEvent) (p : RelayProcess) : Prop :=
  removals k es p = 0%nat /\ Forall (fun e => forall previous, e <> AfterRefresh previous k) es.
Lemma half_ceiling_next n m : half_ceiling n <= half_ceiling m -> half_ceiling n <= half_ceiling (saturating_add 32 m 1).
Proof.
  intros Hn. unfold saturating_add. destruct (Z.min_spec (m + 1) (umax 32)) as [[_ ->]|[Hm ->]].
  - etransitivity; [exact Hn|]. apply half_ceiling_monotone. lia.
  - transitivity (half_ceiling (Z.max n (umax 32))); [apply half_ceiling_monotone; lia|].
    unfold half_ceiling. rewrite !ceiling_full; [lia|unfold umax; lia..].
Qed.
(** After a probe admitted at [since] with [n] rejections, until its next. *)
Definition held_back (since : Instant) (n : Z) (held : Rejected) : Prop :=
  retry_after_refresh held = false /\ since + half_ceiling n <= until held /\ half_ceiling n <= half_ceiling (failures held).
Definition still_paced (k : Key) (since : Instant) (n : Z) (g : Gate) : Prop :=
  g !! k = None \/ exists held, g !! k = Some held /\ held_back since n held.

Section Paced.
Context (k : Key) (since : Instant) (n : Z) (g : Gate) (held : Rejected).
Context (Hk : g !! k = Some held) (Hheld : held_back since n held).
Lemma paced_same g' : g' !! k = g !! k \/ g' !! k = None -> still_paced k since n g'.
Proof. intros [Hg|Hg]; [right; exists held; by rewrite Hg|by left]. Qed.
Lemma paced_admit k2 now id r : since <= now -> still_paced k since n (admit_binding k2 now id r g).2.
Proof.
  intros Hnow. unfold admit_binding. destruct (g !! k2) as [held2|] eqn:E2; [|apply paced_same; by left].
  destruct (_ || _); [apply paced_same; by left|]. cbn. destruct (decide (k2 = k)) as [->|Hne].
  - right. eexists. rewrite lookup_insert_eq. split; [done|]. rewrite Hk in E2. injection E2 as <-.
    destruct Hheld as (Hr & Hu & Hf). pose proof (wait_bounds (failures held) r). split_and!; cbn; [done|lia|lia].
  - apply paced_same. left. by rewrite lookup_insert_ne.
Qed.
Lemma paced_reject k2 st now r i rf : since <= now -> still_paced k since n (reject_binding k2 st now r i rf g).
Proof.
  intros Hnow. destruct (decide (k2 = k)) as [->|Hne]; [|by apply paced_same, reject_lookup_ne].
  unfold reject_binding. rewrite Hk. destruct (i && _); [apply paced_same; by left|].
  right. eexists. rewrite lookup_insert_eq. split; [done|]. destruct Hheld as (Hr & Hu & Hf).
  apply half_ceiling_next in Hf. pose proof (wait_bounds (saturating_add 32 (failures held) 1) r). split_and!; cbn; [done|lia|lia].
Qed.
Lemma paced_insert k2 held2 : (k2 = k -> held_back since n held2) -> still_paced k since n (<[k2 := held2]> g).
Proof.
  intros H2. destruct (decide (k2 = k)) as [->|Hne].
  - right. exists held2. rewrite lookup_insert_eq. split; [done|by apply H2].
  - apply paced_same. left. by rewrite lookup_insert_ne.
Qed.
Lemma paced_release k2 id : still_paced k since n (release k2 id g).
Proof.
  unfold release. destruct (g !! k2) as [held2|] eqn:E2; [|apply paced_same; by left].
  case_bool_decide; [|apply paced_same; by left]. apply paced_insert. intros ->. rewrite Hk in E2. injection E2 as <-. by destruct held.
Qed.
Lemma paced_take k2 : still_paced k since n (take_setup_refresh k2 g).2.
Proof.
  unfold take_setup_refresh. destruct (g !! k2) as [held2|] eqn:E2; [|apply paced_same; by left].
  cbn. apply paced_insert. intros ->. rewrite Hk in E2. injection E2 as <-. by destruct held.
Qed.
Lemma paced_retry prev k2 : k2 <> k -> still_paced k since n (retry_after_setup_refresh prev k2 g).
Proof.
  intros Hne. unfold retry_after_setup_refresh. destruct (g !! prev) as [held2|] eqn:E2; [|apply paced_same; by left].
  assert (still_paced k since n (<[prev := held2 {{ refresh_available := false }}]> g)) as Hp.
  { apply paced_insert. intros ->. rewrite Hk in E2. injection E2 as <-. by destruct held. }
  unfold still_paced. rewrite lookup_insert_ne by done. destruct (make_room_spec k2 (<[prev := held2 {{ refresh_available := false }}]> g) k) as [->|[-> _]];
    [exact Hp|by left].
Qed.
Lemma paced_delete k2 : still_paced k since n (delete k2 g).
Proof.
  apply paced_same. destruct (decide (k2 = k)) as [->|]; [right; by rewrite lookup_delete_eq|left; by rewrite lookup_delete_ne].
Qed.
End Paced.

Lemma step_paced k since n e p p' held : relay_step e p = Some p' -> (forall previous, e <> AfterRefresh previous k) ->
  since <= clock p -> gate p !! k = Some held -> held_back since n held -> since <= clock p' /\ still_paced k since n (gate p').
Proof.
  intros Hs He Hc Hk Hp. destruct p as [g c nx st ps]. destruct e as [d| |id k2 r|id sta r|id|id|k2|prev k2|]; cbn in Hs.
  - destruct (Z.leb_spec 0 d); [|done]. injection Hs as <-. updated. split; [lia|]. eapply paced_same; [done..|by left].
  - destruct (_ <? _); [|done]. injection Hs as <-. split; [done|]. eapply paced_same; [done..|by left].
  - case_bool_decide; [|done]. injection Hs as <-. unfold begin_. updated.
    pose proof (paced_admit _ _ _ _ _ Hk Hp k2 c id r Hc) as Ha. destruct (admit_binding k2 c id r g) as [[?|[? ?]] g']; by split.
  - destruct (ps !! id) as [pr|]; [|done]. destruct (finished pr); [done|]. injection Hs as <-. split; [done|]. by eapply paced_reject.
  - destruct (ps !! id) as [pr|]; [|done]. destruct (finished pr); [done|]. injection Hs as <-. split; [done|]. by eapply paced_delete.
  - destruct (ps !! id) as [pr|]; [|done]. injection Hs as <-. split; [done|]. unfold drop_probe. updated.
    destruct (finished pr); [eapply paced_same; [done..|by left]|by eapply paced_release].
  - injection Hs as <-. split; [done|]. by eapply paced_take.
  - injection Hs as <-. split; [done|]. eapply paced_retry; [done..|]. intros ->. by apply (He prev).
  - injection Hs as <-. split; [done|]. by left.
Qed.
Lemma run_paced k since n es p p' held : relay_run es p = Some p' -> undisturbed k es p ->
  since <= clock p -> gate p !! k = Some held -> held_back since n held ->
  exists held', gate p' !! k = Some held' /\ held_back since n held'.
Proof.
  revert p held. induction es as [|e es IH]; intros p held Hr [Hrem He] Hc Hk Hp; cbn in *.
  { injection Hr as <-. by exists held. }
  apply Forall_cons in He as [He Hes]. destruct (relay_step e p) as [p1|] eqn:Es; [|done].
  destruct (step_paced _ _ _ _ _ _ _ Es He Hc Hk Hp) as [Hc1 [Hn|(held1 & Hk1 & Hp1)]].
  - unfold removed in Hrem. rewrite Hk, Hn, (bool_decide_eq_true_2 (is_Some (Some held))) in Hrem by done. cbn in Hrem. lia.
  - eapply (IH p1); [done| |done..]. split; [lia|done].
Qed.
(** C31: Probes of a rejected binding are spaced: without a recovery in between,
    at least two and a half minutes lie between two of them, and half an hour
    after the fifth rejection, in any interleaving. *)
Theorem probes_spaced es p1 p2 k held id r answer id2 r2 answer2 :
  gate p1 !! k = Some held -> (admit_binding k (clock p1) id r (gate p1)).1 = inr answer ->
  relay_run (Begin id k r :: es) p1 = Some p2 -> undisturbed k (Begin id k r :: es) p1 ->
  (admit_binding k (clock p2) id2 r2 (gate p2)).1 = inr answer2 ->
  clock p1 + secs 150 <= clock p2 /\ (5 <= failures held -> clock p1 + secs 1800 <= clock p2).
Proof.
  intros Hk Ha Hr [Hrem He] Ha2. apply Forall_cons in He as [_ He]. cbn [relay_run removals] in Hr, Hrem.
  destruct (relay_step (Begin id k r) p1) as [p|] eqn:Es; [|done].
  assert (clock p1 = clock p /\ exists held', gate p !! k = Some held' /\ held_back (clock p1) (failures held) held') as (Hc & held1 & Hk1 & Hp1).
  { cbn in Es. case_bool_decide; [|done]. injection Es as <-. destruct p1 as [g c nx st ps]. unfold begin_. updated.
    unfold admit_binding in *. rewrite Hk in *. destruct (_ || _); [done|]. cbn. split; [done|]. eexists. rewrite lookup_insert_eq.
    split; [done|]. pose proof (wait_bounds (failures held) r). split_and!; cbn; [done|lia|lia]. }
  destruct (run_paced k (clock p1) (failures held) es p p2 held1 Hr) as (held2 & Hk2 & Hret & Hu & _); [split; [lia|done]|lia|done..|].
  unfold admit_binding in Ha2. rewrite Hk2, Hret in Ha2. cbn in Ha2.
  destruct (Z.ltb_spec (clock p2) (until held2)) as [|Hle]; [by rewrite orb_true_r in Ha2|].
  pose proof (half_ceiling_bounds (failures held)). split; [lia|]. intros Hf.
  assert (half_ceiling (failures held) = secs 1800) by (unfold half_ceiling; by rewrite ceiling_full). lia.
Qed.

(** ** Refreshes of the setup run *)
Definition may_refresh (k : Key) (g : Gate) : bool := match g !! k with Some held => refresh_available held | None => false end.
(** Refreshes admitted for a rejected [k] in a run, and rejections that admit one. *)
Definition refreshes (k : Key) (e : RelayEvent) (p : RelayProcess) : bool :=
  match e with TakeRefresh k' => bool_decide (k' = k) && may_refresh k (gate p) | _ => false end.
Definition admits_refresh (k : Key) (e : RelayEvent) (p : RelayProcess) : bool :=
  match e with
  | Reject id _ _ => match probes p !! id with Some pr => bool_decide (probe_key pr = k) && refresh_allowed pr | None => false end
  | _ => false
  end.
Fixpoint tally (f : RelayEvent -> RelayProcess -> bool) (es : list RelayEvent) (p : RelayProcess) : Z :=
  match es with
  | [] => 0
  | e :: es => match relay_step e p with Some p' => Z.b2z (f e p) + tally f es p' | None => 0 end
  end.
Definition no_more (k : Key) (g g' : Gate) : Prop := may_refresh k g' = true -> may_refresh k g = true.
Lemma no_more_refl k g : no_more k g g.
Proof. by unfold no_more. Qed.
#[local] Hint Resolve no_more_refl : core.
Lemma no_more_absent k g g' : g' !! k = g !! k \/ g' !! k = None -> no_more k g g'.
Proof. unfold no_more, may_refresh. intros [-> | ->]; done. Qed.
Lemma no_more_insert k k2 held g : (k2 = k -> refresh_available held = true -> may_refresh k g = true) -> no_more k g (<[k2 := held]> g).
Proof.
  intros H2. unfold no_more, may_refresh at 1. destruct (decide (k2 = k)) as [->|Hne].
  - rewrite lookup_insert_eq. by apply H2.
  - by rewrite lookup_insert_ne.
Qed.
Lemma no_more_trans k g g1 g2 : no_more k g g1 -> no_more k g1 g2 -> no_more k g g2.
Proof. unfold no_more. auto. Qed.
Lemma no_more_room k k2 g : no_more k g (make_room k2 g).
Proof. apply no_more_absent. destruct (make_room_spec k2 g k) as [?|[? _]]; [by left|by right]. Qed.
Lemma admit_no_more k k2 now id r g : no_more k g (admit_binding k2 now id r g).2.
Proof.
  unfold admit_binding. destruct (g !! k2) as [held|]; [|done]. destruct (_ || _); [done|]. by apply no_more_insert.
Qed.
Lemma release_no_more k k2 id g : no_more k g (release k2 id g).
Proof.
  unfold release. destruct (g !! k2) as [held|] eqn:E2; [|done]. case_bool_decide; [|done].
  apply no_more_insert. intros ->. unfold may_refresh. rewrite E2. by destruct held.
Qed.
Lemma retry_no_more k prev k2 g : no_more k g (retry_after_setup_refresh prev k2 g).
Proof.
  unfold retry_after_setup_refresh. destruct (g !! prev) as [held|]; [|done].
  eapply no_more_trans; [eapply no_more_trans; [|apply no_more_room]|]; apply no_more_insert; [intros _|done]. by destruct held.
Qed.
Lemma step_refreshes k e p p' : relay_step e p = Some p' ->
  Z.b2z (may_refresh k (gate p')) + Z.b2z (refreshes k e p) <= Z.b2z (may_refresh k (gate p)) + Z.b2z (admits_refresh k e p).
Proof.
  intros Hs. assert (no_more k (gate p) (gate p') -> refreshes k e p = false ->
    Z.b2z (may_refresh k (gate p')) + Z.b2z (refreshes k e p) <= Z.b2z (may_refresh k (gate p)) + Z.b2z (admits_refresh k e p)) as Hm.
  { intros Hm ->. unfold no_more in Hm. destruct (may_refresh k (gate p')); [rewrite Hm by done|]; destruct (admits_refresh _ _ _), (may_refresh k (gate p)); cbn; lia. }
  destruct p as [g c nx st ps]. destruct e as [d| |id k2 r|id sta r|id|id|k2|prev k2|]; cbn in Hs.
  - destruct (0 <=? d); [|done]. injection Hs as <-. by apply Hm.
  - destruct (_ <? _); [|done]. injection Hs as <-. by apply Hm.
  - case_bool_decide; [|done]. injection Hs as <-. apply Hm; [|done]. unfold begin_. updated.
    pose proof (admit_no_more k k2 c id r g). by destruct (admit_binding k2 c id r g) as [[?|[? ?]] g'].
  - destruct (ps !! id) as [pr|] eqn:Ep; [|done]. destruct (finished pr); [done|]. injection Hs as <-. updated.
    destruct (decide (probe_key pr = k)) as [Ek|Ek]; [|apply Hm; [|done]; by apply no_more_absent, reject_lookup_ne].
    rewrite Ep, Ek, bool_decide_eq_true_2 by done. cbn. unfold reject_binding.
    destruct (initial pr && _); [destruct (may_refresh k g), (refresh_allowed pr); cbn; lia|].
    unfold may_refresh at 1. rewrite lookup_insert_eq. cbn. destruct (may_refresh k g), (refresh_allowed pr); cbn; lia.
  - destruct (ps !! id) as [pr|]; [|done]. destruct (finished pr); [done|]. injection Hs as <-. apply Hm; [|done].
    apply no_more_absent. updated. destruct (decide (probe_key pr = k)) as [->|]; [right; by rewrite lookup_delete_eq|left; by rewrite lookup_delete_ne].
  - destruct (ps !! id) as [pr|]; [|done]. injection Hs as <-. apply Hm; [|done]. unfold drop_probe. updated.
    destruct (finished pr); [done|apply release_no_more].
  - injection Hs as <-. updated. unfold take_setup_refresh.
    destruct (decide (k2 = k)) as [->|Hne]; [rewrite bool_decide_eq_true_2 by done|rewrite bool_decide_eq_false_2 by done]; cbn.
    + destruct (g !! k) as [held|] eqn:Ek; cbn; [|unfold may_refresh; rewrite Ek; cbn; lia]. unfold may_refresh at 1. rewrite lookup_insert_eq. destruct held. cbn. lia.
    + destruct (g !! k2) as [held|]; cbn; [|lia]. unfold may_refresh at 1. rewrite lookup_insert_ne by done. unfold may_refresh. lia.
  - injection Hs as <-. apply Hm; [|done]. apply retry_no_more.
  - injection Hs as <-. apply Hm; [|done]. by apply no_more_absent; right.
Qed.
(** Refreshes are paid for: the setup-run refreshes admitted for a rejected
    binding are at most the rejections of its probes that may refresh.  So the
    retry after a refresh, which may not, never leads to another. *)
Theorem refreshes_paid es now p k : relay_run es (relay_start now) = Some p ->
  tally (refreshes k) es (relay_start now) <= tally (admits_refresh k) es (relay_start now).
Proof.
  enough (forall q, relay_run es q = Some p -> Z.b2z (may_refresh k (gate p)) + tally (refreshes k) es q <=
    Z.b2z (may_refresh k (gate q)) + tally (admits_refresh k) es q) as Hall.
  { intros Hr. specialize (Hall _ Hr). change (may_refresh k (gate (relay_start now))) with false in Hall.
    destruct (may_refresh k (gate p)); cbn in *; lia. }
  induction es as [|e es IH]; intros q Hr; cbn in *; [injection Hr as ->; lia|].
  destruct (relay_step e q) as [q1|] eqn:Es; [|done]. specialize (IH q1 Hr). pose proof (step_refreshes k _ _ _ Es). lia.
Qed.

(** ** Witnesses *)
Definition binding : Key := [42].
Definition refused_once : list RelayEvent :=
  [Reserve; Begin 1 binding 0; Reject 1 401 0; DropProbe 1; TakeRefresh binding; Pass (secs 150); Reserve].
Definition probed : list RelayEvent := [DropProbe 2; Pass (secs 150)].
Definition reached (es : list RelayEvent) (p : RelayProcess) : RelayProcess := default p (relay_run es p).
Definition after_refusal : RelayProcess := reached refused_once (relay_start 0).
Definition after_probe : RelayProcess := reached (Begin 2 binding 0 :: probed) after_refusal.

Lemma no_binding_wedged_witness : exists answer, (admit_binding binding (clock after_refusal + CAP) 2 0 (gate after_refusal)).1 = inr answer.
Proof.
  apply (no_binding_wedged refused_once 0 after_refusal binding 2 0); [vm_compute; reflexivity|].
  intros id pr Hp. replace (probes after_refusal) with (∅ : gmap Z Probe) in Hp by (vm_compute; reflexivity). by rewrite lookup_empty in Hp.
Defined.
Lemma single_flight_witness : (flights binding (reached [Begin 2 binding 0] after_refusal) <= 1)%nat.
Proof.
  exact (single_flight (refused_once ++ [Begin 2 binding 0]) 0 (reached [Begin 2 binding 0] after_refusal) binding eq_refl).
Defined.
Lemma probes_spaced_witness : clock after_refusal + secs 150 <= clock after_probe /\
  (5 <= 1 -> clock after_refusal + secs 1800 <= clock after_probe).
Proof.
  apply (probes_spaced probed after_refusal after_probe binding (mkRejected 401 1 (secs 150) None false false) 2 0 (false, true) 3 0 (false, true));
    [vm_compute; reflexivity..| |vm_compute; reflexivity].
  split; [vm_compute; reflexivity|]. repeat constructor; done.
Defined.
Lemma refreshes_paid_witness : tally (refreshes binding) refused_once (relay_start 0) <= 1.
Proof. exact (refreshes_paid refused_once 0 after_refusal binding eq_refl). Defined.

Section Keys.
Context (sha256 : list Z -> list Z).
Context (digest_length : forall bytes, length (sha256 bytes) = 32%nat).
Definition collides (a b : list Z) : Prop := a <> b /\ sha256 a = sha256 b.
Definition short (part : list Z) : Prop := Z.of_nat (length part) < 2 ^ 64.

Lemma framed_inj a b x y : framed a ++ x = framed b ++ y -> short a -> short b -> a = b /\ x = y.
Proof.
  unfold framed, short. rewrite <-!app_assoc. intros E Ha Hb.
  apply app_inj_1 in E as [El E]; [|by rewrite !length_to_le_bytes].
  assert (length a = length b) as Hl.
  { apply (f_equal from_le_bytes) in El. rewrite !from_to_le_bytes in El. change (256 ^ Z.of_nat 8) with (2 ^ 64) in El.
    rewrite !Z.mod_small in El by lia. lia. }
  by apply app_inj_1 in E.
Qed.
Lemma frames_inj (a b : list (list Z)) : length a = length b -> Forall short a -> Forall short b ->
  a ≫= framed = b ≫= framed -> a = b.
Proof.
  revert b. induction a as [|x a IH]; intros [|y b] Hl Ha Hb E; cbn in *; [done..|].
  apply Forall_cons in Ha as [Hx Ha]. apply Forall_cons in Hb as [Hy Hb].
  apply framed_inj in E as [-> E]; [|done..]. f_equal. apply IH; [lia|done..].
Qed.

Lemma six_inj {A} (a b c d e f a' b' c' d' e' f' : A) : [a; b; c; d; e; f] = [a'; b'; c'; d'; e'; f'] ->
  a = a' /\ b = b' /\ c = c' /\ d = d' /\ e = e' /\ f = f'.
Proof. by intros [= -> -> -> -> -> ->]. Qed.

(** A binding's fields, as the key sees them. *)
Definition same_binding (b b' d d' : string) (g g' : Z) (s s' : string) (r r' : option string) (src src' : string) : Prop :=
  trim_slashes b = trim_slashes b' /\ d = d' /\ g = g' /\ s = s' /\ default EmptyString r = default EmptyString r' /\ src = src'.
Definition storable (s : string) : Prop := short (as_bytes s).

Lemma short_trimmed s : storable s -> short (trim_slashes s).
Proof.
  unfold storable, short, trim_slashes. destruct (trim_end_prefix (Z.eqb 47) (as_bytes s)) as [post E].
  rewrite E at 1. rewrite length_app. lia.
Qed.

(** A rejection holds back its own binding only: requests to another
    destination, or of another device, generation, secret, setup run or source,
    have another key, unless SHA-256 collides on the bytes of the two. *)
Theorem binding_keys_separate b b' d d' g g' s s' r r' src src' :
  Forall storable [b; b'; d; d'; default EmptyString r; default EmptyString r'; src; src'] -> uint 64 g -> uint 64 g' ->
  key sha256 b d g s r src = key sha256 b' d' g' s' r' src' ->
  same_binding b b' d d' g g' s s' r r' src src' \/ collides (as_bytes s) (as_bytes s') \/
  collides (binding_bytes sha256 b d g s r src) (binding_bytes sha256 b' d' g' s' r' src').
Proof.
  intros Hf Hg Hg' E. repeat (apply Forall_cons in Hf as [? Hf]).
  destruct (decide (binding_bytes sha256 b d g s r src = binding_bytes sha256 b' d' g' s' r' src')) as [Eb|Nb]; [|by right; right].
  apply app_inv_head, frames_inj in Eb; [|done|..].
  - apply six_inj in Eb as (E1 & E2 & E3 & E4 & E5 & E6). destruct (decide (as_bytes s = as_bytes s')) as [Es|Ns].
    + left. apply (f_equal from_le_bytes) in E3. rewrite !from_to_le_bytes in E3.
      unfold uint in *. change (256 ^ Z.of_nat 8) with (2 ^ 64) in E3. rewrite !Z.mod_small in E3 by lia.
      unfold same_binding. split_and!; auto using as_bytes_inj.
    + by right; left.
  - repeat constructor; try done; try (by apply short_trimmed); unfold short; rewrite ?length_to_le_bytes, ?digest_length; lia.
  - repeat constructor; try done; try (by apply short_trimmed); unfold short; rewrite ?length_to_le_bytes, ?digest_length; lia.
Qed.
End Keys.

(** ** Witness *)
Definition first_32 (bytes : list Z) : list Z := take 32 (bytes ++ replicate 32 0).
Lemma first_32_length bytes : length (first_32 bytes) = 32%nat.
Proof. unfold first_32. rewrite length_take, length_app, length_replicate. lia. Qed.
Lemma binding_keys_separate_witness :
  same_binding "https://a" "https://a/" "device" "device" 7 7 "secret" "secret" None (Some ""%string) "codex" "codex" \/
  collides first_32 (as_bytes "secret") (as_bytes "secret") \/
  collides first_32 (binding_bytes first_32 "https://a" "device" 7 "secret" None "codex")
                    (binding_bytes first_32 "https://a/" "device" 7 "secret" (Some ""%string) "codex").
Proof.
  apply (binding_keys_separate first_32 first_32_length); [|unfold uint; lia..|vm_compute; reflexivity].
  repeat constructor; unfold storable, short; vm_compute; reflexivity.
Defined.
