(* ===== verification/ClientReport.v ===== *)
(** Loss accounting (crates/ottto-service/src/client_report.rs): four atomic
    counters, and the lease under which one upload reports and clears them.

    The counters are atomics, each read and changed by one instruction at a time;
    a [ReportEvent] is one instruction of one thread, and a run is a list of them
    in any order.  Each counter is a location of its own, and relaxed accesses to
    one location are totally ordered, so what a run says of a counter holds of
    the program.  Leases are the threads between [lease] and the drop of what it
    returned, by a number.

    In any interleaving no loss vanishes and none is reported twice. *)
From stdpp Require Import gmap functions.
From S2P Require Import Prelude.
From coqutil Require Import Datatypes.RecordSetters.
Import DoubleBraceUpdate.
Local Open Scope Z_scope.

Inductive ClientReportReason := QueueOverflow | RatelimitBackoff | NetworkError | Poisoned.
#[export] Instance ClientReportReason_eq_dec : EqDecision ClientReportReason.
Proof. solve_decision. Defined.
Definition ALL : list ClientReportReason := [QueueOverflow; RatelimitBackoff; NetworkError; Poisoned].
Definition reason_text (r : ClientReportReason) : string :=
  match r with
  | QueueOverflow => "queue_overflow"
  | RatelimitBackoff => "ratelimit_backoff"
  | NetworkError => "network_error"
  | Poisoned => "poisoned"
  end.
Definition category (r : ClientReportReason) : string :=
  match r with QueueOverflow | Poisoned => "snapshot_item" | RatelimitBackoff | NetworkError => "snapshot_batch" end.

Record ClientReportEntry := mkEntry { entry_reason : string; entry_category : string; entry_quantity : Z }.
Definition entry_of (r : ClientReportReason) (quantity : Z) : ClientReportEntry := mkEntry (reason_text r) (category r) quantity.
(** The entries of a report; its schema version is constant. *)
Abbreviation ClientReport := (list ClientReportEntry).
Definition empty_report : ClientReport := (fun r => entry_of r 0) <$> ALL.
Definition quantity (report : ClientReport) (r : ClientReportReason) : Z :=
  match List.find (fun e => bool_decide (entry_reason e = reason_text r)) report with
  | Some e => entry_quantity e
  | None => 0
  end.
Definition is_empty_report (report : ClientReport) : bool := forallb (fun e => entry_quantity e =? 0) report.

(** ** Leases *)
Inductive Phase :=
  (** [lease] has claimed and reads the counters left. *)
  | Reading (rest : list ClientReportReason)
  | Held
  (** [commit] clears the counters left; what it has loaded of the first. *)
  | Committing (rest : list ClientReportReason) (observed : option Z).
Record ClientReportLease := mkLease { report : ClientReport; exclusive : bool; phase : Phase }.
Record Reports := mkReports {
  counters : ClientReportReason -> Z;
  in_flight : bool;
  leases : gmap Z ClientReportLease;
}.
Definition no_reports : Reports := mkReports (fun _ => 0) false ∅.

Inductive ReportEvent :=
  | RecordLoss (r : ClientReportReason) (lost : Z)
  | Claim (id : Z)
  | ReadSlot (id : Z)
  | Commit (id : Z)
  | LoadSlot (id : Z)
  (** A weak exchange may fail although the counter is as loaded. *)
  | ExchangeSlot (id : Z) (spurious : bool)
  | DropLease (id : Z).

Definition put_lease (id : Z) (l : ClientReportLease) (s : Reports) : Reports :=
  s {{ leases := (<[id := l]> (leases s) : gmap Z ClientReportLease) }}.
Definition put_counter (r : ClientReportReason) (n : Z) (s : Reports) : Reports :=
  s {{ counters := (<[r := n]> (counters s) : ClientReportReason -> Z) }}.
Definition record_loss (r : ClientReportReason) (lost : Z) (s : Reports) : Reports :=
  if lost =? 0 then s else put_counter r (wrap_u 64 (counters s r + lost)) s.
Definition claim_lease (id : Z) (s : Reports) : Reports :=
  let exclusive := negb (in_flight s) in
  put_lease id (mkLease (if exclusive then [] else empty_report) exclusive (if exclusive then Reading ALL else Held))
    (s {{ in_flight := true }}).
Definition read_slot (id : Z) (l : ClientReportLease) (s : Reports) : option Reports :=
  match phase l with
  | Reading (r :: rest) =>
      Some (put_lease id (mkLease (report l ++ [entry_of r (counters s r)]) (exclusive l)
        (match rest with [] => Held | _ => Reading rest end)) s)
  | _ => None
  end.
Definition begin_commit (id : Z) (l : ClientReportLease) (s : Reports) : option Reports :=
  match phase l with
  | Held => Some (put_lease id (l {{ phase := Committing (if exclusive l then ALL else []) None }}) s)
  | _ => None
  end.
Definition load_slot (id : Z) (l : ClientReportLease) (s : Reports) : option Reports :=
  match phase l with
  | Committing (r :: rest) None =>
      Some (put_lease id (l {{ phase := if quantity (report l) r =? 0 then Committing rest None
                                        else Committing (r :: rest) (Some (counters s r)) }}) s)
  | _ => None
  end.
Definition exchange_slot (id : Z) (spurious : bool) (l : ClientReportLease) (s : Reports) : option Reports :=
  match phase l with
  | Committing (r :: rest) (Some current) =>
      if (counters s r =? current) && negb spurious
      then Some (put_counter r (saturating_sub current (quantity (report l) r)) (put_lease id (l {{ phase := Committing rest None }}) s))
      else Some (put_lease id (l {{ phase := Committing (r :: rest) (Some (counters s r)) }}) s)
  | _ => None
  end.
(** The drop of a lease: of one that was not committed, or at the end of [commit]. *)
Definition drop_lease (id : Z) (l : ClientReportLease) (s : Reports) : option Reports :=
  match phase l with
  | Held | Committing [] _ =>
      Some (s {{ in_flight := if exclusive l then false else in_flight s }}
              {{ leases := (delete id (leases s) : gmap Z ClientReportLease) }})
  | _ => None
  end.

Definition report_step (e : ReportEvent) (s : Reports) : option Reports :=
  let at_lease id (f : ClientReportLease -> Reports -> option Reports) := try? l := leases s !! id in f l s in
  match e with
  | RecordLoss r lost => if in_uint 64 lost then Some (record_loss r lost s) else None
  | Claim id => if bool_decide (leases s !! id = None) then Some (claim_lease id s) else None
  | ReadSlot id => at_lease id (read_slot id)
  | Commit id => at_lease id (begin_commit id)
  | LoadSlot id => at_lease id (load_slot id)
  | ExchangeSlot id spurious => at_lease id (exchange_slot id spurious)
  | DropLease id => at_lease id (drop_lease id)
  end.
Fixpoint report_run (es : list ReportEvent) (s : Reports) : option Reports :=
  match es with [] => Some s | e :: es => try? s := report_step e s in report_run es s end.
(** [observe]. *)
Definition observe (s : Reports) : ClientReport := (fun r => entry_of r (counters s r)) <$> ALL.

(** ** What a run recorded and what commits cleared *)
Definition loss (r : ClientReportReason) (e : ReportEvent) (s : Reports) : Z :=
  match e with RecordLoss r' lost => if decide (r' = r) then lost else 0 | _ => 0 end.
(** A commit has exchanged the counter of [r]: it acknowledges what it reported. *)
Definition cleared (r : ClientReportReason) (e : ReportEvent) (s : Reports) : Z :=
  match e with
  | ExchangeSlot id spurious =>
      match leases s !! id with
      | Some l =>
          match phase l with
          | Committing (r' :: _) (Some current) =>
              if (counters s r' =? current) && negb spurious then if decide (r' = r) then quantity (report l) r else 0 else 0
          | _ => 0
          end
      | None => 0
      end
  | _ => 0
  end.
Fixpoint total (f : ReportEvent -> Reports -> Z) (es : list ReportEvent) (s : Reports) : Z :=
  match es with
  | [] => 0
  | e :: es => match report_step e s with Some s' => f e s + total f es s' | None => 0 end
  end.

(** ** The invariant *)
(** Reasons whose reported losses are still owed: all of them until the commit
    clears the first. *)
Definition owed_reasons (l : ClientReportLease) : list ClientReportReason :=
  match phase l with Committing rest _ => rest | _ => ALL end.
Definition unread (l : ClientReportLease) : list ClientReportReason :=
  match phase l with Reading rest => rest | _ => [] end.
Record lease_ok (s : Reports) (l : ClientReportLease) : Prop := {
  owed_covered : forall r, r ∈ owed_reasons l -> 0 <= quantity (report l) r <= counters s r;
  owed_once : NoDup (owed_reasons l);
  unread_once : NoDup (unread l);
  unread_absent : forall r, r ∈ unread l -> quantity (report l) r = 0 /\
    List.find (fun e => bool_decide (entry_reason e = reason_text r)) (report l) = None;
}.
Record reports_ok (s : Reports) : Prop := {
  counters_uint : forall r, uint 64 (counters s r);
  one_claim : forall id l, leases s !! id = Some l -> exclusive l = true ->
    in_flight s = true /\ forall id' l', leases s !! id' = Some l' -> exclusive l' = true -> id' = id;
  claims_ok : forall id l, leases s !! id = Some l -> exclusive l = true -> lease_ok s l;
  others_idle : forall id l, leases s !! id = Some l -> exclusive l = false -> report l = empty_report /\
    match phase l with Held => True | Committing rest _ => rest = [] | Reading _ => False end;
}.
Lemma reason_text_inj r r' : reason_text r = reason_text r' -> r = r'.
Proof. by destruct r, r'. Qed.
Lemma find_app {A} (f : A -> bool) l l' :
  List.find f (l ++ l') = match List.find f l with Some a => Some a | None => List.find f l' end.
Proof. induction l as [|a l IH]; cbn; [done|]. by destruct (f a). Qed.
Lemma quantity_app rep r n r' :
  List.find (fun e => bool_decide (entry_reason e = reason_text r)) rep = None ->
  quantity (rep ++ [entry_of r n]) r' = if decide (r' = r) then n else quantity rep r'.
Proof.
  unfold quantity. rewrite find_app. intros Hn. destruct (decide (r' = r)) as [->|Hne].
  - rewrite Hn. cbn. by rewrite bool_decide_eq_true_2.
  - clear Hn. destruct (List.find _ rep) as [e|]; [done|]. cbn.
    rewrite (bool_decide_eq_false_2 (reason_text r = reason_text r')) by (by intros E%reason_text_inj; congruence). done.
Qed.
Lemma ALL_NoDup : NoDup ALL.
Proof. apply (bool_decide_unpack _). vm_compute. exact I. Qed.
Lemma no_reports_ok : reports_ok no_reports.
Proof. split; cbn; [intros r; unfold uint; lia|intros id l H; by rewrite lookup_empty in H..]. Qed.

Lemma lease_ok_mono s s' l : (forall r, r ∈ owed_reasons l -> counters s r <= counters s' r) -> lease_ok s l -> lease_ok s' l.
Proof. intros Hc [Ho Hn Hu Ha]. split; [|done..]. intros r Hr. specialize (Ho r Hr). specialize (Hc r Hr). lia. Qed.
Lemma lease_ok_same s s' l : counters s' = counters s -> lease_ok s l -> lease_ok s' l.
Proof. intros Hc. apply lease_ok_mono. intros r _. by rewrite Hc. Qed.
(** The lease of a thread is replaced, its claim and the counters are not. *)
Lemma put_lease_ok id l l' s : reports_ok s -> leases s !! id = Some l -> exclusive l' = exclusive l ->
  (lease_ok s l -> lease_ok s l') ->
  (exclusive l = false -> report l = empty_report -> report l' = empty_report /\ match phase l' with Held => True | Committing rest _ => rest = [] | Reading _ => False end) ->
  reports_ok (put_lease id l' s).
Proof.
  intros [Hc Ho Hl Hi] Hid He Hok Hidle. destruct s as [c f ls]. unfold put_lease. cbn in *. unfold constant.
  assert (forall id2 l2, <[id := l']> ls !! id2 = Some l2 -> exists l1, ls !! id2 = Some l1 /\ exclusive l1 = exclusive l2) as Hback.
  { intros id2 l2 [[<- <-]|[_ H]]%lookup_insert_Some; [by exists l|by exists l2]. }
  split; cbn; [done| | |].
  - intros id2 l2 (l1 & H1 & E1)%Hback Ht. rewrite <-E1 in Ht. destruct (Ho _ _ H1 Ht) as [Hf Hu]. split; [done|].
    intros id3 l3 (l4 & H4 & E4)%Hback Ht3. rewrite <-E4 in Ht3. by eapply Hu.
  - intros id2 l2 [[<- <-]|[_ H]]%lookup_insert_Some Ht; [|by eapply lease_ok_same, (Hl _ _ H Ht)].
    rewrite He in Ht. by eapply lease_ok_same, (Hok (Hl _ _ Hid Ht)).
  - intros id2 l2 [[<- <-]|[_ H]]%lookup_insert_Some Ht; [|exact (Hi _ _ H Ht)].
    rewrite He in Ht. apply Hidle; [done|by apply (Hi _ _ Hid)].
Qed.
Lemma put_counter_ok r n s : reports_ok s -> uint 64 n ->
  (forall id l, leases s !! id = Some l -> exclusive l = true -> r ∈ owed_reasons l -> counters s r <= n) ->
  reports_ok (put_counter r n s).
Proof.
  intros [Hc Ho Hl Hi] Hn Hr. destruct s as [c f ls]. unfold put_counter. cbn in *. unfold constant. split; cbn; [|done| |done].
  - intros r'. destruct (decide (r = r')) as [<-|Hne]; [by rewrite fn_lookup_insert|by rewrite fn_lookup_insert_ne].
  - intros id l H Ht. eapply lease_ok_mono; [|exact (Hl _ _ H Ht)]. intros r' Hin. cbn.
    destruct (decide (r = r')) as [<-|Hne]; [rewrite fn_lookup_insert; by eapply Hr|by rewrite fn_lookup_insert_ne].
Qed.

(** ** Each instruction *)
Lemma record_ok r lost s : reports_ok s -> in_uint 64 lost = true -> counters s r + lost < 2 ^ 64 -> reports_ok (record_loss r lost s).
Proof.
  intros Hs Hlost Hn. unfold record_loss. destruct (Z.eqb_spec lost 0); [done|].
  pose proof (counters_uint _ Hs r) as Hc. unfold in_uint, uint in *. rewrite wrap_u_small by (unfold uint; lia).
  apply put_counter_ok; [done|unfold uint; lia|]. intros. lia.
Qed.
Lemma claim_ok id s : reports_ok s -> leases s !! id = None -> reports_ok (claim_lease id s).
Proof.
  intros [Hc Ho Hl Hi] Hid. destruct s as [c f ls]. unfold claim_lease, put_lease. cbn in *. unfold constant. destruct f; cbn.
  - split; cbn; [done| | |].
    + intros id2 l2 [[<- <-]|[_ H]]%lookup_insert_Some Ht; [done|]. destruct (Ho _ _ H Ht) as [_ Hu]. split; [done|].
      intros id3 l3 [[<- <-]|[_ H3]]%lookup_insert_Some Ht3; [done|by eapply Hu].
    + intros id2 l2 [[<- <-]|[_ H]]%lookup_insert_Some Ht; [done|]. by eapply lease_ok_same, (Hl _ _ H Ht).
    + intros id2 l2 [[<- <-]|[_ H]]%lookup_insert_Some Ht; [done|exact (Hi _ _ H Ht)].
  - assert (forall id2 l2, ls !! id2 = Some l2 -> exclusive l2 = true -> False) as Hnone.
    { intros id2 l2 H Ht. by destruct (Ho _ _ H Ht). }
    split; cbn; [done| | |].
    + intros id2 l2 [[<- <-]|[_ H]]%lookup_insert_Some Ht; [|by destruct (Hnone _ _ H Ht)]. split; [done|].
      intros id3 l3 [[<- <-]|[_ H3]]%lookup_insert_Some Ht3; [done|by destruct (Hnone _ _ H3 Ht3)].
    + intros id2 l2 [[<- <-]|[_ H]]%lookup_insert_Some Ht; [|by destruct (Hnone _ _ H Ht)].
      split; cbn; [|apply ALL_NoDup..|done]. intros r _. destruct (Hc r). lia.
    + intros id2 l2 [[<- <-]|[_ H]]%lookup_insert_Some Ht; [done|exact (Hi _ _ H Ht)].
Qed.
Lemma read_ok id l s s' : reports_ok s -> leases s !! id = Some l -> read_slot id l s = Some s' -> reports_ok s'.
Proof.
  intros Hs Hid H. unfold read_slot in H. destruct (phase l) as [[|r rest]| |] eqn:Ep; try done. injection H as <-.
  assert (exclusive l = true) as Hex by (destruct (exclusive l) eqn:E; [done|]; pose proof (others_idle _ Hs _ _ Hid E) as [_ Hi]; by rewrite Ep in Hi).
  eapply put_lease_ok; [done..| |by intros; congruence]. intros [Ho Hn Hu Ha].
  unfold owed_reasons, unread in *. rewrite Ep in *. apply NoDup_cons in Hu as [Hr Hu].
  destruct (Ha r) as [_ Hfind]; [by left|].
  split; cbn.
  - intros r' Hr'. rewrite quantity_app by done. pose proof (counters_uint _ Hs r') as [? ?]. destruct (decide (r' = r)) as [->|]; [lia|].
    apply Ho. destruct rest; exact Hr'.
  - by destruct rest.
  - by destruct rest; [constructor|].
  - intros r' Hr'. assert (r' ∈ rest) as Hin by (by destruct rest). destruct (Ha r') as [Hq Hf]; [by right|].
    rewrite quantity_app by done. rewrite decide_False by (by intros ->). split; [done|]. rewrite find_app, Hf. cbn.
    by rewrite (bool_decide_eq_false_2 (reason_text r = reason_text r')) by (by intros <-%reason_text_inj).
Qed.
Lemma commit_ok id l s s' : reports_ok s -> leases s !! id = Some l -> begin_commit id l s = Some s' -> reports_ok s'.
Proof.
  intros Hs Hid H. unfold begin_commit in H. destruct (phase l) eqn:Ep; try done. injection H as <-.
  destruct l as [rep ex ph]. cbn in Ep. subst ph. eapply put_lease_ok; [done..| |].
  - intros [Ho Hn Hu Ha]. destruct ex; split; cbn; try done; try (by constructor); try (by intros r ?%elem_of_nil).
  - cbn. by intros -> ->.
Qed.
Lemma load_ok id l s s' : reports_ok s -> leases s !! id = Some l -> load_slot id l s = Some s' -> reports_ok s'.
Proof.
  intros Hs Hid H. unfold load_slot in H. destruct (phase l) as [| |[|r rest] [cur|]] eqn:Ep; try done. injection H as <-.
  pose proof (fun E => proj2 (others_idle _ Hs _ _ Hid E)) as Hidle. rewrite Ep in Hidle.
  destruct l as [rep ex ph]. cbn in Ep. subst ph. eapply put_lease_ok; [done..| |by intros E; specialize (Hidle E)].
  intros [Ho Hn Hu Ha]. cbn in *. unfold constant. apply NoDup_cons in Hn as Hn'. destruct Hn' as [Hr Hn'].
  destruct (_ =? 0); split; cbn; try done. intros r' Hr'. apply Ho. by right.
Qed.
(** A commit's exchange takes what it reported from the counter, and the counter
    never lacks it. *)
Lemma exchange_ok id spurious l s s' : reports_ok s -> leases s !! id = Some l -> exchange_slot id spurious l s = Some s' ->
  reports_ok s' /\ forall r, counters s r = cleared r (ExchangeSlot id spurious) s + counters s' r /\
    0 <= cleared r (ExchangeSlot id spurious) s.
Proof.
  intros Hs Hid H. unfold cleared. rewrite Hid. unfold exchange_slot in H.
  destruct (phase l) as [| |[|r rest] [cur|]] eqn:Ep; try done.
  assert (exclusive l = true) as Hex by (destruct (exclusive l) eqn:E; [done|]; pose proof (others_idle _ Hs _ _ Hid E) as [_ Hi]; by rewrite Ep in Hi).
  pose proof (claims_ok _ Hs _ _ Hid Hex) as [Ho Hn Hu Ha]. unfold owed_reasons in *. rewrite Ep in *.
  apply NoDup_cons in Hn as Hn'. destruct Hn' as [Hr Hn'].
  assert (0 <= quantity (report l) r <= counters s r) as Hq by (apply Ho; by left).
  pose proof (counters_uint _ Hs r) as Hu64. unfold uint in Hu64.
  assert (forall cur', reports_ok (put_lease id (l {{ phase := Committing rest cur' }}) s)) as Hput.
  { intros cur'. destruct l as [rep ex ph]. cbn in *. subst ph ex. eapply put_lease_ok; [done..| |done].
    intros _. split; cbn; try done. intros r' Hr'. apply Ho. by right. }
  destruct ((counters s r =? cur) && negb spurious) eqn:Eb; injection H as <-.
  - apply andb_prop in Eb as [Eb%Z.eqb_eq _]. subst cur. unfold saturating_sub. rewrite Z.max_r by lia. split.
    + apply put_counter_ok; [apply Hput|unfold uint; lia|].
      intros id2 l2 H2 Ht Hin. destruct s as [c f ls]. unfold put_lease in H2. cbn in *. unfold constant in H2.
      apply lookup_insert_Some in H2 as [[<- <-]|[Hne H2]]; [by destruct l; cbn in *|].
      destruct (one_claim _ Hs _ _ Hid Hex) as [_ Huniq]. exfalso. apply Hne. symmetry. by eapply Huniq.
    + intros r'. destruct s as [c f ls]. cbn in *. unfold constant. destruct (decide (r = r')) as [<-|Hne].
      * rewrite fn_lookup_insert. lia.
      * rewrite fn_lookup_insert_ne by done. lia.
  - split; [|by intros r'; destruct s; cbn; lia].
    destruct l as [rep ex ph]. cbn in *. subst ph ex. eapply put_lease_ok; [done..| |done]. by intros _.
Qed.
Lemma drop_ok id l s s' : reports_ok s -> leases s !! id = Some l -> drop_lease id l s = Some s' -> reports_ok s'.
Proof.
  intros [Hc Ho Hl Hi] Hid H. assert (s' = s {{ in_flight := if exclusive l then false else in_flight s }}
    {{ leases := (delete id (leases s) : gmap Z ClientReportLease) }}) as ->.
  { unfold drop_lease in H. by destruct (phase l) as [| |[|? ?] ?]; simplify_eq. }
  destruct s as [c f ls]. cbn in *. unfold constant. split; cbn; [done| | |].
  - intros id2 l2 [Hne H2]%lookup_delete_Some Ht. destruct (Ho _ _ H2 Ht) as [Hf Hu]. split.
    + destruct (exclusive l) eqn:El; [|done]. exfalso. apply Hne. by eapply Hu.
    + intros id3 l3 [_ H3]%lookup_delete_Some Ht3. by eapply Hu.
  - intros id2 l2 [_ H2]%lookup_delete_Some Ht. by eapply lease_ok_same, (Hl _ _ H2 Ht).
  - intros id2 l2 [_ H2]%lookup_delete_Some Ht. exact (Hi _ _ H2 Ht).
Qed.

Lemma step_reports e s s' : report_step e s = Some s' -> reports_ok s -> (forall r, counters s r + loss r e s < 2 ^ 64) ->
  reports_ok s' /\ forall r, counters s r + loss r e s = cleared r e s + counters s' r /\ 0 <= cleared r e s /\ 0 <= loss r e s.
Proof.
  intros Hstep Hs Hn. assert ((forall r, loss r e s = 0 /\ cleared r e s = 0 /\ counters s' r = counters s r) -> reports_ok s' ->
    reports_ok s' /\ forall r, counters s r + loss r e s = cleared r e s + counters s' r /\ 0 <= cleared r e s /\ 0 <= loss r e s) as Hsame.
  { intros Heq Hok. split; [done|]. intros r. destruct (Heq r) as (-> & -> & ->). lia. }
  destruct e as [r0 lost|id|id|id|id|id spurious|id]; cbn [report_step] in Hstep.
  - destruct (in_uint 64 lost) eqn:El; [|done]. injection Hstep as <-. specialize (Hn r0) as Hn0. cbn [loss] in Hn0.
    rewrite decide_True in Hn0 by done. split; [by apply record_ok|]. intros r. pose proof (counters_uint _ Hs r0) as Hc.
    unfold record_loss, in_uint, uint in *. cbn [loss cleared]. destruct (Z.eqb_spec lost 0) as [->|]; [destruct (decide _); lia|].
    rewrite wrap_u_small by (unfold uint; lia). destruct s as [c f ls]. cbn in *. unfold constant.
    destruct (decide (r0 = r)) as [<-|Hne]; [rewrite fn_lookup_insert|rewrite fn_lookup_insert_ne by done]; lia.
  - case_bool_decide; [|done]. injection Hstep as <-. apply Hsame; [|by apply claim_ok].
    intros r. by destruct s.
  - destruct (leases s !! id) as [l|] eqn:Hid; [|done]. apply Hsame; [|by eapply read_ok]. intros r.
    unfold read_slot in Hstep. destruct (phase l) as [[|? ?]| |]; simplify_eq. by destruct s.
  - destruct (leases s !! id) as [l|] eqn:Hid; [|done]. apply Hsame; [|by eapply commit_ok]. intros r.
    unfold begin_commit in Hstep. destruct (phase l); simplify_eq. by destruct s.
  - destruct (leases s !! id) as [l|] eqn:Hid; [|done]. apply Hsame; [|by eapply load_ok]. intros r.
    unfold load_slot in Hstep. destruct (phase l) as [| |[|? ?] [?|]]; simplify_eq. by destruct s.
  - destruct (leases s !! id) as [l|] eqn:Hid; [|done]. destruct (exchange_ok _ _ _ _ _ Hs Hid Hstep) as [Hok Hc].
    split; [done|]. intros r. destruct (Hc r). cbn [loss]. lia.
  - destruct (leases s !! id) as [l|] eqn:Hid; [|done]. apply Hsame; [|by eapply drop_ok]. intros r.
    unfold drop_lease in Hstep. by destruct s, (phase l) as [| |[|? ?] ?]; simplify_eq.
Qed.
Lemma total_loss_nonneg r es s : 0 <= total (loss r) es s.
Proof.
  revert s. induction es as [|e es IH]; intros s; cbn; [done|]. destruct (report_step e s) as [s'|] eqn:Es; [|done].
  specialize (IH s'). enough (0 <= loss r e s) by lia. destruct e; cbn in *; try lia.
  destruct (in_uint 64 lost) eqn:El; [|done]. unfold in_uint in El. destruct (decide _); lia.
Qed.
Lemma run_reports es s s' : report_run es s = Some s' -> reports_ok s ->
  (forall r, counters s r + total (loss r) es s < 2 ^ 64) ->
  reports_ok s' /\ forall r, counters s r + total (loss r) es s = total (cleared r) es s + counters s' r.
Proof.
  revert s. induction es as [|e es IH]; intros s Hr Hs Hn; cbn in *; [injection Hr as <-; split; [done|intros; lia]|].
  destruct (report_step e s) as [s1|] eqn:Es; [|done].
  destruct (step_reports _ _ _ Es Hs) as [Hs1 He]; [intros r; specialize (Hn r); pose proof (total_loss_nonneg r es s1); lia|].
  destruct (IH s1 Hr Hs1) as [Hs' Htot]; [intros r; specialize (Hn r); destruct (He r); lia|].
  split; [done|]. intros r. specialize (Htot r). destruct (He r). lia.
Qed.

(** C21: No loss vanishes: in any interleaving of recording, leasing, committing
    and dropping, the losses recorded for a reason are those acknowledged by
    commits and those its counter still holds. *)
Theorem losses_conserved es s r : report_run es no_reports = Some s ->
  (forall r, total (loss r) es no_reports < 2 ^ 64) ->
  total (loss r) es no_reports = total (cleared r) es no_reports + counters s r.
Proof.
  intros Hr Hn. destruct (run_reports _ _ _ Hr no_reports_ok) as [_ Ht]; [intros r'; specialize (Hn r'); cbn; lia|].
  specialize (Ht r). cbn in Ht. lia.
Qed.
(** No loss is reported twice: the counts of two leases alive at once do not
    both say something, and what a lease reports and has not cleared was neither
    acknowledged before nor lost. *)
Theorem losses_reported_once es s id l r : report_run es no_reports = Some s ->
  (forall r, total (loss r) es no_reports < 2 ^ 64) -> leases s !! id = Some l ->
  (r ∈ owed_reasons l -> total (cleared r) es no_reports + quantity (report l) r <= total (loss r) es no_reports) /\
  forall id' l', leases s !! id' = Some l' -> id' <> id -> report l = empty_report \/ report l' = empty_report.
Proof.
  intros Hr Hn Hid. destruct (run_reports _ _ _ Hr no_reports_ok) as [Hs Ht]; [intros r'; specialize (Hn r'); cbn; lia|].
  specialize (Ht r). cbn in Ht. pose proof (counters_uint _ Hs r) as Hc. unfold uint in Hc. split.
  - intros Hin. destruct (exclusive l) eqn:El; [destruct (owed_covered _ _ (claims_ok _ Hs _ _ Hid El) r Hin); lia|].
    destruct (others_idle _ Hs _ _ Hid El) as [-> _].
    assert (quantity empty_report r = 0) as -> by (by destruct r). lia.
  - intros id' l' Hid' Hne. destruct (exclusive l) eqn:El; [|left; by apply (others_idle _ Hs _ _ Hid)].
    right. apply (others_idle _ Hs _ _ Hid'). destruct (exclusive l') eqn:El'; [|done].
    destruct (one_claim _ Hs _ _ Hid El) as [_ Hu]. by destruct Hne; eapply Hu.
Qed.

(** ** Witnesses *)
Definition upload_under_loss : list ReportEvent :=
  [RecordLoss Poisoned 3; Claim 1; ReadSlot 1; ReadSlot 1; ReadSlot 1; ReadSlot 1; RecordLoss Poisoned 2; Claim 2;
   Commit 1; LoadSlot 1; LoadSlot 1; LoadSlot 1; LoadSlot 1].
Definition two_leases : Reports := default no_reports (report_run upload_under_loss no_reports).
Definition acknowledged : Reports := default no_reports (report_run (upload_under_loss ++ [ExchangeSlot 1 false; DropLease 1]) no_reports).
Lemma losses_conserved_witness : 5 = 3 + counters acknowledged Poisoned.
Proof.
  apply (losses_conserved (upload_under_loss ++ [ExchangeSlot 1 false; DropLease 1]) acknowledged Poisoned);
    [reflexivity|by intros []; vm_compute].
Defined.
Lemma losses_reported_once_witness : 0 + 3 <= 5.
Proof.
  apply (losses_reported_once upload_under_loss two_leases 1
    (mkLease (entry_of QueueOverflow 0 :: entry_of RatelimitBackoff 0 :: entry_of NetworkError 0 :: [entry_of Poisoned 3]) true
      (Committing [Poisoned] (Some 5))) Poisoned); [reflexivity|by intros []; vm_compute|vm_compute; reflexivity|by left].
Defined.
