(* ===== verification/RetryBudget.v ===== *)
(** The allowance of an optional retry after a shed upload
    (crates/ottto-service/src/snapshot_retry.rs, [RetryBudget]): at most three
    more requests, in turns of at most a minute, within five minutes. *)
From S2P Require Import Prelude.
From S2P Require Import Std.
From coqutil Require Import Datatypes.RecordSetters.
Import DoubleBraceUpdate.
Local Open Scope Z_scope.

Definition RETENTION : Duration := secs 300.
Definition NETWORK_TURN : Duration := secs 60.
Definition ADDITIONAL_BATCH_POSTS : Z := 3.

Section Budget.
(** The last instant the clock can represent. *)
Context (INSTANT_MAX : Instant).
Definition instant_checked_add (at_ : Instant) (d : Duration) : option Instant :=
  if at_ + d <=? INSTANT_MAX then Some (at_ + d) else None.

Record RetryBudget := mkRetry {
  due : Instant;
  expires : Instant;
  turn_deadline : option Instant;
  posts_left : Z;
  gzip_refused : bool;
}.
Definition after_shed (now : Instant) (delay : Duration) : option RetryBudget :=
  try? expires := instant_checked_add now RETENTION in
  try? due := instant_checked_add now delay in
  if due <? expires then Some (mkRetry due expires None ADDITIONAL_BATCH_POSTS false) else None.
Definition gzip_enabled (default : bool) (b : RetryBudget) : bool := default && negb (gzip_refused b).
Definition refuse_gzip (b : RetryBudget) : RetryBudget := b {{ gzip_refused := true }}.
(** The budget in its next turn, unless the retry is ineligible. *)
Definition enter (now : Instant) (b : RetryBudget) : option RetryBudget :=
  if (now <? due b) || (expires b <=? now) || (posts_left b =? 0) || bool_decide (is_Some (turn_deadline b)) then None
  else Some (b {{ turn_deadline := Some (Z.min (default (expires b) (instant_checked_add now NETWORK_TURN)) (expires b)) }}).
Definition remaining (now : Instant) (b : RetryBudget) : option Duration :=
  try? deadline := turn_deadline b in
  try? left_ := checked_duration_since deadline now in
  if left_ =? 0 then None else Some left_.
(** Charged before the request is attempted. *)
Definition batch_post (now : Instant) (b : RetryBudget) : option (Duration * RetryBudget) :=
  try? left_ := remaining now b in
  if posts_left b =? 0 then None else Some (left_, b {{ posts_left := posts_left b - 1 }}).
Definition defer (now : Instant) (delay : Duration) (b : RetryBudget) : bool * RetryBudget :=
  let b := b {{ turn_deadline := None }} in
  match instant_checked_add now delay with
  | None => (false, b)
  | Some due_ => ((due_ <? expires b) && (0 <? posts_left b), b {{ due := due_ }})
  end.
Definition wake_before (ordinary_deadline : Instant) (b : RetryBudget) : Instant := Z.min (due b) ordinary_deadline.

(** ** Any use of a budget *)
Inductive Use := Enter (now : Instant) | Post (now : Instant) | Defer (now : Instant) (delay : Duration) | RefuseGzip.
(** The budget after a use; one that is refused leaves it as it was. *)
Definition use (u : Use) (b : RetryBudget) : RetryBudget :=
  match u with
  | Enter now => default b (enter now b)
  | Post now => match batch_post now b with Some (_, b) => b | None => b end
  | Defer now delay => (defer now delay b).2
  | RefuseGzip => refuse_gzip b
  end.
(** The instants of the requests a list of uses makes. *)
Fixpoint posts (us : list Use) (b : RetryBudget) : list Instant :=
  match us with
  | [] => []
  | u :: us =>
      (match u with Post now => if bool_decide (is_Some (batch_post now b)) then [now] else [] | _ => [] end) ++ posts us (use u b)
  end.
End Budget.

(** ** Laws *)
Section Laws.
Context (INSTANT_MAX : Instant).
Definition turn_within (b : RetryBudget) : Prop := forall deadline, turn_deadline b = Some deadline -> deadline <= expires b.
Lemma use_expires u b : expires (use INSTANT_MAX u b) = expires b.
Proof.
  destruct b as [d e t n g], u as [now|now|now delay|]; cbn; [| | |done].
  - unfold enter. cbn. by destruct (_ || _).
  - unfold batch_post. destruct (remaining now _); [|done]. cbn. by destruct (n =? 0).
  - unfold defer. cbn. by destruct (instant_checked_add _ _ _).
Qed.
Lemma use_turn u b : turn_within b -> turn_within (use INSTANT_MAX u b).
Proof.
  destruct b as [d e t n g]. unfold turn_within. intros Hb. destruct u as [now|now|now delay|]; cbn in *; [| | |done].
  - unfold enter. cbn. destruct (_ || _); cbn; [done|]. intros deadline [= <-]. lia.
  - unfold batch_post. destruct (remaining now _); [|done]. cbn. by destruct (n =? 0).
  - unfold defer. cbn. by destruct (instant_checked_add _ _ _).
Qed.
(** What a use takes from the allowance is what it posts, before the deadline. *)
Lemma use_posts u b : turn_within b -> 0 <= posts_left b ->
  0 <= posts_left (use INSTANT_MAX u b) /\
  Z.of_nat (length (posts INSTANT_MAX [u] b)) + posts_left (use INSTANT_MAX u b) = posts_left b /\
  Forall (fun at_ => at_ < expires b) (posts INSTANT_MAX [u] b).
Proof.
  destruct b as [d e t n g]. unfold turn_within. intros Hb Hn. destruct u as [now|now|now delay|]; cbn [posts app use]; rewrite ?app_nil_r.
  - unfold enter. cbn in *. by destruct (_ || _).
  - unfold batch_post, remaining. cbn in *. destruct t as [deadline|]; [|done]. specialize (Hb deadline eq_refl).
    unfold checked_duration_since. destruct (Z.ltb_spec deadline now); [done|]. destruct (Z.eqb_spec (deadline - now) 0); [done|].
    destruct (n =? 0) eqn:Hz; [done|]. rewrite bool_decide_eq_true_2 by done. apply Z.eqb_neq in Hz.
    cbn. unfold constant. split; [lia|]. split; [lia|]. repeat constructor. lia.
  - unfold defer. cbn in *. by destruct (instant_checked_add _ _ _).
  - done.
Qed.
Lemma posts_cons u us b : posts INSTANT_MAX (u :: us) b = posts INSTANT_MAX [u] b ++ posts INSTANT_MAX us (use INSTANT_MAX u b).
Proof. cbn. by rewrite app_nil_r. Qed.
Lemma posts_bounded us b : turn_within b -> 0 <= posts_left b ->
  Z.of_nat (length (posts INSTANT_MAX us b)) <= posts_left b /\ Forall (fun at_ => at_ < expires b) (posts INSTANT_MAX us b).
Proof.
  revert b. induction us as [|u us IH]; intros b Ht Hn; [by split|]. rewrite posts_cons.
  destruct (use_posts u b Ht Hn) as (H0 & Hl & Hf). destruct (IH _ (use_turn u b Ht) H0) as [Hl' Hf']. rewrite use_expires in Hf'.
  rewrite length_app. split; [lia|by apply Forall_app].
Qed.

(** An allowance is spent once: after a shed, however its turns are entered,
    deferred and woken, at most three more requests are made, all of them
    within five minutes of the shed. *)
Theorem retry_posts_bounded now delay b us : after_shed INSTANT_MAX now delay = Some b ->
  Z.of_nat (length (posts INSTANT_MAX us b)) <= 3 /\ Forall (fun at_ => at_ < now + secs 300) (posts INSTANT_MAX us b).
Proof.
  unfold after_shed, instant_checked_add. intros Hb. destruct (_ <=? _); [|done]. destruct (now + delay <=? _); [|done].
  destruct (_ <? _); [|done]. injection Hb as <-.
  apply (posts_bounded us (mkRetry (now + delay) (now + RETENTION) None ADDITIONAL_BATCH_POSTS false)); [done|]. cbn. unfold ADDITIONAL_BATCH_POSTS. lia.
Qed.
End Laws.

(** ** Witness *)
Definition three_turns : list Use :=
  [Post 0; Enter (secs 66); Post (secs 67); Post (secs 68); Defer (secs 70) (secs 66); Enter (secs 136); Post (secs 137); Post (secs 138)].
Lemma retry_posts_bounded_witness : Z.of_nat (length [secs 67; secs 68; secs 137]) <= 3 /\
  Forall (fun at_ => at_ < 0 + secs 300) [secs 67; secs 68; secs 137].
Proof.
  exact (retry_posts_bounded (2 ^ 80) 0 (secs 66) (mkRetry (secs 66) (secs 300) None 3 false) three_turns eq_refl).
Defined.
