(* ===== verification/Quarantine.v ===== *)
(** Quarantine records of snapshot bodies the backend did not take
    (crates/ottto-service/src/snapshots/scan_index.rs), their retry deadlines
    (snapshot_sync.rs), and the bounded reassessment of a body after the code
    that rebuilds it changed (snapshots/terminal_contract_retry.rs).

    [now] is [current_unix_seconds()].  The process-wide counters of rearmed
    and exhausted records are left out: nothing reads them but log lines. *)
From stdpp Require Import gmap strings.
From S2P Require Import Prelude.
From S2P Require Import Text.
From coqutil Require Import Datatypes.RecordSetters.
Import DoubleBraceUpdate.
Local Open Scope Z_scope.

Definition SNAPSHOT_QUARANTINE_RETRY_SECONDS : Z := 6 * 60 * 60.
Definition SNAPSHOT_CONFLICT_PROBE_SECONDS : Z := 30 * 60.
Definition MAX_SNAPSHOT_RECONSTRUCTION_FAILURES : Z := 4.
Definition RECONSTRUCTION_CONTRACT : Z := 1.
Definition UNKNOWN_CONTRACT : Z := 0.
Definition MAX_CLAIMS : Z := 2.
Definition current_contract : Z := RECONSTRUCTION_CONTRACT.

(** ** The code and wire contract that refused a body *)
Record SnapshotQuarantineWitness := mkWitness {
  contract : string;
  collector_version : string;
  parser_version : string;
  scan_identity_version : string;
  snapshot_schema_version : Z;
  entity_ack_contract : string;
  item_wire_byte_limit : Z;
}.
#[export] Instance SnapshotQuarantineWitness_eq_dec : EqDecision SnapshotQuarantineWitness.
Proof. solve_decision. Defined.

Definition same_retry_contract (a b : SnapshotQuarantineWitness) : bool :=
  bool_decide (contract a = contract b) &&
  bool_decide (scan_identity_version a = scan_identity_version b) &&
  (snapshot_schema_version a =? snapshot_schema_version b) &&
  bool_decide (entity_ack_contract a = entity_ack_contract b) &&
  (item_wire_byte_limit a =? item_wire_byte_limit b).

(** [contract.split(marker).next()]. *)
Definition contract_base (text : string) : list Z :=
  match split_at_first (as_bytes ":upload_context:") (as_bytes text) with
  | Some (base, _) => base
  | None => as_bytes text
  end.
Definition quarantine_context_only_changed (previous active : SnapshotQuarantineWitness) : bool :=
  if bool_decide (contract previous = contract active) ||
     bool_decide (contract_base (contract previous) <> contract_base (contract active)) then false
  else same_retry_contract (previous {{ contract := contract active }}) active.
Definition same_retry_contract_any_context (a b : SnapshotQuarantineWitness) : bool :=
  same_retry_contract a b || quarantine_context_only_changed a b.

(** ** Records *)
Inductive SnapshotQuarantineDisposition := RetryPending | UnprovenTerminal | SupersededTerminal.
#[export] Instance SnapshotQuarantineDisposition_eq_dec : EqDecision SnapshotQuarantineDisposition.
Proof. solve_decision. Defined.

Record SnapshotQuarantineRecord := mkQuarantine {
  reconstruction_contract : Z;
  contract_retry_claims : option Z;
  witness : SnapshotQuarantineWitness;
  retry_after_unix_seconds : Z;
  upload_body_witness : option string;
  failed_reconstruction_count : Z;
  disposition : SnapshotQuarantineDisposition;
}.
#[export] Instance SnapshotQuarantineRecord_eq_dec : EqDecision SnapshotQuarantineRecord.
Proof. solve_decision. Defined.

Definition retry_pending (r : SnapshotQuarantineRecord) : bool := bool_decide (disposition r = RetryPending).

Definition snapshot_quarantine_deadline_is_bounded_at (r : SnapshotQuarantineRecord) (now : Z) : bool :=
  match disposition r with
  | RetryPending =>
      (failed_reconstruction_count r <? MAX_SNAPSHOT_RECONSTRUCTION_FAILURES) &&
      (retry_after_unix_seconds r <=? saturating_add 64 now (SNAPSHOT_QUARANTINE_RETRY_SECONDS * 2))
  | UnprovenTerminal =>
      (failed_reconstruction_count r =? MAX_SNAPSHOT_RECONSTRUCTION_FAILURES) && (retry_after_unix_seconds r =? 0)
  | SupersededTerminal =>
      (failed_reconstruction_count r <=? MAX_SNAPSHOT_RECONSTRUCTION_FAILURES) && (retry_after_unix_seconds r =? 0)
  end.

(** Changes each value of a table, and says whether any of them changed. *)
Definition update_each {V} (f : string -> V -> V * bool) (m : gmap string V) : gmap string V * bool :=
  (map_imap (fun k v => Some (f k v).1) m, existsb (fun e => (f e.1 e.2).2) (map_to_list m)).

(** ** Deadlines: staggered over [[from + base, from + 2 * base)] by the key *)
Section Deadlines.
Context (sha256 : list Z -> list Z).
Definition from_be_bytes (bytes : list Z) : Z := foldl (fun n b => n * 256 + b) 0 bytes.
Definition jittered_retry_after (key : string) (from base : Z) : Z :=
  saturating_add 64 (saturating_add 64 from base) (from_be_bytes (take 8 (sha256 (as_bytes key))) mod base).
Definition quarantine_retry_after (fingerprint : string) (now : Z) : Z :=
  jittered_retry_after fingerprint now SNAPSHOT_QUARANTINE_RETRY_SECONDS.
Definition conflict_probe_after (fingerprint : string) (from : Z) : Z :=
  jittered_retry_after fingerprint from SNAPSHOT_CONFLICT_PROBE_SECONDS.

(** ** Reassessment under a new reconstruction contract *)
Definition rearm_record (active : SnapshotQuarantineWitness) (now : Z) (fingerprint : string)
    (r : SnapshotQuarantineRecord) : SnapshotQuarantineRecord * bool :=
  let unassessed_pending := retry_pending r &&
    ((reconstruction_contract r =? UNKNOWN_CONTRACT) || bool_decide (is_Some (contract_retry_claims r))) in
  if (negb (bool_decide (disposition r = UnprovenTerminal)) && negb unassessed_pending) ||
     (current_contract <=? reconstruction_contract r) then (r, false)
  else
    (r {{ disposition := RetryPending }}
       {{ failed_reconstruction_count := MAX_SNAPSHOT_RECONSTRUCTION_FAILURES - 1 }}
       {{ retry_after_unix_seconds := quarantine_retry_after fingerprint now }}
       {{ reconstruction_contract := current_contract }}
       {{ contract_retry_claims := Some 0 }}
       {{ witness := active }}, true).
End Deadlines.

Definition claim (r : SnapshotQuarantineRecord) : SnapshotQuarantineRecord :=
  match contract_retry_claims r with
  | Some claims => r {{ contract_retry_claims := Some (saturating_add 16 claims 1) }}
  | None => r
  end.

(** A record that owes no more: its failures are spent. *)
Definition terminal (r : SnapshotQuarantineRecord) : SnapshotQuarantineRecord :=
  r {{ failed_reconstruction_count := MAX_SNAPSHOT_RECONSTRUCTION_FAILURES }}
    {{ disposition := UnprovenTerminal }}
    {{ retry_after_unix_seconds := 0 }}.

Definition exhaust (r : SnapshotQuarantineRecord) : SnapshotQuarantineRecord * bool :=
  match contract_retry_claims r with
  | Some claims => if (MAX_CLAIMS <=? claims) && retry_pending r then (terminal r, true) else (r, false)
  | None => (r, false)
  end.

Definition superseded (r : SnapshotQuarantineRecord) : SnapshotQuarantineRecord :=
  r {{ disposition := SupersededTerminal }} {{ retry_after_unix_seconds := 0 }}.

(** The same body under the same contract: the larger claim owns the cooldown. *)
Definition merge_same_contract (claims : Z) (record other : SnapshotQuarantineRecord) : SnapshotQuarantineRecord :=
  let previous := contract_retry_claims record in
  let record := record {{ upload_body_witness :=
    match upload_body_witness record with None => upload_body_witness other | some => some end }} in
  let record := record {{ contract_retry_claims := Some (Z.max (default 0 previous) claims) }} in
  let newer := match previous with Some n => n <? claims | None => true end in
  let not_older := match previous with Some n => n <=? claims | None => true end in
  let record := if newer && retry_pending record
    then record {{ retry_after_unix_seconds := Z.max (retry_after_unix_seconds record) (retry_after_unix_seconds other) }}
    else record in
  if not_older && bool_decide (disposition other = UnprovenTerminal) &&
     negb (bool_decide (disposition record = SupersededTerminal))
  then record {{ disposition := disposition other }}
              {{ failed_reconstruction_count := failed_reconstruction_count other }}
              {{ retry_after_unix_seconds := 0 }}
  else record.

Definition merge_claims (record other : SnapshotQuarantineRecord) : SnapshotQuarantineRecord * bool :=
  match contract_retry_claims other with
  | None => (record, false)
  | Some claims =>
      if bool_decide (is_Some (upload_body_witness record)) && bool_decide (is_Some (upload_body_witness other)) &&
         bool_decide (upload_body_witness record <> upload_body_witness other) then (record, false)
      else if reconstruction_contract record <? reconstruction_contract other then
        (if bool_decide (disposition record = SupersededTerminal) then superseded other else other, true)
      else if negb (reconstruction_contract record =? reconstruction_contract other) then (record, false)
      else let merged := merge_same_contract claims record other in (merged, bool_decide (merged <> record))
  end.

Definition merge_maps (records other : gmap string SnapshotQuarantineRecord) :
    gmap string SnapshotQuarantineRecord * bool :=
  update_each (fun fingerprint record =>
    match other !! fingerprint with Some other => merge_claims record other | None => (record, false) end) records.

(** ** Laws *)
Abbreviation bounded := snapshot_quarantine_deadline_is_bounded_at.

Lemma lookup_update_each {V} (f : string -> V -> V * bool) m k :
  (update_each f m).1 !! k = (fun v => (f k v).1) <$> m !! k.
Proof. cbn. rewrite map_lookup_imap. by destruct (m !! k). Qed.

Lemma update_each_changed {V} (f : string -> V -> V * bool) m :
  (update_each f m).2 = true <-> exists k v, m !! k = Some v /\ (f k v).2 = true.
Proof.
  cbn. rewrite existsb_exists. split.
  - intros ([k v] & Hin & Hf). exists k, v. split; [|done].
    by apply elem_of_map_to_list, list_elem_of_In.
  - intros (k & v & Hk & Hf). exists (k, v). split; [|done].
    by apply list_elem_of_In, elem_of_map_to_list.
Qed.

Lemma update_each_all {V} (P : string -> V -> Prop) (f : string -> V -> V * bool) m :
  (forall k v, P k v -> P k (f k v).1) -> map_Forall P m -> map_Forall P (update_each f m).1.
Proof.
  intros Hf Hm k v. rewrite lookup_update_each.
  destruct (m !! k) as [w|] eqn:Ew; cbn; [|done]. intros [= <-]. by apply Hf, Hm.
Qed.

Section DeadlineLaws.
Context (sha256 : list Z -> list Z).
Lemma jittered_range key from base :
  0 < base -> 0 <= from -> from + 2 * base <= umax 64 ->
  from + base <= jittered_retry_after sha256 key from base < from + 2 * base.
Proof.
  intros Hb Hf Hm. unfold jittered_retry_after, saturating_add.
  pose proof (Z.mod_pos_bound (from_be_bytes (take 8 (sha256 (as_bytes key)))) base Hb). lia.
Qed.

Lemma jittered_le key from base :
  0 < base -> 0 <= from -> jittered_retry_after sha256 key from base <= saturating_add 64 from (base * 2).
Proof.
  intros Hb Hf. unfold jittered_retry_after, saturating_add.
  pose proof (Z.mod_pos_bound (from_be_bytes (take 8 (sha256 (as_bytes key)))) base Hb). lia.
Qed.

Lemma quarantine_retry_le fingerprint now :
  0 <= now -> quarantine_retry_after sha256 fingerprint now <= saturating_add 64 now (SNAPSHOT_QUARANTINE_RETRY_SECONDS * 2).
Proof. by apply jittered_le. Qed.

Lemma conflict_probe_le fingerprint now :
  0 <= now -> conflict_probe_after sha256 fingerprint now <= saturating_add 64 now (SNAPSHOT_QUARANTINE_RETRY_SECONDS * 2).
Proof.
  intros Hn. etrans; [apply jittered_le; [done|lia]|].
  unfold saturating_add, SNAPSHOT_CONFLICT_PROBE_SECONDS, SNAPSHOT_QUARANTINE_RETRY_SECONDS. lia.
Qed.

Lemma rearm_bounded active now fingerprint r :
  0 <= now -> bounded r now = true -> bounded (rearm_record sha256 active now fingerprint r).1 now = true.
Proof.
  intros Hn Hr. unfold rearm_record. case_match; cbn [fst]; [done|].
  unfold bounded. cbn. apply Z.leb_le, quarantine_retry_le, Hn.
Qed.
End DeadlineLaws.

Lemma bounded_later r now now' : now <= now' -> bounded r now = true -> bounded r now' = true.
Proof.
  intros Hn. unfold bounded. destruct (disposition r); try done.
  rewrite !andb_true_iff, !Z.leb_le. unfold saturating_add. lia.
Qed.

Lemma terminal_bounded r now : bounded (terminal r) now = true.
Proof. done. Qed.

Lemma superseded_bounded r now : bounded r now = true -> bounded (superseded r) now = true.
Proof.
  destruct r as [? ? ? ? ? ? d]. unfold bounded. cbn. intros Hr. rewrite andb_true_r. apply Z.leb_le.
  destruct d; zbool; unfold MAX_SNAPSHOT_RECONSTRUCTION_FAILURES in *; lia.
Qed.

Lemma exhaust_bounded r now : bounded r now = true -> bounded (exhaust r).1 now = true.
Proof. intros Hr. unfold exhaust. by repeat case_match. Qed.

Lemma claim_bounded r now : bounded r now = true -> bounded (claim r) now = true.
Proof. unfold claim. by case_match. Qed.

Lemma merge_same_bounded claims r other now : 0 <= now ->
  bounded r now = true -> bounded other now = true -> bounded (merge_same_contract claims r other) now = true.
Proof.
  destruct r as [rc cl w ra body fc d], other as [rc' cl' w' ra' body' fc' d'].
  intros Hn Hr Ho. unfold merge_same_contract, retry_pending. cbn [contract_retry_claims disposition].
  set (newer := match cl with Some n => n <? claims | None => true end).
  set (not_older := match cl with Some n => n <=? claims | None => true end). clearbody newer not_older.
  assert (0 <= umax 64) by done. 
  unfold snapshot_quarantine_deadline_is_bounded_at, SNAPSHOT_QUARANTINE_RETRY_SECONDS in *.
  destruct d, d', newer, not_older; cbn in *;
    repeat (case_bool_decide; try discriminate); unfold constant; cbn; zbool;
    rewrite ?andb_true_iff, ?Z.leb_le, ?Z.ltb_lt, ?Z.eqb_eq; unfold constant, saturating_add in *;
    cbn in *; try lia; congruence.
Qed.

Lemma merge_claims_bounded r other now : 0 <= now ->
  bounded r now = true -> bounded other now = true -> bounded (merge_claims r other).1 now = true.
Proof.
  intros Hn Hr Ho. unfold merge_claims. repeat case_match; cbn [fst]; try done;
    [by apply superseded_bounded|by apply merge_same_bounded].
Qed.

Lemma merge_maps_bounded records other now : 0 <= now ->
  map_Forall (fun _ r => bounded r now = true) records -> map_Forall (fun _ r => bounded r now = true) other ->
  map_Forall (fun _ r => bounded r now = true) (merge_maps records other).1.
Proof.
  intros Hn Hr Ho. apply update_each_all; [|done]. intros k r Hk.
  destruct (other !! k) as [o|] eqn:Eo; [|done]. apply merge_claims_bounded; [done..|by apply (Ho k)].
Qed.

(** A merge never lowers what was already claimed, and never revives what the
    scan replaced. *)
Lemma merge_claims_monotone r other :
  reconstruction_contract r = reconstruction_contract other ->
  default 0 (contract_retry_claims r) <= default 0 (contract_retry_claims (merge_claims r other).1).
Proof.
  intros He. unfold merge_claims. rewrite He, Z.ltb_irrefl, Z.eqb_refl.
  destruct (contract_retry_claims other) as [c|]; cbn [negb]; [|done].
  case_match; cbn [fst]; [done|]. unfold merge_same_contract.
  repeat case_match; cbn in *; simplify_eq/=; lia.
Qed.

Lemma merge_same_superseded claims r other :
  disposition r = SupersededTerminal -> disposition (merge_same_contract claims r other) = SupersededTerminal.
Proof.
  destruct r as [rc cl w ra body fc d]. cbn [disposition]. intros ->. unfold merge_same_contract, retry_pending. cbn.
  rewrite (bool_decide_eq_false_2 (SupersededTerminal = RetryPending)), andb_false_r by done. cbn.
  by rewrite (bool_decide_eq_true_2 (SupersededTerminal = SupersededTerminal)), andb_false_r by done.
Qed.

Lemma merge_claims_superseded r other :
  disposition r = SupersededTerminal -> disposition (merge_claims r other).1 = SupersededTerminal.
Proof.
  intros Hr. unfold merge_claims. rewrite (bool_decide_eq_true_2 (disposition r = _)) by done.
  repeat (case_match; cbn [fst]; try done); first [by apply merge_same_superseded|by destruct other].
Qed.
