(* ===== verification/Refusals.v ===== *)
(** Permanent refusals of exact snapshot bodies and their re-offers
    (crates/ottto-service/src/upload_receipts.rs, snapshot_client.rs,
    snapshot_sync/stale_owed.rs, snapshot_sync/reason_reoffer.rs).

    A refusal names the body the backend refused and why.  Its [revisions] are
    older refused bodies of the same entity, a [BTreeMap] by body.  What a
    serialized body says under a key ([Value::get], [as_u64], [pointer]) is
    serde_json's: parameters of [note_exposure]. *)
From stdpp Require Import gmap strings.
From S2P Require Import Prelude.
From S2P Require Import OrdMap.
From coqutil Require Import Datatypes.RecordSetters.
Import DoubleBraceUpdate.
Local Open Scope Z_scope.

(** ** Reasons *)
Inductive RejectedUsageReason :=
  | UsageAccountingAuthorityDowngrade
  | ReservedSessionIdentitySeparator
  | OccurredAtBeyondFutureHorizon
  | HourBucketCountAboveCap
  | DivergentDuplicateLogicalSession
  | AcceptedLogTransactionCap
  | OccurredAtBeyondWriteFenceFuture
  | OccurredAtBeyondJournalRetention
  | BodyExceedsMaxBytes
  | OccurredAtRequiresTimezone
  | OccurredAtUtcNormalizationOutOfRange
  | AcceptedLogStaleOlderUpload
  | Other.
#[export] Instance RejectedUsageReason_eq_dec : EqDecision RejectedUsageReason.
Proof. solve_decision. Defined.

Definition is_dominated_reason (r : RejectedUsageReason) : bool :=
  match r with UsageAccountingAuthorityDowngrade => true | _ => false end.

Definition wire_reasons : list (string * RejectedUsageReason) :=
  [("usage_accounting_authority_downgrade", UsageAccountingAuthorityDowngrade);
   ("reserved_session_identity_separator", ReservedSessionIdentitySeparator);
   ("occurred_at_beyond_future_horizon", OccurredAtBeyondFutureHorizon);
   ("hour_bucket_count_above_cap", HourBucketCountAboveCap);
   ("divergent_duplicate_logical_session", DivergentDuplicateLogicalSession);
   ("accepted_log_transaction_cap", AcceptedLogTransactionCap);
   ("accepted_log_stale_older_upload", AcceptedLogStaleOlderUpload);
   ("occurred_at_beyond_write_fence_future", OccurredAtBeyondWriteFenceFuture);
   ("occurred_at_beyond_journal_retention", OccurredAtBeyondJournalRetention);
   ("body_exceeds_max_bytes", BodyExceedsMaxBytes);
   ("occurred_at_requires_timezone", OccurredAtRequiresTimezone);
   ("occurred_at_utc_normalization_out_of_range", OccurredAtUtcNormalizationOutOfRange)]%string.
Definition from_wire (reason : string) : RejectedUsageReason :=
  match find (fun e => bool_decide (e.1 = reason)) wire_reasons with Some (_, r) => r | None => Other end.

Definition ORIGINAL_PAIR_CANDIDATE_UNPROVED : string := "original_pair_candidate_unproved".
Definition USAGE_DECREASE_HELD_FOR_REVIEW : string := "usage_decrease_held_for_review".
Definition USAGE_DECREASE_REFUSED_AFTER_REVIEW : string := "usage_decrease_refused_after_review".

(** [SnapshotEntityRejection::safe_reason]: a fixed name or [other]. *)
Definition safe_reason (reason : string) : string :=
  if bool_decide (reason ∈ wire_reasons.*1) ||
     bool_decide (reason ∈ ["accepted_log_stale_older_mixed"%string; ORIGINAL_PAIR_CANDIDATE_UNPROVED;
                            USAGE_DECREASE_HELD_FOR_REVIEW; USAGE_DECREASE_REFUSED_AFTER_REVIEW])
  then reason else "other".
Definition usage_decrease_hold (reason : string) : bool :=
  bool_decide (safe_reason reason ∈ [USAGE_DECREASE_HELD_FOR_REVIEW; USAGE_DECREASE_REFUSED_AFTER_REVIEW]).
Definition ordinary_retryable (reason : string) : bool :=
  bool_decide (safe_reason reason ∈ ["accepted_log_stale_older_mixed"%string; "other"%string]).

(** ** Re-offers *)
Definition REOFFER_INTERVAL_SECONDS : Z := 86400.
Definition REOFFER_CLOCK_TOLERANCE_SECONDS : Z := 600.

Inductive RefusalReoffer :=
  | OriginalPair (retry_after_unix_seconds : Z)
  | LegacyOther (retry_after_unix_seconds : Z)
  | Classified.
#[export] Instance RefusalReoffer_eq_dec : EqDecision RefusalReoffer.
Proof. solve_decision. Defined.

Definition retry_after (r : RefusalReoffer) : option Z :=
  match r with OriginalPair at_ | LegacyOther at_ => Some at_ | Classified => None end.
Definition with_retry_after (at_ : Z) (r : RefusalReoffer) : RefusalReoffer :=
  match r with OriginalPair _ => OriginalPair at_ | LegacyOther _ => LegacyOther at_ | Classified => Classified end.
Definition next_offer_after (observed_at : Z) : Z := saturating_add 64 observed_at REOFFER_INTERVAL_SECONDS.
Definition latest_valid_deadline (now : Z) : Z :=
  saturating_add 64 (saturating_add 64 now REOFFER_INTERVAL_SECONDS) REOFFER_CLOCK_TOLERANCE_SECONDS.

(** Counters of one cycle. *)
Record ReofferCounts := mkCounts {
  c_due : Z; c_selected : Z; c_legacy_selected : Z; c_attempted : Z; c_attempted_bytes : Z; c_gate_held : Z;
  c_ineligible_unbound : Z; c_clock_bound_skipped : Z; c_accepted : Z; c_unchanged_unstored : Z;
  c_refused_same : Z; c_refused_other : Z; c_retryable : Z; c_shed : Z; c_failed : Z; c_not_materialized : Z;
  c_deferred_budget : Z; c_outside_policy_window : Z; c_invalid_extension : Z; c_cooldown_conflict_deferred : Z;
}.
#[export] Instance ReofferCounts_eq_dec : EqDecision ReofferCounts.
Proof. solve_decision. Defined.
Definition no_counts : ReofferCounts := mkCounts 0 0 0 0 0 0 0 0 0 0 0 0 0 0 0 0 0 0 0 0.
Definition should_log_change (previous : option ReofferCounts) (counts : ReofferCounts) : bool :=
  (0 <? c_selected counts) || (0 <? c_attempted counts) || (0 <? c_clock_bound_skipped counts) ||
  (0 <? c_invalid_extension counts) ||
  match previous with Some old => bool_decide (old <> counts) | None => bool_decide (counts <> no_counts) end.

(** ** Refusals *)
Record Exposure := mkExposure {
  first_held_unix : option Z;
  requests : option Z;
  tokens : option Z;
}.
Definition new_exposure (now : Z) : Exposure := mkExposure (Some now) None None.

Inductive PermanentSnapshotRejection := mkRejection {
  body_witness : string;
  reason : RejectedUsageReason;
  reoffer : option RefusalReoffer;
  exposure : option Exposure;
  revisions : list (string * PermanentSnapshotRejection);
}.

Definition is_stale (r : PermanentSnapshotRejection) : bool := bool_decide (reason r = AcceptedLogStaleOlderUpload).
Definition owed (r : PermanentSnapshotRejection) : bool := is_stale r && bool_decide (exposure r = None).
Definition has_stale_debt (r : PermanentSnapshotRejection) : bool :=
  owed r || existsb (fun e => owed e.2) (revisions r).
Definition refused_body (body : string) (r : PermanentSnapshotRejection) : bool :=
  bool_decide (body_witness r = body) || bool_decide (is_Some (bt_get body (revisions r))).
Definition owed_stale_body (body : string) (r : PermanentSnapshotRejection) : bool :=
  (owed r && bool_decide (body_witness r = body)) ||
  match bt_get body (revisions r) with Some old => owed old | None => false end.
(** The refusal and its older revisions. *)
Definition all_revisions (r : PermanentSnapshotRejection) : list PermanentSnapshotRejection := r :: (revisions r).*2.
Definition covered_stale_body (body : string) (r : PermanentSnapshotRejection) : bool :=
  existsb (fun old => bool_decide (body_witness old = body) && is_stale old && negb (owed old)) (all_revisions r).

(** What a new refusal of [next] keeps of the refusal it replaces. *)
Definition retained_revisions (next : string) (old : option PermanentSnapshotRejection) :
    list (string * PermanentSnapshotRejection) :=
  match old with
  | None => []
  | Some old =>
      let kept := revisions old in
      let kept := if owed old && negb (bool_decide (body_witness old = next))
        then (bt_insert (body_witness old) (old {{ revisions := nil }}) kept).1 else kept in
      (bt_remove next kept).1
  end.

(** What the acceptance of [body] leaves of a refusal. *)
Definition settle_refusal (body : string) (refusal : PermanentSnapshotRejection) : option PermanentSnapshotRejection :=
  let kept := (bt_remove body (revisions refusal)).1 in
  if bool_decide (body_witness refusal = body) then
    match kept with
    | [] => None
    | (_, remaining) :: rest => Some (remaining {{ revisions := rest }})
    end
  else if owed refusal || negb (bool_decide (kept = [])) then Some (refusal {{ revisions := kept }}) else None.

(** ** Exposure: the requests and tokens a refusal holds back *)
Definition TOKEN_KEYS : list string :=
  ["input_tokens"; "output_tokens"; "cache_read_tokens"; "cache_creation_5m_tokens"; "cache_creation_1h_tokens"]%string.
Section NoteExposure.
Context (get_u64 : string -> option Z) (input_token_scope : option string).
Definition exposed_tokens : option Z :=
  if bool_decide (input_token_scope ∈ [Some "inclusive_cached"; Some "uncached"; Some "total_only"]%string) then
    let keys := filter (fun key => ~ (input_token_scope = Some "inclusive_cached" /\ key = "cache_read_tokens")%string) TOKEN_KEYS in
    try? sum := foldl (fun sum key => try? sum := sum in try? n := get_u64 key in checked_add 64 sum n) (Some 0) keys in
    checked_add 64 sum (default 0 (get_u64 "unattributed_total_tokens"%string))
  else None.
Definition note_exposure (e : Exposure) : Exposure :=
  e {{ requests := get_u64 "request_count"%string }} {{ tokens := exposed_tokens }}.
End NoteExposure.

Record RefusalExposure := mkRefusalExposure {
  owed_entities : Z;
  held_terminal_entities : Z;
  known_requests : Z;
  known_tokens : Z;
  unknown_request_entities : Z;
  unknown_token_entities : Z;
  unknown_age_entities : Z;
  oldest_age_seconds : Z;
}.
#[export] Instance RefusalExposure_eq_dec : EqDecision RefusalExposure.
Proof. solve_decision. Defined.
Definition no_exposure : RefusalExposure := mkRefusalExposure 0 0 0 0 0 0 0 0.

(** [Iterator::min] of optional numbers. *)
Definition least (l : list Z) : option Z :=
  match l with [] => None | x :: l => Some (foldl Z.min x l) end.

Definition expose (now : Z) (counts : RefusalExposure) (refusal : PermanentSnapshotRejection) : RefusalExposure :=
  match List.filter owed (all_revisions refusal) with
  | [] => counts
  | first_owed :: more =>
      let counts := counts {{ owed_entities := owed_entities counts + 1 }} in
      let counts := match exposure first_owed ≫= requests with
        | Some n => counts {{ known_requests := saturating_add 64 (known_requests counts) n }}
        | None => counts {{ unknown_request_entities := unknown_request_entities counts + 1 }}
        end in
      let counts := match exposure first_owed ≫= tokens with
        | Some n => counts {{ known_tokens := saturating_add 64 (known_tokens counts) n }}
        | None => counts {{ unknown_token_entities := unknown_token_entities counts + 1 }}
        end in
      match least (omap (fun r => exposure r ≫= first_held_unix) (first_owed :: more)) with
      | Some first => counts {{ oldest_age_seconds := Z.max (oldest_age_seconds counts) (saturating_sub now first) }}
      | None => counts {{ unknown_age_entities := unknown_age_entities counts + 1 }}
      end
  end.
Definition refusal_exposure_of (now : Z) (refusals : list PermanentSnapshotRejection) : RefusalExposure :=
  foldl (expose now) no_exposure refusals.
