(* ===== verification/UploadLedger.v ===== *)
(** The upload progress ledger: what of each snapshot body was accepted, held
    or refused (crates/ottto-service/src/snapshot_sync.rs,
    [SnapshotUploadProgress]; snapshot_sync/stale_owed.rs), and the paced
    resends of one source pass under a changed upload context
    (snapshot_sync/upload_context_resend.rs, [Cycle]).

    Counts and allowances are unsigned; [usize] is 64 bits.  A candidate of a
    receipt is the set of its entities; [prepare_context_receipt_candidates]
    fills the cycle from the scan index and is not modelled here.

    A method that changes the ledger is a function to the ledger after it.
    [now] is [current_unix_seconds()].  [active_quarantine_witness] is not an
    option: [new] and [load] set it and nothing clears it.  [stored] stands for
    the evidence kept beside the ledger, the accepted identity buckets
    (claude_request_identity/accepted.rs) and cache states
    (cache_observations.rs), whose operations the uploader reaches through
    [StoredState] of UploadPage.  The pending cache heads, the receipt
    candidates and the recovery companion belong to the scan index and are left
    out. *)
From stdpp Require Import gmap strings.
From S2P Require Import Prelude.
From S2P Require Import Text.
From S2P Require Import Quarantine.
From S2P Require Import Refusals.
From coqutil Require Import Datatypes.RecordSetters.
Import DoubleBraceUpdate.
Local Open Scope Z_scope.

Definition SNAPSHOT_BATCH_LIMIT : nat := 50.
Definition SNAPSHOT_BATCH_MAX_BYTES : Z := 2 * 1024 * 1024.

Record ResendCounts := mkResendCounts {
  r_entities : Z;
  r_bytes : Z;
  r_identical : Z;
  r_changed : Z;
  budget_deferred : Z;
  server_conflicts : Z;
}.
Record Cycle := mkCycle {
  active : option string;
  candidates : gset string;
  stamped : gset string;
  resends : gmap string bool;
  attempted : gset string;
  files : list (gset string * Z);
  not_stored : gset string;
  counts : ResendCounts;
  remaining_bytes : Z;
  ordinary_pending : gset string;
  deferred : gset string;
  bootstrap_blocks_catchup : bool;
}.
Definition default_cycle : Cycle :=
  mkCycle None ∅ ∅ ∅ ∅ [] ∅ (mkResendCounts 0 0 0 0 0 0) 0 ∅ ∅ false.
Definition new_cycle (context : string) : Cycle :=
  default_cycle {{ active := Some context }} {{ remaining_bytes := SNAPSHOT_BATCH_MAX_BYTES }}.

Definition is_candidate (entity : string) (c : Cycle) : bool := bool_decide (entity ∈ candidates c).
Definition requires_resend (entity : string) (stamps : gmap string string) (c : Cycle) : bool :=
  is_candidate entity c && negb (bool_decide (entity ∈ stamped c)) &&
  match active c with Some context => bool_decide (stamps !! entity <> Some context) | None => false end.
Definition is_catchup (entity : string) (c : Cycle) : bool := bool_decide (resends c !! entity = Some true).
Definition reserve_ordinary_bytes (bytes : Z) (c : Cycle) : Cycle :=
  c {{ remaining_bytes := saturating_sub (remaining_bytes c) bytes }}.
Definition admit_catchup_bytes (bytes : Z) (c : Cycle) : bool * Cycle :=
  if remaining_bytes c <? bytes then (false, c)
  else (true, c {{ remaining_bytes := remaining_bytes c - bytes }}).
Definition ordinary_work_is_in (entities : gset string) (c : Cycle) : bool :=
  negb (bootstrap_blocks_catchup c) && bool_decide (ordinary_pending c ⊆ entities).
Definition has_pending_ordinary (c : Cycle) : bool := negb (bool_decide (ordinary_pending c = ∅)).
Definition retain_candidates (entities : gset string) (c : Cycle) : Cycle :=
  c {{ candidates := entities }}
    {{ resends := filter (fun e => e.1 ∈ entities) (resends c) }}
    {{ stamped := filter (fun e => e ∈ entities) (stamped c) }}.
Definition note_attempt (entity : string) (bytes : Z) (c : Cycle) : Cycle :=
  let c := if is_catchup entity c then c else c {{ ordinary_pending := (ordinary_pending c ∖ {[entity]} : gset string) }} in
  match (resends c !! entity : option bool) with
  | None => c
  | Some identical =>
      let n := counts c in
      let n := n {{ r_bytes := saturating_add 64 (r_bytes n) bytes }} in
      if bool_decide (entity ∈ attempted c) then c {{ counts := n }}
      else
        let n := n {{ r_entities := r_entities n + 1 }} in
        let n := if identical then n {{ r_identical := r_identical n + 1 }} else n {{ r_changed := r_changed n + 1 }} in
        c {{ counts := n }} {{ attempted := ({[entity]} ∪ attempted c : gset string) }}
  end.
Definition not_stored_files (c : Cycle) : list (gset string * Z) :=
  filter (fun f => ~ (f.1 ## not_stored c)) (files c).

(** An attempt is bookkeeping: it moves no allowance and no candidate. *)
Lemma note_attempt_requires entity bytes e stamps c :
  requires_resend e stamps (note_attempt entity bytes c) = requires_resend e stamps c.
Proof. destruct c. unfold note_attempt. repeat case_match; done. Qed.

Lemma note_attempt_catchup entity bytes e c : is_catchup e (note_attempt entity bytes c) = is_catchup e c.
Proof. destruct c. unfold note_attempt. repeat case_match; done. Qed.

Lemma note_attempt_deferred entity bytes c : deferred (note_attempt entity bytes c) = deferred c.
Proof. destruct c. unfold note_attempt. repeat case_match; done. Qed.

Lemma admit_spends bytes c ok c' :
  0 <= bytes -> 0 <= remaining_bytes c -> admit_catchup_bytes bytes c = (ok, c') ->
  0 <= remaining_bytes c' /\ remaining_bytes c' = remaining_bytes c - (if ok then bytes else 0).
Proof.
  destruct c. unfold admit_catchup_bytes. cbn. intros. case_match; simplify_eq; cbn; unfold constant; zbool; lia.
Qed.

Lemma admit_keeps_deferred bytes c : deferred (admit_catchup_bytes bytes c).2 = deferred c.
Proof. destruct c. unfold admit_catchup_bytes. by case_match. Qed.

Record HeadConflictChallenge := mkChallenge {
  challenge : string;
  stale_revision_v2_hash : string;
  answer_attempts : Z;
  last_answer_unix : Z;
}.

Record SnapshotUploadProgress {Stored : Type} := mkProgress {
  generation : Z;
  destination_namespace_hash : string;
  historical_replay_generation : option string;
  accepted_fingerprints : gset string;
  accepted_body_witnesses : gmap string string;
  accepted_body_contexts : gmap string string;
  context_resend : Cycle;
  ack_capacity : Z;
  retained_stale_ack_count : Z;
  stored : Stored;
  accepted_cache_heads : gmap string string;
  head_conflict_challenges : gmap string HeadConflictChallenge;
  quarantined_fingerprints : gmap string SnapshotQuarantineRecord;
  permanent_rejections : gmap string PermanentSnapshotRejection;
  active_quarantine_witness : SnapshotQuarantineWitness;
  active_quarantine_retries : gset string;
  active_reason_reoffers : gmap string string;
  attempted_reason_reoffers : gset string;
  reason_reoffer_counts : ReofferCounts;
  terminal_contract_retry_pending_save : bool;
  fresh_context_body_acks : gmap string string;
}.
Arguments SnapshotUploadProgress : clear implicits.
Abbreviation Progress := SnapshotUploadProgress.

Definition MAX_UNSETTLED_ACKS : Z := 4096.
(** [is_sha256_any_case]. *)
Definition is_hexdigit (b : Z) : bool :=
  is_ascii_digit b || ((97 <=? b) && (b <=? 102)) || ((65 <=? b) && (b <=? 70)).
Definition is_snapshot_fingerprint (value : string) : bool :=
  (str_len value =? 64) && forallb is_hexdigit (as_bytes value).

Section Ledger.
Context {Stored : Type} (empty_stored : Stored) (sha256 : list Z -> list Z).
Implicit Types (p : Progress Stored) (fp body : string).

Definition cache_session_key (session : string) : string := of_bytes (hex_encode (sha256 (as_bytes session))).

Definition new_progress (destination : string) (witness : SnapshotQuarantineWitness) : Progress Stored :=
  mkProgress Stored 0 destination None ∅ ∅ ∅ default_cycle MAX_UNSETTLED_ACKS 0 empty_stored ∅ ∅ ∅ ∅ witness
    ∅ ∅ ∅ no_counts false ∅.

(** ** Refusals of the ledger *)
Definition ledger_refused_body p fp body : bool :=
  match permanent_rejections p !! fp with Some r => refused_body body r | None => false end.
Definition ledger_owed_stale_body p fp body : bool :=
  match permanent_rejections p !! fp with Some r => owed_stale_body body r | None => false end.
Definition ledger_covered_stale_body p fp body : bool :=
  match permanent_rejections p !! fp with Some r => covered_stale_body body r | None => false end.
Definition stale_debt p fp : bool :=
  match permanent_rejections p !! fp with Some r => has_stale_debt r | None => false end.
Definition refusal_exposure p (now : Z) : RefusalExposure :=
  refusal_exposure_of now (map_to_list (permanent_rejections p)).*2.
(** The record of [fp] holds exactly [body]. *)
Definition held_body p fp body : bool :=
  match quarantined_fingerprints p !! fp with Some r => bool_decide (upload_body_witness r = Some body) | None => false end.

Definition contains_body p fp body : bool :=
  if ledger_refused_body p fp body then
    ledger_owed_stale_body p fp body || bool_decide (active_reason_reoffers p !! fp <> Some body)
  else if bool_decide (fp ∈ active_quarantine_retries p) then false
  else (bool_decide (accepted_body_witnesses p !! fp = Some body) &&
        negb (requires_resend fp (accepted_body_contexts p) (context_resend p)))
    || held_body p fp body.

(** ** Answers of the backend *)
Definition map_counts (f : ReofferCounts -> ReofferCounts) p : Progress Stored :=
  p {{ reason_reoffer_counts := f (reason_reoffer_counts p) }}.
(** This body's re-offer was sent in this cycle. *)
Definition lease_sent p fp body : bool :=
  bool_decide (active_reason_reoffers p !! fp = Some body) && bool_decide (fp ∈ attempted_reason_reoffers p).
Definition count_if (sent : bool) (f : ReofferCounts -> ReofferCounts) p : Progress Stored :=
  if sent then map_counts f p else p.
Definition with_refusal fp (r : option PermanentSnapshotRejection) p : Progress Stored :=
  p {{ permanent_rejections := (partial_alter (fun _ => r) fp (permanent_rejections p) : gmap string _) }}.
Definition end_lease fp p : Progress Stored :=
  p {{ active_reason_reoffers := (delete fp (active_reason_reoffers p) : gmap string string) }}.
Definition map_record (f : SnapshotQuarantineRecord -> SnapshotQuarantineRecord) fp p : Progress Stored :=
  p {{ quarantined_fingerprints := (alter f fp (quarantined_fingerprints p) : gmap string _) }}.

Definition forget_context fp p : Progress Stored :=
  p {{ accepted_body_contexts := (delete fp (accepted_body_contexts p) : gmap string string) }}.
Definition accept_body fp body p : Progress Stored :=
  p {{ accepted_fingerprints := ({[fp]} ∪ accepted_fingerprints p : gset string) }}
    {{ accepted_body_witnesses := (<[fp := body]> (accepted_body_witnesses p) : gmap string string) }}
    {{ quarantined_fingerprints := (delete fp (quarantined_fingerprints p) : gmap string _) }}
    {{ active_quarantine_retries := (active_quarantine_retries p ∖ {[fp]} : gset string) }}.
Definition record_body fp body p : Progress Stored :=
  let p := count_if (lease_sent p fp body) (fun c => c {{ c_accepted := c_accepted c + 1 }}) (forget_context fp p) in
  end_lease fp (accept_body fp body (with_refusal fp (permanent_rejections p !! fp ≫= settle_refusal body) p)).

(** The failures the record of [fp] already carries count against this body. *)
Definition quarantine_budget p fp body : option SnapshotQuarantineRecord :=
  match quarantined_fingerprints p !! fp with
  | Some r =>
      if bool_decide (upload_body_witness r = Some body) ||
         (bool_decide (upload_body_witness r = None) && bool_decide (is_Some (contract_retry_claims r)))
      then Some r else None
  | None => None
  end.

Definition quarantine_record p fp body (now : Z) : SnapshotQuarantineRecord :=
  let w := active_quarantine_witness p in
  let budget := quarantine_budget p fp body in
  let existing := match budget with Some r => if same_retry_contract (witness r) w then Some r else None | None => None end in
  let stale_owed := ledger_owed_stale_body p fp body in
  let count := if stale_owed then 1 else
    Z.min (match existing with Some r => saturating_add 8 (failed_reconstruction_count r) 1 | None => 1 end)
          MAX_SNAPSHOT_RECONSTRUCTION_FAILURES in
  let d := if negb stale_owed && (count =? MAX_SNAPSHOT_RECONSTRUCTION_FAILURES) then UnprovenTerminal else RetryPending in
  mkQuarantine
    (match budget with Some r => Z.max (reconstruction_contract r) current_contract | None => current_contract end)
    (budget ≫= contract_retry_claims) w
    (if bool_decide (d = UnprovenTerminal) then 0 else quarantine_retry_after sha256 fp now)
    (Some body) count d.

Definition quarantine_body fp body (now : Z) p : Progress Stored :=
  p {{ quarantined_fingerprints := (<[fp := quarantine_record p fp body now]> (quarantined_fingerprints p) : gmap string _) }}
    {{ accepted_fingerprints := (accepted_fingerprints p ∖ {[fp]} : gset string) }}
    {{ accepted_body_witnesses := (delete fp (accepted_body_witnesses p) : gmap string string) }}
    {{ accepted_body_contexts := (delete fp (accepted_body_contexts p) : gmap string string) }}
    {{ active_quarantine_retries := (active_quarantine_retries p ∖ {[fp]} : gset string) }}.

(** The schedule a new refusal for [reason] starts with. *)
Definition first_reoffer (reason : string) (now : Z) : option RefusalReoffer :=
  if bool_decide (reason = ORIGINAL_PAIR_CANDIDATE_UNPROVED) then Some (OriginalPair (next_offer_after now))
  else if bool_decide (from_wire reason = Other) then Some Classified else None.

Definition quarantine_permanent_body fp body (reason : string) (now : Z) p : Progress Stored :=
  let p := count_if (lease_sent p fp body) (fun c =>
    if bool_decide (reason = ORIGINAL_PAIR_CANDIDATE_UNPROVED) then c {{ c_refused_same := c_refused_same c + 1 }}
    else c {{ c_refused_other := c_refused_other c + 1 }}) p in
  let p := map_record terminal fp (quarantine_body fp body now p) in
  let kept := retained_revisions body (permanent_rejections p !! fp) in
  end_lease fp
    (with_refusal fp (Some (mkRejection body (from_wire reason) (first_reoffer reason now) (Some (new_exposure now)) kept)) p).

(** An [unchanged] answer that did not store the body: the verdict of an
    answered refusal retires, unless it owes an answer. *)
Definition retire_refusal fp body p : Progress Stored :=
  if negb (ledger_owed_stale_body p fp body) &&
     match permanent_rejections p !! fp with Some r => bool_decide (body_witness r = body) | None => false end
  then with_refusal fp None p else p.
Definition unstored_record (stale_owed candidate : bool) (now : Z) (r : SnapshotQuarantineRecord) : SnapshotQuarantineRecord :=
  if stale_owed then r {{ disposition := RetryPending }} {{ contract_retry_claims := None }}
  else if candidate then
    if retry_pending r then
      let delay := SNAPSHOT_QUARANTINE_RETRY_SECONDS * 2 ^ Z.min (saturating_sub (failed_reconstruction_count r) 1) 1 in
      r {{ retry_after_unix_seconds := saturating_add 64 now delay }}
    else r
  else terminal r.
Definition hold_unstored_body fp body (now : Z) p : Progress Stored :=
  let p := count_if (lease_sent p fp body) (fun c => c {{ c_unchanged_unstored := c_unchanged_unstored c + 1 }}) p in
  map_record (unstored_record (ledger_owed_stale_body p fp body) (is_candidate fp (context_resend p)) now) fp
    (quarantine_body fp body now (end_lease fp (retire_refusal fp body p))).

Definition quarantine_retryable_body fp body (retry_at now : Z) p : Progress Stored :=
  let p := count_if (lease_sent p fp body) (fun c => c {{ c_retryable := c_retryable c + 1 }}) p in
  let p := quarantine_body fp body now (end_lease fp p) in
  map_record (fun r =>
    (exhaust
      (r {{ failed_reconstruction_count :=
              if bool_decide (is_Some (contract_retry_claims r)) then MAX_SNAPSHOT_RECONSTRUCTION_FAILURES - 1 else 1 }}
         {{ disposition := RetryPending }} {{ retry_after_unix_seconds := retry_at }})).1) fp p.

Definition note_refused_exposure (get_u64 : string -> option Z) (scope : option string) fp p : Progress Stored :=
  p {{ permanent_rejections := (alter (fun r =>
    match exposure r with Some e => r {{ exposure := Some (note_exposure get_u64 scope e) }} | None => r end)
    fp (permanent_rejections p) : gmap string _) }}.

Definition pace_retry fp (now : Z) p : Progress Stored :=
  map_record (fun r => r {{ witness := active_quarantine_witness p }}
                         {{ retry_after_unix_seconds := quarantine_retry_after sha256 fp now }}) fp p.
End Ledger.
