(* ===== verification/UploadCycle.v ===== *)
(** What one sync cycle does to the upload ledger around the upload: the
    retries and re-offers it selects, replays, retirements and head-CAS
    challenges (crates/ottto-service/src/snapshot_sync.rs,
    snapshot_sync/ack_retention.rs).

    The scan index is read through [IndexView]: the facts of
    snapshots/scan_index.rs these methods ask for, with activity times already
    parsed by the time crate. *)
From stdpp Require Import gmap strings.
From S2P Require Import Prelude.
From S2P Require Import Std.
From S2P Require Import Text.
From S2P Require Import Quarantine.
From S2P Require Import Refusals.
From S2P Require Import UploadLedger.
From coqutil Require Import Datatypes.RecordSetters.
Import DoubleBraceUpdate.
Local Open Scope Z_scope.

Definition SNAPSHOT_QUARANTINE_RETRY_LIMIT_PER_CYCLE : Z := 50.

Record IndexView := mkIndexView {
  index_generation : Z;
  eligible : gset string;
  index_quarantined : gmap string SnapshotQuarantineRecord;
  accepted_recorded : gset string;
  activity_at : gmap string Z;
  upload_progress_ack_incidence : gset string;
  retry_queued : gset string;
}.
Record Scope := mkScope { index : IndexView; scope_now : Z; window_start_unix_seconds : Z }.

(** A body of the page: the witness of the body and, for a cache patch without
    a base head, of its probe. *)
Class Entity (Item : Type) := {
  fingerprint : Item -> string;
  item_body_witness : Item -> string;
  probe_body_witness : Item -> option string;
}.

Section UploadCycle.
Context {Stored : Type} (clear_retained : Stored -> Stored) (buckets_empty cache_states_empty : Stored -> bool).
Context (sha256 : list Z -> list Z) {Item : Type} `{Entity Item}.
Implicit Types (p : Progress Stored) (fp body : string).

(** ** Ordinary retries *)
(** The index's record replaces an older contract's or a smaller admission's. *)
Definition restore_record (old : option SnapshotQuarantineRecord) (record : SnapshotQuarantineRecord) :
    SnapshotQuarantineRecord * bool :=
  match old with
  | None => (record, 1 <? reconstruction_contract record)
  | Some old =>
      let older := reconstruction_contract old <? reconstruction_contract record in
      if older || ((reconstruction_contract old =? reconstruction_contract record) &&
                   (item_wire_byte_limit (witness old) <? item_wire_byte_limit (witness record)))
      then ((merge_claims record old).1, older) else (old, false)
  end.
Definition restore_index (index_quarantine : gmap string SnapshotQuarantineRecord) p : Progress Stored * bool :=
  let owed_ := filter (fun e => e.1 ∉ accepted_fingerprints p) index_quarantine in
  let restored := update_each (fun fp record => restore_record (quarantined_fingerprints p !! fp) record) owed_ in
  (p {{ quarantined_fingerprints := (restored.1 ∪ quarantined_fingerprints p : gmap string _) }}, restored.2).

(** A conflict recorded beside the refusal of the same body is newer. *)
Definition newer_retryable_refusal p fp (r : SnapshotQuarantineRecord) : bool :=
  retry_pending r &&
  match permanent_rejections p !! fp with
  | Some refusal => bool_decide (upload_body_witness r = Some (body_witness refusal))
  | None => false
  end.
(** The refusal of exactly this body dominates an older timer. *)
Definition dominate p (newer : gset string) fp (r : SnapshotQuarantineRecord) : SnapshotQuarantineRecord :=
  if bool_decide (fp ∈ newer) then r
  else match permanent_rejections p !! fp with
       | Some refusal =>
           if negb (owed refusal) && bool_decide (upload_body_witness r = Some (body_witness refusal)) then terminal r else r
       | None => r
       end.
Definition version_only (active : SnapshotQuarantineWitness) (r : SnapshotQuarantineRecord) :
    SnapshotQuarantineRecord * bool :=
  if negb (bool_decide (witness r = active)) && same_retry_contract (witness r) active
  then (r {{ witness := active }}, true) else (r, false).

Definition due_retry p (now : Z) fp (r : SnapshotQuarantineRecord) : bool :=
  let active := active_quarantine_witness p in
  negb (stale_debt p fp) &&
  negb match upload_body_witness r with Some body => ledger_refused_body p fp body | None => false end &&
  retry_pending r &&
  ((bool_decide (contract_retry_claims r = None) && negb (same_retry_contract (witness r) active) &&
    negb (quarantine_context_only_changed (witness r) active))
   || (retry_after_unix_seconds r <=? now)).

(** The records of the cycle, before any is selected; what changed. *)
Definition settle_records (index_quarantine : gmap string SnapshotQuarantineRecord) p : Progress Stored * bool :=
  let changed := terminal_contract_retry_pending_save p in
  let p := p {{ active_quarantine_retries := (∅ : gset string) }}
             {{ active_reason_reoffers := (∅ : gmap string string) }}
             {{ attempted_reason_reoffers := (∅ : gset string) }}
             {{ reason_reoffer_counts := no_counts }}
             {{ terminal_contract_retry_pending_save := false }} in
  let p := p {{ quarantined_fingerprints :=
    (filter (fun e => e.1 ∉ accepted_fingerprints p) (quarantined_fingerprints p) : gmap string _) }} in
  let newer := dom (filter (fun e => newer_retryable_refusal p e.1 e.2 = true) (quarantined_fingerprints p)) in
  let '(p, restored) := restore_index index_quarantine p in
  let merged := merge_maps (quarantined_fingerprints p) index_quarantine in
  let spent := update_each (fun fp r => if stale_debt p fp then (r, false) else exhaust r) merged.1 in
  let dominated := map_imap (fun fp r => Some (dominate p newer fp r)) spent.1 in
  let relabelled := update_each (fun _ => version_only (active_quarantine_witness p)) dominated in
  (p {{ quarantined_fingerprints := relabelled.1 }}, changed || restored || merged.2 || spent.2 || relabelled.2).

(** ** Due re-offers *)
Inductive ReofferState := Kept | ClockBound | Unbound | Waiting | OutsideWindow | Due (at_ : Z).
#[local] Instance ReofferState_eq_dec : EqDecision ReofferState.
Proof. solve_decision. Defined.

Definition reoffer_state (scope : Scope) p fp (refusal : PermanentSnapshotRejection) : ReofferState :=
  if has_stale_debt refusal || negb (bool_decide (reason refusal = Other)) || bool_decide (reoffer refusal = Some Classified)
  then Kept
  else
    let at_ := default 0 (reoffer refusal ≫= retry_after) in
    let ix := index scope in
    if latest_valid_deadline (scope_now scope) <? at_ then ClockBound
    else if negb match index_quarantined ix !! fp with
              | Some r => negb (bool_decide (disposition r = SupersededTerminal)) &&
                          bool_decide (upload_body_witness r = Some (body_witness refusal))
              | None => false
              end ||
            negb (bool_decide (fp ∈ eligible ix)) || bool_decide (fp ∈ accepted_fingerprints p) ||
            bool_decide (fp ∈ accepted_recorded ix) then Unbound
    else if scope_now scope <? at_ then Waiting
    else match activity_at ix !! fp with
         | Some activity => if activity <? window_start_unix_seconds scope then OutsideWindow else Due at_
         | None => Due at_
         end.
Definition clamp_reoffer (now : Z) (refusal : PermanentSnapshotRejection) : PermanentSnapshotRejection :=
  refusal {{ reoffer := (with_retry_after (next_offer_after now) <$> reoffer refusal) }}.
Definition count_state (state : ReofferState -> bool) (states : gmap string ReofferState) : Z :=
  Z.of_nat (size (filter (fun e => state e.2 = true) states)).

Definition collect_due_reason_reoffers (scope : Scope) p : Progress Stored * gmap string (Z * string) * bool :=
  if (index_generation (index scope) =? 0) || bool_decide (permanent_rejections p = ∅) then (p, ∅, false)
  else
    let states := map_imap (fun fp r => Some (reoffer_state scope p fp r)) (permanent_rejections p) in
    let due := map_imap (fun fp r =>
      match reoffer_state scope p fp r with Due at_ => Some (at_, body_witness r) | _ => None end) (permanent_rejections p) in
    let refusals := map_imap (fun fp r =>
      Some (match reoffer_state scope p fp r with ClockBound => clamp_reoffer (scope_now scope) r | _ => r end))
      (permanent_rejections p) in
    let number f := count_state f states in
    let c := reason_reoffer_counts p in
    let c := c {{ c_clock_bound_skipped := c_clock_bound_skipped c + number (fun s => bool_decide (s = ClockBound)) }}
               {{ c_ineligible_unbound := c_ineligible_unbound c + number (fun s => bool_decide (s = Unbound)) }}
               {{ c_outside_policy_window := c_outside_policy_window c + number (fun s => bool_decide (s = OutsideWindow)) }}
               {{ c_due := c_due c + Z.of_nat (size due) }} in
    (p {{ permanent_rejections := refusals }} {{ reason_reoffer_counts := c }}, due,
     0 <? number (fun s => bool_decide (s = ClockBound))).

(** The first offer of a legacy record is its only one; every other schedule
    moves a day ahead. *)
Definition reserved (next : Z) (r : option RefusalReoffer) : RefusalReoffer :=
  match r with None => LegacyOther next | Some r => with_retry_after next r end.
Definition is_legacy (r : option RefusalReoffer) : bool :=
  match r with None | Some (LegacyOther _) => true | _ => false end.
Definition reserve_reason_reoffer fp body (now : Z) p : Progress Stored :=
  match permanent_rejections p !! fp with
  | None => p
  | Some refusal =>
      let c := reason_reoffer_counts p in
      let c := if is_legacy (reoffer refusal) then c {{ c_legacy_selected := c_legacy_selected c + 1 }} else c in
      with_refusal fp (Some (refusal {{ reoffer := Some (reserved (next_offer_after now) (reoffer refusal)) }})) p
        {{ reason_reoffer_counts := c {{ c_selected := c_selected c + 1 }} }}
        {{ active_reason_reoffers := (<[fp := body]> (active_reason_reoffers p) : gmap string string) }}
  end.

(** ** The shared budget, oldest deadline first *)
Record Selection := mkSelection {
  chosen : Progress Stored;
  retry : gset string;
  due_left : gmap string (Z * string);
  reserved_any : bool;
}.
Fixpoint select (now : Z) (candidates : list string) (s : Selection) : Selection :=
  match candidates with
  | [] => s
  | fp :: candidates =>
      let p := chosen s in
      if SNAPSHOT_QUARANTINE_RETRY_LIMIT_PER_CYCLE <=?
         Z.of_nat (size (retry s)) + Z.of_nat (size (active_reason_reoffers p)) then s
      else match due_left s !! fp with
      | Some (_, body) =>
          let legacy := match permanent_rejections p !! fp with Some r => is_legacy (reoffer r) | None => false end in
          if legacy && (SNAPSHOT_QUARANTINE_RETRY_LIMIT_PER_CYCLE / 2 <=? c_legacy_selected (reason_reoffer_counts p))
          then select now candidates s
          else select now candidates
            (mkSelection (reserve_reason_reoffer fp body now p) (retry s) (delete fp (due_left s)) true)
      | None => select now candidates (mkSelection p ({[fp]} ∪ retry s) (due_left s) (reserved_any s))
      end
  end.

Definition rank_of p (r : SnapshotQuarantineRecord) : Z :=
  if same_retry_contract (witness r) (active_quarantine_witness p) then 1 else 0.
(** The [BTreeSet] of rank, deadline and fingerprint, in order. *)
Definition ordered_candidates p (now : Z) (due : gmap string (Z * string)) : list string :=
  let retries := filter (fun e => due_retry p now e.1 e.2 = true /\ due !! e.1 = None) (quarantined_fingerprints p) in
  (sort_by rcmp
    (((fun e => (rank_of p e.2, (retry_after_unix_seconds e.2, e.1))) <$> map_to_list retries) ++
     ((fun e => (1, (e.2.1, e.1))) <$> map_to_list due))).*2.*2.

Definition claim_retry (now : Z) p fp : Progress Stored :=
  match quarantined_fingerprints p !! fp with
  | Some r =>
      if bool_decide (is_Some (contract_retry_claims r)) then pace_retry sha256 fp now (map_record claim fp p) else p
  | None => p
  end.

Definition prepare_quarantine_and_reason_retries (now : Z) (index_quarantine : gmap string SnapshotQuarantineRecord)
    (scope : option Scope) p : Progress Stored * bool :=
  let '(p, changed) := settle_records index_quarantine p in
  let '(q, due, clamped) :=
    match scope with Some scope => collect_due_reason_reoffers scope p | None => (p, ∅, false) end in
  let s := select (match scope with Some scope => scope_now scope | None => 0 end)
    (ordered_candidates p now due) (mkSelection q ∅ due clamped) in
  let q := map_counts (fun c => c {{ c_deferred_budget := Z.of_nat (size (due_left s)) }}) (chosen s) in
  let q := foldl (claim_retry now) q (elements (retry s)) in
  (q {{ active_quarantine_retries := retry s }},
   negb (bool_decide (retry s = ∅)) || reserved_any s || changed).

(** ** Replays *)
Definition prepare_historical_replay (replay : string) p : Progress Stored * bool :=
  if bool_decide (historical_replay_generation p = Some replay) then (p, false)
  else
    (p {{ historical_replay_generation := Some replay }}
       {{ stored := clear_retained (stored p) }}
       {{ accepted_fingerprints := (∅ : gset string) }}
       {{ accepted_body_witnesses := (∅ : gmap string string) }}
       {{ accepted_body_contexts := (∅ : gmap string string) }}
       {{ quarantined_fingerprints := (∅ : gmap string SnapshotQuarantineRecord) }}, true).
Definition prepare_upload_progress_for_cycle (now : Z) (ix : IndexView) (replay : string)
    (historical_replay_pending same_index_replay : bool) (scope : option Scope) p : Progress Stored * bool :=
  if negb historical_replay_pending then
    prepare_quarantine_and_reason_retries now (index_quarantined ix) scope p
  else
    let '(p, changed) := prepare_historical_replay replay p in
    if same_index_replay then
      let '(p, more) := prepare_quarantine_and_reason_retries now (index_quarantined ix) None p in (p, changed || more)
    else (p, changed).

(** ** Before and after the upload *)
(** Bodies of the page that carry the re-offer they were leased for. *)
Definition carries_lease p (item : Item) : bool :=
  match active_reason_reoffers p !! fingerprint item with
  | Some body => bool_decide (body = item_body_witness item) || bool_decide (probe_body_witness item = Some body)
  | None => false
  end.
Definition materialized p (items : list Item) : gset string :=
  list_to_set (fingerprint <$> List.filter (carries_lease p) items).
Definition extend_refusal (next : Z) (r : PermanentSnapshotRejection) : PermanentSnapshotRejection * bool :=
  match reoffer r with
  | Some o =>
      match retry_after o with
      | Some at_ => if at_ <? next then (r {{ reoffer := Some (with_retry_after next o) }}, true) else (r, false)
      | None => (r, false)
      end
  | None => (r, false)
  end.
Definition extend_reason_reoffers_before_upload (now : Z) (items : list Item) (locally_held : gset string) p :
    Progress Stored * bool :=
  if bool_decide (active_reason_reoffers p = ∅) then (p, false)
  else
    let offered := materialized p items in
    let held := Z.of_nat (size (filter (fun e => e.1 ∈ locally_held) (active_reason_reoffers p))) in
    let c := reason_reoffer_counts p in
    let c := c {{ c_gate_held := held }}
               {{ c_not_materialized := saturating_sub (saturating_sub (c_selected c) (Z.of_nat (size offered))) held }} in
    let extended := update_each (fun fp r =>
      if bool_decide (fp ∈ offered) then extend_refusal (next_offer_after now) r else (r, false)) (permanent_rejections p) in
    (p {{ reason_reoffer_counts := c }}
       {{ active_reason_reoffers := (filter (fun e => e.1 ∈ offered) (active_reason_reoffers p) : gmap string string) }}
       {{ permanent_rejections := extended.1 }}, extended.2).

(** A selected retry the source holds back waits its ordinary backoff. *)
Definition is_held_retry (offered queued : gset string) p fp : bool :=
  negb (bool_decide (fp ∈ offered)) && negb (bool_decide (fp ∈ queued)) &&
  match quarantined_fingerprints p !! fp with
  | Some r => bool_decide (contract_retry_claims r = None) && retry_pending r
  | None => false
  end.
Definition defer_held_quarantine_retries (now : Z) (offered : list Item) (ix : IndexView) p : Progress Stored * bool :=
  let held := filter (fun fp => is_held_retry (list_to_set (fingerprint <$> offered)) (retry_queued ix) p fp = true)
    (active_quarantine_retries p) in
  (foldl (fun p fp => pace_retry sha256 fp now p)
     (p {{ active_quarantine_retries := (active_quarantine_retries p ∖ held : gset string) }}) (elements held),
   negb (bool_decide (held = ∅))).

(** A lease still held had no validated answer. *)
Definition finish_reason_reoffers (leased : gmap string string) (shed : bool) p : Progress Stored :=
  let unsent := Z.of_nat (size (filter (fun e => e.1 ∉ attempted_reason_reoffers p) leased)) in
  let unanswered := Z.of_nat (size (filter (fun e => e.1 ∈ attempted_reason_reoffers p /\
    is_Some (active_reason_reoffers p !! e.1)) leased)) in
  let c := reason_reoffer_counts p in
  let c := c {{ c_gate_held := c_gate_held c + unsent }} in
  let c := if shed then c {{ c_shed := c_shed c + unanswered }} else c {{ c_failed := c_failed c + unanswered }} in
  p {{ active_reason_reoffers := (∅ : gmap string string) }} {{ reason_reoffer_counts := c }}.

Definition retain_current_quarantines (current : gset string) p : Progress Stored * bool :=
  let records := map_imap (fun fp r => Some
    (if negb (bool_decide (fp ∈ current)) && negb (stale_debt p fp) &&
        negb (bool_decide (disposition r = SupersededTerminal)) then superseded r else r)) (quarantined_fingerprints p) in
  (p {{ quarantined_fingerprints := records }}
     {{ active_quarantine_retries := (filter (fun fp => fp ∈ current) (active_quarantine_retries p) : gset string) }},
   bool_decide (records <> quarantined_fingerprints p)).

Definition note_reprojected_context_refusals (items : list Item) p : Progress Stored * bool :=
  let noted := update_each (fun fp r =>
    if negb (bool_decide (witness r = active_quarantine_witness p)) &&
       existsb (fun item => bool_decide (fingerprint item = fp) &&
                            bool_decide (upload_body_witness r = Some (item_body_witness item))) items
    then (r {{ witness := active_quarantine_witness p }}, true) else (r, false)) (quarantined_fingerprints p) in
  (p {{ quarantined_fingerprints := noted.1 }}, noted.2).

(** [finish_cycle]: nothing is left to keep, and the file is removed; or the
    quarantine of the cycle retires to the index and the ledger is saved. *)
Definition nothing_retained p : bool :=
  bool_decide (accepted_fingerprints p = ∅) && bool_decide (permanent_rejections p = ∅) &&
  bool_decide (accepted_cache_heads p = ∅) && bool_decide (head_conflict_challenges p = ∅) &&
  buckets_empty (stored p) && cache_states_empty (stored p).
Definition retire_cycle p : Progress Stored :=
  p {{ quarantined_fingerprints := (filter (fun e => newer_retryable_refusal p e.1 e.2 = true) (quarantined_fingerprints p) : gmap string _) }}
    {{ active_quarantine_retries := (∅ : gset string) }}
    {{ active_reason_reoffers := (∅ : gmap string string) }}.

Definition records_server_attested_upload p : bool :=
  negb (bool_decide (accepted_fingerprints p = ∅)) || negb (bool_decide (accepted_body_witnesses p = ∅)) ||
  negb (cache_states_empty (stored p)) || negb (bool_decide (accepted_cache_heads p = ∅)) ||
  negb (bool_decide (quarantined_fingerprints p = ∅)) || negb (bool_decide (permanent_rejections p = ∅)).
End UploadCycle.
