(* ===== verification/UploadPage.v ===== *)
(** One request of the resumable upload and the settlement of its answer
    (crates/ottto-service/src/snapshot_sync.rs, [attempt_snapshot_page];
    snapshot_client.rs; snapshot_sync/ack_retention.rs).

    The uploader is generic in its items and in the closures that send and
    save: here the classes [Snapshot] and [World].  A page is a list of indices
    with the item at each.  The evidence kept beside the ledger is reached
    through [StoredState]; the ledger's theorems hold for every instance.  Log
    lines and the change-reason diagnostics are left out. *)
From stdpp Require Import gmap strings.
From S2P Require Import Prelude.
From S2P Require Import Text.
From S2P Require Import Std.
From S2P Require Import Quarantine.
From S2P Require Import Refusals.
From S2P Require Import UploadLedger.
From S2P Require Import UploadCycle.
From coqutil Require Import Datatypes.RecordSetters.
Import DoubleBraceUpdate.
Local Open Scope Z_scope.

(** ** Answers *)
Record SnapshotEntityRef := mkRef {
  ref_session : string;
  ref_fingerprint : string;
  occurrence_count : Z;
  body_witness_version : option Z;
  body_witness_digest : option string;
  head_etag : option string;
  head_challenge : option string;
  unchanged_basis : option string;
  retained_proof_missing : list string;
}.
Record SnapshotEntityRejection := mkEntityRejection {
  rej_session : string;
  rej_fingerprint : string;
  rej_reason : string;
  permanent : bool;
  rej_occurrence_count : Z;
}.
Record SnapshotConflictRescan := mkRescan { revision_v2_hash : string; answered : bool }.
Record SnapshotBatchResponse := mkResponse {
  accepted_count : Z;
  disabled : bool;
  disabled_reason : option string;
  ack_contract : option string;
  accepted_entities : list SnapshotEntityRef;
  unchanged_entities : list SnapshotEntityRef;
  rejected_entities : list SnapshotEntityRejection;
  conflict_entities : list SnapshotEntityRef;
  conflict_rescans : gmap string SnapshotConflictRescan;
}.
Definition SNAPSHOT_ENTITY_ACK_CONTRACT : string := "snapshot_entity_ack:v1".

(** ** Errors: the layers [downcast_ref] finds *)
Record UploadShed := mkShed { shed_status : Z; shed_retry_after : option Duration; original_identity : bool }.
Record UploadFailureDiagnostics := mkDiagnostics {
  endpoint : string;
  status_family : string;
  http_status : option Z;
}.
Inductive ErrorLayer :=
  | Shed (shed : UploadShed)
  | ShedSnapshotIndexes (named : list nat)
  | SnapshotAckRejected
  | RefusedSnapshotIndexes (named : list nat)
  | BatchRejected (status : Z) (snapshot_indexes : option (list nat))
  | BatchAuthorizationRejected (status : Z)
  | Diagnostics (d : UploadFailureDiagnostics)
  | SnapshotBatchPreflightRejected (reason : string)
  | SnapshotLocalStateRejected (operation : string)
  | SnapshotBatchResponseRejected (expected accepted : Z)
  | AckSettlementRequired (retained stale capacity deferred_entities : Z)
  | Message (text : string).
Abbreviation Error := (list ErrorLayer).
(** The first layer of a kind, from the outermost. *)
Definition layer {A} (pick : ErrorLayer -> option A) (e : Error) : option A := head (omap pick e).
Definition as_shed (e : Error) : option UploadShed := layer (fun l => match l with Shed s => Some s | _ => None end) e.
Definition as_shed_indexes (e : Error) : option (list nat) :=
  layer (fun l => match l with ShedSnapshotIndexes n => Some n | _ => None end) e.
Definition as_refused_indexes (e : Error) : option (list nat) :=
  layer (fun l => match l with RefusedSnapshotIndexes n => Some n | _ => None end) e.
Definition as_batch_rejected (e : Error) : option (Z * option (list nat)) :=
  layer (fun l => match l with BatchRejected s n => Some (s, n) | _ => None end) e.
Definition as_diagnostics (e : Error) : option UploadFailureDiagnostics :=
  layer (fun l => match l with Diagnostics d => Some d | _ => None end) e.
Definition as_preflight (e : Error) : option string :=
  layer (fun l => match l with SnapshotBatchPreflightRejected r => Some r | _ => None end) e.
Definition is_auth_rejected (e : Error) : bool :=
  existsb (fun l => match l with BatchAuthorizationRejected _ => true | _ => false end) e.
Definition is_ack_rejected (e : Error) : bool :=
  existsb (fun l => match l with SnapshotAckRejected => true | _ => false end) e.

Definition is_snapshot_batch_response (d : UploadFailureDiagnostics) : bool :=
  bool_decide (endpoint d = "snapshot_batch"%string) && bool_decide (is_Some (http_status d)).
Definition is_snapshot_batch_deadline (d : UploadFailureDiagnostics) : bool :=
  bool_decide (endpoint d = "snapshot_batch"%string) &&
  (bool_decide (status_family d = "transport_timeout"%string) || bool_decide (http_status d = Some 504)).
Definition transient_batch_status (d : UploadFailureDiagnostics) : option Z :=
  match http_status d with
  | Some status =>
      if bool_decide (endpoint d = "snapshot_batch"%string) && ((status =? 500) || (status =? 502)) then Some status else None
  | None => None
  end.
(** A typed batch response: the request was sent. *)
Definition proves_send (e : Error) : bool :=
  bool_decide (is_Some (as_batch_rejected e)) || is_auth_rejected e ||
  match as_diagnostics e with Some d => is_snapshot_batch_response d | None => false end ||
  bool_decide (is_Some (as_shed e)) || is_ack_rejected e.

(** ** The uploader's surroundings *)
Class Snapshot (Item : Type) := {
  snapshot_entity :: Entity Item;
  session_id : Item -> option string;
  batch_class : Item -> Z;
  literal_family : Item -> option string;
  (** The length of the item in JSON, unless it does not serialize. *)
  json_length : Item -> option Z;
  json_u64 : Item -> string -> option Z;
  input_token_scope_of : Item -> option string;
}.
Class StoredState (Stored Item : Type) := {
  (** [record] and [record_proved] of the identity buckets, with the entity's
      ACK and the local witness when the body was stored; the cache state after
      the item's patch, unless the patch does not parse. *)
  record_stored : option (SnapshotEntityRef * string) -> Item -> Stored -> Stored;
  patch_cache : Item -> Stored -> option Stored;
  has_retained : Stored -> bool;
  invalidate_replaced : Item -> Stored -> Stored * bool;
  (** The serialized item names a session. *)
  names_session : Item -> option string;
}.
Class World (W Item Stored : Type) := {
  unix_now : W -> Z;
  send : list Item -> W -> (Error + SnapshotBatchResponse) * W;
  persist : Progress Stored -> W -> option Error * Progress Stored * W;
  failed_after : W -> Duration;
  uniform : Duration -> W -> Duration * W;
  sleep : Duration -> W -> W;
}.

(** ** Programs over the ledger and the world *)
Record UploadState {W Stored : Type} := mkState {
  progress : Progress Stored;
  accepted : Z;
  world : W;
  (** Fingerprints whose poison loss was counted, and the losses reported. *)
  counted_poison : gset string;
  poisoned : Z;
  ratelimited : Z;
}.
Arguments UploadState : clear implicits.

Section Monad.
Context {St : Type}.
Definition M (A : Type) : Type := St -> (Error + A) * St.
Definition ret {A} (a : A) : M A := fun s => (inr a, s).
Definition fail {A} (e : Error) : M A := fun s => (inl e, s).
Definition bind {A B} (m : M A) (k : A -> M B) : M B := fun s =>
  match m s with (inl e, s) => (inl e, s) | (inr a, s) => k a s end.
(** The outcome of [m] as a value. *)
Definition attempt {A} (m : M A) : M (Error + A) := fun s => let '(r, s) := m s in (inr r, s).
Fixpoint each {A} (f : A -> M unit) (l : list A) : M unit :=
  match l with [] => ret () | a :: l => bind (f a) (fun _ => each f l) end.
End Monad.
Notation "'do' x <- m ; k" := (bind m (fun x => k)) (at level 100, x pattern, m at level 99, right associativity) : ottto_scope.

Section Page.
Context {W Stored Item : Type} `{Snapshot Item} `{StoredState Stored Item} `{World W Item Stored}.
Context (sha256 : list Z -> list Z).
Abbreviation St := (UploadState W Stored).
Abbreviation Prog := (M (St := St)).
Implicit Types (p : Progress Stored) (page : list (nat * Item)).

Definition map_progress (f : Progress Stored -> Progress Stored) : Prog unit := fun s =>
  (inr (), s {{ progress := f (progress s) }}).
Definition read {A} (f : Progress Stored -> A) : Prog A := fun s => (inr (f (progress s)), s).
Definition clock : Prog Z := fun s => (inr (unix_now (world s)), s).
Definition save_ledger : Prog unit := fun s =>
  let '(failed, p, w) := persist (progress s) (world s) in
  (match failed with Some e => inl e | None => inr () end, s {{ progress := p }} {{ world := w }}).
(** [persist(progress).map_err(|_| ..)]. *)
Definition save_or (operation : string) : Prog unit := fun s =>
  match save_ledger s with
  | (inl _, s) => (inl [SnapshotLocalStateRejected operation], s)
  | ok => ok
  end.
Definition request (items : list Item) : Prog (Error + SnapshotBatchResponse) := fun s =>
  let '(r, w) := send items (world s) in (inr r, s {{ world := w }}).
Definition record_poison_loss_once (fp : string) : Prog unit := fun s =>
  (inr (), if bool_decide (fp ∈ counted_poison s) then s
           else s {{ counted_poison := ({[fp]} ∪ counted_poison s : gset string) }} {{ poisoned := poisoned s + 1 }}).

(** ** Admission: room for every possible ACK before the request *)
Definition admit_ack_batch (new_acks : Z) p : option Error :=
  let held := Z.of_nat (size (accepted_fingerprints p)) in
  if (0 <? new_acks) && (ack_capacity p <? saturating_add 64 held new_acks)
  then Some [AckSettlementRequired held (retained_stale_ack_count p) (ack_capacity p) new_acks] else None.
Definition new_acks page p : Z :=
  Z.of_nat (length (List.filter (fun e => negb (bool_decide (fingerprint e.2 ∈ accepted_fingerprints p))) page)).
Definition admit_page page : Prog unit := fun s =>
  match admit_ack_batch (new_acks page (progress s)) (progress s) with Some e => (inl e, s) | None => (inr (), s) end.

Definition packing_length (item : Item) : Prog Z :=
  match json_length item with Some n => ret n | None => fail [Message "serialize"] end.

(** ** Before the request *)
Definition note_reoffer (item : Item) : Prog unit :=
  let fp := fingerprint item in
  do p <- read (fun p => p);
  if bool_decide (active_reason_reoffers p !! fp = Some (item_body_witness item)) &&
     negb (bool_decide (fp ∈ attempted_reason_reoffers p)) then
    do _ <- map_progress (fun p =>
      map_counts (fun c => c {{ c_attempted := c_attempted c + 1 }})
        (p {{ attempted_reason_reoffers := ({[fp]} ∪ attempted_reason_reoffers p : gset string) }}));
    do bytes <- packing_length item;
    map_progress (map_counts (fun c => c {{ c_attempted_bytes := saturating_add 64 (c_attempted_bytes c) bytes }}))
  else ret ().
Definition note_sending (item : Item) : Prog unit :=
  do bytes <- packing_length item;
  map_progress (fun p => p {{ context_resend := note_attempt (fingerprint item) bytes (context_resend p) }}).
(** Proof a lost reply may supersede is dropped, durably, before the request. *)
Definition drop_replaced_proof (items : list Item) : Prog unit :=
  do before <- read stored;
  let after := if has_retained before
    then foldl (fun acc item => let '(s, b) := invalidate_replaced item acc.1 in (s, acc.2 || b)) (before, false) items
    else (before, false) in
  do _ <- map_progress (fun p => p {{ stored := after.1 }});
  if after.2 then save_ledger else ret ().

Definition paced fp p : bool :=
  bool_decide (fp ∈ active_quarantine_retries p) &&
  match quarantined_fingerprints p !! fp with Some r => bool_decide (contract_retry_claims r = None) | None => false end.
(** An ordinary retry that reached a send takes its next deadline. *)
Definition pace_sent page : Prog unit :=
  do p <- read (fun p => p);
  let sent := List.filter (fun fp => paced fp p) ((fun e => fingerprint e.2) <$> page) in
  do now <- clock;
  do _ <- each (fun fp => map_progress (pace_retry sha256 fp now)) sent;
  if bool_decide (sent = []) then ret () else save_ledger.

(** ** Head-CAS tokens and challenges of an answer *)
Abbreviation session_key := (cache_session_key sha256).
Definition settled_refs (r : SnapshotBatchResponse) : list SnapshotEntityRef := accepted_entities r ++ unchanged_entities r.

Definition record_heads (r : SnapshotBatchResponse) p : Progress Stored :=
  let heads := foldl (fun heads e =>
    if bool_decide (head_etag e = None) then delete (session_key (ref_session e)) heads else heads)
    (accepted_cache_heads p) (accepted_entities r) in
  let heads := foldl (fun heads e =>
    match head_etag e with Some head => <[session_key (ref_session e) := head]> heads | None => heads end) heads (settled_refs r) in
  p {{ accepted_cache_heads := heads }}.

Definition settled_sessions (r : SnapshotBatchResponse) : gset string :=
  list_to_set ((fun e => session_key (ref_session e)) <$> settled_refs r).
Definition resolve_challenges (r : SnapshotBatchResponse) p : Progress Stored :=
  p {{ head_conflict_challenges :=
    (filter (fun e => e.1 ∉ settled_sessions r) (head_conflict_challenges p) : gmap string _) }}.

(** Attempts so far and whether the answer is owed now; [None] when nothing is
    recorded. *)
Definition record_head_conflict_challenge (session challenge_ : string) (rescan : SnapshotConflictRescan) (now : Z) p :
    option (Z * bool) * Progress Stored :=
  if negb (is_snapshot_fingerprint challenge_) || negb (is_snapshot_fingerprint (revision_v2_hash rescan)) then (None, p)
  else
    let key := session_key session in
    let previous := head_conflict_challenges p !! key in
    if bool_decide (previous = None) && (MAX_UNSETTLED_ACKS <=? Z.of_nat (size (head_conflict_challenges p))) then (None, p)
    else
      let identical := match previous with
        | Some c => bool_decide (challenge c = challenge_) && bool_decide (stale_revision_v2_hash c = revision_v2_hash rescan)
        | None => false
        end in
      let attempts := saturating_add 32 (match previous with Some c => answer_attempts c | None => 0 end)
                        (if answered rescan then 1 else 0) in
      let last := if identical then
          if answered rescan then now else match previous with Some c => last_answer_unix c | None => 0 end
        else 0 in
      (Some (attempts, negb identical),
       p {{ head_conflict_challenges :=
         (<[key := mkChallenge challenge_ (revision_v2_hash rescan) attempts last]> (head_conflict_challenges p) : gmap string _) }}).

(** The challenges of the answer's conflicts, and the bodies whose new
    challenge is answered on the next page. *)
Definition record_conflict (r : SnapshotBatchResponse) (now : Z) (acc : Progress Stored * gset string)
    (e : SnapshotEntityRef) : Progress Stored * gset string :=
  let '(p, owed_now) := acc in
  if bool_decide (session_key (ref_session e) ∈ settled_sessions r) then acc
  else match head_challenge e, conflict_rescans r !! ref_fingerprint e with
  | Some c, Some rescan =>
      match record_head_conflict_challenge (ref_session e) c rescan now p with
      | (Some (_, true), p) => (p, {[ref_fingerprint e]} ∪ owed_now)
      | (_, p) => (p, owed_now)
      end
  | _, _ => acc
  end.
Definition record_conflicts (r : SnapshotBatchResponse) (now : Z) p : Progress Stored * gset string :=
  foldl (record_conflict r now) (p, ∅) (conflict_entities r).

(** ** Bodies of an answer *)
Definition not_stored_set (r : SnapshotBatchResponse) : gset string :=
  list_to_set (ref_fingerprint <$> List.filter (fun e => bool_decide (is_Some (unchanged_basis e))) (unchanged_entities r)).
Definition settled_set (r : SnapshotBatchResponse) : gset string :=
  list_to_set (ref_fingerprint <$> settled_refs r) ∖ not_stored_set r.
(** [collect] into a [BTreeMap]: the last reference wins. *)
Definition stored_ref (r : SnapshotBatchResponse) (fp : string) : option SnapshotEntityRef :=
  last (List.filter (fun e => bool_decide (unchanged_basis e = None) && bool_decide (ref_fingerprint e = fp)) (settled_refs r)).
Definition rejection_of (r : SnapshotBatchResponse) (fp : string) : option SnapshotEntityRejection :=
  last (List.filter (fun e => bool_decide (rej_fingerprint e = fp)) (rejected_entities r)).

Definition record_stored_state (item : Item) (head_changed_without_proof : bool)
    (proof : option (SnapshotEntityRef * string)) : Prog unit :=
  match names_session item with
  | None => ret ()
  | Some session =>
      do _ <- map_progress (fun p => p {{ stored := record_stored proof item (stored p) }});
      do _ <- map_progress (fun p => if head_changed_without_proof
        then p {{ accepted_cache_heads := (delete (session_key session) (accepted_cache_heads p) : gmap string string) }} else p);
      do s <- read stored;
      match patch_cache item s with
      | Some s => map_progress (fun p => p {{ stored := s }})
      | None => fail [Message "cache observations have unparseable accepted state"]
      end
  end.

Definition note_fresh_ack (fp body : string) p : Progress Stored :=
  let p := match active (context_resend p) with
    | Some context => p {{ accepted_body_contexts := (<[fp := context]> (accepted_body_contexts p) : gmap string string) }}
    | None => p
    end in
  p {{ fresh_context_body_acks := (<[fp := body]> (fresh_context_body_acks p) : gmap string string) }}.
Definition note_not_stored (fp : string) p : Progress Stored :=
  p {{ context_resend := (context_resend p) {{ not_stored := ({[fp]} ∪ not_stored (context_resend p) : gset string) }} }}.

Definition settle_accepted (r : SnapshotBatchResponse) (now : Z) (e : nat * Item) : Prog unit :=
  let fp := fingerprint e.2 in
  let body := item_body_witness e.2 in
  if bool_decide (fp ∈ settled_set r) then
    do _ <- map_progress (fun p => note_fresh_ack fp body (record_body fp body p));
    record_stored_state e.2 false ((fun ref => (ref, body)) <$> stored_ref r fp)
  else if bool_decide (fp ∈ not_stored_set r) then
    map_progress (fun p => note_not_stored fp (hold_unstored_body sha256 fp body now p))
  else ret ().

Definition forget_challenge (session : string) p : Progress Stored :=
  p {{ head_conflict_challenges := (delete (session_key session) (head_conflict_challenges p) : gmap string _) }}.
Definition conflict_retry_at (owed_now : gset string) (now : Z) (fp : string) p : Z :=
  if match quarantined_fingerprints p !! fp with Some r => bool_decide (is_Some (contract_retry_claims r)) | None => false end
  then quarantine_retry_after sha256 fp now
  else if bool_decide (fp ∈ owed_now) then now else conflict_probe_after sha256 fp now.
Definition settle_refused (r : SnapshotBatchResponse) (owed_now : gset string) (now : Z) (e : nat * Item) p : Progress Stored :=
  let fp := fingerprint e.2 in
  let body := item_body_witness e.2 in
  match rejection_of r fp with
  | Some rejection =>
      if permanent rejection then
        note_refused_exposure (json_u64 e.2) (input_token_scope_of e.2) fp
          (quarantine_permanent_body sha256 fp body (safe_reason (rej_reason rejection)) now
            (forget_challenge (rej_session rejection) p))
      else quarantine_retryable_body sha256 fp body (quarantine_retry_after sha256 fp now) now p
  | None =>
      if bool_decide (fp ∈ ref_fingerprint <$> conflict_entities r)
      then quarantine_retryable_body sha256 fp body (conflict_retry_at owed_now now fp p) now p else p
  end.

(** Entities the answer leaves owed, and those of them it isolates. *)
Definition conflicted_of (r : SnapshotBatchResponse) : Z :=
  Z.of_nat (length (conflict_entities r)) +
  Z.of_nat (length (List.filter (fun e => negb (permanent e)) (rejected_entities r))).
Definition isolated_of (r : SnapshotBatchResponse) : Z :=
  Z.of_nat (length (List.filter (fun e => negb (permanent e) && ordinary_retryable (rej_reason e)) (rejected_entities r))) +
  Z.of_nat (length (conflict_entities r)).

(** The time of the answer, and the conflicts it owes now. *)
Definition note_conflicts (r : SnapshotBatchResponse) : Prog (Z * gset string) := fun s =>
  let now := unix_now (world s) in
  let '(p, owed_now) := record_conflicts r now (progress s) in
  (inr (now, owed_now), s {{ progress := p }}).
Definition note_server_conflicts (r : SnapshotBatchResponse) p : Progress Stored :=
  p {{ context_resend := (context_resend p) {{ counts :=
    (counts (context_resend p)) {{ server_conflicts := server_conflicts (counts (context_resend p)) + conflicted_of r }} }} }}.
Definition settle_entities (r : SnapshotBatchResponse) page : Prog unit :=
  do _ <- map_progress (fun p => resolve_challenges r (record_heads r p));
  do (now, owed_now) <- note_conflicts r;
  do _ <- each (settle_accepted r now) page;
  do _ <- each (fun e => map_progress (settle_refused r owed_now now e)) page;
  map_progress (note_server_conflicts r).

(** A count-only answer accepts the whole page. *)
Definition settle_counted page : Prog unit :=
  each (fun e =>
    do _ <- map_progress (record_body (fingerprint e.2) (item_body_witness e.2));
    record_stored_state e.2 true None) page.

(** ** The page *)
Inductive SnapshotPageOutcome := Settled (conflicted isolated : Z) | Disabled (reason : option string).

Definition settle_page (page : list (nat * Item)) (r : SnapshotBatchResponse) : Prog SnapshotPageOutcome :=
  if disabled r then ret (Disabled (disabled_reason r))
  else
    match ack_contract r with
    | None =>
        if negb (accepted_count r =? Z.of_nat (length page))
        then fail [SnapshotBatchResponseRejected (Z.of_nat (length page)) (accepted_count r)]
        else
          do _ <- settle_counted page;
          do _ <- save_or "save upload checkpoint";
          do _ <- (fun s => (inr (), s {{ accepted := saturating_add 64 (accepted s) (accepted_count r) }}));
          ret (Settled 0 0)
    | Some contract =>
        if negb (bool_decide (contract = SNAPSHOT_ENTITY_ACK_CONTRACT))
        then fail [Message "snapshot response uses an unsupported entity ACK contract"]
        else
          do _ <- settle_entities r page;
          do _ <- save_or "save upload checkpoint";
          do _ <- each (fun e => if permanent e then record_poison_loss_once (rej_fingerprint e) else ret ()) (rejected_entities r);
          do _ <- (fun s => (inr (), s {{ accepted := saturating_add 64 (accepted s) (accepted_count r) }}));
          ret (Settled (conflicted_of r) (isolated_of r))
    end.

Definition attempt_snapshot_page page : Prog SnapshotPageOutcome :=
  do _ <- admit_page page;
  do _ <- each (fun e => note_reoffer e.2) page;
  do _ <- each (fun e => note_sending e.2) page;
  do _ <- drop_replaced_proof page.*2;
  do answer <- request page.*2;
  do _ <- (if match answer with inr _ => true | inl e => proves_send e end then pace_sent page else ret ());
  match answer with
  | inl e => fail e
  | inr r => settle_page page r
  end.
End Page.
