(* ===== verification/UploadLoop.v ===== *)
(** The resumable upload of a page of snapshots
    (crates/ottto-service/src/snapshot_sync.rs:
    [upload_resumable_batches_with_literal_families]): pages are sent until the
    queue is empty; a page that fails is split, resent, or relieved of the
    bodies the failure names.

    One turn of the code's [while let] is [turn]; [drain] gives it fuel, and
    UploadLaws shows that [fuel_of] is enough for every world.  [fifth] is
    [Duration::mul_f64(0.2)] and [uniform] of [World] the random draw.

    Before it, the packing of the pending bodies of a page into requests
    ([literal_family_groups] and the packing part): a body's packed length is
    its length in JSON and a comma; a request starts at two bytes, its
    brackets. *)
From stdpp Require Import gmap strings.
From S2P Require Import Prelude.
From S2P Require Import OrdMap.
From S2P Require Import Text.
From S2P Require Import Std.
From S2P Require Import Quarantine.
From S2P Require Import Refusals.
From S2P Require Import UploadLedger.
From S2P Require Import UploadCycle.
From S2P Require Import UploadPage.
From coqutil Require Import Datatypes.RecordSetters.
Import DoubleBraceUpdate.
Local Open Scope Z_scope.

Section Pack.
Context {Item : Type} `{Snapshot Item}.

Record Packed := mkPacked { at_index : nat; at_item : Item; at_bytes : Z; at_class : Z }.

Definition total_bytes (unit : list Packed) : Z := foldl (fun sum m => saturating_add 64 sum (at_bytes m)) 0 unit.

(** The groups so far, the one being filled and its bytes. *)
Definition push_member (acc : list (list Packed) * list Packed * Z) (member : Packed) : list (list Packed) * list Packed * Z :=
  let '(groups, group, bytes) := acc in
  let full := negb (bool_decide (group = [])) &&
    (bool_decide (length group = SNAPSHOT_BATCH_LIMIT) ||
     (SNAPSHOT_BATCH_MAX_BYTES <? saturating_add 64 bytes (at_bytes member)) ||
     match head group with Some first => negb (at_class first =? at_class member) | None => false end) in
  let '(groups, group, bytes) := if full then (groups ++ [group], [], 2) else (groups, group, bytes) in
  (groups, group ++ [member], saturating_add 64 bytes (at_bytes member)).
Definition literal_family_groups (members : list Packed) : list (list Packed) :=
  let '(groups, group, _) := foldl push_member ([], [], 2) members in
  if bool_decide (group = []) then groups else groups ++ [group].

(** ** Units: a single body, or a group of a family, with a family key *)
Abbreviation Unit := (list Packed * Z)%type.

Definition family_table (members : list Packed) : list (string * list Packed) :=
  foldl (fun families m =>
    match literal_family (at_item m) with
    | Some root => (bt_insert root (default [] (bt_get root families) ++ [m]) families).1
    | None => families
    end) [] members.
Definition member_key (root : string) (m : Packed) : bool * option string :=
  (negb (bool_decide (session_id (at_item m) = Some root)), session_id (at_item m)).
Definition family_units (family : string * list Packed) : list Unit :=
  let members := sort_by (fun a b => rcmp (member_key family.1 a) (member_key family.1 b)) family.2 in
  let key := match head members with Some first => at_class first | None => 0 end in
  (fun group => (group, key)) <$> literal_family_groups members.
Definition units_of (members : list Packed) : list Unit :=
  ((fun m => ([m], at_class m)) <$> List.filter (fun m => bool_decide (literal_family (at_item m) = None)) members) ++
  (family_table members ≫= family_units).

Definition by_key (units : list Unit) : list Unit := sort_by (fun a b => Z.compare a.2 b.2) units.
(** The part of each unit that [lane] admits; units it leaves empty are gone. *)
Definition lane (keep : Packed -> bool) (units : list Unit) : list Unit :=
  List.filter (fun u => negb (bool_decide (u.1 = []))) ((fun u => (List.filter keep u.1, u.2)) <$> units).

(** ** Admission of catch-up bodies under the pass's allowance *)
Definition admit_member (ordinary_in_this_call : bool) (acc : list Packed * Cycle) (m : Packed) : list Packed * Cycle :=
  let '(kept, c) := acc in
  let '(ok, c) := if ordinary_in_this_call then admit_catchup_bytes (saturating_add 64 (at_bytes m) 2) c else (false, c) in
  if ok then (kept ++ [m], c)
  else (kept, c {{ counts := (counts c) {{ budget_deferred := budget_deferred (counts c) + 1 }} }}
                {{ deferred := ({[fingerprint (at_item m)]} ∪ deferred c : gset string) }}).
Definition admit_unit (ordinary_in_this_call : bool) (acc : list (list Packed) * Cycle) (u : Unit) : list (list Packed) * Cycle :=
  let '(kept, c) := foldl (admit_member ordinary_in_this_call) ([], acc.2) u.1 in
  (if bool_decide (kept = []) then acc.1 else acc.1 ++ [kept], c).

(** ** Requests: whole units of one class and one lane *)
Record Batching := mkBatching {
  packed_batches : list (list Packed);
  batch : list Packed;
  batch_bytes : Z;
  current_class : option (Z * bool);
}.
Definition unit_class (u : list Packed) (catchup : bool) : Z * bool :=
  (match head u with Some first => at_class first | None => 0 end, catchup).
Definition push_unit (b : Batching) (u : list Packed * bool) : Batching :=
  let class := unit_class u.1 u.2 in
  let full := negb (bool_decide (batch b = [])) &&
    (bool_decide (SNAPSHOT_BATCH_LIMIT < length (batch b) + length u.1)%nat ||
     (SNAPSHOT_BATCH_MAX_BYTES <? saturating_add 64 (batch_bytes b) (total_bytes u.1)) ||
     bool_decide (current_class b <> Some class)) in
  let b := if full then mkBatching (packed_batches b ++ [batch b]) [] 2 (current_class b) else b in
  mkBatching (packed_batches b) (batch b ++ u.1) (saturating_add 64 (batch_bytes b) (total_bytes u.1)) (Some class).
Definition batches_of (units : list (list Packed * bool)) : list (list Packed) :=
  let b := foldl push_unit (mkBatching [] [] 2 None) units in
  if bool_decide (batch b = []) then packed_batches b else packed_batches b ++ [batch b].

(** The whole packing, and the cycle after it. *)
Definition pack (pending : list Packed) (c : Cycle) : list (list Packed) * Cycle :=
  let units := units_of pending in
  let catchup m := is_catchup (fingerprint (at_item m)) c in
  let ordinary_units := by_key (lane (fun m => negb (catchup m)) units) in
  let catchup_units := by_key (lane catchup units) in
  let ordinary := ordinary_units ≫= fst in
  let in_this_call := ordinary_work_is_in (list_to_set ((fun m => fingerprint (at_item m)) <$> ordinary)) c in
  let bytes := foldl (fun sum m => saturating_add 64 sum (saturating_add 64 (at_bytes m) 2)) 0 ordinary in
  let '(admitted, c) := foldl (admit_unit in_this_call) ([], reserve_ordinary_bytes bytes c) catchup_units in
  (batches_of (((fun u => (u.1, false)) <$> ordinary_units) ++ ((fun u => (u, true)) <$> admitted)), c).
End Pack.
Arguments Packed : clear implicits.

Definition SNAPSHOT_ADAPTIVE_SPLIT_LIMIT : nat := 6.
Definition SNAPSHOT_ADAPTIVE_ATTEMPT_LIMIT : nat := SNAPSHOT_BATCH_LIMIT + 4.
Definition SNAPSHOT_INPLACE_RETRY_LIMIT : nat := 2.
Definition SNAPSHOT_INPLACE_RETRY_MAX_WAIT : Duration := secs 5.
Definition SNAPSHOT_INPLACE_RETRY_WAIT_BUDGET : Duration := secs 10.
Definition SNAPSHOT_INPLACE_RETRY_FAST_FAILURE : Duration := secs 15.
Definition SNAPSHOT_INPLACE_RETRY_SERVER_ERROR_WAIT : Duration := secs 2.
Definition SNAPSHOT_INPLACE_RETRY_MIN_WAIT : Duration := 250000000.
Definition MAX_HONOURED_RETRY_AFTER : Duration := secs (30 * 60).
Definition SHED_BACKOFF_BASE : Duration := secs 30.

Inductive ResumableUploadResult :=
  | Completed
  | Rejected (count : Z)
  | Deferred (count isolated : Z)
  | UploadDisabled (reason : option string)
  | UploadShedded (retry_after : option Duration).

(** ** Failures that name items *)
(** [str::parse::<usize>]: an optional plus and digits below 2^64. *)
Definition parse_usize (bytes : list Z) : option nat :=
  let digits := default bytes (strip_prefix [43] bytes) in
  if all_digits digits then Z.to_nat <$> try_uint 64 (foldl (fun n b => n * 10 + (b - 48)) 0 digits) else None.
Definition item_specific_local_preflight_index (e : Error) : option nat :=
  try? reason := as_preflight e in
  try? suffix := strip_prefix (as_bytes "snapshot[") (as_bytes reason) in
  try? (index, _) := split_at_first [93] suffix in
  parse_usize index.

(** The indices of the page's items the server named, unless one is not there. *)
Definition server_named_positions (e : Error) : option (list nat) :=
  match as_shed_indexes e with
  | Some named => Some named
  | None =>
      match as_refused_indexes e with
      | Some named => Some named
      | None => try? (_, named) := as_batch_rejected e in named
      end
  end.
Definition server_named_items {A} (e : Error) (page : list A) : option (list A) :=
  try? named := server_named_positions e in
  if forallb (fun position => bool_decide (position < length page)%nat) named
  then Some (omap id (imap (fun position x => if bool_decide (position ∈ named) then Some x else None) page)) else None.

Section Upload.
Context {W Stored Item : Type} `{Snapshot Item} `{StoredState Stored Item} `{World W Item Stored}.
Context (sha256 : list Z -> list Z) (fifth : Duration -> Duration).
Abbreviation St := (UploadState W Stored).
Abbreviation Prog := (M (St := St)).
Abbreviation Page := (list (nat * Item)).
Implicit Types (p : Progress Stored) (items : list Item).

Definition uniform_duration (span : Duration) : Prog Duration := fun s =>
  let '(d, w) := uniform span (world s) in (inr d, s {{ world := w }}).
Definition full_jitter_backoff (attempt_ : Z) : Prog Duration :=
  uniform_duration (Z.min (SHED_BACKOFF_BASE * 2 ^ Z.min attempt_ 6) MAX_HONOURED_RETRY_AFTER).
Definition shed_backoff (retry_after : option Duration) : Prog Duration :=
  match retry_after with
  | Some wait => do more <- uniform_duration (fifth wait); ret (Z.min (wait + more) MAX_HONOURED_RETRY_AFTER)
  | None => full_jitter_backoff 0
  end.

(** ** Resends in place *)
Record InplaceRetryBudget := mkBudget { resends_spent : nat; waited : Duration }.
Definition inplace_base (e : Error) : option (Z * Duration) :=
  match as_shed e with
  | Some shed =>
      if original_identity shed then None
      else match shed_retry_after shed with
           | Some wait => if wait <=? SNAPSHOT_INPLACE_RETRY_MAX_WAIT then Some (shed_status shed, wait) else None
           | None => None
           end
  | None =>
      try? d := as_diagnostics e in
      try? status := transient_batch_status d in
      Some (status, SNAPSHOT_INPLACE_RETRY_SERVER_ERROR_WAIT)
  end.
Definition transient_inplace_retry_wait (e : Error) : Prog (option (Z * Duration)) :=
  match inplace_base e with
  | None => ret None
  | Some (status, base) =>
      let base := Z.max base SNAPSHOT_INPLACE_RETRY_MIN_WAIT in
      do more <- uniform_duration (fifth base);
      ret (Some (status, Z.min (base + more) SNAPSHOT_INPLACE_RETRY_MAX_WAIT))
  end.
Definition admit_resend (budget : InplaceRetryBudget) (e : Error) (failed_after_ : Duration) : Prog (option (Z * Duration)) :=
  if bool_decide (SNAPSHOT_INPLACE_RETRY_LIMIT <= resends_spent budget)%nat ||
     (SNAPSHOT_INPLACE_RETRY_FAST_FAILURE <=? failed_after_) then ret None
  else
    do wait <- transient_inplace_retry_wait e;
    ret (match wait with
         | Some (status, wait) =>
             if waited budget + wait <=? SNAPSHOT_INPLACE_RETRY_WAIT_BUDGET then Some (status, wait) else None
         | None => None
         end).

(** ** The page's bodies *)
(** One body for each fingerprint, unless two differ. *)
Definition note_witness (seen : option (gmap string string)) (item : Item) : option (gmap string string) :=
  try? seen := seen in
  match seen !! fingerprint item with
  | Some previous => if bool_decide (previous = item_body_witness item) then Some seen else None
  | None => Some (<[fingerprint item := item_body_witness item]> seen)
  end.
Definition current_body_witnesses items : option (gmap string string) := foldl note_witness (Some ∅) items.

(** An acceptance of another body is no longer one. *)
Definition prune_accepted (current : gmap string string) p : Progress Stored :=
  let kept := filter (fun e => default e.2 (current !! e.1) = e.2) (accepted_body_witnesses p) in
  p {{ accepted_body_witnesses := kept }}
    {{ accepted_fingerprints := (accepted_fingerprints p ∩ dom kept : gset string) }}.

(** A refused body of the page whose quarantine record was cleared. *)
Definition restores (p : Progress Stored) (fp body : string) : bool :=
  match permanent_rejections p !! fp with
  | Some r => bool_decide (body_witness r = body) && negb (owed r)
  | None => false
  end &&
  negb match quarantined_fingerprints p !! fp with
       | Some r => bool_decide (upload_body_witness r = Some body) && negb (bool_decide (disposition r = SupersededTerminal))
       | None => false
       end.
Definition restore_refusals (current : gmap string string) (now : Z) p : Progress Stored :=
  foldl (fun p e => map_record terminal e.1 (quarantine_body sha256 e.1 e.2 now p)) p
    (List.filter (fun e => restores p e.1 e.2) (map_to_list current)).

Definition retain_counted_poison (current : gset string) : Prog unit := fun s =>
  (inr (), s {{ counted_poison := (counted_poison s ∩ current : gset string) }}).

Definition reconcile (current : gmap string string) : Prog unit :=
  do before <- read (fun p => p);
  do _ <- map_progress (prune_accepted current);
  do _ <- retain_counted_poison (dom current);
  do now <- clock;
  do pruned <- read (fun p => p);
  do _ <- map_progress (restore_refusals current now);
  if negb (bool_decide (size (accepted_fingerprints pruned) = size (accepted_fingerprints before))) ||
     existsb (fun e => restores pruned e.1 e.2) (map_to_list current)
  then save_or "prune upload checkpoint" else ret ().

(** The pending bodies by fingerprint: the first item of each. *)
Definition note_pending p (pending : option (list (string * Packed Item))) (e : nat * Item) : option (list (string * Packed Item)) :=
  try? pending := pending in
  let fp := fingerprint e.2 in
  if contains_body p fp (item_body_witness e.2) then Some pending
  else match OrdMap.bt_get fp pending with
       | Some _ => Some pending
       | None =>
           try? bytes := json_length e.2 in
           Some (OrdMap.bt_insert fp (mkPacked e.1 e.2 (saturating_add 64 bytes 1) (batch_class e.2)) pending).1
       end.
Definition pending_by_fingerprint p items : option (list (Packed Item)) :=
  (fun pending => pending.*2) <$> foldl (note_pending p) (Some []) (imap (fun i item => (i, item)) items).

Definition page_of (b : list (Packed Item)) : Page := (fun m => (at_index m, at_item m)) <$> b.

(** ** The queue *)
Record Queue := mkQueue {
  batches : list (Page * bool);
  adaptive_splits : nat;
  adaptive_attempts : nat;
  conflicted : Z;
  isolated : Z;
  budget : InplaceRetryBudget;
}.
Definition requeue (more : list (Page * bool)) (q : Queue) : Queue := q {{ batches := more ++ batches q }}.
Definition requeue_rest (rest : Page) (q : Queue) : Queue :=
  if bool_decide (rest = []) then q else requeue [(rest, false)] q.

(** Restores the ledger when it cannot be saved. *)
Definition save_or_restore (before : Progress Stored) (operation : string) : Prog unit := fun s =>
  match save_ledger s with
  | (inl _, s) => (inl [SnapshotLocalStateRejected operation], s {{ progress := before }})
  | ok => ok
  end.

Definition hold_preflight (page : Page) (index : nat) (e : Error) (q : Queue) : Prog Queue :=
  match page !! index with
  | None => fail (Message "local snapshot preflight index was out of bounds" :: e)
  | Some poison =>
      let fp := fingerprint poison.2 in
      do before <- read (fun p => p);
      do now <- clock;
      do _ <- map_progress (quarantine_body sha256 fp (item_body_witness poison.2) now);
      do _ <- save_or_restore before "save local preflight quarantine";
      do _ <- record_poison_loss_once fp;
      ret (requeue_rest (delete index page) q)
  end.

Definition hold_named (page held : Page) (e : Error) (q : Queue) : Prog Queue :=
  do now <- clock;
  do identity_retry_at <- match as_shed e with
    | Some shed => do wait <- shed_backoff (shed_retry_after shed); ret (Some (saturating_add 64 now (as_secs wait)))
    | None => ret None
    end;
  do before <- read (fun p => p);
  do _ <- each (fun h => map_progress (fun p =>
      quarantine_retryable_body sha256 (fingerprint h.2) (item_body_witness h.2)
        (default (quarantine_retry_after sha256 (fingerprint h.2) now) identity_retry_at) now p)) held;
  do _ <- save_or_restore before (if bool_decide (is_Some identity_retry_at)
    then "save identity deferral quarantine" else "save validation rejection quarantine");
  let count := Z.of_nat (length held) in
  let unavailable := match as_shed e with Some shed => shed_status shed =? 503 | None => false end in
  ret (requeue_rest (List.filter (fun h => negb (bool_decide (h.1 ∈ held.*1))) page)
         (q {{ conflicted := conflicted q + count }}
            {{ isolated := if unavailable then isolated q + count else isolated q }})).

Definition split (page : Page) (q : Queue) : Queue :=
  let midpoint := (length page / 2)%nat in
  requeue [(take midpoint page, true); (drop midpoint page, true)] (q {{ adaptive_splits := S (adaptive_splits q) }}).
Definition resend (page : Page) (adaptive : bool) (wait : Duration) (q : Queue) : Prog Queue :=
  do _ <- (fun s => (inr (), s {{ world := sleep wait (world s) }}));
  ret (requeue [(page, adaptive)] (q {{ budget := mkBudget (S (resends_spent (budget q))) (waited (budget q) + wait) }})).

(** A failed page: the queue after it, or the end of the pass. *)
Definition recover (page : Page) (adaptive : bool) (e : Error) (inplace_wait : option (Z * Duration)) (q : Queue) :
    Prog (Queue + ResumableUploadResult) :=
  match item_specific_local_preflight_index e with
  | Some index => do q <- hold_preflight page index e q; ret (inl q)
  | None =>
      match server_named_items e page with
      | Some held => do q <- hold_named page held e q; ret (inl q)
      | None =>
          if bool_decide (1 < length page)%nat && bool_decide (adaptive_splits q < SNAPSHOT_ADAPTIVE_SPLIT_LIMIT)%nat &&
             match as_diagnostics e with Some d => is_snapshot_batch_deadline d | None => false end
          then ret (inl (split page q))
          else match inplace_wait with
          | Some (_, wait) => do q <- resend page adaptive wait q; ret (inl q)
          | None =>
              match as_shed e with
              | Some shed =>
                  do _ <- (fun s => (inr (), s {{ ratelimited := ratelimited s + 1 }}));
                  ret (inr (UploadShedded (shed_retry_after shed)))
              | None => fail e
              end
          end
      end
  end.

(** One turn of the loop, over the batch taken from the queue. *)
Definition turn (taken : Page) (adaptive : bool) (q : Queue) : Prog (Queue + ResumableUploadResult) :=
  do p <- read (fun p => p);
  let page := List.filter (fun e => negb (contains_body p (fingerprint e.2) (item_body_witness e.2))) taken in
  if bool_decide (page = []) then ret (inl q)
  else if adaptive && bool_decide (SNAPSHOT_ADAPTIVE_ATTEMPT_LIMIT <= adaptive_attempts q)%nat
  then fail [Message "snapshot adaptive upload attempt limit reached"]
  else
    let q := if adaptive then q {{ adaptive_attempts := S (adaptive_attempts q) }} else q in
    do outcome <- attempt (attempt_snapshot_page sha256 page);
    match outcome with
    | inr (Disabled reason) => ret (inr (UploadDisabled reason))
    | inr (Settled more alone) =>
        ret (inl (q {{ conflicted := conflicted q + more }} {{ isolated := isolated q + alone }}))
    | inl e =>
        do elapsed <- (fun s => (inr (failed_after (world s)), s));
        do wait <- admit_resend (budget q) e elapsed;
        recover page adaptive e wait q
    end.

(** [None]: out of fuel. *)
Fixpoint drain (fuel : nat) (q : Queue) : Prog (option (Queue + ResumableUploadResult)) :=
  match fuel with
  | O => ret None
  | S fuel =>
      match batches q with
      | [] => ret (Some (inl q))
      | (page, adaptive) :: rest =>
          do next <- turn page adaptive (q {{ batches := rest }});
          match next with
          | inr result => ret (Some (inr result))
          | inl q => drain fuel q
          end
      end
  end.

(** Bodies and batches left, twice the splits and once the resends left. *)
Definition queued (l : list (Page * bool)) : nat := sum_list_with (fun b => S (length b.1)) l.
Definition fuel_of (q : Queue) : nat :=
  S (queued (batches q) + 2 * (SNAPSHOT_ADAPTIVE_SPLIT_LIMIT - adaptive_splits q) +
     (SNAPSHOT_INPLACE_RETRY_LIMIT - resends_spent (budget q))).

(** ** The whole upload *)
Definition permanently_rejected (current : gmap string string) p : Z :=
  Z.of_nat (size (filter (fun e => from_option body_witness EmptyString (permanent_rejections p !! e.1) = e.2 /\
    is_Some (permanent_rejections p !! e.1)) current)).
Definition conclude (current : gmap string string) (q : Queue) p : ResumableUploadResult :=
  if 0 <? conflicted q then Deferred (conflicted q) (isolated q)
  else if 0 <? permanently_rejected current p then Rejected (permanently_rejected current p)
  else Completed.

Definition enqueue items (budget : InplaceRetryBudget) : Prog Queue :=
  do p <- read (fun p => p);
  match pending_by_fingerprint p items with
  | None => fail [SnapshotLocalStateRejected "serialize snapshot for batch packing"]
  | Some pending =>
      let packed := pack pending (context_resend p) in
      do _ <- map_progress (fun p => p {{ context_resend := packed.2 }});
      ret (mkQueue ((fun b => (page_of b, false)) <$> packed.1) 0 0 0 0 budget)
  end.

Definition upload_resumable_batches items (budget : InplaceRetryBudget) : Prog (option ResumableUploadResult) :=
  match current_body_witnesses items with
  | None => fail [SnapshotLocalStateRejected "resolve conflicting snapshot body witnesses"]
  | Some current =>
      do _ <- reconcile current;
      do q <- enqueue items budget;
      do finished <- drain (fuel_of q) q;
      do p <- read (fun p => p);
      ret (match finished with
           | Some (inl q) => Some (conclude current q p)
           | Some (inr result) => Some result
           | None => None
           end)
  end.
End Upload.
