(* ===== verification/PackLaws.v ===== *)
(** What the packing promises: requests within the count and byte limits, of one
    class and one lane; no body lost; catch-up within the pass's allowance. *)
From stdpp Require Import gmap strings sorting.
From S2P Require Import Prelude.
From S2P Require Import Std.
From S2P Require Import OrdMap.
From S2P Require Import UploadLedger.
From S2P Require Import UploadCycle.
From S2P Require Import UploadPage.
From S2P Require Import UploadLoop.
From coqutil Require Import Datatypes.RecordSetters.
Import DoubleBraceUpdate.
Local Open Scope Z_scope.

Lemma elem_kept {A} (keep : A -> bool) x l : x ∈ List.filter keep l <-> x ∈ l /\ keep x = true.
Proof. rewrite !list_elem_of_In. apply List.filter_In. Qed.
Lemma kept_sublist {A} (keep : A -> bool) l : List.filter keep l `sublist_of` l.
Proof. induction l as [|x l IH]; cbn; [constructor|]. case_match; by constructor. Qed.
Lemma elem_concat {A} (x : A) l : x ∈ concat l <-> exists b, b ∈ l /\ x ∈ b.
Proof. setoid_rewrite list_elem_of_In. apply List.in_concat. Qed.

Section PackLaws.
Context {Item : Type} `{Snapshot Item}.
Abbreviation Member := (Packed Item).
Implicit Types (m : Member) (b u g : list Member) (c : Cycle).

(** ** Bytes *)
Definition weight b : Z := foldr (fun m n => at_bytes m + n) 0 b.
Definition sized b : Prop := forall m, m ∈ b -> 0 <= at_bytes m.
Lemma weight_cons m b : weight (m :: b) = at_bytes m + weight b.
Proof. done. Qed.
Lemma weight_app b b' : weight (b ++ b') = weight b + weight b'.
Proof. induction b as [|m b IH]; [done|]. cbn [app]. rewrite !weight_cons. lia. Qed.
Lemma weight_nonneg b : sized b -> 0 <= weight b.
Proof.
  induction b as [|m b IH]; intros Hs; [done|]. rewrite weight_cons.
  specialize (Hs m ltac:(set_solver)) as Hm. specialize (IH ltac:(intros x Hx; apply Hs; set_solver)). lia.
Qed.
Lemma saturating_weight n b : sized b -> 0 <= n -> foldl (fun sum m => saturating_add 64 sum (at_bytes m)) (Z.min n (umax 64)) b = Z.min (n + weight b) (umax 64).
Proof.
  revert n. induction b as [|m b IH]; intros n Hs Hn; cbn [foldl]; [change (weight []) with 0; f_equal; lia|].
  assert (Hm : 0 <= at_bytes m) by (apply Hs; set_solver).
  replace (saturating_add 64 (Z.min n (umax 64)) (at_bytes m)) with (Z.min (n + at_bytes m) (umax 64))
    by (unfold saturating_add; lia).
  rewrite IH; [|intros x Hx; apply Hs; set_solver|lia]. rewrite weight_cons. f_equal. lia.
Qed.
Lemma total_bytes_weight b : sized b -> total_bytes b = Z.min (weight b) (umax 64).
Proof. intros Hs. exact (saturating_weight 0 b Hs (Z.le_refl 0)). Qed.
Lemma sized_sub b b' : sized b -> (forall m, m ∈ b' -> m ∈ b) -> sized b'.
Proof. intros Hs Hsub m Hm. by apply Hs, Hsub. Qed.

(** ** Requests within the limits *)
Definition fits b : Prop :=
  (length b <= SNAPSHOT_BATCH_LIMIT)%nat /\ (2 + weight b <= SNAPSHOT_BATCH_MAX_BYTES \/ (length b <= 1)%nat).
Definition one_class b : Prop := forall m m', m ∈ b -> m' ∈ b -> at_class m = at_class m'.
Lemma fits_single m : fits [m].
Proof. split; [unfold SNAPSHOT_BATCH_LIMIT; cbn; lia|by right]. Qed.
Lemma weight_sublist b b' : b' `sublist_of` b -> sized b -> weight b' <= weight b.
Proof.
  induction 1 as [|m b' b Hb IH|m b' b Hb IH]; intros Hs; [done|..]; rewrite !weight_cons;
    specialize (IH ltac:(intros x Hx; apply Hs; set_solver)); specialize (Hs m ltac:(set_solver)); lia.
Qed.
Lemma fits_sublist b b' : b' `sublist_of` b -> sized b -> fits b -> fits b'.
Proof.
  intros Hb Hs [Hl Hw]. pose proof (sublist_length _ _ Hb). pose proof (weight_sublist _ _ Hb Hs).
  split; [lia|]. destruct Hw; [left|right]; lia.
Qed.
Lemma one_class_sub b b' : one_class b -> (forall m, m ∈ b' -> m ∈ b) -> one_class b'.
Proof. intros Ho Hs m m' Hm Hm'. by apply Ho; apply Hs. Qed.

(** ** Groups of a family *)
Definition filling b (bytes : Z) : Prop := fits b /\ one_class b /\ bytes = Z.min (2 + weight b) (umax 64).
Definition good_group g : Prop := g <> [] /\ fits g /\ one_class g.
Lemma filling_nil : filling [] 2.
Proof. by split; [split; [cbn; lia|right; cbn; lia]|split; [intros m m' Hm; set_solver|]]. Qed.

Lemma filling_push g bytes m : sized g -> 0 <= at_bytes m -> filling g bytes ->
  negb (bool_decide (g = [])) &&
    (bool_decide (length g = SNAPSHOT_BATCH_LIMIT) || (SNAPSHOT_BATCH_MAX_BYTES <? saturating_add 64 bytes (at_bytes m)) ||
     match head g with Some first => negb (at_class first =? at_class m) | None => false end) = false ->
  filling (g ++ [m]) (saturating_add 64 bytes (at_bytes m)).
Proof.
  intros Hs Hm ([Hl Hw] & Ho & ->) Hfull. pose proof (weight_nonneg g Hs) as Hn.
  assert (Hsum : saturating_add 64 (Z.min (2 + weight g) (umax 64)) (at_bytes m) = Z.min (2 + weight (g ++ [m])) (umax 64)).
  { rewrite weight_app, weight_cons. change (weight []) with 0. unfold saturating_add. lia. }
  rewrite Hsum in *. destruct g as [|first g].
  { split; [apply fits_single|]. split; [|done]. by intros x y ->%list_elem_of_singleton ->%list_elem_of_singleton. }
  rewrite bool_decide_eq_false_2 in Hfull by done. cbn [negb andb head] in Hfull. zbool.
  rewrite ->bool_decide_eq_false in *. split; [split|split; [|done]].
  - rewrite length_app. change (length [m]) with 1%nat. lia.
  - left. unfold SNAPSHOT_BATCH_MAX_BYTES, umax in *. lia.
  - assert (Hc : forall x, x ∈ (first :: g) ++ [m] -> at_class x = at_class first).
    { intros x [Hx|Hx%list_elem_of_singleton]%elem_of_app; [apply Ho; set_solver|by subst]. }
    intros x y Hx Hy. by rewrite (Hc x), (Hc y).
Qed.

Lemma literal_family_groups_spec members : sized members ->
  concat (literal_family_groups members) = members /\ (forall g, g ∈ literal_family_groups members -> good_group g).
Proof.
  intros Hs. unfold literal_family_groups.
  assert (Hinv : forall rest groups group bytes, sized rest -> sized group -> filling group bytes ->
    (forall g, g ∈ groups -> good_group g) ->
    let '(groups', group', bytes') := foldl push_member (groups, group, bytes) rest in
    concat groups' ++ group' = concat groups ++ group ++ rest /\ filling group' bytes' /\ (forall g, g ∈ groups' -> good_group g)).
  { clear. induction rest as [|m rest IH]; intros groups group bytes Hs Hg Hf Hgs; cbn [foldl]; [by rewrite app_nil_r|].
    assert (Hm : 0 <= at_bytes m) by (apply Hs; set_solver).
    assert (Hrest : sized rest) by (eapply sized_sub; [exact Hs|set_solver]).
    unfold push_member at 2. set (full := _ && _) in *. destruct full eqn:Efull.
    - apply andb_prop in Efull as [Hne _]. apply negb_true_iff, bool_decide_eq_false in Hne.
      specialize (IH (groups ++ [group]) [m] (saturating_add 64 2 (at_bytes m)) Hrest).
      destruct (foldl push_member _ _) as [[groups' group'] bytes'].
      destruct IH as (Hc & Hf' & Hgs').
      + intros x ->%list_elem_of_singleton. done.
      + by apply (filling_push []); [intros x; set_solver| |apply filling_nil|].
      + intros g [Hin| ->%list_elem_of_singleton]%elem_of_app; [by apply Hgs|]. by split; [|split; apply Hf].
      + split; [|done]. rewrite Hc, concat_app. cbn. by rewrite app_nil_r, <-!app_assoc.
    - specialize (IH groups (group ++ [m]) (saturating_add 64 bytes (at_bytes m)) Hrest).
      destruct (foldl push_member _ _) as [[groups' group'] bytes']. destruct IH as (Hc & Hf' & Hgs').
      + intros x [?| ->%list_elem_of_singleton]%elem_of_app; [by apply Hg|done].
      + by apply filling_push.
      + done.
      + split; [|done]. by rewrite Hc, <-!app_assoc. }
  specialize (Hinv members [] [] 2 Hs ltac:(intros x; set_solver) filling_nil ltac:(intros g; set_solver)).
  destruct (foldl push_member _ _) as [[groups group] bytes]. destruct Hinv as (Hc & Hf & Hgs). cbn in Hc.
  case_bool_decide as Eg.
  - by rewrite Eg, app_nil_r in Hc.
  - split; [rewrite concat_app; cbn; by rewrite app_nil_r|].
    intros g [Hin| ->%list_elem_of_singleton]%elem_of_app; [by apply Hgs|]. by split; [|split; apply Hf].
Qed.

(** ** Units *)
Lemma concat_perm (l l' : list (list Member)) : l ≡ₚ l' -> concat l ≡ₚ concat l'.
Proof.
  induction 1 as [|x l l' Hl IH|x y l|l l' l'' H12 IH12 H23 IH23]; cbn; [done|by rewrite IH| |by rewrite IH12].
  rewrite !app_assoc. f_equiv. apply Permutation_app_comm.
Qed.
Lemma sorted_entry {V} k (t : list (string * V)) `{!forall e : string * V, Decision (e.1 <> k)} :
  ksorted fst t -> t ≡ₚ option_list ((fun v => (k, v)) <$> bt_get k t) ++ filter (fun e => e.1 <> k) t.
Proof.
  intros Hs.
  assert (Hin : forall e, e ∈ option_list ((fun v => (k, v)) <$> bt_get k t) <-> e ∈ t /\ e.1 = k).
  { intros [k' v']. rewrite <-(bt_get_elem k' v' t Hs). cbn.
    destruct (bt_get k t) as [v|] eqn:Eg; cbn; rewrite ?list_elem_of_singleton; [|set_solver].
    split; [intros [= -> ->]; by rewrite Eg|intros [Hv ->]; congruence]. }
  apply NoDup_Permutation; [by apply bt_NoDup| |].
  - apply NoDup_app. split; [destruct (bt_get k t); cbn; [apply NoDup_singleton|constructor]|].
    split; [|by apply NoDup_filter, bt_NoDup]. intros e [_ He]%Hin [Hn _]%list_elem_of_filter. done.
  - intros e. rewrite elem_of_app, Hin, list_elem_of_filter. destruct (decide (e.1 = k)); tauto.
Qed.
Lemma family_push root m (t : list (string * list Member)) : ksorted fst t ->
  concat (bt_insert root (default [] (bt_get root t) ++ [m]) t).1.*2 ≡ₚ m :: concat t.*2.
Proof.
  intros Hs. rewrite (fmap_Permutation _ _ _ (bt_insert_perm root _ t Hs)). rewrite fmap_cons. cbn [concat].
  pose proof (concat_perm _ _ (fmap_Permutation snd _ _ (sorted_entry root t Hs))) as Ht.
  rewrite Ht, fmap_app, concat_app. cbn [snd]. rewrite <-app_assoc.
  destruct (bt_get root t) as [v|]; cbn; [|done]. rewrite app_nil_r. symmetry. apply Permutation_middle.
Qed.
Lemma family_table_perm members :
  ksorted fst (family_table members) /\
  concat (family_table members).*2 ≡ₚ List.filter (fun m => negb (bool_decide (literal_family (at_item m) = None))) members.
Proof.
  unfold family_table.
  assert (Hinv : forall t, ksorted fst t -> let t' := foldl (fun families m =>
    match literal_family (at_item m) with
    | Some root => (bt_insert root (default [] (bt_get root families) ++ [m]) families).1
    | None => families
    end) t members in
    ksorted fst t' /\ concat t'.*2 ≡ₚ List.filter (fun m => negb (bool_decide (literal_family (at_item m) = None))) members ++ concat t.*2).
  { induction members as [|m members IH]; intros t Ht; [done|]. cbn [foldl List.filter].
    destruct (literal_family (at_item m)) as [root|]; cbn [bool_decide negb].
    - destruct (IH (bt_insert root (default [] (bt_get root t) ++ [m]) t).1 ltac:(by apply bt_insert_sorted)) as [Hs Hp].
      split; [done|]. rewrite Hp, family_push by done. symmetry. apply Permutation_middle.
    - by apply IH. }
  destruct (Hinv [] ltac:(constructor)) as [Hs Hp]. split; [done|]. by rewrite Hp, app_nil_r.
Qed.

Lemma filter_split (keep : Member -> bool) b :
  List.filter keep b ++ List.filter (fun m => negb (keep m)) b ≡ₚ b.
Proof.
  induction b as [|m b IH]; [done|]. cbn. destruct (keep m); cbn; [by rewrite IH|].
  by rewrite <-Permutation_middle, IH.
Qed.
Lemma family_units_spec (family : string * list Member) : sized family.2 ->
  concat (family_units family).*1 ≡ₚ family.2 /\ (forall unit, unit ∈ family_units family -> good_group unit.1).
Proof.
  intros Hs. unfold family_units. set (sorted := sort_by _ family.2).
  assert (Hp : sorted ≡ₚ family.2) by apply sort_by_perm.
  destruct (literal_family_groups_spec sorted) as [Hc Hg]; [intros m Hm; apply Hs; by rewrite <-Hp|]. split.
  - rewrite <-list_fmap_compose. unfold compose. cbn. rewrite list_fmap_id. by rewrite Hc.
  - intros unit (g & -> & Hin)%list_elem_of_fmap. by apply Hg.
Qed.
Lemma units_of_spec members : sized members ->
  concat (units_of members).*1 ≡ₚ members /\ (forall unit, unit ∈ units_of members -> good_group unit.1).
Proof.
  intros Hs. unfold units_of. destruct (family_table_perm members) as [_ Hp].
  assert (Hf : forall family, family ∈ family_table members -> sized family.2).
  { intros family Hin m Hm. apply Hs.
    assert (Hc : m ∈ concat (family_table members).*2).
    { apply elem_concat. exists family.2. by split; [apply list_elem_of_fmap_2|]. }
    rewrite Hp in Hc. by apply elem_kept in Hc as [Hc _]. }
  assert (Hfam : concat (family_table members ≫= family_units).*1 ≡ₚ concat (family_table members).*2).
  { clear Hp Hs. induction (family_table members) as [|family t IH]; [done|]. cbn. rewrite fmap_app, concat_app.
    rewrite IH by (intros; apply Hf; set_solver). f_equiv. apply family_units_spec, Hf. set_solver. }
  split.
  - rewrite fmap_app, concat_app, Hfam, Hp.
    set (single := List.filter _ members). replace (concat _) with single; [apply filter_split|].
    clear -single. clearbody single. induction single as [|m l IH]; [done|]. cbn. by rewrite <-IH.
  - intros unit [Hin|Hin]%elem_of_app.
    + apply list_elem_of_fmap in Hin as (m & -> & _). split; [done|]. split; [apply fits_single|].
      by intros x y ->%list_elem_of_singleton ->%list_elem_of_singleton.
    + apply list_elem_of_bind in Hin as (family & Hin & Hfa). by apply (family_units_spec family (Hf family Hfa)).
Qed.

(** ** Lanes *)
Lemma lane_spec keep (units : list (list Member * Z)) :
  sized (concat units.*1) -> (forall unit, unit ∈ units -> good_group unit.1) ->
  concat (lane keep units).*1 = List.filter keep (concat units.*1) /\
  (forall unit, unit ∈ lane keep units -> good_group unit.1 /\ forall m, m ∈ unit.1 -> keep m = true).
Proof.
  intros Hs Hg. split.
  - unfold lane. clear Hs Hg. induction units as [|[u key] units IH]; [done|]. cbn. rewrite List.filter_app, <-IH.
    case_bool_decide as Ee; cbn; [by rewrite Ee|done].
  - intros unit [Hin Hne]%elem_kept. apply list_elem_of_fmap in Hin as ([u key] & -> & Hin). cbn in *.
    apply negb_true_iff, bool_decide_eq_false in Hne. destruct (Hg _ Hin) as (_ & Hf & Ho). split.
    + split; [done|]. split; [|eapply one_class_sub; [exact Ho|]; by intros m [Hm _]%elem_kept].
      apply (fits_sublist u); [apply kept_sublist| |done]. eapply sized_sub; [exact Hs|]. intros m Hm. apply elem_concat. exists u.
      split; [|done]. apply list_elem_of_fmap. by exists (u, key).
    + by intros m [_ Hk]%elem_kept.
Qed.

(** ** Requests of whole units *)
Section Lanes.
Context (lane_of : Member -> bool).
Definition one_lane (e : list Member * bool) : Prop := forall m, m ∈ e.1 -> lane_of m = e.2.
Definition good_request b : Prop := b <> [] /\ fits b /\ one_class b /\ forall m m', m ∈ b -> m' ∈ b -> lane_of m = lane_of m'.
Definition packing (s : Batching (Item := Item)) : Prop :=
  (forall b, b ∈ packed_batches s -> good_request b) /\ sized (batch s) /\
  batch_bytes s = Z.min (2 + weight (batch s)) (umax 64) /\
  (batch s <> [] -> fits (batch s) /\
    exists class lane, current_class s = Some (class, lane) /\ forall m, m ∈ batch s -> at_class m = class /\ lane_of m = lane).

Lemma batch_good s : packing s -> batch s <> [] -> good_request (batch s).
Proof.
  intros (_ & _ & _ & Hb) Hne. destruct (Hb Hne) as (Hf & class & lane & _ & Hin).
  split; [done|]. split; [done|]. split; intros m m' [Hm1 Hm2]%Hin [Hm3 Hm4]%Hin; congruence.
Qed.
Lemma push_unit_packing s e : packing s -> sized e.1 -> good_group e.1 -> one_lane e -> packing (push_unit s e).
Proof.
  intros Hp He (Hne & Hfit & Hone) Hlane. destruct e as [u lane]. cbn in *.
  assert (Hclass : forall m, m ∈ u -> at_class m = (unit_class u lane).1 /\ lane_of m = (unit_class u lane).2).
  { intros m Hm. split; [|by apply Hlane]. destruct u as [|first u]; [done|]. apply Hone; set_solver. }
  pose proof (weight_nonneg u He) as Hu. unfold push_unit. cbn [fst snd].
  rewrite total_bytes_weight by done. set (full := _ && _). pose proof (batch_good s Hp) as Hgood. destruct Hp as (Hbs & Hs & Hbytes & Hb).
  pose proof (weight_nonneg _ Hs) as Hn.
  assert (Hfresh : forall bs : list (list Member), (forall b, b ∈ bs -> good_request b) ->
    packing (mkBatching bs ([] ++ u) (saturating_add 64 2 (Z.min (weight u) (umax 64))) (Some (unit_class u lane)))).
  { intros bs Hgs. split; [done|]. split; [done|]. split.
    - cbn [batch_bytes batch app]. unfold saturating_add, umax. lia.
    - intros _. split; [done|]. exists (unit_class u lane).1, (unit_class u lane).2. by split. }
  destruct full eqn:Ef; cbn [packed_batches batch batch_bytes current_class].
  - apply andb_prop in Ef as [Hnb _]. apply negb_true_iff, bool_decide_eq_false in Hnb.
    apply Hfresh. intros b [Hin| ->%list_elem_of_singleton]%elem_of_app; [by apply Hbs|by apply Hgood].
  - destruct (decide (batch s = [])) as [E|Hnb].
    { rewrite Hbytes, E. cbn [app]. by apply (Hfresh (packed_batches s)). }
    unfold full in Ef. rewrite bool_decide_eq_false_2 in Ef by done. cbn [negb andb] in Ef. zbool.
    rewrite ->bool_decide_eq_false in *. destruct (Hb Hnb) as (Hf & class & l & Hcl & Hin).
    assert (Hsame : Some (class, l) = Some (unit_class u lane)) by (rewrite <-Hcl; by apply dec_stable).
    split; [done|]. split; [|split; [|intros _; split]]; cbn [batch batch_bytes].
    + intros m [Hm|Hm]%elem_of_app; [by apply Hs|by apply He].
    + rewrite Hbytes, weight_app. unfold saturating_add, umax. lia.
    + split; [rewrite length_app; lia|]. left. rewrite weight_app.
      unfold saturating_add, SNAPSHOT_BATCH_MAX_BYTES, umax in *. lia.
    + exists class, l. split; [by rewrite Hsame|]. apply (inj Some) in Hsame. rewrite <-Hsame in Hclass.
      intros m [Hm|Hm]%elem_of_app; [by apply Hin|by apply Hclass].
Qed.
Lemma batches_of_spec (units : list (list Member * bool)) :
  (forall e, e ∈ units -> sized e.1 /\ good_group e.1 /\ one_lane e) ->
  concat (batches_of units) = concat units.*1 /\ forall b, b ∈ batches_of units -> good_request b.
Proof.
  intros Hu. unfold batches_of.
  assert (Hinv : forall s, packing s -> let s' := foldl push_unit s units in
    packing s' /\ concat (packed_batches s') ++ batch s' = concat (packed_batches s) ++ batch s ++ concat units.*1).
  { clear -Hu. induction units as [|e units IH]; intros s Hs; cbn [foldl]; [split; [done|]; cbn; by rewrite app_nil_r|].
    destruct (Hu e ltac:(by left)) as (H1 & H2 & H3).
    destruct (IH ltac:(intros; apply Hu; by right) (push_unit s e)) as [Hp Hc]; [by apply push_unit_packing|].
    split; [done|]. rewrite Hc. unfold push_unit. case_match; cbn; rewrite ?concat_app; cbn; by rewrite ?app_nil_r, <-!app_assoc. }
  destruct (Hinv (mkBatching [] [] 2 None)) as [Hp Hc].
  { split; [intros b; set_solver|]. split; [intros m; set_solver|]. by split; [|intros []]. }
  cbn in Hc. set (s := foldl _ _ _) in *. case_bool_decide as Eb.
  - split; [by rewrite Eb, app_nil_r in Hc|]. apply Hp.
  - split; [by rewrite concat_app; cbn; rewrite app_nil_r|].
    intros b [Hin| ->%list_elem_of_singleton]%elem_of_app; [by apply Hp|by apply batch_good].
Qed.
End Lanes.

(** ** Admission of catch-up bodies *)
(** The bytes a body takes of the allowance. *)
Definition taken m : Z := saturating_add 64 (at_bytes m) 2.
Definition spent b : Z := foldr (fun m n => taken m + n) 0 b.
Lemma spent_app b b' : spent (b ++ b') = spent b + spent b'.
Proof. induction b as [|m b IH]; [done|]. cbn. fold (spent (b ++ b')) (spent b). lia. Qed.
Definition entities_of (l : list Member) : gset string := list_to_set ((fun m => fingerprint (at_item m)) <$> l).
Lemma entities_of_app l l' : entities_of (l ++ l') = entities_of l ∪ entities_of l'.
Proof. unfold entities_of. by rewrite fmap_app, list_to_set_app_L. Qed.
Lemma entities_of_elem m l : m ∈ l -> fingerprint (at_item m) ∈ entities_of l.
Proof. intros Hm. apply elem_of_list_to_set. by apply (list_elem_of_fmap_2 (fun m => fingerprint (at_item m))). Qed.
(** From [c] to [c'], of the bodies [u] the bodies [kept] were admitted; the
    others were deferred, and none of them fits what is left. *)
Definition admits (in_call : bool) c u kept c' : Prop :=
  0 <= remaining_bytes c' /\ remaining_bytes c' = remaining_bytes c - spent kept /\ 0 <= spent kept /\
  (in_call = false -> kept = []) /\ exists held, u ≡ₚ kept ++ held /\ deferred c' = deferred c ∪ entities_of held /\
    (in_call = true -> forall m, m ∈ held -> remaining_bytes c' < taken m).

Lemma admit_member_spec in_call kept c m : 0 <= at_bytes m -> 0 <= remaining_bytes c -> exists more c',
  admit_member in_call (kept, c) m = (kept ++ more, c') /\ more `sublist_of` [m] /\ admits in_call c [m] more c'.
Proof.
  intros Hm Hr. assert (Ht : 0 <= taken m) by (unfold taken, saturating_add, umax; lia). unfold admit_member.
  destruct (if in_call then _ else _) as [ok c1] eqn:Ea.
  assert (H1 : 0 <= remaining_bytes c1 /\ remaining_bytes c1 = remaining_bytes c - (if ok then taken m else 0) /\
    deferred c1 = deferred c /\ (in_call = false -> ok = false) /\ (in_call = true -> ok = false -> remaining_bytes c1 < taken m)).
  { destruct in_call; [|injection Ea as <- <-; split_and!; [done|lia|done|done|done]].
    destruct (admit_spends (taken m) c ok c1) as [Hr1 Hr2]; [done..|]. fold (taken m) in Ea.
    split_and!; [done|done|by rewrite <-(admit_keeps_deferred (taken m) c), Ea|done|].
    intros _ ->. unfold admit_catchup_bytes in Ea. case_match; zbool; [by injection Ea as <-|done]. }
  destruct H1 as (Hr1 & Hr2 & Hd & Hok & Hfull). destruct ok.
  - exists [m], c1. split; [done|]. split; [done|]. split; [done|]. split; [cbn; lia|]. split; [cbn; lia|].
    split; [by intros ?%Hok|]. exists []. split; [done|]. split; [rewrite Hd; set_solver|]. intros _ x Hx. by apply elem_of_nil in Hx.
  - exists [], (c1 {{ counts := (counts c1) {{ budget_deferred := budget_deferred (counts c1) + 1 }} }}
                {{ deferred := ({[fingerprint (at_item m)]} ∪ deferred c1 : gset string) }}).
    split; [by rewrite app_nil_r|]. split; [apply sublist_nil_l|]. destruct c1. unfold admits, entities_of. cbn in *. unfold constant.
    split; [done|]. split; [lia|]. split; [lia|]. split; [done|].
    exists [m]. split; [done|]. split; [cbn; set_solver|]. intros E x ->%list_elem_of_singleton. by apply Hfull.
Qed.
Lemma admits_app in_call c u kept c1 u' kept' c2 :
  admits in_call c u kept c1 -> admits in_call c1 u' kept' c2 -> admits in_call c (u ++ u') (kept ++ kept') c2.
Proof.
  intros (Ha1 & Ha2 & Ha3 & Ha4 & held & Ha5 & Ha6 & Ha7) (Hb1 & Hb2 & Hb3 & Hb4 & held' & Hb5 & Hb6 & Hb7). unfold admits in *.
  split; [done|]. split; [rewrite spent_app; lia|]. split; [rewrite spent_app; lia|].
  split; [intros E; by rewrite Ha4, Hb4|]. exists (held ++ held'). split; [|split].
  - rewrite Ha5, Hb5, <-!app_assoc. f_equiv. rewrite !app_assoc. f_equiv. apply Permutation_app_comm.
  - by rewrite Hb6, Ha6, entities_of_app, union_assoc_L.
  - intros E m [Hm|Hm]%elem_of_app; [specialize (Ha7 E m Hm); lia|by apply Hb7].
Qed.
Lemma admits_nil in_call c : 0 <= remaining_bytes c -> admits in_call c [] [] c.
Proof. intros Hr. split; [done|]. split; [cbn; lia|]. split; [done|]. split; [done|].
  exists []. split; [done|]. split; [unfold entities_of; set_solver|]. intros _ m. set_solver.
Qed.

Lemma admit_members_spec in_call u kept c : sized u -> 0 <= remaining_bytes c -> exists more c',
  foldl (admit_member in_call) (kept, c) u = (kept ++ more, c') /\ more `sublist_of` u /\ admits in_call c u more c'.
Proof.
  revert kept c. induction u as [|m u IH]; intros kept c Hs Hr; cbn [foldl].
  { exists [], c. split; [by rewrite app_nil_r|]. split; [done|]. by apply admits_nil. }
  destruct (admit_member_spec in_call kept c m) as (one & c1 & -> & Hone & Ha); [apply Hs; set_solver|done|].
  destruct (IH (kept ++ one) c1) as (more & c2 & -> & Hmore & Hb); [intros x Hx; apply Hs; set_solver|apply Ha|].
  exists (one ++ more), c2. split; [by rewrite app_assoc|]. split; [by apply (sublist_app one [m])|].
  by apply (admits_app _ _ [m] _ c1).
Qed.
Lemma admit_units_spec in_call (units : list (list Member * Z)) kept c :
  sized (concat units.*1) -> 0 <= remaining_bytes c -> exists more c',
  foldl (admit_unit in_call) (kept, c) units = (kept ++ more, c') /\ admits in_call c (concat units.*1) (concat more) c' /\
  forall u, u ∈ more -> u <> [] /\ exists unit, unit ∈ units /\ u `sublist_of` unit.1.
Proof.
  revert kept c. induction units as [|unit units IH]; intros kept c Hs Hr; cbn [foldl].
  { exists [], c. split; [by rewrite app_nil_r|]. split; [by apply admits_nil|]. set_solver. }
  assert (Hu : sized unit.1 /\ sized (concat units.*1)).
  { split; intros m Hm; apply Hs; cbn; apply elem_of_app; [by left|by right]. }
  unfold admit_unit at 2. cbn [fst snd].
  destruct (admit_members_spec in_call unit.1 [] c) as (one & c1 & -> & Hone & Ha); [by apply Hu|done|]. cbn [app].
  set (kept1 := if bool_decide _ then kept else _).
  destruct (IH kept1 c1) as (more & c2 & -> & Hb & Hin); [apply Hu|apply Ha|].
  exists ((if bool_decide (one = []) then [] else [one]) ++ more), c2. split; [|split].
  - unfold kept1. case_bool_decide; cbn; [done|]. by rewrite <-app_assoc.
  - rewrite concat_app. replace (concat (if bool_decide _ then _ else _)) with one;
      [|case_bool_decide; [done|cbn; by rewrite app_nil_r]]. by eapply admits_app.
  - intros u [Hu1|Hu1]%elem_of_app.
    + case_bool_decide; [set_solver|]. apply list_elem_of_singleton in Hu1 as ->. split; [done|]. exists unit. set_solver.
    + destruct (Hin u Hu1) as (? & unit' & ? & ?). split; [done|]. exists unit'. set_solver.
Qed.

(** ** The whole packing *)
Lemma by_key_perm (units : list (list Member * Z)) : by_key units ≡ₚ units.
Proof. apply sort_by_perm. Qed.
Lemma good_sublist u u' : u' <> [] -> u' `sublist_of` u -> sized u -> good_group u -> good_group u'.
Proof.
  intros Hne Hsub Hs (_ & Hf & Ho). split; [done|]. split; [by eapply fits_sublist|].
  eapply one_class_sub; [exact Ho|]. intros m Hm. by eapply sublist_subseteq.
Qed.
Lemma ordinary_bytes l : sized l ->
  foldl (fun sum m => saturating_add 64 sum (saturating_add 64 (at_bytes m) 2)) 0 l = Z.min (spent l) (umax 64).
Proof.
  assert (Hgen : forall n, sized l -> 0 <= n ->
    foldl (fun sum m => saturating_add 64 sum (taken m)) (Z.min n (umax 64)) l = Z.min (n + spent l) (umax 64)).
  { induction l as [|m l IH]; intros n Hs Hn; cbn [foldl]; [change (spent []) with 0; f_equal; lia|].
    assert (Ht : 0 <= taken m) by (specialize (Hs m ltac:(by left)); unfold taken, saturating_add, umax; lia).
    replace (saturating_add 64 (Z.min n (umax 64)) (taken m)) with (Z.min (n + taken m) (umax 64)) by (unfold saturating_add; lia).
    rewrite IH; [|intros x Hx; apply Hs; by right|lia]. change (spent (m :: l)) with (taken m + spent l). f_equal. lia. }
  intros Hs. exact (Hgen 0 Hs (Z.le_refl 0)).
Qed.

Record packs (pending : list Member) c (bs : list (list Member)) c' (ordinary admitted held : list Member) : Prop := {
  packs_requests : forall b, b ∈ bs -> good_request (fun m => is_catchup (fingerprint (at_item m)) c) b;
  packs_all : pending ≡ₚ ordinary ++ admitted ++ held;
  packs_sent : concat bs ≡ₚ ordinary ++ admitted;
  packs_ordinary : forall m, m ∈ ordinary -> is_catchup (fingerprint (at_item m)) c = false;
  packs_admitted : forall m, m ∈ admitted ++ held -> is_catchup (fingerprint (at_item m)) c = true;
  packs_deferred : deferred c' = deferred c ∪ entities_of held;
  packs_allowance : spent admitted <= Z.max 0 (remaining_bytes c - Z.min (spent ordinary) (umax 64));
  packs_waits : ordinary_work_is_in (entities_of ordinary) c = false -> admitted = [];
  packs_full : ordinary_work_is_in (entities_of ordinary) c = true -> forall m, m ∈ held ->
    Z.max 0 (remaining_bytes c - Z.min (spent ordinary) (umax 64)) - spent admitted < taken m;
}.
Lemma pack_spec pending c : sized pending ->
  exists ordinary admitted held, packs pending c (pack pending c).1 (pack pending c).2 ordinary admitted held.
Proof.
  intros Hs. unfold pack. destruct (units_of_spec pending Hs) as [Hu Hg].
  assert (Hsu : sized (concat (units_of pending).*1)) by (intros m Hm; apply Hs; by rewrite <-Hu).
  set (catchup := fun m => is_catchup (fingerprint (at_item m)) c).
  destruct (lane_spec (fun m => negb (catchup m)) (units_of pending) Hsu Hg) as [Hoc Hog].
  destruct (lane_spec catchup (units_of pending) Hsu Hg) as [Hcc Hcg].
  set (ordinary_units := by_key (lane (fun m => negb (catchup m)) (units_of pending))).
  set (catchup_units := by_key (lane catchup (units_of pending))).
  assert (Hou : concat ordinary_units.*1 ≡ₚ List.filter (fun m => negb (catchup m)) (concat (units_of pending).*1)).
  { rewrite <-Hoc. apply concat_perm, fmap_Permutation, by_key_perm. }
  assert (Hcu : concat catchup_units.*1 ≡ₚ List.filter catchup (concat (units_of pending).*1)).
  { rewrite <-Hcc. apply concat_perm, fmap_Permutation, by_key_perm. }
  replace (ordinary_units ≫= fst) with (concat ordinary_units.*1) by (clear; induction ordinary_units as [|u l IH]; cbn; by rewrite ?IH).
  set (ordinary := concat ordinary_units.*1) in *.
  assert (Hso : sized ordinary) by (intros m Hm; rewrite Hou in Hm; by apply elem_kept in Hm as [Hm%Hsu _]).
  assert (Hsc : sized (concat catchup_units.*1)) by (intros m Hm; rewrite Hcu in Hm; by apply elem_kept in Hm as [Hm%Hsu _]).
  rewrite (ordinary_bytes ordinary Hso). set (c1 := reserve_ordinary_bytes _ c).
  assert (Hc1 : remaining_bytes c1 = Z.max 0 (remaining_bytes c - Z.min (spent ordinary) (umax 64)) /\ deferred c1 = deferred c) by by destruct c.
  destruct Hc1 as [Hr1 Hd1]. set (in_call := ordinary_work_is_in _ c).
  destruct (admit_units_spec in_call catchup_units [] c1 Hsc) as (admitted & c' & -> & Ha & Hin); [lia|]. cbn [app fst snd].
  destruct Ha as (Ha1 & Ha2 & Ha3 & Ha4 & held & Hheld & Hdef & Hfull).
  destruct (batches_of_spec catchup (((fun unit : list Member * Z => (unit.1, false)) <$> ordinary_units) ++ ((fun u => (u, true)) <$> admitted))) as [Hb Hreq].
  { intros e [He|He]%elem_of_app; apply list_elem_of_fmap in He as (u & -> & Hu1); cbn.
    - assert (Hsub : forall m, m ∈ u.1 -> m ∈ ordinary).
      { intros m Hm. apply elem_concat. exists u.1. by split; [apply list_elem_of_fmap_2|]. }
      unfold ordinary_units in Hu1. rewrite by_key_perm in Hu1. destruct (Hog u Hu1) as [Hgood Hlane].
      split; [intros m Hm; by apply Hso, Hsub|]. split; [done|]. intros m Hm%Hlane. by apply negb_true_iff.
    - destruct (Hin u Hu1) as (Hne & unit & Hunit & Hsub).
      assert (Hsu1 : sized unit.1).
      { intros m Hm. apply Hsc, elem_concat. exists unit.1. by split; [apply list_elem_of_fmap_2|]. }
      unfold catchup_units in Hunit. rewrite by_key_perm in Hunit. destruct (Hcg unit Hunit) as [Hgood Hlane].
      split; [intros m Hm; apply Hsu1; by eapply sublist_subseteq|]. split; [by eapply good_sublist|].
      intros m Hm. apply Hlane. by eapply sublist_subseteq. }
  exists ordinary, (concat admitted), held. split; [done|..].
  - rewrite <-Hheld, Hcu, Hou, Permutation_app_comm, filter_split. by rewrite Hu.
  - etrans; [apply (reflexive_eq (R := Permutation)); exact Hb|]. rewrite fmap_app, concat_app, <-!list_fmap_compose. unfold compose. cbn. by rewrite list_fmap_id.
  - intros m Hm. rewrite Hou in Hm. apply elem_kept in Hm as [_ Hm]. by apply negb_true_iff.
  - intros m Hm. rewrite <-Hheld, Hcu in Hm. by apply elem_kept in Hm as [_ Hm].
  - by rewrite Hdef, Hd1.
  - lia.
  - intros E. by rewrite Ha4.
  - intros E m Hm. rewrite <-Hr1, <-Ha2. by apply Hfull.
Qed.

(** Packing spends the allowance and defers; it moves no candidate. *)
Definition same_candidates c c' : Prop :=
  candidates c' = candidates c /\ stamped c' = stamped c /\ active c' = active c.
#[export] Instance same_candidates_preorder : PreOrder same_candidates.
Proof. split; [by intros c; split|]. intros c c1 c2 (?&?&?) (?&?&?). split; [congruence|]. split; congruence. Qed.
Lemma admit_member_candidates in_call acc m : same_candidates acc.2 (admit_member in_call acc m).2.
Proof.
  destruct acc as [kept []]. unfold admit_member. destruct in_call; [|by split].
  unfold admit_catchup_bytes. by repeat case_match; simplify_eq.
Qed.
Lemma admit_unit_candidates in_call acc unit : same_candidates acc.2 (admit_unit in_call acc unit).2.
Proof.
  unfold admit_unit. rewrite (surjective_pairing (foldl _ _ _)). cbn [snd].
  generalize (@nil Member) as kept. destruct acc as [bs c]. cbn [snd]. revert c.
  induction unit.1 as [|m l IH]; intros c kept; cbn [foldl]; [done|].
  destruct (admit_member in_call (kept, c) m) as [kept1 c1] eqn:E.
  pose proof (admit_member_candidates in_call (kept, c) m) as Hm. rewrite E in Hm. by etrans; [exact Hm|].
Qed.
Lemma admit_units_candidates in_call (units : list (list Member * Z)) acc :
  same_candidates acc.2 (foldl (admit_unit in_call) acc units).2.
Proof.
  revert acc. induction units as [|unit l IH]; intros acc; cbn [foldl]; [done|].
  etrans; [apply admit_unit_candidates|apply IH].
Qed.
Lemma pack_candidates pending c : same_candidates c (pack pending c).2.
Proof.
  unfold pack. rewrite (surjective_pairing (foldl (admit_unit _) _ _)).
  etrans; [|apply admit_units_candidates]. by destruct c.
Qed.
Lemma requests_count (bs : list (list Member)) : (forall b, b ∈ bs -> b <> []) -> (length bs <= length (concat bs))%nat.
Proof.
  induction bs as [|b bs IH]; intros Hb; cbn; [done|]. rewrite length_app.
  specialize (IH ltac:(intros; apply Hb; by right)). destruct b; [by destruct (Hb [] ltac:(by left))|cbn; lia].
Qed.
End PackLaws.
