(* ===== verification/BatchAck.v ===== *)
(** The answer to a batch, checked before any of it is recorded
    (crates/ottto-service/src/snapshot_client.rs,
    [validate_entity_ack_with_head_cas] and what it calls;
    snapshots/wire/content_hash.rs, the witness versions).

    [WireItem] is what the client reads of a [SnapshotItem]; its body witness is
    the [item_body_witness] of [Entity].  Error texts are the source's; the
    diagnostic line of a refused witness is left out. *)
From stdpp Require Import gmap strings.
From S2P Require Import Prelude.
From S2P Require Import Text.
From S2P Require Import Refusals.
From S2P Require Import UploadLedger.
From S2P Require Import UploadCycle.
From S2P Require Import UploadPage.
From coqutil Require Import Datatypes.RecordSetters.
Import DoubleBraceUpdate.
Local Open Scope Z_scope.

(** An error of the validator: a fixed message, or the items it refuses. *)
Inductive AckError := AckMessage (text : string) | AckRefused (named : list nat).
Abbreviation Checked A := (AckError + A)%type (only parsing).
Definition require (ok : bool) (text : string) : Checked unit := if ok then inr () else inl (AckMessage text).
Definition and_then {A B} (r : Checked A) (k : A -> Checked B) : Checked B :=
  match r with inl e => inl e | inr a => k a end.
Notation "'let?' x := r 'in' k" := (and_then r (fun x => k)) (at level 100, x pattern, right associativity) : ottto_scope.
(** A loop that stops at the first error. *)
Fixpoint try_fold {S A} (f : S -> A -> Checked S) (s : S) (l : list A) : Checked S :=
  match l with [] => inr s | a :: l => let? s := f s a in try_fold f s l end.

Definition is_sha256_lower (value : string) : bool :=
  (str_len value =? 64) && forallb (fun b => is_ascii_digit b || ((97 <=? b) && (b <=? 102))) (as_bytes value).

(** ** Witness versions *)
Class WireItem (Item : Type) := {
  wire_snapshot :: Snapshot Item;
  source_session_id : Item -> string;
  usage_accounting_contract : Item -> option string;
  has_session_account_evidence : Item -> bool;
  has_cache_observations : Item -> bool;
  has_tool_usage : Item -> bool;
  is_request_owned_literal : Item -> bool;
  (** The revision v2 hash of the item's envelope, and whether it answers a challenge. *)
  semantic_envelope : string -> Item -> string * bool;
}.
Record SnapshotBatchRequest {Item : Type} := mkRequest { source : string; snapshots : list Item }.
Arguments SnapshotBatchRequest : clear implicits.

Section Ack.
Context {Item : Type} `{WireItem Item}.
Abbreviation Request := (SnapshotBatchRequest Item).
Implicit Types (r : SnapshotBatchResponse) (request : Request) (item : Item).

Definition snapshot_upload_body_witness_version item : option Z :=
  let exclusive := bool_decide (usage_accounting_contract item = Some "session_exclusive_reported_usage:v1"%string) in
  if has_session_account_evidence item then Some (if exclusive then 24 else 23)
  else if has_cache_observations item then Some (if exclusive then 16 else 15)
  else if has_tool_usage item then Some (if exclusive then 10 else 9)
  else None.
Definition snapshot_ack_body_witness_version item : Checked (option Z) :=
  if negb (has_session_account_evidence item) && negb (has_cache_observations item) then inr None
  else
    match snapshot_upload_body_witness_version item with
    | Some 15 => inr (Some 13)
    | Some 16 => inr (Some 14)
    | Some 23 => inr (Some (if has_cache_observations item then 13 else 7))
    | Some 24 => inr (Some (if has_cache_observations item then 14 else 8))
    | _ => inl (AckMessage "snapshot evidence has no supported body witness version")
    end.

(** ** One reference *)
Definition valid_snapshot_head_token (value : option string) : bool :=
  match value with Some token => is_sha256_lower token | None => false end.
Definition validate_identity (session fp : string) (count : Z) : Checked unit :=
  require (negb (bool_decide (str_trim session = EmptyString) || (count =? 0) || negb (is_snapshot_fingerprint fp)))
    "snapshot ACK entity identity is malformed".
Definition valid_proof (version : option Z) (digest : option string) : bool :=
  match version, digest with
  | None, None => true
  | Some version, Some digest => (3 <=? version) && (version <=? 20) && is_sha256_lower digest
  | _, _ => false
  end.
Definition validate_snapshot_entity_ref (e : SnapshotEntityRef) : Checked unit :=
  let? _ := validate_identity (ref_session e) (ref_fingerprint e) (occurrence_count e) in
  require (valid_proof (body_witness_version e) (body_witness_digest e)) "snapshot ACK body witness proof is malformed".
Definition validate_rejection (e : SnapshotEntityRejection) : Checked unit :=
  let? _ := validate_identity (rej_session e) (rej_fingerprint e) (rej_occurrence_count e) in
  require (permanent e || usage_decrease_hold (rej_reason e) || ordinary_retryable (rej_reason e))
    "snapshot ACK contains invalid rejection".

(** ** Identities: one outcome for each entity of the request *)
Abbreviation Key := (string * string)%type.
Definition requested_counts (identities : list Key) : gmap Key Z :=
  foldl (fun m key => <[key := default 0 (m !! key) + 1]> m) ∅ identities.
Record Covering := mkCovering { covered : gmap Key Z; classifications : gmap Key string; settled_count : Z }.

Definition record_snapshot_ack_occurrences (requested : gmap Key Z) (key : Key) (count : Z) (classification : string)
    (c : Covering) : Checked Covering :=
  match requested !! key with
  | None => inl (AckMessage "snapshot ACK contains a foreign entity")
  | Some expected =>
      let? _ := require (negb (count =? 0)) "snapshot ACK occurrence_count must be positive" in
      let? _ := require (bool_decide (classifications c !! key = None)) "snapshot ACK contains a duplicate outcome identity" in
      match checked_add 64 (default 0 (covered c !! key)) count with
      | None => inl (AckMessage "snapshot ACK occurrence_count overflow")
      | Some observed =>
          let? _ := require (negb (expected <? observed)) "snapshot ACK over-counts an entity" in
          inr (mkCovering (<[key := observed]> (covered c)) (<[key := classification]> (classifications c)) (settled_count c))
      end
  end.
Definition cover_settled (requested : gmap Key Z) (classification : string) (c : Covering) (e : SnapshotEntityRef) : Checked Covering :=
  let? _ := validate_snapshot_entity_ref e in
  let? c := record_snapshot_ack_occurrences requested (ref_session e, ref_fingerprint e) (occurrence_count e) classification c in
  match checked_add 64 (settled_count c) (occurrence_count e) with
  | None => inl (AckMessage "snapshot ACK accepted count overflow")
  | Some sum => inr (c {{ settled_count := sum }})
  end.
Definition cover_rejection (requested : gmap Key Z) (c : Covering) (e : SnapshotEntityRejection) : Checked Covering :=
  let? _ := validate_rejection e in
  record_snapshot_ack_occurrences requested (rej_session e, rej_fingerprint e) (rej_occurrence_count e) "rejected" c.
Definition cover_conflict (requested : gmap Key Z) (c : Covering) (e : SnapshotEntityRef) : Checked Covering :=
  let? _ := validate_snapshot_entity_ref e in
  record_snapshot_ack_occurrences requested (ref_session e, ref_fingerprint e) (occurrence_count e) "conflict" c.

Definition validate_entity_ack_identities (identities : list Key) r : Checked unit :=
  let requested := requested_counts identities in
  let? c := try_fold (cover_settled requested "accepted") (mkCovering ∅ ∅ 0) (accepted_entities r) in
  let? c := try_fold (cover_settled requested "unchanged") c (unchanged_entities r) in
  let? c := try_fold (cover_rejection requested) c (rejected_entities r) in
  let? c := try_fold (cover_conflict requested) c (conflict_entities r) in
  let? _ := require (bool_decide (covered c = requested)) "snapshot ACK does not cover the request exactly" in
  require (accepted_count r =? settled_count c) "snapshot ACK accepted count mismatch".

(** ** Head-CAS tokens *)
Definition validate_head_cas_ack (enforce : bool) r : Checked unit :=
  let settled := accepted_entities r ++ unchanged_entities r in
  if negb enforce then
    require (forallb (fun e => bool_decide (head_etag e = None) && bool_decide (head_challenge e = None)) (settled ++ conflict_entities r))
      "snapshot ACK returned head tokens for a request without the head-CAS contract"
  else
    let? _ := require (forallb (fun e => valid_snapshot_head_token (head_etag e) && bool_decide (head_challenge e = None)) settled)
      "snapshot head-CAS ACK lacks an exclusive accepted head etag" in
    require (forallb (fun e => bool_decide (head_etag e = None) && valid_snapshot_head_token (head_challenge e)) (conflict_entities r))
      "snapshot head-CAS conflict lacks an exclusive head challenge".

(** ** Holds *)
Definition declares_usage_decrease_hold_ack request : bool :=
  bool_decide (source request = "claude_code"%string) && existsb is_request_owned_literal (snapshots request).
Definition item_key item : Key := (source_session_id item, fingerprint item).
Definition validate_usage_decrease_holds request r : Checked unit :=
  let declared := declares_usage_decrease_hold_ack request in
  require
    (forallb (fun e => negb (negb (permanent e) && usage_decrease_hold (rej_reason e)) ||
       (declared && existsb (fun item => bool_decide (item_key item = (rej_session e, rej_fingerprint e)) &&
                                         is_request_owned_literal item) (snapshots request)))
       (rejected_entities r))
    "snapshot ACK holds a body that did not declare the hold contract".

(** ** Body witnesses *)
Abbreviation Proof_ := (Z * string)%type.
Definition body_witness_refused (e : SnapshotEntityRef) (expected : Proof_) : bool :=
  match body_witness_version e, body_witness_digest e with
  | None, _ => true
  | Some version, digest =>
      negb (version =? expected.1) || match digest with None => true | Some digest => negb (bool_decide (digest = expected.2)) end
  end.
Definition expect_witness (expected : gmap Key Proof_) item : Checked (gmap Key Proof_) :=
  let? version := snapshot_ack_body_witness_version item in
  match version with
  | None => inr expected
  | Some version =>
      let proof := (version, item_body_witness item) in
      let? _ := require (match expected !! item_key item with Some previous => bool_decide (previous = proof) | None => true end)
        "snapshot request contains conflicting snapshot evidence body witnesses" in
      inr (<[item_key item := proof]> expected)
  end.
Definition refused_keys (expected : gmap Key Proof_) r : gset Key :=
  list_to_set (omap (fun e =>
    let key := (ref_session e, ref_fingerprint e) in
    match expected !! key with
    | Some proof => if body_witness_refused e proof then Some key else None
    | None => None
    end) (accepted_entities r ++ unchanged_entities r)).
Definition positions_of (keys : gset Key) (items : list Item) : list nat :=
  omap id (imap (fun i item => if bool_decide (item_key item ∈ keys) then Some i else None) items).
Definition validate_body_witness_ack request r : Checked unit :=
  let? expected := try_fold expect_witness ∅ (snapshots request) in
  let named := refused_keys expected r in
  if bool_decide (named = ∅) then inr () else inl (AckRefused (positions_of named (snapshots request))).

(** ** The whole check *)
Definition validate_entity_ack_with_head_cas_inner request (enforce : bool) r : Checked unit :=
  let enforce := enforce || existsb has_cache_observations (snapshots request) in
  if disabled r then
    require ((accepted_count r =? 0) && bool_decide (accepted_entities r = []) && bool_decide (unchanged_entities r = []) &&
             bool_decide (rejected_entities r = []) && bool_decide (conflict_entities r = []))
      "disabled snapshot response contains entity outcomes"
  else match ack_contract r with
  | None =>
      let? _ := require (accepted_count r =? Z.of_nat (length (snapshots request))) "legacy snapshot response accepted count mismatch" in
      require (negb (existsb (fun item => is_request_owned_literal item || has_session_account_evidence item ||
                                          has_cache_observations item) (snapshots request)))
        "legacy snapshot response cannot durably acknowledge snapshot evidence"
  | Some contract =>
      let? _ := require (bool_decide (contract = SNAPSHOT_ENTITY_ACK_CONTRACT)) "snapshot response uses an unsupported entity ACK contract" in
      let? _ := validate_entity_ack_identities (item_key <$> snapshots request) r in
      let? _ := validate_head_cas_ack enforce r in
      let? _ := validate_usage_decrease_holds request r in
      validate_body_witness_ack request r
  end.
(** Every refusal is a [SnapshotAckRejected]; a refused witness names its items. *)
Definition validate_entity_ack_with_head_cas request (enforce : bool) r : Error + () :=
  match validate_entity_ack_with_head_cas_inner request enforce r with
  | inr () => inr ()
  | inl (AckRefused named) => inl [RefusedSnapshotIndexes named; SnapshotAckRejected]
  | inl (AckMessage _) => inl [SnapshotAckRejected]
  end.

(** The rescans a challenged conflict is answered with. *)
Definition bind_rescan request (rescans : gmap string SnapshotConflictRescan) (e : SnapshotEntityRef) : gmap string SnapshotConflictRescan :=
  if negb (valid_snapshot_head_token (head_challenge e)) then rescans
  else match List.find (fun item => bool_decide (item_key item = (ref_session e, ref_fingerprint e))) (snapshots request) with
       | None => rescans
       | Some item =>
           let envelope := semantic_envelope (source request) item in
           <[ref_fingerprint e := mkRescan envelope.1 envelope.2]> rescans
       end.
Definition is_snapshot_source (slug : string) : bool :=
  bool_decide (slug ∈ ["codex"; "claude_code"; "pi"]%string).
Definition bind_conflict_rescans request r : SnapshotBatchResponse :=
  if is_snapshot_source (source request)
  then r {{ conflict_rescans := (foldl (bind_rescan request) (conflict_rescans r) (conflict_entities r) : gmap string _) }}
  else r.
End Ack.
