(* ===== verification/BatchTransport.v ===== *)
(** Sending a batch: what an HTTP outcome becomes, and the checked upload
    (crates/ottto-service/src/snapshot_client.rs, [upload_batch_inner],
    [shed_from_response], [BatchRejected::from_response];
    snapshot_sync.rs, [upload_checked] and the uploader's send closure,
    [require_normal_write_ack_for_legacy_reconciliation]).

    The HTTP client is [Wire]: [post] answers with the last outcome, after the
    fallback to an identity encoding; [parse_json] is serde_json and [rfc2822]
    the time crate's parser, in nanoseconds.  Receipts and log lines are left
    out. *)
From stdpp Require Import gmap strings.
From S2P Require Import Prelude.
From S2P Require Import Text.
From S2P Require Import Std.
From S2P Require Import UploadLedger.
From S2P Require Import UploadCycle.
From S2P Require Import UploadPage.
From S2P Require Import UploadLoop.
From S2P Require Import BatchAck.
Local Open Scope Z_scope.

(** ** JSON *)
Inductive Json :=
  | JNull
  | JBool (b : bool)
  (** A number, with its value when it is an unsigned 64-bit integer. *)
  | JNumber (as_u64 : option Z)
  | JString (s : string)
  | JArray (values : list Json)
  | JObject (members : list (string * Json)).
Definition json_get (v : Json) (key : string) : option Json :=
  match v with JObject members => snd <$> List.find (fun e => bool_decide (e.1 = key)) members | _ => None end.
Definition as_array (v : Json) : option (list Json) := match v with JArray l => Some l | _ => None end.
Definition json_str (v : Json) : option string := match v with JString s => Some s | _ => None end.
Definition json_as_u64 (v : Json) : option Z := match v with JNumber n => n | _ => None end.

(** ** The items an error body names *)
(** [BTreeSet::insert] of an index. *)
Fixpoint insert_index (i : nat) (l : list nat) : list nat :=
  match l with
  | [] => [i]
  | j :: rest => if (i <? j)%nat then i :: l else if (i =? j)%nat then l else j :: insert_index i rest
  end.
Definition error_index (count : nat) (error : Json) : option nat :=
  try? loc := json_get error "loc" in
  try? loc := as_array loc in
  try? body := loc !! 0%nat in
  try? body := json_str body in
  if negb (bool_decide (body = "body"%string)) then None
  else
    try? items := loc !! 1%nat in
    try? items := json_str items in
    if negb (bool_decide (items = "snapshots"%string)) then None
    else
      try? index := loc !! 2%nat in
      try? index := json_as_u64 index in
      let index := Z.to_nat index in
      if (count <=? index)%nat then None else Some index.
Fixpoint error_indexes (count : nat) (errors : list Json) (indexes : list nat) : option (list nat) :=
  match errors with
  | [] => Some indexes
  | error :: errors => try? index := error_index count error in error_indexes count errors (insert_index index indexes)
  end.
Definition snapshot_error_indexes (body : Json) (count : nat) : option (list nat) :=
  try? errors := json_get body "errors" in
  try? errors := as_array errors in
  if bool_decide (errors = []) then None else error_indexes count errors [].

(** ** Retry-After *)
Definition ZERO : Duration := 0.
Definition parse_u64 (bytes : list Z) : option Z :=
  let digits := default bytes (strip_prefix [43] bytes) in
  if all_digits digits then try_uint 64 (foldl (fun n b => n * 10 + (b - 48)) 0 digits) else None.
Definition parse_retry_after (rfc2822 : string -> option Z) (value : string) (now : Z) : option Duration :=
  let value := str_trim value in
  if bool_decide (value = EmptyString) then None
  else match parse_u64 (as_bytes value) with
  | Some seconds => Some (Z.min (secs seconds) MAX_HONOURED_RETRY_AFTER)
  | None =>
      let normalized := (fun head => of_bytes (head ++ as_bytes "+0000")) <$> strip_suffix (as_bytes "GMT") (as_bytes value) in
      try? deadline := rfc2822 (default value normalized) in
      let delta := deadline - now in
      Some (if delta <? 0 then ZERO else Z.min (secs (as_secs delta)) MAX_HONOURED_RETRY_AFTER)
  end.

(** ** Outcomes *)
Inductive HttpOutcome :=
  | Answered (decoded : option SnapshotBatchResponse)
  (** A status error, its header and its body unless the read failed. *)
  | StatusError (code : Z) (retry_after : option string) (body : option (list Z))
  | TransportError (text : string).

Definition SNAPSHOT_ORIGINAL_IDENTITY_UNAVAILABLE : string := "snapshot_original_identity_unavailable".
Definition SHED_BODY_EXCERPT_BYTES : nat := 4 * 1024.
Definition http_status_family (status : Z) : string :=
  if (400 <=? status) && (status <=? 499) then (if status =? 429 then "http_429" else "http_4xx")
  else if (500 <=? status) && (status <=? 599) then "http_5xx"
  else if (300 <=? status) && (status <=? 399) then "http_3xx"
  else "http_other".
Definition transport_status_family (text : string) : string :=
  let text := to_ascii_lowercase (as_bytes text) in
  let has (needle : string) := contains (as_bytes needle) text in
  if has "timed out"%string || has "timeout"%string then "transport_timeout"
  else if has "dns"%string || has "resolve"%string then "transport_dns"
  else if has "tls"%string || has "certificate"%string then "transport_tls"
  else if has "connection"%string || has "connect"%string then "transport_connection"
  else "transport_error".

Section Outcomes.
Context (parse_json : list Z -> option Json) (rfc2822 : string -> option Z).

(** Whether the body has the identity deferral's code, and the items it names. *)
Definition shed_body (excerpt : list Z) (count : nat) : bool * option (list nat) :=
  match parse_json excerpt with
  | Some (JObject members) =>
      let envelope := JObject members in
      let unavailable := bool_decide ((json_get envelope "code" ≫= json_str) = Some SNAPSHOT_ORIGINAL_IDENTITY_UNAVAILABLE) in
      (unavailable, if unavailable then snapshot_error_indexes envelope count else None)
  | _ => (false, None)
  end.
Definition shed_from_response (status : Z) (retry_after : option string) (body : option (list Z)) (count : nat) (now : Z) : Error :=
  let '(unavailable, named) := match body with
    | Some body => shed_body (take SHED_BODY_EXCERPT_BYTES body) count
    | None => (false, None)
    end in
  let shed := Shed (mkShed status (retry_after ≫= fun value => parse_retry_after rfc2822 value now) unavailable) in
  match named with Some indexes => [ShedSnapshotIndexes indexes; shed] | None => [shed] end.
Definition rejected_from_response (status : Z) (body : list Z) (count : nat) : ErrorLayer :=
  BatchRejected status
    (if status =? 422 then try? body := parse_json body in snapshot_error_indexes body count else None).

Definition batch_outcome (outcome : HttpOutcome) (count : nat) (now : Z) : Error + SnapshotBatchResponse :=
  match outcome with
  | Answered (Some response) => inr response
  | Answered None => inl [SnapshotAckRejected]
  | StatusError code retry_after body =>
      inl (if (code =? 429) || (code =? 503) then shed_from_response code retry_after body count now
           else if (code =? 401) || (code =? 403) then [BatchAuthorizationRejected code]
           else if (code =? 400) || (code =? 422) then [rejected_from_response code (default [] body) count]
           else [Diagnostics (mkDiagnostics "snapshot_batch" (http_status_family code) (Some code))])
  | TransportError text => inl [Diagnostics (mkDiagnostics "snapshot_batch" (transport_status_family text) None)]
  end.

(** ** The checked upload *)
Class Wire (W Item : Type) := {
  preflight : SnapshotBatchRequest Item -> option string;
  ensure_authority : W -> option Error * W;
  issue_relay_token : W -> (Error + string) * W;
  validate_joined : list Item -> W -> option Error * W;
  post : string -> SnapshotBatchRequest Item -> bool -> W -> HttpOutcome * W;
  now_utc : W -> Z;
}.

Section Upload.
Context {W Item : Type} `{WireItem Item} `{Wire W Item}.
Context (slug : string) (legacy_pending : gset string).

Definition upload_batch (token : string) (request : SnapshotBatchRequest Item) (enforce : bool) (w : W) :
    (Error + SnapshotBatchResponse) * W :=
  let enforce := enforce || existsb has_cache_observations (snapshots request) in
  let '(outcome, w) := post token request enforce w in
  (batch_outcome outcome (length (snapshots request)) (now_utc w), w).
Definition upload_checked (request : SnapshotBatchRequest Item) (enforce : bool) (w : W) : (Error + SnapshotBatchResponse) * W :=
  match preflight request with
  | Some reason => (inl [SnapshotBatchPreflightRejected reason], w)
  | None =>
      match ensure_authority w with
      | (Some e, w) => (inl e, w)
      | (None, w) =>
          match issue_relay_token w with
          | (inl e, w) => (inl e, w)
          | (inr token, w) =>
              match ensure_authority w with
              | (Some e, w) => (inl e, w)
              | (None, w) =>
                  match validate_joined (snapshots request) w with
                  | (Some e, w) => (inl e, w)
                  | (None, w) =>
                      match upload_batch token request enforce w with
                      | (inl e, w) => (inl e, w)
                      | (inr response, w) =>
                          (match validate_entity_ack_with_head_cas request enforce response with
                           | inl e => inl e
                           | inr () => inr response
                           end, w)
                      end
                  end
              end
          end
      end
  end.

Definition require_normal_write_ack_for_legacy_reconciliation (response : SnapshotBatchResponse) (fingerprints : list string) :
    option Error :=
  if negb (existsb (fun fp => bool_decide (fp ∈ legacy_pending)) fingerprints) then None
  else if disabled response then Some [SnapshotAckRejected]
  else if negb (bool_decide (ack_contract response = Some SNAPSHOT_ENTITY_ACK_CONTRACT)) then Some [SnapshotAckRejected]
  else None.

(** The closure the uploader sends a page with. *)
Definition send_page (items : list Item) (w : W) : (Error + SnapshotBatchResponse) * W :=
  let request := mkRequest _ slug items in
  let reconcile_class := forallb (fun item => bool_decide (fingerprint item ∈ legacy_pending)) items in
  match upload_checked request reconcile_class w with
  | (inl e, w) => (inl e, w)
  | (inr response, w) =>
      (match require_normal_write_ack_for_legacy_reconciliation response (fingerprint <$> items) with
       | Some e => inl e
       | None => inr (bind_conflict_rescans request response)
       end, w)
  end.
End Upload.
End Outcomes.
