(* ===== verification/UploadPageLaws.v ===== *)
(** Laws of the upload ledger: what an operation on one entity leaves of the
    others, and when a body is settled.  Then the page over it: what one attempt
    keeps, answers and settles. *)
From stdpp Require Import gmap strings.
From S2P Require Import Prelude.
From S2P Require Import OrdMap.
From S2P Require Import Std.
From S2P Require Import Quarantine.
From S2P Require Import Refusals.
From S2P Require Import UploadLedger.
From S2P Require Import UploadCycle.
From S2P Require Import UploadPage.
From coqutil Require Import Datatypes.RecordSetters.
Import DoubleBraceUpdate.
Local Open Scope Z_scope.

Section Laws.
Context {Stored : Type} (sha256 : list Z -> list Z).
Implicit Types (p q : Progress Stored) (fp body : string).

(** What the ledger knows of [fp], but for its counters. *)
Record same_at fp p q : Prop := mkSameAt {
  same_refusal : permanent_rejections q !! fp = permanent_rejections p !! fp;
  same_quarantine : quarantined_fingerprints q !! fp = quarantined_fingerprints p !! fp;
  same_body : accepted_body_witnesses q !! fp = accepted_body_witnesses p !! fp;
  same_context : accepted_body_contexts q !! fp = accepted_body_contexts p !! fp;
  same_retry : fp ∈ active_quarantine_retries q <-> fp ∈ active_quarantine_retries p;
  same_lease : active_reason_reoffers q !! fp = active_reason_reoffers p !! fp;
  same_cycle : forall stamps, requires_resend fp stamps (context_resend q) = requires_resend fp stamps (context_resend p);
  same_deferred : fp ∈ deferred (context_resend q) <-> fp ∈ deferred (context_resend p);
}.
#[export] Instance same_at_preorder fp : PreOrder (same_at fp).
Proof.
  split; [by intros p; split|].
  intros p q r [] []. split; try congruence; try (etrans; eassumption).
Qed.

Lemma requires_resend_stamp fp stamps stamps' c :
  stamps !! fp = stamps' !! fp -> requires_resend fp stamps c = requires_resend fp stamps' c.
Proof. intros He. unfold requires_resend. by rewrite He. Qed.

Lemma same_contains fp body p q : same_at fp p q -> contains_body q fp body = contains_body p fp body.
Proof.
  intros [Hr Hq Hb Hc Ht Hl Hy Hd]. unfold contains_body, ledger_refused_body, ledger_owed_stale_body, held_body.
  rewrite Hr, Hq, Hb, Hl, Hy, (bool_decide_ext _ _ Ht). by rewrite (requires_resend_stamp _ _ _ _ Hc).
Qed.

(** A body the uploader is done with: suppressed, accepted, held in quarantine,
    or put off to a later pass. *)
Definition settled p fp body : Prop :=
  contains_body p fp body = true \/ accepted_body_witnesses p !! fp = Some body \/
  held_body p fp body = true \/ fp ∈ deferred (context_resend p).
Lemma same_settled fp body p q : same_at fp p q -> settled p fp body -> settled q fp body.
Proof.
  intros Hs. unfold settled, held_body.
  by rewrite (same_contains _ _ _ _ Hs), (same_body _ _ _ Hs), (same_deferred _ _ _ Hs), (same_quarantine _ _ _ Hs).
Qed.

Lemma map_counts_same fp f p : same_at fp p (map_counts f p).
Proof. by destruct p. Qed.
Lemma count_if_same fp b f p : same_at fp p (count_if b f p).
Proof. destruct b; [apply map_counts_same|done]. Qed.

(** Closes [same_at] for an operation on another entity. *)
Ltac other_entity :=
  split; cbn; unfold constant;
  rewrite ?lookup_insert_ne, ?lookup_delete_ne, ?lookup_alter_ne, ?lookup_partial_alter_ne by done; try done; set_solver.

Lemma end_lease_same fp fp' p : fp' <> fp -> same_at fp' p (end_lease fp p).
Proof. destruct p. intros. other_entity. Qed.
Lemma with_refusal_same fp fp' r p : fp' <> fp -> same_at fp' p (with_refusal fp r p).
Proof. destruct p. intros. other_entity. Qed.
Lemma map_record_same fp fp' f p : fp' <> fp -> same_at fp' p (map_record f fp p).
Proof. destruct p. intros. other_entity. Qed.
Lemma quarantine_body_same fp fp' body now p : fp' <> fp -> same_at fp' p (quarantine_body sha256 fp body now p).
Proof. destruct p. intros. other_entity. Qed.
Lemma forget_context_same fp fp' p : fp' <> fp -> same_at fp' p (forget_context fp p).
Proof. destruct p. intros. other_entity. Qed.
Lemma accept_body_same fp fp' body p : fp' <> fp -> same_at fp' p (accept_body fp body p).
Proof. destruct p. intros. other_entity. Qed.
Lemma record_body_same fp fp' body p : fp' <> fp -> same_at fp' p (record_body fp body p).
Proof.
  intros Hne. unfold record_body. etrans; [by apply (forget_context_same fp)|].
  etrans; [apply count_if_same|]. etrans; [by apply with_refusal_same|].
  etrans; [by apply accept_body_same|]. by apply end_lease_same.
Qed.

Lemma pace_retry_same fp fp' now p : fp' <> fp -> same_at fp' p (pace_retry sha256 fp now p).
Proof. apply map_record_same. Qed.
Lemma note_refused_exposure_same get scope fp fp' p : fp' <> fp -> same_at fp' p (note_refused_exposure get scope fp p).
Proof. destruct p. intros. other_entity. Qed.

Lemma quarantine_permanent_body_same fp fp' body why now p :
  fp' <> fp -> same_at fp' p (quarantine_permanent_body sha256 fp body why now p).
Proof.
  intros Hne. unfold quarantine_permanent_body. etrans; [apply count_if_same|].
  etrans; [by apply (quarantine_body_same fp)|]. etrans; [by apply (map_record_same fp)|].
  etrans; [by apply with_refusal_same|]. by apply end_lease_same.
Qed.

Lemma hold_unstored_body_same fp fp' body now p :
  fp' <> fp -> same_at fp' p (hold_unstored_body sha256 fp body now p).
Proof.
  intros Hne. unfold hold_unstored_body. etrans; [apply (count_if_same fp')|].
  etrans; [|by apply map_record_same]. etrans; [|by apply quarantine_body_same].
  etrans; [|by apply end_lease_same]. unfold retire_refusal. case_match; [by apply with_refusal_same|done].
Qed.

Lemma quarantine_retryable_body_same fp fp' body at_ now p :
  fp' <> fp -> same_at fp' p (quarantine_retryable_body sha256 fp body at_ now p).
Proof.
  intros Hne. unfold quarantine_retryable_body. etrans; [apply count_if_same|].
  etrans; [by apply (end_lease_same fp)|]. etrans; [by apply (quarantine_body_same fp)|]. by apply map_record_same.
Qed.

(** ** The entity an operation is about *)
Lemma record_body_accepted fp body p : accepted_body_witnesses (record_body fp body p) !! fp = Some body.
Proof. unfold record_body. destruct (with_refusal _ _ _). apply lookup_insert_eq. Qed.

Lemma held_quarantine_body fp body now p : held_body (quarantine_body sha256 fp body now p) fp body = true.
Proof. destruct p. unfold held_body. cbn. unfold constant. rewrite lookup_insert_eq. by apply bool_decide_eq_true_2. Qed.

Lemma held_map_record fp body f p :
  (forall r, upload_body_witness (f r) = upload_body_witness r) ->
  held_body (map_record f fp p) fp body = held_body p fp body.
Proof. intros Hf. destruct p. unfold held_body. cbn. unfold constant. rewrite lookup_alter_eq. destruct (_ !! fp); cbn; [|done]. by rewrite Hf. Qed.

Lemma held_end_lease fp body p : held_body (end_lease fp p) fp body = held_body p fp body.
Proof. by destruct p. Qed.
Lemma held_with_refusal fp body r p : held_body (with_refusal fp r p) fp body = held_body p fp body.
Proof. by destruct p. Qed.

Lemma exhaust_body r : upload_body_witness (exhaust r).1 = upload_body_witness r.
Proof. unfold exhaust. destruct r. by repeat case_match. Qed.

Lemma quarantine_permanent_body_held fp body why now p :
  held_body (quarantine_permanent_body sha256 fp body why now p) fp body = true.
Proof.
  unfold quarantine_permanent_body. rewrite held_end_lease, held_with_refusal, held_map_record by by intros [].
  apply held_quarantine_body.
Qed.
Lemma hold_unstored_body_held fp body now p : held_body (hold_unstored_body sha256 fp body now p) fp body = true.
Proof.
  unfold hold_unstored_body. rewrite held_map_record; [apply held_quarantine_body|].
  intros []. unfold unstored_record. by repeat case_match.
Qed.
Lemma quarantine_retryable_body_held fp body at_ now p :
  held_body (quarantine_retryable_body sha256 fp body at_ now p) fp body = true.
Proof.
  unfold quarantine_retryable_body. rewrite held_map_record; [apply held_quarantine_body|].
  intros []. by rewrite exhaust_body.
Qed.
End Laws.

(** ** Programs that keep a relation of their states *)
Section Keeps.
Context {St : Type} (R : St -> St -> Prop) `{!PreOrder R}.
Definition keeps {A} (m : M (St := St) A) : Prop := forall s, R s (m s).2.

Lemma keeps_ret {A} (a : A) : keeps (ret a).
Proof. by intros s. Qed.
Lemma keeps_fail {A} e : keeps (fail (A := A) e).
Proof. by intros s. Qed.
Lemma keeps_bind {A B} (m : M A) (k : A -> M B) : keeps m -> (forall a, keeps (k a)) -> keeps (bind m k).
Proof.
  intros Hm Hk s. unfold bind. specialize (Hm s). destruct (m s) as [[e|a] s']; cbn in *; [done|].
  etrans; [done|apply Hk].
Qed.
Lemma keeps_attempt {A} (m : M A) : keeps m -> keeps (attempt m).
Proof. intros Hm s. unfold attempt. specialize (Hm s). by destruct (m s). Qed.
Lemma keeps_each {A} (f : A -> M unit) l : (forall a, a ∈ l -> keeps (f a)) -> keeps (each f l).
Proof.
  induction l as [|a l IH]; intros Hf; cbn; [apply keeps_ret|].
  apply keeps_bind; [apply Hf; set_solver|]. intros _. apply IH. set_solver.
Qed.

End Keeps.

Lemma each_keeps_fact {St A} (f : A -> M (St := St) unit) (Q : St -> Prop) l s s' :
  (forall b s, b ∈ l -> Q s -> Q (f b s).2) -> each f l s = (inr (), s') -> Q s -> Q s'.
Proof.
  revert s. induction l as [|b l IH]; intros s Hk He HQ; cbn in He; [by injection He as <-|].
  unfold bind in He. destruct (f b s) as [[e|[]] s1] eqn:Eb; [done|].
  apply (IH s1); [|done|]. { intros c t Hc. apply Hk. set_solver. }
  change s1 with (inr () : Error + (), s1).2. rewrite <-Eb. apply Hk; [set_solver|done].
Qed.

(** What one step of [each] establishes, the rest keeps. *)
Lemma each_establishes {St A} (f : A -> M (St := St) unit) (Q : A -> St -> Prop) l s s' :
  (forall a s s', a ∈ l -> f a s = (inr (), s') -> Q a s') ->
  (forall a b s, a ∈ l -> b ∈ l -> Q a s -> Q a (f b s).2) ->
  each f l s = (inr (), s') -> forall a, a ∈ l -> Q a s'.
Proof.
  revert s. induction l as [|b l IH]; intros s Hf Hk He a Ha; [set_solver|].
  cbn in He. unfold bind in He. destruct (f b s) as [[e|[]] s1] eqn:Eb; [done|].
  apply elem_of_cons in Ha as [->|Ha].
  - apply (each_keeps_fact f (Q b) l s1); [|done|apply (Hf b s); [set_solver|done]].
    intros c t Hc. apply Hk; set_solver.
  - apply (IH s1); [..|done|done]; [intros c t t' Hc; apply Hf|intros c d t Hc Hd; apply Hk]; set_solver.
Qed.

Lemma bind_inr {St A B} (m : M (St := St) A) (k : A -> M B) s b s' :
  bind m k s = (inr b, s') -> exists a s1, m s = (inr a, s1) /\ k a s1 = (inr b, s').
Proof. unfold bind. destruct (m s) as [[e|a] s1]; [done|]. by exists a, s1. Qed.

(** ** The page's steps keep what is settled *)
Section PageLaws.
Context {W Stored Item : Type} `{Snapshot Item} `{StoredState Stored Item} `{World W Item Stored}.
Context (sha256 : list Z -> list Z) (current : gmap string string).
Context (Hpersist : forall p w failed q w', persist p w = (failed, q, w') ->
  forall fp body, settled p fp body -> settled q fp body).
Abbreviation St := (UploadState W Stored).
Abbreviation Prog := (M (St := St)).
Implicit Types (p q : Progress Stored) (e : nat * Item).

Definition in_page e : Prop := current !! fingerprint e.2 = Some (item_body_witness e.2).
Definition still_settled (s s' : St) : Prop :=
  forall fp body, current !! fp = Some body -> settled (progress s) fp body -> settled (progress s') fp body.
#[export] Instance still_settled_preorder : PreOrder still_settled.
Proof. split; [by intros s fp body|]. intros s t u Hst Htu fp body Hc Hs. by apply Htu, Hst. Qed.
Abbreviation kept := (keeps still_settled).

Lemma kept_same {A} (m : Prog A) : (forall s, progress (m s).2 = progress s) -> kept m.
Proof. intros Hm s fp body Hc. by rewrite Hm. Qed.
Lemma kept_map f : (forall p fp body, current !! fp = Some body -> settled p fp body -> settled (f p) fp body) ->
  kept (map_progress f).
Proof. intros Hf s fp body Hc Hs. destruct s. by apply Hf. Qed.
Lemma kept_unseen f : (forall p fp, same_at fp p (f p)) -> kept (map_progress f).
Proof. intros Hf. apply kept_map. intros p fp body _. by apply same_settled. Qed.
(** An operation on one entity of the page that settles its body. *)
Lemma kept_entity fp body f :
  current !! fp = Some body -> (forall p fp', fp' <> fp -> same_at fp' p (f p)) -> (forall p, settled (f p) fp body) ->
  kept (map_progress f).
Proof.
  intros Hc Hsame Hset. apply kept_map. intros p fp' body' Hc' Hs.
  destruct (decide (fp' = fp)) as [->|Hne]; [|by eapply same_settled; [apply Hsame|]].
  rewrite Hc in Hc'. injection Hc' as <-. apply Hset.
Qed.

Lemma kept_read {A} (f : Progress Stored -> A) : kept (read f).
Proof. by apply kept_same. Qed.
Lemma kept_clock : kept clock.
Proof. by apply kept_same. Qed.
Lemma kept_request items : kept (request items).
Proof. apply kept_same. intros []. unfold request. cbn. by case_match. Qed.
Lemma kept_poison fp : kept (record_poison_loss_once fp).
Proof. apply kept_same. intros []. unfold record_poison_loss_once. cbn. by case_match. Qed.
Lemma kept_save : kept save_ledger.
Proof.
  intros [] fp body Hc Hs. unfold save_ledger. cbn in *. destruct (persist _ _) as [[failed q] w] eqn:Ep.
  cbn. by apply (Hpersist _ _ _ _ _ Ep).
Qed.
Lemma kept_save_or operation : kept (save_or operation).
Proof. intros s. unfold save_or. pose proof (kept_save s). by destruct (save_ledger s) as [[]]. Qed.
Lemma kept_admit page : kept (admit_page page).
Proof. apply kept_same. intros s. unfold admit_page. by case_match. Qed.
Lemma kept_length item : kept (packing_length item).
Proof. unfold packing_length. case_match; [apply keeps_ret|apply keeps_fail]; apply _. Qed.

(** Splits a program into the steps it runs. *)
Ltac kept_steps :=
  repeat first
    [ apply kept_read | apply kept_clock | apply kept_save | apply kept_save_or | apply kept_request
    | apply kept_poison | apply kept_admit | apply kept_length
    | apply keeps_ret; apply _ | apply keeps_fail; apply _
    | apply keeps_bind; [apply _| |intros ?]
    | apply kept_unseen; intros [] ?; split; cbn; done
    | case_match ].

Lemma kept_note_reoffer item : kept (note_reoffer item).
Proof. unfold note_reoffer. kept_steps. Qed.
Lemma kept_note_sending item : kept (note_sending item).
Proof.
  unfold note_sending. kept_steps. apply kept_unseen. intros [] fp. split; cbn; try done; unfold constant.
  - intros stamps. apply note_attempt_requires.
  - by rewrite note_attempt_deferred.
Qed.
Lemma kept_drop_replaced_proof items : kept (drop_replaced_proof items).
Proof. unfold drop_replaced_proof. kept_steps. Qed.

Lemma pace_settled fp now p fp' body : settled p fp' body -> settled (pace_retry sha256 fp now p) fp' body.
Proof.
  assert (Hh : forall fp' body, held_body (pace_retry sha256 fp now p) fp' body = held_body p fp' body).
  { intros fp1 b1. destruct (decide (fp1 = fp)) as [->|Hne].
    - apply held_map_record. by intros [].
    - unfold held_body. by rewrite (same_quarantine _ _ _ (pace_retry_same sha256 fp fp1 now p Hne)). }
  assert (Hcon : contains_body (pace_retry sha256 fp now p) fp' body = contains_body p fp' body).
  { unfold contains_body. rewrite Hh. by destruct p. }
  unfold settled. rewrite Hcon, Hh. by destruct p.
Qed.
Lemma kept_pace_sent page : kept (pace_sent sha256 page).
Proof.
  unfold pace_sent. kept_steps; apply keeps_each; try apply _; intros fp _; apply kept_map; intros; by apply pace_settled.
Qed.

(** ** The answer *)
Lemma record_head_conflict_same session c rescan now fp p :
  same_at fp p (record_head_conflict_challenge sha256 session c rescan now p).2.
Proof. destruct p. unfold record_head_conflict_challenge. by repeat case_match. Qed.
Lemma record_conflict_same r now (e : SnapshotEntityRef) p owed_now fp : same_at fp p (record_conflict sha256 r now (p, owed_now) e).1.
Proof.
  unfold record_conflict. repeat case_match; simplify_eq/=; try done;
    match goal with E : record_head_conflict_challenge _ ?s ?c ?x ?n ?p = _ |- _ =>
      pose proof (record_head_conflict_same s c x n fp p) as Hs; by rewrite E in Hs end.
Qed.
Lemma record_conflicts_same r now p fp : same_at fp p (record_conflicts sha256 r now p).1.
Proof.
  unfold record_conflicts. generalize (∅ : gset string) as owed_now. revert p.
  induction (conflict_entities r) as [|e l IH]; intros p owed_now; [done|]. cbn [foldl].
  etrans; [apply (record_conflict_same r now e p owed_now)|].
  destruct (record_conflict _ _ _ _ _) as [p' owed']. apply IH.
Qed.

Lemma kept_record_stored_state item changed proof : kept (record_stored_state sha256 item changed proof).
Proof. unfold record_stored_state. kept_steps. Qed.

Lemma fresh_ack_settled fp body p : settled (note_fresh_ack fp body (record_body fp body p)) fp body.
Proof.
  right. left. pose proof (record_body_accepted fp body p) as Ha. destruct (record_body fp body p).
  unfold note_fresh_ack. by case_match.
Qed.
Lemma fresh_ack_same fp fp' body p : fp' <> fp -> same_at fp' p (note_fresh_ack fp body (record_body fp body p)).
Proof.
  intros Hne. etrans; [by apply (record_body_same fp fp' body)|]. generalize (record_body fp body p) as q.
  intros [? ? ? ? ? ? [[] ? ? ? ? ? ? ? ? ? ? ?]];
    (split; cbn; unfold constant; rewrite ?lookup_insert_ne by done; done).
Qed.
Lemma note_not_stored_same fp fp' p : same_at fp' p (note_not_stored fp p).
Proof. destruct p as [??????[]]. by split. Qed.
Lemma unstored_settled fp body now p : settled (note_not_stored fp (hold_unstored_body sha256 fp body now p)) fp body.
Proof.
  eapply same_settled; [apply note_not_stored_same|]. right. right. left. apply hold_unstored_body_held.
Qed.

Lemma kept_settle_accepted r now e : in_page e -> kept (settle_accepted sha256 r now e).
Proof.
  intros He. unfold settle_accepted. case_match; [|case_match].
  - apply keeps_bind; [apply _| |intros; apply kept_record_stored_state].
    eapply kept_entity; [apply He|intros; by apply fresh_ack_same|intros; apply fresh_ack_settled].
  - eapply kept_entity; [apply He| |intros; apply unstored_settled].
    intros p fp' Hne. etrans; [by apply hold_unstored_body_same|apply note_not_stored_same].
  - apply keeps_ret. apply _.
Qed.

Definition answers r e : Prop := fingerprint e.2 ∈ settled_set r \/ fingerprint e.2 ∈ not_stored_set r.
Lemma record_stored_state_progress item changed proof (s : St) fp body :
  accepted_body_witnesses (progress s) !! fp = Some body ->
  accepted_body_witnesses (progress (record_stored_state sha256 item changed proof s).2) !! fp = Some body.
Proof.
  destruct s as [[]]. unfold record_stored_state, bind, map_progress, read, fail, ret.
  by repeat (case_match; simplify_eq/=).
Qed.
Lemma fresh_ack_bodies fp body p : accepted_body_witnesses (note_fresh_ack fp body p) = accepted_body_witnesses p.
Proof. by destruct p as [??????[[]]]. Qed.
Lemma answered_settled r now e (s s' : St) :
  settle_accepted sha256 r now e s = (inr (), s') -> answers r e ->
  settled (progress s') (fingerprint e.2) (item_body_witness e.2).
Proof.
  unfold settle_accepted. intros Hs Ha. case_bool_decide as E1; [|case_bool_decide as E2].
  - apply bind_inr in Hs as ([] & s1 & Hm & Hs). right. left.
    replace s' with (record_stored_state sha256 e.2 false ((fun ref => (ref, item_body_witness e.2)) <$> stored_ref r (fingerprint e.2)) s1).2
      by by rewrite Hs.
    apply record_stored_state_progress. unfold map_progress in Hm. injection Hm as <-. destruct s as [p].
    change (accepted_body_witnesses (note_fresh_ack (fingerprint e.2) (item_body_witness e.2)
      (record_body (fingerprint e.2) (item_body_witness e.2) p)) !! fingerprint e.2 = Some (item_body_witness e.2)).
    rewrite fresh_ack_bodies. apply record_body_accepted.
  - unfold map_progress in Hs. injection Hs as <-. destruct s. apply unstored_settled.
  - by destruct Ha.
Qed.
Definition refuses r e : Prop :=
  is_Some (rejection_of r (fingerprint e.2)) \/ fingerprint e.2 ∈ ref_fingerprint <$> conflict_entities r.

Lemma refused_same r owed_now now e fp p :
  fp <> fingerprint e.2 -> same_at fp p (settle_refused sha256 r owed_now now e p).
Proof.
  intros Hne. unfold settle_refused. repeat case_match; try by apply quarantine_retryable_body_same; done.
  - etrans; [|by apply note_refused_exposure_same]. etrans; [|by apply quarantine_permanent_body_same].
    by destruct p.
  - done.
Qed.
Lemma held_settled p fp body : held_body p fp body = true -> settled p fp body.
Proof. intros Hh. right. by right; left. Qed.
Lemma refused_settled r owed_now now e p :
  refuses r e -> settled (settle_refused sha256 r owed_now now e p) (fingerprint e.2) (item_body_witness e.2).
Proof.
  intros Hr. unfold settle_refused. destruct (rejection_of _ _) as [rejection|] eqn:Ej.
  - case_match; apply held_settled; [|apply quarantine_retryable_body_held].
    set (q := quarantine_permanent_body _ _ _ _ _ _).
    assert (Hq : held_body q (fingerprint e.2) (item_body_witness e.2) = true) by apply quarantine_permanent_body_held.
    by destruct q.
  - destruct Hr as [[x Hx]|Hc]; [by rewrite Ej in Hx|]. rewrite bool_decide_eq_true_2 by done.
    apply held_settled, quarantine_retryable_body_held.
Qed.
Lemma kept_settle_refused r owed_now now e : in_page e -> kept (map_progress (settle_refused sha256 r owed_now now e)).
Proof.
  intros He. destruct (decide (refuses r e)) as [Hr|Hr].
  - eapply kept_entity; [apply He|intros; by apply refused_same|intros; by apply refused_settled].
  - apply kept_map. intros p fp body _. unfold settle_refused, refuses in *.
    destruct (rejection_of _ _); [contradict Hr; by left|]. rewrite bool_decide_eq_false_2; [done|]. tauto.
Qed.

(** ** The page *)
Abbreviation Page := (list (nat * Item)).
Definition page_in (page : Page) : Prop := forall e, e ∈ page -> in_page e.
(** The answer names an outcome for each body of the page. *)
Definition covers (r : SnapshotBatchResponse) (page : Page) : Prop :=
  disabled r = false -> ack_contract r = Some SNAPSHOT_ENTITY_ACK_CONTRACT -> forall e, e ∈ page -> answers r e \/ refuses r e.

Lemma kept_note_conflicts r : kept (note_conflicts sha256 r).
Proof.
  intros [p] fp body _. unfold note_conflicts. cbn. pose proof (record_conflicts_same r (unix_now world) p fp) as Hs.
  destruct (record_conflicts _ _ _ _). cbn in *. by apply same_settled.
Qed.
Lemma note_server_conflicts_same r p fp : same_at fp p (note_server_conflicts r p).
Proof. destruct p as [??????[]]. by split. Qed.

(** Past the bodies it stored, the answer's refusals; each keeps the other. *)
Lemma settle_entities_spec r page : page_in page ->
  kept (settle_entities sha256 r page) /\
  forall s s' : St, settle_entities sha256 r page s = (inr (), s') ->
    forall e, e ∈ page -> answers r e \/ refuses r e -> settled (progress s') (fingerprint e.2) (item_body_witness e.2).
Proof.
  intros Hp.
  assert (Ka : forall now, kept (each (settle_accepted sha256 r now) page)).
  { intros. apply keeps_each; [apply _|]. intros. by apply kept_settle_accepted, Hp. }
  assert (Kr : forall owed_now now, kept (each (fun e => map_progress (settle_refused sha256 r owed_now now e)) page)).
  { intros. apply keeps_each; [apply _|]. intros. by apply kept_settle_refused, Hp. }
  assert (Kn : kept (map_progress (note_server_conflicts r))) by (apply kept_unseen; intros; apply note_server_conflicts_same).
  split.
  - unfold settle_entities. apply keeps_bind; [apply _| |intros _].
    { apply kept_unseen. intros p fp. by destruct p. }
    apply keeps_bind; [apply _|apply kept_note_conflicts|intros [now owed_now]].
    apply keeps_bind; [apply _|apply Ka|intros _]. by apply keeps_bind; [apply _|apply Kr|].
  - intros s s' Hs e He Hout. unfold settle_entities in Hs.
    apply bind_inr in Hs as ([] & s1 & _ & Hs). apply bind_inr in Hs as ([now owed_now] & s2 & _ & Hs).
    apply bind_inr in Hs as ([] & s3 & Ha & Hs). apply bind_inr in Hs as ([] & s4 & Hr & Hs).
    assert (H4 : settled (progress s4) (fingerprint e.2) (item_body_witness e.2)).
    { destruct Hout as [Hout|Hout].
      - assert (H3 : settled (progress s3) (fingerprint e.2) (item_body_witness e.2)).
        { apply (each_establishes _ (fun e (s : St) => answers r e -> settled (progress s) (fingerprint e.2) (item_body_witness e.2)))
            with (a := e) in Ha; [done| | |done|done]; [intros a t t' _ Et; by apply (answered_settled _ _ _ _ _ Et)|].
          intros a b t Hin Hb Ht A. apply (kept_settle_accepted r now b (Hp b Hb)); [by apply Hp|by apply Ht]. }
        replace s4 with (each (fun e => map_progress (settle_refused sha256 r owed_now now e)) page s3).2 by by rewrite Hr.
        apply Kr; [by apply Hp|done].
      - apply (each_establishes _ (fun e (s : St) => refuses r e -> settled (progress s) (fingerprint e.2) (item_body_witness e.2))) with (a := e) in Hr;
          [done| | |done|done].
        + intros a t t' _ Et R. unfold map_progress in Et. injection Et as <-. destruct t. by apply refused_settled.
        + intros a b t Hin Hb Ht R. apply (kept_settle_refused r owed_now now b (Hp b Hb)); [by apply Hp|by apply Ht]. }
    replace s' with (map_progress (note_server_conflicts r) s4).2 by by rewrite Hs. by apply Kn; [apply Hp|].
Qed.

Definition count_one e : Prog unit :=
  do _ <- map_progress (record_body (fingerprint e.2) (item_body_witness e.2)); record_stored_state sha256 e.2 true None.
Lemma kept_count_one e : in_page e -> kept (count_one e).
Proof.
  intros He. apply keeps_bind; [apply _| |intros _; apply kept_record_stored_state].
  eapply kept_entity; [apply He|intros; by apply record_body_same|].
  intros p. right. left. apply record_body_accepted.
Qed.
Lemma counted_settled e (s s' : St) :
  count_one e s = (inr (), s') -> settled (progress s') (fingerprint e.2) (item_body_witness e.2).
Proof.
  intros Hs. apply bind_inr in Hs as ([] & s1 & Hm & Hs). right. left.
  replace s' with (record_stored_state sha256 e.2 true None s1).2 by by rewrite Hs.
  apply record_stored_state_progress. unfold map_progress in Hm. injection Hm as <-. destruct s as [p].
  apply record_body_accepted.
Qed.

Lemma kept_losses (l : list SnapshotEntityRejection) :
  kept (each (fun e : SnapshotEntityRejection => if permanent e then record_poison_loss_once (rej_fingerprint e) else ret ()) l).
Proof. apply keeps_each; [apply _|]. intros e _. kept_steps. Qed.
Lemma kept_accepted n : kept (fun s : St => (inr (), s {{ accepted := saturating_add 64 (accepted s) n }})).
Proof. apply kept_same. by intros []. Qed.

Lemma settle_page_spec page r : page_in page ->
  kept (settle_page sha256 page r) /\
  forall (s s' : St) c i, covers r page -> settle_page sha256 page r s = (inr (Settled c i), s') ->
    forall e, e ∈ page -> settled (progress s') (fingerprint e.2) (item_body_witness e.2).
Proof.
  intros Hp. unfold settle_page. destruct (disabled r) eqn:Ed; [by split; [apply keeps_ret; apply _|]|].
  destruct (ack_contract r) as [contract|] eqn:Ec; case_match eqn:Eq; try by split; [apply keeps_fail; apply _|].
  - zbool. apply bool_decide_eq_true in Eq as ->. destruct (settle_entities_spec r page Hp) as [Hk Hset]. split.
    + repeat (apply keeps_bind; [apply _|first [apply Hk|apply kept_save_or|apply kept_losses|apply kept_accepted]|intros _]).
      apply keeps_ret. apply _.
    + intros s s' c i Hcov Hs e He. apply bind_inr in Hs as ([] & s1 & H1s & Hs).
      assert (Hone : settled (progress s1) (fingerprint e.2) (item_body_witness e.2)) by (eapply Hset; [done..|by apply Hcov]).
      match type of Hs with ?m s1 = _ => assert (Hm : kept m) end.
      { repeat (apply keeps_bind; [apply _|first [apply kept_save_or|apply kept_losses|apply kept_accepted]|intros _]).
        apply keeps_ret. apply _. }
      specialize (Hm s1). rewrite Hs in Hm. by apply Hm; [apply Hp|].
  - assert (Hk : kept (settle_counted sha256 page)).
    { apply keeps_each; [apply _|]. intros e He. by apply kept_count_one, Hp. }
    split.
    + repeat (apply keeps_bind; [apply _|first [apply Hk|apply kept_save_or|apply kept_accepted]|intros _]).
      apply keeps_ret. apply _.
    + intros s s' c i _ Hs e He. apply bind_inr in Hs as ([] & s1 & H1s & Hs).
      assert (Hone : settled (progress s1) (fingerprint e.2) (item_body_witness e.2)).
      { apply (each_establishes _ (fun e (s : St) => settled (progress s) (fingerprint e.2) (item_body_witness e.2)))
          with (a := e) in H1s; [done| | |done]; [intros a t t' _; apply counted_settled|].
        intros a b t Ha Hb Ht. by apply (kept_count_one b (Hp b Hb)); [apply Hp|]. }
      match type of Hs with ?m s1 = _ => assert (Hm : kept m) end.
      { repeat (apply keeps_bind; [apply _|first [apply kept_save_or|apply kept_accepted]|intros _]).
        apply keeps_ret. apply _. }
      specialize (Hm s1). rewrite Hs in Hm. by apply Hm; [apply Hp|].
Qed.

Context (Hsend : forall (page : Page) w r w', send page.*2 w = (inr r, w') -> covers r page).

Lemma attempt_page_spec page : page_in page ->
  kept (attempt_snapshot_page sha256 page) /\
  forall (s s' : St) c i, attempt_snapshot_page sha256 page s = (inr (Settled c i), s') ->
    forall e, e ∈ page -> settled (progress s') (fingerprint e.2) (item_body_witness e.2).
Proof.
  intros Hp. unfold attempt_snapshot_page. split.
  - repeat first [apply kept_admit | apply kept_drop_replaced_proof | apply kept_request | apply kept_pace_sent
      | apply keeps_each; [apply _|intros; first [apply kept_note_reoffer|apply kept_note_sending]]
      | by apply settle_page_spec | apply keeps_ret; apply _ | apply keeps_fail; apply _
      | apply keeps_bind; [apply _| |intros ?] | case_match].
  - intros s s' c i Hs e He. do 4 (let a := fresh in let t := fresh in apply bind_inr in Hs as (a & t & _ & Hs)).
    apply bind_inr in Hs as (answer & s5 & Hr & Hs). apply bind_inr in Hs as (? & s6 & _ & Hs).
    destruct answer as [err|r]; [done|]. eapply settle_page_spec; [done| |done|done].
    unfold request in Hr. destruct (send page.*2 _) as [got w'] eqn:Es. injection Hr as -> _. by eapply Hsend.
Qed.
End PageLaws.
