(* ===== verification/UploadLaws.v ===== *)
(** The upload loop: it ends within its fuel, and leaves every body of the page
    settled or queued. *)
From stdpp Require Import gmap strings.
From S2P Require Import Prelude.
From S2P Require Import Text.
From S2P Require Import Std.
From S2P Require Import Quarantine.
From S2P Require Import Refusals.
From S2P Require Import UploadLedger.
From S2P Require Import UploadCycle.
From S2P Require Import UploadPage.
From S2P Require Import UploadLoop.
From S2P Require Import UploadPageLaws.
From coqutil Require Import Datatypes.RecordSetters.
Import DoubleBraceUpdate.
Local Open Scope Z_scope.

(** ** Named items *)
Lemma named_items_sub {A} e (page held : list A) : server_named_items e page = Some held -> forall x, x ∈ held -> x ∈ page.
Proof.
  unfold server_named_items. intros Hn x Hx. destruct (server_named_positions e) as [named|]; [|done].
  case_match; [|done]. injection Hn as <-. apply list_elem_of_omap in Hx as (y & Hy & Ey).
  apply elem_of_lookup_imap in Hy as (i & z & -> & Hz). unfold id in Ey. case_bool_decide; simplify_eq.
  by eapply list_elem_of_lookup_2.
Qed.

Lemma named_items_some {A} e (page held : list A) :
  server_named_items e page = Some held -> server_named_positions e <> Some [] -> exists x, x ∈ held.
Proof.
  unfold server_named_items. intros Hn Hne. destruct (server_named_positions e) as [[|i named]|]; [done| |done].
  case_match eqn:Ef; [|done]. injection Hn as <-. cbn in Ef. zbool. case_bool_decide as Hi; [|done].
  destruct (lookup_lt_is_Some_2 page i Hi) as [x Hx]. exists x. apply list_elem_of_omap. exists (Some x). split; [|done].
  apply elem_of_lookup_imap. exists i, x. split; [|done]. by rewrite bool_decide_eq_true_2 by set_solver.
Qed.

Lemma filter_shorter {A} (keep : A -> bool) l x : x ∈ l -> keep x = false -> (length (List.filter keep l) < length l)%nat.
Proof.
  intros Hx Hk. induction l as [|y l IH]; [set_solver|]. cbn.
  assert (Hle : (length (List.filter keep l) <= length l)%nat) by apply List.filter_length_le.
  apply elem_of_cons in Hx as [->|Hx]; [rewrite Hk; lia|]. specialize (IH Hx). case_match; cbn; lia.
Qed.

(** ** The cost of a queue *)
Section Cost.
Context {Item : Type}.
Abbreviation Page := (list (nat * Item)).
Implicit Types (q : Queue (Item := Item)) (page : Page).

Definition cost q : nat :=
  (queued (batches q) + 2 * (SNAPSHOT_ADAPTIVE_SPLIT_LIMIT - adaptive_splits q) +
     (SNAPSHOT_INPLACE_RETRY_LIMIT - resends_spent (budget q)))%nat.
Lemma fuel_cost q : fuel_of q = S (cost q).
Proof. done. Qed.

Lemma queued_app (l l' : list (Page * bool)) : queued (l ++ l') = (queued l + queued l')%nat.
Proof. apply sum_list_with_app. Qed.
Lemma cost_requeue more q : cost (requeue more q) = (queued more + cost q)%nat.
Proof. destruct q. unfold cost, requeue. cbn -[queued]. unfold constant. rewrite queued_app. lia. Qed.
Lemma cost_rest rest q : (cost (requeue_rest rest q) <= S (length rest) + cost q)%nat.
Proof. unfold requeue_rest. case_match; [lia|]. rewrite cost_requeue. cbn. lia. Qed.
Lemma cost_split page q :
  (adaptive_splits q < SNAPSHOT_ADAPTIVE_SPLIT_LIMIT)%nat -> cost (split page q) = (length page + cost q)%nat.
Proof.
  intros Hs. destruct q. unfold split. rewrite cost_requeue. unfold cost. cbn in *. unfold constant.
  rewrite length_take, length_drop. unfold SNAPSHOT_ADAPTIVE_SPLIT_LIMIT, SNAPSHOT_INPLACE_RETRY_LIMIT in *.
  pose proof (Nat.Div0.div_le_upper_bound (length page) 2 (length page)). lia.
Qed.
Lemma cost_taken page adaptive rest q :
  batches q = (page, adaptive) :: rest -> cost q = (S (length page) + cost (q {{ batches := rest }}))%nat.
Proof. destruct q. cbn. intros ->. unfold cost. cbn. unfold constant. lia. Qed.
End Cost.

(** ** Where a program's errors come from *)
Section Failures.
Context {St : Type} (P : Error -> Prop).
Definition fails_with {A} (m : M (St := St) A) : Prop := forall s e s', m s = (inl e, s') -> P e.
Lemma fails_ret {A} (a : A) : fails_with (ret a).
Proof. by intros s e s'. Qed.
Lemma fails_fail {A} e : P e -> fails_with (fail (A := A) e).
Proof. intros He s e' s' Hf. by injection Hf as <- _. Qed.
Lemma fails_bind {A B} (m : M A) (k : A -> M B) : fails_with m -> (forall a, fails_with (k a)) -> fails_with (bind m k).
Proof.
  intros Hm Hk s e s' Hb. unfold bind in Hb. destruct (m s) as [[e'|a] s1] eqn:Em.
  - injection Hb as -> _. by eapply Hm.
  - by eapply Hk.
Qed.
Lemma fails_each {A} (f : A -> M unit) l : (forall a, fails_with (f a)) -> fails_with (each f l).
Proof. intros Hf. induction l as [|a l IH]; [by intros ???|]. cbn. by apply fails_bind; [apply Hf|intros _]. Qed.
Lemma fails_never {A} (m : M A) : (forall s, exists a s', m s = (inr a, s')) -> fails_with m.
Proof. intros Hm s e s' He. destruct (Hm s) as (a & t & Ht). by rewrite Ht in He. Qed.
End Failures.

(** ** What a program returns *)
Section Results.
Context {St : Type}.
Definition gives {A} (Q : A -> Prop) (m : M (St := St) A) : Prop := forall s a s', m s = (inr a, s') -> Q a.
Lemma gives_ret {A} (Q : A -> Prop) a : Q a -> gives Q (ret a).
Proof. intros Ha s b s' Hb. by injection Hb as <- _. Qed.
Lemma gives_fail {A} (Q : A -> Prop) e : gives Q (fail e).
Proof. by intros s b s'. Qed.
Lemma gives_bind {A B} (R : A -> Prop) (Q : B -> Prop) m (k : A -> M B) :
  gives R m -> (forall a, R a -> gives Q (k a)) -> gives Q (bind m k).
Proof. intros Hm Hk s b s' Hb. apply bind_inr in Hb as (a & s1 & Ha & Hb). by eapply Hk; [eapply Hm|]. Qed.
Lemma gives_then {A B} (Q : B -> Prop) m (k : A -> M B) : (forall a, gives Q (k a)) -> gives Q (bind m k).
Proof. intros Hk. apply (gives_bind (fun _ => True)); [done|]. intros a _. apply Hk. Qed.
(** A caught error is one the program fails with. *)
Lemma gives_attempt {A} (P : Error -> Prop) (m : M A) :
  fails_with P m -> gives (fun r => match r with inl e => P e | inr _ => True end) (attempt m).
Proof.
  intros Hm s [e|a] s' Ha; unfold attempt in Ha; destruct (m s) as [r t] eqn:Em; injection Ha as -> _; [|done].
  by eapply Hm.
Qed.
End Results.

Section Turn.
Context {W Stored Item : Type} `{Snapshot Item} `{StoredState Stored Item} `{World W Item Stored}.
Context (sha256 : list Z -> list Z) (fifth : Duration -> Duration).
Abbreviation St := (UploadState W Stored).
Abbreviation Prog := (M (St := St)).
Abbreviation Page := (list (nat * Item)).
Implicit Types (p : Progress Stored) (q : Queue (Item := Item)) (page : Page).

(** Ends a program that cannot fail. *)
Ltac never := apply fails_never; intros ?; eexists _, _; reflexivity.

(** A page that there is room for. *)
Definition admitted_page page : M (St := UploadState W Stored) SnapshotPageOutcome :=
  do _ <- each (fun e => note_reoffer e.2) page;
  do _ <- each (fun e => note_sending e.2) page;
  do _ <- drop_replaced_proof page.*2;
  do answer <- request page.*2;
  do _ <- (if match answer with inr _ => true | inl e => proves_send e end then pace_sent sha256 page else ret ());
  match answer with
  | inl e => fail e
  | inr r => settle_page sha256 page r
  end.
(** The errors of a page: those of the request, those of a save, and three of
    its own. *)
Section PageErrors.
Context (P : Error -> Prop).
Context (Psend : forall items w e w', send items w = (inl e, w') -> P e).
Context (Psave : forall p w e p' w', persist (Item := Item) p w = (Some e, p', w') -> P e).
Context (Plocal : forall layer, match layer with Shed _ | ShedSnapshotIndexes _ | RefusedSnapshotIndexes _ |
  BatchRejected _ _ | Diagnostics _ | SnapshotBatchPreflightRejected _ | AckSettlementRequired _ _ _ _ => False
  | Message text => text <> "snapshot adaptive upload attempt limit reached"%string
  | _ => True end -> P [layer]).

Lemma save_fails : fails_with (St := St) P save_ledger.
Proof.
  intros s e s' Hs. unfold save_ledger in Hs. destruct (persist _ _) as [[[e'|] p'] w'] eqn:Ep; injection Hs; [|done].
  intros _ <-. by eapply Psave.
Qed.
Lemma save_or_fails operation : fails_with (St := St) P (save_or operation).
Proof.
  intros s e s' Hs. unfold save_or in Hs. destruct (save_ledger s) as [[]]; [|done]. injection Hs as <- _. by apply Plocal.
Qed.
Ltac page_fails :=
  repeat first
    [ apply save_fails | apply save_or_fails | apply fails_ret
    | apply fails_fail, Plocal; done
    | apply fails_bind; [|intros ?] | apply fails_each; intros ? | never | case_match ].
Lemma request_fails items : fails_with (St := St) P (request items).
Proof. intros s e s' Hr. unfold request in Hr. by destruct (send items _). Qed.

Lemma admitted_page_fails page : fails_with (St := St) P (admitted_page page).
Proof.
  unfold admitted_page. apply fails_bind; [unfold note_reoffer, packing_length; page_fails|intros _].
  apply fails_bind; [unfold note_sending, packing_length; page_fails|intros _].
  apply fails_bind; [unfold drop_replaced_proof; page_fails|intros _].
  intros s e s' Hs. unfold bind at 1, request in Hs. destruct (send _ _) as [r w'] eqn:Es.
  assert (Hrest : fails_with (St := St) P (do _ <- (if match r with inr _ => true | inl e => proves_send e end
    then pace_sent sha256 page else ret ()); match r with inl e => fail e | inr r => settle_page sha256 page r end)).
  { apply fails_bind; [unfold pace_sent; page_fails|intros _].
    destruct r as [e'|r]; [by apply fails_fail; eapply Psend|].
    unfold settle_page, settle_entities, settle_accepted, settle_counted, record_stored_state. page_fails.
    intros t e' t' Hn. unfold note_conflicts in Hn. by case_match. }
  by apply (Hrest _ _ _ Hs).
Qed.
Lemma attempt_page_fails page : (forall retained stale capacity more, P [AckSettlementRequired retained stale capacity more]) ->
  fails_with (St := St) P (attempt_snapshot_page sha256 page).
Proof.
  intros Pfull. change (attempt_snapshot_page sha256 page) with (bind (admit_page page) (fun _ => admitted_page page)).
  apply fails_bind; [|intros _; apply admitted_page_fails].
  intros s e s' Ha. unfold admit_page in Ha. case_match eqn:Ea; [|done]. injection Ha as <- _.
  unfold admit_ack_batch in Ea. case_match; [|done]. injection Ea as <-. apply Pfull.
Qed.
End PageErrors.

(** ** A turn does not raise the cost *)
Definition cheaper (page : Page) q (next : Queue (Item := Item) + ResumableUploadResult) : Prop :=
  match next with inl q' => (cost q' <= length page + cost q)%nat | inr _ => True end.

Lemma hold_preflight_cost page index e q :
  gives (fun q' => (cost q' <= length page + cost q)%nat) (hold_preflight (W := W) (Stored := Stored) sha256 page index e q).
Proof.
  unfold hold_preflight. destruct (page !! index) as [x|] eqn:Ex; [|apply gives_fail].
  do 5 (apply gives_then; intros _ || intros ?). apply gives_ret.
  pose proof (cost_rest (delete index page) q). apply lookup_lt_Some in Ex as Hl. rewrite length_delete in * by done. lia.
Qed.
Lemma hold_named_cost page held e q :
  server_named_items e page = Some held -> server_named_positions e <> Some [] ->
  gives (fun q' => (cost q' <= length page + cost q)%nat) (hold_named (W := W) (Stored := Stored) sha256 fifth page held e q).
Proof.
  intros Hn Hne. unfold hold_named. do 5 (apply gives_then; intros ?). apply gives_ret.
  destruct (named_items_some e page held Hn Hne) as [x Hx].
  set (q1 := q {{ conflicted := _ }} {{ isolated := _ }}). assert (Hc : cost q1 = cost q) by by destruct q.
  pose proof (cost_rest (List.filter (fun h => negb (bool_decide (h.1 ∈ held.*1))) page) q1) as Hr.
  assert (Hk : negb (bool_decide (x.1 ∈ held.*1)) = false).
  { rewrite bool_decide_eq_true_2; [done|]. apply list_elem_of_fmap. by exists x. }
  pose proof (filter_shorter (fun h : nat * Item => negb (bool_decide (h.1 ∈ held.*1))) page x
    (named_items_sub e page held Hn x Hx) Hk). lia.
Qed.
Lemma admit_resend_spent (b : InplaceRetryBudget) e elapsed :
  gives (fun wait => wait <> None -> (resends_spent b < SNAPSHOT_INPLACE_RETRY_LIMIT)%nat)
    (admit_resend (W := W) (Stored := Stored) fifth b e elapsed).
Proof.
  unfold admit_resend. case_match eqn:Eb; [by apply gives_ret|]. zbool.
  apply gives_then. intros a. apply gives_ret. intros _. rewrite ->bool_decide_eq_false in *. lia.
Qed.
Lemma resend_cost page adaptive wait q :
  (resends_spent (budget q) < SNAPSHOT_INPLACE_RETRY_LIMIT)%nat ->
  gives (fun q' => (cost q' <= length page + cost q)%nat) (resend (W := W) (Stored := Stored) page adaptive wait q).
Proof.
  intros Hb. unfold resend. apply gives_then. intros _. apply gives_ret. rewrite cost_requeue. destruct q. unfold cost in *.
  cbn in *. unfold constant. unfold SNAPSHOT_INPLACE_RETRY_LIMIT in *. lia.
Qed.

Lemma recover_cost page adaptive e wait q :
  server_named_positions e <> Some [] -> (wait <> None -> (resends_spent (budget q) < SNAPSHOT_INPLACE_RETRY_LIMIT)%nat) ->
  gives (cheaper page q) (recover sha256 fifth page adaptive e wait q).
Proof.
  intros Hne Hw. unfold recover. case_match.
  { eapply gives_bind; [apply hold_preflight_cost|]. intros. by apply gives_ret. }
  case_match eqn:En.
  { eapply gives_bind; [by apply hold_named_cost|]. intros. by apply gives_ret. }
  case_match eqn:Es; [|destruct wait as [[status wait]|]; [|destruct (as_shed e)]].
  - apply gives_ret. zbool. rewrite ->bool_decide_eq_true in *. unfold cheaper. by rewrite cost_split.
  - eapply gives_bind; [by apply resend_cost, Hw|]. intros. by apply gives_ret.
  - apply gives_then. intros _. by apply gives_ret.
  - apply gives_fail.
Qed.

(** The transport and the store name some item when they name any. *)
Definition names_some (e : Error) : Prop := server_named_positions e <> Some [].
Definition names_items : Prop :=
  (forall items w e w', send (W := W) (Item := Item) (Stored := Stored) items w = (inl e, w') -> names_some e) /\
  (forall p w e p' w', persist (W := W) (Item := Item) (Stored := Stored) p w = (Some e, p', w') -> names_some e).
Lemma page_names_some page : names_items -> fails_with (St := St) names_some (attempt_snapshot_page sha256 page).
Proof. intros [Hs Hp]. apply attempt_page_fails; [done..| |done]. by intros []. Qed.

Lemma turn_cost taken adaptive q : names_items -> gives (cheaper taken q) (turn (W := W) sha256 fifth taken adaptive q).
Proof.
  intros Hn. unfold turn. apply gives_then. intros p. set (page := List.filter _ taken).
  assert (Hl : (length page <= length taken)%nat) by apply List.filter_length_le.
  assert (Hless : forall q1 next, cost q1 = cost q -> budget q1 = budget q -> cheaper page q1 next -> cheaper taken q next).
  { intros q1 [q'|]; unfold cheaper; [lia|done]. }
  case_match; [apply gives_ret; cbn; lia|]. case_match; [apply gives_fail|]. set (q1 := if adaptive then _ else q).
  assert (Hc : cost q1 = cost q /\ budget q1 = budget q) by by destruct adaptive, q.
  destruct Hc as [Hc Hb]. eapply gives_bind; [by apply gives_attempt, page_names_some|].
  intros [e|[more alone|reason]] He;
    [|apply gives_ret, (Hless q1); [done..|]; destruct q1; unfold cheaper, cost; cbn; lia|by apply gives_ret].
  apply gives_then. intros elapsed. eapply gives_bind; [apply admit_resend_spent|].
  intros wait Hw s next s' Hs. apply (Hless q1); [done..|]. exact (recover_cost _ _ _ _ _ He Hw _ _ _ Hs).
Qed.

(** With fuel for its cost the loop ends. *)
Lemma drain_ends fuel q : names_items -> (cost q < fuel)%nat ->
  gives (fun finished => is_Some finished) (drain (W := W) sha256 fifth fuel q).
Proof.
  intros Hn. revert q. induction fuel as [|fuel IH]; intros q Hf; [lia|]. cbn [drain].
  destruct (batches q) as [|[page adaptive] rest] eqn:Eb; [by apply gives_ret|].
  eapply gives_bind; [by apply turn_cost|]. intros [q'|result] Hq; [|by apply gives_ret].
  apply IH. unfold cheaper in Hq. rewrite (cost_taken _ _ _ _ Eb) in Hf. lia.
Qed.

(** The loop stops early only when the server disables or sheds the upload. *)
Definition stops (result : ResumableUploadResult) : Prop :=
  match result with UploadDisabled _ | UploadShedded _ => True | _ => False end.
Lemma turn_stops taken adaptive q : gives (fun next => match next with inr result => stops result | inl _ => True end)
  (turn (W := W) sha256 fifth taken adaptive q).
Proof.
  unfold turn. apply gives_then. intros p. case_match; [by apply gives_ret|]. case_match; [apply gives_fail|].
  apply gives_then. intros [e|[]]; [|by apply gives_ret..]. apply gives_then. intros elapsed. apply gives_then. intros wait.
  unfold recover. repeat first [apply gives_fail | apply gives_ret; done | apply gives_then; intros ? | case_match].
Qed.
Lemma drain_stops fuel q : gives (fun finished => match finished with Some (inr result) => stops result | _ => True end)
  (drain (W := W) sha256 fifth fuel q).
Proof.
  revert q. induction fuel as [|fuel IH]; intros q; cbn [drain]; [by apply gives_ret|].
  destruct (batches q) as [|[page adaptive] rest]; [by apply gives_ret|].
  eapply gives_bind; [apply turn_stops|]. intros [q'|result] Hn; [apply IH|by apply gives_ret].
Qed.

(** ** The attempts of split pages *)
Definition adaptive_count (l : list (Page * bool)) : nat := length (List.filter snd l).
(** Each adaptive attempt was paid for by a split or a resend. *)
Definition attempts_paid q : Prop :=
  (adaptive_attempts q + adaptive_count (batches q) <= 2 * adaptive_splits q + resends_spent (budget q))%nat /\
  (adaptive_splits q <= SNAPSHOT_ADAPTIVE_SPLIT_LIMIT)%nat /\ (resends_spent (budget q) <= SNAPSHOT_INPLACE_RETRY_LIMIT)%nat.
Definition paid (next : Queue (Item := Item) + ResumableUploadResult) : Prop :=
  match next with inl q => attempts_paid q | inr _ => True end.
Definition not_the_limit (e : Error) : Prop := e <> [Message "snapshot adaptive upload attempt limit reached"].

Lemma paid_rest rest q : attempts_paid q -> attempts_paid (requeue_rest rest q).
Proof. intros Hq. unfold requeue_rest. case_match; [done|]. by destruct q. Qed.
Lemma paid_counts q c i : attempts_paid q -> attempts_paid (q {{ conflicted := c }} {{ isolated := i }}).
Proof. by destruct q. Qed.
Lemma hold_preflight_paid page index e q : attempts_paid q ->
  gives attempts_paid (hold_preflight (W := W) (Stored := Stored) sha256 page index e q).
Proof.
  intros Hq. unfold hold_preflight. case_match; [|apply gives_fail].
  do 5 (apply gives_then; intros ?). by apply gives_ret, paid_rest.
Qed.
Lemma hold_named_paid page held e q : attempts_paid q -> gives attempts_paid (hold_named (W := W) (Stored := Stored) sha256 fifth page held e q).
Proof.
  intros Hq. unfold hold_named. do 5 (apply gives_then; intros ?). apply gives_ret, paid_rest. by destruct q.
Qed.
Lemma recover_paid page adaptive e wait q : attempts_paid q ->
  (wait <> None -> (resends_spent (budget q) < SNAPSHOT_INPLACE_RETRY_LIMIT)%nat) ->
  gives paid (recover (W := W) sha256 fifth page adaptive e wait q).
Proof.
  intros Hq Hw. unfold recover. case_match.
  { eapply gives_bind; [by apply hold_preflight_paid|]. intros. by apply gives_ret. }
  case_match.
  { eapply gives_bind; [by apply hold_named_paid|]. intros. by apply gives_ret. }
  case_match eqn:Es; [|destruct wait as [[status wait]|]; [|destruct (as_shed e)]].
  - apply gives_ret. zbool. rewrite ->bool_decide_eq_true in *. destruct q. unfold split, paid, attempts_paid, adaptive_count in *. cbn in *.
    unfold constant. lia.
  - specialize (Hw ltac:(done)). apply (gives_bind attempts_paid); [|intros; by apply gives_ret].
    unfold resend. apply gives_then. intros _. apply gives_ret. destruct q. unfold requeue, attempts_paid, adaptive_count in *.
    cbn in *. unfold constant. destruct adaptive; cbn; lia.
  - apply gives_then. intros _. by apply gives_ret.
  - apply gives_fail.
Qed.

(** The queue with the attempt at [taken] counted. *)
Definition counted (adaptive : bool) q : Queue (Item := Item) := if adaptive then q {{ adaptive_attempts := S (adaptive_attempts q) }} else q.
Lemma counted_paid taken adaptive rest q : batches q = (taken, adaptive) :: rest -> attempts_paid q ->
  attempts_paid (counted adaptive (q {{ batches := rest }})) /\ attempts_paid (q {{ batches := rest }}).
Proof.
  destruct q. unfold attempts_paid, counted, adaptive_count. cbn. intros ->. destruct adaptive; cbn; unfold constant; lia.
Qed.
Lemma turn_paid taken adaptive q : attempts_paid q -> attempts_paid (counted adaptive q) ->
  gives paid (turn (W := W) sha256 fifth taken adaptive q).
Proof.
  intros Hq Hc. unfold turn. apply gives_then. intros p. case_match; [by apply gives_ret|]. case_match; [apply gives_fail|].
  fold (counted adaptive q). eapply (gives_bind (fun _ => True)); [done|].
  intros [e|[more alone|reason]] _; [|apply gives_ret; by apply paid_counts|by apply gives_ret].
  apply gives_then. intros elapsed. eapply gives_bind; [apply admit_resend_spent|]. intros wait Hw. by apply recover_paid.
Qed.

Definition transport_not_the_limit : Prop :=
  (forall items w e w', send (W := W) (Item := Item) (Stored := Stored) items w = (inl e, w') -> not_the_limit e) /\
  (forall p w e p' w', persist (W := W) (Item := Item) (Stored := Stored) p w = (Some e, p', w') -> not_the_limit e).
Lemma page_not_the_limit page : transport_not_the_limit -> fails_with (St := St) not_the_limit (attempt_snapshot_page sha256 page).
Proof. intros [Hs Hp]. apply attempt_page_fails; [done..| |done]. intros []; try done. cbn. unfold not_the_limit. congruence. Qed.
Lemma saved_fails before operation : fails_with (St := St) not_the_limit (save_or_restore before operation).
Proof. intros s e s' Hs. unfold save_or_restore in Hs. by destruct (save_ledger s) as [[]]; simplify_eq. Qed.
Lemma draw_fails span : fails_with (St := St) not_the_limit (uniform_duration span).
Proof. intros s e s' Hs. unfold uniform_duration in Hs. by destruct (uniform span _). Qed.
Ltac turn_fails := repeat first
  [ apply draw_fails | apply saved_fails | apply fails_ret | apply fails_fail; done | apply fails_bind; [|intros ?]
  | apply fails_each; intros ? | never | case_match ].
Lemma recover_fails page adaptive e wait q : not_the_limit e ->
  fails_with not_the_limit (recover (W := W) (Stored := Stored) sha256 fifth page adaptive e wait q).
Proof.
  intros He. unfold recover, hold_preflight, hold_named, resend, shed_backoff, full_jitter_backoff.
  turn_fails.
Qed.
Lemma turn_fails_short taken adaptive q : transport_not_the_limit -> attempts_paid (counted adaptive q) ->
  fails_with not_the_limit (turn (W := W) sha256 fifth taken adaptive q).
Proof.
  intros Ht (Hpaid & Hsplits & Hresends). unfold turn. apply fails_bind; [never|intros p]. case_match; [apply fails_ret|].
  case_match eqn:El.
  { exfalso. zbool. rewrite ->bool_decide_eq_true in *. subst adaptive. destruct q. unfold counted in *. cbn in *. unfold constant in *.
    unfold SNAPSHOT_ADAPTIVE_ATTEMPT_LIMIT, SNAPSHOT_BATCH_LIMIT, SNAPSHOT_ADAPTIVE_SPLIT_LIMIT, SNAPSHOT_INPLACE_RETRY_LIMIT in *. lia. }
  intros s e s' Hs. unfold bind at 1, attempt at 1 in Hs. destruct (attempt_snapshot_page _ _ s) as [outcome s1] eqn:Ea.
  destruct outcome as [e1|[more alone|reason]]; [|done..]. apply (page_not_the_limit _ Ht) in Ea.
  revert Hs. apply fails_bind; [never|intros elapsed]. apply fails_bind; [|intros wait; by apply recover_fails].
  unfold admit_resend, transient_inplace_retry_wait. turn_fails.
Qed.
Lemma drain_not_the_limit fuel q : transport_not_the_limit -> attempts_paid q ->
  fails_with not_the_limit (drain (W := W) sha256 fifth fuel q).
Proof.
  intros Ht. revert q. induction fuel as [|fuel IH]; intros q Hq; cbn [drain]; [apply fails_ret|].
  destruct (batches q) as [|[page adaptive] rest] eqn:Eb; [apply fails_ret|]. destruct (counted_paid _ _ _ _ Eb Hq) as [Hc Hr].
  intros s e s' Hs. unfold bind in Hs. destruct (turn _ _ _ _ _ s) as [[e1|next] s1] eqn:Et.
  - injection Hs as -> _. by eapply turn_fails_short.
  - apply turn_paid in Et; [|done..]. destruct next as [q'|]; [|done]. by eapply IH.
Qed.

(** ** Requests *)
Section Requests.
Context (sent : W -> nat).
Record counts_requests : Prop := {
  counts_send : forall items w, (sent (send (Stored := Stored) (Item := Item) items w).2 <= S (sent w))%nat;
  counts_persist : forall p w, (sent (persist (Item := Item) p w).2 <= sent w)%nat;
  counts_uniform : forall span w, (sent (uniform (Item := Item) (Stored := Stored) span w).2 <= sent w)%nat;
  counts_sleep : forall wait w, (sent (sleep (Item := Item) (Stored := Stored) wait w) <= sent w)%nat;
}.
Context (Hcounts : counts_requests).
(** A program sends at most [n] requests. *)
Definition spends {A} (n : nat) (m : Prog A) : Prop := forall s, (sent (world (m s).2) <= n + sent (world s))%nat.
Lemma spends_ret {A} n (a : A) : spends n (ret a).
Proof. intros s. cbn. lia. Qed.
Lemma spends_fail {A} n e : spends n (fail (A := A) e).
Proof. intros s. cbn. lia. Qed.
Lemma spends_seq {A B} n n' (R : A -> Prop) (m : Prog A) (k : A -> Prog B) :
  spends n m -> gives R m -> (forall a, R a -> spends n' (k a)) -> spends (n + n') (bind m k).
Proof.
  intros Hm Hr Hk s. unfold bind. specialize (Hm s). destruct (m s) as [[e|a] s1] eqn:Em; cbn in *; [lia|].
  specialize (Hk a (Hr _ _ _ Em) s1). lia.
Qed.
Lemma spends_bind {A B} n (m : Prog A) (k : A -> Prog B) : spends 0 m -> (forall a, spends n (k a)) -> spends n (bind m k).
Proof. intros Hm Hk. apply (spends_seq 0 n (fun _ => True)); [done..|]. intros a _. apply Hk. Qed.
Lemma spends_each {A} (f : A -> Prog unit) l : (forall a, spends 0 (f a)) -> spends 0 (each f l).
Proof. intros Hf. induction l as [|a l IH]; [apply spends_ret|]. cbn. by apply spends_bind. Qed.
Lemma spends_attempt {A} n (m : Prog A) : spends n m -> spends n (attempt m).
Proof. intros Hm s. unfold attempt. specialize (Hm s). by destruct (m s). Qed.
Lemma spends_same {A} n (m : Prog A) : (forall s, world (m s).2 = world s) -> spends n m.
Proof. intros Hm s. rewrite Hm. lia. Qed.
Lemma spends_map n f : spends n (map_progress f).
Proof. apply spends_same. by intros []. Qed.
Lemma spends_save : spends 0 save_ledger.
Proof.
  intros []. unfold save_ledger. cbn. pose proof (counts_persist Hcounts progress world) as Hp.
  destruct (persist _ _) as [[failed p] w]. cbn in *. unfold constant. lia.
Qed.
Lemma spends_save_or operation : spends 0 (save_or operation).
Proof. intros s. unfold save_or. pose proof (spends_save s). by destruct (save_ledger s) as [[]]. Qed.
Lemma spends_restore before operation : spends 0 (save_or_restore before operation).
Proof. intros s. unfold save_or_restore. pose proof (spends_save s). by destruct (save_ledger s) as [[] []]. Qed.
Lemma spends_draw span : spends 0 (uniform_duration span).
Proof.
  intros []. unfold uniform_duration. cbn. pose proof (counts_uniform Hcounts span world) as Hu.
  destruct (uniform span world). cbn in *. unfold constant. lia.
Qed.
Lemma spends_request items : spends 1 (request items).
Proof.
  intros []. unfold request. cbn. pose proof (counts_send Hcounts items world) as Hs. destruct (send items world).
  cbn in *. unfold constant. lia.
Qed.
Ltac unsent := repeat first
  [ apply spends_ret | apply spends_fail | apply spends_map | apply spends_save | apply spends_save_or | apply spends_restore
  | apply spends_draw | apply spends_each; intros ? | apply spends_bind; [|intros ?]
  | apply spends_same; intros []; reflexivity | case_match ].

Lemma settle_page_unsent page r : spends 0 (settle_page sha256 page r).
Proof.
  unfold settle_page, settle_entities, settle_accepted, settle_counted, record_stored_state. unsent.
  - apply spends_same. intros []. unfold note_conflicts. cbn. by case_match.
  - apply spends_same. intros []. unfold record_poison_loss_once. cbn. by case_match.
Qed.
Lemma page_request page : spends 1 (attempt_snapshot_page sha256 page).
Proof.
  unfold attempt_snapshot_page. apply spends_bind; [apply spends_same; intros s; unfold admit_page; by case_match|intros _].
  apply spends_bind; [unfold note_reoffer, packing_length; unsent|intros _].
  apply spends_bind; [unfold note_sending, packing_length; unsent|intros _].
  apply spends_bind; [unfold drop_replaced_proof; unsent|intros _].
  apply (spends_seq 1 0 (fun _ => True)); [apply spends_request|done|]. intros answer _.
  apply spends_bind; [unfold pace_sent; unsent|intros _]. destruct answer; [apply spends_fail|apply settle_page_unsent].
Qed.
Lemma recover_unsent page adaptive e wait q : spends 0 (recover sha256 fifth page adaptive e wait q).
Proof.
  unfold recover, hold_preflight, hold_named, resend, shed_backoff, full_jitter_backoff. unsent;
    try (apply spends_same; intros []; unfold record_poison_loss_once; cbn; by case_match).
  all: intros []; cbn; unfold constant; apply (counts_sleep Hcounts).
Qed.
Lemma turn_request taken adaptive q : spends 1 (turn sha256 fifth taken adaptive q).
Proof.
  unfold turn. apply spends_bind; [by apply spends_same|intros p]. case_match; [apply spends_ret|]. case_match; [apply spends_fail|].
  apply (spends_seq 1 0 (fun _ => True)); [apply spends_attempt, page_request|done|]. intros [e|[]] _; [|apply spends_ret..].
  apply spends_bind; [by apply spends_same|intros elapsed]. apply spends_bind; [|intros wait; apply recover_unsent].
  unfold admit_resend, transient_inplace_retry_wait. unsent.
Qed.
Lemma drain_requests fuel q : names_items -> spends (cost q) (drain sha256 fifth fuel q).
Proof.
  intros Hn. revert q. induction fuel as [|fuel IH]; intros q; cbn [drain]; [apply spends_ret|].
  destruct (batches q) as [|[page adaptive] rest] eqn:Eb; [apply spends_ret|]. rewrite (cost_taken _ _ _ _ Eb).
  set (q0 := q {{ batches := rest }}). change (S (length page) + cost q0)%nat with (1 + (length page + cost q0))%nat.
  eapply spends_seq; [apply turn_request|by apply turn_cost|]. intros [q'|result] Hq; [|apply spends_ret].
  unfold cheaper in Hq. intros s. specialize (IH q' s). lia.
Qed.
Lemma reconcile_unsent current : spends 0 (reconcile (W := W) (Item := Item) sha256 current).
Proof. unfold reconcile, retain_counted_poison. unsent. Qed.
Lemma enqueue_unsent items b : spends 0 (enqueue (W := W) (Stored := Stored) (Item := Item) items b).
Proof. unfold enqueue. unsent. Qed.
End Requests.

Lemma reconcile_fails current : fails_with not_the_limit (reconcile (W := W) (Stored := Stored) (Item := Item) sha256 current).
Proof.
  unfold reconcile, retain_counted_poison. turn_fails. intros s e s' Hs. unfold save_or in Hs.
  destruct (save_ledger s) as [[]]; by simplify_eq.
Qed.
(** The queue a pass starts with has tried nothing. *)
Lemma enqueue_fresh items b : gives (fun q => adaptive_attempts q = 0%nat /\ adaptive_count (batches q) = 0%nat /\
    adaptive_splits q = 0%nat /\ budget q = b) (enqueue (W := W) (Stored := Stored) (Item := Item) items b).
Proof.
  unfold enqueue. apply gives_then. intros p. case_match; [|apply gives_fail]. apply gives_then. intros _. apply gives_ret.
  cbn. split; [done|]. split; [|done]. unfold adaptive_count. by induction (pack _ _).1.
Qed.
Lemma enqueue_fails items b : fails_with not_the_limit (enqueue (W := W) (Stored := Stored) (Item := Item) items b).
Proof. unfold enqueue. turn_fails. Qed.
End Turn.
