(* ===== verification/UploadSettles.v ===== *)
(** A pass accounts for each body: what the loop returns is settled or still
    queued, and a pass that ends has settled all of it. *)
From stdpp Require Import gmap strings.
From S2P Require Import Prelude.
From S2P Require Import Std.
From S2P Require Import Quarantine.
From S2P Require Import Refusals.
From S2P Require Import UploadLedger.
From S2P Require Import UploadCycle.
From S2P Require Import UploadPage.
From S2P Require Import UploadLoop.
From S2P Require Import PackLaws.
From S2P Require Import UploadPageLaws.
From S2P Require Import UploadLaws.
From coqutil Require Import Datatypes.RecordSetters.
Import DoubleBraceUpdate.
Local Open Scope Z_scope.

Section Settles.
Context {W Stored Item : Type} `{Snapshot Item} `{StoredState Stored Item} `{World W Item Stored}.
Context (sha256 : list Z -> list Z) (fifth : Duration -> Duration) (current : gmap string string).
Context (Hpersist : forall p w failed q w', persist p w = (failed, q, w') ->
  forall fp body, settled p fp body -> settled q fp body).
Context (Hsend : forall (page : list (nat * Item)) w r w', send page.*2 w = (inr r, w') -> covers r page).
Abbreviation St := (UploadState W Stored).
Abbreviation Prog := (M (St := St)).
Abbreviation Page := (list (nat * Item)).
Abbreviation kept := (keeps (still_settled (W := W) (Stored := Stored) current)).
Implicit Types (p : Progress Stored) (q : Queue (Item := Item)) (page : Page) (e : nat * Item).

Lemma kept_ok {A} (m : Prog A) s a s' : kept m -> m s = (inr a, s') -> still_settled current s s'.
Proof. intros Hk Hm. specialize (Hk s). by rewrite Hm in Hk. Qed.

Definition is_settled (s : St) e : Prop := settled (progress s) (fingerprint e.2) (item_body_witness e.2).
Definition outstanding q e : Prop :=
  exists b e', b ∈ batches q /\ e' ∈ b.1 /\ fingerprint e'.2 = fingerprint e.2 /\ item_body_witness e'.2 = item_body_witness e.2.
(** A page of the upload: its bodies are current, its indices name one each. *)
Definition sound_page page : Prop := page_in current page /\ forall e e', e ∈ page -> e' ∈ page -> e.1 = e'.1 -> e = e'.
Lemma sound_sub page page' : sound_page page -> (forall e, e ∈ page' -> e ∈ page) -> sound_page page'.
Proof. intros [Hi Hu] Hs. split; [intros e He; by apply Hi, Hs|intros e e' He He'; by apply Hu; apply Hs]. Qed.

(** From the page [taken] and the queue [q] to [q']: the bodies of the page are
    settled or queued again, and nothing else changes in the queue. *)
Definition accounts (taken : Page) q (s' : St) q' : Prop :=
  (forall e, e ∈ taken -> is_settled s' e \/ outstanding q' e) /\
  (forall b, b ∈ batches q -> b ∈ batches q') /\
  (forall b, b ∈ batches q' -> b ∈ batches q \/ forall e, e ∈ b.1 -> e ∈ taken).

Lemma batches_requeue more q : batches (requeue more q) = more ++ batches q.
Proof. by destruct q. Qed.
Lemma accounts_requeue (more : list (Page * bool)) taken q s' q1 : batches q1 = batches q ->
  (forall b e, b ∈ more -> e ∈ b.1 -> e ∈ taken) ->
  (forall e, e ∈ taken -> is_settled s' e \/ exists b, b ∈ more /\ e ∈ b.1) ->
  accounts taken q s' (requeue more q1).
Proof.
  intros Hq Hsub Hall. unfold accounts, outstanding. rewrite batches_requeue, Hq. split; [|split].
  - intros e He. destruct (Hall e He) as [Hs|(b & Hb & Hin)]; [by left|]. right. exists b, e. set_solver.
  - set_solver.
  - intros b [Hb|Hb]%elem_of_app; [right; intros e; by apply Hsub|by left].
Qed.
Lemma accounts_rest rest taken q s' q1 : batches q1 = batches q ->
  (forall e, e ∈ rest -> e ∈ taken) -> (forall e, e ∈ taken -> is_settled s' e \/ e ∈ rest) ->
  accounts taken q s' (requeue_rest rest q1).
Proof.
  intros Hq Hsub Hall. unfold requeue_rest. case_bool_decide as Er.
  - replace q1 with (requeue [] q1) by by destruct q1. apply accounts_requeue; [done|set_solver|].
    intros e He. destruct (Hall e He); [by left|set_solver].
  - apply accounts_requeue; [done|set_solver|]. intros e He. destruct (Hall e He); [by left|]. right. exists (rest, false). set_solver.
Qed.

Lemma saved_ok before operation (s s' : St) : save_or_restore before operation s = (inr (), s') -> still_settled current s s'.
Proof.
  intros Hs. unfold save_or_restore in Hs. pose proof (kept_save current Hpersist s) as Hk.
  destruct (save_ledger s) as [[|[]] s1]; [done|]. by injection Hs as <-.
Qed.
Lemma kept_entity_held fp body f : current !! fp = Some body -> (forall p fp', fp' <> fp -> same_at fp' p (f p)) ->
  (forall p, held_body (f p) fp body = true) -> kept (map_progress f).
Proof. intros Hc Hs Hh. eapply kept_entity; [done..|]. intros p. by apply held_settled. Qed.

Lemma hold_preflight_accounts page index err q (s s' : St) q' : sound_page page ->
  hold_preflight sha256 page index err q s = (inr q', s') -> still_settled current s s' /\ accounts page q s' q'.
Proof.
  intros [Hin Hu] Hs. unfold hold_preflight in Hs. destruct (page !! index) as [x|] eqn:Ex; [|done].
  assert (Hx : x ∈ page) by by eapply list_elem_of_lookup_2.
  apply bind_inr in Hs as (before & s1 & Hb & Hs). injection Hb as <- <-.
  apply bind_inr in Hs as (now & s2 & Hb & Hs). injection Hb as <- <-.
  apply bind_inr in Hs as ([] & s3 & Hm & Hs). apply bind_inr in Hs as ([] & s4 & Hv & Hs).
  apply bind_inr in Hs as ([] & s5 & Hp & Hs). injection Hs as <- <-.
  assert (Hk : kept (map_progress (quarantine_body sha256 (fingerprint x.2) (item_body_witness x.2) (unix_now (world s))))).
  { eapply kept_entity_held; [by apply Hin|intros; by apply quarantine_body_same|intros; apply held_quarantine_body]. }
  apply (kept_ok _ _ _ _ Hk) in Hm as Hk1. apply saved_ok in Hv.
  apply (kept_ok _ _ _ _ (kept_poison current _)) in Hp. split; [by do 2 (etrans; [done|])|].
  assert (Hset : is_settled s5 x).
  { apply Hp; [by apply Hin|]. apply Hv; [by apply Hin|]. unfold map_progress in Hm. injection Hm as <-. destruct s.
    apply held_settled, held_quarantine_body. }
  apply accounts_rest; [done|..].
  - intros e He. by eapply sublist_subseteq; [apply sublist_delete|].
  - intros e He. rewrite (delete_Permutation page index x Ex) in He. apply elem_of_cons in He as [->|He]; [by left|by right].
Qed.

Lemma kept_draw span : kept (uniform_duration span).
Proof. apply kept_same. intros []. unfold uniform_duration. cbn. by destruct (uniform _ _). Qed.
Ltac draws :=
  unfold admit_resend, transient_inplace_retry_wait, shed_backoff, full_jitter_backoff;
  repeat first [apply kept_draw | apply keeps_ret; apply _ | apply keeps_bind; [apply _| |intros ?] | case_match].
Lemma hold_named_accounts page held err q (s s' : St) q' : sound_page page -> server_named_items err page = Some held ->
  hold_named sha256 fifth page held err q s = (inr q', s') -> still_settled current s s' /\ accounts page q s' q'.
Proof.
  intros [Hin Hu] Hn Hs. pose proof (named_items_sub err page held Hn) as Hheld. unfold hold_named in Hs.
  apply bind_inr in Hs as (now & s1 & Hb & Hs). injection Hb as <- <-.
  apply bind_inr in Hs as (retry_at & s2 & Hb & Hs).
  assert (Hw : still_settled current s s2).
  { clear Hs. eapply kept_ok; [|exact Hb]. draws. }
  apply bind_inr in Hs as (before & s3 & Hb1 & Hs). injection Hb1 as <- <-.
  apply bind_inr in Hs as ([] & s4 & He & Hs). apply bind_inr in Hs as ([] & s5 & Hv & Hs). injection Hs as <- <-.
  set (hold := fun h => map_progress _) in He.
  assert (Hk : forall h, h ∈ held -> kept (hold h)).
  { intros h Hh. eapply kept_entity_held; [by apply Hin, Hheld|intros; by apply quarantine_retryable_body_same|].
    intros. apply quarantine_retryable_body_held. }
  apply saved_ok in Hv.
  assert (Hset : forall h, h ∈ held -> is_settled s5 h).
  { intros h Hh. apply Hv; [by apply Hin, Hheld|].
    apply (each_establishes hold (fun h s => is_settled s h)) with (a := h) in He; [done| | |done].
    - intros a t t' _ Ht. unfold hold, map_progress in Ht. injection Ht as <-. destruct t. apply held_settled, quarantine_retryable_body_held.
    - intros a b t Ha Hb2 Ht. apply (Hk b Hb2); [by apply Hin, Hheld|done]. }
  assert (Hke : still_settled current s2 s4) by (eapply kept_ok; [|exact He]; apply keeps_each; [apply _|done]).
  split.
  - by do 2 (etrans; [done|]).
  - apply accounts_rest; [by destruct q|by intros e [He' _]%elem_kept|].
    intros e Hp. destruct (bool_decide (e.1 ∈ held.*1)) eqn:Eb; [left|right; apply elem_kept; by rewrite Eb].
    apply bool_decide_eq_true, list_elem_of_fmap in Eb as (h & Eh & Hh). rewrite (Hu e h Hp (Hheld h Hh) Eh). by apply Hset.
Qed.

Definition moves (taken : Page) q (s s' : St) (next : Queue (Item := Item) + ResumableUploadResult) : Prop :=
  still_settled current s s' /\ match next with inl q' => accounts taken q s' q' | inr _ => True end.

Lemma recover_moves page adaptive err wait q (s s' : St) next : sound_page page ->
  recover sha256 fifth page adaptive err wait q s = (inr next, s') -> moves page q s s' next.
Proof.
  intros Hp Hs. unfold recover in Hs. case_match.
  { apply bind_inr in Hs as (q' & t & Hh & Hs). injection Hs as <- <-. by eapply hold_preflight_accounts. }
  case_match eqn:En.
  { apply bind_inr in Hs as (q' & t & Hh & Hs). injection Hs as <- <-. by eapply hold_named_accounts. }
  case_match; [|destruct wait as [[status wait]|]; [|destruct (as_shed err); [|done]]].
  - injection Hs as <- <-. split; [done|]. unfold split. apply accounts_requeue; [by destruct q|..].
    + intros b e [->| ->%list_elem_of_singleton]%elem_of_cons; cbn; intros He;
        rewrite <-(take_drop (length page / 2) page); apply elem_of_app; first [by left|by right].
    + intros e He. right. rewrite <-(take_drop (length page / 2) page) in He.
      apply elem_of_app in He as [He|He]; eexists (_, true); (split; [|exact He]); set_solver.
  - apply bind_inr in Hs as (q' & t & Hh & Hs). injection Hs as <- <-. unfold resend in Hh.
    apply bind_inr in Hh as ([] & t1 & Hsl & Hh). injection Hh as <- <-. injection Hsl as <-. split; [intros fp body _; by destruct s|].
    apply accounts_requeue; [by destruct q|set_solver|]. intros e He. right. exists (page, adaptive). set_solver.
  - apply bind_inr in Hs as ([] & t & Hr & Hs). injection Hs as <- <-. injection Hr as <-. split; [intros fp body _; by destruct s|done].
Qed.

Lemma turn_moves taken adaptive q (s s' : St) next : sound_page taken ->
  turn sha256 fifth taken adaptive q s = (inr next, s') -> moves taken q s s' next.
Proof.
  intros Hp Hs. unfold turn in Hs. apply bind_inr in Hs as (p & s1 & Hr & Hs). injection Hr as <- <-.
  set (page := List.filter _ taken) in Hs.
  assert (Hpage : forall e, e ∈ taken -> is_settled s e \/ e ∈ page).
  { intros e He. destruct (contains_body (progress s) (fingerprint e.2) (item_body_witness e.2)) eqn:Ec; [by left; left|].
    right. apply elem_kept. by rewrite Ec. }
  assert (Hsub : forall e, e ∈ page -> e ∈ taken) by by intros e [He _]%elem_kept.
  assert (Hsound : sound_page page) by by eapply sound_sub.
  clearbody page. case_bool_decide as Epage.
  { injection Hs as <- <-. split; [done|]. split; [|split]; [|done|by left].
    intros e He. left. destruct (Hpage e He); [done|]. set_solver. }
  case_match; [done|]. set (q1 := if adaptive then _ else q) in Hs.
  assert (Hq1 : batches q1 = batches q) by by destruct adaptive, q.
  assert (Hlift : forall t next, moves page q1 s t next -> moves taken q s t next).
  { intros t [q'|] [Hk Ha]; [|done]. split; [done|]. destruct Ha as (H1a & H2a & H3a). rewrite Hq1 in *. split; [|split]; [|done|].
    - intros e He. destruct (Hpage e He) as [Hd|Hd]; [left; by apply Hk; [apply Hp|]|by apply H1a].
    - intros b Hb. destruct (H3a b Hb) as [Hin|Hin]; [by left|right; intros e He; by apply Hsub, Hin]. }
  destruct (attempt_page_spec sha256 current Hpersist Hsend page (proj1 Hsound)) as [Hk Hset].
  apply bind_inr in Hs as (outcome & s1 & Ha & Hs). pose proof (kept_ok _ _ _ _ (keeps_attempt _ _ Hk) Ha) as Hk1.
  unfold attempt in Ha. destruct (attempt_snapshot_page _ _ _) as [r t] eqn:Et. injection Ha as -> ->.
  destruct outcome as [err|[more alone|reason]].
  - apply bind_inr in Hs as (elapsed & s2 & Hr & Hs). injection Hr as <- <-.
    apply bind_inr in Hs as (wait & s2 & Hr & Hs).
    assert (Hk2 : still_settled current s1 s2) by (eapply kept_ok; [|exact Hr]; draws).
    apply Hlift. destruct (recover_moves _ _ _ _ _ _ _ _ Hsound Hs) as [Hk3 Hm]. split; [by do 2 (etrans; [done|])|done].
  - injection Hs as <- <-. apply Hlift. split; [done|]. split; [|split].
    + intros e He. left. by eapply Hset.
    + by destruct q1.
    + destruct q1. by left.
  - injection Hs as <- <-. done.
Qed.

Lemma settled_as s e e' : fingerprint e'.2 = fingerprint e.2 -> item_body_witness e'.2 = item_body_witness e.2 ->
  is_settled s e' -> is_settled s e.
Proof. unfold is_settled. by intros -> ->. Qed.
Lemma outstanding_as q e e' : fingerprint e'.2 = fingerprint e.2 -> item_body_witness e'.2 = item_body_witness e.2 ->
  outstanding q e' -> outstanding q e.
Proof. unfold outstanding. by intros -> ->. Qed.

Lemma drain_settles fuel q (s s' : St) q' : (forall b, b ∈ batches q -> sound_page b.1) ->
  drain sha256 fifth fuel q s = (inr (Some (inl q')), s') ->
  forall e, in_page current e -> is_settled s e \/ outstanding q e -> is_settled s' e.
Proof.
  revert q s. induction fuel as [|fuel IH]; intros q s Hq Hs e He Ho; [done|]. cbn [drain] in Hs.
  destruct (batches q) as [|[page adaptive] rest] eqn:Eb.
  { injection Hs as _ <-. destruct Ho as [Ho|(b & e' & Hb & _)]; [done|]. rewrite Eb in Hb. set_solver. }
  apply bind_inr in Hs as (next & s1 & Ht & Hs).
  set (q0 := q {{ batches := rest }}) in *. assert (Hq0 : batches q0 = rest) by by destruct q.
  assert (Hpage : sound_page page) by (apply (Hq (page, adaptive)); by left).
  destruct (turn_moves _ _ _ _ _ _ Hpage Ht) as [Hk Ha].
  destruct next as [q1|]; [|done]. destruct Ha as (Hall & Hkeep & Hnew). rewrite Hq0 in *.
  apply (IH q1 s1); [|done|done|].
  - intros b Hb. destruct (Hnew b Hb) as [Hr|Hr]; [apply Hq; by right|by eapply sound_sub].
  - destruct Ho as [Ho|(b & e' & Hb & Hin & Hf & Hw)]; [left; by apply Hk|].
    rewrite Eb in Hb. apply elem_of_cons in Hb as [->|Hb].
    + destruct (Hall e' Hin); [left; by eapply settled_as|right; by eapply outstanding_as].
    + right. exists b, e'. split; [by apply Hkeep|done].
Qed.
End Settles.

(** ** What the pass starts with *)
Section Start.
Context {W Stored Item : Type} `{Snapshot Item} `{StoredState Stored Item} `{World W Item Stored}.
Implicit Types (p : Progress Stored) (items : list Item) (e : nat * Item).

Lemma note_witness_fold items seen current : foldl note_witness seen items = Some current ->
  (forall start, seen = Some start -> start ⊆ current) /\
  forall item, item ∈ items -> current !! fingerprint item = Some (item_body_witness item).
Proof.
  revert seen. induction items as [|item items IH]; intros seen Hf; cbn [foldl] in Hf; [split; [|set_solver]; intros; by simplify_eq|].
  destruct (IH _ Hf) as [Hsub Hin]. destruct seen as [seen|].
  2: { split; [done|]. exfalso. clear -Hf. cbn in Hf. by induction items. }
  cbn in Hsub. destruct (seen !! fingerprint item) as [w|] eqn:Es.
  - case_bool_decide as Ew; [|exfalso; clear -Hf Es Ew; cbn in Hf; rewrite Es, bool_decide_eq_false_2 in Hf by done; by induction items].
    specialize (Hsub seen eq_refl). split; [by intros ? [= <-]|]. intros x [->|Hx]%elem_of_cons; [|by apply Hin].
    rewrite <-Ew. by eapply lookup_weaken.
  - specialize (Hsub _ eq_refl). split.
    + intros ? [= <-]. etrans; [|exact Hsub]. by apply insert_subseteq.
    + intros x [->|Hx]%elem_of_cons; [|by apply Hin]. eapply lookup_weaken; [apply lookup_insert_eq|done].
Qed.
Lemma current_spec items current : current_body_witnesses items = Some current ->
  forall item, item ∈ items -> current !! fingerprint item = Some (item_body_witness item).
Proof. intros Hc. by apply (note_witness_fold items (Some ∅)). Qed.

(** The pending bodies of the indexed items [seen]. *)
Record pends p (seen : list (nat * Item)) (pending : list (string * Packed Item)) : Prop := {
  pends_sorted : OrdMap.ksorted fst pending;
  pends_from : forall fp m, (fp, m) ∈ pending -> (at_index m, at_item m) ∈ seen /\ 0 <= at_bytes m /\ fp = fingerprint (at_item m);
  pends_all : forall e, e ∈ seen -> contains_body p (fingerprint e.2) (item_body_witness e.2) = true \/
    is_Some (OrdMap.bt_get (fingerprint e.2) pending);
  pends_count : (length pending <= length seen)%nat;
}.
Context (Hjson : forall (item : Item) n, json_length item = Some n -> 0 <= n).
Lemma note_pending_step p seen pending e pending' : pends p seen pending ->
  note_pending p (Some pending) e = Some pending' -> pends p (seen ++ [e]) pending'.
Proof.
  intros [Hs Hf Ha Hc] Hn. cbn in Hn.
  assert (Hold : forall fp m, (fp, m) ∈ pending -> (at_index m, at_item m) ∈ seen ++ [e] /\ 0 <= at_bytes m /\ fp = fingerprint (at_item m)).
  { intros fp m (Hi & ? & ?)%Hf. split; [apply elem_of_app; by left|done]. }
  assert (Hcount : (length pending <= length (seen ++ [e]))%nat) by (rewrite length_app; lia).
  destruct (contains_body p _ _) eqn:Ec; [|destruct (OrdMap.bt_get _ pending) as [m|] eqn:Eg].
  - injection Hn as <-. split; [done..| |done]. intros x [Hx| ->%list_elem_of_singleton]%elem_of_app; [by apply Ha|by left].
  - injection Hn as <-. split; [done..| |done]. intros x [Hx| ->%list_elem_of_singleton]%elem_of_app; [by apply Ha|by right].
  - destruct (json_length e.2) as [n|] eqn:Ej; [|done]. injection Hn as <-. apply Hjson in Ej.
    set (m0 := mkPacked _ _ _ _). pose proof (OrdMap.bt_insert_perm (fingerprint e.2) m0 pending Hs) as Hperm. split.
    + by apply OrdMap.bt_insert_sorted.
    + intros fp m Hm. rewrite Hperm in Hm. apply elem_of_cons in Hm as [Hm|[_ Hm]%list_elem_of_filter]; [|by apply Hold].
      injection Hm as -> ->. cbn. split; [destruct e; set_solver|]. unfold saturating_add, umax. by split; [lia|].
    + intros x Hx. rewrite OrdMap.bt_get_insert by done. case_decide as Ex; [by right|].
      apply elem_of_app in Hx as [Hx| ->%list_elem_of_singleton]; [by apply Ha|done].
    + rewrite Hperm. cbn. rewrite length_app. cbn.
      etrans; [apply le_n_S, sublist_length, sublist_filter|]. lia.
Qed.
Lemma pending_spec p items pending : pending_by_fingerprint p items = Some pending ->
  exists table, pending = table.*2 /\ pends p (imap (fun i item => (i, item)) items) table.
Proof.
  unfold pending_by_fingerprint. set (l := imap _ items). clearbody l. intros Hp.
  apply fmap_Some in Hp as (table & Hf & ->). exists table. split; [done|].
  assert (Hgen : forall seen start, pends p seen start -> foldl (note_pending p) (Some start) l = Some table -> pends p (seen ++ l) table).
  { clear Hf. induction l as [|e l IH]; intros seen start Hs Hf; cbn [foldl] in Hf; [rewrite app_nil_r; by injection Hf as <-|].
    destruct (note_pending p (Some start) e) as [next|] eqn:En; [|exfalso; clear -Hf; by induction l].
    change (e :: l) with ([e] ++ l). rewrite app_assoc. eapply IH; [by eapply note_pending_step|done]. }
  apply (Hgen [] []); [|done]. split; [constructor|set_solver..|done].
Qed.

(** ** The queue a pass starts with *)
Definition with_cycle (c : Cycle) p : Progress Stored := p {{ context_resend := c }}.
Lemma cycle_settled c p fp body : same_candidates (context_resend p) c -> deferred (context_resend p) ⊆ deferred c ->
  settled p fp body -> settled (with_cycle c p) fp body.
Proof.
  intros (Hc1 & Hc2 & Hc3) Hd. unfold settled.
  assert (Hb : contains_body (with_cycle c p) fp body = contains_body p fp body).
  { unfold contains_body, requires_resend, is_candidate in *. destruct p. cbn in *. unfold constant. by rewrite Hc1, Hc2, Hc3. }
  rewrite Hb. destruct p. unfold with_cycle. cbn in *. unfold constant. set_solver.
Qed.
Lemma deferred_settled p fp body : fp ∈ deferred (context_resend p) -> settled p fp body.
Proof. by do 3 right. Qed.

Lemma queued_pages (bs : list (list (Packed Item))) :
  queued ((fun b => (page_of b, false)) <$> bs) = (length bs + length (concat bs))%nat.
Proof.
  unfold queued, page_of. induction bs as [|b bs IH]; cbn; [done|]. rewrite IH, length_app, length_fmap. lia.
Qed.

Lemma enqueue_spec items b (s s' : UploadState W Stored) q current :
  current_body_witnesses items = Some current -> enqueue items b s = (inr q, s') ->
  (forall page, page ∈ batches q -> sound_page current page.1) /\
  (forall item, item ∈ items -> is_settled s' (0%nat, item) \/ outstanding q (0%nat, item)) /\
  (cost q <= 2 * length items + 14)%nat.
Proof.
  intros Hcur Hs. unfold enqueue in Hs. apply bind_inr in Hs as (p & s1 & Hr & Hs). injection Hr as <- <-.
  destruct (pending_by_fingerprint (progress s) items) as [pending|] eqn:Ep; [|done].
  apply bind_inr in Hs as ([] & s1 & Hm & Hs). injection Hs as <- <-.
  destruct (pending_spec _ _ _ Ep) as (table & -> & [Hsort Hfrom Hall Hcount]).
  set (all := imap (fun i item => (i, item)) items) in *.
  assert (Hitem : forall i item, (i, item) ∈ all -> item ∈ items /\ items !! i = Some item).
  { intros i item Hi. apply elem_of_lookup_imap in Hi as (j & x & [= -> ->] & Hj). split; [by eapply list_elem_of_lookup_2|done]. }
  assert (Hmember : forall m, m ∈ table.*2 -> (at_index m, at_item m) ∈ all /\ 0 <= at_bytes m).
  { intros m Hin. apply list_elem_of_fmap in Hin as ([fp x] & -> & Hin). by apply Hfrom in Hin as (? & ? & _). }
  destruct (pack_spec table.*2 (context_resend (progress s))) as (ordinary & admitted & held & Hpack); [intros m Hin; by apply Hmember|].
  destruct Hpack as [Hreq Hpart Hsent _ _ Hdef _ _ _]. set (packed := pack _ _) in *.

  assert (Hprog : progress s1 = with_cycle packed.2 (progress s)) by by injection Hm as <-; destruct s.
  assert (Hin : forall b m, b ∈ packed.1 -> m ∈ b -> m ∈ table.*2).
  { intros bt m Hb1 Hm1. rewrite Hpart, app_assoc, <-Hsent. apply elem_of_app. left. apply elem_concat. by exists bt. }
  cbn [batches]. split; [|split].
  - intros page Hpage. apply list_elem_of_fmap in Hpage as (bt & -> & Hbt). cbn. unfold page_of. split.
    + intros e (m & -> & Hm1)%list_elem_of_fmap. apply (current_spec items current Hcur).
      by apply (Hitem (at_index m)), Hmember, (Hin bt).
    + intros e e' (m & -> & Hm1)%list_elem_of_fmap (m' & -> & Hm2)%list_elem_of_fmap. cbn. intros E. rewrite E. f_equal.
      destruct (Hmember m (Hin bt m Hbt Hm1)) as [[_ L1]%Hitem _], (Hmember m' (Hin bt m' Hbt Hm2)) as [[_ L2]%Hitem _]. congruence.
  - intros item Hitem1. unfold is_settled. rewrite Hprog. cbn [snd].
    assert (Hi : exists i, (i, item) ∈ all).
    { apply list_elem_of_lookup in Hitem1 as [i Hi]. exists i. apply elem_of_lookup_imap. by exists i, item. }
    destruct Hi as [i Hi]. destruct (Hall _ Hi) as [Hc|[m Hg]].
    { left. apply cycle_settled; [apply pack_candidates|rewrite Hdef; set_solver|]. by left. }
    cbn in Hg. apply OrdMap.bt_get_elem in Hg; [|done]. apply Hfrom in Hg as Hfp. destruct Hfp as (Hmi & _ & Hfp).
    assert (Hw : item_body_witness (at_item m) = item_body_witness item).
    { apply Hitem in Hmi as [Hmi _]. pose proof (current_spec items current Hcur _ Hmi) as H1w.
      pose proof (current_spec items current Hcur _ Hitem1) as H2w. rewrite Hfp in H2w. congruence. }
    assert (Hmt : m ∈ table.*2) by (apply list_elem_of_fmap; by exists (fingerprint item, m)).
    rewrite Hpart, app_assoc in Hmt. apply elem_of_app in Hmt as [Hmt|Hmt].
    + right. rewrite <-Hsent in Hmt. apply elem_concat in Hmt as (bt & Hbt & Hmb).
      exists (page_of bt, false), (at_index m, at_item m). cbn.
      split; [by apply (list_elem_of_fmap_2 (fun b => (page_of b, false)))|].
      split; [unfold page_of; apply list_elem_of_fmap; by exists m|]. by split.
    + left. apply deferred_settled. apply entities_of_elem in Hmt. rewrite <-Hfp in Hmt.
      assert (Hmd : fingerprint item ∈ deferred packed.2) by (rewrite Hdef; set_solver). by destruct (progress s).
  - unfold cost. cbn [batches adaptive_splits budget]. rewrite queued_pages.
    assert (Hl : (length (concat packed.1) <= length items)%nat).
    { rewrite Hsent. assert (length table = length (ordinary ++ admitted ++ held)) as Hlen by by rewrite <-Hpart, length_fmap.
      rewrite !length_app in *. unfold all in Hcount. rewrite length_imap in Hcount. lia. }
    pose proof (requests_count packed.1 ltac:(intros bt Hbt; by apply Hreq)).
    unfold SNAPSHOT_ADAPTIVE_SPLIT_LIMIT, SNAPSHOT_INPLACE_RETRY_LIMIT. lia.
Qed.
End Start.
