(* ===== verification/AckLaws.v ===== *)
(** What the checks of an answer promise: exactly one outcome for each entity of
    the request, and named items that are items of the request. *)
From stdpp Require Import gmap strings.
From S2P Require Import Prelude.
From S2P Require Import Text.
From S2P Require Import Refusals.
From S2P Require Import UploadLedger.
From S2P Require Import UploadCycle.
From S2P Require Import UploadPage.
From S2P Require Import UploadLoop.
From S2P Require Import BatchAck.
From S2P Require Import BatchTransport.
From S2P Require Import UploadPageLaws.
From S2P Require Import UploadLaws.
From coqutil Require Import Datatypes.RecordSetters.
Import DoubleBraceUpdate.
Local Open Scope Z_scope.

Lemma require_ok ok text : require ok text = inr () <-> ok = true.
Proof. unfold require. by destruct ok. Qed.
Lemma and_then_ok {A B} (m : AckError + A) (k : A -> AckError + B) b :
  and_then m k = inr b <-> exists a, m = inr a /\ k a = inr b.
Proof. destruct m as [e|a]; cbn; [|naive_solver]. split; [done|]. by intros (a & ? & _). Qed.

(** ** Covering *)
Section Covering.
Context (requested : gmap (string * string) Z).
Abbreviation Key := (string * string)%type.
Implicit Types (c : Covering) (key : Key) (l : list (Key * Z)).

(** The outcomes recorded so far: each of its own entity, within its count. *)
Definition outcome_ok (e : Key * Z) : Prop := exists expected, requested !! e.1 = Some expected /\ 0 < e.2 <= expected.
Definition covering l c : Prop :=
  NoDup l.*1 /\ Forall outcome_ok l /\ covered c = list_to_map l /\ forall key, classifications c !! key = None <-> key ∉ l.*1.
Lemma covering_perm l l' c : l ≡ₚ l' -> covering l c -> covering l' c.
Proof.
  intros Hp (Hn & Hf & Hc & Hcl). split; [by rewrite <-Hp|]. split; [by rewrite <-Hp|]. split.
  - by rewrite Hc, (list_to_map_proper l l') by done.
  - intros key. by rewrite Hcl, Hp.
Qed.
Lemma record_covering l c key n classification c' : covering l c ->
  record_snapshot_ack_occurrences requested key n classification c = inr c' ->
  covering ((key, n) :: l) c' /\ settled_count c' = settled_count c.
Proof.
  intros (Hn & Hf & Hc & Hcl) Hrec. unfold record_snapshot_ack_occurrences in Hrec.
  destruct (requested !! key) as [expected|] eqn:Er; [|done].
  apply and_then_ok in Hrec as ([] & Hpos & Hrec). apply require_ok, negb_true_iff, Z.eqb_neq in Hpos.
  apply and_then_ok in Hrec as ([] & Hfresh & Hrec). apply require_ok, bool_decide_eq_true, Hcl in Hfresh.
  rewrite Hc, (not_elem_of_list_to_map_1 _ _ Hfresh) in Hrec.
  destruct (checked_add 64 _ n) as [observed|] eqn:Et; [|done]. unfold checked_add in Et. apply try_uint_Some in Et as [Eo Hu].
  cbn in Eo. subst observed.
  apply and_then_ok in Hrec as ([] & Hle & Hrec).
  apply require_ok, negb_true_iff, Z.ltb_ge in Hle. injection Hrec as <-. split; [|done]. split; [|split; [|split]].
  - by apply NoDup_cons.
  - constructor; [|done]. exists expected. unfold uint in *. cbn in *. split; [done|lia].
  - done.
  - intros key'. cbn. rewrite not_elem_of_cons. destruct (decide (key' = key)) as [->|Hne].
    + rewrite lookup_insert_eq. naive_solver.
    + rewrite lookup_insert_ne by done. rewrite Hcl. naive_solver.
Qed.
Lemma record_covers l c key n classification : (forall key n, requested !! key = Some n -> n <= umax 64) -> covering l c ->
  key ∉ l.*1 -> outcome_ok (key, n) -> exists c', record_snapshot_ack_occurrences requested key n classification c = inr c'.
Proof.
  intros Hr (Hn & Hf & Hc & Hcl) Hfresh (expected & He & Hle). cbn in *. eexists. unfold record_snapshot_ack_occurrences. rewrite He.
  replace (n =? 0) with false by (symmetry; apply Z.eqb_neq; lia). cbn.
  rewrite bool_decide_eq_true_2 by by apply Hcl. cbn. rewrite Hc, (not_elem_of_list_to_map_1 _ _ Hfresh). cbn.
  specialize (Hr _ _ He). change (checked_add 64 0 n) with (try_uint 64 n). rewrite (proj2 (try_uint_Some 64 n n)) by (unfold umax, uint in *; split; [done|lia]).
  by replace (expected <? n) with false by (symmetry; apply Z.ltb_ge; lia).
Qed.

(** A loop that checks references and records their outcomes. *)
Section Phase.
Context {A : Type} (f : Covering -> A -> AckError + Covering) (ok : A -> Prop) (entry : A -> Key * Z) (share : A -> Z).
Context (Hshare : forall a, 0 <= (entry a).2 -> 0 <= share a).
Context (Hforward : forall l c a c', covering l c -> f c a = inr c' ->
  ok a /\ covering (entry a :: l) c' /\ settled_count c' = settled_count c + share a).
Context (Hback : forall l c a, covering l c -> ok a -> (entry a).1 ∉ l.*1 -> outcome_ok (entry a) ->
  0 <= settled_count c -> settled_count c + share a <= umax 64 -> exists c', f c a = inr c').
Definition shares (as_ : list A) : Z := foldr (fun a n => share a + n) 0 as_.

Lemma phase_forward l c as_ c' : covering l c -> try_fold f c as_ = inr c' ->
  Forall ok as_ /\ covering ((entry <$> as_) ++ l) c' /\ settled_count c' = settled_count c + shares as_.
Proof.
  revert l c. induction as_ as [|a as_ IH]; intros l c Hc Hf; cbn in Hf.
  { injection Hf as <-. split; [done|]. split; [done|]. cbn. lia. }
  apply and_then_ok in Hf as (c1 & H1 & Hf). destruct (Hforward l c a c1 Hc H1) as (Ha & Hc1 & Hs1).
  destruct (IH _ _ Hc1 Hf) as (Hall & Hc2 & Hs2). split; [by constructor|]. split.
  - eapply covering_perm; [|exact Hc2]. cbn. by rewrite Permutation_middle.
  - cbn. fold (shares as_). lia.
Qed.
Lemma phase_back l c as_ : covering l c -> Forall ok as_ -> NoDup ((entry <$> as_) ++ l).*1 -> Forall outcome_ok (entry <$> as_) ->
  0 <= settled_count c -> settled_count c + shares as_ <= umax 64 -> exists c', try_fold f c as_ = inr c'.
Proof.
  revert l c. induction as_ as [|a as_ IH]; intros l c Hc Hok Hn Hout H0 Hsum; cbn; [by exists c|].
  inversion Hok as [|? ? Ha Has]; subst. cbn in Hout, Hn, Hsum. inversion Hout as [|? ? Hoa Hoas]; subst. fold (shares as_) in Hsum.
  apply NoDup_cons in Hn as [Hfresh Hn].
  assert (Hpos : forall b, outcome_ok (entry b) -> 0 <= share b) by (intros b (x & _ & Hx); apply Hshare; lia).
  assert (Hrest : 0 <= shares as_).
  { clear -Hoas Hpos. induction as_ as [|b l IH]; cbn; [lia|]. fold (shares l). inversion Hoas; subst.
    specialize (IH ltac:(done)). specialize (Hpos b ltac:(done)). lia. }
  specialize (Hpos a Hoa).
  destruct (Hback l c a Hc Ha) as [c1 H1]; [intros Hin; apply Hfresh; rewrite fmap_app; set_solver|done|done|lia|].
  rewrite H1. cbn. destruct (Hforward l c a c1 Hc H1) as (_ & Hc1 & Hs1). eapply IH; [exact Hc1|done| |done|lia|lia].
  rewrite fmap_app in *. cbn. rewrite <-Permutation_middle. by apply NoDup_cons.
Qed.
End Phase.
End Covering.

(** ** The entities of a request *)
Definition occurrences (key : string * string) (ids : list (string * string)) : Z :=
  Z.of_nat (length (filter (fun k => k = key) ids)).
Lemma requested_lookup ids key :
  requested_counts ids !! key = if bool_decide (key ∈ ids) then Some (occurrences key ids) else None.
Proof.
  unfold requested_counts.
  assert (Hgen : forall m : gmap (string * string) Z, foldl (fun m key => <[key := default 0 (m !! key) + 1]> m) m ids !! key =
    if bool_decide (key ∈ ids) then Some (default 0 (m !! key) + occurrences key ids) else m !! key).
  { unfold occurrences. induction ids as [|k ids IH]; intros m; cbn [foldl]; [done|]. rewrite IH, filter_cons.
    destruct (decide (k = key)) as [->|Hne].
    - rewrite lookup_insert_eq, (bool_decide_eq_true_2 (key ∈ key :: ids)) by by left. cbn. case_bool_decide as Hin; f_equal; [lia|].
      destruct (filter _ ids) as [|k l] eqn:Ef; [cbn; lia|]. destruct Hin.
      assert (Hk : k ∈ filter (fun k => k = key) ids) by (rewrite Ef; by left). by apply list_elem_of_filter in Hk as [-> Hk].
    - rewrite lookup_insert_ne by done. rewrite (bool_decide_ext (key ∈ k :: ids) (key ∈ ids)); [done|]. set_solver. }
  rewrite Hgen. by rewrite lookup_empty.
Qed.
Lemma requested_bound ids : Z.of_nat (length ids) <= umax 64 ->
  forall key n, requested_counts ids !! key = Some n -> n <= umax 64.
Proof.
  intros Hl key n. rewrite requested_lookup. case_bool_decide; [|done]. intros [= <-]. unfold occurrences.
  pose proof (sublist_length _ _ (sublist_filter (fun k => k = key) ids)). lia.
Qed.

(** ** The answer as one list of outcomes *)
Lemma try_fold_app {S A} (f : S -> A -> AckError + S) s l l' :
  try_fold f s (l ++ l') = and_then (try_fold f s l) (fun s => try_fold f s l').
Proof. revert s. induction l as [|a l IH]; intros s; cbn; [done|]. destruct (f s a); cbn; [done|apply IH]. Qed.
Lemma try_fold_fmap {S A B} (f : S -> A -> AckError + S) (g : B -> A) s l :
  try_fold f s (g <$> l) = try_fold (fun s b => f s (g b)) s l.
Proof. revert s. induction l as [|b l IH]; intros s; cbn; [done|]. destruct (f s (g b)); cbn; [done|apply IH]. Qed.

Inductive Outcome :=
  | AcceptedRef (e : SnapshotEntityRef)
  | UnchangedRef (e : SnapshotEntityRef)
  | RejectedRef (e : SnapshotEntityRejection)
  | ConflictRef (e : SnapshotEntityRef).
Definition outcomes (r : SnapshotBatchResponse) : list Outcome :=
  (AcceptedRef <$> accepted_entities r) ++ (UnchangedRef <$> unchanged_entities r) ++
  (RejectedRef <$> rejected_entities r) ++ (ConflictRef <$> conflict_entities r).
(** The entity of an outcome, with its count. *)
Definition outcome_entry (o : Outcome) : (string * string) * Z :=
  match o with
  | AcceptedRef e | UnchangedRef e | ConflictRef e => ((ref_session e, ref_fingerprint e), occurrence_count e)
  | RejectedRef e => ((rej_session e, rej_fingerprint e), rej_occurrence_count e)
  end.
Definition outcome_valid (o : Outcome) : Prop :=
  match o with
  | AcceptedRef e | UnchangedRef e | ConflictRef e => validate_snapshot_entity_ref e = inr ()
  | RejectedRef e => validate_rejection e = inr ()
  end.
(** What an outcome adds to the count of settled bodies. *)
Definition settles (o : Outcome) : Z :=
  match o with AcceptedRef e | UnchangedRef e => occurrence_count e | _ => 0 end.
Definition cover (requested : gmap (string * string) Z) (c : Covering) (o : Outcome) : AckError + Covering :=
  match o with
  | AcceptedRef e => cover_settled requested "accepted" c e
  | UnchangedRef e => cover_settled requested "unchanged" c e
  | RejectedRef e => cover_rejection requested c e
  | ConflictRef e => cover_conflict requested c e
  end.
Lemma validate_identities_fold ids r : validate_entity_ack_identities ids r =
  and_then (try_fold (cover (requested_counts ids)) (mkCovering ∅ ∅ 0) (outcomes r)) (fun c =>
  and_then (require (bool_decide (covered c = requested_counts ids)) "snapshot ACK does not cover the request exactly") (fun _ =>
  require (accepted_count r =? settled_count c) "snapshot ACK accepted count mismatch")).
Proof.
  unfold validate_entity_ack_identities, outcomes. rewrite !try_fold_app, !try_fold_fmap. cbn [cover].
  destruct (try_fold _ _ (accepted_entities r)) as [|c1]; cbn [and_then]; [done|]. rewrite !try_fold_app, try_fold_fmap. cbn [cover].
  destruct (try_fold _ _ (unchanged_entities r)) as [|c2]; cbn [and_then]; [done|]. rewrite !try_fold_app, !try_fold_fmap. cbn [cover].
  destruct (try_fold _ _ (rejected_entities r)) as [|c3]; cbn [and_then]; [done|]. by rewrite try_fold_fmap.
Qed.

Section Cover.
Context (requested : gmap (string * string) Z).
Lemma cover_forward l c o c' : covering requested l c -> cover requested c o = inr c' ->
  outcome_valid o /\ covering requested (outcome_entry o :: l) c' /\ settled_count c' = settled_count c + settles o.
Proof.
  assert (Hs : forall classification e, covering requested l c -> cover_settled requested classification c e = inr c' ->
    validate_snapshot_entity_ref e = inr () /\ covering requested (((ref_session e, ref_fingerprint e), occurrence_count e) :: l) c' /\
    settled_count c' = settled_count c + occurrence_count e).
  { intros classification e Hc Hf. apply and_then_ok in Hf as ([] & Hv & Hf).
    apply and_then_ok in Hf as (c1 & Hrec & Hf). destruct (record_covering _ _ _ _ _ _ _ Hc Hrec) as [Hc1 Hs].
    destruct (checked_add _ _ _) as [sum|] eqn:Ea; [|done]. apply try_uint_Some in Ea as [-> _]. injection Hf as <-.
    destruct c1. split; [done|]. split; [done|]. cbn in *. unfold constant. lia. }
  intros Hc Hf. destruct o as [e|e|e|e]; [by eapply Hs|by eapply Hs|..];
    (apply and_then_ok in Hf as ([] & Hv & Hf); destruct (record_covering _ _ _ _ _ _ _ Hc Hf) as [Hc1 Hs1];
     split; [done|]; split; [done|cbn; lia]).
Qed.
Lemma cover_back l c o : (forall key n, requested !! key = Some n -> n <= umax 64) ->
  covering requested l c -> outcome_valid o -> (outcome_entry o).1 ∉ l.*1 -> outcome_ok requested (outcome_entry o) ->
  0 <= settled_count c -> settled_count c + settles o <= umax 64 -> exists c', cover requested c o = inr c'.
Proof.
  intros Hr.
  assert (Hs : forall classification e, covering requested l c -> validate_snapshot_entity_ref e = inr () ->
    (ref_session e, ref_fingerprint e) ∉ l.*1 -> outcome_ok requested ((ref_session e, ref_fingerprint e), occurrence_count e) ->
    0 <= settled_count c -> settled_count c + occurrence_count e <= umax 64 ->
    exists c', cover_settled requested classification c e = inr c').
  { intros classification e Hc Hv Hfresh Ho H0 Hsum. unfold cover_settled. rewrite Hv. cbn [and_then].
    destruct (record_covers requested l c _ _ classification Hr Hc Hfresh Ho) as [c1 Hrec].
    rewrite Hrec. cbn [and_then]. destruct (record_covering _ _ _ _ _ _ _ Hc Hrec) as [_ Hs]. rewrite Hs.
    destruct Ho as (x & _ & Hx). cbn in Hx. unfold checked_add. rewrite (try_uint_ok _ (_ + _)); [by eexists|].
    unfold uint, umax in *. lia. }
  intros Hc Hv Hfresh Ho H0 Hsum. destruct o as [e|e|e|e]; [by apply Hs|by apply Hs|..];
    cbn in *; [unfold cover_rejection|unfold cover_conflict]; rewrite Hv; cbn; by eapply record_covers.
Qed.
End Cover.

(** What a valid answer is: the specification of the check. *)
Record answers_exactly (ids : list (string * string)) (r : SnapshotBatchResponse) : Prop := {
  exact_valid : Forall outcome_valid (outcomes r);
  exact_once : NoDup (outcome_entry <$> outcomes r).*1;
  exact_positive : Forall (fun o => 0 < (outcome_entry o).2) (outcomes r);
  exact_covers : list_to_map (outcome_entry <$> outcomes r) = requested_counts ids;
  exact_accepted : accepted_count r = shares settles (outcomes r);
}.
Lemma covering_empty requested : covering requested [] (mkCovering ∅ ∅ 0).
Proof. split; [constructor|]. split; [done|]. split; [done|]. intros key. cbn. rewrite lookup_empty. set_solver. Qed.
Lemma validate_forward ids r : validate_entity_ack_identities ids r = inr () -> answers_exactly ids r.
Proof.
  rewrite validate_identities_fold. intros Hv. apply and_then_ok in Hv as (c & Hf & Hv).
  apply and_then_ok in Hv as ([] & Hcov & Hv). apply require_ok, bool_decide_eq_true in Hcov.
  apply require_ok, Z.eqb_eq in Hv.
  destruct (phase_forward _ _ _ _ settles (cover_forward _) _ _ _ _ (covering_empty _) Hf) as (Hok & (Hn & Hout & Hm & _) & Hs).
  rewrite app_nil_r in *. split; [done|done| |congruence|cbn in Hs; lia].
  rewrite Forall_fmap in Hout. eapply Forall_impl; [exact Hout|]. intros o (x & _ & Hx). cbn in Hx. lia.
Qed.
Lemma validate_back ids r : Z.of_nat (length ids) <= umax 64 -> accepted_count r <= umax 64 ->
  answers_exactly ids r -> validate_entity_ack_identities ids r = inr ().
Proof.
  intros Hl Ha [Hok Hn Hp Hm Hacc]. rewrite validate_identities_fold. pose proof (requested_bound ids Hl) as Hr.
  assert (Hout : Forall (outcome_ok (requested_counts ids)) (outcome_entry <$> outcomes r)).
  { rewrite <-Hm, Forall_fmap. rewrite Forall_forall in *. intros o Ho. exists (outcome_entry o).2. split; [|by specialize (Hp o Ho)].
    apply elem_of_list_to_map_1; [done|]. apply list_elem_of_fmap. exists o. by destruct (outcome_entry o). }
  destruct (phase_back (requested_counts ids) (cover (requested_counts ids)) outcome_valid outcome_entry settles) with
    (l := @nil ((string * string) * Z)) (c := mkCovering ∅ ∅ 0) (as_ := outcomes r) as [c Hf].
  - intros [e|e|e|e]; cbn; lia.
  - apply cover_forward.
  - intros. by eapply cover_back.
  - apply covering_empty.
  - done.
  - by rewrite app_nil_r.
  - done.
  - done.
  - cbn. lia.
  - rewrite Hf. cbn [and_then].
    destruct (phase_forward _ _ _ _ settles (cover_forward _) _ _ _ _ (covering_empty _) Hf) as (_ & (_ & _ & Hc & _) & Hs).
    rewrite app_nil_r in Hc. rewrite bool_decide_eq_true_2 by congruence. cbn [require and_then]. rewrite Hs, Hacc. cbn.
    by rewrite Z.eqb_refl.
Qed.

(** ** The items an error names *)
(** A check that fails with a message, or with items it names. *)
Definition names_kept {A} (m : AckError + A) : Prop := m <> inl (AckRefused []).
Lemma names_require ok text : names_kept (require ok text).
Proof. unfold names_kept, require. by destruct ok. Qed.
Lemma names_and_then {A B} (m : AckError + A) (k : A -> AckError + B) :
  names_kept m -> (forall a, names_kept (k a)) -> names_kept (and_then m k).
Proof. intros Hm Hk. destruct m as [e|a]; [intros [= ->]; by apply Hm|apply Hk]. Qed.
Lemma names_try_fold {S A} (f : S -> A -> AckError + S) s l : (forall s a, names_kept (f s a)) -> names_kept (try_fold f s l).
Proof.
  intros Hf. revert s. induction l as [|a l IH]; intros s; cbn; [done|]. by apply names_and_then.
Qed.
Ltac names :=
  repeat first [apply names_require | apply names_and_then; [|intros ?] | apply names_try_fold; intros ? ? | done | case_match].
Lemma names_record requested key count classification c :
  names_kept (record_snapshot_ack_occurrences requested key count classification c).
Proof. unfold record_snapshot_ack_occurrences. names. Qed.
Lemma names_identities ids r : names_kept (validate_entity_ack_identities ids r).
Proof.
  rewrite validate_identities_fold. apply names_and_then; [|intros c; names]. apply names_try_fold. intros c [e|e|e|e]; cbn;
    unfold cover_settled, cover_rejection, cover_conflict, validate_snapshot_entity_ref, validate_rejection, validate_identity;
    repeat first [apply names_record | apply names_require | apply names_and_then; [|intros ?] | done | case_match].
Qed.

Section Named.
Context {Item : Type} `{WireItem Item}.
Implicit Types (request : SnapshotBatchRequest Item) (r : SnapshotBatchResponse).

Lemma positions_some (keys : gset (string * string)) (items : list Item) item :
  item ∈ items -> item_key item ∈ keys -> positions_of keys items <> [].
Proof.
  intros Hin Hk Hnil. apply list_elem_of_lookup in Hin as [i Hi].
  assert (Hp : i ∈ positions_of keys items); [|rewrite Hnil in Hp; set_solver].
  unfold positions_of. apply list_elem_of_omap. exists (Some i). split; [|done].
  apply elem_of_lookup_imap. exists i, item. split; [|done]. by rewrite bool_decide_eq_true_2.
Qed.
Lemma expected_requested (items : list Item) expected expected' : try_fold expect_witness expected items = inr expected' ->
  forall key, is_Some (expected' !! key) -> is_Some (expected !! key) \/ exists item, item ∈ items /\ item_key item = key.
Proof.
  revert expected. induction items as [|item items IH]; intros expected Hf key Hk; cbn in Hf; [injection Hf as <-; by left|].
  apply and_then_ok in Hf as (e1 & He & Hf). destruct (IH _ Hf key Hk) as [Hs|(x & Hx & ?)]; [|right; exists x; set_solver].
  unfold expect_witness in He. apply and_then_ok in He as ([version|] & _ & He); [|by injection He as <-; left].
  apply and_then_ok in He as ([] & _ & He). injection He as <-.
  destruct (decide (key = item_key item)) as [->|Hne]; [right; exists item; set_solver|]. rewrite lookup_insert_ne in Hs by done. by left.
Qed.
Lemma names_witnesses request r : names_kept (validate_body_witness_ack request r).
Proof.
  unfold validate_body_witness_ack. destruct (try_fold _ _ _) as [e|expected] eqn:Ef; cbn [and_then].
  - assert (Hn : names_kept (try_fold expect_witness ∅ (snapshots request))).
    { apply names_try_fold. intros s item. unfold expect_witness, snapshot_ack_body_witness_version. names. }
    rewrite Ef in Hn. intros [= ->]. by apply Hn.
  - case_bool_decide as Hnone; [done|]. apply set_choose_L in Hnone as [key Hkey].
    pose proof Hkey as Hk. unfold refused_keys in Hk. apply elem_of_list_to_set, list_elem_of_omap in Hk as (e & _ & He).
    destruct (expected !! _) eqn:Ex; [|done]. case_match; [|done]. injection He as <-.
    destruct (expected_requested _ _ _ Ef (ref_session e, ref_fingerprint e)) as [Hs|(item & Hin & Hi)]; [by eexists| |].
    + rewrite lookup_empty in Hs. by destruct Hs.
    + intros [= Hp]. eapply positions_some; [exact Hin| |exact Hp]. by rewrite Hi.
Qed.
Lemma validate_names request enforce r e : validate_entity_ack_with_head_cas request enforce r = inl e -> names_some e.
Proof.
  assert (Hk : names_kept (validate_entity_ack_with_head_cas_inner request enforce r)).
  { unfold validate_entity_ack_with_head_cas_inner, validate_head_cas_ack, validate_usage_decrease_holds.
    repeat first [apply names_identities | apply names_witnesses | apply names_require | apply names_and_then; [|intros ?] | done | case_match]. }
  unfold validate_entity_ack_with_head_cas. destruct (validate_entity_ack_with_head_cas_inner _ _ _) as [[text|named]|[]]; [..|done].
  - by intros [= <-].
  - intros [= <-]. unfold names_some. cbn. intros [= ->]. by apply Hk.
Qed.
End Named.

(** ** What the transport's errors name *)
Lemma insert_index_some i l : insert_index i l <> [].
Proof. destruct l; cbn; [done|]. by repeat case_match. Qed.
Lemma error_indexes_some count errors indexes named :
  error_indexes count errors indexes = Some named -> errors <> [] \/ indexes <> [] -> named <> [].
Proof.
  revert indexes. induction errors as [|error errors IH]; intros indexes He Hne; cbn in He.
  - injection He as <-. by destruct Hne.
  - destruct (error_index count error) as [index|]; [|done]. eapply IH; [exact He|]. right. apply insert_index_some.
Qed.
Lemma snapshot_error_indexes_some body count named : snapshot_error_indexes body count = Some named -> named <> [].
Proof.
  unfold snapshot_error_indexes. intros He. destruct (json_get body "errors"); [|done]. destruct (as_array _) as [errors|]; [|done].
  case_bool_decide as Hn; [done|]. eapply error_indexes_some; [exact He|]. by left.
Qed.
Lemma error_index_bound count error index : error_index count error = Some index -> (index < count)%nat.
Proof. unfold error_index. intros He. repeat (case_match; simplify_eq). by apply Nat.leb_gt. Qed.
Lemma insert_index_elem i l j : j ∈ insert_index i l <-> j = i \/ j ∈ l.
Proof.
  induction l as [|k l IH]; cbn [insert_index]; [set_solver|]. destruct (Nat.ltb_spec i k); [rewrite !elem_of_cons; tauto|].
  destruct (Nat.eqb_spec i k) as [->|]; rewrite ?elem_of_cons, ?IH; tauto.
Qed.
Lemma error_indexes_spec count errors indexes named : error_indexes count errors indexes = Some named ->
  forall j, j ∈ named <-> j ∈ indexes \/ exists error, error ∈ errors /\ error_index count error = Some j.
Proof.
  revert indexes. induction errors as [|error errors IH]; intros indexes He j; cbn in He.
  - injection He as <-. set_solver.
  - destruct (error_index count error) as [index|] eqn:Ei; [|done]. rewrite (IH _ He), insert_index_elem. split.
    + intros [[->|Hj]|(x & Hx & ?)]; [right; exists error; set_solver|by left|right; exists x; set_solver].
    + intros [Hj|(x & [->|Hx]%elem_of_cons & E)]; [by left; right|left; left; congruence|by right; exists x].
Qed.

Section Transport.
Context (parse_json : list Z -> option Json) (rfc2822 : string -> option Z).
Lemma shed_names status retry_after body count now : names_some (shed_from_response parse_json rfc2822 status retry_after body count now).
Proof.
  unfold shed_from_response, names_some. destruct body as [body|]; [|done].
  destruct (shed_body parse_json _ count) as [unavailable named] eqn:Es. destruct named as [named|]; [|done]. cbn. intros [= ->].
  unfold shed_body in Es. repeat case_match; simplify_eq. by eapply snapshot_error_indexes_some.
Qed.
Lemma batch_outcome_names outcome count now e : batch_outcome parse_json rfc2822 outcome count now = inl e -> names_some e.
Proof.
  destruct outcome as [[response|]|code retry_after body|text]; cbn; [done|by intros [= <-]| |by intros [= <-]].
  intros [= <-]. case_match; [apply shed_names|]. case_match; [done|]. case_match; [|done].
  unfold names_some, rejected_from_response. cbn. case_match; [|done]. intros Hn.
  destruct (parse_json _) as [json|]; [|done]. by eapply snapshot_error_indexes_some.
Qed.

Section Send.
Context {W Item : Type} `{WireItem Item} `{Wire W Item} (slug : string) (legacy_pending : gset string).
Context (Hauthority : forall w e w', ensure_authority w = (Some e, w') -> names_some e).
Context (Htoken : forall w e w', issue_relay_token w = (inl e, w') -> names_some e).
Context (Hjoined : forall items w e w', validate_joined items w = (Some e, w') -> names_some e).

Lemma checked_names request enforce w e w' : upload_checked parse_json rfc2822 request enforce w = (inl e, w') -> names_some e.
Proof.
  unfold upload_checked. destruct (preflight request); [by intros [= <- _]|].
  destruct (ensure_authority w) as [[e1|] w1] eqn:E1; [intros [= <- _]; by eapply Hauthority|].
  destruct (issue_relay_token w1) as [[e2|token] w2] eqn:E2; [intros [= <- _]; by eapply Htoken|].
  destruct (ensure_authority w2) as [[e3|] w3] eqn:E3; [intros [= <- _]; by eapply Hauthority|].
  destruct (validate_joined _ w3) as [[e4|] w4] eqn:E4; [intros [= <- _]; by eapply Hjoined|].
  destruct (upload_batch _ _ _ _ _ _) as [[e5|response] w5] eqn:E5.
  - intros [= <- _]. unfold upload_batch in E5. destruct (post _ _ _ _) as [outcome w6]. injection E5 as E5 _. by eapply batch_outcome_names.
  - destruct (validate_entity_ack_with_head_cas _ _ _) as [e6|[]] eqn:E6; [|done]. intros [= <- _]. by eapply validate_names.
Qed.
Lemma send_names items w e w' : send_page parse_json rfc2822 slug legacy_pending items w = (inl e, w') -> names_some e.
Proof.
  unfold send_page. destruct (upload_checked _ _ _ _ _) as [[e1|response] w1] eqn:E1; [intros [= <- _]; by eapply checked_names|].
  destruct (require_normal_write_ack_for_legacy_reconciliation _ _ _) eqn:Er; [|done]. intros [= <- _].
  unfold require_normal_write_ack_for_legacy_reconciliation in Er. by repeat (case_match; simplify_eq).
Qed.
End Send.

(** ** A checked answer covers its page *)
Section Covered.
Context {W Item : Type} `{WireItem Item} `{Wire W Item} (slug : string) (legacy_pending : gset string).
Lemma checked_exact request enforce w r w' : upload_checked parse_json rfc2822 request enforce w = (inr r, w') ->
  disabled r = false -> ack_contract r = Some SNAPSHOT_ENTITY_ACK_CONTRACT -> answers_exactly (item_key <$> snapshots request) r.
Proof.
  unfold upload_checked. intros Hu Hd Hc. destruct (preflight request); [done|].
  destruct (ensure_authority w) as [[e1|] w1]; [done|]. destruct (issue_relay_token w1) as [[e2|token] w2]; [done|].
  destruct (ensure_authority w2) as [[e3|] w3]; [done|]. destruct (validate_joined _ w3) as [[e4|] w4]; [done|].
  destruct (upload_batch _ _ _ _ _ _) as [[e5|response] w5]; [done|].
  destruct (validate_entity_ack_with_head_cas _ _ _) as [e6|[]] eqn:Ev; [done|]. injection Hu as <- _.
  unfold validate_entity_ack_with_head_cas in Ev. destruct (validate_entity_ack_with_head_cas_inner _ _ _) as [[]|[]] eqn:Ei; [done..|].
  unfold validate_entity_ack_with_head_cas_inner in Ei. rewrite Hd, Hc in Ei.
  apply and_then_ok in Ei as ([] & _ & Ei). apply and_then_ok in Ei as ([] & Ei & _). by apply validate_forward.
Qed.
Lemma exact_outcome ids r key : answers_exactly ids r -> key ∈ ids -> exists o, o ∈ outcomes r /\ (outcome_entry o).1 = key.
Proof.
  intros [_ _ _ Hm _] Hk. assert (Hl : (list_to_map (outcome_entry <$> outcomes r) : gmap (string * string) Z) !! key = Some (occurrences key ids)).
  { by rewrite Hm, requested_lookup, bool_decide_eq_true_2. }
  apply elem_of_list_to_map_2, list_elem_of_fmap in Hl as (o & Ho & Hin). exists o. by rewrite <-Ho.
Qed.
Lemma outcome_covers r o (e : nat * Item) : o ∈ outcomes r -> (outcome_entry o).1.2 = fingerprint e.2 -> answers r e \/ refuses r e.
Proof.
  unfold outcomes, answers, refuses, settled_set. intros Ho Hf.
  assert (Hs : fingerprint e.2 ∈ (list_to_set (ref_fingerprint <$> settled_refs r) : gset string) ->
    fingerprint e.2 ∈ (list_to_set (ref_fingerprint <$> settled_refs r) : gset string) ∖ not_stored_set r \/ fingerprint e.2 ∈ not_stored_set r).
  { intros Hin. destruct (decide (fingerprint e.2 ∈ not_stored_set r)); [by right|left; set_solver]. }
  unfold settled_refs in Hs. rewrite !elem_of_app in Ho.
  destruct Ho as [Ho|[Ho|[Ho|Ho]]]; apply list_elem_of_fmap in Ho as (x & -> & Hx); cbn in Hf.
  - left. apply Hs. apply elem_of_list_to_set. rewrite fmap_app, elem_of_app. left. rewrite <-Hf. by apply list_elem_of_fmap_2.
  - left. apply Hs. apply elem_of_list_to_set. rewrite fmap_app, elem_of_app. right. rewrite <-Hf. by apply list_elem_of_fmap_2.
  - right. left. unfold rejection_of. apply last_is_Some.
    assert (Hin : x ∈ List.filter (fun e' => bool_decide (rej_fingerprint e' = fingerprint e.2)) (rejected_entities r)).
    { apply list_elem_of_In, List.filter_In. split; [by apply list_elem_of_In|by apply bool_decide_eq_true_2]. }
    intros Hnil. rewrite Hnil in Hin. set_solver.
  - right. right. rewrite <-Hf. by apply list_elem_of_fmap_2.
Qed.
Lemma send_covers (page : list (nat * Item)) w r w' :
  send_page parse_json rfc2822 slug legacy_pending page.*2 w = (inr r, w') -> covers r page.
Proof.
  unfold send_page. destruct (upload_checked _ _ _ _ _) as [[e1|response] w1] eqn:E1; [done|].
  case_match; [done|]. intros [= <- _] Hd Hc e He.
  assert (Hb : disabled response = false /\ ack_contract response = Some SNAPSHOT_ENTITY_ACK_CONTRACT /\ outcomes (bind_conflict_rescans (mkRequest Item slug page.*2) response) = outcomes response).
  { unfold bind_conflict_rescans in *. destruct (is_snapshot_source _); by destruct response. }
  destruct Hb as (Hd' & Hc' & Ho). pose proof (checked_exact _ _ _ _ _ E1 Hd' Hc') as Hexact.
  destruct (exact_outcome _ _ (item_key e.2) Hexact) as (o & Hin & Hk).
  { cbn. apply list_elem_of_fmap_2, list_elem_of_fmap_2, He. }
  apply (outcome_covers _ o); [by rewrite Ho|]. by rewrite Hk.
Qed.
End Covered.
End Transport.
