(* ===== verification/UploadPass.v ===== *)
(** The uploader over the checked transport: one source page from its items to
    its result (crates/ottto-service/src/snapshot_sync.rs, the call of
    [upload_resumable_batches_with_literal_families]).

    [Host] is the rest of the uploader's surroundings: the clock, the save of
    the ledger, the time since a failed request began, the random draw and the
    sleep.  [wired] sends through [send_page].

    At the end a concrete pass: three bodies, a transport that plays a script of
    answers, and a store that keeps the ledger in memory. *)
From stdpp Require Import gmap strings.
From S2P Require Import Prelude.
From S2P Require Import Text.
From S2P Require Import Std.
From S2P Require Import Quarantine.
From S2P Require Import UploadLedger.
From S2P Require Import UploadCycle.
From S2P Require Import UploadPage.
From S2P Require Import UploadLoop.
From S2P Require Import BatchAck.
From S2P Require Import BatchTransport.
Local Open Scope Z_scope.

Class Host (W Stored : Type) := {
  host_now : W -> Z;
  save : Progress Stored -> W -> option Error * Progress Stored * W;
  since_failure : W -> Duration;
  draw : Duration -> W -> Duration * W;
  pause : Duration -> W -> W;
}.

Section Pass.
Context {W Stored Item : Type} `{WireItem Item} `{StoredState Stored Item} `{Wire W Item} `{Host W Stored}.
Context (sha256 : list Z -> list Z) (fifth : Duration -> Duration).
Context (parse_json : list Z -> option Json) (rfc2822 : string -> option Z) (slug : string) (legacy_pending : gset string).

Definition wired : World W Item Stored := {|
  unix_now := host_now;
  send := send_page parse_json rfc2822 slug legacy_pending;
  persist := save;
  failed_after := since_failure;
  uniform := draw;
  sleep := pause;
|}.
Definition upload_pass (items : list Item) (budget : InplaceRetryBudget) (s : UploadState W Stored) :
    (Error + option ResumableUploadResult) * UploadState W Stored :=
  let _ := wired in upload_resumable_batches sha256 fifth items budget s.
End Pass.

Record Body := mkBody { body_fp : string; body_digest : string; body_bytes : Z }.
#[local] Instance body_entity : Entity Body := {|
  fingerprint := body_fp; item_body_witness := body_digest; probe_body_witness _ := None |}.
#[local] Instance body_snapshot : Snapshot Body := {|
  session_id b := Some (body_fp b); batch_class _ := 0; literal_family _ := None; json_length b := Some (Z.abs (body_bytes b));
  json_u64 _ _ := None; input_token_scope_of _ := None |}.
#[local] Instance body_wire : WireItem Body := {|
  wire_snapshot := body_snapshot;
  source_session_id := body_fp; usage_accounting_contract _ := None; has_session_account_evidence _ := false;
  has_cache_observations _ := false; has_tool_usage _ := false; is_request_owned_literal _ := false;
  semantic_envelope _ b := (body_digest b, false) |}.
#[local] Instance no_evidence : StoredState unit Body := {|
  record_stored _ _ s := s; patch_cache _ s := Some s; has_retained _ := false; invalidate_replaced _ s := (s, false);
  names_session b := Some (body_fp b) |}.

(** The outcomes to come, the time, and the requests sent. *)
Record Script := mkScript { to_come : list HttpOutcome; time : Z; posts : nat }.
#[local] Instance script_wire : Wire Script Body := {|
  preflight _ := None; ensure_authority w := (None, w); issue_relay_token w := (inr "token"%string, w);
  validate_joined _ w := (None, w);
  post _ _ _ w := (match to_come w with [] => TransportError "connection refused" | o :: _ => o end,
    mkScript (List.tl (to_come w)) (time w) (S (posts w)));
  now_utc w := time w |}.
#[local] Instance script_host : Host Script unit := {|
  host_now := time; save p w := (None, p, w); since_failure _ := 0; draw _ w := (0, w);
  pause d w := mkScript (to_come w) (time w + as_secs d) (posts w) |}.

Definition hex64 (c : string) : string := String.concat "" (replicate 64 c).
Definition body_a : Body := mkBody (hex64 "a") "digest a" 100.
Definition body_b : Body := mkBody (hex64 "b") "digest b" 100.
Definition ref_of (b : Body) : SnapshotEntityRef := mkRef (body_fp b) (body_fp b) 1 None None None None None [].
(** [b] refused for good, [a] accepted. *)
Definition accepts_a_refuses_b : SnapshotBatchResponse :=
  mkResponse 1 false None (Some SNAPSHOT_ENTITY_ACK_CONTRACT) [ref_of body_a] []
    [mkEntityRejection (body_fp body_b) (body_fp body_b) "body_exceeds_max_bytes" true 1] [] ∅.
Definition witness_now : SnapshotQuarantineWitness := mkWitness "" "1" "1" "1" 1 "" 1048576.
Definition fresh_state (script : list HttpOutcome) : UploadState Script unit :=
  mkState _ _ (new_progress tt "destination" witness_now) 0 (mkScript script 1000 0) ∅ 0 0.
Definition fifth_of (d : Duration) : Duration := d / 5.
Definition example_pass (script : list HttpOutcome) (items : list Body) :
    (Error + option ResumableUploadResult) * UploadState Script unit :=
  upload_pass id fifth_of (fun _ => None) (fun _ => None) "codex" ∅ items (mkBudget 0 0) (fresh_state script).
