(* ===== verification/UploadTheorems.v ===== *)
(** The resumable upload: it ends, sends boundedly many requests, and settles
    what it was given; what an accepted answer is. *)
From stdpp Require Import gmap strings.
From S2P Require Import Prelude.
From S2P Require Import Std.
From S2P Require Import Quarantine.
From S2P Require Import Refusals.
From S2P Require Import UploadLedger.
From S2P Require Import UploadCycle.
From S2P Require Import UploadPage.
From S2P Require Import UploadLoop.
From S2P Require Import PackLaws.
From S2P Require Import UploadPageLaws.
From S2P Require Import BatchAck.
From S2P Require Import BatchTransport.
From S2P Require Import UploadLaws.
From S2P Require Import UploadSettles.
From S2P Require Import AckLaws.
From S2P Require Import UploadPass.
Local Open Scope Z_scope.

Section Theorems.
Context {W Stored Item : Type} `{WireItem Item} `{StoredState Stored Item} `{Wire W Item} `{Host W Stored}.
Context (sha256 : list Z -> list Z) (fifth : Duration -> Duration).
Context (parse_json : list Z -> option Json) (rfc2822 : string -> option Z) (slug : string) (legacy_pending : gset string).
Abbreviation pass := (upload_pass sha256 fifth parse_json rfc2822 slug legacy_pending).
Abbreviation St := (UploadState W Stored).

(** What the pass relies on of its host: errors of the authority, the token, the
    joins and the save name no items of a page; lengths are unsigned; a save
    keeps what is settled. *)
Record host_ok : Prop := {
  authority_names : forall w e w', ensure_authority w = (Some e, w') -> names_some e;
  token_names : forall w e w', issue_relay_token w = (inl e, w') -> names_some e;
  joined_names : forall items w e w', validate_joined items w = (Some e, w') -> names_some e;
  save_names : forall p w e p' w', save p w = (Some e, p', w') -> names_some e;
  lengths : forall (item : Item) n, json_length item = Some n -> 0 <= n;
  save_settled : forall p w failed q w', save p w = (failed, q, w') -> forall fp body, settled p fp body -> settled q fp body;
}.
Context (Hhost : host_ok).

Lemma wired_names : names_items (H1 := wired parse_json rfc2822 slug legacy_pending) (Stored := Stored) (Item := Item).
Proof.
  split; cbn; [|apply (save_names Hhost)]. intros items w e w'.
  apply send_names; [apply (authority_names Hhost)|apply (token_names Hhost)|apply (joined_names Hhost)].
Qed.

(** ** The pass, step by step *)
Lemma pass_steps items budget s r s' : pass items budget s = (inr r, s') ->
  exists current q s1 s2 finished,
    current_body_witnesses items = Some current /\
    enqueue (W := W) items budget s1 = (inr q, s2) /\
    drain (H1 := wired parse_json rfc2822 slug legacy_pending) sha256 fifth (fuel_of q) q s2 = (inr finished, s') /\
    r = match finished with
        | Some (inl q) => Some (conclude current q (progress s'))
        | Some (inr result) => Some result
        | None => None
        end.
Proof.
  unfold upload_pass, upload_resumable_batches. intros Hs. destruct (current_body_witnesses items) as [current|]; [|done].
  apply bind_inr in Hs as ([] & s1 & _ & Hs). apply bind_inr in Hs as (q & s2 & Hq & Hs).
  apply bind_inr in Hs as (finished & s3 & Hd & Hs). apply bind_inr in Hs as (p & s4 & Hr & Hs).
  injection Hr as <- <-. injection Hs as <- <-. by exists current, q, s1, s2, finished.
Qed.

(** C7: The upload loop ends: its fuel is enough, whatever the backend and the
    store answer. *)
Theorem upload_ends items budget s :
  (upload_pass sha256 fifth parse_json rfc2822 slug legacy_pending items budget s).1 <> inr None.
Proof.
  destruct (pass items budget s) as [r s'] eqn:Hs. intros [= ->].
  apply pass_steps in Hs as (current & q & s1 & s2 & finished & Hc & Hq & Hd & Hr).
  apply drain_ends in Hd as [[q'|result] ->]; [done|done|by apply wired_names|rewrite fuel_cost; lia].
Qed.

(** C1: A pass that completes, rejects or defers has settled each body it was
    given: the ledger suppresses, accepted or holds it, or put it off. *)
Theorem upload_settles items budget s result s' :
  upload_pass sha256 fifth parse_json rfc2822 slug legacy_pending items budget s = (inr (Some result), s') ->
  match result with Completed | Rejected _ | Deferred _ _ => True | _ => False end ->
  forall item, item ∈ items -> settled (progress s') (fingerprint item) (item_body_witness item).
Proof.
  intros Hs Hres item Hin. apply pass_steps in Hs as (current & q & s1 & s2 & finished & Hc & Hq & Hd & Hr).
  destruct (enqueue_spec (lengths Hhost) _ _ _ _ _ _ Hc Hq) as (Hsound & Hall & _).
  destruct finished as [[q'|res]|]; [|injection Hr as ->|done].
  - eapply (drain_settles (H1 := wired parse_json rfc2822 slug legacy_pending) sha256 fifth current (save_settled Hhost)) with (e := (0%nat, item)) in Hd;
      [exact Hd| |done| |by apply Hall].
    + intros page w r w'. apply send_covers.
    + by apply (current_spec items current Hc).
  - apply drain_stops in Hd. by destruct res.
Qed.

(** C30: A pass over [n] items sends at most [2 n + 14] requests, whatever the
    backend answers: a request for each body and batch, two for each of six
    splits and one for each of two resends. *)
Theorem upload_requests (sent : W -> nat) items budget s :
  counts_requests (H1 := wired parse_json rfc2822 slug legacy_pending) (Stored := Stored) (Item := Item) sent ->
  (sent (world (upload_pass sha256 fifth parse_json rfc2822 slug legacy_pending items budget s).2) <= 2 * length items + 14 + sent (world s))%nat.
Proof.
  intros Hsent. unfold upload_pass, upload_resumable_batches. destruct (current_body_witnesses items) as [current|] eqn:Ec; [|cbn; lia].
  set (wd := wired parse_json rfc2822 slug legacy_pending) in *. revert s.
  enough (Hk : spends sent (2 * length items + 14) (do _ <- reconcile sha256 current; do q <- enqueue items budget;
    do finished <- drain sha256 fifth (fuel_of q) q; do p <- read (fun p => p);
    ret (match finished with Some (inl q) => Some (conclude current q p) | Some (inr result) => Some result | None => None end)));
    [exact Hk|].
  apply spends_bind; [by apply reconcile_unsent|intros _].
  change (2 * length items + 14)%nat with (0 + (2 * length items + 14))%nat.
  apply (spends_seq sent 0 _ (fun q => (cost q <= 2 * length items + 14)%nat)); [apply enqueue_unsent| |].
  - intros s q s' Hq. by destruct (enqueue_spec (lengths Hhost) _ _ _ _ _ _ Ec Hq) as (_ & _ & ?).
  - intros q Hq. rewrite <-(Nat.add_0_r (2 * length items + 14)).
    apply (spends_seq sent _ 0 (fun _ => True)); [|done|intros finished _; apply spends_bind; [by apply spends_same|intros; apply spends_ret]].
    intros s1. pose proof (drain_requests sha256 fifth sent Hsent (fuel_of q) q wired_names s1). lia.
Qed.

(** The limit on adaptive attempts is never met: the splits and resends a
    pass may spend allow 14 attempts of its 54. *)
Theorem attempt_limit_unmet items budget s e s' :
  transport_not_the_limit (H1 := wired parse_json rfc2822 slug legacy_pending) (Stored := Stored) (Item := Item) ->
  (resends_spent budget <= SNAPSHOT_INPLACE_RETRY_LIMIT)%nat ->
  upload_pass sha256 fifth parse_json rfc2822 slug legacy_pending items budget s = (inl e, s') ->
  e <> [Message "snapshot adaptive upload attempt limit reached"].
Proof.
  intros Ht Hb Hs. unfold upload_pass, upload_resumable_batches in Hs. destruct (current_body_witnesses items); [|by injection Hs as <- _].
  set (wd := wired parse_json rfc2822 slug legacy_pending) in *.
  unfold bind at 1 in Hs. destruct (reconcile _ _ s) as [[e1|[]] s1] eqn:Er.
  { injection Hs as -> _. by eapply (reconcile_fails sha256). }
  unfold bind at 1 in Hs. destruct (enqueue _ _ s1) as [[e1|q] s2] eqn:Eq.
  { injection Hs as -> _. by eapply enqueue_fails. }
  unfold bind at 1 in Hs. destruct (drain _ _ _ _ s2) as [[e1|finished] s3] eqn:Ed; [|done].
  injection Hs as -> _. eapply drain_not_the_limit; [exact Ht| |exact Ed].
  destruct (enqueue_fresh _ _ _ _ _ Eq) as (Ha & Hc & Hs & Hq). unfold attempts_paid. rewrite Ha, Hc, Hs, Hq. lia.
Qed.
End Theorems.

(** ** Packing *)
Section Packing.
Context {Item : Type} `{Snapshot Item}.

(** C22: Each request holds at most 50 bodies and 2 MiB, unless a single body is
    larger; its bodies have one class, and are all ordinary or all catch-up. *)
Theorem requests_within_limits (pending : list (Packed Item)) c b : sized pending -> b ∈ (pack pending c).1 ->
  b <> [] /\ (length b <= 50)%nat /\ (2 + weight b <= 2 * 1024 * 1024 \/ length b = 1%nat) /\
  forall m m', m ∈ b -> m' ∈ b ->
    at_class m = at_class m' /\ is_catchup (fingerprint (at_item m)) c = is_catchup (fingerprint (at_item m')) c.
Proof.
  intros Hs Hb. destruct (pack_spec pending c Hs) as (ordinary & admitted & held & Hp).
  destruct (packs_requests _ _ _ _ _ _ _ Hp b Hb) as (Hne & [Hl Hw] & Ho & Hlane).
  split; [done|]. split; [done|]. split; [|by intros m m' Hm Hm'; split; [apply Ho|apply Hlane]].
  destruct Hw as [Hw|Hw]; [by left|right]. destruct b as [|m [|m' b]]; [done|done|cbn in Hw; lia].
Qed.

(** C8: Packing loses no body: each is in one request, but for catch-up bodies
    put off to a later pass, and these alone are marked so.  Catch-up bodies are
    sent when no ordinary body waits for another call, and only from what the
    ordinary bodies leave of the allowance; one is put off only when an ordinary
    body does wait for another call, or when it is larger than what the catch-up
    bodies sent leave of the allowance. *)
Theorem packing_loses_nothing (pending : list (Packed Item)) c : sized pending ->
  exists ordinary admitted held,
    pending ≡ₚ ordinary ++ admitted ++ held /\ concat (pack pending c).1 ≡ₚ ordinary ++ admitted /\
    (forall m, m ∈ ordinary -> is_catchup (fingerprint (at_item m)) c = false) /\
    (forall m, m ∈ admitted ++ held -> is_catchup (fingerprint (at_item m)) c = true) /\
    deferred (pack pending c).2 = deferred c ∪ entities_of held /\
    let left := Z.max 0 (remaining_bytes c - Z.min (spent ordinary) (umax 64)) - spent admitted in
    0 <= left /\
    (ordinary_work_is_in (entities_of ordinary) c = false -> admitted = []) /\
    (ordinary_work_is_in (entities_of ordinary) c = true -> forall m, m ∈ held -> left < taken m).
Proof.
  intros Hs. destruct (pack_spec pending c Hs) as (ordinary & admitted & held & [Hr Ha Hc Ho Hm Hd Hb Hw Hf]).
  exists ordinary, admitted, held. repeat (split; [done|]). split; [lia|]. by split.
Qed.
End Packing.

(** ** The checks of an answer *)
(** C2: The check of an answer's identities accepts exactly the answers that
    give each entity of the request one well-formed outcome with the entity's
    count, name no other entity, and count their settled bodies right. *)
Theorem identities_accepted_exactly (ids : list (string * string)) (r : SnapshotBatchResponse) :
  Z.of_nat (length ids) <= umax 64 -> accepted_count r <= umax 64 ->
  validate_entity_ack_identities ids r = inr () <-> answers_exactly ids r.
Proof. intros Hl Ha. split; [apply validate_forward|by apply validate_back]. Qed.

(** An error of the form [{"loc": ["body", "snapshots", index, ...], ...}] with
    the index of one of [count] items locates that item. *)
Inductive locates (count : nat) (error : Json) : nat -> Prop :=
| locates_item n rest :
    json_get error "loc" = Some (JArray (JString "body" :: JString "snapshots" :: JNumber (Some n) :: rest)) ->
    (Z.to_nat n < count)%nat -> locates count error (Z.to_nat n).
Lemma error_index_locates count error index : error_index count error = Some index <-> locates count error index.
Proof.
  unfold error_index. split.
  - intros H. repeat (case_match; simplify_eq). repeat match goal with
      | E : as_array ?v = Some _ |- _ => destruct v; simplify_eq/=
      | E : json_str ?v = Some _ |- _ => destruct v; simplify_eq/=
      | E : json_as_u64 ?v = Some _ |- _ => destruct v; simplify_eq/=
      | E : negb (bool_decide _) = false |- _ => apply negb_false_iff, bool_decide_eq_true in E; subst
      | E : (_ <=? _)%nat = false |- _ => apply Nat.leb_gt in E
      end.
    destruct l as [|x0 [|x1 [|x2 rest]]]; simplify_eq/=. by econstructor.
  - intros [n rest E Hn]. rewrite E. cbn. by rewrite (proj2 (Nat.leb_gt _ _)).
Qed.
Lemma insert_index_sorted i l : StronglySorted lt l -> StronglySorted lt (insert_index i l).
Proof.
  induction 1 as [|j l Hs IH Hj]; cbn [insert_index]; [repeat constructor|].
  destruct (Nat.ltb_spec i j) as [Hlt|]; [|destruct (Nat.eqb_spec i j); [by constructor|]].
  - constructor; [by constructor|]. constructor; [done|]. eapply Forall_impl; [exact Hj|]. cbn. lia.
  - constructor; [done|]. apply Forall_forall. intros k [->|Hk]%insert_index_elem; [lia|].
    rewrite Forall_forall in Hj. by apply Hj.
Qed.
Lemma strongly_sorted_NoDup l : StronglySorted lt l -> NoDup l.
Proof.
  induction 1 as [|j l _ IH Hj]; constructor; [|done]. intros Hin. rewrite Forall_forall in Hj. specialize (Hj j Hin). lia.
Qed.
Lemma error_indexes_total count errors indexes :
  is_Some (error_indexes count errors indexes) <-> forall error, error ∈ errors -> is_Some (error_index count error).
Proof.
  revert indexes. induction errors as [|error errors IH]; intros indexes; cbn [error_indexes].
  - split; [|by eexists]. by intros _ error He%elem_of_nil.
  - setoid_rewrite elem_of_cons. destruct (error_index count error) as [index|] eqn:E.
    + rewrite IH. split; [intros H e [->|He]; [by eexists|auto]|auto].
    + split; [by intros [? ?]|]. intros H. destruct (H error) as [? ?]; [by left|congruence].
Qed.
Lemma error_indexes_sorted count errors indexes named :
  error_indexes count errors indexes = Some named -> StronglySorted lt indexes -> StronglySorted lt named.
Proof.
  revert indexes. induction errors as [|error errors IH]; intros indexes; cbn; [by intros [= ->]|].
  destruct (error_index count error); [|done]. intros H Hs. by eapply IH, insert_index_sorted.
Qed.

(** C37: An error body names items of a request exactly when it lists errors
    and each of them locates an item of the request by
    ["body", "snapshots", index, ...]: then it names the located items, in
    order and once each, and no other.  One error of another form, or an index
    past the request, and it names none. *)
Theorem error_body_names_exactly body count named :
  snapshot_error_indexes body count = Some named <->
  exists errors, json_get body "errors" = Some (JArray errors) /\ errors <> [] /\
    (forall error, error ∈ errors -> exists index, locates count error index) /\
    StronglySorted lt named /\
    forall j, j ∈ named <-> exists error, error ∈ errors /\ locates count error j.
Proof.
  assert (Hspec : forall errors ns, error_indexes count errors [] = Some ns ->
    StronglySorted lt ns /\ forall j, j ∈ ns <-> exists error, error ∈ errors /\ locates count error j).
  { intros errors ns He. split; [eapply error_indexes_sorted; [exact He|constructor]|]. intros j.
    rewrite (error_indexes_spec _ _ _ _ He j). setoid_rewrite error_index_locates. set_solver. }
  unfold snapshot_error_indexes. split.
  - destruct (json_get body "errors") as [v|]; [|done]. destruct v as [| | | |errors|]; cbn; try done.
    case_bool_decide as Hne; [done|]. intros He. exists errors. destruct (Hspec _ _ He) as [Hs Hj]. split_and!; try done.
    intros error Hin. destruct (proj1 (error_indexes_total count errors []) ltac:(by eexists) error Hin) as [index Hi].
    exists index. by apply error_index_locates.
  - intros (errors & -> & Hne & Hall & Hs & Hj). cbn. rewrite bool_decide_eq_false_2 by done.
    destruct (proj2 (error_indexes_total count errors [])) as [ns Hns].
    { intros error [index Hi]%Hall. exists index. by apply error_index_locates. }
    rewrite Hns. f_equal. destruct (Hspec _ _ Hns) as [Hs' Hj'].
    apply (StronglySorted_unique_strong lt); [intros; lia|done..|].
    apply NoDup_Permutation; [| |intros x; by rewrite Hj, Hj'].
    all: by apply strongly_sorted_NoDup.
Qed.

Definition nothing_known (c : RefusalExposure) : Prop := known_requests c = 0 /\ known_tokens c = 0 /\ oldest_age_seconds c = 0.
Lemma owed_unexposed r : owed r = true -> exposure r = None.
Proof. unfold owed. intros [_ ?%bool_decide_eq_true]%andb_prop. done. Qed.
Lemma owed_least (l : list PermanentSnapshotRejection) : (forall r, In r l -> owed r = true) ->
  least (omap (fun r => exposure r ≫= first_held_unix) l) = None.
Proof.
  intros Hl. replace (omap _ l) with (@nil Z); [done|]. induction l as [|r l IH]; [done|]. cbn.
  rewrite owed_unexposed by (apply Hl; by left). apply IH. intros r' Hr. apply Hl. by right.
Qed.
Lemma expose_nothing now c refusal : nothing_known c -> nothing_known (expose now c refusal).
Proof.
  intros Hc. unfold expose. destruct (List.filter owed _) as [|first more] eqn:El; [done|].
  assert (Hl : forall r, In r (first :: more) -> owed r = true).
  { intros r Hr. rewrite <-El in Hr. by apply filter_In in Hr as [_ ?]. }
  rewrite owed_least by done. rewrite (owed_unexposed first) by (apply Hl; by left). by destruct c.
Qed.
(** Only a refusal without exposure is owed, so what [refusal_exposure] reads of
    owed refusals is never there. *)
Lemma owed_exposure_unknown now refusals :
  known_requests (refusal_exposure_of now refusals) = 0 /\ known_tokens (refusal_exposure_of now refusals) = 0 /\
  oldest_age_seconds (refusal_exposure_of now refusals) = 0.
Proof.
  unfold refusal_exposure_of. assert (Hz : nothing_known no_exposure) by done. revert Hz.
  generalize no_exposure. induction refusals as [|r refusals IH]; intros c Hz; [done|]. apply IH. by apply expose_nothing.
Qed.

(** ** Witnesses *)
#[local] Existing Instances body_snapshot body_wire no_evidence script_wire script_host.
Lemma example_host : host_ok (W := Script) (Stored := unit) (Item := Body).
Proof. split; try done; [intros item n [= <-]; lia|by intros p w failed q w' [= _ <- _]]. Qed.
Definition one_answer : list HttpOutcome := [StatusError 500 None None; Answered (Some accepts_a_refuses_b)].
Definition example_run : (Error + option ResumableUploadResult) * UploadState Script unit := example_pass one_answer [body_a; body_b].

Lemma upload_ends_witness : example_run.1 <> inr None.
Proof.
  exact (upload_ends id fifth_of (fun _ => None) (fun _ => None) "codex" ∅ example_host [body_a; body_b] (mkBudget 0 0) (fresh_state one_answer)).
Defined.
Lemma upload_settles_witness : settled (progress example_run.2) (body_fp body_b) "digest b".
Proof.
  apply (upload_settles id fifth_of (fun _ => None) (fun _ => None) "codex" ∅ example_host [body_a; body_b] (mkBudget 0 0)
    (fresh_state one_answer) (Rejected 1) example_run.2) with (item := body_b); [vm_compute; reflexivity|exact I|].
  apply list_elem_of_In. cbn. tauto.
Defined.
Lemma example_counts : counts_requests (H1 := wired (fun _ => None) (fun _ => None) "codex" ∅) (Stored := unit) (Item := Body) posts.
Proof.
  split; cbn; try (intros; lia).
  intros items w. unfold send_page, upload_checked. cbn. unfold upload_batch. cbn. repeat (case_match; cbn in *; simplify_eq; cbn; try lia).
Qed.
Lemma upload_requests_witness : (posts (world example_run.2) <= 18)%nat.
Proof.
  exact (upload_requests id fifth_of (fun _ => None) (fun _ => None) "codex" ∅ example_host posts [body_a; body_b] (mkBudget 0 0)
    (fresh_state one_answer) example_counts).
Defined.
Lemma example_transport : transport_not_the_limit (H1 := wired (fun _ => None) (fun _ => None) "codex" ∅) (Stored := unit) (Item := Body).
Proof.
  split; [|by intros p w e p' w' [=]]. cbn. intros items w e w' Hs. unfold send_page in Hs.
  destruct (upload_checked _ _ _ _ _) as [[e1|response] w1] eqn:E1.
  - injection Hs as <- _. unfold upload_checked in E1. cbn in E1. unfold upload_batch in E1. cbn in E1.
    unfold batch_outcome, shed_from_response, rejected_from_response, validate_entity_ack_with_head_cas, not_the_limit in *.
    by repeat (case_match; simplify_eq).
  - unfold require_normal_write_ack_for_legacy_reconciliation in Hs. unfold not_the_limit. by repeat (case_match; simplify_eq).
Qed.
(** A refused connection ends the pass, but not at the limit. *)
Definition refused_run : (Error + option ResumableUploadResult) * UploadState Script unit :=
  example_pass [TransportError "connection refused"] [body_a; body_b].
Lemma attempt_limit_unmet_witness :
  [Diagnostics (mkDiagnostics "snapshot_batch" "transport_connection" None)] <>
  [Message "snapshot adaptive upload attempt limit reached"].
Proof.
  apply (attempt_limit_unmet id fifth_of (fun _ => None) (fun _ => None) "codex" ∅ [body_a; body_b] (mkBudget 0 0)
    (fresh_state [TransportError "connection refused"]) _ refused_run.2 example_transport); [cbn; lia|vm_compute; reflexivity].
Defined.
Definition two_classes : list (Packed Body) := [mkPacked 0 body_a 101 0; mkPacked 1 body_b 101 1].
Lemma two_classes_sized : sized two_classes.
Proof. intros m Hm. apply list_elem_of_In in Hm as [<-|[<-|[]]]; cbn; lia. Qed.
Lemma requests_within_limits_witness : (length [mkPacked 0 body_a 101 0] <= 50)%nat.
Proof.
  apply (requests_within_limits two_classes default_cycle [mkPacked 0 body_a 101 0] two_classes_sized).
  apply list_elem_of_In. vm_compute. left. reflexivity.
Defined.
Lemma packing_loses_nothing_witness : exists held, concat (pack two_classes default_cycle).1 ++ held ≡ₚ two_classes.
Proof.
  destruct (packing_loses_nothing two_classes default_cycle two_classes_sized) as (ordinary & admitted & held & Hp & Hs & _).
  exists held. rewrite Hs, Hp. by rewrite <-app_assoc.
Defined.
Definition request_keys : list (string * string) := item_key <$> [body_a; body_b].
Lemma identities_accepted_exactly_witness : answers_exactly request_keys accepts_a_refuses_b.
Proof.
  apply (identities_accepted_exactly request_keys accepts_a_refuses_b); [vm_compute; discriminate..|vm_compute; reflexivity].
Defined.
Definition error_at (index : Z) : Json :=
  JObject [("loc"%string, JArray [JString "body"; JString "snapshots"; JNumber (Some index); JString "provider"])].
Lemma error_body_names_exactly_witness : exists errors : list Json, StronglySorted lt [0; 2]%nat /\
  forall j, j ∈ [0; 2]%nat <-> exists error, error ∈ errors /\ locates 3 error j.
Proof.
  destruct (proj1 (error_body_names_exactly (JObject [("errors"%string, JArray [error_at 2; error_at 0; error_at 2])]) 3 [0; 2]%nat))
    as (errors & _ & _ & _ & Hs & Hj); [vm_compute; reflexivity|].
  exists errors. split; [exact Hs|exact Hj].
Defined.
