(* ===== verification/AckRetention.v ===== *)
(** How long an acknowledgement stays in the upload ledger
    (crates/ottto-service/src/snapshot_sync/ack_retention.rs, with the
    incidence of snapshots/scan_index/save.rs and the saves of
    snapshot_sync.rs).

    A [ScanIndex] is the part of the scan index that retention reads: which
    entities each file was last seen to hold, what was accepted of them, what a
    lenient decode holds back, and the handoff of acknowledgements to retire.
    The iterators over incidence are the set of what they yield, into which
    every consumer folds them.  [family_held] answers for a file whether the
    family of its session is held.

    A source cycle is two files on disk, the index and the ledger, and a list of
    atomic saves; [cycle] stops after any of them, as a crash or an error does,
    and the next one loads what the disk holds.  Retention reads and changes the
    acknowledgements of a ledger only, so what an upload makes of the ledger is
    a function [uploaded] of it, and [selected] is any index that the settlement
    of the upload chose to save.  The compare-and-swap of generations between
    processes, the recovery companion of the ledger and the overflow of a
    generation in a save that stages no handoff are left out. *)
From stdpp Require Import gmap strings.
From S2P Require Import Prelude.
From S2P Require Import OrdMap.
From S2P Require Import Text.
From S2P Require Import DurableDigest.
From S2P Require Import UploadLedger.
From S2P Require Import UploadCycle.
From S2P Require Import UploadPage.
From coqutil Require Import Datatypes.RecordSetters.
Import DoubleBraceUpdate.
Local Open Scope Z_scope.

(** ** The index *)
Record ScanIndexEntry := mkIndexEntry {
  last_upload_body_witness : option string;
  last_snapshot_fingerprint : option string;
}.
Record UploadAckRetirementHandoff := mkHandoff {
  handoff_destination : string;
  (** The commit that first authorizes these bodies. *)
  committed_generation : Z;
  bodies : gmap string string;
  pending_bodies : gmap string string;
}.
Record ScanIndex := mkIndex {
  index_generation : Z;
  files : gmap string ScanIndexEntry;
  file_snapshot_fingerprints : gmap string (gset string);
  accepted_snapshot_fingerprints : gset string;
  accepted_rebuild_incidence : gmap string (gset string);
  held_files : gset string;
  held_entities : gset string;
  (** No map of the index is unavailable on disk. *)
  persistence_available : bool;
  family_held : string -> bool;
  upload_ack_retirement_handoff : option UploadAckRetirementHandoff;
}.
Definition with_handoff (h : option UploadAckRetirementHandoff) (i : ScanIndex) : ScanIndex :=
  i {{ upload_ack_retirement_handoff := h }}.

Definition decode_holds_entity (i : ScanIndex) (fp : string) : bool :=
  negb (persistence_available i) || bool_decide (fp ∈ held_entities i).
Definition decode_holds_file (i : ScanIndex) (key : string) : bool := bool_decide (key ∈ held_files i) || family_held i key.
(** Legacy entries count unless the file has an exact set. *)
Definition current_snapshot_fingerprint_refs (i : ScanIndex) : gset string :=
  let exact := map_to_list (file_snapshot_fingerprints i) ≫= (fun f => elements f.2) in
  let legacy := omap (fun f => if bool_decide (file_snapshot_fingerprints i !! f.1 = None) then last_snapshot_fingerprint f.2 else None)
    (map_to_list (files i)) in
  list_to_set (exact ++ legacy).
Definition upload_progress_ack_incidence (i : ScanIndex) : gset string :=
  current_snapshot_fingerprint_refs i ∪ list_to_set (map_to_list (accepted_rebuild_incidence i) ≫= (fun f => elements f.2)).
(** Some held file has no exact set. *)
Definition upload_progress_ack_incidence_unknown (i : ScanIndex) : bool :=
  existsb (fun key => bool_decide (file_snapshot_fingerprints i !! key = None)) (elements (held_files i)).
Definition accepted_snapshot_fingerprint_recorded (i : ScanIndex) (fp : string) : bool :=
  negb (decode_holds_entity i fp) && bool_decide (fp ∈ accepted_snapshot_fingerprints i).

Section Adoption.
Context (sha256 : list Z -> list Z).
Definition u32_be (n : Z) : list Z := (fun shift => Z.shiftr n shift mod 256) <$> [24; 16; 8; 0].
Definition length_prefixed (bytes : list Z) : list Z := u32_be (wrap_u 32 (Z.of_nat (length bytes))) ++ bytes.
Definition snapshot_file_upload_body_set_digest (witnesses : list string) : list Z :=
  sha256 (length_prefixed (as_bytes "snapshot_file_upload_body_set:v1") ++ (witnesses ≫= (fun w => length_prefixed (as_bytes w)))).
(** Sorted and without repeats. *)
Definition sorted_witnesses (witnesses : list string) : list string := foldl (fun s w => (bs_insert w s).1) [] witnesses.

(** Whether the saved witness of a file covers exactly the bodies acknowledged
    for its members. *)
Definition adopts_file (i : ScanIndex) (acked : gmap string string) (key : string) (members : gset string) : bool :=
  negb (bool_decide (members = ∅)) && negb (decode_holds_file i key) &&
  match files i !! key ≫= last_upload_body_witness with
  | None => false
  | Some expected =>
      forallb (fun fp => bool_decide (is_Some (acked !! fp)) && accepted_snapshot_fingerprint_recorded i fp) (elements members) &&
      bool_decide (hex_digest expected = Some (snapshot_file_upload_body_set_digest
        (sorted_witnesses (omap (fun fp => acked !! fp) (elements members)))))
  end.
Definition adopted_upload_progress_acks (i : ScanIndex) (acked : gmap string string) : gset string :=
  list_to_set (map_to_list (file_snapshot_fingerprints i) ≫=
    (fun f => if adopts_file i acked f.1 f.2 then elements f.2 else [])).
End Adoption.

(** ** Admission *)
Section Ledger.
Context {Stored : Type} (sha256 : list Z -> list Z).
Implicit Types (p : Progress Stored) (i previous scanned selected saved : ScanIndex) (locally_held : gset string).

Definition set_ack_capacity (stale capacity : Z) p : Progress Stored :=
  p {{ retained_stale_ack_count := stale }} {{ ack_capacity := capacity }}.
Definition configure_ack_capacity (committed : ScanIndex) p : Progress Stored :=
  let unsettled := accepted_fingerprints p ∖ upload_progress_ack_incidence committed in
  set_ack_capacity (Z.of_nat (size unsettled))
    (saturating_add 64 (saturating_sub (Z.of_nat (size (accepted_fingerprints p))) (Z.of_nat (size unsettled))) MAX_UNSETTLED_ACKS) p.

Section Input.
Context {Item : Type} `{Entity Item}.
Definition fingerprints (items : list Item) : gset string := list_to_set (fingerprint <$> items).
(** [retain]: the entities let in so far and the slots left. *)
Definition retain_item (p_accepted live_input : gset string) (acc : list Item * gset string * nat) (item : Item) : list Item * gset string * nat :=
  let '(kept, admitted, remaining) := acc in
  let fp := fingerprint item in
  if bool_decide (fp ∈ p_accepted) || bool_decide (fp ∈ live_input) || bool_decide (fp ∈ admitted)
  then (kept ++ [item], admitted, remaining)
  else match remaining with
       | O => acc
       | S remaining => (kept ++ [item], {[fp]} ∪ admitted, remaining)
       end.
Definition admit_upload_input_with_unsettled_limit (items : list Item) (live_index : ScanIndex) (unsettled_limit : nat) p :
    option ErrorLayer * list Item * Progress Stored :=
  let accepted := accepted_fingerprints p in
  let incidence := upload_progress_ack_incidence live_index in
  let unsettled := accepted ∖ incidence in
  let live_input := (incidence ∩ fingerprints items) ∖ accepted in
  let held_live := saturating_sub (Z.of_nat (size accepted)) (Z.of_nat (size unsettled)) in
  let p := set_ack_capacity (Z.of_nat (size unsettled))
    (saturating_add 64 (saturating_add 64 held_live (Z.of_nat (size live_input))) (Z.of_nat unsettled_limit)) p in
  let '(kept, _, _) := foldl (retain_item accepted live_input) ([], ∅, (unsettled_limit - size unsettled)%nat) items in
  let before := size (fingerprints items) in
  let after := size (fingerprints kept) in
  (if bool_decide (after < before)%nat
   then Some (AckSettlementRequired (Z.of_nat (size accepted)) (Z.of_nat (size unsettled)) (ack_capacity p) (Z.of_nat (before - after)))
   else None, kept, p).
Definition admit_upload_input (items : list Item) (live_index : ScanIndex) p : option ErrorLayer * list Item * Progress Stored :=
  admit_upload_input_with_unsettled_limit items live_index (Z.to_nat MAX_UNSETTLED_ACKS) p.
Definition admit_ack_reoffers (probes : list Item) p : option ErrorLayer :=
  let offered := fingerprints probes in
  let held := Z.of_nat (size (accepted_fingerprints p)) in
  if negb (bool_decide (offered = ∅)) &&
     (ack_capacity p <? saturating_add 64 held (Z.of_nat (size (offered ∖ accepted_fingerprints p))))
  then Some (AckSettlementRequired held (retained_stale_ack_count p) (ack_capacity p) (Z.of_nat (size offered))) else None.
End Input.

(** ** Planning a retirement *)
Definition complete_census_ack_retirements scanned (census_complete : bool) p : gset string :=
  if negb census_complete || upload_progress_ack_incidence_unknown scanned then ∅
  else accepted_fingerprints p ∖ upload_progress_ack_incidence scanned.
(** The exact bodies a committed handoff of this destination authorizes. *)
Definition committed_handoff i p : option UploadAckRetirementHandoff :=
  try? h := upload_ack_retirement_handoff i in
  if bool_decide (handoff_destination h = destination_namespace_hash p) && (0 <? committed_generation h) &&
     (committed_generation h <=? index_generation i) then Some h else None.
Definition acked p (listed : gmap string string) : gmap string string :=
  filter (fun e => accepted_body_witnesses p !! e.1 = Some e.2) listed.
Definition retirement_obligations previous p : gset string :=
  let candidates := match committed_handoff previous p with
    | Some h => dom (acked p (bodies h)) ∪ dom (acked p (pending_bodies h))
    | None => ∅
    end in
  if 0 <? index_generation previous
  then candidates ∪ (upload_progress_ack_incidence previous ∩ accepted_fingerprints p) else candidates.
Definition ack_retirement_scan_references previous scanned p : gset string :=
  upload_progress_ack_incidence scanned ∩ retirement_obligations previous p.

(** Whether the obligation of an entity has to wait. *)
Definition stays_pending selected (scan_referenced locally_held : gset string) (fp : string) : bool :=
  upload_progress_ack_incidence_unknown selected || bool_decide (fp ∈ locally_held) || decode_holds_entity selected fp ||
  (bool_decide (fp ∈ scan_referenced) && negb (bool_decide (fp ∈ upload_progress_ack_incidence selected))).
(** The acknowledged bodies of the obligations: those to retire by this commit, and those to keep pending. *)
Definition obliged_bodies previous (census_absent : gset string) p : gmap string string :=
  filter (fun e => e.1 ∈ retirement_obligations previous p ∪ census_absent) (accepted_body_witnesses p).
Definition bodies_due previous selected (scan_referenced locally_held census_absent : gset string) p : gmap string string :=
  filter (fun e => stays_pending selected scan_referenced locally_held e.1 = false /\
                   e.1 ∉ upload_progress_ack_incidence selected) (obliged_bodies previous census_absent p).
Definition bodies_pending previous selected (scan_referenced locally_held census_absent : gset string) p : gmap string string :=
  filter (fun e => stays_pending selected scan_referenced locally_held e.1 = true) (obliged_bodies previous census_absent p).
(** The index to save with its handoff; [None]: the generation overflows. *)
Definition stage_ack_retirement_handoff_with_scan previous selected (scan_referenced locally_held census_absent : gset string) p :
    option ScanIndex :=
  let due := bodies_due previous selected scan_referenced locally_held census_absent p in
  let pending := bodies_pending previous selected scan_referenced locally_held census_absent p in
  if bool_decide (due = ∅) && bool_decide (pending = ∅) then Some (with_handoff None selected)
  else
    try? generation := checked_add 64 (index_generation selected) 1 in
    Some (with_handoff (Some (mkHandoff (destination_namespace_hash p) generation due pending)) selected).

Definition committed_incidence_retirements committed selected p : gset string :=
  if (index_generation committed =? 0) || upload_progress_ack_incidence_unknown selected then ∅
  else filter (fun fp => decode_holds_entity selected fp = false)
    ((upload_progress_ack_incidence committed ∩ accepted_fingerprints p) ∖ upload_progress_ack_incidence selected).
Definition saved_handoff_retirements saved p : gset string :=
  match committed_handoff saved p with
  | None => ∅
  | Some h =>
      if upload_progress_ack_incidence_unknown saved then ∅
      else filter (fun fp => decode_holds_entity saved fp = false) (dom (acked p (bodies h))) ∖ upload_progress_ack_incidence saved
  end.

(** The index to save, and the plan of the final step. *)
Definition stage_selected_ack_retirement previous selected (scan_referenced locally_held census_absent : gset string) p :
    option (ScanIndex * gset string) :=
  try? staged := stage_ack_retirement_handoff_with_scan previous selected scan_referenced locally_held census_absent p in
  Some (staged, committed_incidence_retirements previous staged p ∖ scan_referenced).
Definition add_saved_handoff_retirements (plan : gset string) saved p : gset string := plan ∪ saved_handoff_retirements saved p.

(** ** Retiring *)
Definition keep_acks (kept : string -> bool) p : Progress Stored :=
  let witnesses := filter (fun e => kept e.1 = true) (accepted_body_witnesses p) in
  p {{ accepted_body_witnesses := (witnesses : gmap string string) }}
    {{ accepted_fingerprints := (accepted_fingerprints p ∩ dom witnesses : gset string) }}.
Definition retire_listed_acks_after_index_save saved (retired locally_held : gset string) p : Progress Stored :=
  if index_generation saved =? 0 then p
  else
    let adopted := adopted_upload_progress_acks sha256 saved (accepted_body_witnesses p) in
    keep_acks (fun fp => bool_decide (fp ∈ locally_held) || decode_holds_entity saved fp ||
      negb (bool_decide (fp ∈ adopted) || (negb (upload_progress_ack_incidence_unknown saved) && bool_decide (fp ∈ retired)))) p.
Definition release_acks_after_partial_index_save_with_scan previous saved (scan_referenced locally_held : gset string)
    (keep_adopted_for_retry : bool) p : Progress Stored :=
  let retired := (committed_incidence_retirements previous saved p ∪ saved_handoff_retirements saved p) ∖ scan_referenced in
  let p := if keep_adopted_for_retry
    then keep_acks (fun fp => negb (bool_decide (fp ∈ retired)) || bool_decide (fp ∈ locally_held)) p
    else retire_listed_acks_after_index_save saved retired locally_held p in
  configure_ack_capacity saved p.

(** [recover_ack_retirement_handoff]: the ledger after its cleanup, ... *)
Definition recovered_ledger saved p : Progress Stored :=
  let retired := saved_handoff_retirements saved p in
  p {{ accepted_body_witnesses := (filter (fun e => e.1 ∉ retired) (accepted_body_witnesses p) : gmap string string) }}
    {{ accepted_fingerprints := (accepted_fingerprints p ∖ retired : gset string) }}.
(** ... and the index with what of the handoff is left, unless there is nothing to save. *)
Definition recovered_index saved p : option ScanIndex :=
  try? h := committed_handoff saved p in
  let now := acked p (bodies h) in
  let pending := acked p (pending_bodies h) in
  let count := (size now + size pending)%nat in
  if bool_decide (count = size (bodies h) + size (pending_bodies h))%nat && bool_decide (0 < count)%nat then None
  else
    let left_ := if bool_decide (0 < count)%nat
      then Some (mkHandoff (handoff_destination h) (committed_generation h) now pending) else None in
    Some ((with_handoff left_ saved) {{ index_generation := index_generation saved + 1 }}).
End Ledger.

(** ** Cycles over the two files *)
Section Cycles.
Context {Stored : Type} (sha256 : list Z -> list Z).
Record Store := mkStore { stored_index : ScanIndex; stored_ledger : Progress Stored }.
(** The last save of a cycle that reaches the disk. *)
Inductive Cut := NoSave | RecoveredLedger | RecoveredIndex | UploadedLedger | SavedIndex | Whole.
Definition saves (c : Cut) : nat :=
  match c with NoSave => 0 | RecoveredLedger => 1 | RecoveredIndex => 2 | UploadedLedger => 3 | SavedIndex => 4 | Whole => 5 end.
Definition reaches (c at_ : Cut) : bool := bool_decide (saves at_ <= saves c)%nat.

Record SourceCycle := mkSourceCycle {
  scanned : ScanIndex;
  census_complete : bool;
  uploaded : Progress Stored -> Progress Stored;
  (** The index the settlement selected; a partial checkpoint keeps its release
      for the retry or not. *)
  selected : ScanIndex;
  partial : option bool;
  locally_held : gset string;
  cut : Cut;
}.

(** What a cycle saves carries the generation it loaded. *)
Definition based_on (previous i : ScanIndex) : ScanIndex := i {{ index_generation := index_generation previous }}.
Definition save_index (i : ScanIndex) : ScanIndex := i {{ index_generation := index_generation i + 1 }}.
Definition recover_handoff (c : Cut) (st : Store) : Store :=
  let i := stored_index st in
  let p := recovered_ledger i (stored_ledger st) in
  mkStore (if reaches c RecoveredIndex then default i (recovered_index i p) else i)
          (if reaches c RecoveredLedger then p else stored_ledger st).

(** The selected save and the step after it ([None]: the staging fails), ... *)
Definition selected_finish (previous selected : ScanIndex) (referenced locally_held absent : gset string) (p : Progress Stored) :
    option (ScanIndex * Progress Stored) :=
  try? (staged, plan) := stage_selected_ack_retirement previous selected referenced locally_held absent p in
  let saved := save_index staged in
  Some (saved, retire_listed_acks_after_index_save sha256 saved (add_saved_handoff_retirements plan saved p) locally_held p).
(** ... and those of a page that did not go through. *)
Definition partial_checkpoint (previous selected : ScanIndex) (referenced locally_held absent : gset string) (keep_adopted_for_retry : bool)
    (p : Progress Stored) : option (ScanIndex * Progress Stored) :=
  try? staged := stage_ack_retirement_handoff_with_scan previous selected referenced locally_held absent p in
  let saved := save_index staged in
  Some (saved, release_acks_after_partial_index_save_with_scan sha256 previous saved referenced locally_held keep_adopted_for_retry p).
(** The whole pass takes its census before the upload. *)
Definition finish (c : SourceCycle) (previous : ScanIndex) (before p : Progress Stored) : option (ScanIndex * Progress Stored) :=
  let absent := complete_census_ack_retirements (scanned c) (census_complete c)
    (if bool_decide (partial c = None) then before else p) in
  let referenced := ack_retirement_scan_references previous (scanned c) p in
  let selected := based_on previous (selected c) in
  match partial c with
  | None => selected_finish previous selected referenced (locally_held c) absent p
  | Some keep_adopted_for_retry => partial_checkpoint previous selected referenced (locally_held c) absent keep_adopted_for_retry p
  end.
Definition source_cycle (st : Store) (c : SourceCycle) : Store :=
  let st := recover_handoff (cut c) st in
  if negb (reaches (cut c) RecoveredIndex) then st
  else
    let before := configure_ack_capacity (stored_index st) (stored_ledger st) in
    let p := uploaded c before in
    if negb (reaches (cut c) UploadedLedger) then st
    else match finish c (stored_index st) before p with
      | None => mkStore (stored_index st) p
      | Some (saved, after) =>
          mkStore (if reaches (cut c) SavedIndex then saved else stored_index st) (if reaches (cut c) Whole then after else p)
      end.
Definition source_cycles (cs : list SourceCycle) (st : Store) : Store := foldl source_cycle st cs.
End Cycles.
Arguments Store : clear implicits.
Arguments SourceCycle : clear implicits.
