(* ===== verification/AckRetentionLaws.v ===== *)
(** Acknowledgements across cycles, errors and crashes (AckRetention): one the
    scan still finds is kept, one it no longer finds is retired, and a crash
    between the two saves of a cycle changes neither. *)
From stdpp Require Import gmap strings.
From S2P Require Import Prelude.
From S2P Require Import UploadLedger.
From S2P Require Import AckRetention.
From coqutil Require Import Datatypes.RecordSetters.
Import DoubleBraceUpdate.
Local Open Scope Z_scope.

Section Laws.
Context {Stored : Type} (sha256 : list Z -> list Z).
Implicit Types (p : Progress Stored) (i previous scanned selected saved : ScanIndex) (c : SourceCycle Stored) (st : Store Stored).
Abbreviation incidence := upload_progress_ack_incidence.
Abbreviation acks := (accepted_body_witnesses (Stored := Stored)).

(** A ledger acknowledges the entities it has bodies for. *)
Definition valid_acks p : Prop := dom (acks p) = accepted_fingerprints p.

(** ** What retention reads of an index *)
Lemma with_handoff_reads h i : incidence (with_handoff h i) = incidence i /\
  upload_progress_ack_incidence_unknown (with_handoff h i) = upload_progress_ack_incidence_unknown i /\
  decode_holds_entity (with_handoff h i) = decode_holds_entity i /\ index_generation (with_handoff h i) = index_generation i /\
  upload_ack_retirement_handoff (with_handoff h i) = h.
Proof. by destruct i. Qed.
Lemma save_index_reads i : incidence (save_index i) = incidence i /\
  upload_progress_ack_incidence_unknown (save_index i) = upload_progress_ack_incidence_unknown i /\
  decode_holds_entity (save_index i) = decode_holds_entity i /\ index_generation (save_index i) = index_generation i + 1 /\
  upload_ack_retirement_handoff (save_index i) = upload_ack_retirement_handoff i.
Proof. by destruct i. Qed.
Lemma based_on_reads previous i : incidence (based_on previous i) = incidence i /\
  upload_progress_ack_incidence_unknown (based_on previous i) = upload_progress_ack_incidence_unknown i /\
  decode_holds_entity (based_on previous i) = decode_holds_entity i /\ index_generation (based_on previous i) = index_generation previous.
Proof. by destruct i. Qed.
Lemma adopted_reads i i' : files i' = files i -> file_snapshot_fingerprints i' = file_snapshot_fingerprints i ->
  accepted_snapshot_fingerprints i' = accepted_snapshot_fingerprints i -> held_files i' = held_files i ->
  held_entities i' = held_entities i -> persistence_available i' = persistence_available i -> family_held i' = family_held i ->
  adopted_upload_progress_acks sha256 i' = adopted_upload_progress_acks sha256 i.
Proof. destruct i, i'; cbn. by intros -> -> -> -> -> -> ->. Qed.
Lemma save_index_adopts h previous i :
  adopted_upload_progress_acks sha256 (save_index (with_handoff h (based_on previous i))) = adopted_upload_progress_acks sha256 i.
Proof. by apply adopted_reads; destruct i. Qed.

Lemma acked_lookup p listed fp body : acked p listed !! fp = Some body <-> acks p !! fp = Some body /\ listed !! fp = Some body.
Proof. unfold acked. rewrite map_lookup_filter_Some. cbn. tauto. Qed.
Lemma keep_acks_lookup kept p fp : acks (keep_acks kept p) !! fp = if kept fp then acks p !! fp else None.
Proof.
  destruct p. unfold keep_acks. cbn. unfold constant. rewrite map_lookup_filter.
  destruct (_ !! fp); cbn; [|by destruct (kept fp)]. destruct (kept fp); cbn; repeat case_guard; done.
Qed.
Lemma keep_acks_valid kept p : valid_acks p -> valid_acks (keep_acks kept p).
Proof.
  unfold valid_acks. destruct p. unfold keep_acks. cbn. unfold constant. intros <-. apply set_eq. intros fp.
  rewrite elem_of_intersection, !elem_of_dom. split; [|by intros [_ ?]]. intros H. split; [|done].
  destruct H as [body Hb]. apply map_lookup_filter_Some in Hb as [Hb _]. by exists body.
Qed.
Lemma configure_acks i p : acks (configure_ack_capacity i p) = acks p /\
  accepted_fingerprints (configure_ack_capacity i p) = accepted_fingerprints p.
Proof. by destruct p. Qed.
Lemma configure_destination i p : destination_namespace_hash (configure_ack_capacity i p) = destination_namespace_hash p.
Proof. by destruct p. Qed.
Lemma recovered_lookup saved p fp :
  acks (recovered_ledger saved p) !! fp = if bool_decide (fp ∈ saved_handoff_retirements saved p) then None else acks p !! fp.
Proof.
  destruct p. unfold recovered_ledger. cbn -[saved_handoff_retirements]. unfold constant. rewrite map_lookup_filter.
  destruct (_ !! fp); cbn -[saved_handoff_retirements]; [|by case_bool_decide]. repeat (case_guard || case_bool_decide); done.
Qed.
Lemma recovered_valid saved p : valid_acks p -> valid_acks (recovered_ledger saved p).
Proof.
  unfold valid_acks. intros Hv. apply set_eq. intros fp. rewrite elem_of_dom, recovered_lookup.
  assert (accepted_fingerprints (recovered_ledger saved p) = accepted_fingerprints p ∖ saved_handoff_retirements saved p) as -> by by destruct p.
  rewrite elem_of_difference, <-Hv, elem_of_dom. case_bool_decide; [|tauto]. split; [by intros []|tauto].
Qed.
Lemma handoff_retires saved p fp : fp ∈ saved_handoff_retirements saved p <->
  exists h body, committed_handoff saved p = Some h /\ upload_progress_ack_incidence_unknown saved = false /\
    acks p !! fp = Some body /\ bodies h !! fp = Some body /\ (fp ∉ incidence saved) /\ decode_holds_entity saved fp = false.
Proof.
  unfold saved_handoff_retirements. destruct (committed_handoff saved p) as [h|]; [|split; [set_solver|by intros (? & ? & ? & _)]].
  destruct (upload_progress_ack_incidence_unknown saved); [split; [set_solver|by intros (? & ? & _ & ? & _)]|].
  rewrite elem_of_difference, elem_of_filter, elem_of_dom. split.
  - intros [[Hd [body Hb]] Hi]. apply acked_lookup in Hb as [??]. by exists h, body.
  - intros (? & body & [= <-] & _ & Ha & Hb & Hi & Hd). split; [|done]. split; [done|]. exists body. by apply acked_lookup.
Qed.
Lemma committed_same i p h : committed_handoff i p = Some h -> upload_ack_retirement_handoff i = Some h.
Proof. unfold committed_handoff. destruct (upload_ack_retirement_handoff i); [|done]. case_match; congruence. Qed.

(** ** What staging lists *)
Record stages previous selected (referenced locally_held absent : gset string) p staged : Prop := {
  staged_from : exists h, staged = with_handoff h selected;
  staged_lists : forall h fp body, upload_ack_retirement_handoff staged = Some h -> bodies h !! fp = Some body ->
    acks p !! fp = Some body /\ fp ∈ retirement_obligations previous p ∪ absent /\
    stays_pending selected referenced locally_held fp = false /\ fp ∉ incidence selected;
  staged_all : forall fp body, acks p !! fp = Some body -> fp ∈ retirement_obligations previous p ∪ absent ->
    stays_pending selected referenced locally_held fp = false -> fp ∉ incidence selected ->
    exists h, upload_ack_retirement_handoff staged = Some h /\ bodies h !! fp = Some body /\
      handoff_destination h = destination_namespace_hash p /\ committed_generation h = index_generation selected + 1;
}.
Lemma stage_spec previous selected referenced locally_held absent p staged :
  stage_ack_retirement_handoff_with_scan previous selected referenced locally_held absent p = Some staged ->
  stages previous selected referenced locally_held absent p staged.
Proof.
  unfold stage_ack_retirement_handoff_with_scan. set (due := bodies_due _ _ _ _ _ _). intros Hs.
  assert (Hdue : forall fp body, due !! fp = Some body <-> acks p !! fp = Some body /\ fp ∈ retirement_obligations previous p ∪ absent /\
    stays_pending selected referenced locally_held fp = false /\ fp ∉ incidence selected).
  { intros fp body. unfold due, bodies_due, obliged_bodies. rewrite !map_lookup_filter_Some. cbn. tauto. }
  destruct (bool_decide (due = ∅) && _) eqn:E.
  - injection Hs as <-. apply andb_true_iff in E as [E _]. apply bool_decide_eq_true in E.
    destruct (with_handoff_reads None selected) as (_ & _ & _ & _ & Hh). split; [by eexists|congruence|].
    intros fp body Ha Hc Hp Hi. assert (due !! fp = Some body) as Hl by by apply Hdue. by rewrite E in Hl.
  - destruct (checked_add 64 _ 1) as [g|] eqn:Eg; [|done]. injection Hs as <-. unfold checked_add in Eg. apply try_uint_Some in Eg as [-> _].
    set (h := mkHandoff _ _ _ _). destruct (with_handoff_reads (Some h) selected) as (_ & _ & _ & _ & Hh).
    split; [by eexists|rewrite Hh; by intros h' fp body [= <-] Hb; apply Hdue|]. rewrite Hh. intros fp body Ha Hc Hp Hi.
    exists h. split; [done|]. split; [by apply Hdue|done].
Qed.
Lemma staged_reads previous selected referenced locally_held absent p staged :
  stages previous selected referenced locally_held absent p staged ->
  incidence staged = incidence selected /\ upload_progress_ack_incidence_unknown staged = upload_progress_ack_incidence_unknown selected /\
  (forall fp, decode_holds_entity staged fp = decode_holds_entity selected fp) /\ index_generation staged = index_generation selected.
Proof. intros [[h ->] _ _]. by destruct selected. Qed.

(** ** An acknowledgement the scan still finds *)
Section Found.
Context (fp body : string).
(** The disk acknowledges the body, and no handoff on it retires that. *)
Record found_kept st : Prop := {
  found_acked : acks (stored_ledger st) !! fp = Some body;
  found_unlisted : forall h, upload_ack_retirement_handoff (stored_index st) = Some h -> bodies h !! fp <> Some body;
  found_generation : 0 <= index_generation (stored_index st);
}.
(** The cycle's scan finds the entity, its upload does not replace the body and
    the index it saves has not adopted it. *)
Definition finds c : Prop :=
  fp ∈ incidence (scanned c) /\
  (forall p, acks p !! fp = Some body -> acks (uploaded c p) !! fp = Some body) /\
  forall adopting, fp ∉ adopted_upload_progress_acks sha256 (selected c) adopting.

Lemma recover_handoff_found at_ st : found_kept st -> found_kept (recover_handoff at_ st).
Proof.
  intros [Ha Hh Hg]. destruct st as [i p]. unfold recover_handoff. cbn [stored_index stored_ledger] in *.
  assert (Hr : acks (recovered_ledger i p) !! fp = Some body).
  { rewrite recovered_lookup. case_bool_decide as Hin; [|done]. apply handoff_retires in Hin as (h & b & Hc & _ & Hb & Hl & _).
    apply committed_same in Hc. exfalso. apply (Hh h); [done|congruence]. }
  split; cbn [stored_index stored_ledger].
  - by destruct (reaches at_ RecoveredLedger).
  - destruct (reaches at_ RecoveredIndex); [|done]. destruct (recovered_index i _) as [i'|] eqn:Ei; [|done]. cbn [default].
    unfold recovered_index in Ei. destruct (committed_handoff i _) as [h0|] eqn:Ec; [|done]. apply committed_same in Ec.
    destruct (bool_decide _ && _); [done|]. injection Ei as <-. intros h Eh Hb. destruct i. cbn in Eh, Ec.
    destruct (bool_decide _); [|done]. injection Eh as <-. cbn in Hb. apply acked_lookup in Hb as [_ Hb]. by apply (Hh h0).
  - destruct (reaches at_ RecoveredIndex); [|done]. destruct (recovered_index i _) as [i'|] eqn:Ei; [|done]. cbn [default].
    unfold recovered_index in Ei. destruct (committed_handoff i _); [|done]. destruct (bool_decide _ && _); [done|].
    injection Ei as <-. destruct i. cbn in *. unfold constant. lia.
Qed.

(** Staged by a cycle that finds the entity, no handoff lists it, ... *)
Lemma staged_found previous scanned selected locally_held absent p staged :
  stages previous selected (ack_retirement_scan_references previous scanned p) locally_held absent p staged ->
  fp ∈ incidence scanned -> fp ∉ absent ->
  forall h, upload_ack_retirement_handoff staged = Some h -> bodies h !! fp = None.
Proof.
  intros [_ Hl _] Hs Hn h Hh. destruct (bodies h !! fp) as [b|] eqn:Eb; [|done]. exfalso.
  destruct (Hl _ _ _ Hh Eb) as (_ & [Ho|?]%elem_of_union & Hp & Hi); [|done].
  unfold stays_pending in Hp. rewrite (bool_decide_eq_true_2 (fp ∈ ack_retirement_scan_references _ _ _)) in Hp
    by (unfold ack_retirement_scan_references; set_solver).
  rewrite (bool_decide_eq_false_2 (fp ∈ incidence selected)) in Hp by done. by rewrite orb_true_r in Hp.
Qed.
(** ... and no plan names it. *)
Lemma committed_found previous scanned selected p : 0 <= index_generation previous -> fp ∈ incidence scanned ->
  fp ∉ committed_incidence_retirements previous selected p ∖ ack_retirement_scan_references previous scanned p.
Proof.
  intros Hg Hs [Hc Hr]%elem_of_difference. unfold committed_incidence_retirements in Hc.
  destruct (Z.eqb_spec (index_generation previous) 0); [set_solver|]. destruct (upload_progress_ack_incidence_unknown selected); [set_solver|].
  apply elem_of_filter in Hc as [_ Hc]. apply Hr. unfold ack_retirement_scan_references, retirement_obligations.
  rewrite (proj2 (Z.ltb_lt _ _)) by lia. set_solver.
Qed.
Lemma absent_found scanned complete p : fp ∈ incidence scanned -> fp ∉ complete_census_ack_retirements scanned complete p.
Proof. intros Hs. unfold complete_census_ack_retirements. destruct (_ || _); set_solver. Qed.
Lemma handoff_found saved p : (forall h, upload_ack_retirement_handoff saved = Some h -> bodies h !! fp = None) ->
  fp ∉ saved_handoff_retirements saved p.
Proof. intros Hh (h & b & Hc & _ & _ & Hb & _)%handoff_retires. apply committed_same, Hh in Hc. congruence. Qed.
Lemma retire_found saved retired locally_held p : acks p !! fp = Some body -> fp ∉ retired ->
  fp ∉ adopted_upload_progress_acks sha256 saved (acks p) ->
  acks (retire_listed_acks_after_index_save sha256 saved retired locally_held p) !! fp = Some body.
Proof.
  intros Ha Hr Hd. unfold retire_listed_acks_after_index_save. case_match; [done|]. rewrite keep_acks_lookup.
  rewrite (bool_decide_eq_false_2 (fp ∈ adopted_upload_progress_acks _ _ _)), (bool_decide_eq_false_2 (fp ∈ retired)) by done.
  by rewrite andb_false_r, !orb_true_r.
Qed.

Lemma finish_staged c previous before p saved after : finish sha256 c previous before p = Some (saved, after) ->
  exists staged, saved = save_index staged /\
    stages previous (based_on previous (selected c)) (ack_retirement_scan_references previous (scanned c) p) (locally_held c)
      (complete_census_ack_retirements (scanned c) (census_complete c) (if bool_decide (partial c = None) then before else p)) p staged /\
    after = match partial c with
      | None => retire_listed_acks_after_index_save sha256 saved (add_saved_handoff_retirements
          (committed_incidence_retirements previous staged p ∖ ack_retirement_scan_references previous (scanned c) p) saved p) (locally_held c) p
      | Some keep => release_acks_after_partial_index_save_with_scan sha256 previous saved
          (ack_retirement_scan_references previous (scanned c) p) (locally_held c) keep p
      end.
Proof.
  unfold finish, selected_finish, partial_checkpoint, stage_selected_ack_retirement. intros Hf.
  destruct (partial c); destruct (stage_ack_retirement_handoff_with_scan _ _ _ _ _ _) as [staged|] eqn:Est; try done;
    injection Hf as <- <-; apply stage_spec in Est; by exists staged.
Qed.
(** The index a cycle saves does not retire what its scan found, ... *)
Lemma finish_unlisted c previous before p saved after : 0 <= index_generation previous -> finds c ->
  finish sha256 c previous before p = Some (saved, after) ->
  0 <= index_generation saved /\ forall h, upload_ack_retirement_handoff saved = Some h -> bodies h !! fp = None.
Proof.
  intros Hg (Hs & _) (staged & -> & Hst & _)%finish_staged. destruct (based_on_reads previous (selected c)) as (_ & _ & _ & Hgen).
  destruct (staged_reads _ _ _ _ _ _ _ Hst) as (_ & _ & _ & Hsg). destruct (save_index_reads staged) as (_ & _ & _ & Hg2 & Hh2).
  split; [lia|]. rewrite Hh2. exact (staged_found _ _ _ _ _ _ _ Hst Hs (absent_found _ _ _ Hs)).
Qed.
(** ... and the step after it keeps it acknowledged. *)
Lemma finish_found c previous before p saved after : 0 <= index_generation previous -> acks p !! fp = Some body -> finds c ->
  finish sha256 c previous before p = Some (saved, after) -> found_kept (mkStore saved after).
Proof.
  intros Hg Ha Hc Hf. destruct (finish_unlisted _ _ _ _ _ _ Hg Hc Hf) as [Hg2 Hl]. destruct Hc as (Hs & _ & Hd).
  apply finish_staged in Hf as (staged & -> & Hst & ->).
  assert (Had : fp ∉ adopted_upload_progress_acks sha256 (save_index staged) (acks p)).
  { destruct Hst as [[h ->] _ _]. rewrite save_index_adopts. apply Hd. }
  split; cbn [stored_index stored_ledger]; [|intros h Hh; by rewrite (Hl h Hh)|done]. destruct (partial c) as [keep_adopted|].
  - assert (Hrel : fp ∉ (committed_incidence_retirements previous (save_index staged) p ∪ saved_handoff_retirements (save_index staged) p)
      ∖ ack_retirement_scan_references previous (scanned c) p).
    { rewrite difference_union_distr_l, not_elem_of_union. split; [by apply committed_found|]. pose proof (handoff_found _ p Hl). set_solver. }
    unfold release_acks_after_partial_index_save_with_scan. rewrite (proj1 (configure_acks _ _)). destruct keep_adopted.
    + rewrite keep_acks_lookup. by rewrite (bool_decide_eq_false_2 _ Hrel).
    + by apply retire_found.
  - apply retire_found; [done| |done]. unfold add_saved_handoff_retirements. rewrite not_elem_of_union.
    split; [by apply committed_found|by apply handoff_found].
Qed.
Lemma recover_generation at_ st : index_generation (stored_index st) <= index_generation (stored_index (recover_handoff at_ st)) <=
  index_generation (stored_index st) + 1.
Proof.
  destruct st as [i p]. unfold recover_handoff. cbn [stored_index stored_ledger]. destruct (reaches at_ RecoveredIndex); [|cbn; lia].
  destruct (recovered_index i _) as [i'|] eqn:Ei; cbn [default stored_index]; [|cbn; lia]. unfold recovered_index in Ei.
  destruct (committed_handoff i _); [|done]. destruct (bool_decide _ && _); [done|]. injection Ei as <-. destruct i. cbn. unfold constant. lia.
Qed.
Lemma cycle_found st c : found_kept st -> finds c -> found_kept (source_cycle sha256 st c).
Proof.
  intros Hk Hc. unfold source_cycle. apply (recover_handoff_found (cut c)) in Hk. destruct (recover_handoff (cut c) st) as [i p].
  cbn [stored_index stored_ledger]. destruct (negb _); [done|]. destruct (negb _); [done|].
  destruct Hk as [Ha Hh Hg]. cbn in Ha, Hh, Hg. set (before := configure_ack_capacity i p).
  assert (Hup : acks (uploaded c before) !! fp = Some body) by (apply Hc; unfold before; by rewrite (proj1 (configure_acks i p))).
  destruct (finish sha256 c i before _) as [[saved after]|] eqn:Ef; [|by split].
  pose proof (finish_found _ _ _ _ _ _ Hg Hup Hc Ef) as [Ha' Hh' Hg']. cbn in Ha', Hh', Hg'.
  split; cbn [stored_index stored_ledger]; [by destruct (reaches (cut c) Whole)|by destruct (reaches (cut c) SavedIndex)..].
Qed.
Lemma kept_all p listed waiting : (size (acked p listed) + size (acked p waiting) = size listed + size waiting)%nat -> acked p listed = listed.
Proof.
  intros Hs. assert (Hf : forall m : gmap string string, acked p m ⊆ m) by (intros m; apply map_filter_subseteq).
  pose proof (map_subseteq_size _ _ (Hf listed)). pose proof (map_subseteq_size _ _ (Hf waiting)). apply map_subseteq_size_eq; [apply Hf|lia].
Qed.
Lemma recovered_committed i p : committed_handoff i (recovered_ledger i p) = committed_handoff i p.
Proof. by destruct p. Qed.
(** A recovery that rewrites the index leaves no decision to retire a body the
    ledger does not acknowledge. *)
Definition undecided st : Prop := forall h, upload_ack_retirement_handoff (stored_index st) = Some h -> bodies h !! fp = Some body ->
  committed_handoff (stored_index st) (stored_ledger st) = Some h /\ acks (stored_ledger st) !! fp <> Some body.
Lemma undecided_kept st : 0 <= index_generation (stored_index st) -> undecided st -> acks (stored_ledger st) !! fp = Some body -> found_kept st.
Proof. intros Hg Hu Ha. split; [done| |done]. intros h Hh Hb. by apply (Hu h Hh Hb). Qed.
Lemma found_undecided st : found_kept st -> undecided st.
Proof. intros [_ Hn _] h Hh Hb. by destruct (Hn h Hh). Qed.
Lemma recovered_undecided at_ st : 0 <= index_generation (stored_index st) -> undecided st -> undecided (recover_handoff at_ st) /\
  (reaches at_ RecoveredIndex = true -> forall h, upload_ack_retirement_handoff (stored_index (recover_handoff at_ st)) = Some h -> bodies h !! fp <> Some body).
Proof.
  intros Hg Hu. destruct (decide (acks (stored_ledger st) !! fp = Some body)) as [Ha|Ha].
  { pose proof (recover_handoff_found at_ st (undecided_kept st Hg Hu Ha)) as Hk. split; [by apply found_undecided|]. intros _. apply Hk. }
  destruct st as [i p]. unfold recover_handoff, undecided. cbn [stored_index stored_ledger] in *.
  assert (Hr : acks (recovered_ledger i p) !! fp <> Some body) by (rewrite recovered_lookup; by case_bool_decide).
  assert (Hi : forall h, upload_ack_retirement_handoff (default i (recovered_index i (recovered_ledger i p))) = Some h -> bodies h !! fp <> Some body).
  { intros h Hh Hb. unfold recovered_index in Hh. destruct (committed_handoff i (recovered_ledger i p)) as [h0|] eqn:Ec.
    - destruct (bool_decide _ && bool_decide _) eqn:Eall; cbn [default] in Hh.
      + apply andb_true_iff in Eall as [Eall%bool_decide_eq_true _]. pose proof (committed_same _ _ _ Ec) as Hs.
        rewrite Hs in Hh. injection Hh as ->. apply (kept_all (recovered_ledger i p) (bodies h) (pending_bodies h)) in Eall.
        rewrite <-Eall in Hb. by apply acked_lookup in Hb as [? _].
      + revert Hh Hr. generalize (recovered_ledger i p). intros q Hh Hr. destruct i. cbn in Hh. unfold constant in Hh.
        match type of Hh with (if ?b then _ else _) = _ => destruct b; [|done] end. injection Hh as <-. cbn in Hb. by apply acked_lookup in Hb as [? _].
    - destruct (Hu h Hh Hb) as [Hc _]. cbn in Hc. rewrite recovered_committed in Ec. congruence. }
  split; [|intros ->; exact Hi].
  destruct (reaches at_ RecoveredIndex) eqn:E1.
  - intros h Hh Hb. by destruct (Hi h Hh Hb).
  - intros h Hh Hb. destruct (Hu h Hh Hb) as [Hc _]. destruct (reaches at_ RecoveredLedger); [|done].
    by rewrite recovered_committed.
Qed.
Lemma cycle_undecided st c : 0 <= index_generation (stored_index st) -> undecided st -> finds c ->
  0 <= index_generation (stored_index (source_cycle sha256 st c)) /\ undecided (source_cycle sha256 st c).
Proof.
  intros Hg Hu Hc. unfold source_cycle. destruct (recovered_undecided (cut c) st Hg Hu) as [Hu1 Hn]. pose proof (recover_generation (cut c) st) as Hrg.
  destruct (recover_handoff (cut c) st) as [i p]. cbn [stored_index stored_ledger] in *.
  destruct (reaches (cut c) RecoveredIndex) eqn:E1; cbn [negb]; [|split; [cbn [stored_index]; lia|done]]. specialize (Hn eq_refl).
  assert (Hany : forall q, undecided (mkStore i q)) by (intros q h Hh Hb; by destruct (Hn h Hh)).
  destruct (negb _); [split; [cbn [stored_index]; lia|done]|]. set (q := uploaded c _).
  destruct (finish sha256 c i _ q) as [[saved after]|] eqn:Ef; [|split; [cbn [stored_index]; lia|done]]. cbn [stored_index].
  assert (Hgi : 0 <= index_generation i) by lia. destruct (finish_unlisted _ _ _ _ _ _ Hgi Hc Ef) as [Hg' Hl].
  destruct (reaches (cut c) SavedIndex); [|split; [cbn [stored_index]; lia|done]]. split; [done|]. intros h Hh Hb. cbn in Hh. by rewrite (Hl h Hh) in Hb.
Qed.
End Found.

(** C5: An acknowledgement is not forgotten.  Once the ledger on disk acknowledges
    a body, whether from the start or gained in one of the cycles, it does so
    through any further saves, errors and crashes, as long as each scan finds its
    entity, no upload replaces the body and no saved index adopts it, and unless
    the index the cycles started from already carried the decision to retire this
    very body. *)
Theorem found_acks_survive fp body gaining later st : 0 <= index_generation (stored_index st) ->
  (forall h, upload_ack_retirement_handoff (stored_index st) = Some h -> bodies h !! fp = Some body ->
    committed_handoff (stored_index st) (stored_ledger st) = Some h /\ acks (stored_ledger st) !! fp <> Some body) ->
  Forall (finds fp body) (gaining ++ later) -> acks (stored_ledger (source_cycles sha256 gaining st)) !! fp = Some body ->
  acks (stored_ledger (source_cycles sha256 (gaining ++ later) st)) !! fp = Some body.
Proof.
  intros Hg Hh [Hcs Hlater]%Forall_app Ha. change (undecided fp body st) in Hh.
  assert (Hu : 0 <= index_generation (stored_index (source_cycles sha256 gaining st)) /\ undecided fp body (source_cycles sha256 gaining st)).
  { clear Ha. revert st Hg Hh. induction Hcs as [|c cs Hc _ IH]; intros st Hg Hh; [done|].
    destruct (cycle_undecided fp body st c Hg Hh Hc). by apply IH. }
  destruct Hu as [Hg' Hu]. apply found_acked. assert (Hk := undecided_kept _ _ _ Hg' Hu Ha). clear Hg Hh Hcs Ha Hg' Hu.
  unfold source_cycles in *. rewrite foldl_app. revert Hk. generalize (foldl (source_cycle sha256) st gaining).
  induction Hlater as [|c cs Hc _ IH]; intros t Hk; [done|]. by apply IH, cycle_found.
Qed.

(** ** A crash between the two saves *)
Lemma stage_room previous selected referenced locally_held absent p : 0 <= index_generation selected -> index_generation selected + 1 < 2 ^ 64 ->
  exists staged, stage_ack_retirement_handoff_with_scan previous selected referenced locally_held absent p = Some staged.
Proof.
  intros Hg Hm. unfold stage_ack_retirement_handoff_with_scan. destruct (_ && _); [by eexists|].
  rewrite checked_add_eq, (proj2 (Z.ltb_lt _ _)) by lia. by eexists.
Qed.
(** What the saved handoff retires is what staging found due. *)
Lemma staged_retires previous selected referenced locally_held absent p staged fp body :
  stages previous selected referenced locally_held absent p staged -> 0 <= index_generation selected -> acks p !! fp = Some body ->
  fp ∈ saved_handoff_retirements (save_index staged) p <->
  fp ∈ retirement_obligations previous p ∪ absent /\ stays_pending selected referenced locally_held fp = false /\ fp ∉ incidence selected.
Proof.
  intros Hs Hg Ha. destruct (staged_reads _ _ _ _ _ _ _ Hs) as (Hi & Hu & Hd & Hsg).
  destruct (save_index_reads staged) as (Hi2 & Hu2 & Hd2 & Hg2 & Hh2). rewrite handoff_retires. split.
  - intros (h & b & Hc & _ & _ & Hb & _). apply committed_same in Hc. rewrite Hh2 in Hc.
    by destruct (staged_lists _ _ _ _ _ _ _ Hs _ _ _ Hc Hb) as (_ & ? & ? & ?).
  - intros (Hc & Hp & Hn). destruct (staged_all _ _ _ _ _ _ _ Hs _ _ Ha Hc Hp Hn) as (h & Hh & Hb & Hdest & Hgen).
    exists h, body. unfold stays_pending in Hp. repeat (apply orb_false_iff in Hp as [Hp ?]).
    split_and!; [|congruence|done|done|congruence|by rewrite Hd2, Hd].
    unfold committed_handoff. rewrite Hh2, Hh, Hdest, Hgen, Hg2, Hsg, bool_decide_eq_true_2 by done.
    by rewrite (proj2 (Z.ltb_lt _ _)), Z.leb_refl by lia.
Qed.
Lemma committed_due previous selected referenced locally_held p fp : 0 <= index_generation previous ->
  fp ∈ committed_incidence_retirements previous selected p -> fp ∉ referenced -> fp ∉ locally_held ->
  fp ∈ retirement_obligations previous p /\ stays_pending selected referenced locally_held fp = false /\ fp ∉ incidence selected.
Proof.
  intros Hg Hc Hr Hl. unfold committed_incidence_retirements in Hc. destruct (Z.eqb_spec (index_generation previous) 0); [set_solver|].
  destruct (upload_progress_ack_incidence_unknown selected) eqn:Hu; [set_solver|]. cbn in Hc.
  apply elem_of_filter in Hc as [Hd Hc]. split; [|split; [|set_solver]].
  - unfold retirement_obligations. rewrite (proj2 (Z.ltb_lt _ _)) by lia. set_solver.
  - unfold stays_pending. by rewrite Hu, Hd, (bool_decide_eq_false_2 (fp ∈ locally_held)), (bool_decide_eq_false_2 (fp ∈ referenced)) by done.
Qed.

(** The finish of a page that was not a partial checkpoint. *)
Lemma finish_retires c previous before p saved after fp : 0 <= index_generation previous -> partial c = None ->
  finish sha256 c previous before p = Some (saved, after) ->
  acks after !! fp = if bool_decide (fp ∈ adopted_upload_progress_acks sha256 saved (acks p)) &&
                        negb (bool_decide (fp ∈ locally_held c)) && negb (decode_holds_entity saved fp)
                     then None else acks (recovered_ledger saved p) !! fp.
Proof.
  intros Hg Hp Hf. unfold finish, selected_finish, partial_checkpoint in Hf. rewrite Hp in Hf. unfold stage_selected_ack_retirement in Hf.
  destruct (stage_ack_retirement_handoff_with_scan _ _ _ _ _ _) as [staged|] eqn:Es; [|done]. injection Hf as <- <-.
  apply stage_spec in Es. destruct (based_on_reads previous (selected c)) as (_ & _ & _ & Hgb).
  destruct (staged_reads _ _ _ _ _ _ _ Es) as (Hi & Hu & Hd & Hsg). destruct (save_index_reads staged) as (_ & Hu2 & Hd2 & Hg2 & _).
  assert (Hd3 : decode_holds_entity (save_index staged) fp = decode_holds_entity (based_on previous (selected c)) fp).
  { rewrite Hd2. apply Hd. }
  unfold retire_listed_acks_after_index_save. rewrite (proj2 (Z.eqb_neq _ _)) by lia. rewrite keep_acks_lookup, recovered_lookup.
  set (referenced := ack_retirement_scan_references _ _ _) in *. set (absent := complete_census_ack_retirements _ _ _) in *.
  destruct (acks p !! fp) as [body|] eqn:Ea; [|by repeat case_match].
  pose proof (staged_retires _ _ _ _ _ _ _ fp body Es ltac:(lia) Ea) as Hsh.
  assert (Hplan : bool_decide (fp ∈ locally_held c) = false -> decode_holds_entity (save_index staged) fp = false ->
    negb (upload_progress_ack_incidence_unknown (save_index staged)) && bool_decide (fp ∈ add_saved_handoff_retirements
      (committed_incidence_retirements previous staged p ∖ referenced) (save_index staged) p) =
    bool_decide (fp ∈ saved_handoff_retirements (save_index staged) p)).
  { intros Hl Hdec. apply bool_decide_eq_false in Hl. apply eq_true_iff_eq. rewrite andb_true_iff, negb_true_iff, !bool_decide_eq_true.
    unfold add_saved_handoff_retirements. rewrite elem_of_union, elem_of_difference. split; [|intros Hin; split; [|by right]].
    - intros [Hk [[Hc Hr]|?]]; [|done]. apply Hsh. destruct (committed_due _ _ referenced (locally_held c) _ _ Hg Hc Hr Hl) as (Ho & Hst & Hn).
      split; [set_solver|]. unfold stays_pending in *. rewrite Hu, Hi, Hd in Hst. by rewrite Hi in Hn.
    - apply Hsh in Hin as (_ & Hst & _). unfold stays_pending in Hst. rewrite Hu2, Hu. by repeat (apply orb_false_iff in Hst as [Hst _]). }
  destruct (bool_decide (fp ∈ locally_held c)) eqn:El; [|destruct (decode_holds_entity (save_index staged) fp) eqn:Ed].
  1-2: rewrite ?andb_false_r; cbn; rewrite bool_decide_eq_false_2; [done|]; intros (_ & Hst & _)%Hsh; unfold stays_pending in Hst;
    rewrite ?El, <-?Hd3, ?Ed, ?orb_true_r in Hst; done.
  rewrite !orb_false_l, Hplan by done. destruct (bool_decide (fp ∈ adopted_upload_progress_acks _ _ _)), (bool_decide (fp ∈ saved_handoff_retirements _ _)); done.
Qed.

Definition cut_at (at_ : Cut) c : SourceCycle Stored :=
  mkSourceCycle (scanned c) (census_complete c) (uploaded c) (selected c) (partial c) (locally_held c) at_.
(** The saved index took the acknowledgement over. *)
Definition handed_over c st (fp : string) : bool :=
  bool_decide (fp ∈ adopted_upload_progress_acks sha256 (stored_index st) (acks (stored_ledger st))) &&
  negb (bool_decide (fp ∈ locally_held c)) && negb (decode_holds_entity (stored_index st) fp).
Lemma finish_room c previous before p : 0 <= index_generation previous -> index_generation previous + 1 < 2 ^ 64 ->
  exists saved after, finish sha256 c previous before p = Some (saved, after).
Proof.
  intros Hg Hm. unfold finish, selected_finish, partial_checkpoint. destruct (based_on_reads previous (selected c)) as (_ & _ & _ & Hgb).
  destruct (partial c) as [keep_adopted|].
  - destruct (stage_room previous (based_on previous (selected c)) (ack_retirement_scan_references previous (scanned c) p)
      (locally_held c) (complete_census_ack_retirements (scanned c) (census_complete c) p) p) as [staged Hs]; [lia..|].
    rewrite bool_decide_eq_false_2 by done. rewrite Hs. by eexists _, _.
  - unfold stage_selected_ack_retirement.
    destruct (stage_room previous (based_on previous (selected c)) (ack_retirement_scan_references previous (scanned c) p)
      (locally_held c) (complete_census_ack_retirements (scanned c) (census_complete c) before) p) as [staged Hs]; [lia..|].
    rewrite bool_decide_eq_true_2 by done. rewrite Hs. by eexists _, _.
Qed.

(** C9: A crash between the two saves of a cycle costs nothing: the recovery of
    the next start retires exactly what the finish would have retired, but for
    what the saved index adopted, which stays in the ledger. *)
Theorem crash_retires_the_same c st fp :
  0 <= index_generation (stored_index st) -> index_generation (stored_index st) + 2 < 2 ^ 64 -> partial c = None ->
  let whole := source_cycle sha256 st (cut_at Whole c) in
  let crashed := source_cycle sha256 st (cut_at SavedIndex c) in
  stored_index whole = stored_index crashed /\
  acks (stored_ledger whole) !! fp =
    if handed_over c crashed fp then None else acks (stored_ledger (recover_handoff Whole crashed)) !! fp.
Proof.
  intros Hg Hm Hp. unfold source_cycle. change (recover_handoff (cut (cut_at SavedIndex c)) st) with (recover_handoff (cut (cut_at Whole c)) st).
  pose proof (recover_generation (cut (cut_at Whole c)) st) as Hrg. destruct (recover_handoff _ st) as [i p]. cbn [stored_index stored_ledger] in *.
  change (negb _) with false. cbv iota. set (before := configure_ack_capacity i p).
  change (finish sha256 (cut_at SavedIndex c) i before (uploaded (cut_at SavedIndex c) before))
    with (finish sha256 (cut_at Whole c) i before (uploaded (cut_at Whole c) before)).
  destruct (finish_room (cut_at Whole c) i before (uploaded (cut_at Whole c) before)) as (saved & after & Ef); [lia..|].
  rewrite Ef. split; [done|]. exact (finish_retires (cut_at Whole c) i before _ saved after fp ltac:(lia) Hp Ef).
Qed.

(** ** An entity that is gone *)
(** The cycle's scan and census say the entity is gone, the index it saves does
    not list it, nothing holds it, and its upload acknowledges it no more. *)
Record gone (fp : string) c : Prop := {
  gone_census : census_complete c = true;
  gone_known : upload_progress_ack_incidence_unknown (scanned c) = false /\ upload_progress_ack_incidence_unknown (selected c) = false;
  gone_unfound : (fp ∉ incidence (scanned c)) /\ (fp ∉ incidence (selected c));
  gone_unheld : (fp ∉ locally_held c) /\ decode_holds_entity (selected c) fp = false;
  gone_upload : forall p, acks p !! fp = None -> acks (uploaded c p) !! fp = None;
  gone_valid : forall p, valid_acks p -> valid_acks (uploaded c p);
}.
Lemma recovered_gone saved p fp : acks p !! fp = None -> acks (recovered_ledger saved p) !! fp = None.
Proof. intros Ha. rewrite recovered_lookup. by case_bool_decide. Qed.
Lemma census_lists fp c p : gone fp c -> valid_acks p -> is_Some (acks p !! fp) ->
  fp ∈ complete_census_ack_retirements (scanned c) (census_complete c) p.
Proof.
  intros [Hc [Hk _] [Hf _] _ _ _] Hv Ha. unfold complete_census_ack_retirements. rewrite Hc, Hk. cbn.
  rewrite <-Hv. apply elem_of_difference. split; [by apply elem_of_dom|done].
Qed.
(** The handoff a cycle saves retires the entity, ... *)
Lemma gone_listed fp c previous before p saved after : 0 <= index_generation previous -> gone fp c -> valid_acks before -> valid_acks p ->
  (acks before !! fp = None -> acks p !! fp = None) -> finish sha256 c previous before p = Some (saved, after) ->
  acks p !! fp = None \/ fp ∈ saved_handoff_retirements saved p.
Proof.
  intros Hg Hgone Hvb Hvp Hup Hf. destruct (acks p !! fp) as [body|] eqn:Ea; [right|by left].
  assert (Habs : fp ∈ complete_census_ack_retirements (scanned c) (census_complete c) (if bool_decide (partial c = None) then before else p)).
  { apply census_lists; [done|by case_bool_decide|]. case_bool_decide; [|by rewrite Ea; eexists].
    destruct (acks before !! fp); [by eexists|]. by specialize (Hup eq_refl). }
  destruct (based_on_reads previous (selected c)) as (Hi & Hu & Hd & Hgb).
  assert (Hst : stays_pending (based_on previous (selected c)) (ack_retirement_scan_references previous (scanned c) p) (locally_held c) fp = false).
  { destruct Hgone as [_ [_ Hk] [Hs Hf'] [Hl Hh] _ _]. unfold stays_pending in *. rewrite Hu, Hk, Hd, Hh.
    rewrite (bool_decide_eq_false_2 (fp ∈ locally_held c)), (bool_decide_eq_false_2 (fp ∈ ack_retirement_scan_references _ _ _)); [done| |done].
    unfold ack_retirement_scan_references. set_solver. }
  assert (Hn : fp ∉ incidence (based_on previous (selected c))) by (rewrite Hi; apply Hgone).
  enough (exists staged, saved = save_index staged /\ stages previous (based_on previous (selected c))
    (ack_retirement_scan_references previous (scanned c) p) (locally_held c)
    (complete_census_ack_retirements (scanned c) (census_complete c) (if bool_decide (partial c = None) then before else p)) p staged)
    as (staged & -> & Hs) by (apply (staged_retires _ _ _ _ _ _ _ fp body Hs); [lia|done|]; split; [set_solver|done]).
  unfold finish, selected_finish, partial_checkpoint in Hf. destruct (partial c) as [keep_adopted|].
  - destruct (stage_ack_retirement_handoff_with_scan _ _ _ _ _ _) as [staged|] eqn:Es; [|done]. injection Hf as <- _.
    exists staged. split; [done|by apply stage_spec].
  - unfold stage_selected_ack_retirement in Hf. destruct (stage_ack_retirement_handoff_with_scan _ _ _ _ _ _) as [staged|] eqn:Es; [|done].
    injection Hf as <- _. exists staged. split; [done|by apply stage_spec].
Qed.
(** ... and its finish acknowledges nothing new. *)
Lemma retire_smaller i retired held p fp :
  (acks (retire_listed_acks_after_index_save sha256 i retired held p) !! fp = None \/
   acks (retire_listed_acks_after_index_save sha256 i retired held p) !! fp = acks p !! fp) /\
  destination_namespace_hash (retire_listed_acks_after_index_save sha256 i retired held p) = destination_namespace_hash p.
Proof.
  unfold retire_listed_acks_after_index_save. case_match; [by split; [right|]|]. rewrite keep_acks_lookup.
  split; [case_match; [by right|by left]|by destruct p].
Qed.
Lemma finish_smaller c previous before p saved after fp : finish sha256 c previous before p = Some (saved, after) ->
  (acks after !! fp = None \/ acks after !! fp = acks p !! fp) /\ destination_namespace_hash after = destination_namespace_hash p.
Proof.
  intros Hf. unfold finish, selected_finish, partial_checkpoint, stage_selected_ack_retirement, release_acks_after_partial_index_save_with_scan in Hf.
  destruct (partial c) as [keep_adopted|]; (destruct (stage_ack_retirement_handoff_with_scan _ _ _ _ _ _) as [staged|]; [|done]); injection Hf as <- <-;
    [|apply retire_smaller].
  rewrite (proj1 (configure_acks _ _)). destruct keep_adopted.
  - rewrite keep_acks_lookup. split; [case_match; [by right|by left]|by destruct p].
  - match goal with |- context [retire_listed_acks_after_index_save _ ?i ?r ?h p] => destruct (retire_smaller i r h p fp) as [Hr Hd] end.
    by rewrite configure_destination.
Qed.
Lemma handoff_persists saved p after fp : fp ∈ saved_handoff_retirements saved p ->
  destination_namespace_hash after = destination_namespace_hash p -> acks after !! fp = acks p !! fp ->
  fp ∈ saved_handoff_retirements saved after.
Proof.
  rewrite !handoff_retires. intros (h & body & Hc & ?) Hd Ha. exists h, body. rewrite Ha. split; [|done].
  unfold committed_handoff in *. by rewrite Hd.
Qed.

(** C12: An acknowledgement of an entity that is gone ends.  A cycle whose census
    is complete, whose scan and saved index both know their incidence and do not
    list the entity, of which no local hold and no undecoded file still stands
    for it, whose upload does not acknowledge it anew (and keeps the fingerprints
    of the ledger those of its bodies), and which reached its index save below
    the last two generations, leaves a disk from which the next start no longer
    has it, crash or not.  What a hold, an undecoded file or an unknown incidence
    may stand for keeps its acknowledgement. *)
Theorem gone_acks_retired fp c st : 0 <= index_generation (stored_index st) -> index_generation (stored_index st) + 2 < 2 ^ 64 ->
  valid_acks (stored_ledger st) -> gone fp c -> reaches (cut c) SavedIndex = true ->
  acks (stored_ledger (recover_handoff Whole (source_cycle sha256 st c))) !! fp = None.
Proof.
  intros Hg Hm Hv Hgone Hcut. unfold source_cycle. pose proof (recover_generation (cut c) st) as Hrg.
  assert (Hv2 : valid_acks (stored_ledger (recover_handoff (cut c) st))).
  { destruct st. unfold recover_handoff. cbn. case_match; [by apply recovered_valid|done]. }
  destruct (recover_handoff _ st) as [i p]. cbn [stored_index stored_ledger] in *.
  assert (reaches (cut c) RecoveredIndex = true /\ reaches (cut c) UploadedLedger = true) as [-> ->] by by destruct (cut c).
  cbn [negb]. rewrite Hcut. set (before := configure_ack_capacity i p). destruct (configure_acks i p) as [Hba Hbf].
  assert (Hvb : valid_acks before) by (unfold valid_acks, before; by rewrite Hba, Hbf).
  destruct (finish_room c i before (uploaded c before)) as (saved & after & Ef); [lia..|]. rewrite Ef.
  pose proof (gone_listed fp c i before (uploaded c before) saved after ltac:(lia) Hgone Hvb (gone_valid _ _ Hgone _ Hvb) (gone_upload _ _ Hgone before) Ef) as Hl.
  destruct (finish_smaller _ _ _ _ _ _ fp Ef) as [Hs Hd]. unfold recover_handoff. cbn [stored_index stored_ledger].
  change (reaches Whole RecoveredLedger) with true. cbv iota.
  assert (Hend : forall q, destination_namespace_hash q = destination_namespace_hash (uploaded c before) ->
    acks q !! fp = None \/ acks q !! fp = acks (uploaded c before) !! fp -> acks (recovered_ledger saved q) !! fp = None).
  { intros q Hq [Hn|Hn]; [by apply recovered_gone|]. destruct Hl as [Hl|Hl]; [apply recovered_gone; by rewrite Hn|].
    rewrite recovered_lookup, bool_decide_eq_true_2; [done|]. by eapply handoff_persists. }
  destruct (reaches (cut c) Whole); [by apply Hend|]. apply Hend; [done|by right].
Qed.
End Laws.

(** ** Witnesses *)
(** A saved index that lists the file of "aa" and the file of "bb". *)
Definition index_of (listed : gmap string (gset string)) : ScanIndex :=
  mkIndex 7 ∅ listed ∅ ∅ ∅ ∅ true (fun _ => false) None.
Definition both_listed : ScanIndex := index_of {[ "a.jsonl"%string := {["aa"%string]}; "b.jsonl"%string := {["bb"%string]} ]}.
Definition only_aa : ScanIndex := index_of {[ "a2.jsonl"%string := {["aa"%string]} ]}.
Definition ledger_of_both : Progress unit :=
  accept_body "aa" "digest a" (accept_body "bb" "digest b" (new_progress tt "destination" (Quarantine.mkWitness "" "1" "1" "1" 1 "" 1048576))).
Definition two_acks : Store unit := mkStore both_listed ledger_of_both.
(** The file of "aa" moved, that of "bb" is gone; the settlement selects neither. *)
Definition moved_cycle (at_ : Cut) : SourceCycle unit := mkSourceCycle only_aa true (fun p => p) (index_of ∅) None ∅ at_.

Lemma moved_finds at_ : finds id "aa" "digest a" (moved_cycle at_).
Proof.
  split; [apply (bool_decide_eq_true_1 _); vm_compute; reflexivity|]. split; [done|]. intros adopting. change (adopted_upload_progress_acks id _ adopting) with (∅ : gset string).
  apply not_elem_of_empty.
Qed.
Lemma moved_gone at_ : gone "bb" (moved_cycle at_).
Proof.
  constructor; [reflexivity|split; vm_compute; reflexivity|split|split; [|reflexivity]|intros p Hp; exact Hp|intros p Hp; exact Hp];
    apply (bool_decide_eq_true_1 _); vm_compute; reflexivity.
Qed.
Lemma two_acks_valid : valid_acks ledger_of_both.
Proof. unfold valid_acks. vm_compute. reflexivity. Qed.

Lemma found_acks_survive_witness :
  accepted_body_witnesses (stored_ledger (source_cycles id [moved_cycle SavedIndex; moved_cycle RecoveredLedger; moved_cycle Whole] two_acks)) !! "aa"%string
  = Some "digest a"%string.
Proof.
  apply (found_acks_survive id "aa" "digest a" [moved_cycle SavedIndex] [moved_cycle RecoveredLedger; moved_cycle Whole] two_acks);
    [done|by intros h [=]| |vm_compute; reflexivity].
  constructor; [apply moved_finds|]. constructor; [apply moved_finds|]. constructor; [apply moved_finds|constructor].
Defined.
Lemma crash_retires_the_same_witness :
  let whole := source_cycle id two_acks (cut_at Whole (moved_cycle NoSave)) in
  let crashed := source_cycle id two_acks (cut_at SavedIndex (moved_cycle NoSave)) in
  stored_index whole = stored_index crashed /\
  accepted_body_witnesses (stored_ledger whole) !! "bb"%string =
    if handed_over id (moved_cycle NoSave) crashed "bb" then None
    else accepted_body_witnesses (stored_ledger (recover_handoff Whole crashed)) !! "bb"%string.
Proof. apply crash_retires_the_same; done. Defined.
Lemma gone_acks_retired_witness :
  accepted_body_witnesses (stored_ledger (recover_handoff Whole (source_cycle id two_acks (moved_cycle SavedIndex)))) !! "bb"%string = None.
Proof. apply (gone_acks_retired id); [done|done|exact two_acks_valid|apply moved_gone|done]. Defined.
