(* ===== verification/AckAdmission.v ===== *)
(** Admission of acknowledgements (AckRetention, over the pass of UploadPass):
    the input that [admit_upload_input] lets in never meets
    [AckSettlementRequired] in the pass, and what it leaves out had no room. *)
From stdpp Require Import gmap strings.
From S2P Require Import Prelude.
From S2P Require Import Std.
From S2P Require Import Quarantine.
From S2P Require Import Refusals.
From S2P Require Import UploadLedger.
From S2P Require Import UploadCycle.
From S2P Require Import UploadPage.
From S2P Require Import UploadLoop.
From S2P Require Import PackLaws.
From S2P Require Import UploadPageLaws.
From S2P Require Import BatchAck.
From S2P Require Import BatchTransport.
From S2P Require Import UploadLaws.
From S2P Require Import UploadSettles.
From S2P Require Import UploadPass.
From S2P Require Import AckRetention.
From coqutil Require Import Datatypes.RecordSetters.
Import DoubleBraceUpdate.
Local Open Scope Z_scope.

(** No layer of the error asks for settlement. *)
Definition unsettled (e : Error) : Prop :=
  Forall (fun layer => match layer with AckSettlementRequired _ _ _ _ => False | _ => True end) e.

(** ** Operations that acknowledge only entities of the page *)
Section Ledger.
Context {Stored : Type} (sha256 : list Z -> list Z) (page_entities : gset string).
Implicit Types (p q : Progress Stored) (fp body : string).

Definition grows p q : Prop :=
  ack_capacity q = ack_capacity p /\ accepted_fingerprints q ⊆ accepted_fingerprints p ∪ page_entities.
#[export] Instance grows_preorder : PreOrder grows.
Proof. split; [intros p; split; set_solver|]. intros p q r [Hc Ha] [Hc' Ha']. split; [congruence|set_solver]. Qed.
Lemma grows_eq p q : ack_capacity q = ack_capacity p -> accepted_fingerprints q = accepted_fingerprints p -> grows p q.
Proof. intros Hc Ha. split; [done|]. rewrite Ha. set_solver. Qed.

Lemma grows_count sent f p : grows p (count_if sent f p).
Proof. apply grows_eq; by destruct sent, p. Qed.
Lemma grows_quarantine fp body now p : grows p (quarantine_body sha256 fp body now p).
Proof. destruct p. split; [done|]. cbn. unfold constant. set_solver. Qed.
Lemma grows_record fp body p : fp ∈ page_entities -> grows p (record_body fp body p).
Proof.
  intros Hf. unfold record_body. set (q := forget_context fp p). assert (grows p q) as Hq by (apply grows_eq; by destruct p).
  set (q2 := count_if _ _ q). assert (grows q q2) as Hq2 by apply grows_count. etrans; [exact Hq|]. etrans; [exact Hq2|].
  clearbody q2. destruct q2. split; [done|]. cbn. unfold constant. set_solver.
Qed.
Lemma grows_permanent fp body reason now p : grows p (quarantine_permanent_body sha256 fp body reason now p).
Proof.
  unfold quarantine_permanent_body. set (q := count_if _ _ p). assert (grows p q) as Hq by apply grows_count.
  etrans; [exact Hq|]. etrans; [apply (grows_quarantine fp body now)|]. apply grows_eq; by destruct (quarantine_body _ _ _ _ _).
Qed.
Lemma grows_unstored fp body now p : grows p (hold_unstored_body sha256 fp body now p).
Proof.
  unfold hold_unstored_body. set (q := count_if _ _ p). assert (grows p q) as Hq by apply grows_count.
  set (r := end_lease fp (retire_refusal fp body q)).
  assert (grows q r) as Hr by (apply grows_eq; unfold r, retire_refusal; case_match; by destruct q).
  etrans; [exact Hq|]. etrans; [exact Hr|]. etrans; [apply (grows_quarantine fp body now)|].
  apply grows_eq; by destruct (quarantine_body _ _ _ _ _).
Qed.
Lemma grows_retryable fp body at_ now p : grows p (quarantine_retryable_body sha256 fp body at_ now p).
Proof.
  unfold quarantine_retryable_body. set (q := count_if _ _ p). assert (grows p q) as Hq by apply grows_count.
  assert (Hr : grows q (end_lease fp q)) by (apply grows_eq; by destruct q).
  etrans; [exact Hq|]. etrans; [exact Hr|]. etrans; [apply (grows_quarantine fp body now)|]. apply grows_eq; by destruct (quarantine_body _ _ _ _ _).
Qed.
Lemma grows_conflict r now acc (e : SnapshotEntityRef) : grows acc.1 (record_conflict sha256 r now acc e).1.
Proof.
  destruct acc as [p owed_now]. unfold record_conflict. case_match; [done|]. destruct (head_challenge e) as [c|]; [|done].
  destruct (conflict_rescans r !! _) as [rescan|]; [|done]. unfold record_head_conflict_challenge.
  repeat case_match; simplify_eq/=; try done; by apply grows_eq; destruct p.
Qed.
Lemma grows_conflicts r now p : grows p (record_conflicts sha256 r now p).1.
Proof.
  unfold record_conflicts. change p with (p, ∅ : gset string).1 at 1. generalize (p, ∅ : gset string).
  induction (conflict_entities r) as [|e l IH]; intros acc; [done|]. cbn [foldl]. etrans; [apply (grows_conflict r now acc e)|apply IH].
Qed.
End Ledger.

(** ** Programs that have room *)
Section Room.
Context {W Stored Item : Type} `{Snapshot Item} `{StoredState Stored Item} `{World W Item Stored}.
Context (sha256 : list Z -> list Z) (fifth : Duration -> Duration) (page_entities : gset string).
Abbreviation St := (UploadState W Stored).
Abbreviation Prog := (M (St := St)).
Abbreviation Page := (list (nat * Item)).
Implicit Types (p : Progress Stored) (q : Queue (Item := Item)) (page : Page) (s : St).

(** Saves keep the acknowledgements, and no error of the transport or of a save
    asks for settlement. *)
Record transport_unsettled : Prop := {
  send_unsettled : forall items w e w', send (W := W) (Item := Item) (Stored := Stored) items w = (inl e, w') -> unsettled e;
  persist_unsettled : forall p w e p' w', persist (W := W) (Item := Item) (Stored := Stored) p w = (Some e, p', w') -> unsettled e;
  persist_grows : forall p w failed p' w', persist (W := W) (Item := Item) (Stored := Stored) p w = (failed, p', w') -> grows ∅ p p';
}.
Context (Htransport : transport_unsettled).

Definition within s s' : Prop := grows page_entities (progress s) (progress s').
#[export] Instance within_preorder : PreOrder within.
Proof. split; [by intros s; unfold within|]. intros s t u Hst Htu. unfold within in *. by etrans. Qed.
Abbreviation inside := (keeps within).

Lemma inside_same {A} (m : Prog A) : (forall s, progress (m s).2 = progress s) -> inside m.
Proof. intros Hm s. unfold within. by rewrite Hm. Qed.
Lemma inside_map f : (forall p, grows page_entities p (f p)) -> inside (map_progress f).
Proof. intros Hf []. unfold within. apply Hf. Qed.
Lemma inside_unseen f : (forall p, ack_capacity (f p) = ack_capacity p /\ accepted_fingerprints (f p) = accepted_fingerprints p) ->
  inside (map_progress f).
Proof. intros Hf. apply inside_map. intros p. apply grows_eq; apply Hf. Qed.
Lemma inside_save : inside save_ledger.
Proof.
  intros []. unfold save_ledger, within. cbn. destruct (persist _ _) as [[failed q] w] eqn:Ep. cbn.
  destruct (persist_grows Htransport _ _ _ _ _ Ep) as [Hc Ha]. split; [done|set_solver].
Qed.
Lemma inside_save_or operation : inside (save_or operation).
Proof. intros s. unfold save_or. pose proof (inside_save s). by destruct (save_ledger s) as [[]]. Qed.
Lemma inside_request items : inside (request items).
Proof. apply inside_same. intros []. unfold request. cbn. by case_match. Qed.
Lemma inside_poison fp : inside (record_poison_loss_once fp).
Proof. apply inside_same. intros []. unfold record_poison_loss_once. cbn. by case_match. Qed.
Ltac inside_steps :=
  repeat first
    [ apply inside_save | apply inside_save_or | apply inside_request | apply inside_poison
    | apply keeps_ret; apply _ | apply keeps_fail; apply _
    | apply keeps_bind; [apply _| |intros ?]
    | apply keeps_each; [apply _|]; intros ? ?
    | by apply inside_same
    | apply inside_unseen; intros []; done
    | case_match ].

Definition of_page (e : nat * Item) : Prop := fingerprint e.2 ∈ page_entities.
Lemma inside_stored item changed proof : inside (record_stored_state sha256 item changed proof).
Proof. unfold record_stored_state. inside_steps. Qed.
Lemma inside_accepted r now e : of_page e -> inside (settle_accepted sha256 r now e).
Proof.
  intros He. unfold settle_accepted. case_match; [|case_match; [|apply keeps_ret; apply _]].
  - apply keeps_bind; [apply _| |intros _; apply inside_stored]. apply inside_map. intros p.
    etrans; [by apply (grows_record page_entities (fingerprint e.2) (item_body_witness e.2))|]. set (q := record_body _ _ p).
    apply grows_eq; unfold note_fresh_ack; case_match; by destruct q.
  - apply inside_map. intros p. etrans; [apply (grows_unstored sha256 page_entities (fingerprint e.2) (item_body_witness e.2) now)|].
    apply grows_eq; unfold note_not_stored; by destruct (hold_unstored_body _ _ _ _ _).
Qed.
Lemma inside_refused r owed_now now e : inside (map_progress (settle_refused sha256 r owed_now now e)).
Proof.
  apply inside_map. intros p. unfold settle_refused. destruct (rejection_of _ _) as [rejection|].
  - destruct (permanent rejection); [|apply grows_retryable]. set (q := forget_challenge _ _ p).
    assert (Hq : grows page_entities p q) by (apply grows_eq; by destruct p). etrans; [exact Hq|].
    etrans; [apply (grows_permanent sha256 page_entities (fingerprint e.2) (item_body_witness e.2) (safe_reason (rej_reason rejection)) now)|].
    apply grows_eq; unfold note_refused_exposure; by destruct (quarantine_permanent_body _ _ _ _ _ _).
  - case_match; [apply grows_retryable|done].
Qed.
Lemma inside_settle_page page r : (forall e, e ∈ page -> of_page e) -> inside (settle_page sha256 page r).
Proof.
  intros Hpage. unfold settle_page. case_match; [inside_steps|]. case_match; case_match; [inside_steps| |inside_steps|].
  - apply keeps_bind; [apply _| |intros _; inside_steps]. unfold settle_entities.
    apply keeps_bind; [apply _|apply inside_unseen; by intros []|intros _].
    apply keeps_bind; [apply _| |intros [now owed_now]].
    { intros t. unfold note_conflicts, within. pose proof (grows_conflicts sha256 page_entities r (unix_now (world t)) (progress t)) as Hg.
      destruct (record_conflicts _ _ _ _) as [q owed_now]. by destruct t. }
    apply keeps_bind; [apply _|apply keeps_each; [apply _|]; intros e He; by apply inside_accepted, Hpage|intros _].
    apply keeps_bind; [apply _|apply keeps_each; [apply _|]; intros e He; apply inside_refused|intros _].
    apply inside_unseen. by intros [].
  - apply keeps_bind; [apply _| |intros _; inside_steps]. unfold settle_counted. apply keeps_each; [apply _|]. intros e He.
    apply keeps_bind; [apply _| |intros _; apply inside_stored]. apply inside_map. intros p. by apply grows_record, Hpage.
Qed.
Lemma inside_page page : (forall e, e ∈ page -> of_page e) -> inside (admitted_page sha256 page).
Proof.
  intros Hpage. unfold admitted_page.
  apply keeps_bind; [apply _|unfold note_reoffer, packing_length; inside_steps|intros _].
  apply keeps_bind; [apply _|unfold note_sending, packing_length; inside_steps|intros _].
  apply keeps_bind; [apply _|unfold drop_replaced_proof; inside_steps|intros _].
  apply keeps_bind; [apply _|inside_steps|intros answer].
  apply keeps_bind; [apply _|unfold pace_sent; inside_steps|intros _].
  destruct answer; [inside_steps|by apply inside_settle_page].
Qed.

(** ** Room for every entity of the page *)
Definition roomy p : Prop := Z.min (Z.of_nat (size (accepted_fingerprints p ∪ page_entities))) (umax 64) <= ack_capacity p.
Lemma roomy_grows p p' : roomy p -> grows page_entities p p' -> roomy p'.
Proof.
  unfold roomy. intros Hr [-> Ha]. assert (size (accepted_fingerprints p' ∪ page_entities) <= size (accepted_fingerprints p ∪ page_entities))%nat; [|lia].
  apply subseteq_size. set_solver.
Qed.
(** From a ledger with room a program ends with one, and asks for no settlement. *)
Definition runs {A} (Q : A -> Prop) (m : Prog A) : Prop := forall s, roomy (progress s) ->
  roomy (progress (m s).2) /\ match (m s).1 with inl e => unsettled e | inr a => Q a end.
Lemma runs_ret {A} (Q : A -> Prop) a : Q a -> runs Q (ret a).
Proof. by intros Ha s. Qed.
Lemma runs_fail {A} (Q : A -> Prop) e : unsettled e -> runs Q (fail e).
Proof. by intros He s. Qed.
Lemma runs_bind {A B} (R : A -> Prop) (Q : B -> Prop) (m : Prog A) (k : A -> Prog B) :
  runs R m -> (forall a, R a -> runs Q (k a)) -> runs Q (bind m k).
Proof.
  intros Hm Hk s Hs. unfold bind. destruct (Hm s Hs) as [Hr Ha]. destruct (m s) as [[e|a] s1]; [done|]. by apply (Hk a Ha).
Qed.
Lemma runs_then {A B} (Q : B -> Prop) (m : Prog A) (k : A -> Prog B) :
  runs (fun _ => True) m -> (forall a, runs Q (k a)) -> runs Q (bind m k).
Proof. intros Hm Hk. apply (runs_bind (fun _ => True)); [done|]. intros a _. apply Hk. Qed.
Lemma runs_attempt {A} (Q : A -> Prop) (m : Prog A) : runs Q m ->
  runs (fun r => match r with inl e => unsettled e | inr a => Q a end) (attempt m).
Proof. intros Hm s Hs. unfold attempt. specialize (Hm s Hs). by destruct (m s). Qed.
Lemma runs_each {A} (f : A -> Prog unit) l : (forall a, runs (fun _ => True) (f a)) -> runs (fun _ => True) (each f l).
Proof. intros Hf. induction l as [|a l IH]; [by apply runs_ret|]. cbn. by apply runs_then. Qed.
Lemma runs_inside {A} (m : Prog A) : inside m -> fails_with unsettled m -> runs (fun _ => True) m.
Proof.
  intros Hi Hf s Hs. split; [by eapply roomy_grows, Hi|]. destruct (m s) as [[e|a] s1] eqn:Em; [by eapply Hf|done].
Qed.
Lemma runs_always {A} (m : Prog A) : (forall s, exists a s', m s = (inr a, s') /\ grows page_entities (progress s) (progress s')) ->
  runs (fun _ => True) m.
Proof.
  intros Hm. apply runs_inside; [intros s; destruct (Hm s) as (a & s' & E & Hg); by rewrite E|].
  apply fails_never. intros s. destruct (Hm s) as (a & s' & E & _). by exists a, s'.
Qed.
Lemma runs_read : runs roomy (read (fun p => p)).
Proof. by intros s. Qed.
Lemma runs_clock : runs (fun _ => True) clock.
Proof. by intros s. Qed.
Lemma runs_map f : (forall p, grows page_entities p (f p)) -> runs (fun _ => True) (map_progress f).
Proof. intros Hf. apply runs_inside; [by apply inside_map|]. apply fails_never. by eexists _, _. Qed.
Lemma runs_poison fp : runs (fun _ => True) (record_poison_loss_once fp).
Proof. apply runs_inside; [apply inside_poison|]. apply fails_never. by eexists _, _. Qed.
Lemma runs_restore before operation : roomy before -> runs (fun _ => True) (save_or_restore before operation).
Proof.
  intros Hb s Hs. unfold save_or_restore. pose proof (roomy_grows _ _ Hs (inside_save s)) as Hr.
  destruct (save_ledger s) as [[e|[]] s1]; [|done]. split; [by destruct s1|by repeat constructor].
Qed.
Lemma runs_save_or operation : runs (fun _ => True) (save_or operation).
Proof.
  apply runs_inside; [apply inside_save_or|]. intros s e s' Hs. unfold save_or in Hs.
  destruct (save_ledger s) as [[]]; [|done]. injection Hs as <- _. by repeat constructor.
Qed.
Lemma runs_draw span : runs (fun _ => True) (uniform_duration span).
Proof. apply runs_always. intros []. unfold uniform_duration. cbn. destruct (uniform _ _). by eexists _, _. Qed.
Lemma runs_world {A} (m : Prog A) : (forall s, exists a s', m s = (inr a, s') /\ progress s' = progress s) -> runs (fun _ => True) m.
Proof. intros Hm. apply runs_always. intros s. destruct (Hm s) as (a & s' & E & Hp). exists a, s'. by rewrite Hp. Qed.

(** ** The page *)
Definition fits page : Prop := NoDup ((fun e => fingerprint e.2) <$> page) /\ forall e, e ∈ page -> of_page e.
Lemma page_fits_sublist page page' : sublist page' page -> fits page -> fits page'.
Proof.
  intros Hs [Hn Hp]. split; [eapply sublist_NoDup; [exact Hn|by apply fmap_sublist]|]. intros e He. apply Hp. eapply elem_of_submseteq; [exact He|by apply sublist_submseteq].
Qed.
Lemma filter_sublist {A} (keep : A -> bool) l : sublist (List.filter keep l) l.
Proof. induction l as [|x l IH]; [done|]. cbn. case_match; by constructor. Qed.
Lemma new_acks_room page p : fits page ->
  (size (accepted_fingerprints p) + Z.to_nat (new_acks page p) <= size (accepted_fingerprints p ∪ page_entities))%nat.
Proof.
  intros [Hn Hp]. unfold new_acks. rewrite Nat2Z.id. set (new := List.filter _ page).
  set (fps := (fun e => fingerprint e.2) <$> new).
  assert (Hsize : length new = size (list_to_set fps : gset string)).
  { rewrite size_list_to_set; [by unfold fps; rewrite length_fmap|]. eapply sublist_NoDup; [exact Hn|]. apply fmap_sublist, filter_sublist. }
  assert (Hnew : forall fp, fp ∈ fps -> fp ∈ page_entities /\ fp ∉ accepted_fingerprints p).
  { intros fp (e & -> & He)%list_elem_of_fmap. unfold new in He. apply list_elem_of_In, filter_In in He as [He Hf].
    apply list_elem_of_In in He. apply negb_true_iff, bool_decide_eq_false in Hf. split; [by apply Hp|done]. }
  rewrite Hsize, <-size_union by set_solver. apply subseteq_size. set_solver.
Qed.
Lemma admit_runs page : fits page -> runs (fun _ => True) (admit_page page).
Proof.
  intros Hf s Hs. unfold admit_page. assert (admit_ack_batch (new_acks page (progress s)) (progress s) = None) as ->; [|done].
  unfold admit_ack_batch. destruct (0 <? _) eqn:E0; [|done]. unfold roomy in Hs. pose proof (new_acks_room page (progress s) Hf) as Hn.
  zbool. cbn [andb]. rewrite (proj2 (Z.ltb_ge _ _)); [done|]. unfold saturating_add. lia.
Qed.
Lemma page_runs page : fits page -> runs (fun _ => True) (attempt_snapshot_page sha256 page).
Proof.
  intros Hf. change (attempt_snapshot_page sha256 page) with (bind (admit_page page) (fun _ => admitted_page sha256 page)).
  apply runs_then; [by apply admit_runs|]. intros _. apply runs_inside; [apply inside_page, Hf|].
  apply admitted_page_fails; [apply (send_unsettled Htransport)|apply (persist_unsettled Htransport)|].
  intros []; try done; intros _; by repeat constructor.
Qed.

(** ** The loop *)
Definition fine q : Prop := Forall (fun b => fits b.1) (batches q).
Lemma fine_requeue more q : Forall (fun b => fits b.1) more -> fine q -> fine (requeue more q).
Proof. intros Hm Hq. destruct q. by apply Forall_app. Qed.
Lemma fine_rest rest q : fits rest -> fine q -> fine (requeue_rest rest q).
Proof. intros Hr Hq. unfold requeue_rest. case_match; [done|]. apply fine_requeue; [by apply Forall_singleton|done]. Qed.
Lemma hold_preflight_runs page index e q : fits page -> unsettled e -> fine q -> runs fine (hold_preflight sha256 page index e q).
Proof.
  intros Hf He Hq. unfold hold_preflight. case_match; [|apply runs_fail; by constructor].
  apply (runs_bind roomy); [apply runs_read|]. intros before Hb. apply runs_then; [apply runs_clock|]. intros now.
  apply runs_then; [apply runs_map; intros; apply grows_quarantine|]. intros _. apply runs_then; [by apply runs_restore|]. intros _.
  apply runs_then; [apply runs_poison|]. intros _. apply runs_ret, fine_rest; [|done]. eapply page_fits_sublist, Hf. apply sublist_delete.
Qed.
Lemma shed_backoff_runs retry_after : runs (fun _ => True) (shed_backoff (W := W) fifth retry_after).
Proof.
  unfold shed_backoff, full_jitter_backoff. case_match; [|apply runs_draw]. apply runs_then; [apply runs_draw|]. intros more. by apply runs_ret.
Qed.
Lemma hold_named_runs page held e q : fits page -> fine q -> runs fine (hold_named sha256 fifth page held e q).
Proof.
  intros Hf Hq. unfold hold_named. apply runs_then; [apply runs_clock|]. intros now.
  apply runs_then; [case_match; [|by apply runs_ret]; apply runs_then; [apply shed_backoff_runs|]; intros; by apply runs_ret|]. intros retry_at.
  apply (runs_bind roomy); [apply runs_read|]. intros before Hb.
  apply runs_then; [apply runs_each; intros; apply runs_map; intros; apply grows_retryable|]. intros _.
  apply runs_then; [by apply runs_restore|]. intros _. apply runs_ret, fine_rest; [|by destruct q].
  eapply page_fits_sublist, Hf. apply filter_sublist.
Qed.
Definition fine_next (next : Queue (Item := Item) + ResumableUploadResult) : Prop :=
  match next with inl q => fine q | inr _ => True end.
Lemma recover_runs page adaptive e wait q : fits page -> unsettled e -> fine q ->
  runs fine_next (recover sha256 fifth page adaptive e wait q).
Proof.
  intros Hf He Hq. unfold recover. case_match.
  { apply (runs_bind fine); [by apply hold_preflight_runs|]. intros. by apply runs_ret. }
  case_match. { apply (runs_bind fine); [by apply hold_named_runs|]. intros. by apply runs_ret. }
  case_match; [|destruct wait as [[status wait]|]; [|destruct (as_shed e)]].
  - apply runs_ret. unfold split. apply fine_requeue; [|by destruct q].
    apply Forall_cons; split; [|apply Forall_singleton]; (eapply page_fits_sublist, Hf); [apply sublist_take|apply sublist_drop].
  - apply (runs_bind fine); [|intros; by apply runs_ret]. unfold resend. apply runs_then; [apply runs_world; intros []; by eexists _, _|].
    intros _. apply runs_ret, fine_requeue; [by apply Forall_singleton|by destruct q].
  - apply runs_then; [apply runs_world; intros []; by eexists _, _|]. intros _. by apply runs_ret.
  - by apply runs_fail.
Qed.
Lemma admit_resend_runs b e elapsed : runs (fun _ => True) (admit_resend (W := W) (Stored := Stored) fifth b e elapsed).
Proof.
  unfold admit_resend, transient_inplace_retry_wait. case_match; [by apply runs_ret|].
  apply runs_then; [|intros; by apply runs_ret]. case_match; [|by apply runs_ret]. case_match. apply runs_then; [apply runs_draw|]. intros. by apply runs_ret.
Qed.
Lemma turn_runs taken adaptive q : fits taken -> fine q -> runs fine_next (turn sha256 fifth taken adaptive q).
Proof.
  intros Hf Hq. unfold turn. apply (runs_bind roomy); [apply runs_read|]. intros p _. case_match; [by apply runs_ret|].
  case_match; [apply runs_fail; by repeat constructor|]. set (q1 := if adaptive then _ else q).
  assert (Hq1 : fine q1) by (by destruct adaptive, q). set (page := List.filter _ taken).
  assert (Hp : fits page) by (eapply page_fits_sublist, Hf; apply filter_sublist).
  eapply runs_bind; [by apply runs_attempt, page_runs|]. intros [e|[more alone|reason]] He; [|apply runs_ret; by destruct q1|by apply runs_ret].
  apply runs_then; [apply runs_world; intros; by eexists _, _|]. intros elapsed. apply runs_then; [apply admit_resend_runs|]. intros wait.
  by apply recover_runs.
Qed.
Lemma drain_runs fuel q : fine q -> runs (fun _ => True) (drain sha256 fifth fuel q).
Proof.
  revert q. induction fuel as [|fuel IH]; intros q Hq; cbn [drain]; [by apply runs_ret|].
  destruct (batches q) as [|[page adaptive] rest] eqn:Eb; [by apply runs_ret|].
  assert (fits page /\ fine (q {{ batches := rest }})) as [Hf Hr].
  { unfold fine in *. rewrite Eb in Hq. apply Forall_cons in Hq as [??]. by destruct q. }
  eapply runs_bind; [by apply turn_runs|]. intros [q'|result] Hn; [by apply IH|by apply runs_ret].
Qed.

(** ** The start of a pass *)
Lemma restore_grows current now p : grows page_entities p (restore_refusals sha256 current now p).
Proof.
  unfold restore_refusals. generalize (List.filter (fun e => restores p e.1 e.2) (map_to_list current)). intros l. revert p.
  induction l as [|[fp body] l IH]; intros p; [done|]. cbn [foldl]. etrans; [|apply IH].
  etrans; [apply (grows_quarantine sha256 page_entities fp body now)|]. apply grows_eq; by destruct (quarantine_body _ _ _ _ _).
Qed.
Lemma reconcile_runs current : runs (fun _ => True) (reconcile (W := W) (Item := Item) sha256 current).
Proof.
  unfold reconcile. apply (runs_bind roomy); [apply runs_read|]. intros before _. apply runs_then.
  { apply runs_map. intros []. split; [done|]. cbn. unfold constant. set_solver. }
  intros _. apply runs_then; [apply runs_world; intros []; by eexists _, _|]. intros _. apply runs_then; [apply runs_clock|]. intros now.
  apply (runs_bind roomy); [apply runs_read|]. intros pruned _. apply runs_then; [apply runs_map; intros; apply restore_grows|]. intros _.
  case_match; [apply runs_save_or|by apply runs_ret].
Qed.
Context (Hjson : forall (item : Item) n, json_length item = Some n -> 0 <= n).
Lemma pages_fit pending c : sized pending -> NoDup ((fun m => fingerprint (at_item m)) <$> pending) ->
  (forall m, m ∈ pending -> fingerprint (at_item m) ∈ page_entities) -> Forall fits (page_of <$> (pack pending c).1).
Proof.
  intros Hs Hn Hin. destruct (pack_spec pending c Hs) as (ordinary & admitted & held & Hpack). destruct Hpack as [_ Hall Hsent _ _ _ _ _ _].
  apply Forall_fmap, Forall_forall. intros b Hb. assert (Hsub : b ⊆+ pending).
  { rewrite Hall, app_assoc. transitivity (concat (pack pending c).1); [|by rewrite Hsent; apply submseteq_inserts_r].
    apply list_elem_of_split in Hb as (l1 & l2 & ->). rewrite concat_app. cbn. apply submseteq_inserts_l, submseteq_inserts_r. done. }
  assert (E : (fun e : nat * Item => fingerprint e.2) <$> page_of b = (fun m => fingerprint (at_item m)) <$> b).
  { unfold page_of. by rewrite <-list_fmap_compose. }
  split.
  - rewrite E. apply submseteq_Permutation in Hsub as [rest Hrest]. rewrite Hrest, fmap_app in Hn. by apply NoDup_app in Hn as [Hn _].
  - intros e (m & -> & Hm)%list_elem_of_fmap. apply Hin. by eapply elem_of_submseteq.
Qed.
Lemma enqueue_runs items b : (forall item, item ∈ items -> fingerprint item ∈ page_entities) ->
  runs fine (enqueue (W := W) (Stored := Stored) items b).
Proof.
  intros Hitems. unfold enqueue. apply (runs_bind roomy); [apply runs_read|]. intros p _.
  destruct (pending_by_fingerprint p items) as [pending|] eqn:Ep; [|apply runs_fail; by repeat constructor].
  apply runs_then; [apply runs_map; intros []; by apply grows_eq|]. intros _. apply runs_ret. unfold fine. cbn [batches].
  destruct (pending_spec Hjson _ _ _ Ep) as (table & -> & [Hsort Hfrom _ _]).
  assert (Hmember : forall m, m ∈ table.*2 -> (exists fp, (fp, m) ∈ table) /\ 0 <= at_bytes m /\ fingerprint (at_item m) ∈ page_entities).
  { intros m ([fp x] & -> & Hin)%list_elem_of_fmap. destruct (Hfrom _ _ Hin) as (Hi & Hb & _). split; [by exists fp|]. split; [done|].
    apply Hitems. apply elem_of_lookup_imap in Hi as (i & y & Ey & Hy). injection Ey as _ Ex. cbn. rewrite Ex. by eapply list_elem_of_lookup_2. }
  apply Forall_fmap. change (Forall (fits ∘ page_of) (pack table.*2 (context_resend p)).1). apply Forall_fmap, pages_fit.
  - intros m Hm. by apply Hmember.
  - assert ((fun m => fingerprint (at_item m)) <$> table.*2 = table.*1) as ->.
    { clear -Hfrom. induction table as [|[fp m] table IH]; [done|]. cbn. f_equal; [symmetry; apply (Hfrom fp m); set_solver|].
      apply IH. intros fp' m' Hin. apply Hfrom. set_solver. }
    by apply OrdMap.ksorted_NoDup.
  - intros m Hm. by apply Hmember.
Qed.
Theorem pass_runs items b : (forall item, item ∈ items -> fingerprint item ∈ page_entities) ->
  runs (fun _ => True) (upload_resumable_batches (W := W) sha256 fifth items b).
Proof.
  intros Hitems. unfold upload_resumable_batches. case_match; [|apply runs_fail; by repeat constructor].
  apply runs_then; [apply reconcile_runs|]. intros _. eapply runs_bind; [by apply enqueue_runs|]. intros q Hq.
  apply runs_then; [by apply drain_runs|]. intros finished. apply (runs_bind roomy); [apply runs_read|]. intros p _. by apply runs_ret.
Qed.
End Room.

(** ** What admission lets in *)
Section Admission.
Context {Stored Item : Type} `{Entity Item}.
Implicit Types (p : Progress Stored) (items kept : list Item) (index : ScanIndex).

(** The entities let in so far, and the slots they took. *)
Record retained (accepted live : gset string) (slots : nat) items (acc : list Item * gset string * nat) : Prop := {
  retained_from : sublist acc.1.1 items;
  retained_known : forall item, item ∈ acc.1.1 -> fingerprint item ∈ accepted ∪ live ∪ acc.1.2;
  retained_new : acc.1.2 ## accepted ∪ live /\ acc.1.2 ⊆ fingerprints acc.1.1;
  retained_slots : (size acc.1.2 + acc.2 = slots)%nat;
  retained_out : forall item, item ∈ items -> item ∈ acc.1.1 \/
    acc.2 = 0%nat /\ (fingerprint item ∉ accepted) /\ (fingerprint item ∉ live);
}.
Lemma fingerprints_app items items' : fingerprints (items ++ items') = fingerprints items ∪ fingerprints items'.
Proof. unfold fingerprints. rewrite fmap_app, list_to_set_app_L. done. Qed.
Lemma fingerprints_elem items fp : fp ∈ fingerprints items <-> exists item, fp = fingerprint item /\ item ∈ items.
Proof. unfold fingerprints. rewrite elem_of_list_to_set. apply list_elem_of_fmap. Qed.
Lemma retain_step accepted live slots items acc item : retained accepted live slots items acc ->
  retained accepted live slots (items ++ [item]) (retain_item accepted live acc item).
Proof.
  intros [Hf Hk [Hn Hin] Hs Ho]. destruct acc as [[kept admitted] remaining]. cbn in *. unfold retain_item.
  assert (Hmore : forall admitted' remaining', admitted ⊆ admitted' -> (remaining' <= remaining)%nat ->
    fingerprint item ∈ accepted ∪ live ∪ admitted' -> (admitted' ## accepted ∪ live) -> admitted' ⊆ fingerprints (kept ++ [item]) ->
    (size admitted' + remaining' = slots)%nat -> retained accepted live slots (items ++ [item]) (kept ++ [item], admitted', remaining')).
  { intros admitted' remaining' Hsub Hle Hfp Hd Hi Hsz. split; cbn; [by apply sublist_app|..|by split|done|].
    - intros x [Hx| ->%list_elem_of_singleton]%elem_of_app; [|done]. specialize (Hk x Hx). set_solver.
    - intros x [Hx| ->%list_elem_of_singleton]%elem_of_app; [|left; set_solver].
      destruct (Ho x Hx) as [?|(? & ? & ?)]; [left; set_solver|right; split; [lia|done]]. }
  assert (Hold : admitted ⊆ fingerprints (kept ++ [item])) by (rewrite fingerprints_app; set_solver).
  destruct (bool_decide (fingerprint item ∈ accepted) || bool_decide (fingerprint item ∈ live) || bool_decide (fingerprint item ∈ admitted)) eqn:Eb.
  - apply Hmore; try done. rewrite !orb_true_iff, !bool_decide_eq_true in Eb. set_solver.
  - rewrite !orb_false_iff, !bool_decide_eq_false in Eb. destruct Eb as [[Ha Hl] Hm]. destruct remaining as [|remaining].
    + split; cbn; [by apply sublist_inserts_r|done|by split|done|].
      intros x [Hx| ->%list_elem_of_singleton]%elem_of_app; [|by right]. by apply Ho.
    + apply Hmore; [set_solver|lia|set_solver|set_solver| |rewrite size_union, size_singleton by set_solver; lia].
      rewrite fingerprints_app. apply union_least; [|set_solver]. intros fp ->%elem_of_singleton. apply elem_of_union_r, fingerprints_elem.
      exists item. set_solver.
Qed.
Lemma retain_all accepted live slots items : retained accepted live slots items (foldl (retain_item accepted live) ([], ∅, slots) items).
Proof.
  enough (forall rest seen acc, retained accepted live slots seen acc -> retained accepted live slots (seen ++ rest) (foldl (retain_item accepted live) acc rest))
    as Hall by (apply (Hall items []); split; cbn; [done|set_solver|set_solver|by rewrite size_empty|set_solver]).
  induction rest as [|item rest IH]; intros seen acc Hr; [by rewrite app_nil_r|]. cbn [foldl].
  change (item :: rest) with ([item] ++ rest). rewrite app_assoc. by apply IH, retain_step.
Qed.

Lemma set_capacity_reads stale capacity p : accepted_fingerprints (set_ack_capacity stale capacity p) = accepted_fingerprints p /\
  ack_capacity (set_ack_capacity stale capacity p) = capacity.
Proof. by destruct p. Qed.
(** The ledger after admission has room for every entity let in. *)
Lemma admission_room items index limit p stop kept p' :
  admit_upload_input_with_unsettled_limit items index limit p = (stop, kept, p') ->
  (size (accepted_fingerprints p ∖ upload_progress_ack_incidence index) <= limit)%nat ->
  roomy (fingerprints kept) p' /\ accepted_fingerprints p' = accepted_fingerprints p.
Proof.
  unfold admit_upload_input_with_unsettled_limit. set (accepted := accepted_fingerprints p). set (incidence := upload_progress_ack_incidence index).
  set (live := (incidence ∩ fingerprints items) ∖ accepted). set (slots := (limit - size (accepted ∖ incidence))%nat). intros Ha Hl.
  pose proof (retain_all accepted live slots items) as Hr. destruct (foldl _ _ items) as [[kept' admitted] remaining]. injection Ha as _ -> <-.
  destruct Hr as [_ Hk _ Hs _]. cbn in Hk, Hs. split; [|by destruct p]. unfold roomy.
  destruct (set_capacity_reads (Z.of_nat (size (accepted ∖ incidence))) (saturating_add 64 (saturating_add 64 (saturating_sub
    (Z.of_nat (size accepted)) (Z.of_nat (size (accepted ∖ incidence)))) (Z.of_nat (size live))) (Z.of_nat limit)) p) as [-> ->]. fold accepted.
  assert (size (accepted ∪ fingerprints kept) <= size accepted + size live + size admitted)%nat as Hsize.
  { etrans; [apply (subseteq_size _ (accepted ∪ (live ∪ admitted)))|].
    - apply union_least; [set_solver|]. intros fp (item & -> & Hi)%fingerprints_elem. specialize (Hk item Hi). set_solver.
    - rewrite size_union_alt. pose proof (subseteq_size ((live ∪ admitted) ∖ accepted) (live ∪ admitted) ltac:(set_solver)).
      pose proof (size_union_alt live admitted). pose proof (subseteq_size (admitted ∖ live) admitted ltac:(set_solver)). lia. }
  assert (size (accepted ∖ incidence) <= size accepted)%nat by (apply subseteq_size; set_solver).
  unfold saturating_add, saturating_sub. subst slots. lia.
Qed.

(** What admission leaves out is new, not in the index, and found no slot. *)
Theorem admission_leaves_overflow items index limit p stop kept p' item :
  admit_upload_input_with_unsettled_limit items index limit p = (stop, kept, p') -> item ∈ items -> item ∉ kept ->
  (fingerprint item ∉ accepted_fingerprints p) /\ (fingerprint item ∉ upload_progress_ack_incidence index) /\
  (limit <= size (accepted_fingerprints p ∖ upload_progress_ack_incidence index) +
            size (fingerprints kept ∖ (accepted_fingerprints p ∪ upload_progress_ack_incidence index)))%nat.
Proof.
  unfold admit_upload_input_with_unsettled_limit. set (accepted := accepted_fingerprints p). set (incidence := upload_progress_ack_incidence index).
  set (live := (incidence ∩ fingerprints items) ∖ accepted). set (slots := (limit - size (accepted ∖ incidence))%nat). intros Ha Hi Hn.
  pose proof (retain_all accepted live slots items) as Hr. destruct (foldl _ _ items) as [[kept' admitted] remaining]. injection Ha as _ -> _.
  destruct Hr as [Hf Hk [Hd Hin] Hs Ho]. cbn in *. destruct (Ho item Hi) as [?|(Hz & Hna & Hnl)]; [done|].
  assert (Hfp : fingerprint item ∈ fingerprints items) by (apply fingerprints_elem; by exists item).
  split; [done|]. split; [set_solver|]. assert (size admitted <= size (fingerprints kept ∖ (accepted ∪ incidence)))%nat; [|lia].
  apply subseteq_size. intros fp Hfp'. pose proof (Hin fp Hfp') as Hkept. apply elem_of_difference. split; [done|].
  intros [Hacc|Hinc]%elem_of_union; apply (Hd fp Hfp'); apply elem_of_union; [by left|].
  destruct (decide (fp ∈ accepted)); [by left|right]. apply elem_of_difference. split; [|done]. apply elem_of_intersection. split; [done|].
  apply fingerprints_elem in Hkept as (x & -> & Hx). apply fingerprints_elem. exists x. split; [done|].
  eapply elem_of_submseteq; [exact Hx|by apply sublist_submseteq].
Qed.
End Admission.

(** ** The pass over what was let in *)
Section Pass.
Context {W Stored Item : Type} `{WireItem Item} `{StoredState Stored Item} `{Wire W Item} `{Host W Stored}.
Context (sha256 : list Z -> list Z) (fifth : Duration -> Duration).
Context (parse_json : list Z -> option Json) (rfc2822 : string -> option Z) (slug : string) (legacy_pending : gset string).

(** The host: no error of the authority, the token, the joins or a save asks
    for settlement, a save acknowledges nothing, lengths are unsigned. *)
Record host_unsettled : Prop := {
  authority_unsettled : forall w e w', ensure_authority w = (Some e, w') -> unsettled e;
  token_unsettled : forall w e w', issue_relay_token w = (inl e, w') -> unsettled e;
  joined_unsettled : forall items w e w', validate_joined items w = (Some e, w') -> unsettled e;
  save_unsettled : forall p w e p' w', save p w = (Some e, p', w') -> unsettled e;
  save_grows : forall p w failed p' w', save p w = (failed, p', w') -> grows ∅ p p';
  lengths_unsigned : forall (item : Item) n, json_length item = Some n -> 0 <= n;
}.
Context (Hhost : host_unsettled).

Lemma outcome_unsettled outcome count now e : batch_outcome parse_json rfc2822 outcome count now = inl e -> unsettled e.
Proof.
  destruct outcome as [[response|]|code retry_after body|text]; cbn; [done|intros [= <-]; by repeat constructor| |intros [= <-]; by repeat constructor].
  intros [= <-]. unfold shed_from_response. repeat case_match; by repeat constructor.
Qed.
Lemma checked_unsettled request enforce w e w' : upload_checked parse_json rfc2822 request enforce w = (inl e, w') -> unsettled e.
Proof.
  unfold upload_checked. destruct (preflight request); [intros [= <- _]; by repeat constructor|].
  destruct (ensure_authority w) as [[e1|] w1] eqn:E1; [intros [= <- _]; by eapply (authority_unsettled Hhost)|].
  destruct (issue_relay_token w1) as [[e2|token] w2] eqn:E2; [intros [= <- _]; by eapply (token_unsettled Hhost)|].
  destruct (ensure_authority w2) as [[e3|] w3] eqn:E3; [intros [= <- _]; by eapply (authority_unsettled Hhost)|].
  destruct (validate_joined _ w3) as [[e4|] w4] eqn:E4; [intros [= <- _]; by eapply (joined_unsettled Hhost)|].
  destruct (upload_batch _ _ _ _ _ _) as [[e5|response] w5] eqn:E5.
  - intros [= <- _]. unfold upload_batch in E5. destruct (post _ _ _ _) as [outcome w6]. injection E5 as E5 _. by eapply outcome_unsettled.
  - destruct (validate_entity_ack_with_head_cas _ _ _) as [e6|[]] eqn:E6; [|done]. intros [= <- _].
    unfold validate_entity_ack_with_head_cas in E6. repeat (case_match; simplify_eq); by repeat constructor.
Qed.
Lemma wired_unsettled : transport_unsettled (H1 := wired parse_json rfc2822 slug legacy_pending) (Stored := Stored) (Item := Item).
Proof.
  split; cbn; [|apply (save_unsettled Hhost)|apply (save_grows Hhost)]. intros items w e w'.
  unfold send_page. destruct (upload_checked _ _ _ _ _) as [[e1|response] w1] eqn:E1; [intros [= <- _]; by eapply checked_unsettled|].
  destruct (require_normal_write_ack_for_legacy_reconciliation _ _ _) eqn:Er; [|done]. intros [= <- _].
  unfold require_normal_write_ack_for_legacy_reconciliation in Er. repeat (case_match; simplify_eq); by repeat constructor.
Qed.

(** C14: What was let in goes through: when the ledger owed at most 4,096
    acknowledgements that the live index does not list, a pass over the input
    that admission returned never stops for want of room for its
    acknowledgements, whatever the backend answers: as long as it runs on the
    ledger admission left, and the host's own calls ([host_unsettled]) do not
    report that error.  A ledger that already owes more stops for want of room. *)
Theorem admitted_pass_never_stops (items : list Item) (index : ScanIndex) (p : Progress Stored) stop kept (p' : Progress Stored) budget
    (s : UploadState W Stored) e s' :
  admit_upload_input items index p = (stop, kept, p') ->
  (size (accepted_fingerprints p ∖ upload_progress_ack_incidence index) <= Z.to_nat MAX_UNSETTLED_ACKS)%nat ->
  accepted_fingerprints (progress s) = accepted_fingerprints p' -> ack_capacity (progress s) = ack_capacity p' ->
  upload_pass sha256 fifth parse_json rfc2822 slug legacy_pending kept budget s = (inl e, s') -> unsettled e.
Proof.
  intros Ha Hl Hacc Hcap Hs. destruct (admission_room _ _ _ _ _ _ _ Ha Hl) as [Hroom _].
  assert (Hr : roomy (fingerprints kept) (progress s)) by (unfold roomy in *; by rewrite Hacc, Hcap).
  assert (Hin : forall item, item ∈ kept -> fingerprint item ∈ fingerprints kept) by (intros item Hi; apply fingerprints_elem; by exists item).
  set (wd := wired parse_json rfc2822 slug legacy_pending).
  destruct (pass_runs (H1 := wd) sha256 fifth (fingerprints kept) wired_unsettled (lengths_unsigned Hhost) kept budget Hin s Hr) as [_ He].
  unfold upload_pass in Hs. fold wd in Hs. cbv zeta in Hs. by rewrite Hs in He.
Qed.
End Pass.

(** ** Witness *)
#[local] Existing Instances body_snapshot body_wire no_evidence script_wire script_host.
Lemma example_unsettled : host_unsettled (W := Script) (Stored := unit) (Item := Body).
Proof.
  split; cbn; [by intros|by intros|by intros|by intros| |].
  - intros p w failed p' w' [= <- <- <-]. split; [done|set_solver].
  - intros item n [= <-]. lia.
Qed.
Definition admitted_state (script : list HttpOutcome) : UploadState Script unit :=
  (fresh_state script) {{ progress := (admit_upload_input [body_a; body_b] (mkIndex 1 ∅ ∅ ∅ ∅ ∅ ∅ true (fun _ => false) None)
    (progress (fresh_state script))).2 }}.
Definition refused_pass : (Error + option ResumableUploadResult) * UploadState Script unit :=
  upload_pass id fifth_of (fun _ => None) (fun _ => None) "codex" ∅ [body_a; body_b] (mkBudget 0 0) (admitted_state [TransportError "connection refused"]).
Lemma admitted_pass_never_stops_witness : unsettled [Diagnostics (mkDiagnostics "snapshot_batch" "transport_connection" None)].
Proof.
  apply (admitted_pass_never_stops id fifth_of (fun _ => None) (fun _ => None) "codex" ∅ example_unsettled [body_a; body_b]
    (mkIndex 1 ∅ ∅ ∅ ∅ ∅ ∅ true (fun _ => false) None) (progress (fresh_state [TransportError "connection refused"])) None [body_a; body_b]
    (progress (admitted_state [TransportError "connection refused"])) (mkBudget 0 0)
    (admitted_state [TransportError "connection refused"]) _ refused_pass.2); [vm_compute; reflexivity|vm_compute; lia|reflexivity|reflexivity|vm_compute; reflexivity].
Defined.
