(* ===== verification/LegacySettlement.v ===== *)
(** The settlement ledger of a scan index written by an older build, and its
    migration (crates/ottto-service/src/snapshots/scan_index/historical_replay.rs,
    with the quarantine retention and admission re-offers of
    snapshots/upload/reoffer_quarantine.rs).

    An old index may say a revision is accepted without proof.  The migration
    forgets what it cannot prove, arms the current revisions in pages for the
    upload, and seals the ledger once each is accepted or disclosed.

    A [LegacyIndex] is the part of the scan index these operations read, over
    the [ScanIndex] of AckRetention; of a traversal it has what decides whether
    it is reset.  A set that the code walks in order is walked in the order of
    its bytes ([in_order]).  The quarantine witness of the running build and
    which entries hold history evidence are arguments.  Log lines are left out,
    and of [prepare_historical_replay] the fields that are not modelled. *)
From stdpp Require Import gmap strings.
From S2P Require Import Prelude.
From S2P Require Import OrdMap.
From S2P Require Import Quarantine.
From S2P Require Import AckRetention.
From coqutil Require Import Datatypes.RecordSetters.
Import DoubleBraceUpdate.
Local Open Scope Z_scope.

Definition SNAPSHOT_ACCEPTED_LEDGER_VERSION : Z := 2.
Definition SNAPSHOT_ACCEPTED_LEDGER_UNPROVEN_VERSION : Z := 1.
Definition SNAPSHOT_ACCEPTED_LEDGER_PRE_LEDGER_VERSION : Z := 0.
Definition MAX_SNAPSHOT_ITEM_WIRE_BYTES : Z := 640 * 1024.
Definition SNAPSHOT_UNPROVEN_RETRY_CONTRACT_VERSION : string := "snapshot_unproven_retry:v1".

(** ** The index *)
Inductive UnsettledUploadCause :=
  | Shed | UploadError | DeferredConflict | RejectedWithHolds | CompletedBlockingHolds | AuthorityCensusWithheld
  | LegacyReconcile | AdmissionReoffer | Unattributed.
Definition cause_index (c : UnsettledUploadCause) : Z :=
  match c with
  | Shed => 0 | UploadError => 1 | DeferredConflict => 2 | RejectedWithHolds => 3 | CompletedBlockingHolds => 4
  | AuthorityCensusWithheld => 5 | LegacyReconcile => 6 | AdmissionReoffer => 7 | Unattributed => 8
  end.
Definition bit (c : UnsettledUploadCause) : Z := Z.shiftl 1 (cause_index c).

Record Traversal := mkTraversal {
  pending_directories : list string;
  pending_candidates : list string;
  has_errors : bool;
}.
Record LegacyIndex := mkLegacy {
  scan : ScanIndex;
  accepted_snapshot_fingerprint_ledger_version : Z;
  legacy_settlement_reconcile_after_fingerprint : option string;
  quarantined_snapshot_fingerprints : gmap string SnapshotQuarantineRecord;
  traversal : option Traversal;
  bounded_sweep_had_unsettled_upload : bool;
  bounded_sweep_unsettled_causes : Z;
  historical_replay_generation : option string;
}.
Implicit Types (s : LegacyIndex) (i : ScanIndex) (limit : nat) (fp : string).

Definition with_accepted (fps : gset string) s : LegacyIndex :=
  s {{ scan := (scan s) {{ accepted_snapshot_fingerprints := fps }} }}.
Abbreviation accepted s := (accepted_snapshot_fingerprints (scan s)).
Abbreviation current s := (current_snapshot_fingerprint_refs (scan s)).
Abbreviation version s := (accepted_snapshot_fingerprint_ledger_version s).
Abbreviation cursor s := (legacy_settlement_reconcile_after_fingerprint s).

Definition unsettled_cause_bits s : Z :=
  if bounded_sweep_had_unsettled_upload s
  then if bounded_sweep_unsettled_causes s =? 0 then bit Unattributed else bounded_sweep_unsettled_causes s
  else 0.
Definition mark_bounded_sweep_unsettled_by (cause : UnsettledUploadCause) s : LegacyIndex :=
  s {{ bounded_sweep_unsettled_causes := Z.lor (unsettled_cause_bits s) (bit cause) }}
    {{ bounded_sweep_had_unsettled_upload := true }}.
(** Only a traversal that ended with errors is reset. *)
Definition terminal_unhealthy (t : Traversal) : bool :=
  bool_decide (pending_directories t = []) && bool_decide (pending_candidates t = []) && has_errors t.
Definition reset_unhealthy_traversal s : LegacyIndex :=
  match traversal s with
  | Some t => if terminal_unhealthy t then s {{ traversal := None }} else s
  | None => s
  end.

(** Files held by the decoder do not count. *)
Definition eligible_snapshot_fingerprint_refs i : gset string :=
  let exact := map_to_list (file_snapshot_fingerprints i) ≫= (fun f => if decode_holds_file i f.1 then [] else elements f.2) in
  let legacy := omap (fun f => if bool_decide (file_snapshot_fingerprints i !! f.1 = None) && negb (decode_holds_file i f.1)
    then last_snapshot_fingerprint f.2 else None) (map_to_list (files i)) in
  list_to_set (exact ++ legacy).
Definition carried_ack_fingerprints i : gset string :=
  list_to_set (map_to_list (accepted_rebuild_incidence i) ≫= (fun f => elements f.2)).
(** The exact sets alone. *)
Definition exact_snapshot_fingerprints i : gset string :=
  list_to_set (map_to_list (file_snapshot_fingerprints i) ≫= (fun f => elements f.2)).
Definition in_order (fps : gset string) : list string := foldl (fun l fp => (bs_insert fp l).1) [] (elements fps).

(** ** The migration *)
Definition legacy_settlement_ledger_needs_migration s : bool := negb (version s =? SNAPSHOT_ACCEPTED_LEDGER_VERSION).
Definition legacy_settlement_ledger_is_unproven s : bool :=
  (version s =? SNAPSHOT_ACCEPTED_LEDGER_UNPROVEN_VERSION) ||
  ((version s =? SNAPSHOT_ACCEPTED_LEDGER_PRE_LEDGER_VERSION) &&
   negb (bool_decide (accepted s = ∅)) && bool_decide (cursor s = None)).
Definition reopen_unproven_accepted_snapshot_ledger s : LegacyIndex :=
  if legacy_settlement_ledger_is_unproven s
  then (with_accepted ∅ s) {{ legacy_settlement_reconcile_after_fingerprint := None }}
    {{ accepted_snapshot_fingerprint_ledger_version := 0 }}
  else s.
(** No record, or one that waits for its retry. *)
Definition undisclosed s fp : bool :=
  match quarantined_snapshot_fingerprints s !! fp with Some r => retry_pending r | None => true end.
Definition legacy_settlement_reconciliation_pending_fingerprints s : gset string :=
  if version s =? SNAPSHOT_ACCEPTED_LEDGER_VERSION then ∅
  else filter (fun fp => undisclosed s fp = true) (current s ∖ accepted s).
Definition seal_ledger s : LegacyIndex :=
  s {{ accepted_snapshot_fingerprint_ledger_version := SNAPSHOT_ACCEPTED_LEDGER_VERSION }}
    {{ legacy_settlement_reconcile_after_fingerprint := None }}.

Definition unarmed_fingerprints s : gset string :=
  filter (fun fp => decode_holds_entity (scan s) fp = false /\ quarantined_snapshot_fingerprints s !! fp = None)
    (eligible_snapshot_fingerprint_refs (scan s) ∩ legacy_settlement_reconciliation_pending_fingerprints s).
(** A page of the revisions beyond the cursor, then of those up to it. *)
Definition beyond (after : option string) fp : bool := match after with Some c => rltb c fp | None => true end.
Definition next_page (after : option string) (unarmed : gset string) limit : list string :=
  let above := filter (fun fp => beyond after fp = true) (in_order unarmed) in
  let below := filter (fun fp => beyond after fp = false) (in_order unarmed) in
  take limit (above ++ below).
Definition armed_record (running : SnapshotQuarantineWitness) : SnapshotQuarantineRecord :=
  mkQuarantine current_contract None (running {{ contract := SNAPSHOT_UNPROVEN_RETRY_CONTRACT_VERSION }}) 0 None 0 RetryPending.
(** The armed revisions, and whether the index changed. *)
Definition prepare_legacy_settlement_reconciliation (running : SnapshotQuarantineWitness) limit s :
    gset string * bool * LegacyIndex :=
  if version s =? SNAPSHOT_ACCEPTED_LEDGER_VERSION then (∅, false, s)
  else if upload_progress_ack_incidence_unknown (scan s) then (∅, false, s)
  else
    let s := reopen_unproven_accepted_snapshot_ledger s in
    if bool_decide (legacy_settlement_reconciliation_pending_fingerprints s = ∅) && negb (legacy_settlement_ledger_is_unproven s)
    then (∅, true, seal_ledger s)
    else
      let unarmed := unarmed_fingerprints s in
      if bool_decide (unarmed = ∅) || bool_decide (limit = 0%nat) then (∅, false, s)
      else
        let selected : gset string := list_to_set (next_page (cursor s) unarmed limit) in
        let s := s {{ quarantined_snapshot_fingerprints :=
          (gset_to_gmap (armed_record running) selected ∪ quarantined_snapshot_fingerprints s : gmap string _) }} in
        let s := s {{ legacy_settlement_reconcile_after_fingerprint := last (in_order selected) }} in
        (selected, true, mark_bounded_sweep_unsettled_by LegacyReconcile (reset_unhealthy_traversal s)).
Definition finish_legacy_settlement_reconciliation s : LegacyIndex :=
  if upload_progress_ack_incidence_unknown (scan s) || legacy_settlement_ledger_is_unproven s then s
  else if bool_decide (legacy_settlement_reconciliation_pending_fingerprints s = ∅) then seal_ledger s else s.

(** ** What an upload and a replay leave of it *)
Definition kept_ack (known : gset string) s fp : bool :=
  (upload_progress_ack_incidence_unknown (scan s) || bool_decide (fp ∈ carried_ack_fingerprints (scan s)) || bool_decide (fp ∈ known)) &&
  bool_decide (quarantined_snapshot_fingerprints s !! fp = None).
Definition record_accepted_snapshot_fingerprints (acknowledged : gset string) s : LegacyIndex :=
  let taken := accepted s ∪ filter (fun fp => decode_holds_entity (scan s) fp = false) acknowledged in
  with_accepted (filter (fun fp => kept_ack (current s) s fp = true) taken) s.
Definition retain_quarantined_fingerprints (quarantined : gmap string SnapshotQuarantineRecord) s : LegacyIndex :=
  let exact := exact_snapshot_fingerprints (scan s) in
  let previous := quarantined_snapshot_fingerprints s in
  let replay_safe_absent_terminals := filter (fun e => (e.1 ∉ exact) /\ disposition e.2 <> RetryPending) previous in
  let previous_claims := filter (fun e => is_Some (contract_retry_claims e.2)) previous in
  let retained := filter (fun e => e.1 ∈ exact \/ disposition e.2 = SupersededTerminal) quarantined in
  let s := s {{ quarantined_snapshot_fingerprints :=
    ((merge_maps (retained ∪ replay_safe_absent_terminals) previous_claims).1 : gmap string _) }} in
  with_accepted (filter (fun fp => kept_ack exact s fp = true) (accepted s)) s.
Definition settle_index_after_upload (quarantined : gmap string SnapshotQuarantineRecord) (acknowledged : gset string) s : LegacyIndex :=
  record_accepted_snapshot_fingerprints acknowledged (retain_quarantined_fingerprints quarantined s).

(** Re-offers up to [limit] current refusals made under a smaller admission limit. *)
Definition admission_owed s (e : string * SnapshotQuarantineRecord) : bool :=
  bool_decide (e.1 ∈ eligible_snapshot_fingerprint_refs (scan s)) && negb (bool_decide (e.1 ∈ accepted s)) &&
  (item_wire_byte_limit (witness e.2) <? MAX_SNAPSHOT_ITEM_WIRE_BYTES) && negb (bool_decide (disposition e.2 = SupersededTerminal)).
Definition admission_record (r : SnapshotQuarantineRecord) : SnapshotQuarantineRecord :=
  r {{ witness := (witness r) {{ item_wire_byte_limit := MAX_SNAPSHOT_ITEM_WIRE_BYTES }} }}
    {{ retry_after_unix_seconds := 0 }} {{ failed_reconstruction_count := 0 }} {{ disposition := RetryPending }}.
Definition prepare_snapshot_admission_reoffer limit s : bool * LegacyIndex :=
  let owed : gset string := dom (filter (fun e => admission_owed s e = true) (quarantined_snapshot_fingerprints s)) in
  let selected := take limit (in_order owed) in
  let s := s {{ quarantined_snapshot_fingerprints :=
    (foldr (alter admission_record) (quarantined_snapshot_fingerprints s) selected : gmap string _) }} in
  match selected with
  | [] => (false, s)
  | _ => (true, mark_bounded_sweep_unsettled_by AdmissionReoffer (reset_unhealthy_traversal s))
  end.
Definition snapshot_admission_reoffer_pending s : bool :=
  existsb (fun e => (item_wire_byte_limit (witness e.2) =? MAX_SNAPSHOT_ITEM_WIRE_BYTES) && retry_pending e.2)
    (map_to_list (quarantined_snapshot_fingerprints s)).

Definition prepare_historical_replay (history_evidence : string -> ScanIndexEntry -> bool) (generation : string) s : bool * LegacyIndex :=
  if bool_decide (historical_replay_generation s = Some generation) then (false, s)
  else
    let kept := filter (fun f => history_evidence f.1 f.2 = true) (files (scan s)) in
    let replayed := (scan s) {{ files := ((fun _ => mkIndexEntry None None) <$> kept : gmap string _) }}
      {{ file_snapshot_fingerprints := (∅ : gmap string (gset string)) }}
      {{ accepted_snapshot_fingerprints := (∅ : gset string) }}
      {{ accepted_rebuild_incidence := (∅ : gmap string (gset string)) }} in
    (true, s {{ scan := replayed }} {{ historical_replay_generation := Some generation }}
      {{ bounded_sweep_had_unsettled_upload := false }} {{ bounded_sweep_unsettled_causes := 0 }} {{ traversal := None }}
      {{ accepted_snapshot_fingerprint_ledger_version := SNAPSHOT_ACCEPTED_LEDGER_VERSION }}
      {{ legacy_settlement_reconcile_after_fingerprint := None }}
      {{ quarantined_snapshot_fingerprints :=
        (filter (fun e => disposition e.2 <> RetryPending) (quarantined_snapshot_fingerprints s) : gmap string _) }}).

(** ** Runs *)
Inductive LedgerStep :=
  | Armed (limit : nat)
  | Finished
  | Settled (quarantined : gmap string SnapshotQuarantineRecord) (acknowledged : gset string)
  | Reoffered (limit : nat)
  | Replayed (history_evidence : string -> ScanIndexEntry -> bool) (generation : string)
  (** A scan: anything but a new acceptance or a change of the ledger. *)
  | Scanned (found : LegacyIndex).
Section Runs.
Context (running : SnapshotQuarantineWitness).
Definition rescan (found : LegacyIndex) s : LegacyIndex :=
  (with_accepted (accepted found ∩ accepted s) found)
    {{ accepted_snapshot_fingerprint_ledger_version := version s }}
    {{ legacy_settlement_reconcile_after_fingerprint := cursor s }}.
Definition settlement_step s (step : LedgerStep) : LegacyIndex :=
  match step with
  | Armed limit => (prepare_legacy_settlement_reconciliation running limit s).2
  | Finished => finish_legacy_settlement_reconciliation s
  | Settled quarantined acknowledged => settle_index_after_upload quarantined acknowledged s
  | Reoffered limit => (prepare_snapshot_admission_reoffer limit s).2
  | Replayed history_evidence generation => (prepare_historical_replay history_evidence generation s).2
  | Scanned found => rescan found s
  end.
Definition settlement_steps (steps : list LedgerStep) s : LegacyIndex := foldl settlement_step s steps.
Definition acknowledged_in (step : LedgerStep) : gset string := match step with Settled _ acknowledged => acknowledged | _ => ∅ end.
Definition all_acknowledged (steps : list LedgerStep) : gset string := ⋃ (acknowledged_in <$> steps).

(** ** What an operation leaves alone *)
Lemma with_accepted_reads fps s : accepted (with_accepted fps s) = fps /\ version (with_accepted fps s) = version s /\
  cursor (with_accepted fps s) = cursor s /\ quarantined_snapshot_fingerprints (with_accepted fps s) = quarantined_snapshot_fingerprints s /\
  current (with_accepted fps s) = current s.
Proof. destruct s as [[]]. done. Qed.
Lemma reset_reads s : scan (reset_unhealthy_traversal s) = scan s /\ version (reset_unhealthy_traversal s) = version s /\
  cursor (reset_unhealthy_traversal s) = cursor s /\
  quarantined_snapshot_fingerprints (reset_unhealthy_traversal s) = quarantined_snapshot_fingerprints s.
Proof. unfold reset_unhealthy_traversal. by repeat case_match; destruct s. Qed.
Lemma mark_reads cause s : scan (mark_bounded_sweep_unsettled_by cause s) = scan s /\
  version (mark_bounded_sweep_unsettled_by cause s) = version s /\ cursor (mark_bounded_sweep_unsettled_by cause s) = cursor s /\
  quarantined_snapshot_fingerprints (mark_bounded_sweep_unsettled_by cause s) = quarantined_snapshot_fingerprints s.
Proof. by destruct s. Qed.
Lemma seal_reads s : scan (seal_ledger s) = scan s /\ version (seal_ledger s) = SNAPSHOT_ACCEPTED_LEDGER_VERSION /\
  quarantined_snapshot_fingerprints (seal_ledger s) = quarantined_snapshot_fingerprints s.
Proof. by destruct s. Qed.
Lemma settle_reads quarantined acknowledged s : version (settle_index_after_upload quarantined acknowledged s) = version s /\
  cursor (settle_index_after_upload quarantined acknowledged s) = cursor s /\
  current (settle_index_after_upload quarantined acknowledged s) = current s /\
  accepted (settle_index_after_upload quarantined acknowledged s) ⊆ accepted s ∪ acknowledged.
Proof.
  destruct s as [[]]. split; [done|]. split; [done|]. split; [done|].
  unfold settle_index_after_upload, record_accepted_snapshot_fingerprints, retain_quarantined_fingerprints.
  cbn -[filter union merge_maps kept_ack]. unfold constant. intros fp. rewrite elem_of_filter, !elem_of_union, !elem_of_filter. tauto.
Qed.
Lemma reoffer_reads limit s : scan (prepare_snapshot_admission_reoffer limit s).2 = scan s /\
  version (prepare_snapshot_admission_reoffer limit s).2 = version s /\ cursor (prepare_snapshot_admission_reoffer limit s).2 = cursor s.
Proof.
  unfold prepare_snapshot_admission_reoffer. set (selected := take _ _). clearbody selected.
  destruct selected; cbn [snd]; [by destruct s|]. set (s' := s {{ quarantined_snapshot_fingerprints := _ }}).
  destruct (mark_reads AdmissionReoffer (reset_unhealthy_traversal s')) as (-> & -> & -> & _).
  destruct (reset_reads s') as (-> & -> & -> & _). by destruct s.
Qed.

(** ** The seal *)
Abbreviation unproven := legacy_settlement_ledger_is_unproven.
Abbreviation pending := legacy_settlement_reconciliation_pending_fingerprints.
(** What an unsealed ledger says is accepted was acknowledged, or will be forgotten. *)
Definition proven_by (acknowledged : gset string) s : Prop :=
  legacy_settlement_ledger_needs_migration s = true -> unproven s = true \/ accepted s ⊆ acknowledged.
(** Each current revision is accepted with proof, or disclosed. *)
Definition settled_with_proof (acknowledged : gset string) s : Prop :=
  forall fp, fp ∈ current s -> (fp ∈ accepted s /\ fp ∈ acknowledged) \/
    exists r, quarantined_snapshot_fingerprints s !! fp = Some r /\ disposition r <> RetryPending.
Lemma seal_settled acknowledged s : legacy_settlement_ledger_needs_migration s = true -> accepted s ⊆ acknowledged -> pending s = ∅ ->
  settled_with_proof acknowledged (seal_ledger s).
Proof.
  unfold legacy_settlement_ledger_needs_migration. intros Hv Ha Hp fp. destruct (seal_reads s) as (-> & _ & ->). intros Hc.
  unfold pending in Hp. apply negb_true_iff in Hv. rewrite Hv in Hp.
  destruct (decide (fp ∈ accepted s)) as [Hin|Hn]; [left; split; [done|by apply Ha]|]. right.
  destruct (undisclosed s fp) eqn:Eu; [set_solver|]. unfold undisclosed in Eu.
  destruct (quarantined_snapshot_fingerprints s !! fp) as [r|]; [|done]. exists r. split; [done|].
  unfold retry_pending in Eu. by apply bool_decide_eq_false in Eu.
Qed.
Lemma reopen_proven acknowledged s : legacy_settlement_ledger_needs_migration s = true -> proven_by acknowledged s ->
  let s1 := reopen_unproven_accepted_snapshot_ledger s in
  legacy_settlement_ledger_needs_migration s1 = true /\ unproven s1 = false /\ accepted s1 ⊆ acknowledged /\
  current s1 = current s /\ quarantined_snapshot_fingerprints s1 = quarantined_snapshot_fingerprints s.
Proof.
  intros Hm Hp. unfold reopen_unproven_accepted_snapshot_ledger. destruct (unproven s) eqn:Eu.
  - destruct s as [[]]. split; [done|]. unfold legacy_settlement_ledger_is_unproven. cbn. unfold constant.
    rewrite (bool_decide_eq_true_2 (∅ = ∅)) by done. repeat split. set_solver.
  - destruct (Hp Hm) as [?|?]; [congruence|done].
Qed.
Lemma reopened_not_unproven s : unproven (reopen_unproven_accepted_snapshot_ledger s) = false.
Proof. unfold reopen_unproven_accepted_snapshot_ledger. destruct (unproven s) eqn:E; [|done]. by destruct s as [[]]. Qed.
(** What arming does of an unsealed ledger. *)
Inductive arms limit s : LegacyIndex -> Prop :=
  | arms_opaque : upload_progress_ack_incidence_unknown (scan s) = true -> arms limit s s
  | arms_seal : pending (reopen_unproven_accepted_snapshot_ledger s) = ∅ ->
      arms limit s (seal_ledger (reopen_unproven_accepted_snapshot_ledger s))
  | arms_nothing : pending (reopen_unproven_accepted_snapshot_ledger s) <> ∅ ->
      unarmed_fingerprints (reopen_unproven_accepted_snapshot_ledger s) = ∅ \/ limit = 0%nat ->
      arms limit s (reopen_unproven_accepted_snapshot_ledger s)
  | arms_page s' (s1 := reopen_unproven_accepted_snapshot_ledger s)
      (page : gset string := list_to_set (next_page (cursor s1) (unarmed_fingerprints s1) limit)) :
      unarmed_fingerprints s1 <> ∅ -> limit <> 0%nat ->
      scan s' = scan s1 -> version s' = version s1 -> cursor s' = last (in_order page) ->
      quarantined_snapshot_fingerprints s' = gset_to_gmap (armed_record running) page ∪ quarantined_snapshot_fingerprints s1 ->
      arms limit s s'.
Lemma armed_arms limit s : legacy_settlement_ledger_needs_migration s = true ->
  arms limit s (prepare_legacy_settlement_reconciliation running limit s).2.
Proof.
  unfold legacy_settlement_ledger_needs_migration. intros Hm%negb_true_iff. unfold prepare_legacy_settlement_reconciliation. rewrite Hm.
  destruct (upload_progress_ack_incidence_unknown _) eqn:Eo; [by constructor|].
  set (s1 := reopen_unproven_accepted_snapshot_ledger s).
  destruct (bool_decide (pending s1 = ∅) && _) eqn:Ep; [apply andb_true_iff in Ep as [Ep%bool_decide_eq_true _]; by constructor|].
  unfold s1 in Ep. rewrite reopened_not_unproven, andb_true_r in Ep. apply bool_decide_eq_false in Ep. fold s1 in Ep.
  destruct (bool_decide (unarmed_fingerprints s1 = ∅) || _) eqn:El.
  { apply orb_true_iff in El as [E%bool_decide_eq_true|E%bool_decide_eq_true]; constructor; [done|by left|done|by right]. }
  apply orb_false_iff in El as [E1%bool_decide_eq_false E2%bool_decide_eq_false]. cbv zeta. cbn [snd].
  set (page := list_to_set _ : gset string). set (s2 := s1 {{ quarantined_snapshot_fingerprints := _ }}).
  set (s3 := s2 {{ legacy_settlement_reconcile_after_fingerprint := _ }}).
  destruct (mark_reads LegacyReconcile (reset_unhealthy_traversal s3)) as (H1 & H2 & H3 & H4).
  destruct (reset_reads s3) as (R1 & R2 & R3 & R4).
  apply arms_page; [done|done|rewrite H1, R1|rewrite H2, R2|rewrite H3, R3|rewrite H4, R4];
    unfold s3, s2, page; fold s1; generalize dependent s1; intros [] **; done.
Qed.

Lemma same_ledger_proven s s' acknowledged more : version s' = version s -> cursor s' = cursor s ->
  accepted s' ⊆ accepted s ∪ more -> proven_by acknowledged s ->
  proven_by (acknowledged ∪ more) s' /\
  (legacy_settlement_ledger_needs_migration s = true -> legacy_settlement_ledger_needs_migration s' = false -> settled_with_proof acknowledged s').
Proof.
  unfold proven_by, legacy_settlement_ledger_needs_migration, legacy_settlement_ledger_is_unproven. intros -> -> Ha Hp.
  split; [|congruence]. intros Hm. destruct (Hp Hm) as [Hu|Hs]; [|right; set_solver]. apply orb_true_iff in Hu as [->|Hu]; [by left|].
  destruct (decide (accepted s' = ∅)) as [He|He]; [right; rewrite He; set_solver|left].
  rewrite (bool_decide_eq_false_2 _ He). apply andb_true_iff in Hu as [Hu ->]. apply andb_true_iff in Hu as [-> _]. by rewrite orb_true_r.
Qed.
(** Each step keeps the ledger proven, and seals it only settled. *)
Lemma step_proven acknowledged s step : proven_by acknowledged s ->
  proven_by (acknowledged ∪ acknowledged_in step) (settlement_step s step) /\
  (legacy_settlement_ledger_needs_migration s = true -> legacy_settlement_ledger_needs_migration (settlement_step s step) = false ->
   settled_with_proof acknowledged (settlement_step s step)).
Proof.
  intros Hp. destruct step as [limit| |quarantined acknowledged'|limit|history_evidence generation|found]; cbn [settlement_step acknowledged_in]; rewrite ?union_empty_r_L.
  - destruct (legacy_settlement_ledger_needs_migration s) eqn:Em.
    2: { apply negb_false_iff in Em. unfold prepare_legacy_settlement_reconciliation. rewrite Em. by split. }
    destruct (reopen_proven acknowledged s Em Hp) as (Hm1 & Hu1 & Ha1 & Hc1 & Hq1).
    destruct (armed_arms limit s Em) as [Ho|Hpe|_ Hn|s' s1 page Hun Hl H1 H2 H3 H4].
    + split; [done|congruence].
    + split; [by destruct (reopen_unproven_accepted_snapshot_ledger s)|]. intros _ _. by apply seal_settled.
    + split; [by right|congruence].
    + split; [|intros _; unfold legacy_settlement_ledger_needs_migration in *; rewrite H2; fold s1 in Hm1; congruence].
      intros _. right. by rewrite H1.
  - unfold finish_legacy_settlement_reconciliation. destruct (_ || _) eqn:Eo; [split; [done|congruence]|].
    case_bool_decide as Hpe; [|split; [done|congruence]]. apply orb_false_iff in Eo as [_ Hu].
    split; [by destruct s|]. intros Hm _. apply seal_settled; [done| |done]. destruct (Hp Hm); [congruence|done].
  - destruct (settle_reads quarantined acknowledged' s) as (Hv & Hcu & _ & Ha). by apply (same_ledger_proven s).
  - destruct (reoffer_reads limit s) as (Hs & Hv & Hcu). rewrite <-(union_empty_r_L acknowledged) at 1.
    apply (same_ledger_proven s); [done|done|rewrite Hs; set_solver|done].
  - unfold prepare_historical_replay. case_bool_decide; cbn [snd]; [split; [done|congruence]|]. split; [by destruct s|]. intros _ _ fp Hfp. exfalso.
    revert Hfp. destruct s as [[]]. unfold current_snapshot_fingerprint_refs. cbn -[filter]. unfold constant. rewrite map_to_list_empty. cbn [mbind list_bind app].
    rewrite elem_of_list_to_set, list_elem_of_omap. intros ([k e] & Hin & He). apply elem_of_map_to_list, lookup_fmap_Some in Hin as (e0 & <- & _).
    cbn in He. by case_match.
  - rewrite <-(union_empty_r_L acknowledged) at 1. apply (same_ledger_proven s); [by destruct found..| |done].
    destruct found as [[]]. cbn. unfold constant. set_solver.
Qed.
Lemma steps_proven steps s : unproven s = true -> proven_by (all_acknowledged steps) (settlement_steps steps s).
Proof.
  intros Hu. induction steps as [|step steps IH] using rev_ind; [by left|].
  unfold settlement_steps, all_acknowledged in *. rewrite foldl_app, fmap_app, union_list_app_L. cbn [foldl fmap list_fmap union_list foldr].
  rewrite union_empty_r_L. by apply step_proven.
Qed.

(** C11: The ledger is sealed with proof: whatever scans, uploads, re-offers and
    pages came before, in any order, when an unproven ledger is sealed each
    current revision is disclosed by a terminal record, or is accepted and was
    listed as acknowledged by an upload settled since. *)
Theorem ledger_sealed_with_proof steps final s fp : unproven s = true ->
  legacy_settlement_ledger_needs_migration (settlement_steps steps s) = true ->
  legacy_settlement_ledger_needs_migration (settlement_steps (steps ++ [final]) s) = false ->
  fp ∈ current_snapshot_fingerprint_refs (scan (settlement_steps (steps ++ [final]) s)) ->
  (fp ∈ accepted_snapshot_fingerprints (scan (settlement_steps (steps ++ [final]) s)) /\ fp ∈ all_acknowledged steps) \/
  exists r, quarantined_snapshot_fingerprints (settlement_steps (steps ++ [final]) s) !! fp = Some r /\ disposition r <> RetryPending.
Proof.
  intros Hu Hm Hs Hfp. unfold settlement_steps in *. rewrite foldl_app in *. cbn [foldl] in *.
  by apply (step_proven (all_acknowledged steps) _ final (steps_proven steps s Hu)).
Qed.

(** ** The migration ends *)
(** Nothing is held, and every file has an exact set. *)
Record quiet s : Prop := {
  quiet_files : forall key, decode_holds_file (scan s) key = false;
  quiet_entities : forall fp, decode_holds_entity (scan s) fp = false;
  quiet_exact : forall key entry, files (scan s) !! key = Some entry -> is_Some (file_snapshot_fingerprints (scan s) !! key);
}.
(** The backend accepts each revision that waits; the others keep their records. *)
Definition all_accepted s : LegacyIndex :=
  settle_index_after_upload (filter (fun e => retry_pending e.2 = false) (quarantined_snapshot_fingerprints s))
    (dom (filter (fun e => retry_pending e.2 = true) (quarantined_snapshot_fingerprints s))) s.
Definition migration_cycle limit s : LegacyIndex :=
  finish_legacy_settlement_reconciliation (all_accepted (prepare_legacy_settlement_reconciliation running limit s).2).
Definition nothing_waits s : Prop := map_Forall (fun _ r => disposition r <> RetryPending) (quarantined_snapshot_fingerprints s).

Lemma quiet_known s : quiet s -> upload_progress_ack_incidence_unknown (scan s) = false.
Proof.
  intros [Hf _ _]. unfold upload_progress_ack_incidence_unknown. destruct (existsb _ _) eqn:E; [|done].
  apply existsb_exists in E as (key & Hin%list_elem_of_In%elem_of_elements & _). specialize (Hf key).
  unfold decode_holds_file in Hf. by rewrite (bool_decide_eq_true_2 _ Hin) in Hf.
Qed.
Lemma list_fps_elem (m : gmap string (gset string)) (f : string * gset string -> list string) fp :
  fp ∈ (list_to_set (map_to_list m ≫= f) : gset string) <-> exists key fps, m !! key = Some fps /\ fp ∈ f (key, fps).
Proof.
  rewrite elem_of_list_to_set, list_elem_of_bind. split.
  - intros ([key fps] & Hf & Hin%elem_of_map_to_list). by exists key, fps.
  - intros (key & fps & Hm & Hf). exists (key, fps). by rewrite elem_of_map_to_list.
Qed.
Lemma no_legacy s (keep : string -> bool) : quiet s ->
  forall fp, fp ∉ omap (fun f => if bool_decide (file_snapshot_fingerprints (scan s) !! f.1 = None) && keep f.1
    then last_snapshot_fingerprint f.2 else None) (map_to_list (files (scan s))).
Proof.
  intros [_ _ Hx] fp ([key entry] & Hin%elem_of_map_to_list & Hfp)%list_elem_of_omap. destruct (Hx _ _ Hin) as [fps Hs].
  cbn in Hfp. by rewrite Hs in Hfp.
Qed.
Lemma quiet_current s : quiet s ->
  current s = exact_snapshot_fingerprints (scan s) /\ eligible_snapshot_fingerprint_refs (scan s) = exact_snapshot_fingerprints (scan s).
Proof.
  intros Hq. unfold current_snapshot_fingerprint_refs, eligible_snapshot_fingerprint_refs, exact_snapshot_fingerprints.
  split; apply set_eq; intros fp; rewrite list_to_set_app_L, elem_of_union; (split; [intros [Hx|Hl]|intros Hx]).
  - done.
  - exfalso. apply elem_of_list_to_set, list_elem_of_omap in Hl as ([key entry] & Hin & Hl). apply (no_legacy s (fun _ => true) Hq fp).
    apply list_elem_of_omap. exists (key, entry). by rewrite andb_true_r.
  - by left.
  - revert Hx. rewrite !list_fps_elem. intros (key & fps & Hm & Hf). exists key, fps. split; [done|]. cbn in *. by rewrite (quiet_files s Hq) in Hf.
  - exfalso. apply elem_of_list_to_set in Hl. by apply (no_legacy s (fun key => negb (decode_holds_file (scan s) key)) Hq fp).
  - left. revert Hx. rewrite !list_fps_elem. intros (key & fps & Hm & Hf). exists key, fps. split; [done|]. cbn. by rewrite (quiet_files s Hq).
Qed.

(** *** Pages *)
Lemma in_order_spec fps : ksorted id (in_order fps) /\ forall fp, fp ∈ in_order fps <-> fp ∈ fps.
Proof.
  unfold in_order. assert (H : forall l acc, ksorted id acc -> ksorted id (foldl (fun l fp => (bs_insert fp l).1) acc l) /\
    forall fp, fp ∈ foldl (fun l fp => (bs_insert fp l).1) acc l <-> fp ∈ l \/ fp ∈ acc).
  { induction l as [|a l IH]; intros acc Hs; [split; [done|]; set_solver|]. cbn [foldl].
    destruct (IH (bs_insert a acc).1) as [Hs' He]; [by apply bs_insert_sorted|]. split; [done|].
    intros fp. rewrite He, bs_insert_elem, elem_of_cons by done. tauto. }
  destruct (H (elements fps) []) as [Hs He]; [constructor|]. split; [done|]. intros fp. rewrite He, elem_of_elements. set_solver.
Qed.
Lemma next_page_spec after unarmed limit : let page : gset string := list_to_set (next_page after unarmed limit) in
  page ⊆ unarmed /\ size page = (limit `min` size unarmed)%nat.
Proof.
  cbv zeta. unfold next_page. set (above := filter (fun fp => beyond after fp = true) _). set (below := filter (fun fp => beyond after fp = false) _).
  destruct (in_order_spec unarmed) as [Hs He].
  assert (Hp : above ++ below ≡ₚ in_order unarmed).
  { unfold above, below. rewrite (list_filter_iff (fun fp => beyond after fp = false) (fun fp => ~ beyond after fp = true)) by (intros fp; by rewrite not_true_iff_false).
    apply filter_app_complement. }
  assert (Hnd : NoDup (above ++ below)).
  { rewrite Hp. rewrite <-(list_fmap_id (in_order unarmed)). by apply ksorted_NoDup. }
  assert (Hl : length (above ++ below) = size unarmed).
  { rewrite Hp, <-(size_list_to_set (C := gset string)) by by rewrite <-Hp. f_equal. apply set_eq. intros fp. by rewrite elem_of_list_to_set. }
  split.
  - intros fp Hin%elem_of_list_to_set. apply He. rewrite <-Hp. eapply elem_of_submseteq; [exact Hin|]. apply sublist_submseteq, sublist_take.
  - rewrite size_list_to_set, length_take, Hl; [done|]. eapply sublist_NoDup; [exact Hnd|]. apply sublist_take.
Qed.

(** *** A cycle in which everything is accepted *)
Lemma merge_claims_self r : disposition (merge_claims r r).1 = disposition r.
Proof.
  unfold merge_claims. destruct (contract_retry_claims r) as [n|] eqn:En; [|done].
  rewrite (bool_decide_eq_false_2 (upload_body_witness r <> upload_body_witness r)), andb_false_r, Z.ltb_irrefl, Z.eqb_refl by tauto. cbn [negb fst].
  unfold merge_same_contract. rewrite En, Z.ltb_irrefl. destruct r as [c cl w ra body f d]. cbn in *. unfold constant. by destruct d; repeat case_match.
Qed.
Lemma all_accepted_record s fp : disposition <$> quarantined_snapshot_fingerprints (all_accepted s) !! fp =
  (disposition <$> quarantined_snapshot_fingerprints s !! fp) ≫= (fun d => if bool_decide (d = RetryPending) then None else Some d).
Proof.
  unfold all_accepted, settle_index_after_upload, record_accepted_snapshot_fingerprints, retain_quarantined_fingerprints.
  destruct s as [i v c q t b w h]. cbn -[merge_maps filter union exact_snapshot_fingerprints]. unfold constant.
  set (exact := exact_snapshot_fingerprints i). set (previous := filter (fun e => is_Some _) q).
  set (kept := _ ∪ _ : gmap string SnapshotQuarantineRecord).
  assert (Hk : kept !! fp = q !! fp ≫= (fun r => if bool_decide (disposition r = RetryPending) then None else Some r)).
  { unfold kept. rewrite lookup_union, !map_lookup_filter. destruct (q !! fp) as [r|]; [|done]. cbn. unfold retry_pending.
    repeat (cbn; case_guard || case_bool_decide); cbn; try done; try naive_solver; destruct (disposition r); naive_solver. }
  unfold merge_maps. rewrite lookup_update_each, Hk. destruct (q !! fp) as [r|] eqn:Eq; [|done]. cbn.
  case_bool_decide as Ed; [done|]. cbn. f_equal. destruct (previous !! fp) as [r'|] eqn:Ep; [|done].
  unfold previous in Ep. apply map_lookup_filter_Some in Ep as [Ep _]. assert (r' = r) as -> by congruence. apply merge_claims_self.
Qed.
Lemma all_accepted_waits s : nothing_waits (all_accepted s).
Proof.
  intros fp r Hr Hd. pose proof (all_accepted_record s fp) as He. rewrite Hr in He. cbn in He.
  destruct (quarantined_snapshot_fingerprints s !! fp); cbn in He; [|done]. case_bool_decide; [done|]. congruence.
Qed.
Lemma all_accepted_quiet s : quiet s -> quiet (all_accepted s) /\ current (all_accepted s) = current s /\
  version (all_accepted s) = version s /\ cursor (all_accepted s) = cursor s.
Proof. destruct s as [[]]. intros []. split; [|done]. by constructor. Qed.
Lemma kept_ack_known known s fp : fp ∈ known -> quarantined_snapshot_fingerprints s !! fp = None -> kept_ack known s fp = true.
Proof. intros Hk Hq. unfold kept_ack. by rewrite (bool_decide_eq_true_2 (fp ∈ known)), Hq, orb_true_r by done. Qed.
Lemma retain_keeps quarantined s fp : fp ∈ accepted s -> fp ∈ exact_snapshot_fingerprints (scan s) ->
  quarantined_snapshot_fingerprints (retain_quarantined_fingerprints quarantined s) !! fp = None ->
  fp ∈ accepted (retain_quarantined_fingerprints quarantined s).
Proof.
  unfold retain_quarantined_fingerprints. set (s2 := s {{ quarantined_snapshot_fingerprints := _ }}). intros Ha He.
  match goal with |- context [with_accepted ?fps s2] => destruct (with_accepted_reads fps s2) as (-> & _ & _ & -> & _) end.
  intros Hq. apply elem_of_filter. split; [by apply kept_ack_known|]. by destruct s.
Qed.
Lemma record_keeps acknowledged s fp : fp ∈ accepted s \/ fp ∈ acknowledged -> decode_holds_entity (scan s) fp = false -> fp ∈ current s ->
  quarantined_snapshot_fingerprints s !! fp = None -> fp ∈ accepted (record_accepted_snapshot_fingerprints acknowledged s).
Proof.
  intros Ha Hh Hc Hq. unfold record_accepted_snapshot_fingerprints.
  match goal with |- context [with_accepted ?fps s] => destruct (with_accepted_reads fps s) as (-> & _) end.
  apply elem_of_filter. split; [by apply kept_ack_known|]. rewrite elem_of_union, elem_of_filter. tauto.
Qed.
Lemma record_quarantine acknowledged s :
  quarantined_snapshot_fingerprints (record_accepted_snapshot_fingerprints acknowledged s) = quarantined_snapshot_fingerprints s.
Proof. by destruct s. Qed.
Lemma retain_reads quarantined s : current (retain_quarantined_fingerprints quarantined s) = current s /\
  (forall fp, decode_holds_entity (scan (retain_quarantined_fingerprints quarantined s)) fp = decode_holds_entity (scan s) fp).
Proof. by destruct s as [[]]. Qed.
(** What is still pending was pending and had no record. *)
Lemma all_accepted_pending s fp : quiet s -> version s <> SNAPSHOT_ACCEPTED_LEDGER_VERSION -> fp ∈ pending (all_accepted s) ->
  fp ∈ pending s /\ quarantined_snapshot_fingerprints s !! fp = None.
Proof.
  intros Hq Hv Hfp. destruct (all_accepted_quiet s Hq) as (Hq' & Hc & Hv' & _). pose proof (all_accepted_record s fp) as Hr.
  unfold pending in Hfp. rewrite Hv', (proj2 (Z.eqb_neq _ _) Hv), Hc in Hfp. apply elem_of_filter in Hfp as [Hu [Hcur Hna]%elem_of_difference].
  assert (Hn : quarantined_snapshot_fingerprints (all_accepted s) !! fp = None).
  { unfold undisclosed in Hu. destruct (quarantined_snapshot_fingerprints (all_accepted s) !! fp) as [r|] eqn:E; [|done].
    apply all_accepted_waits in E. unfold retry_pending in Hu. by apply bool_decide_eq_true in Hu. }
  assert (Hw : quarantined_snapshot_fingerprints s !! fp = None \/ exists r, quarantined_snapshot_fingerprints s !! fp = Some r /\ disposition r = RetryPending).
  { rewrite Hn in Hr. destruct (quarantined_snapshot_fingerprints s !! fp) as [r|]; [right|by left]. cbn in Hr. case_bool_decide; [|done]. by exists r. }
  assert (Ha : fp ∈ accepted s \/ (exists r, quarantined_snapshot_fingerprints s !! fp = Some r /\ disposition r = RetryPending) -> fp ∈ accepted (all_accepted s)).
  { intros Hin. unfold all_accepted, settle_index_after_upload in *.
    match goal with |- context [retain_quarantined_fingerprints ?q s] => destruct (retain_reads q s) as [Hc2 Hh2] end.
    rewrite record_quarantine in Hn.
    apply record_keeps; [|rewrite Hh2; apply Hq|by rewrite Hc2|done]. destruct Hin as [Hin|(r & Hr2 & Hd)]; [left|right].
    - apply retain_keeps; [done| |done]. by rewrite <-(proj1 (quiet_current s Hq)).
    - apply elem_of_dom. exists r. apply map_lookup_filter_Some. split; [done|]. by apply bool_decide_eq_true. }
  split.
  - unfold pending. rewrite (proj2 (Z.eqb_neq _ _) Hv). apply elem_of_filter. split; [|apply elem_of_difference; split; [done|intros Hin; by apply Hna, Ha; left]].
    unfold undisclosed. destruct Hw as [->|(r & -> & Hd)]; [done|]. by apply bool_decide_eq_true.
  - destruct Hw as [?|Hd]; [done|]. exfalso. by apply Hna, Ha; right.
Qed.

Lemma finish_cases s : finish_legacy_settlement_reconciliation s = s \/ finish_legacy_settlement_reconciliation s = seal_ledger s.
Proof. unfold finish_legacy_settlement_reconciliation. repeat case_match; first [by left|by right]. Qed.
Lemma finish_seals s : quiet s -> unproven s = false -> pending s = ∅ -> finish_legacy_settlement_reconciliation s = seal_ledger s.
Proof.
  intros Hq Hu Hp. unfold finish_legacy_settlement_reconciliation. by rewrite (quiet_known s Hq), Hu, (bool_decide_eq_true_2 _ Hp).
Qed.
Abbreviation unsealed s := (version s <> SNAPSHOT_ACCEPTED_LEDGER_VERSION).
Lemma unsealed_needs s : unsealed s <-> legacy_settlement_ledger_needs_migration s = true.
Proof. unfold legacy_settlement_ledger_needs_migration. by rewrite negb_true_iff, Z.eqb_neq. Qed.
Lemma reopen_quiet s : quiet s -> quiet (reopen_unproven_accepted_snapshot_ledger s) /\
  current (reopen_unproven_accepted_snapshot_ledger s) = current s /\
  quarantined_snapshot_fingerprints (reopen_unproven_accepted_snapshot_ledger s) = quarantined_snapshot_fingerprints s.
Proof.
  intros Hq. unfold reopen_unproven_accepted_snapshot_ledger. case_match; [|done]. destruct s as [[]], Hq. split; [by constructor|done].
Qed.
(** Where nothing waits, the pending revisions are those to arm. *)
Lemma unarmed_pending s : quiet s -> nothing_waits s -> unarmed_fingerprints s = pending s.
Proof.
  intros Hq Hn. apply set_eq. intros fp. unfold unarmed_fingerprints. rewrite elem_of_filter, elem_of_intersection.
  rewrite (proj2 (quiet_current s Hq)), <-(proj1 (quiet_current s Hq)). split; [tauto|]. intros Hp. split; [split|split; [|done]].
  - apply Hq.
  - unfold pending in Hp. case_match; [set_solver|]. apply elem_of_filter in Hp as [Hu _]. unfold undisclosed in Hu.
    destruct (quarantined_snapshot_fingerprints s !! fp) as [r|] eqn:E; [|done]. apply Hn in E. by apply bool_decide_eq_true in Hu.
  - unfold pending in Hp. case_match; [set_solver|]. apply elem_of_filter in Hp. set_solver.
Qed.

Lemma quiet_scan s s' : scan s' = scan s -> quiet s -> quiet s'.
Proof. intros He [Hf Hh Hx]. split; by rewrite He. Qed.
Lemma reopen_unsealed s : unsealed s -> unsealed (reopen_unproven_accepted_snapshot_ledger s).
Proof. unfold reopen_unproven_accepted_snapshot_ledger. case_match; [|done]. by destruct s as [[]]. Qed.
Lemma last_in_order fps : fps <> ∅ -> last (in_order fps) <> None.
Proof.
  intros Hne Hl%last_None. apply Hne, set_eq. intros fp. rewrite <-(proj2 (in_order_spec fps)), Hl. set_solver.
Qed.
(** What a page of an unproven-free ledger [s1] leaves pending once accepted. *)
Lemma accepted_page s1 t (page : gset string) r : quiet s1 -> unsealed s1 -> unproven s1 = false -> page <> ∅ ->
  scan t = scan s1 -> version t = version s1 -> cursor t = last (in_order page) ->
  quarantined_snapshot_fingerprints t = gset_to_gmap r page ∪ quarantined_snapshot_fingerprints s1 ->
  quiet (all_accepted t) /\ unsealed (all_accepted t) /\ unproven (all_accepted t) = false /\
  pending (all_accepted t) ⊆ pending s1 ∖ page.
Proof.
  intros Hq Hv Hu Hne Hs Hvt Hct Hqt. assert (Hqt1 : quiet t) by by apply (quiet_scan s1).
  destruct (all_accepted_quiet t Hqt1) as (Hq' & Hc' & Hv' & Hcu'). split; [done|]. split; [by rewrite Hv', Hvt|]. split.
  - apply orb_false_iff in Hu as [Hu _]. unfold legacy_settlement_ledger_is_unproven. rewrite Hv', Hvt, Hu, Hcu', Hct.
    rewrite (bool_decide_eq_false_2 _ (last_in_order page Hne)). by rewrite andb_false_r.
  - intros fp Hfp. apply all_accepted_pending in Hfp as [Hp Hn]; [|done|by rewrite Hvt].
    rewrite Hqt in Hn. apply lookup_union_None in Hn as [Hg Hn]. apply lookup_gset_to_gmap_None in Hg.
    unfold pending in *. rewrite Hvt, Hs in Hp. case_match; [by apply elem_of_empty in Hp|]. apply elem_of_filter in Hp as [_ Hp].
    apply elem_of_difference. split; [|done]. apply elem_of_filter. split; [|done]. unfold undisclosed. by rewrite Hn.
Qed.
(** A cycle over a page: it seals, or leaves a page fewer to arm. *)
Lemma page_cycle limit s k : quiet s -> unsealed s -> limit <> 0%nat -> nothing_waits s ->
  (size (pending (reopen_unproven_accepted_snapshot_ledger s)) <= S k * limit)%nat ->
  let s' := migration_cycle limit s in
  version s' = SNAPSHOT_ACCEPTED_LEDGER_VERSION \/
  (quiet s' /\ unsealed s' /\ nothing_waits s' /\ unproven s' = false /\ pending s' <> ∅ /\ size (pending s') <= k * limit)%nat.
Proof.
  intros Hq Hv Hl Hn Hs. cbv zeta. unfold migration_cycle. destruct (reopen_quiet s Hq) as (Hq1 & _ & Hr1).
  assert (Hn1 : nothing_waits (reopen_unproven_accepted_snapshot_ledger s)) by (unfold nothing_waits; by rewrite Hr1).
  assert (Hu1 : unarmed_fingerprints (reopen_unproven_accepted_snapshot_ledger s) = pending (reopen_unproven_accepted_snapshot_ledger s))
    by by apply unarmed_pending.
  destruct (armed_arms limit s (proj1 (unsealed_needs s) Hv)) as [Ho|Hpe|Hp [Hun|?]|s' s1 page Hun _ H1 H2 H3 H4]; try done.
  - rewrite (quiet_known s Hq) in Ho. done.
  - left. set (t := seal_ledger _). assert (Ht : version t = SNAPSHOT_ACCEPTED_LEDGER_VERSION) by apply seal_reads.
    destruct (finish_cases (all_accepted t)) as [->| ->]; [|apply seal_reads]. by unfold all_accepted; rewrite (proj1 (settle_reads _ _ t)).
  - exfalso. rewrite Hu1 in Hun. done.
  - destruct (next_page_spec (cursor s1) (unarmed_fingerprints s1) limit) as [Hsub Hsize]. fold page in Hsub, Hsize.
    assert (Hne : page <> ∅).
    { intros He. rewrite He, size_empty in Hsize. apply Hun, leibniz_equiv, size_empty_iff. lia. }
    destruct (accepted_page s1 s' page _ Hq1 (reopen_unsealed s Hv) (reopened_not_unproven s) Hne H1 H2 H3 H4) as (Hq' & Hv' & Hu' & Hp').
    destruct (decide (pending (all_accepted s') = ∅)) as [He|He]; [left; rewrite finish_seals by done; apply seal_reads|].
    destruct (finish_cases (all_accepted s')) as [->| ->]; [right|left; apply seal_reads].
    split_and!; [done|done|apply all_accepted_waits|done|done|]. apply subseteq_size in Hp'. fold s1 in Hs, Hu1. rewrite Hu1 in Hsub, Hsize.
    rewrite size_difference in Hp' by done. assert (size (pending (all_accepted s')) <> 0)%nat by (intros H0%size_empty_iff; by apply He, leibniz_equiv). lia.
Qed.
Lemma sealed_cycle limit s : version s = SNAPSHOT_ACCEPTED_LEDGER_VERSION ->
  version (migration_cycle limit s) = SNAPSHOT_ACCEPTED_LEDGER_VERSION.
Proof.
  intros Hv. unfold migration_cycle, prepare_legacy_settlement_reconciliation. rewrite Hv, Z.eqb_refl. cbn [snd].
  destruct (finish_cases (all_accepted s)) as [->| ->]; [|apply seal_reads]. unfold all_accepted. by rewrite (proj1 (settle_reads _ _ s)).
Qed.
Lemma sealed_cycles limit k s : version s = SNAPSHOT_ACCEPTED_LEDGER_VERSION ->
  version (Nat.iter k (migration_cycle limit) s) = SNAPSHOT_ACCEPTED_LEDGER_VERSION.
Proof. intros Hv. induction k as [|k IH]; [done|]. by apply sealed_cycle. Qed.
(** The first cycle leaves no record waiting. *)
Lemma first_cycle limit s : quiet s -> let s' := migration_cycle limit s in
  version s' = SNAPSHOT_ACCEPTED_LEDGER_VERSION \/ (quiet s' /\ nothing_waits s' /\ current s' = current s).
Proof.
  intros Hq. cbv zeta. destruct (decide (version s = SNAPSHOT_ACCEPTED_LEDGER_VERSION)) as [Hv|Hv]; [left; by apply sealed_cycle|].
  unfold migration_cycle. set (t := (prepare_legacy_settlement_reconciliation running limit s).2).
  assert (Ht : version t = SNAPSHOT_ACCEPTED_LEDGER_VERSION \/ (quiet t /\ current t = current s)).
  { destruct (reopen_quiet s Hq) as (Hq1 & Hc1 & _). unfold t. clear t.
    destruct (armed_arms limit s (proj1 (unsealed_needs s) Hv)) as [Ho|Hpe|Hp Hn|t s1 page Hun Hl H1 H2 H3 H4].
    - by right. - left. apply seal_reads. - by right. - right. rewrite H1. split; [by apply (quiet_scan s1)|done]. }
  destruct (finish_cases (all_accepted t)) as [->| ->]; [|left; apply seal_reads].
  destruct Ht as [Ht|[Ht Hc]]; [left; unfold all_accepted; by rewrite (proj1 (settle_reads _ _ t))|right].
  destruct (all_accepted_quiet t Ht) as (Hq' & Hc' & _). split; [done|]. split; [apply all_accepted_waits|congruence].
Qed.
Lemma pages_end limit k s : quiet s -> nothing_waits s -> limit <> 0%nat -> k <> 0%nat ->
  (size (pending (reopen_unproven_accepted_snapshot_ledger s)) <= k * limit)%nat ->
  version (Nat.iter k (migration_cycle limit) s) = SNAPSHOT_ACCEPTED_LEDGER_VERSION.
Proof.
  revert s. induction k as [|k IH]; intros s Hq Hn Hl Hk Hs; [done|].
  destruct (decide (version s = SNAPSHOT_ACCEPTED_LEDGER_VERSION)) as [Hv|Hv]; [by apply sealed_cycles|]. rewrite Nat.iter_succ_r.
  destruct (page_cycle limit s k Hq Hv Hl Hn Hs) as [He|(Hq' & Hv' & Hn' & Hu & Hp & Hs')]; [by apply sealed_cycles|].
  apply IH; try done.
  - intros ->. apply Hp, leibniz_equiv, size_empty_iff. lia.
  - unfold reopen_unproven_accepted_snapshot_ledger. by rewrite Hu.
Qed.

(** The migration ends: over an index on which nothing is held and that
    does not change, with every armed revision accepted, one cycle and as many
    as it takes to arm the current revisions in pages seal the ledger. *)
Theorem migration_ends limit k s : quiet s -> limit <> 0%nat -> k <> 0%nat -> (size (current_snapshot_fingerprint_refs (scan s)) <= k * limit)%nat ->
  legacy_settlement_ledger_needs_migration (Nat.iter (S k) (migration_cycle limit) s) = false.
Proof.
  intros Hq Hl Hk Hs. unfold legacy_settlement_ledger_needs_migration. apply negb_false_iff, Z.eqb_eq. rewrite Nat.iter_succ_r.
  destruct (first_cycle limit s Hq) as [He|(Hq' & Hn' & Hc)]; [by apply sealed_cycles|]. apply pages_end; try done.
  etrans; [|exact Hs]. apply subseteq_size. destruct (reopen_quiet _ Hq') as (_ & Hc1 & _).
  unfold pending. rewrite Hc1, Hc. case_match; [apply empty_subseteq|]. by intros fp [_ [? _]%elem_of_difference]%elem_of_filter.
Qed.
End Runs.

(** ** Witnesses *)
Definition build : SnapshotQuarantineWitness := mkWitness "" "1" "1" "1" 1 "" MAX_SNAPSHOT_ITEM_WIRE_BYTES.
(** Three revisions in two files, one of them accepted by the first migration. *)
Definition old_scan : ScanIndex :=
  mkIndex 7 ∅ {[ "a.jsonl"%string := {["aa"%string; "bb"%string]}; "b.jsonl"%string := {["cc"%string]} ]} {["aa"%string]} ∅ ∅ ∅ true
    (fun _ => false) None.
Definition old_index : LegacyIndex := mkLegacy old_scan 1 None ∅ None false 0 None.
Definition first_page : list LedgerStep := [Armed 50; Settled ∅ {["aa"%string; "bb"%string; "cc"%string]}].
Lemma ledger_sealed_with_proof_witness : "aa"%string ∈ all_acknowledged first_page \/
  exists r, quarantined_snapshot_fingerprints (settlement_steps build (first_page ++ [Finished]) old_index) !! "aa"%string = Some r /\
    disposition r <> RetryPending.
Proof.
  destruct (ledger_sealed_with_proof build first_page Finished old_index "aa") as [[_ H]|H]; [vm_compute; reflexivity..| |by left|by right].
  apply (bool_decide_eq_true_1 _). vm_compute. reflexivity.
Defined.
Lemma migration_ends_witness : legacy_settlement_ledger_needs_migration (Nat.iter 3 (migration_cycle build 2) old_index) = false.
Proof.
  apply (migration_ends build 2 2 old_index); [|lia|lia|vm_compute; lia].
  split; [done|done|]. intros key entry He. cbn in He. by apply lookup_empty_Some in He.
Defined.
(** The comment on [reopen_unproven_accepted_snapshot_ledger] says the next call
    resumes instead of clearing what was earned since.  Where every pending
    revision already waits, no page is armed and no cursor set, so the next call
    does clear it. *)
Definition waiting_index : LegacyIndex :=
  mkLegacy old_scan 1 None (gset_to_gmap (armed_record build) {["aa"%string; "bb"%string; "cc"%string]}) None false 0 None.
Definition still_waiting : gmap string SnapshotQuarantineRecord := gset_to_gmap (armed_record build) {["bb"%string; "cc"%string]}.
Lemma earned_acks_cleared :
  accepted (settlement_steps build [Armed 50; Settled still_waiting {["aa"%string]}; Finished] waiting_index) = {["aa"%string]} /\
  accepted (settlement_steps build [Armed 50; Settled still_waiting {["aa"%string]}; Finished; Armed 50] waiting_index) = ∅.
Proof. split; apply (bool_decide_eq_true_1 _); vm_compute; reflexivity. Qed.
